(* ===== verification/_CoqProject ===== *)
-Q . S2P
Prelude.v
Slices.v
Order.v
Num.v
Utf8.v
Paths.v
Text.v
StrEnum.v
Kinds.v
Entry.v
Record.v
Json.v
ScanData.v
Diff.v
Query.v
Render.v
Report.v
Sys.v
Root.v
Tree.v
RootLaws.v
Users.v
Scan.v
PathMap.v
Provenance.v
Backend.v
Apk.v
Pacman.v
Rpm.v
Dpkg.v
Generated.v
Reproduced.v
Databases.v
Collect.v
Pyyaml.v
PyyamlLaws.v
PyyamlEvents.v
Yaml.v
YamlLaws.v
Inetd.v
InetdLaws.v
Logrotate.v
Vcs.v
PythonSite.v
DisplayManager.v
Polkit.v
Editors.v
Sources.v
Inittab.v
CloudInit.v
CloudInitLaws.v
Cron.v
CronLaws.v
UnitFile.v
UnitFileLaws.v
Systemd.v
SystemdLaws.v
Commands.v
Targets.v
Fail2ban.v
Fail2banLaws.v
Chain.v
Judge.v
JudgeLaws.v
Dbus.v
Enrich.v
EnrichLaws.v
