(* ===== verification/Prelude.v ===== *)
(** * unbidden: a verification library

    [unbidden] (Rust, [src/src/]) lists everything a Linux system starts by
    itself. A scan opens a root (the running system, or an image mounted
    somewhere), lets a few dozen collectors read it, asks the package
    databases who ships each file, and gives a list of entries with a header.
    Scans are rendered, filtered, written as JSON and HTML, and compared. Every
    byte the tool reads may have been written by an attacker, and the tool runs
    as root: what it must never do (follow a link out of a home or an image,
    hang, lose a collector, print a control character, call an unchecked file
    intact) matters as much as what it does.

    ** How the library reads

    A string or a path is its bytes. A [Result] is [result E A], a panic is an
    error of the type [payload]. A [HashMap] or [BTreeMap] is a [gmap], read in
    key order where the code iterates over it ([Order]); a map over paths is
    keyed by the components, as Rust compares paths ([PathMap]). Machine
    integers are [N] or [Z] with their bounds written out. Code that reads the
    file system is a program of system calls ([Sys.prog]): [calls P] says every
    call a program can make satisfies [P], whatever the kernel answers;
    [returns Q] says every result it can come to satisfies [Q]; [run h] is the
    result on a tree that does not change. Packages that are not in the
    repository are parameters: BLAKE3, MD5, SHA-1 and SHA-256 ([Blake3],
    [Digests]), serde_json behind the serde interface ([Serde], with a concrete
    format that satisfies its laws in [Json]), Unicode's tables (lower-casing,
    [Targets.Alphanumeric]), the texts of system errors ([Strerror]), inflate
    ([Apk.Inflate]), SQLite ([Rpm.Sqlite]), tree-sitter's bash grammar
    ([Commands.ShellGrammar]) and what a D-Bus says ([Dbus.Buses]). Rust's Debug
    format of characters and strings is a parameter too ([Pyyaml.Debug]); an
    [f64] is the Standard Library's [SpecFloat].

    ** The parts

    Foundations. [Prelude]: bytes, results, byte classes. [Slices]: the slice
    and [str] methods. [Order]: Rust's orders, stable sorting, maps in key
    order. [Num]: decimal, hexadecimal and little-endian numbers. [Utf8]:
    decoding with replacement. [Paths]: [std::path]. [PathMap]: maps and sets
    of paths.

    [Text] ([text.rs]): words, globs, lexical normalisation, unquoting, base64,
    the INI reader. The glob matcher's fuel is shown to be enough.

    The record. [StrEnum], [Kinds]: the vocabularies of [entry.rs] through one
    interface. [Entry]: provenance, target verdicts, the entry, its identity
    over BLAKE3, and [dedup_ids], whose loop is shown to end before its 32-bit
    counter wraps. [Record]: an entry written to and read from any format with
    the serde laws; [Json]: one such format. [ScanData]: header, status, scan.

    What is done with scans. [Diff] ([diff.rs]): when two scans can be compared,
    what each row says and which are trusted. [Query] ([query.rs]): the filter
    language and the edits the pickers make to its text. [Render]
    ([render.rs]): suppression, terminal-safe text, the table, the JSON.
    [Report] ([report.rs]): the HTML page and the data in it.

    Reading a root. [Sys]: system calls as data. [Root] ([root.rs]):
    resolution by hand, opening with and without [openat2], the home rule,
    capped reads, listings. [RootLaws]: what those never ask of the kernel and
    where they end. [Tree]: a concrete kernel for witnesses and for the tests
    of [root.rs]. [Users] ([users.rs]): account discovery and the opening of a
    root. [Scan] ([scan.rs]): the context collectors read through, how an entry
    is made, and the run of the collectors with their panics.

    Package databases. [Provenance] ([provenance/mod.rs]): asking the backends
    and judging what none claims; the spellings of a path. [Backend]: what the
    backends share and the contract they keep, as the class [BackendLaws].
    [Dpkg], [Rpm], [Apk], [Pacman] ([provenance/dpkg.rs], [rpm.rs], [apk.rs],
    [pacman.rs]): each database's formats, read by hand as the code reads them,
    and its check of a file. [Generated], [Reproduced] ([generated.rs],
    [reproduced.rs]): the producers that explain what no package claims, by
    evidence or by running the generator again. [Databases]: all of them
    together, each discharging the interface [Provenance] is proved against.

    YAML. [Pyyaml] ([pyyaml.rs]): PyYAML's reader, scanner and parser, a state
    machine over explicit stacks, as a monad of states and faults. [PyyamlLaws]
    walks it by weakest preconditions; [PyyamlEvents] adds what the parser has
    open and a measure that falls with each event. [Yaml] ([yaml.rs]): the values
    built of the events, and the scalars' patterns; [YamlLaws]: what a value
    costs and what a mapping holds.

    Collectors. [Collect] ([collect/mod.rs]): reading through a context as a
    monad, and what collectors share: shell words, include patterns, the
    run-parts rules, the loader's directories. [Cron], with its laws in
    [CronLaws] ([collect/cron.rs]), [Inittab] ([collect/inittab.rs]), [CloudInit]
    with [CloudInitLaws] ([collect/cloudinit.rs]) and [Inetd] with [InetdLaws]
    ([collect/inetd.rs]): collectors whole, each as the entries it yields. [UnitFile] and [Systemd]
    ([collect/systemd.rs]), with [UnitFileLaws] and [SystemdLaws]: unit files
    and what they amount to, conditions included; the search paths, links,
    aliases and shadowing, generators, hooks, tmpfiles and presets.

    Enrichment ([enrich.rs], [dbus.rs]), between a scan and its reader.
    [Commands]: the commands a shell text holds, over a tree the grammar gives,
    and the programs each starts through wrappers. [Targets]: what an entry
    runs, and the tests it is guarded by. [Chain]: entries made of entries
    (preloads, interpreter variables, what a script hands control to). [Judge],
    with its laws in [JudgeLaws]: the verdicts, the location, what a command
    holds, who can write a search path, what the whole set decides. [Dbus]: the
    managers' answers and whose counts. [Enrich], with its laws in
    [EnrichLaws]: the passes in their order over [Databases].

    ** What the theorems show

    Confinement: an offline root never sends a call out of the tree
    ([RootLaws.offline_confined]); a path under a home is never opened through
    a link ([RootLaws.home_rule]); the homes are known from the root's opening
    ([Users.open_root_confines]). Honesty of a scan: every collector is
    accounted for ([Scan.scan_accounts]), an account cannot make one Partial
    from its home ([Scan.read_recorded]). Provenance: every path asked about is
    answered and every answer rests on what it should
    ([Databases.resolution_justified], [Provenance.resolution_precedence]); a
    database called complete was read whole and answers for just what it lists
    ([Dpkg.dpkg_complete], [Rpm.rpm_complete], [Apk.apk_complete],
    [Pacman.pacman_complete]); a file is intact only when its digest is the one
    recorded ([Dpkg.verify_sound], [Rpm.rpm_intact]), generated only on evidence
    ([Generated.generated_evidence]) and reproduced only when it is what its
    generator makes ([Reproduced.reproduced_exact]). Enrichment: a verdict that
    can hide a row rests on a verified file, through every pass up to the
    scan's last ([EnrichLaws.enriched_verdicts_justified]); no entry is lost and
    those made of others name them ([EnrichLaws.enrich_complete],
    [EnrichLaws.gathered_declared]), and a pass that panics costs one entry
    ([EnrichLaws.per_entry_isolated]). Shell text: the walk is a traversal
    ([Commands.commands_visit]), what it passes over starts nothing
    ([Commands.programs_passed_over]) and a wrapper never stands in for what it
    runs ([Commands.no_wrapper_vouches]). What flags mean:
    [JudgeLaws.search_path_flagged], [JudgeLaws.encoded_run_longest],
    [JudgeLaws.service_gated], [Targets.guard_search_whole]. Whose word counts:
    [Dbus.system_units_heard]. Collectors: every line of a table is accounted
    for ([CronLaws.tables_account]), enabled means that an init would run it
    ([Inittab.inittab_enabled]) or that an administrator's link says so
    ([SystemdLaws.units_enablement]); a unit called unable to start cannot
    ([UnitFileLaws.conditions_decided]), none is lost to its alias
    ([SystemdLaws.no_unit_lost]) and the first preset decides
    ([SystemdLaws.presets_first_match]). cloud-init's entries are enabled only
    where it is known to run ([CloudInitLaws.cloud_enabled_known]), its commands
    by what every source says ([CloudInitLaws.commands_decided]); a
    super-server's only where it is installed ([InetdLaws.inetd_served_only]),
    each of xinetd's by what switches it ([InetdLaws.services_switched]). YAML:
    no text makes the reader panic or run on ([PyyamlEvents.parser_returns]),
    aliases multiply nothing past the bounds ([YamlLaws.yaml_bounded]), and a
    mapping holds what Python's would ([YamlLaws.mapping_built]). Comparison: every entry of both scans is
    accounted for and nothing is claimed beyond what both saw ([Diff]). Safe
    output: [Render.visible_is_safe], [Report.embed_is_inert]. Round trips:
    records, verdicts, base64, INI, unit files, the apk database, the pacman
    manifest, the rpm header, cloud-init's quoting, the rules of hosts.allow. Meaning of small languages: globs, queries, authselect's
    expressions, apk's protected paths. Bounds and termination: reads, clips,
    identities, the page fill.

    Where the code does not do what it says, a theorem shows it:
    [Text.glob_match_star_text], [Entry.verdict_spoofed],
    [Query.toggle_choice_drops_quotes], [RootLaws.stat_dotdot_unconfined],
    [Users.home_directory_dropped], [Dpkg.diversions_unread_complete],
    [Generated.dotdot_generated], [Generated.snap_unit_second_command],
    [Rpm.lossy_link_intact], [CronLaws.at_commands_swallowed],
    [CronLaws.at_uid_overridden], [Commands.su_tail_unread],
    [JudgeLaws.relative_link_unflagged], [EnrichLaws.env_value_taken],
    [SystemdLaws.shadow_tie_unnoted], [SystemdLaws.preset_brackets_unmatched].

    ** Fuel and bounds

    [Text.glob_loop] has one step of fuel for each pair of positions; enough by
    [glob_match_total]. [Entry.dedup_loop] has one more than the ids seen;
    enough by [dedup_ids_ok] where BLAKE3 does not collide. [Root.resolve_loop]
    recurses on the links left, forty as in the code, and on the components
    still to come. [Apk.tar_from], [Reproduced.eval_loop] and
    [Reproduced.render_line] have a step for each byte of their input; enough
    by [tar_from_fuel], [eval_total] and [render_line_fuel], for each step
    consumes one. So have [Collect.first_absolute_from], [Judge.encoded_from]
    (enough by [encoded_from_best]), [Judge.split_sub],
    [Targets.guarded_from] (enough by [guarded_from_spec]) and
    [UnitFile.split_env_from] (enough by [split_env_fuel]). [Commands.walk] has
    a step for each node of the tree (enough by [walk_visit]);
    [Commands.programs] recurses on the levels that may still be entered,
    seventeen as in the code, [Collect.ld_so_conf] and [Inetd.xinetd_file] on
    their nine levels of inclusion. The scanner's loops have a step for each
    character left ([Pyyaml.fuel_for]; running out is the fault [Spent], which
    the laws exclude), the parser one for each token a character can make, and
    [Pyyaml.events_fuel] is enough by [parser_returns]. Everything else is structural.

    ** Not modelled

    [Root]'s xattr and filesystem_id, two queries nothing else here uses; the
    command line, the terminal interface, the D-Bus connection with its
    deadlines, and the explain view (I/O around the parts modelled); the other
    collectors under [collect/]. No pass of
    the model panics but those [per_entry] is given, so the guard around whole
    stages is not a definition. Threads: collectors share
    nothing they change, so a scan runs them one after another. *)

From Stdlib Require Export Strings.Byte NArith ZArith Lia.
From stdpp Require Export base option list gmap sorting strings pretty.

(** ** Bytes and byte strings

    A Rust [&[u8]], [Vec<u8>], [OsStr] or [Path] is a list of bytes, and so is
    a [&str] or [String], which Rust stores as UTF-8. *)

Abbreviation bytes := (list byte).

#[global] Instance byte_eq_dec : EqDecision byte.
Proof. exact Byte.byte_eq_dec. Defined.

#[global] Instance byte_countable : Countable byte :=
  inj_countable Byte.to_N Byte.of_N Byte.of_to_N.

#[global] Instance byte_inhabited : Inhabited byte := populate x00.

(** A literal: [#"abc"] is the bytes of the string. *)
Definition lit (s : string) : bytes := String.list_byte_of_string s.

Declare Scope unbidden_scope.
Delimit Scope unbidden_scope with unb.
Notation "# s" := (lit s%string) (at level 1, s at level 0, format "# s") : unbidden_scope.
Open Scope unbidden_scope.

(** ** Results *)

Inductive result (E A : Type) : Type :=
| Ok (a : A)
| Err (e : E).
Arguments Ok {E A} a.
Arguments Err {E A} e.

#[global] Instance result_ret E : MRet (result E) := fun A a => Ok a.
#[global] Instance result_bind E : MBind (result E) :=
  fun A B f m => match m with Ok a => f a | Err e => Err e end.
#[global] Instance result_fmap E : FMap (result E) :=
  fun A B f m => match m with Ok a => Ok (f a) | Err e => Err e end.

Definition is_ok {E A} (r : result E A) : bool :=
  match r with Ok _ => true | Err _ => false end.
Definition ok {E A} (r : result E A) : option A :=
  match r with Ok a => Some a | Err _ => None end.
Definition ok_or {E A} (e : E) (o : option A) : result E A :=
  match o with Some a => Ok a | None => Err e end.

Lemma result_bind_Ok {E A B} (m : result E A) (f : A -> result E B) y :
  m ≫= f = Ok y <-> exists x, m = Ok x /\ f x = Ok y.
Proof. destruct m; simpl; naive_solver. Qed.

Lemma ok_or_Ok {E A} (e : E) (o : option A) a : ok_or e o = Ok a <-> o = Some a.
Proof. destruct o; simpl; naive_solver. Qed.

(** ** Byte classes *)

Definition byte_in (lo hi b : byte) : bool :=
  (Byte.to_N lo <=? Byte.to_N b)%N && (Byte.to_N b <=? Byte.to_N hi)%N.

(** [as u8] of a wider integer. *)
Definition byte_of_N (n : N) : byte := default x00 (Byte.of_N (n mod 256)).

(** [u8::is_ascii_whitespace]: blank, tab, line feed, form feed, carriage
    return; not the vertical tab. *)
Definition is_ascii_whitespace (b : byte) : bool :=
  match b with x20 | x09 | x0a | x0c | x0d => true | _ => false end.
Definition is_ascii_digit (b : byte) : bool := byte_in "0" "9" b.
Definition is_ascii_lower (b : byte) : bool := byte_in "a" "z" b.
Definition is_ascii_upper (b : byte) : bool := byte_in "A" "Z" b.
Definition is_ascii_alphanumeric (b : byte) : bool :=
  is_ascii_digit b || is_ascii_lower b || is_ascii_upper b.
Definition is_ascii (b : byte) : bool := (Byte.to_N b <? 128)%N.

Definition to_ascii_lowercase1 (b : byte) : byte :=
  if is_ascii_upper b then byte_of_N (Byte.to_N b + 32) else b.
(** [str::to_ascii_lowercase] and [eq_ignore_ascii_case]. *)
Definition to_ascii_lowercase (s : bytes) : bytes := to_ascii_lowercase1 <$> s.
Definition eq_ignore_ascii_case (s t : bytes) : bool :=
  bool_decide (to_ascii_lowercase s = to_ascii_lowercase t).

Lemma byte_to_N_lt (b : byte) : (Byte.to_N b < 256)%N.
Proof. pose proof (Byte.to_N_bounded b). lia. Qed.

Lemma byte_to_N_inj (a b : byte) : Byte.to_N a = Byte.to_N b -> a = b.
Proof.
  intros H. pose proof (Byte.of_to_N a). pose proof (Byte.of_to_N b). congruence.
Qed.

Lemma to_N_byte_of_N (n : N) : Byte.to_N (byte_of_N n) = (n mod 256)%N.
Proof.
  unfold byte_of_N. destruct (Byte.of_N (n mod 256)) as [b|] eqn:E; simpl.
  - by apply Byte.to_of_N.
  - apply Byte.of_N_None_iff in E. pose proof (N.mod_lt n 256 ltac:(done)). lia.
Qed.

Lemma byte_of_N_to_N (b : byte) : byte_of_N (Byte.to_N b) = b.
Proof.
  apply byte_to_N_inj. rewrite to_N_byte_of_N.
  apply N.mod_small, byte_to_N_lt.
Qed.

(** A property of every byte, decided by looking at all 256. *)
Definition all_bytes : list byte := byte_of_N ∘ N.of_nat <$> seq 0 256.
Lemma all_bytes_complete (b : byte) : b ∈ all_bytes.
Proof.
  unfold all_bytes. apply list_elem_of_fmap. exists (N.to_nat (Byte.to_N b)). split.
  - simpl. by rewrite N2Nat.id, byte_of_N_to_N.
  - apply elem_of_seq. pose proof (byte_to_N_lt b). lia.
Qed.
Lemma byte_forall (P : byte -> bool) : forallb P all_bytes = true -> forall b, P b = true.
Proof.
  intros H b. eapply forallb_forall in H; [done|].
  apply list_elem_of_In, all_bytes_complete.
Qed.
