(* ===== verification/Slices.v ===== *)
(** The operations of [core::slice] and [core::str] the program uses, on lists:
    prefixes, suffixes, splitting, searching, joining, trimming, and the laws
    the components share. A [str] separator is a list too, so one definition
    serves bytes and characters. *)

From S2P Require Import Prelude.

Section slices.
Context {A : Type} `{EqDecision A}.
Implicit Types (l s t p sep : list A) (f : A -> bool).

(** ** Prefixes and suffixes *)

Fixpoint strip_prefix p l : option (list A) :=
  match p, l with
  | [], _ => Some l
  | x :: p', y :: l' => if decide (x = y) then strip_prefix p' l' else None
  | _ :: _, [] => None
  end.

Definition starts_with p l : bool :=
  match strip_prefix p l with Some _ => true | None => false end.

Definition strip_suffix s l : option (list A) :=
  reverse <$> strip_prefix (reverse s) (reverse l).

Definition ends_with s l : bool :=
  match strip_suffix s l with Some _ => true | None => false end.

(** ** Splitting *)

(** [slice::split] and [str::split] by a predicate: one piece more than
    there are separators. *)
Fixpoint split_on f l : list (list A) :=
  match l with
  | [] => [[]]
  | x :: l' =>
      if f x then [] :: split_on f l'
      else match split_on f l' with
           | [] => [[x]]
           | s :: ss => (x :: s) :: ss
           end
  end.

(** [slice::iter().position]. *)
Fixpoint position f l : option nat :=
  match l with
  | [] => None
  | x :: l' => if f x then Some 0 else S <$> position f l'
  end.

(** [str::split_once]: at the first occurrence of a nonempty separator. *)
Fixpoint split_once sep l : option (list A * list A) :=
  match strip_prefix sep l with
  | Some r => Some ([], r)
  | None =>
      match l with
      | [] => None
      | x :: l' =>
          match split_once sep l' with
          | Some (a, r) => Some (x :: a, r)
          | None => None
          end
      end
  end.

(** [str::rsplit_once]: at the last occurrence. *)
Fixpoint rsplit_once sep l : option (list A * list A) :=
  match l with
  | [] => match strip_prefix sep [] with Some r => Some ([], r) | None => None end
  | x :: l' =>
      match rsplit_once sep l' with
      | Some (a, r) => Some (x :: a, r)
      | None =>
          match strip_prefix sep l with
          | Some r => Some ([], r)
          | None => None
          end
      end
  end.

(** [str::contains] a string. *)
Definition contains_sub sep l : bool :=
  match split_once sep l with Some _ => true | None => false end.

(** [str::replace] of a nonempty pattern, left to right, none overlapping;
    each round takes at least one element, so the length is fuel enough. *)
Fixpoint replace_fuel (n : nat) from to l : list A :=
  match n with
  | 0 => l
  | S n' =>
      match split_once from l with
      | Some (a, r) => a ++ to ++ replace_fuel n' from to r
      | None => l
      end
  end.
Definition replace_all from to l : list A := replace_fuel (length l) from to l.

(** [[T]::join]. *)
Fixpoint join sep (ls : list (list A)) : list A :=
  match ls with
  | [] => []
  | [l] => l
  | l :: ls' => l ++ sep ++ join sep ls'
  end.

(** ** Trimming *)

Fixpoint take_while f l : list A :=
  match l with
  | [] => []
  | x :: l' => if f x then x :: take_while f l' else []
  end.
Fixpoint drop_while f l : list A :=
  match l with
  | [] => []
  | x :: l' => if f x then drop_while f l' else l
  end.
Definition drop_while_end f l : list A := reverse (drop_while f (reverse l)).
Definition trim_by f l : list A := drop_while_end f (drop_while f l).

(** The words between runs of a separator: [split_whitespace]. *)
Definition words_by f l : list (list A) :=
  List.filter (fun w => negb (bool_decide (w = []))) (split_on f l).

(** [slice::chunks]: pieces of [n], the last one shorter. *)
Fixpoint chunks_fuel (fuel n : nat) l : list (list A) :=
  match fuel, l with
  | 0, _ | _, [] => []
  | S fuel', _ => take n l :: chunks_fuel fuel' n (drop n l)
  end.
Definition chunks (n : nat) l : list (list A) := chunks_fuel (length l) n l.

(** [slice::contains]. *)
Definition mem (x : A) l : bool := bool_decide (x ∈ l).

(** [Vec::truncate], by a machine number: nothing is counted out when nothing
    is cut. *)
Definition take_n (n : N) l : list A := if (N.of_nat (length l) <=? n)%N then l else take (N.to_nat n) l.
End slices.

Lemma take_n_take {A} n (l : list A) : take_n n l = take (N.to_nat n) l.
Proof. unfold take_n. destruct (N.leb_spec (N.of_nat (length l)) n); [|done]. rewrite take_ge; [done|lia]. Qed.
Lemma ex_elem_cons {A} (P : A -> Prop) x (l : list A) : (exists y, y ∈ x :: l /\ P y) <-> P x \/ exists y, y ∈ l /\ P y.
Proof.
  split.
  - intros (y & [-> |Hy]%elem_of_cons & H); [by left|right; by exists y].
  - intros [H|(y & Hy & H)]; [exists x; split; [by left|done]|exists y; split; [by right|done]].
Qed.
Lemma length_take_n {A} n (l : list A) : N.of_nat (length (take_n n l)) = N.min n (N.of_nat (length l)).
Proof. rewrite take_n_take, length_take. lia. Qed.

(** ** ASCII and lines *)

Definition trim_ascii_start : bytes -> bytes := drop_while is_ascii_whitespace.
Definition trim_ascii : bytes -> bytes := trim_by is_ascii_whitespace.

Definition is_byte (c : byte) : byte -> bool := fun x => bool_decide (x = c).

(** [str::lines]: pieces ending at a line feed, a carriage return before it
    taken too; what follows the last line feed is a line only when there is
    some. *)
Definition strip_cr (l : bytes) : bytes := default l (strip_suffix [x0d] l).
Definition lines (s : bytes) : list bytes :=
  match reverse (split_on (is_byte x0a) s) with
  | [] => []
  | final :: ended =>
      (strip_cr <$> reverse ended) ++ (if bool_decide (final = []) then [] else [final])
  end.

(** ** Laws *)

Section slice_laws.
Context {A : Type} `{EqDecision A}.
Implicit Types (l s t p sep r : list A) (f : A -> bool).

Lemma strip_prefix_Some p l r : strip_prefix p l = Some r <-> l = p ++ r.
Proof.
  revert l. induction p as [|x p IH]; intros l; simpl; [naive_solver|].
  destruct l as [|y l]; simpl; [naive_solver|].
  destruct (decide (x = y)) as [->|]; [rewrite IH|]; naive_solver.
Qed.

Lemma strip_prefix_app p r : strip_prefix p (p ++ r) = Some r.
Proof. by apply strip_prefix_Some. Qed.

Lemma strip_prefix_nil_Some p r : strip_prefix p [] = Some r -> p = [] /\ r = [].
Proof. rewrite strip_prefix_Some. intros E. symmetry in E. by apply app_eq_nil in E. Qed.

Lemma starts_with_true p l : starts_with p l = true <-> exists r, l = p ++ r.
Proof.
  unfold starts_with. destruct (strip_prefix p l) as [r|] eqn:E.
  - apply strip_prefix_Some in E. naive_solver.
  - split; [done|]. intros [r ->]. by rewrite strip_prefix_app in E.
Qed.

Lemma strip_suffix_Some s l r : strip_suffix s l = Some r <-> l = r ++ s.
Proof.
  unfold strip_suffix. split.
  - destruct (strip_prefix _ _) as [t|] eqn:E; simpl; [|done]. intros [= <-].
    apply strip_prefix_Some in E.
    by rewrite <- (reverse_involutive l), E, reverse_app, reverse_involutive.
  - intros ->. rewrite reverse_app, strip_prefix_app. simpl. by rewrite reverse_involutive.
Qed.

Lemma strip_suffix_app s r : strip_suffix s (r ++ s) = Some r.
Proof. by apply strip_suffix_Some. Qed.

Lemma ends_with_true s l : ends_with s l = true <-> exists r, l = r ++ s.
Proof.
  unfold ends_with. destruct (strip_suffix s l) as [r|] eqn:E.
  - apply strip_suffix_Some in E. naive_solver.
  - split; [done|]. intros [r ->]. by rewrite strip_suffix_app in E.
Qed.

Lemma split_on_not_nil f l : split_on f l <> [].
Proof. destruct l; simpl; [done|]. repeat case_match; done. Qed.

Lemma split_on_no_sep f l s : s ∈ split_on f l -> Forall (fun x => f x = false) s.
Proof.
  revert s. induction l as [|x l IH]; simpl; intros s.
  - intros ->%list_elem_of_singleton. constructor.
  - destruct (f x) eqn:Hx.
    + intros [->|H]%elem_of_cons; [constructor|by apply IH].
    + destruct (split_on f l) as [|t ts].
      * intros ->%list_elem_of_singleton. by repeat constructor.
      * intros [->|H]%elem_of_cons; [|apply IH; by right].
        constructor; [done|]. apply IH. by left.
Qed.

(** Splitting at one separator and joining with it is the identity. *)
Lemma join_split_on (c : A) f l :
  (forall x, f x = true <-> x = c) -> join [c] (split_on f l) = l.
Proof.
  intros Hf. induction l as [|x l IH]; simpl; [done|].
  destruct (f x) eqn:Hx.
  - apply Hf in Hx as ->. pose proof (split_on_not_nil f l).
    destruct (split_on f l) as [|s ss]; [done|].
    rewrite <- IH. done.
  - destruct (split_on f l) as [|s ss] eqn:E; [by apply split_on_not_nil in E|].
    destruct ss; simpl in *; by rewrite IH.
Qed.

Lemma split_on_none f l : Forall (fun x => f x = false) l -> split_on f l = [l].
Proof. induction 1 as [|x l Hx _ IH]; simpl; [done|]. by rewrite Hx, IH. Qed.

Lemma split_on_app f l (c : A) r :
  Forall (fun x => f x = false) l -> f c = true ->
  split_on f (l ++ c :: r) = l :: split_on f r.
Proof.
  intros Hl Hc. induction Hl as [|x l Hx _ IH]; simpl; [by rewrite Hc|].
  by rewrite Hx, IH.
Qed.

Lemma split_on_join (c : A) f (ls : list (list A)) :
  f c = true -> ls <> [] -> Forall (Forall (fun x => f x = false)) ls ->
  split_on f (join [c] ls) = ls.
Proof.
  intros Hc Hne Hls. induction Hls as [|l ls Hl Hls IH]; [done|].
  destruct ls as [|m ls]; [by apply split_on_none|].
  change (join [c] (l :: m :: ls)) with (l ++ c :: join [c] (m :: ls)).
  by rewrite split_on_app, IH.
Qed.

Lemma position_Some f l i :
  position f l = Some i ->
  i < length l /\ Forall (fun x => f x = false) (take i l) /\
  exists x, l !! i = Some x /\ f x = true.
Proof.
  revert i. induction l as [|x l IH]; simpl; intros i; [done|].
  destruct (f x) eqn:Hx; simpl.
  - intros [= <-]. split; [lia|]. split; [constructor|]. by exists x.
  - destruct (position f l) as [j|] eqn:E; simpl; [|done]. intros [= <-].
    destruct (IH j eq_refl) as (Hl & Hf & y & Hy & Hfy).
    split; [lia|]. split; [by constructor|]. by exists y.
Qed.

Lemma position_None f l : position f l = None <-> Forall (fun x => f x = false) l.
Proof.
  induction l as [|x l IH]; simpl.
  - split; [constructor|done].
  - rewrite Forall_cons. destruct (f x) eqn:Hx; [naive_solver|].
    destruct (position f l); simpl; naive_solver.
Qed.

Lemma split_once_Some sep l a r : split_once sep l = Some (a, r) -> l = a ++ sep ++ r.
Proof.
  revert a r. induction l as [|x l IH]; intros a r; simpl.
  - destruct (strip_prefix sep []) eqn:E; [|done]. intros [= <- <-].
    by apply strip_prefix_Some in E.
  - destruct (strip_prefix sep (x :: l)) eqn:E.
    + intros [= <- <-]. by apply strip_prefix_Some in E.
    + destruct (split_once sep l) as [[a' r']|]; [|done].
      intros [= <- <-]. simpl. f_equal. by apply IH.
Qed.

Lemma split_once_None_app sep l a r : split_once sep l = None -> l <> a ++ sep ++ r.
Proof.
  revert a. induction l as [|x l IH]; intros a; simpl.
  - destruct (strip_prefix sep []) eqn:E; [done|]. intros _ H.
    symmetry in H. apply app_eq_nil in H as [-> H]. simpl in H.
    by rewrite <- H, strip_prefix_app in E.
  - destruct (strip_prefix sep (x :: l)) eqn:E; [done|].
    destruct (split_once sep l) as [[a' r']|]; [done|]. intros _ H.
    destruct a as [|y a]; simpl in H.
    + by rewrite H, strip_prefix_app in E.
    + injection H as -> H. by eapply (IH a eq_refl).
Qed.

Lemma contains_sub_true sep l :
  contains_sub sep l = true <-> exists a r, l = a ++ sep ++ r.
Proof.
  unfold contains_sub. destruct (split_once sep l) as [[a r]|] eqn:E.
  - apply split_once_Some in E. naive_solver.
  - split; [done|]. intros (a & r & H). by eapply split_once_None_app in E.
Qed.

Lemma rsplit_once_Some sep l a r : rsplit_once sep l = Some (a, r) -> l = a ++ sep ++ r.
Proof.
  revert a r. induction l as [|x l IH]; intros a r; simpl.
  - destruct (strip_prefix sep []) eqn:E; [|done]. intros [= <- <-].
    by apply strip_prefix_Some in E.
  - destruct (rsplit_once sep l) as [[a' r']|] eqn:E1.
    + intros [= <- <-]. simpl. f_equal. by apply IH.
    + destruct (strip_prefix sep (x :: l)) eqn:E; [|done].
      intros [= <- <-]. by apply strip_prefix_Some in E.
Qed.

Lemma rsplit_once_None sep l a r : rsplit_once sep l = None -> l <> a ++ sep ++ r.
Proof.
  revert a. induction l as [|x l IH]; intros a; simpl.
  - destruct (strip_prefix sep []) eqn:E; [done|]. intros _ H.
    symmetry in H. apply app_eq_nil in H as [-> H]. simpl in H.
    by rewrite <- H, strip_prefix_app in E.
  - destruct (rsplit_once sep l) as [[a' r']|] eqn:E1; [done|].
    destruct (strip_prefix sep (x :: l)) eqn:E; [done|]. intros _ H.
    destruct a as [|y a]; simpl in H.
    + by rewrite H, strip_prefix_app in E.
    + injection H as -> H. by eapply (IH a eq_refl).
Qed.

(** The last occurrence is found when none starts later. *)
Lemma rsplit_once_last sep a r :
  sep <> [] ->
  (forall a' r', sep ++ r = a' ++ sep ++ r' -> a' = []) ->
  rsplit_once sep (a ++ sep ++ r) = Some (a, r).
Proof.
  intros Hsep Hlast. induction a as [|x a IH]; simpl.
  - destruct sep as [|c sep]; [done|]. simpl.
    destruct (rsplit_once (c :: sep) (sep ++ r)) as [[a' r']|] eqn:E.
    + apply rsplit_once_Some in E.
      discriminate (Hlast (c :: a') r' ltac:(simpl; f_equal; exact E)).
    + rewrite decide_True by done. by rewrite strip_prefix_app.
  - by rewrite IH.
Qed.

(** A separator of one element cuts at its first occurrence. *)
Lemma split_once_one (c : A) l a r : split_once [c] l = Some (a, r) <-> l = a ++ c :: r /\ c ∉ a.
Proof.
  revert a r. induction l as [|x l IH]; intros a r; cbn [split_once].
  - split; [done|]. intros [E _]. by destruct a.
  - cbn [strip_prefix]. case_decide as Hx.
    + subst x. split; [intros [= <- <-]; split; [done|by intros ?%elem_of_nil]|]. intros [E Ha].
      destruct a as [|y a]; [by injection E as ->|]. injection E as <- _. destruct Ha. by left.
    + destruct (split_once [c] l) as [[a' r']|].
      * destruct (proj1 (IH a' r') eq_refl) as [-> Ha']. split.
        -- intros [= <- <-]. split; [done|]. by rewrite not_elem_of_cons.
        -- intros [E Ha]. destruct a as [|y a]; [by injection E as ->|]. injection E as <- E.
           apply not_elem_of_cons in Ha as [_ Ha]. by injection (proj2 (IH a r) (conj E Ha)) as -> ->.
      * split; [done|]. intros [E Ha]. destruct a as [|y a]; [by injection E as ->|]. injection E as <- E.
        apply not_elem_of_cons in Ha as [_ Ha]. by pose proof (proj2 (IH a r) (conj E Ha)).
Qed.

(** The first, or last, separator of a list is where it is, however the list
    is cut there. *)
Lemma cut_first (c : A) a r b t :
  c ∉ a -> c ∉ b -> a ++ c :: r = b ++ c :: t -> a = b /\ r = t.
Proof.
  revert b. induction a as [|x a IH]; intros [|y b] Ha Hb; simpl.
  - by intros [= ->].
  - intros [= -> _]. destruct Hb. by left.
  - intros [= -> _]. destruct Ha. by left.
  - intros [= -> E]. apply not_elem_of_cons in Ha as [_ Ha]. apply not_elem_of_cons in Hb as [_ Hb].
    destruct (IH b Ha Hb E) as [-> ->]. done.
Qed.

Lemma cut_last (c : A) a r b t :
  c ∉ r -> c ∉ t -> a ++ c :: r = b ++ c :: t -> a = b /\ r = t.
Proof.
  intros Hr Ht E. apply (f_equal reverse) in E.
  rewrite !reverse_app, !reverse_cons, <- !app_assoc in E. cbn [app] in E.
  apply cut_first in E as [E1 E2]; [|by rewrite elem_of_reverse..].
  apply (inj reverse) in E1, E2. done.
Qed.

Lemma rsplit_once_app sep a l :
  rsplit_once sep l = Some ([], drop (length sep) l) ->
  rsplit_once sep (a ++ l) = Some (a, drop (length sep) l).
Proof. intros H. induction a as [|x a IH]; simpl; [done|]. by rewrite IH. Qed.

Lemma drop_while_suffix f l : exists p, l = p ++ drop_while f l /\ Forall (fun x => f x = true) p.
Proof.
  induction l as [|x l IH]; simpl; [by exists []|].
  destruct (f x) eqn:Hx; [|by exists []].
  destruct IH as (p & Hp & Hall). exists (x :: p). simpl. split; [by f_equal|by constructor].
Qed.

Lemma drop_while_head f l x : head (drop_while f l) = Some x -> f x = false.
Proof. induction l as [|y l IH]; simpl; [done|]. destruct (f y) eqn:E; simpl; naive_solver. Qed.

Lemma drop_while_all f l : Forall (fun x => f x = true) l -> drop_while f l = [].
Proof. induction 1 as [|x l Hx _ IH]; simpl; [done|]. by rewrite Hx. Qed.

Lemma drop_while_id f l : (forall x, head l = Some x -> f x = false) -> drop_while f l = l.
Proof. destruct l as [|x l]; simpl; [done|]. intros H. by rewrite (H x). Qed.

Lemma drop_while_length f l : length (drop_while f l) <= length l.
Proof. induction l as [|x l IH]; simpl; [done|]. case_match; simpl; lia. Qed.

Lemma chunks_fuel_enough n fuel l :
  length l <= fuel -> 0 < n -> chunks_fuel fuel n l = chunks n l.
Proof.
  intros Hf Hn. unfold chunks. remember (length l) as m eqn:Hm.
  assert (G : forall (f g : nat) (k : list A), length k <= f -> length k <= g ->
    chunks_fuel f n k = chunks_fuel g n k).
  { induction f as [|f IH]; intros g [|x k] Hf' Hg; destruct g as [|g]; simpl in *; try lia; try done.
    f_equal. apply IH; rewrite length_drop; simpl; lia. }
  apply G; lia.
Qed.

Lemma chunks_cons n l : l <> [] -> 0 < n -> chunks n l = take n l :: chunks n (drop n l).
Proof.
  intros Hl Hn. destruct l as [|x l]; [done|]. unfold chunks at 1. simpl. f_equal.
  apply chunks_fuel_enough; [rewrite length_drop; simpl; lia|done].
Qed.

Lemma take_while_app f p l :
  Forall (fun x => f x = true) p -> (forall x, head l = Some x -> f x = false) -> take_while f (p ++ l) = p.
Proof.
  intros Hp Hl. induction Hp as [|x p Hx _ IH]; cbn; [|by rewrite Hx, IH].
  destruct l as [|x l]; [done|]. cbn. by rewrite (Hl x eq_refl).
Qed.
Lemma take_while_split f l :
  exists r, l = take_while f l ++ r /\ Forall (fun x => f x = true) (take_while f l) /\ forall x, head r = Some x -> f x = false.
Proof.
  induction l as [|x l (r & E & Ht & Hr)]; [by exists []|]. cbn. destruct (f x) eqn:Hx.
  - exists r. cbn. rewrite <- E. split; [done|]. by split; [constructor|].
  - exists (x :: l). split; [done|]. split; [constructor|]. by intros y [= <-].
Qed.

Lemma drop_while_app_all f p l : Forall (fun x => f x = true) p -> drop_while f (p ++ l) = drop_while f l.
Proof. induction 1 as [|x p Hx _ IH]; simpl; [done|]. by rewrite Hx. Qed.

Lemma position_app f l (c : A) r :
  Forall (fun x => f x = false) l -> f c = true -> position f (l ++ c :: r) = Some (length l).
Proof. intros Hl Hc. induction Hl as [|x l Hx _ IH]; simpl; [by rewrite Hc|]. by rewrite Hx, IH. Qed.

(** Text with nothing to trim at either end. *)
Definition trimmed f l : Prop :=
  (forall x, head l = Some x -> f x = false) /\ (forall x, last l = Some x -> f x = false).

Lemma head_reverse l : head (reverse l) = last l.
Proof. rewrite <- (reverse_involutive l) at 2. destruct (reverse l) as [|x k]; [done|].
  rewrite reverse_cons, last_snoc. done. Qed.

Lemma trim_by_id f l : trimmed f l -> trim_by f l = l.
Proof.
  intros [H1 H2]. unfold trim_by, drop_while_end. rewrite (drop_while_id f l H1).
  rewrite drop_while_id; [apply reverse_involutive|]. intros x. rewrite head_reverse. apply H2.
Qed.

Lemma trim_by_trimmed f l : trimmed f (trim_by f l).
Proof.
  unfold trim_by, drop_while_end. set (k := drop_while f l).
  destruct (drop_while_suffix f (reverse k)) as (p & Hp & Hall).
  apply (f_equal reverse) in Hp. rewrite reverse_involutive, reverse_app in Hp. split; intros x Hx.
  - apply (drop_while_head f l). fold k. rewrite Hp.
    destruct (reverse (drop_while f (reverse k))); [done|]. done.
  - rewrite <- head_reverse, reverse_involutive in Hx. by apply drop_while_head in Hx.
Qed.
End slice_laws.

Create HintDb slices.
#[export] Hint Rewrite @strip_prefix_app @strip_suffix_app using done : slices.
#[export] Hint Resolve split_on_not_nil : slices.

(** [&l[n..]] by a machine number, where what lies past the end is nothing. *)
Definition drop_n {A} (n : N) (l : list A) : list A := if (N.of_nat (length l) <=? n)%N then [] else drop (N.to_nat n) l.
Lemma drop_n_drop {A} n (l : list A) : drop_n n l = drop (N.to_nat n) l.
Proof. unfold drop_n. destruct (N.leb_spec (N.of_nat (length l)) n); [|done]. rewrite drop_ge; [done|lia]. Qed.

(** [slice.get(i..)]. *)
Definition get_from {A} (i : nat) (l : list A) : option (list A) := if i <=? length l then Some (drop i l) else None.
(** [slice::split_at_checked]. *)
Definition split_at_checked {A} (i : nat) (l : list A) : option (list A * list A) :=
  if i <=? length l then Some (take i l, drop i l) else None.

(** ** Folds *)

Lemma foldl_ext_in {A B} (f g : B -> A -> B) b l :
  (forall b a, a ∈ l -> f b a = g b a) -> foldl f b l = foldl g b l.
Proof.
  revert b. induction l as [|a l IH]; intros b H; [done|]. cbn. rewrite H by by left.
  apply IH. intros b' a' ?. apply H. by right.
Qed.
Lemma foldl_seq_S {B} (f : B -> nat -> B) b i n : foldl f b (seq (S i) n) = foldl (fun b k => f b (S k)) b (seq i n).
Proof. revert b i. induction n as [|n IH]; intros b i; [done|]. cbn. apply IH. Qed.

Lemma split_on_position {A} (f : A -> bool) l :
  split_on f l = match position f l with Some i => take i l :: split_on f (drop (i + 1) l) | None => [l] end.
Proof.
  induction l as [|x l IH]; [done|]. cbn. destruct (f x); [done|]. rewrite IH. by destruct (position f l).
Qed.
Lemma split_once_first {A} `{EqDecision A} (sep l a r a' r' : list A) :
  split_once sep l = Some (a, r) -> l = a' ++ sep ++ r' -> length a <= length a'.
Proof.
  revert a r l. induction a' as [|x a' IH]; intros a r l Es ->.
  - destruct sep as [|y sep]; cbn [app] in *; [by destruct r'; cbn in Es; injection Es as <- <-|].
    cbn [split_once] in Es. rewrite (strip_prefix_app (y :: sep) r') in Es. by injection Es as <- <-.
  - cbn [app] in Es. cbn [split_once] in Es. destruct (strip_prefix sep _); [injection Es as <- _; cbn; lia|].
    destruct (split_once sep (a' ++ sep ++ r')) as [[b rest]|] eqn:E; [|done]. injection Es as <- _.
    cbn. specialize (IH b rest _ E eq_refl). lia.
Qed.

Lemma find_app {A} (f : A -> bool) l k : find f (l ++ k) = match find f l with Some x => Some x | None => find f k end.
Proof. induction l as [|x l IH]; [done|]. cbn. by destruct (f x). Qed.
