(* ===== verification/Order.v ===== *)
(** [Ord], stable sorting and the iteration order of a [BTreeMap].

    [Ord] is an interface: a comparison that decides equality, is
    antisymmetric and transitive. Byte strings compare as Rust compares
    slices, tuples lexicographically. [slice::sort_by] is stable, so it is an
    insertion sort that keeps equal elements in their order. A [BTreeMap] or
    [BTreeSet] is a [gmap] or [gset], and the order the program iterates it in
    is the sort of its keys. *)

From S2P Require Import Prelude.

Class Ord (A : Type) := cmp : A -> A -> comparison.
#[global] Hint Mode Ord ! : typeclass_instances.

Class OrdLaws (A : Type) `{Ord A} := {
  cmp_eq (a b : A) : cmp a b = Eq <-> a = b;
  cmp_flip (a b : A) : cmp b a = CompOpp (cmp a b);
  cmp_lt_trans (a b c : A) : cmp a b = Lt -> cmp b c = Lt -> cmp a c = Lt
}.
#[global] Hint Mode OrdLaws ! - : typeclass_instances.

Definition cmp_leb {A} `{Ord A} (a b : A) : bool :=
  match cmp a b with Gt => false | _ => true end.

Section ord_laws.
Context {A : Type} `{OrdLaws A}.

Lemma cmp_refl (a : A) : cmp a a = Eq.
Proof. by apply cmp_eq. Qed.

Lemma cmp_leb_refl (a : A) : cmp_leb a a = true.
Proof. unfold cmp_leb. by rewrite cmp_refl. Qed.

Lemma cmp_leb_total (a b : A) : cmp_leb a b = false -> cmp_leb b a = true.
Proof. unfold cmp_leb. rewrite (cmp_flip a b). by destruct (cmp a b). Qed.

Lemma cmp_leb_trans (a b c : A) :
  cmp_leb a b = true -> cmp_leb b c = true -> cmp_leb a c = true.
Proof.
  unfold cmp_leb. destruct (cmp a b) eqn:E1, (cmp b c) eqn:E2; try done; intros _ _;
    rewrite ?cmp_eq in *; subst; rewrite ?E2, ?E1, ?cmp_refl; try done.
  by rewrite (cmp_lt_trans a b c).
Qed.

Lemma cmp_leb_antisym (a b : A) : cmp_leb a b = true -> cmp_leb b a = true -> a = b.
Proof.
  unfold cmp_leb. rewrite (cmp_flip a b). destruct (cmp a b) eqn:E; simpl; try done.
  intros _ _. by apply cmp_eq.
Qed.
End ord_laws.

(** ** Instances *)

#[global] Instance N_ord : Ord N := N.compare.
#[global] Instance N_ord_laws : OrdLaws N.
Proof.
  split; unfold cmp, N_ord.
  - apply N.compare_eq_iff.
  - intros a b. apply N.compare_antisym.
  - intros a b c. rewrite !N.compare_lt_iff. lia.
Qed.

#[global] Instance nat_ord : Ord nat := Nat.compare.
#[global] Instance nat_ord_laws : OrdLaws nat.
Proof.
  split; unfold cmp, nat_ord.
  - apply Nat.compare_eq_iff.
  - intros a b. apply Nat.compare_antisym.
  - intros a b c. rewrite !Nat.compare_lt_iff. lia.
Qed.

#[global] Instance byte_ord : Ord byte := fun a b => cmp (Byte.to_N a) (Byte.to_N b).
#[global] Instance byte_ord_laws : OrdLaws byte.
Proof.
  split; unfold cmp, byte_ord.
  - intros a b. rewrite cmp_eq. split; [apply byte_to_N_inj|by intros ->].
  - intros a b. apply cmp_flip.
  - intros a b c. apply cmp_lt_trans.
Qed.

Fixpoint list_cmp {A} `{Ord A} (l m : list A) : comparison :=
  match l, m with
  | [], [] => Eq
  | [], _ :: _ => Lt
  | _ :: _, [] => Gt
  | x :: l', y :: m' => match cmp x y with Eq => list_cmp l' m' | c => c end
  end.
#[global] Instance list_ord {A} `{Ord A} : Ord (list A) := list_cmp.
#[global] Instance list_ord_laws {A} `{OrdLaws A} : OrdLaws (list A).
Proof.
  split; unfold cmp, list_ord.
  - intros l. induction l as [|x l IH]; intros [|y m]; simpl; try naive_solver.
    destruct (cmp x y) eqn:E.
    + apply cmp_eq in E as ->. rewrite IH. naive_solver.
    + split; [done|]. intros [= -> ->]. by rewrite cmp_refl in E.
    + split; [done|]. intros [= -> ->]. by rewrite cmp_refl in E.
  - intros l. induction l as [|x l IH]; intros [|y m]; simpl; try done.
    rewrite (cmp_flip x y). destruct (cmp x y); simpl; auto.
  - intros l. induction l as [|x l IH]; intros [|y m] [|z n]; simpl; try done.
    destruct (cmp x y) eqn:E1; try done.
    + apply cmp_eq in E1 as ->. destruct (cmp y z); eauto.
    + intros _. destruct (cmp y z) eqn:E2; try done.
      * apply cmp_eq in E2 as <-. by rewrite E1.
      * by rewrite (cmp_lt_trans x y z).
Qed.

#[global] Instance prod_ord {A B} `{Ord A, Ord B} : Ord (A * B) :=
  fun p q => match cmp (fst p) (fst q) with Eq => cmp (snd p) (snd q) | c => c end.
#[global] Instance prod_ord_laws {A B} `{OrdLaws A, OrdLaws B} : OrdLaws (A * B).
Proof.
  split; unfold cmp, prod_ord.
  - intros [a b] [c d]; simpl. destruct (cmp a c) eqn:E.
    + apply cmp_eq in E as ->. rewrite cmp_eq. naive_solver.
    + split; [done|]. intros [= -> ->]. by rewrite cmp_refl in E.
    + split; [done|]. intros [= -> ->]. by rewrite cmp_refl in E.
  - intros [a b] [c d]; simpl. rewrite (cmp_flip a c).
    destruct (cmp a c); simpl; auto. apply cmp_flip.
  - intros [a1 b1] [a2 b2] [a3 b3]; simpl.
    destruct (cmp a1 a2) eqn:E1; try done.
    + apply cmp_eq in E1 as ->. destruct (cmp a2 a3); try done. apply cmp_lt_trans.
    + intros _. destruct (cmp a2 a3) eqn:E2; try done.
      * apply cmp_eq in E2 as <-. by rewrite E1.
      * by rewrite (cmp_lt_trans a1 a2 a3).
Qed.

(** ** Stable sorting by a key *)

Section sort.
Context {A K : Type} `{OrdLaws K} (key : A -> K).

(** Puts [x] before the first element whose key is not smaller, so before
    those that came after it with an equal one. *)
Fixpoint insert_by (x : A) (l : list A) : list A :=
  match l with
  | [] => [x]
  | y :: l' => if cmp_leb (key x) (key y) then x :: l else y :: insert_by x l'
  end.
Definition sort_by (l : list A) : list A := foldr insert_by [] l.

Lemma insert_by_perm x l : insert_by x l ≡ₚ x :: l.
Proof.
  induction l as [|y l IH]; simpl; [done|]. case_match; [done|].
  rewrite IH. apply Permutation_swap.
Qed.

Lemma sort_by_perm l : sort_by l ≡ₚ l.
Proof. induction l as [|x l IH]; simpl; [done|]. by rewrite insert_by_perm, IH. Qed.

Definition key_le (x y : A) : Prop := cmp_leb (key x) (key y) = true.

Lemma insert_by_sorted x l :
  StronglySorted key_le l -> StronglySorted key_le (insert_by x l).
Proof.
  induction 1 as [|y l Hs IH Hall]; simpl; [by repeat constructor|].
  destruct (cmp_leb (key x) (key y)) eqn:E.
  - constructor; [by constructor|]. constructor; [done|].
    eapply Forall_impl; [exact Hall|]. intros z Hz. by eapply cmp_leb_trans.
  - constructor; [done|]. rewrite insert_by_perm. constructor; [|done].
    by apply cmp_leb_total.
Qed.

Lemma sort_by_sorted l : StronglySorted key_le (sort_by l).
Proof. induction l; simpl; [constructor|]. by apply insert_by_sorted. Qed.

Lemma insert_by_head x l :
  Forall (key_le x) l -> insert_by x l = x :: l.
Proof. destruct 1 as [|y l Hy]; simpl; [done|]. unfold key_le in Hy. by rewrite Hy. Qed.

Lemma sort_by_id l : StronglySorted key_le l -> sort_by l = l.
Proof.
  induction 1 as [|x l Hs IH Hall]; simpl; [done|]. rewrite IH. by apply insert_by_head.
Qed.

(** Stability: the elements of one key come out in the order they went in. *)
Definition has_key (k : K) (x : A) : bool :=
  match cmp (key x) k with Eq => true | _ => false end.

Lemma insert_by_filter k x l :
  List.filter (has_key k) (insert_by x l) =
  (if has_key k x then [x] else []) ++ List.filter (has_key k) l.
Proof.
  induction l as [|y l IH]; simpl; [by case_match|].
  destruct (cmp_leb (key x) (key y)) eqn:E; simpl.
  - by destruct (has_key k x).
  - rewrite IH. destruct (has_key k x) eqn:Ex, (has_key k y) eqn:Ey; try done.
    exfalso. unfold has_key in Ex, Ey.
    destruct (cmp (key x) k) eqn:E1; try done. destruct (cmp (key y) k) eqn:E2; try done.
    apply cmp_eq in E1. apply cmp_eq in E2. rewrite E1, E2, cmp_leb_refl in E. done.
Qed.

Lemma sort_by_stable k l : List.filter (has_key k) (sort_by l) = List.filter (has_key k) l.
Proof.
  induction l as [|x l IH]; simpl; [done|]. rewrite insert_by_filter, IH. by case_match.
Qed.
End sort.

(** ** Sorted maps *)

Definition btree_to_list {K V} `{Ord K, Countable K} (m : gmap K V) : list (K * V) :=
  sort_by fst (map_to_list m).
Definition btree_keys {K V} `{Ord K, Countable K} (m : gmap K V) : list K :=
  fst <$> btree_to_list m.
Definition btree_values {K V} `{Ord K, Countable K} (m : gmap K V) : list V :=
  snd <$> btree_to_list m.
Definition bset_to_list {K} `{Ord K, Countable K} (s : gset K) : list K :=
  sort_by id (elements s).

Section btree.
Context {K V : Type} `{OrdLaws K} `{Countable K}.
Implicit Types (m : gmap K V).

Lemma btree_to_list_perm m : btree_to_list m ≡ₚ map_to_list m.
Proof. apply sort_by_perm. Qed.

Lemma elem_of_btree_to_list m k v : (k, v) ∈ btree_to_list m <-> m !! k = Some v.
Proof. by rewrite btree_to_list_perm, elem_of_map_to_list. Qed.

Lemma btree_keys_nodup m : NoDup (btree_keys m).
Proof. unfold btree_keys. rewrite btree_to_list_perm. apply NoDup_fst_map_to_list. Qed.

Lemma elem_of_bset_to_list (s : gset K) k : k ∈ bset_to_list s <-> k ∈ s.
Proof. unfold bset_to_list. by rewrite sort_by_perm, elem_of_elements. Qed.

Lemma bset_to_list_nodup (s : gset K) : NoDup (bset_to_list s).
Proof. unfold bset_to_list. rewrite sort_by_perm. apply NoDup_elements. Qed.
End btree.

#[export] Hint Rewrite @elem_of_btree_to_list @elem_of_bset_to_list : slices.
