(* ===== verification/Num.v ===== *)
(** Fixed-width integers and their decimal form: [{}] of an unsigned integer,
    [str::parse] of one, [saturating_add], wrapping arithmetic, [to_le_bytes]
    and [{:02x}]. *)

From S2P Require Import Prelude Slices.

Definition U8_MAX : N := (2 ^ 8 - 1)%N.
Definition U32_MAX : N := (2 ^ 32 - 1)%N.
Definition U64_MAX : N := (2 ^ 64 - 1)%N.
Definition u32_add (a b : N) : N := ((a + b) mod 2 ^ 32)%N.

(** ** Decimal *)

Definition digit_char (d : N) : byte := byte_of_N (Byte.to_N "0" + d).

Fixpoint dec_fuel (fuel : nat) (n : N) : bytes :=
  match fuel with
  | 0 => []
  | S fuel' => (if (n <? 10)%N then [] else dec_fuel fuel' (n / 10)) ++ [digit_char (n mod 10)]
  end.

(** [format!("{n}")]: a number of [k] bits has no more than [k + 1] digits. *)
Definition dec (n : N) : bytes := dec_fuel (S (N.size_nat n)) n.

Definition digit_val (b : byte) : option N :=
  if is_ascii_digit b then Some (Byte.to_N b - Byte.to_N "0")%N else None.

Fixpoint dec_digits (max acc : N) (s : bytes) : option N :=
  match s with
  | [] => Some acc
  | c :: s' =>
      match digit_val c with
      | Some d => let acc' := (acc * 10 + d)%N in
                  if (acc' <=? max)%N then dec_digits max acc' s' else None
      | None => None
      end
  end.

(** [str::parse] of an unsigned type whose largest value is [max]: an optional
    [+], one digit or more, and no overflow on the way. *)
Definition parse_unsigned (max : N) (s : bytes) : option N :=
  match s with
  | [] => None
  | c :: s' => if bool_decide (c = "+"%byte)
               then (if bool_decide (s' = []) then None else dec_digits max 0 s')
               else dec_digits max 0 s
  end.

(** ** Decimal, read back *)

Lemma digit_char_val d : (d < 10)%N -> Byte.to_N (digit_char d) = (Byte.to_N "0" + d)%N.
Proof. intros H. unfold digit_char. rewrite to_N_byte_of_N. apply N.mod_small. simpl. lia. Qed.

Lemma digit_char_digit d : (d < 10)%N -> is_ascii_digit (digit_char d) = true.
Proof.
  intros H. unfold is_ascii_digit, byte_in. rewrite digit_char_val by done.
  apply andb_true_iff. rewrite !N.leb_le. simpl. lia.
Qed.

(** The value a run of digits adds to, unbounded. *)
Definition digits_value (acc : N) (s : bytes) : N :=
  foldl (fun a c => a * 10 + (Byte.to_N c - Byte.to_N "0"))%N acc s.

Lemma digits_value_le acc s : (acc <= digits_value acc s)%N.
Proof.
  revert acc. induction s as [|c s IH]; intros acc; simpl; [lia|].
  etransitivity; [|apply IH]. lia.
Qed.

Lemma dec_digits_value max acc s :
  Forall (fun c => is_ascii_digit c = true) s -> (digits_value acc s <= max)%N ->
  dec_digits max acc s = Some (digits_value acc s).
Proof.
  intros Hs. revert acc. induction Hs as [|c s Hc _ IH]; intros acc Hm; simpl; [done|].
  unfold digit_val. rewrite Hc. simpl in Hm.
  pose proof (digits_value_le (acc * 10 + (Byte.to_N c - Byte.to_N "0")) s) as H.
  rewrite (proj2 (N.leb_le _ _)) by (etransitivity; [exact H|exact Hm]). by apply IH.
Qed.

Lemma size_nat_pos2 (p : positive) : (N.pos p < 2 ^ N.of_nat (Pos.size_nat p))%N.
Proof.
  assert (E : forall k : nat, (2 ^ N.of_nat (S k) = 2 * 2 ^ N.of_nat k)%N)
    by (intros k; rewrite Nat2N.inj_succ, N.pow_succ_r'; done).
  induction p as [p IH|p IH|]; cbn [Pos.size_nat]; rewrite ?E; [lia..|done].
Qed.

Lemma lt_size_nat (n : N) : (n < 2 ^ N.of_nat (N.size_nat n))%N.
Proof. destruct n as [|p]; [done|]. apply size_nat_pos2. Qed.

Lemma dec_fuel_digits fuel n : Forall (fun c => is_ascii_digit c = true) (dec_fuel fuel n).
Proof.
  revert n. induction fuel as [|fuel IH]; intros n; simpl; [constructor|].
  apply Forall_app. split; [case_match; [constructor|apply IH]|].
  constructor; [|constructor]. apply digit_char_digit, N.mod_lt. done.
Qed.

Lemma dec_fuel_S fuel n :
  dec_fuel (S fuel) n = (if (n <? 10)%N then [] else dec_fuel fuel (n / 10)) ++ [digit_char (n mod 10)].
Proof. done. Qed.

Lemma dec_fuel_value fuel n : (n < 2 ^ N.of_nat fuel)%N -> digits_value 0 (dec_fuel (S fuel) n) = n.
Proof.
  revert n. induction fuel as [|fuel IH]; intros n Hn.
  - change (2 ^ N.of_nat 0)%N with 1%N in Hn. assert (n = 0)%N as -> by lia. done.
  - rewrite dec_fuel_S. pose proof (N.mod_lt n 10 ltac:(done)) as Hm.
    pose proof (N.div_mod n 10 ltac:(done)) as Hd.
    unfold digits_value. rewrite foldl_app. cbn [foldl].
    rewrite digit_char_val by done.
    destruct (n <? 10)%N eqn:E.
    + apply N.ltb_lt in E. cbn [foldl]. rewrite N.mod_small by done. rewrite (N.add_comm (Byte.to_N _)), N.add_sub. lia.
    + fold (digits_value 0 (dec_fuel (S fuel) (n / 10))). rewrite IH; [rewrite (N.add_comm (Byte.to_N _)), N.add_sub, N.mul_comm; by symmetry|].
      rewrite Nat2N.inj_succ, N.pow_succ_r' in Hn. apply N.ltb_ge in E.
      apply N.Div0.div_lt_upper_bound. lia.
Qed.

Lemma dec_value n : digits_value 0 (dec n) = n.
Proof. apply dec_fuel_value, lt_size_nat. Qed.

Lemma dec_is_digits n : Forall (fun c => is_ascii_digit c = true) (dec n).
Proof. apply dec_fuel_digits. Qed.

Lemma dec_inj n m : dec n = dec m -> n = m.
Proof. intros H. by rewrite <- (dec_value n), <- (dec_value m), H. Qed.

Lemma dec_not_nil n : dec n <> [].
Proof. unfold dec. rewrite dec_fuel_S. intros H. by apply app_eq_nil in H as [_ ?]. Qed.

Lemma dec_head n c s : dec n = c :: s -> is_ascii_digit c = true.
Proof. intros E. pose proof (dec_is_digits n) as H. rewrite E in H. by inversion H. Qed.

(** A printed number that fits is read back. *)
Lemma parse_unsigned_dec max n : (n <= max)%N -> parse_unsigned max (dec n) = Some n.
Proof.
  intros H. pose proof (dec_digits_value max 0 (dec n) (dec_is_digits n)) as D.
  rewrite dec_value in D. unfold parse_unsigned. destruct (dec n) as [|c s] eqn:E; [by apply dec_not_nil in E|].
  rewrite bool_decide_eq_false_2; [by apply D|]. intros ->. by apply dec_head in E.
Qed.

Lemma parse_unsigned_le max s n : parse_unsigned max s = Some n -> (n <= max)%N.
Proof.
  assert (D : forall t acc, (acc <= max)%N -> dec_digits max acc t = Some n -> (n <= max)%N).
  { induction t as [|c t IH]; simpl; intros acc Ha; [by intros [= <-]|].
    destruct (digit_val c); [|done]. case_match eqn:E; [|done]. apply IH. by apply N.leb_le in E. }
  unfold parse_unsigned. repeat case_match; try done; apply D; lia.
Qed.

(** ** Little-endian and hexadecimal *)

(** [u64::to_le_bytes]. *)
Fixpoint le_bytes (k : nat) (n : N) : bytes :=
  match k with 0 => [] | S k' => byte_of_N n :: le_bytes k' (n / 256) end.
Definition u64_to_le_bytes (n : N) : bytes := le_bytes 8 n.

Lemma le_bytes_length k n : length (le_bytes k n) = k.
Proof. revert n. induction k; intros n; simpl; auto. Qed.

Lemma le_bytes_inj k n m :
  (n < 256 ^ N.of_nat k)%N -> (m < 256 ^ N.of_nat k)%N -> le_bytes k n = le_bytes k m -> n = m.
Proof.
  revert n m. induction k as [|k IH]; intros n m Hn Hm; simpl le_bytes.
  - change (256 ^ N.of_nat 0)%N with 1%N in *. lia.
  - rewrite Nat2N.inj_succ, N.pow_succ_r' in Hn, Hm. intros [= Hb Hr].
    apply (f_equal Byte.to_N) in Hb. rewrite !to_N_byte_of_N in Hb.
    apply IH in Hr; [|apply N.Div0.div_lt_upper_bound; lia..].
    pose proof (N.div_mod n 256 ltac:(done)). pose proof (N.div_mod m 256 ltac:(done)). lia.
Qed.

(** [{:02x}]. *)
Definition hex_digit (n : N) : byte :=
  if (n <? 10)%N then byte_of_N (Byte.to_N "0" + n) else byte_of_N (Byte.to_N "a" + (n - 10)).
Definition hex_byte (b : byte) : bytes :=
  [hex_digit (Byte.to_N b / 16); hex_digit (Byte.to_N b mod 16)].

(** [{:#x}]. *)
Fixpoint hex_fuel (fuel : nat) (n : N) : bytes :=
  match fuel with
  | O => []
  | S fuel => (if (n <? 16)%N then [] else hex_fuel fuel (n / 16)) ++ [hex_digit (n mod 16)]
  end.
Definition hex (n : N) : bytes := #"0x" ++ hex_fuel (S (N.size_nat n)) n.

Definition hex_val (c : byte) : option N :=
  if is_ascii_digit c then Some (Byte.to_N c - Byte.to_N "0")%N
  else if byte_in "a" "f" c then Some (Byte.to_N c - Byte.to_N "a" + 10)%N
  else None.

Lemma hex_byte_val (b : byte) :
  hex_val (hex_digit (Byte.to_N b / 16)) = Some (Byte.to_N b / 16)%N /\
  hex_val (hex_digit (Byte.to_N b mod 16)) = Some (Byte.to_N b mod 16)%N.
Proof.
  pose proof (byte_forall (fun b => bool_decide
    (hex_val (hex_digit (Byte.to_N b / 16)) = Some (Byte.to_N b / 16)%N /\
     hex_val (hex_digit (Byte.to_N b mod 16)) = Some (Byte.to_N b mod 16)%N))) as H.
  specialize (H ltac:(by vm_compute) b). by apply bool_decide_eq_true in H.
Qed.

(** ** Any radix *)

(** [char::to_digit], of a byte read as a character. *)
Definition to_digit (radix : N) (b : byte) : option N :=
  let d := if is_ascii_digit b then Some (Byte.to_N b - Byte.to_N "0")%N
           else if is_ascii_lower b then Some (Byte.to_N b - Byte.to_N "a" + 10)%N
           else if is_ascii_upper b then Some (Byte.to_N b - Byte.to_N "A" + 10)%N
           else None in
  d ← d; if (d <? radix)%N then Some d else None.

Fixpoint radix_digits (radix max acc : N) (s : bytes) : option N :=
  match s with
  | [] => Some acc
  | c :: s' =>
      d ← to_digit radix c;
      let acc' := (acc * radix + d)%N in
      if (acc' <=? max)%N then radix_digits radix max acc' s' else None
  end.

(** [from_str_radix] of an unsigned type whose largest value is [max]. *)
Definition from_str_radix (radix max : N) (s : bytes) : option N :=
  match s with
  | [] => None
  | c :: s' => if bool_decide (c = "+"%byte)
               then (if bool_decide (s' = []) then None else radix_digits radix max 0 s')
               else radix_digits radix max 0 s
  end.

Lemma radix_digits_le radix max acc s n :
  (acc <= max)%N -> radix_digits radix max acc s = Some n -> (n <= max)%N.
Proof.
  revert acc. induction s as [|c s IH]; intros acc Ha; cbn [radix_digits]; [by intros [= <-]|].
  destruct (to_digit radix c) as [d|]; cbn [mbind option_bind]; [|done].
  case_match eqn:E; [|done]. apply IH. by apply N.leb_le.
Qed.

Lemma from_str_radix_le radix max s n : from_str_radix radix max s = Some n -> (n <= max)%N.
Proof. unfold from_str_radix. repeat case_match; try done; apply radix_digits_le; lia. Qed.

(** Four octal digits, as a mode is written. *)
Definition octal4 (n : N) : bytes :=
  [digit_char (n / 512 mod 8); digit_char (n / 64 mod 8); digit_char (n / 8 mod 8); digit_char (n mod 8)].

Lemma from_str_radix_octal4 n : (n < 4096)%N -> from_str_radix 8 U32_MAX (octal4 n) = Some n.
Proof.
  intros H. assert (Hall : forallb (fun k => bool_decide (from_str_radix 8 U32_MAX (octal4 (N.of_nat k)) = Some (N.of_nat k)))
    (seq 0 4096) = true) by by vm_compute.
  rewrite forallb_forall in Hall. specialize (Hall (N.to_nat n)).
  rewrite N2Nat.id in Hall. eapply bool_decide_eq_true, Hall, in_seq. lia.
Qed.
