(* ===== verification/Utf8.v ===== *)
(** UTF-8 as Rust's [core::str] reads it: [str::from_utf8],
    [String::from_utf8_lossy] and [str::chars]. A [char] is a code point, an
    [N]. [utf8_chunks] reads bytes as [core::str::lossy] does: each valid
    sequence is a character, and each maximal prefix of one that goes wrong is
    an invalid chunk, shown as one U+FFFD. *)

From S2P Require Import Prelude Slices.

#[local] Ltac Zify.zify_post_hook ::= Z.to_euclidean_division_equations.

Abbreviation char := N.

Definition is_scalar (c : char) : bool :=
  ((c <? 0xD800) || (0xE000 <=? c) && (c <? 0x110000))%N.

Definition utf8_encode1 (c : char) : bytes :=
  (if c <? 0x80 then [byte_of_N c]
   else if c <? 0x800 then [byte_of_N (0xC0 + c / 64); byte_of_N (0x80 + c mod 64)]
   else if c <? 0x10000 then
     [byte_of_N (0xE0 + c / 4096); byte_of_N (0x80 + c / 64 mod 64); byte_of_N (0x80 + c mod 64)]
   else
     [byte_of_N (0xF0 + c / 262144); byte_of_N (0x80 + c / 4096 mod 64);
      byte_of_N (0x80 + c / 64 mod 64); byte_of_N (0x80 + c mod 64)])%N.
Definition utf8_encode (cs : list char) : bytes := cs ≫= utf8_encode1.

Definition is_cont (b : byte) : bool := byte_in x80 xbf b.

(** Whether [b] may follow the lead byte [a] of a three- or four-byte
    sequence: no overlong form, no surrogate, nothing past U+10FFFF. *)
Definition second_ok (a b : byte) : bool :=
  match a with
  | xe0 => byte_in xa0 xbf b
  | xed => byte_in x80 x9f b
  | xf0 => byte_in x90 xbf b
  | xf4 => byte_in x80 x8f b
  | _ => is_cont b
  end.

Definition low (b : byte) : N := Byte.to_N b - 0x80.
Definition char2 (a b : byte) : char := (Byte.to_N a - 0xC0) * 64 + low b.
Definition char3 (a b c : byte) : char := (Byte.to_N a - 0xE0) * 4096 + low b * 64 + low c.
Definition char4 (a b c d : byte) : char :=
  (Byte.to_N a - 0xF0) * 262144 + low b * 4096 + low c * 64 + low d.

Fixpoint utf8_chunks (l : bytes) : list (char + bytes) :=
  match l with
  | [] => []
  | a :: l1 =>
      if is_ascii a then inl (Byte.to_N a) :: utf8_chunks l1
      else match l1 with
      | [] => [inr [a]]
      | b :: l2 =>
          if byte_in xc2 xdf a then
            if is_cont b then inl (char2 a b) :: utf8_chunks l2
            else inr [a] :: utf8_chunks l1
          else if byte_in xe0 xef a then
            if second_ok a b then
              match l2 with
              | [] => [inr [a; b]]
              | c :: l3 =>
                  if is_cont c then inl (char3 a b c) :: utf8_chunks l3
                  else inr [a; b] :: utf8_chunks l2
              end
            else inr [a] :: utf8_chunks l1
          else if byte_in xf0 xf4 a then
            if second_ok a b then
              match l2 with
              | [] => [inr [a; b]]
              | c :: l3 =>
                  if is_cont c then
                    match l3 with
                    | [] => [inr [a; b; c]]
                    | d :: l4 =>
                        if is_cont d then inl (char4 a b c d) :: utf8_chunks l4
                        else inr [a; b; c] :: utf8_chunks l3
                    end
                  else inr [a; b] :: utf8_chunks l2
              end
            else inr [a] :: utf8_chunks l1
          else inr [a] :: utf8_chunks l1
      end
  end.

Definition chunk_is_char (k : char + bytes) : bool := match k with inl _ => true | inr _ => false end.
Definition chunk_char (k : char + bytes) : char := match k with inl c => c | inr _ => 0xFFFD%N end.
Definition chunk_bytes (k : char + bytes) : bytes :=
  match k with inl c => utf8_encode1 c | inr s => s end.

(** [str::from_utf8(b).is_ok()]. *)
Definition is_utf8 (b : bytes) : bool := forallb chunk_is_char (utf8_chunks b).
(** [s.chars()] of a [str], and of [String::from_utf8_lossy] of any bytes. *)
Definition chars (b : bytes) : list char := chunk_char <$> utf8_chunks b.
(** [String::from_utf8_lossy]. *)
Definition from_utf8_lossy (b : bytes) : bytes := utf8_encode (chars b).

(** ** Character classes *)

Definition char_in (lo hi c : char) : bool := ((lo <=? c) && (c <=? hi))%N.

(** [char::is_whitespace]: Unicode's White_Space. *)
Definition is_whitespace (c : char) : bool :=
  (char_in 0x9 0xD c || (c =? 0x20) || (c =? 0x85) || (c =? 0xA0) || (c =? 0x1680)
   || char_in 0x2000 0x200A c || (c =? 0x2028) || (c =? 0x2029) || (c =? 0x202F)
   || (c =? 0x205F) || (c =? 0x3000))%N.
(** [char::is_control]: Unicode's Cc. *)
Definition is_control (c : char) : bool := ((c <? 0x20) || char_in 0x7F 0x9F c)%N.

(** [str::trim] and [str::split_whitespace]. *)
Definition trim (s : bytes) : bytes := utf8_encode (trim_by is_whitespace (chars s)).
Definition split_whitespace (s : bytes) : list bytes :=
  utf8_encode <$> words_by is_whitespace (chars s).
Definition trim_start (s : bytes) : bytes := utf8_encode (drop_while is_whitespace (chars s)).
(** [str::split_once(char::is_whitespace)]. *)
Definition split_once_whitespace (s : bytes) : option (bytes * bytes) :=
  let cs := chars s in
  i ← position is_whitespace cs; Some (utf8_encode (take i cs), utf8_encode (drop (i + 1) cs)).

(** ** Laws *)

Lemma byte_eq_N (a b : byte) : Byte.to_N a = Byte.to_N b -> a = b.
Proof. apply byte_to_N_inj. Qed.

Ltac byte_ranges :=
  repeat match goal with
    | H : byte_in _ _ _ = true |- _ =>
        unfold byte_in in H; apply andb_true_iff in H as [?%N.leb_le ?%N.leb_le]
    | H : is_cont _ = true |- _ => unfold is_cont in H
    | H : is_ascii _ = false |- _ => unfold is_ascii in H; apply N.ltb_ge in H
    | H : is_ascii _ = true |- _ => unfold is_ascii in H; apply N.ltb_lt in H
    end.

Ltac solve_byte :=
  apply byte_eq_N; rewrite ?to_N_byte_of_N;
  repeat match goal with b : byte |- _ => pose proof (byte_to_N_lt b); revert b end;
  intros; simpl in *; lia.

Lemma second_ok_spec a b :
  second_ok a b = true ->
  is_cont b = true /\
  (a = xe0 -> 0xA0 <= Byte.to_N b)%N /\ (a = xed -> Byte.to_N b <= 0x9F)%N /\
  (a = xf0 -> 0x90 <= Byte.to_N b)%N /\ (a = xf4 -> Byte.to_N b <= 0x8F)%N.
Proof.
  intros H. unfold is_cont, byte_in.
  destruct a; simpl in H; unfold is_cont, byte_in in H;
    apply andb_true_iff in H as [H1%N.leb_le H2%N.leb_le]; simpl in *;
    (split; [apply andb_true_iff; split; apply N.leb_le; simpl; lia|]);
    repeat split; intros; try discriminate; lia.
Qed.

Section encode.
Variables (a b c d : byte).

Lemma encode_ascii : is_ascii a = true -> utf8_encode1 (Byte.to_N a) = [a].
Proof.
  intros Ha. unfold utf8_encode1. unfold is_ascii in Ha. change 0x80%N with 128%N. rewrite Ha.
  by rewrite byte_of_N_to_N.
Qed.

Lemma char2_range :
  byte_in xc2 xdf a = true -> is_cont b = true -> (0x80 <= char2 a b < 0x800)%N.
Proof. intros. byte_ranges. simpl in *. unfold char2, low. lia. Qed.

Lemma encode_char2 :
  byte_in xc2 xdf a = true -> is_cont b = true -> utf8_encode1 (char2 a b) = [a; b].
Proof.
  intros Ha Hb. pose proof (char2_range Ha Hb) as Hr. unfold utf8_encode1.
  rewrite (proj2 (N.ltb_ge _ _)), (proj2 (N.ltb_lt _ _)) by lia.
  byte_ranges. simpl in *. unfold char2, low in *. f_equal; [|f_equal]; solve_byte.
Qed.

Lemma char3_range :
  byte_in xe0 xef a = true -> second_ok a b = true -> is_cont c = true ->
  (0x800 <= char3 a b c < 0x10000)%N /\ is_scalar (char3 a b c) = true.
Proof.
  intros Ha Hb Hc. apply second_ok_spec in Hb as (Hb & H0 & Hd & _).
  byte_ranges. simpl in *. unfold is_scalar, char3, low.
  assert (Byte.to_N a = 0xE0 -> 0xA0 <= Byte.to_N b)%N by (intros; apply H0; by apply byte_eq_N).
  assert (Byte.to_N a = 0xED -> Byte.to_N b <= 0x9F)%N by (intros; apply Hd; by apply byte_eq_N).
  split; [lia|]. apply orb_true_iff. rewrite andb_true_iff, !N.ltb_lt, N.leb_le. lia.
Qed.

Lemma encode_char3 :
  byte_in xe0 xef a = true -> second_ok a b = true -> is_cont c = true ->
  utf8_encode1 (char3 a b c) = [a; b; c].
Proof.
  intros Ha Hb Hc. pose proof (char3_range Ha Hb Hc) as [Hr _]. unfold utf8_encode1.
  rewrite !(proj2 (N.ltb_ge _ _)), (proj2 (N.ltb_lt _ _)) by lia.
  apply second_ok_spec in Hb as (Hb & _).
  byte_ranges. simpl in *. unfold char3, low in *. repeat f_equal; solve_byte.
Qed.

Lemma char4_range :
  byte_in xf0 xf4 a = true -> second_ok a b = true -> is_cont c = true -> is_cont d = true ->
  (0x10000 <= char4 a b c d < 0x110000)%N.
Proof.
  intros Ha Hb Hc Hd. apply second_ok_spec in Hb as (Hb & _ & _ & H0 & H4).
  byte_ranges. simpl in *. unfold char4, low.
  assert (Byte.to_N a = 0xF0 -> 0x90 <= Byte.to_N b)%N by (intros; apply H0; by apply byte_eq_N).
  assert (Byte.to_N a = 0xF4 -> Byte.to_N b <= 0x8F)%N by (intros; apply H4; by apply byte_eq_N).
  lia.
Qed.

Lemma encode_char4 :
  byte_in xf0 xf4 a = true -> second_ok a b = true -> is_cont c = true -> is_cont d = true ->
  utf8_encode1 (char4 a b c d) = [a; b; c; d].
Proof.
  intros Ha Hb Hc Hd. pose proof (char4_range Ha Hb Hc Hd) as Hr. unfold utf8_encode1.
  rewrite !(proj2 (N.ltb_ge _ _)) by lia.
  apply second_ok_spec in Hb as (Hb & _).
  byte_ranges. simpl in *. unfold char4, low in *. repeat f_equal; solve_byte.
Qed.
End encode.

(** Every chunk is a character and its encoding, or invalid bytes as they
    stand: the chunks are the text. *)
Definition chunk_ok (k : char + bytes) : Prop :=
  match k with inl c => is_scalar c = true | inr _ => True end.
Definition chunks_of (l : bytes) (ks : list (char + bytes)) : Prop :=
  (ks ≫= chunk_bytes) = l /\ Forall chunk_ok ks.

Lemma chunks_of_nil : chunks_of [] [].
Proof. by split. Qed.

Lemma chunks_of_bad s l ks : chunks_of l ks -> chunks_of (s ++ l) (inr s :: ks).
Proof. intros [<- H]. split; [done|]. by constructor. Qed.

Lemma chunks_of_char c s l ks :
  utf8_encode1 c = s -> is_scalar c = true -> chunks_of l ks -> chunks_of (s ++ l) (inl c :: ks).
Proof. intros <- Hc [<- H]. split; [done|]. by constructor. Qed.

Lemma is_scalar_low c : (c < 0xD800)%N -> is_scalar c = true.
Proof. intros. unfold is_scalar. by rewrite (proj2 (N.ltb_lt _ 0xD800)). Qed.
Lemma is_scalar_high c : (0xE000 <= c < 0x110000)%N -> is_scalar c = true.
Proof. intros. unfold is_scalar. apply orb_true_iff. rewrite andb_true_iff, !N.ltb_lt, N.leb_le. lia. Qed.

Lemma utf8_chunks_of l : chunks_of l (utf8_chunks l).
Proof.
  remember (length l) as n eqn:Hn. revert l Hn.
  induction n as [n IH] using lt_wf_ind. intros l ->.
  assert (rec : forall l', length l' < length l -> chunks_of l' (utf8_chunks l'))
    by (intros; by eapply IH).
  clear IH. destruct l as [|a l1]; [apply chunks_of_nil|].
  cbn [utf8_chunks]. destruct (is_ascii a) eqn:Ha.
  { apply (chunks_of_char _ [a]); [by apply encode_ascii| |apply rec; simpl; lia].
    byte_ranges. apply is_scalar_low. lia. }
  assert (bad1 : chunks_of (a :: l1) (inr [a] :: utf8_chunks l1))
    by (apply (chunks_of_bad [a]), rec; simpl; lia).
  destruct l1 as [|b l2]; [apply (chunks_of_bad [a]), chunks_of_nil|].
  destruct (byte_in xc2 xdf a) eqn:H2.
  { destruct (is_cont b) eqn:Hb; [|exact bad1].
    apply (chunks_of_char _ [a; b]); [by apply encode_char2| |apply rec; simpl; lia].
    pose proof (char2_range _ _ H2 Hb). apply is_scalar_low. lia. }
  assert (bad2 : chunks_of (a :: b :: l2) (inr [a; b] :: utf8_chunks l2))
    by (apply (chunks_of_bad [a; b]), rec; simpl; lia).
  destruct (byte_in xe0 xef a) eqn:H3.
  { destruct (second_ok a b) eqn:Hb; [|exact bad1].
    destruct l2 as [|c l3]; [apply (chunks_of_bad [a; b]), chunks_of_nil|].
    destruct (is_cont c) eqn:Hc; [|exact bad2].
    apply (chunks_of_char _ [a; b; c]); [by apply encode_char3| |apply rec; simpl; lia].
    by apply char3_range. }
  destruct (byte_in xf0 xf4 a) eqn:H4; [|exact bad1].
  destruct (second_ok a b) eqn:Hb; [|exact bad1].
  destruct l2 as [|c l3]; [apply (chunks_of_bad [a; b]), chunks_of_nil|].
  destruct (is_cont c) eqn:Hc; [|exact bad2].
  destruct l3 as [|d l4]; [apply (chunks_of_bad [a; b; c]), chunks_of_nil|].
  destruct (is_cont d) eqn:Hd; [|apply (chunks_of_bad [a; b; c]), rec; simpl; lia].
  apply (chunks_of_char _ [a; b; c; d]); [by apply encode_char4| |apply rec; simpl; lia].
  pose proof (char4_range _ _ _ _ H4 Hb Hc Hd). apply is_scalar_high. lia.
Qed.

(** ** Reading back what was encoded *)

Lemma byte_in_of_N lo hi n :
  (Byte.to_N lo <= n <= Byte.to_N hi)%N -> byte_in lo hi (byte_of_N n) = true.
Proof.
  intros H. unfold byte_in. pose proof (byte_to_N_lt hi).
  rewrite to_N_byte_of_N, N.mod_small by lia. rewrite andb_true_iff, !N.leb_le. lia.
Qed.

Lemma byte_in_of_N_false lo hi n :
  (n < 256)%N -> (n < Byte.to_N lo \/ Byte.to_N hi < n)%N -> byte_in lo hi (byte_of_N n) = false.
Proof.
  intros Hn H. unfold byte_in.
  rewrite to_N_byte_of_N, N.mod_small by lia. rewrite andb_false_iff, !N.leb_gt. lia.
Qed.

Lemma is_ascii_of_N n : (n < 256)%N -> is_ascii (byte_of_N n) = (n <? 128)%N.
Proof. intros H. unfold is_ascii. by rewrite to_N_byte_of_N, N.mod_small. Qed.

Lemma second_ok_of_N n m :
  (n < 256)%N -> (0x80 <= m <= 0xBF)%N ->
  (n = 0xE0 -> 0xA0 <= m)%N -> (n = 0xED -> m <= 0x9F)%N ->
  (n = 0xF0 -> 0x90 <= m)%N -> (n = 0xF4 -> m <= 0x8F)%N ->
  second_ok (byte_of_N n) (byte_of_N m) = true.
Proof.
  intros Hn Hm H0 Hd Hf Hg. remember (byte_of_N n) as a eqn:Ea.
  assert (En : Byte.to_N a = n) by (by rewrite Ea, to_N_byte_of_N, N.mod_small).
  unfold second_ok, is_cont.
  destruct a; apply byte_in_of_N; simpl in *; lia.
Qed.

Lemma low_of_N n : (0x80 <= n < 0x100)%N -> low (byte_of_N n) = (n - 0x80)%N.
Proof. intros. unfold low. by rewrite to_N_byte_of_N, N.mod_small by lia. Qed.

Ltac decide_bytes :=
  repeat first
    [ rewrite is_ascii_of_N by lia
    | rewrite (proj2 (N.ltb_ge _ 128)) by lia
    | rewrite byte_in_of_N_false by (simpl; lia)
    | rewrite byte_in_of_N by (simpl; lia)
    | rewrite second_ok_of_N by lia ].

Lemma chunks_encode1 c r :
  is_scalar c = true -> utf8_chunks (utf8_encode1 c ++ r) = inl c :: utf8_chunks r.
Proof.
  intros Hs. unfold is_scalar in Hs.
  apply orb_true_iff in Hs. rewrite andb_true_iff, !N.ltb_lt, N.leb_le in Hs.
  unfold utf8_encode1.
  destruct (c <? 0x80)%N eqn:H1; [apply N.ltb_lt in H1|apply N.ltb_ge in H1].
  { cbn [app utf8_chunks]. rewrite is_ascii_of_N by lia.
    rewrite (proj2 (N.ltb_lt _ 128)) by lia.
    by rewrite to_N_byte_of_N, N.mod_small by lia. }
  destruct (c <? 0x800)%N eqn:H2; [apply N.ltb_lt in H2|apply N.ltb_ge in H2].
  { cbn [app utf8_chunks]. unfold is_cont. decide_bytes. do 2 f_equal.
    unfold char2. rewrite low_of_N by lia. rewrite to_N_byte_of_N, N.mod_small by lia. lia. }
  destruct (c <? 0x10000)%N eqn:H3; [apply N.ltb_lt in H3|apply N.ltb_ge in H3].
  { cbn [app utf8_chunks]. unfold is_cont. decide_bytes. do 2 f_equal.
    unfold char3. rewrite !low_of_N by lia. rewrite to_N_byte_of_N, N.mod_small by lia. lia. }
  cbn [app utf8_chunks]. unfold is_cont. decide_bytes. do 2 f_equal.
  unfold char4. rewrite !low_of_N by lia. rewrite to_N_byte_of_N, N.mod_small by lia. lia.
Qed.

Lemma chunks_encode cs r :
  Forall (fun c => is_scalar c = true) cs ->
  utf8_chunks (utf8_encode cs ++ r) = (inl <$> cs) ++ utf8_chunks r.
Proof.
  induction 1 as [|c cs Hc _ IH]; [done|].
  change (utf8_encode (c :: cs)) with (utf8_encode1 c ++ utf8_encode cs).
  by rewrite <- app_assoc, chunks_encode1, IH.
Qed.

Lemma chars_scalar l : Forall (fun c => is_scalar c = true) (chars l).
Proof.
  unfold chars. apply Forall_fmap. eapply Forall_impl; [apply utf8_chunks_of|].
  by intros [c|s].
Qed.

Lemma chars_encode cs : Forall (fun c => is_scalar c = true) cs -> chars (utf8_encode cs) = cs.
Proof.
  intros H. unfold chars. rewrite <- (app_nil_r (utf8_encode cs)), chunks_encode by done.
  cbn. rewrite app_nil_r, <- list_fmap_compose. by apply list_fmap_id.
Qed.

Lemma is_utf8_encode cs : Forall (fun c => is_scalar c = true) cs -> is_utf8 (utf8_encode cs) = true.
Proof.
  intros H. unfold is_utf8. rewrite <- (app_nil_r (utf8_encode cs)), chunks_encode by done.
  rewrite app_nil_r. clear H. by induction cs.
Qed.

Lemma encode_chars l : is_utf8 l = true -> utf8_encode (chars l) = l.
Proof.
  intros H. destruct (utf8_chunks_of l) as [E _]. rewrite <- E at 2.
  unfold chars, is_utf8 in *. clear E. induction (utf8_chunks l) as [|[c|s] ks IH]; [done| |done].
  simpl in H. change (utf8_encode1 c ++ utf8_encode (chunk_char <$> ks) =
    utf8_encode1 c ++ (ks ≫= chunk_bytes)). by rewrite IH.
Qed.

(** A [str] is UTF-8; lossy conversion makes one of any bytes and leaves a
    [str] alone. *)
Lemma lossy_is_utf8 l : is_utf8 (from_utf8_lossy l) = true.
Proof. apply is_utf8_encode, chars_scalar. Qed.

Lemma lossy_id l : is_utf8 l = true -> from_utf8_lossy l = l.
Proof. apply encode_chars. Qed.

Lemma lossy_idemp l : from_utf8_lossy (from_utf8_lossy l) = from_utf8_lossy l.
Proof. apply lossy_id, lossy_is_utf8. Qed.

Lemma chars_lossy l : chars (from_utf8_lossy l) = chars l.
Proof. apply chars_encode, chars_scalar. Qed.

Lemma chunks_ascii_app l r :
  forallb is_ascii l = true -> utf8_chunks (l ++ r) = (inl ∘ Byte.to_N <$> l) ++ utf8_chunks r.
Proof.
  induction l as [|x l IH]; intros H; [done|].
  cbn [forallb] in H. apply andb_true_iff in H as [Hx Hl].
  change (utf8_chunks (x :: l ++ r) = inl (Byte.to_N x) :: ((inl ∘ Byte.to_N <$> l) ++ utf8_chunks r)).
  cbn [utf8_chunks]. by rewrite Hx, IH.
Qed.

Lemma chars_ascii l : forallb is_ascii l = true -> chars l = Byte.to_N <$> l.
Proof.
  intros H. unfold chars. rewrite <- (app_nil_r l) at 1. rewrite chunks_ascii_app by done.
  change (utf8_chunks []) with (@nil (char + bytes)). rewrite app_nil_r, <- list_fmap_compose. done.
Qed.

Lemma is_utf8_ascii l : forallb is_ascii l = true -> is_utf8 l = true.
Proof.
  intros H. unfold is_utf8. rewrite <- (app_nil_r l), chunks_ascii_app by done.
  change (utf8_chunks []) with (@nil (char + bytes)). rewrite app_nil_r. clear H. by induction l.
Qed.

(** A valid text followed by anything reads as the two read apart. *)
Lemma utf8_chunks_app l r :
  is_utf8 l = true -> utf8_chunks (l ++ r) = utf8_chunks l ++ utf8_chunks r.
Proof.
  intros H. rewrite <- (encode_chars l H) at 1. rewrite chunks_encode by apply chars_scalar.
  f_equal. unfold chars, is_utf8 in *. induction (utf8_chunks l) as [|[c|s] ks IH]; [done| |done].
  simpl in *. f_equal. by apply IH.
Qed.

Lemma is_utf8_app l r : is_utf8 l = true -> is_utf8 (l ++ r) = is_utf8 r.
Proof.
  intros H. unfold is_utf8. rewrite utf8_chunks_app by done. rewrite forallb_app.
  unfold is_utf8 in H. by rewrite H.
Qed.

Lemma chars_app l r : is_utf8 l = true -> chars (l ++ r) = chars l ++ chars r.
Proof. intros H. unfold chars. rewrite utf8_chunks_app by done. apply fmap_app. Qed.

Create HintDb utf8.
#[export] Hint Resolve lossy_is_utf8 is_utf8_encode chars_scalar is_utf8_ascii : utf8.
#[export] Hint Rewrite lossy_idemp chars_lossy : utf8.
