(* ===== verification/Paths.v ===== *)
(** [std::path] on Unix: a path is its bytes, and its meaning is its
    components. Two spellings of one list of components ([a//b] and [a/b/.])
    are equal paths, compare equal and are one key of a map. *)

From S2P Require Import Prelude Slices Order.

Abbreviation path := (list byte).

Inductive component :=
| RootDir
| CurDir
| ParentDir
| Normal (n : bytes).

#[global] Instance component_eq_dec : EqDecision component.
Proof. solve_decision. Defined.

#[global] Instance component_countable : Countable component :=
  inj_countable
    (fun c => match c with RootDir => inl 0 | CurDir => inl 1 | ParentDir => inl 2 | Normal n => inr n end)
    (fun s => match s with
              | inl 0 => Some RootDir | inl 1 => Some CurDir | inl 2 => Some ParentDir
              | inl _ => None | inr n => Some (Normal n) end)
    (fun c => match c with RootDir | CurDir | ParentDir | Normal _ => eq_refl end).

(** [Component]'s derived order: by variant, then by name. *)
Definition component_rank (c : component) : nat * bytes :=
  match c with RootDir => (0, []) | CurDir => (1, []) | ParentDir => (2, []) | Normal n => (3, n) end.
#[global] Instance component_ord : Ord component := fun a b => cmp (component_rank a) (component_rank b).
#[global] Instance component_ord_laws : OrdLaws component.
Proof.
  split; unfold cmp, component_ord.
  - intros a b. rewrite cmp_eq. split; [|by intros ->]. destruct a, b; simpl; congruence.
  - intros a b. apply cmp_flip.
  - intros a b c. apply cmp_lt_trans.
Qed.

(** ** Reading a path *)

Definition slash : byte := "/".
Definition dot : bytes := #".".
Definition dotdot : bytes := #"..".

Definition has_root (p : path) : bool := starts_with [slash] p.

(** What the components start with: the root, a leading [.], or neither. *)
Inductive start := StartRoot | StartCur | StartNone.

(** The start of a path and the pieces between slashes after it. *)
Definition parse_path (p : path) : start * list bytes :=
  match split_on (is_byte slash) p with
  | [] => (StartNone, [])
  | piece :: pieces =>
      if has_root p then (StartRoot, pieces)
      else if bool_decide (piece = dot) then (StartCur, pieces)
      else (StartNone, piece :: pieces)
  end.

Definition trivial_piece (s : bytes) : bool := bool_decide (s = []) || bool_decide (s = dot).
Definition piece_component (s : bytes) : component :=
  if bool_decide (s = dotdot) then ParentDir else Normal s.
Definition body_components (pieces : list bytes) : list component :=
  piece_component <$> List.filter (fun s => negb (trivial_piece s)) pieces.

(** [Path::components]. *)
Definition components (p : path) : list component :=
  let '(st, pieces) := parse_path p in
  match st with StartRoot => [RootDir] | StartCur => [CurDir] | StartNone => [] end
  ++ body_components pieces.

Definition path_eqb (p q : path) : bool := bool_decide (components p = components q).
Definition path_cmp (p q : path) : comparison := cmp (components p) (components q).
Definition is_absolute (p : path) : bool := has_root p.
(** [Path::starts_with]: whole components, not characters. *)
Definition path_starts_with (p base : path) : bool := starts_with (components base) (components p).

(** ** Taking a path apart *)

Definition join_pieces (pieces : list bytes) : bytes := join [slash] pieces.

(** The text of a start and the pieces after it: [Components::as_path]. *)
Definition assemble (st : start) (pieces : list bytes) : path :=
  match st with
  | StartRoot => slash :: join_pieces pieces
  | StartCur => match pieces with [] => dot | _ => dot ++ slash :: join_pieces pieces end
  | StartNone => join_pieces pieces
  end.

Definition trim_right (pieces : list bytes) : list bytes := drop_while_end trivial_piece pieces.
Definition trim_left (pieces : list bytes) : list bytes := drop_while trivial_piece pieces.

Definition parent (p : path) : option path :=
  let '(st, pieces) := parse_path p in
  match reverse (trim_right pieces) with
  | _ :: before => Some (assemble st (trim_right (reverse before)))
  | [] => match st with StartCur => Some [] | _ => None end
  end.

Definition file_name (p : path) : option bytes :=
  match last (components p) with Some (Normal n) => Some n | _ => None end.

(** What is left of the pieces once [n] components have been taken. *)
Fixpoint drop_components (n : nat) (pieces : list bytes) : list bytes :=
  match n with
  | 0 => pieces
  | S n' => match trim_left pieces with [] => [] | _ :: rest => drop_components n' rest end
  end.

(** [Path::strip_prefix]. *)
Definition path_strip_prefix (base p : path) : option path :=
  let '(_, bpieces) := parse_path base in
  let '(st, pieces) := parse_path p in
  if path_starts_with p base then
    if bool_decide (components base = []) then Some (assemble st (trim_right pieces))
    else Some (join_pieces (trim_left (trim_right
           (drop_components (length (body_components bpieces)) pieces))))
  else None.

(** ** Building a path *)

(** [Path::join] and [PathBuf::push]. *)
Definition path_join (p q : path) : path :=
  if has_root q then q
  else match last p with
       | Some c => if bool_decide (c = slash) then p ++ q else p ++ slash :: q
       | None => q
       end.
Definition path_pop (p : path) : path := default p (parent p).
(** [iter().collect::<PathBuf>()] of names. *)
Definition path_collect (names : list bytes) : path := foldl path_join [] names.

(** ** Laws

    The paths the program builds itself are relative and made of names:
    [join_pieces ns] with every [n] of [ns] a name. On those, [join], [parent]
    and [components] are the list operations. *)

Definition name_ok (n : bytes) : Prop :=
  n <> [] /\ n <> dot /\ n <> dotdot /\ Forall (fun x => is_byte slash x = false) n.

Lemma is_byte_true c x : is_byte c x = true <-> x = c.
Proof. apply bool_decide_eq_true. Qed.

Lemma elem_of_body_components pieces c :
  Forall (Forall (fun x => is_byte slash x = false)) pieces ->
  c ∈ body_components pieces -> c = ParentDir \/ exists n, c = Normal n /\ name_ok n.
Proof.
  intros Hp. unfold body_components. rewrite list_elem_of_fmap. intros (s & -> & Hs).
  apply list_elem_of_In, filter_In in Hs as [Hs Ht]. apply list_elem_of_In in Hs.
  unfold piece_component. case_bool_decide as Hd; [by left|right].
  exists s. split; [done|]. unfold trivial_piece in Ht.
  apply negb_true_iff, orb_false_iff in Ht as [H1%bool_decide_eq_false H2%bool_decide_eq_false].
  repeat split; try done. rewrite Forall_forall in Hp. by apply Hp.
Qed.

Lemma parse_path_pieces p :
  Forall (Forall (fun x => is_byte slash x = false)) (snd (parse_path p)).
Proof.
  assert (Hall : Forall (Forall (fun x => is_byte slash x = false)) (split_on (is_byte slash) p)).
  { apply Forall_forall. intros s. apply split_on_no_sep. }
  unfold parse_path. destruct (split_on _ _) as [|s ss]; simpl; [constructor|].
  apply Forall_cons in Hall as [Hs Hss].
  repeat case_match; simpl; try done. by constructor.
Qed.

Lemma components_normal_ok p n : Normal n ∈ components p -> name_ok n.
Proof.
  unfold components. pose proof (parse_path_pieces p) as Hp.
  destruct (parse_path p) as [st pieces]. simpl in Hp. rewrite elem_of_app. intros [H|H].
  - by destruct st; [apply list_elem_of_singleton in H|apply list_elem_of_singleton in H|inversion H].
  - apply elem_of_body_components in H as [?|(m & Hm & ?)]; [done|by injection Hm as ->|done].
Qed.

Lemma name_ok_nontrivial n : name_ok n -> trivial_piece n = false.
Proof. intros (H1 & H2 & _). unfold trivial_piece. by rewrite !bool_decide_eq_false_2. Qed.

Lemma body_components_names ns : Forall name_ok ns -> body_components ns = Normal <$> ns.
Proof.
  unfold body_components. induction 1 as [|n ns Hn _ IH]; [done|]. cbn [List.filter].
  rewrite name_ok_nontrivial by done. csimpl. rewrite IH. f_equal.
  unfold piece_component. destruct Hn as (_ & _ & H & _). by rewrite bool_decide_eq_false_2.
Qed.

Lemma join_cons (n m : bytes) (ms : list bytes) :
  join_pieces (n :: m :: ms) = n ++ slash :: join_pieces (m :: ms).
Proof. done. Qed.

Lemma starts_slash_cons (c : byte) l : starts_with [slash] (c :: l) = bool_decide (c = slash).
Proof.
  unfold starts_with, strip_prefix. case_decide; case_bool_decide; subst; done.
Qed.

Lemma has_root_names ns : Forall name_ok ns -> has_root (join_pieces ns) = false.
Proof.
  intros H. unfold has_root. destruct H as [|n ns (H1 & _ & _ & Hs) _]; [done|].
  destruct n as [|c n]; [done|]. apply Forall_cons in Hs as [Hc _].
  destruct ns; [change (join_pieces [c :: n]) with (c :: n)
               |rewrite join_cons; rewrite <- app_comm_cons];
    by rewrite starts_slash_cons.
Qed.

Lemma parse_path_names ns :
  Forall name_ok ns ->
  parse_path (join_pieces ns) = (StartNone, match ns with [] => [[]] | _ => ns end).
Proof.
  intros H. unfold parse_path. rewrite has_root_names by done. destruct H as [|n ns Hn Hns]; [done|].
  unfold join_pieces. rewrite split_on_join.
  - destruct Hn as (_ & Hd & _). by rewrite bool_decide_eq_false_2.
  - by apply is_byte_true.
  - done.
  - constructor; [apply Hn|]. eapply Forall_impl; [exact Hns|]. intros m Hm. apply Hm.
Qed.

Lemma components_names ns : Forall name_ok ns -> components (join_pieces ns) = Normal <$> ns.
Proof.
  intros H. unfold components. rewrite parse_path_names by done. destruct ns as [|n ns]; [done|].
  rewrite body_components_names by done. done.
Qed.

Lemma join_pieces_snoc ns n :
  ns <> [] -> join_pieces (ns ++ [n]) = join_pieces ns ++ slash :: n.
Proof.
  induction ns as [|m ns IH]; [done|]. intros _. destruct ns as [|k ns]; [done|].
  change ((m :: k :: ns) ++ [n]) with (m :: k :: (ns ++ [n])). rewrite !join_cons.
  change (k :: ns ++ [n]) with ((k :: ns) ++ [n]). rewrite IH by done.
  by rewrite <- app_assoc.
Qed.

Lemma last_not_slash ns c : Forall name_ok ns -> last (join_pieces ns) = Some c -> c <> slash.
Proof.
  intros H Hc ->. destruct (decide (ns = [])) as [->|Hne]; [done|].
  destruct (exists_last Hne) as (ms & n & ->).
  apply Forall_app in H as [_ Hn]. apply Forall_cons in Hn as [(H1 & _ & _ & Hs) _].
  assert (Hl : last n = Some slash).
  { destruct (decide (ms = [])) as [->|Hm]; [done|].
    rewrite join_pieces_snoc in Hc by done. rewrite last_app_cons in Hc.
    destruct n as [|x n]; [done|]. by rewrite last_cons_cons in Hc. }
  apply last_Some in Hl as [n' ->]. rewrite Forall_app, Forall_cons in Hs.
  destruct Hs as (_ & Hs & _). by rewrite (proj2 (is_byte_true slash slash)) in Hs.
Qed.

Lemma names_snoc ns n : Forall name_ok ns -> name_ok n -> Forall name_ok (ns ++ [n]).
Proof. intros. apply Forall_app. split; [done|]. by constructor. Qed.

Lemma path_join_name ns n :
  Forall name_ok ns -> name_ok n -> path_join (join_pieces ns) n = join_pieces (ns ++ [n]).
Proof.
  intros H Hn. unfold path_join.
  assert (Hr : has_root n = false) by (apply (has_root_names [n]); by constructor).
  rewrite Hr. destruct (last (join_pieces ns)) as [c|] eqn:E.
  - rewrite bool_decide_eq_false_2 by by eapply last_not_slash.
    destruct (decide (ns = [])) as [->|Hne]; [done|]. by rewrite join_pieces_snoc.
  - apply last_None in E. destruct ns as [|m ns]; [done|]. exfalso.
    apply Forall_cons in H as [(Hm & _) _].
    destruct ns; [done|]. rewrite join_cons in E. by apply app_eq_nil in E as [??].
Qed.

Lemma trim_right_names ns : Forall name_ok ns -> trim_right ns = ns.
Proof.
  intros H. unfold trim_right, drop_while_end. rewrite drop_while_id; [apply reverse_involutive|].
  intros x Hx. apply name_ok_nontrivial. rewrite Forall_forall in H. apply H.
  apply elem_of_reverse. destruct (reverse ns); [done|]. injection Hx as ->. by left.
Qed.

Lemma path_pop_name ns n :
  Forall name_ok ns -> name_ok n -> path_pop (join_pieces (ns ++ [n])) = join_pieces ns.
Proof.
  intros H Hn. unfold path_pop, parent.
  rewrite parse_path_names by by apply names_snoc.
  assert (E : match ns ++ [n] with [] => [[]] | _ => ns ++ [n] end = ns ++ [n]) by by destruct ns.
  rewrite E, trim_right_names by by apply names_snoc.
  rewrite reverse_app. simpl. by rewrite reverse_involutive, trim_right_names.
Qed.

Lemma path_pop_nil : path_pop [] = [].
Proof. done. Qed.

Lemma path_collect_names ns : Forall name_ok ns -> path_collect ns = join_pieces ns.
Proof.
  unfold path_collect. change (@nil byte) with (join_pieces []).
  assert (G : forall ms, Forall name_ok ns -> Forall name_ok ms ->
    foldl path_join (join_pieces ms) ns = join_pieces (ms ++ ns)).
  { induction ns as [|n ns IH]; intros ms Hns Hms; simpl; [by rewrite app_nil_r|].
    apply Forall_cons in Hns as [Hn Hns]. rewrite path_join_name by done.
    rewrite IH by (done || by apply names_snoc). by rewrite <- app_assoc. }
  intros H. by apply (G []).
Qed.

Lemma join_pieces_inj ns ms :
  Forall name_ok ns -> Forall name_ok ms -> join_pieces ns = join_pieces ms -> ns = ms.
Proof.
  intros Hn Hm E. apply (f_equal components) in E. rewrite !components_names in E by done.
  eapply list_fmap_eq_inj; [|exact E]. by intros ?? [= ->].
Qed.

Create HintDb paths.
#[export] Hint Resolve has_root_names name_ok_nontrivial components_normal_ok : paths.
#[export] Hint Rewrite components_names path_join_name path_pop_name path_collect_names
  trim_right_names using done : paths.
