(* ===== verification/Text.v ===== *)
(** [src/text.rs]: byte-text helpers every reader of a hostile file uses. *)

From S2P Require Import Prelude Slices Order Utf8 Paths.

(** [text::lossy]. *)
Definition lossy (b : bytes) : bytes := from_utf8_lossy b.

(** [text::short_hash]: [blake3_hex] is the digest's hex form. *)
Definition short_hash (blake3_hex : bytes -> bytes) (b : bytes) : bytes := take 12 (blake3_hex b).

(** [text::take_word]. *)
Definition take_word (s : bytes) : option (bytes * bytes) :=
  let s := trim_ascii_start s in
  if bool_decide (s = []) then None
  else
    let end_ := default (length s) (position is_ascii_whitespace s) in
    Some (take end_ s, trim_ascii_start (drop end_ s)).

(** ** Globs *)

(** [text::glob_match]'s loop. [star] is where the last [*] was seen and
    [mark] where in the text it stands for nothing yet; [usize::MAX] in [star]
    says none has been. *)
Definition star_byte : byte := "*".
Definition any_byte : byte := "?".

Fixpoint glob_loop (fuel : nat) (pat s : bytes) (p i : nat) (star : option nat) (mark : nat)
    : option bool :=
  match fuel with
  | 0 => None
  | S fuel' =>
      match s !! i with
      | None => Some (forallb (is_byte star_byte) (drop p pat))
      | Some c =>
          let literal := match pat !! p with Some q => bool_decide (q = any_byte) || bool_decide (q = c) | None => false end in
          let starred := match pat !! p with Some q => bool_decide (q = star_byte) | None => false end in
          if literal then glob_loop fuel' pat s (p + 1) (i + 1) star mark
          else if starred then glob_loop fuel' pat s (p + 1) i (Some p) i
          else match star with
               | Some sp => glob_loop fuel' pat s (sp + 1) (mark + 1) star (mark + 1)
               | None => Some false
               end
      end
  end.

(** Rounds enough: a round that does not move [mark] on moves [p] on. *)
Definition glob_fuel (pat s : bytes) : nat := S ((length s + 1) * (length pat + 1) + length pat).

Definition glob_match (pat s : bytes) : bool :=
  default false (glob_loop (glob_fuel pat s) pat s 0 0 None 0).

(** ** Paths and quotes *)

(** [text::normalize]. *)
Definition normalize_step (out : path) (c : component) : path :=
  match c with
  | ParentDir => path_pop out
  | Normal name => path_join out name
  | _ => out
  end.
Definition normalize (p : path) : path := foldl normalize_step [] (components p).

(** [text::unquote]. *)
Definition unquote (v : bytes) : bytes :=
  match v with
  | q :: rest =>
      if bool_decide (q = x22) || bool_decide (q = x27) then
        match reverse rest with
        | last :: inner => if bool_decide (q = last) then reverse inner else v
        | [] => v
        end
      else v
  | [] => v
  end.

(** ** Base64 *)

Definition ALPHABET : bytes := #"ABCDEFGHIJKLMNOPQRSTUVWXYZabcdefghijklmnopqrstuvwxyz0123456789+/".

Definition sextet (b : byte) : option N :=
  if is_ascii_upper b then Some (Byte.to_N b - Byte.to_N "A")%N
  else if is_ascii_lower b then Some (Byte.to_N b - Byte.to_N "a" + 26)%N
  else if is_ascii_digit b then Some (Byte.to_N b - Byte.to_N "0" + 52)%N
  else if bool_decide (b = "+"%byte) then Some 62%N
  else if bool_decide (b = "/"%byte) then Some 63%N
  else None.

(** The accumulator is a [u32]: a shift drops what leaves the 32 bits. *)
Definition u32_shl (n k : N) : N := (N.shiftl n k mod 2 ^ 32)%N.

Record b64_state := B64 { b64_acc : N; b64_bits : N; b64_out : bytes }.

Definition b64_step (st : b64_state) (v : N) : b64_state :=
  let acc := N.lor (u32_shl (b64_acc st) 6) v in
  let bits := (b64_bits st + 6)%N in
  if (8 <=? bits)%N then
    let bits := (bits - 8)%N in
    B64 (N.land acc (u32_shl 1 bits - 1)) bits (b64_out st ++ [byte_of_N (N.shiftr acc bits)])
  else B64 acc bits (b64_out st).

Fixpoint b64_loop (st : b64_state) (body : bytes) : option bytes :=
  match body with
  | [] => Some (b64_out st)
  | c :: body' => match sextet c with Some v => b64_loop (b64_step st v) body' | None => None end
  end.

Definition base64_decode (text : bytes) : option bytes :=
  let body := length (drop_while (is_byte "="%byte) (reverse text)) in
  if bool_decide (length text `mod` 4 <> 0) || bool_decide (2 < length text - body) then None
  else b64_loop (B64 0 0 []) (take body text).

Definition base64_chunk (c : bytes) : bytes :=
  let at_ (i : nat) := Byte.to_N (default x00 (c !! i)) in
  let n := N.lor (N.lor (u32_shl (at_ 0) 16) (u32_shl (at_ 1) 8)) (at_ 2) in
  (fun i : nat => default x00 (ALPHABET !! N.to_nat (N.land (N.shiftr n (18 - 6 * N.of_nat i)) 63)))
    <$> seq 0 (length c + 1).
Definition base64_encode_unpadded (b : bytes) : bytes := mjoin (base64_chunk <$> chunks 3 b).

(** ** INI files *)

Record IniLine := mk_ini_line {
  ini_block : nat;
  ini_section : bytes;
  ini_key : bytes;
  ini_value : bytes
}.

Record ini_state := IniState { is_out : list IniLine; is_block : nat; is_section : bytes }.

(** One turn of [ini]'s loop. *)
Definition ini_step (st : ini_state) (raw : bytes) : ini_state :=
  let line := trim_ascii raw in
  match line with
  | [] => st
  | c :: rest =>
      if bool_decide (c = "#"%byte) || bool_decide (c = ";"%byte) then st
      else if bool_decide (c = "["%byte) then
        match position (is_byte "]"%byte) line with
        | Some end_ => IniState (is_out st) (is_block st + 1) (lossy (take (end_ - 1) rest))
        | None => st
        end
      else
        match position (is_byte "="%byte) line with
        | None => st
        | Some eq =>
            let key := lossy (trim_ascii (take eq line)) in
            if bool_decide (key = []) then st
            else IniState
                   (is_out st ++ [mk_ini_line (is_block st) (is_section st) key (trim_ascii (drop (eq + 1) line))])
                   (is_block st) (is_section st)
        end
  end.
Definition ini (b : bytes) : list IniLine :=
  is_out (foldl ini_step (IniState [] 0 []) (split_on (is_byte x0a) b)).

(** ** What a glob means

    The declarative reading: [?] is any one byte, [*] any run of bytes, every
    other byte itself. *)
Inductive Glob : bytes -> bytes -> Prop :=
| glob_nil : Glob [] []
| glob_any p c s : Glob p s -> Glob (any_byte :: p) (c :: s)
| glob_lit p c s : c <> star_byte -> Glob p s -> Glob (c :: p) (c :: s)
| glob_skip p s : Glob p s -> Glob (star_byte :: p) s
| glob_take p c s : Glob (star_byte :: p) s -> Glob (star_byte :: p) (c :: s).

Definition matches1 (q c : byte) : Prop := q <> star_byte /\ (q = any_byte \/ q = c).

Lemma Glob_cons_lit q p c s : q <> star_byte -> Glob (q :: p) (c :: s) -> matches1 q c /\ Glob p s.
Proof. intros Hq H. inversion H; subst; try done; split; try split; auto. Qed.

Lemma Glob_star_app p l s : Glob (star_byte :: p) s -> Glob (star_byte :: p) (l ++ s).
Proof. induction l; simpl; auto using glob_take. Qed.

Lemma Glob_star_drop p s j : Glob p (drop j s) -> Glob (star_byte :: p) s.
Proof.
  intros H. rewrite <- (take_drop j s). apply Glob_star_app. by constructor.
Qed.

Lemma Glob_star_inv p s : Glob (star_byte :: p) s -> exists j, j <= length s /\ Glob p (drop j s).
Proof.
  intros H. remember (star_byte :: p) as q eqn:E. induction H; try discriminate.
  - by injection E.
  - injection E as ->. exists 0. by split; [lia|].
  - destruct IHGlob as (j & Hj & Hg); [done|]. exists (S j). simpl. split; [lia|done].
Qed.

(** A run of pattern bytes none of which is a star matches a run of as many
    bytes. *)
Lemma Glob_lits lits q t :
  Forall (fun c => c <> star_byte) lits -> Glob (lits ++ q) t ->
  length lits <= length t /\ Glob q (drop (length lits) t).
Proof.
  intros H. revert t. induction H as [|c lits Hc _ IH]; intros t Hg; simpl in *.
  - rewrite drop_0. split; [lia|done].
  - destruct t as [|d t]; [inversion Hg; subst; done|].
    apply Glob_cons_lit in Hg as [_ Hg]; [|done]. apply IH in Hg as [Hl Hg].
    simpl. split; [lia|done].
Qed.

Lemma Glob_empty q : Glob q [] <-> forallb (is_byte star_byte) q = true.
Proof.
  split.
  - intros H. remember [] as s eqn:E. by induction H; try discriminate; auto.
  - induction q as [|c q IH]; intros H; [constructor|]. simpl in H.
    apply andb_true_iff in H as [->%is_byte_true H]. constructor. auto.
Qed.

Lemma Glob_nonstars q t : Glob q t -> length (List.filter (fun c => negb (is_byte star_byte c)) q) <= length t.
Proof.
  induction 1; simpl in *; repeat case_match; simpl in *; try lia; done.
Qed.

(** ** The loop decides it *)

Lemma drop_lookup_cons (l : bytes) i c : l !! i = Some c -> drop i l = c :: drop (i + 1) l.
Proof. intros H. rewrite Nat.add_1_r. by apply drop_S. Qed.

Lemma drop_lookup_nil (l : bytes) i : l !! i = None -> drop i l = [].
Proof. intros H. apply drop_ge. by apply lookup_ge_None in H. Qed.

Section glob.
Variables pat s : bytes.

Record glob_ok (p i : nat) (star : option nat) (mark : nat) : Prop := {
  gk_i : i <= length s;
  gk_p : p <= length pat;
  gk_mark : mark <= i;
  gk_star : forall sp, star = Some sp -> sp < p /\ pat !! sp = Some star_byte
}.

Lemma glob_ok_literal p i star mark q c :
  glob_ok p i star mark -> s !! i = Some c -> pat !! p = Some q -> glob_ok (p + 1) (i + 1) star mark.
Proof.
  intros [Hi Hp Hm Hs] Hc Hq. apply lookup_lt_Some in Hc, Hq. split; try lia.
  intros sp E. destruct (Hs sp E). split; [lia|done].
Qed.

Lemma glob_ok_star p i star mark :
  glob_ok p i star mark -> pat !! p = Some star_byte -> glob_ok (p + 1) i (Some p) i.
Proof.
  intros [Hi Hp Hm Hs] Hq. pose proof (lookup_lt_Some _ _ _ Hq). split; try lia.
  intros sp [= <-]. split; [lia|done].
Qed.

Lemma glob_ok_back p i sp mark c :
  glob_ok p i (Some sp) mark -> s !! i = Some c -> glob_ok (sp + 1) (mark + 1) (Some sp) (mark + 1).
Proof.
  intros [Hi Hp Hm Hs] Hc. apply lookup_lt_Some in Hc. destruct (Hs sp eq_refl).
  split; try lia. intros sp' [= <-]. split; [lia|done].
Qed.

Definition glob_measure (p mark : nat) : nat :=
  (length s - mark) * (length pat + 1) + (length pat - p).

(** The loop ends within the fuel. *)
Lemma glob_loop_ends fuel p i star mark :
  glob_ok p i star mark -> glob_measure p mark < fuel ->
  exists b, glob_loop fuel pat s p i star mark = Some b.
Proof.
  revert p i star mark. induction fuel as [|fuel IH]; intros p i star mark Hok Hm; [lia|].
  simpl. destruct (s !! i) as [c|] eqn:Hc; [|by eexists].
  pose proof (lookup_lt_Some _ _ _ Hc) as Hi. unfold glob_measure in *.
  assert (back : exists b, match star with
     | Some sp => glob_loop fuel pat s (sp + 1) (mark + 1) star (mark + 1)
     | None => Some false end = Some b).
  { destruct star as [sp|]; [|by eexists]. pose proof (gk_star _ _ _ _ Hok sp eq_refl) as [Hsp _].
    pose proof (gk_p _ _ _ _ Hok). pose proof (gk_mark _ _ _ _ Hok).
    apply IH; [by eapply glob_ok_back|]. nia. }
  destruct (pat !! p) as [q|] eqn:Hq; [|exact back].
  pose proof (lookup_lt_Some _ _ _ Hq) as Hp.
  destruct (bool_decide (q = any_byte) || bool_decide (q = c)).
  { apply IH; [by eapply glob_ok_literal|]. lia. }
  destruct (bool_decide_reflect (q = star_byte)) as [->|Hst]; [|exact back].
  pose proof (gk_mark _ _ _ _ Hok). apply IH; [by eapply glob_ok_star|]. nia.
Qed.

(** Sound: what the loop accepts, the pattern means. *)
Lemma glob_loop_sound fuel p i star mark :
  (Glob (drop p pat) (drop i s) -> Glob pat s) ->
  (forall sp j, star = Some sp -> mark <= j -> Glob (drop (sp + 1) pat) (drop j s) -> Glob pat s) ->
  glob_loop fuel pat s p i star mark = Some true -> Glob pat s.
Proof.
  revert p i star mark. induction fuel as [|fuel IH]; intros p i star mark Hcur Hstar; simpl; [done|].
  destruct (s !! i) as [c|] eqn:Hc.
  2:{ intros [= H]. apply Hcur. rewrite (drop_lookup_nil _ _ Hc). by apply Glob_empty. }
  rewrite (drop_lookup_cons s i c Hc) in Hcur.
  assert (back : match star with
     | Some sp => glob_loop fuel pat s (sp + 1) (mark + 1) star (mark + 1)
     | None => Some false end = Some true -> Glob pat s).
  { destruct star as [sp|]; [|done]. apply IH.
    - apply Hstar; [done|lia].
    - intros sp' j E Hj. apply (Hstar sp' j E). lia. }
  destruct (pat !! p) as [q|] eqn:Hq; [|exact back].
  rewrite (drop_lookup_cons pat p q Hq) in Hcur.
  destruct (bool_decide (q = any_byte) || bool_decide (q = c)) eqn:Hlit.
  { apply IH; [|exact Hstar]. intros Hg. apply Hcur.
    apply orb_true_iff in Hlit as [->%bool_decide_eq_true| ->%bool_decide_eq_true]; [by constructor|].
    destruct (decide (c = star_byte)) as [->|Hne]; [|by constructor].
    by apply glob_take, glob_skip. }
  destruct (bool_decide_reflect (q = star_byte)) as [->|Hst]; [|exact back]. apply IH.
  - rewrite (drop_lookup_cons s i c Hc). intros Hg. apply Hcur. by constructor.
  - intros sp j [= <-] Hj Hg. apply Hcur.
    rewrite <- (drop_lookup_cons s i c Hc). apply (Glob_star_drop _ _ (j - i)).
    rewrite drop_drop. by replace (i + (j - i)) with j by lia.
Qed.

(** Complete, for a text with no [*] in it: what the pattern means, the loop
    accepts. Since the last star it has matched [lits], which holds none. *)
Record glob_live (p i : nat) (star : option nat) (mark : nat) (lits : bytes) : Prop := {
  gl_ok : glob_ok p i star mark;
  gl_lits : Forall (fun c => c <> star_byte) lits;
  gl_here : match star with
            | None => Glob (drop p pat) (drop i s)
            | Some sp => i = mark + length lits /\ drop (sp + 1) pat = lits ++ drop p pat /\
                         Glob (star_byte :: drop (sp + 1) pat) (drop mark s)
            end
}.

Lemma glob_live_literal p i star mark lits q c :
  glob_live p i star mark lits -> s !! i = Some c -> pat !! p = Some q -> q <> star_byte ->
  glob_live (p + 1) (i + 1) star mark (lits ++ [q]).
Proof.
  intros [Hok Hl Hh] Hc Hq Hne. split; [by eapply glob_ok_literal| |].
  - apply Forall_app. split; [done|]. by constructor.
  - rewrite (drop_lookup_cons pat p q Hq) in Hh. destruct star as [sp|].
    + destruct Hh as (-> & E & Hg). rewrite length_app. simpl. split; [lia|]. split; [|done].
      by rewrite <- app_assoc.
    + rewrite (drop_lookup_cons s i c Hc) in Hh. by apply Glob_cons_lit in Hh as [_ Hh].
Qed.

Lemma glob_live_star p i star mark lits :
  glob_live p i star mark lits -> pat !! p = Some star_byte -> glob_live (p + 1) i (Some p) i [].
Proof.
  intros [Hok Hl Hh] Hq. split; [by eapply glob_ok_star|constructor|].
  simpl. split; [lia|]. split; [done|].
  rewrite <- (drop_lookup_cons pat p _ Hq). destruct star as [sp|]; [|done].
  destruct Hh as (Hi & E & Hg). apply Glob_star_inv in Hg as (j & Hj & Hg). rewrite E in Hg.
  apply Glob_lits in Hg as [Hlen Hg]; [|done]. rewrite drop_drop in Hg.
  rewrite (drop_lookup_cons pat p _ Hq) in *. rewrite drop_drop in Hg.
  rewrite <- (take_drop j (drop i s)). apply Glob_star_app. rewrite drop_drop.
  by replace (i + j) with (mark + (j + length lits)) by lia.
Qed.

(** A byte the pattern cannot take here sends the last star one byte on. *)
Lemma glob_live_back p i sp mark lits c :
  glob_live p i (Some sp) mark lits -> s !! i = Some c -> ~ Glob (drop p pat) (drop i s) ->
  glob_live (sp + 1) (mark + 1) (Some sp) (mark + 1) [].
Proof.
  intros [Hok Hl (Hi & E & Hg)] Hc Hno. split; [by eapply glob_ok_back|constructor|].
  simpl. split; [lia|]. split; [done|].
  apply Glob_star_inv in Hg as (j & Hj & Hg). destruct j as [|j].
  - exfalso. apply Hno. rewrite drop_0, E in Hg. apply Glob_lits in Hg as [_ Hg]; [|done].
    rewrite drop_drop in Hg. by rewrite Hi.
  - apply (Glob_star_drop _ _ j). rewrite drop_drop in *. by replace (mark + 1 + j) with (mark + S j) by lia.
Qed.

Lemma glob_live_end p i star mark lits :
  glob_live p i star mark lits -> s !! i = None -> forallb (is_byte star_byte) (drop p pat) = true.
Proof.
  intros [Hok Hl Hh] Hn. pose proof (drop_lookup_nil _ _ Hn) as Hd.
  destruct star as [sp|]; [|rewrite Hd in Hh; by apply Glob_empty].
  destruct Hh as (Hi & E & Hg). apply Glob_nonstars in Hg. rewrite E in Hg.
  apply lookup_ge_None in Hn. rewrite length_drop in Hg. simpl in Hg.
  rewrite List.filter_app, length_app in Hg.
  assert (Hlits : List.filter (fun c => negb (is_byte star_byte c)) lits = lits).
  { clear -Hl. induction Hl as [|c l Hc _ IH]; simpl; [done|].
    unfold is_byte at 1. rewrite bool_decide_eq_false_2 by done. simpl. by rewrite IH. }
  rewrite Hlits in Hg. pose proof (gk_i _ _ _ _ Hok).
  assert (H0 : length (List.filter (fun c => negb (is_byte star_byte c)) (drop p pat)) = 0) by lia.
  clear -H0. induction (drop p pat) as [|c l IH]; simpl in *; [done|].
  destruct (is_byte star_byte c); simpl in *; [by apply IH|done].
Qed.

Lemma glob_loop_complete fuel p i star mark lits :
  star_byte ∉ s -> glob_live p i star mark lits -> glob_loop fuel pat s p i star mark <> Some false.
Proof.
  intros Hns. revert p i star mark lits.
  induction fuel as [|fuel IH]; intros p i star mark lits Hl; simpl; [done|].
  destruct (s !! i) as [c|] eqn:Hc.
  2:{ by rewrite (glob_live_end _ _ _ _ _ Hl Hc). }
  assert (back : ~ Glob (drop p pat) (drop i s) ->
     match star with
     | Some sp => glob_loop fuel pat s (sp + 1) (mark + 1) star (mark + 1)
     | None => Some false end <> Some false).
  { intros Hno. destruct star as [sp|]; [eapply IH, glob_live_back; eauto|].
    destruct Hl as [_ _ Hh]. by destruct Hno. }
  rewrite (drop_lookup_cons s i c Hc) in back.
  destruct (pat !! p) as [q|] eqn:Hq.
  2:{ apply back. rewrite (drop_lookup_nil _ _ Hq). intros H. inversion H. }
  rewrite (drop_lookup_cons pat p q Hq) in back.
  destruct (bool_decide (q = any_byte) || bool_decide (q = c)) eqn:Hlit.
  { eapply IH, glob_live_literal; eauto. apply orb_true_iff in Hlit
      as [->%bool_decide_eq_true| ->%bool_decide_eq_true]; [done|].
    intros ->. apply Hns. by eapply list_elem_of_lookup_2. }
  destruct (bool_decide_reflect (q = star_byte)) as [Hst|Hst]; [subst q; eapply IH, glob_live_star; eauto|].
  apply back. intros H. apply Glob_cons_lit in H as [[_ H] _]; [|done].
  apply orb_false_iff in Hlit as [?%bool_decide_eq_false ?%bool_decide_eq_false]. naive_solver.
Qed.
End glob.

(** [glob_match] ends; what it accepts, the pattern means; and what the
    pattern means it accepts, for a text that holds no [*] byte. *)
Lemma glob_match_total pat s : glob_loop (glob_fuel pat s) pat s 0 0 None 0 = Some (glob_match pat s).
Proof.
  unfold glob_match. destruct (glob_loop_ends pat s (glob_fuel pat s) 0 0 None 0) as [b ->]; [| |done].
  - split; try lia. done.
  - unfold glob_measure, glob_fuel. nia.
Qed.

Lemma glob_match_sound pat s : glob_match pat s = true -> Glob pat s.
Proof.
  intros H. pose proof (glob_match_total pat s) as E. rewrite H in E.
  by eapply glob_loop_sound in E.
Qed.

Lemma glob_match_complete pat s : star_byte ∉ s -> Glob pat s -> glob_match pat s = true.
Proof.
  intros Hns Hg. pose proof (glob_match_total pat s) as E.
  destruct (glob_match pat s); [done|]. exfalso.
  eapply (glob_loop_complete pat s _ 0 0 None 0 []); [done| |exact E].
  split; [split; try lia; done|constructor|]. by rewrite !drop_0.
Qed.

(** ** Base64 is read back *)

#[local] Ltac Zify.zify_post_hook ::= Z.to_euclidean_division_equations.

Lemma lor_shift_add x k y : (y < 2 ^ k)%N -> N.lor (x * 2 ^ k) y = (x * 2 ^ k + y)%N.
Proof.
  intros Hy. assert (H0 : N.land (x * 2 ^ k) y = 0%N);
    [|by rewrite N.add_nocarry_lxor, N.lxor_lor].
  apply N.bits_inj. intros i. rewrite N.land_spec, N.bits_0. destruct (N.lt_ge_cases i k) as [Hi|Hi].
  - by rewrite N.mul_pow2_bits_low.
  - destruct (decide (y = 0%N)) as [->|Hy0]; [by rewrite N.bits_0, andb_false_r|].
    rewrite (N.bits_above_log2 y i), andb_false_r; [done|].
    apply N.log2_lt_pow2; [lia|]. eapply N.lt_le_trans; [exact Hy|].
    by apply N.pow_le_mono_r.
Qed.

Lemma b64_step_val acc bits out v :
  (bits <= 6)%N -> (acc < 2 ^ bits)%N -> (v < 64)%N ->
  b64_step (B64 acc bits out) v =
    if (2 <=? bits)%N
    then B64 ((acc * 64 + v) mod 2 ^ (bits - 2)) (bits - 2)
           (out ++ [byte_of_N ((acc * 64 + v) / 2 ^ (bits - 2))])
    else B64 (acc * 64 + v) (bits + 6) out.
Proof.
  intros Hb Ha Hv. unfold b64_step. cbn [b64_acc b64_bits b64_out].
  assert (Hp : (2 ^ bits <= 64)%N) by (change 64%N with (2 ^ 6)%N; by apply N.pow_le_mono_r).
  assert (Hacc : N.lor (u32_shl acc 6) v = (acc * 64 + v)%N).
  { unfold u32_shl. rewrite N.shiftl_mul_pow2. change (2 ^ 6)%N with 64%N.
    rewrite N.mod_small by (change (2 ^ 32)%N with 4294967296%N; lia).
    by apply (lor_shift_add acc 6 v). }
  rewrite Hacc.
  destruct (N.leb_spec 2 bits).
  - rewrite (proj2 (N.leb_le 8 (bits + 6))) by lia.
    replace (bits + 6 - 8)%N with (bits - 2)%N by lia. f_equal.
    + unfold u32_shl. rewrite N.shiftl_1_l.
      assert (2 ^ (bits - 2) <= 2 ^ 4)%N by (apply N.pow_le_mono_r; lia).
      rewrite N.mod_small by (change (2 ^ 32)%N with 4294967296%N; change (2 ^ 4)%N with 16%N in *; lia).
      rewrite N.sub_1_r, <- N.ones_equiv. apply N.land_ones.
    + by rewrite N.shiftr_div_pow2.
  - by rewrite (proj2 (N.leb_gt 8 (bits + 6))) by lia.
Qed.

Definition alpha (n : N) : byte := default x00 (ALPHABET !! N.to_nat n).

Lemma sextet_alpha n : (n < 64)%N -> sextet (alpha n) = Some n /\ alpha n <> "="%byte.
Proof.
  intros Hn.
  assert (H : forallb (fun k => bool_decide (sextet (alpha (N.of_nat k)) = Some (N.of_nat k)) &&
      bool_decide (alpha (N.of_nat k) <> "="%byte)) (seq 0 64) = true) by by vm_compute.
  rewrite forallb_forall in H. specialize (H (N.to_nat n)). rewrite N2Nat.id in H.
  rewrite andb_true_iff, !bool_decide_eq_true in H. apply H, in_seq. lia.
Qed.

Lemma b64_loop_alpha st n body :
  (n < 64)%N -> b64_loop st (alpha n :: body) = b64_loop (b64_step st n) body.
Proof. intros H. simpl. by rewrite (proj1 (sextet_alpha n H)). Qed.

(** The sextets of one to three bytes. *)
Lemma base64_group_val (a b c : N) i :
  (a < 256)%N -> (b < 256)%N -> (c < 256)%N ->
  N.land (N.shiftr (N.lor (N.lor (u32_shl a 16) (u32_shl b 8)) c) i) 63
  = ((a * 65536 + b * 256 + c) / 2 ^ i mod 64)%N.
Proof.
  intros Ha Hb Hc. unfold u32_shl. rewrite !N.shiftl_mul_pow2.
  rewrite !N.mod_small
    by (change (2 ^ 32)%N with 4294967296%N; change (2 ^ 16)%N with 65536%N; change (2 ^ 8)%N with 256%N; lia).
  rewrite lor_shift_add by (change (2 ^ 16)%N with 65536%N; change (2 ^ 8)%N with 256%N; lia).
  replace (a * 2 ^ 16 + b * 2 ^ 8)%N with ((a * 256 + b) * 2 ^ 8)%N
    by (change (2 ^ 16)%N with 65536%N; change (2 ^ 8)%N with 256%N; lia).
  rewrite lor_shift_add by done. change 63%N with (N.ones 6). rewrite N.land_ones, N.shiftr_div_pow2.
  do 2 f_equal. change (2 ^ 8)%N with 256%N. lia.
Qed.

Lemma base64_chunk_alpha (c : bytes) :
  length c <= 3 ->
  let at_ (i : nat) := Byte.to_N (default x00 (c !! i)) in
  let n := (at_ 0%nat * 65536 + at_ 1%nat * 256 + at_ 2%nat)%N in
  base64_chunk c = (fun i : nat => alpha (n / 2 ^ (18 - 6 * N.of_nat i) mod 64)) <$> seq 0 (length c + 1).
Proof.
  intros Hl at_ n. unfold base64_chunk. apply list_fmap_ext. intros k i _. unfold alpha.
  rewrite base64_group_val; [done|apply byte_to_N_lt..].
Qed.

(** One, two, three and four sextets taken from an empty accumulator. *)
Section sextets.
Variables (out : bytes) (v0 v1 v2 v3 : N).
Hypotheses (H0 : (v0 < 64)%N) (H1 : (v1 < 64)%N) (H2 : (v2 < 64)%N) (H3 : (v3 < 64)%N).

Lemma b64_step0 : b64_step (B64 0 0 out) v0 = B64 v0 6 out.
Proof. by rewrite b64_step_val by done. Qed.

Lemma b64_step1 :
  b64_step (B64 v0 6 out) v1
  = B64 ((v0 * 64 + v1) mod 16) 4 (out ++ [byte_of_N ((v0 * 64 + v1) / 16)]).
Proof. by rewrite b64_step_val by done. Qed.

Lemma b64_step2 acc :
  (acc < 16)%N ->
  b64_step (B64 acc 4 out) v2
  = B64 ((acc * 64 + v2) mod 4) 2 (out ++ [byte_of_N ((acc * 64 + v2) / 4)]).
Proof. intros. by rewrite b64_step_val by done. Qed.

Lemma b64_step3 acc :
  (acc < 4)%N -> b64_step (B64 acc 2 out) v3 = B64 0 0 (out ++ [byte_of_N (acc * 64 + v3)]).
Proof.
  intros. rewrite b64_step_val by done. simpl. by rewrite N.mod_1_r, N.div_1_r.
Qed.
End sextets.

Lemma b64_groups (a b c : N) out body :
  (a < 256)%N -> (b < 256)%N -> (c < 256)%N ->
  let n := (a * 65536 + b * 256 + c)%N in
  let v i := alpha (n / 2 ^ (18 - 6 * N.of_nat i) mod 64) in
  b64_loop (B64 0 0 out) (v 0 :: v 1 :: body)
    = b64_loop (B64 (b / 16) 4 (out ++ [byte_of_N a])) body /\
  b64_loop (B64 (b / 16) 4 (out ++ [byte_of_N a])) (v 2 :: body)
    = b64_loop (B64 (c / 64) 2 ((out ++ [byte_of_N a]) ++ [byte_of_N b])) body /\
  b64_loop (B64 (c / 64) 2 ((out ++ [byte_of_N a]) ++ [byte_of_N b])) (v 3 :: body)
    = b64_loop (B64 0 0 (((out ++ [byte_of_N a]) ++ [byte_of_N b]) ++ [byte_of_N c])) body.
Proof.
  intros Ha Hb Hc n v. unfold v, n. clear v n.
  change (2 ^ (18 - 6 * N.of_nat 0))%N with 262144%N.
  change (2 ^ (18 - 6 * N.of_nat 1))%N with 4096%N.
  change (2 ^ (18 - 6 * N.of_nat 2))%N with 64%N.
  change (2 ^ (18 - 6 * N.of_nat 3))%N with 1%N.
  split; [|split].
  - rewrite !b64_loop_alpha by (apply N.mod_lt; done).
    rewrite b64_step0, b64_step1 by (apply N.mod_lt; done).
    f_equal. f_equal; [lia|]. do 3 f_equal. lia.
  - rewrite b64_loop_alpha by (apply N.mod_lt; done).
    rewrite b64_step2 by (try (apply N.mod_lt; done); lia).
    f_equal. f_equal; [lia|]. do 3 f_equal. lia.
  - rewrite b64_loop_alpha by (apply N.mod_lt; done).
    rewrite b64_step3 by (try (apply N.mod_lt; done); lia).
    do 5 f_equal. lia.
Qed.

Definition base64_pad (b : bytes) : bytes := replicate ((3 - length b mod 3) mod 3) "="%byte.

Lemma base64_encode_3 a b c r :
  base64_encode_unpadded (a :: b :: c :: r) = base64_chunk [a; b; c] ++ base64_encode_unpadded r.
Proof. unfold base64_encode_unpadded. rewrite chunks_cons by (done || lia). done. Qed.

Lemma base64_encode_short b :
  b <> [] -> length b <= 3 -> base64_encode_unpadded b = base64_chunk b.
Proof.
  intros H0 Hl. unfold base64_encode_unpadded. rewrite chunks_cons by (done || lia).
  rewrite take_ge, drop_ge by lia. apply app_nil_r.
Qed.

Lemma base64_ind (P : bytes -> Prop) :
  P [] -> (forall a, P [a]) -> (forall a b, P [a; b]) ->
  (forall a b c r, P r -> P (a :: b :: c :: r)) -> forall b, P b.
Proof.
  intros H0 H1 H2 H3. fix IH 1. intros [|a [|b [|c r]]]; [done..|]. apply H3, IH.
Qed.

Lemma b64_loop_encode b out : b64_loop (B64 0 0 out) (base64_encode_unpadded b) = Some (out ++ b).
Proof.
  assert (Hz : Byte.to_N x00 = 0%N) by done.
  revert b out. refine (base64_ind _ _ _ _ _).
  - intros out. by rewrite app_nil_r.
  - intros a out. rewrite base64_encode_short, base64_chunk_alpha by (done || simpl; lia).
    destruct (b64_groups (Byte.to_N a) 0 0 out []) as (E & _); [apply byte_to_N_lt|done..|].
    refine (eq_trans E _). simpl. by rewrite byte_of_N_to_N.
  - intros a b out. rewrite base64_encode_short, base64_chunk_alpha by (done || simpl; lia).
    destruct (b64_groups (Byte.to_N a) (Byte.to_N b) 0 out
      [alpha ((Byte.to_N a * 65536 + Byte.to_N b * 256 + 0) / 2 ^ (18 - 6 * N.of_nat 2) mod 64)])
      as (E & _); [apply byte_to_N_lt..|done|].
    destruct (b64_groups (Byte.to_N a) (Byte.to_N b) 0 out []) as (_ & E2 & _);
      [apply byte_to_N_lt..|done|].
    refine (eq_trans E (eq_trans E2 _)). simpl. by rewrite !byte_of_N_to_N, <- app_assoc.
  - intros a b c r IH out. rewrite base64_encode_3, base64_chunk_alpha by (simpl; lia).
    pose proof (byte_to_N_lt a). pose proof (byte_to_N_lt b). pose proof (byte_to_N_lt c).
    refine (eq_trans (proj1 (b64_groups (Byte.to_N a) (Byte.to_N b) (Byte.to_N c) out (_ :: _ :: _) _ _ _)) _);
      try done.
    refine (eq_trans (proj1 (proj2 (b64_groups (Byte.to_N a) (Byte.to_N b) (Byte.to_N c) out (_ :: _) _ _ _))) _);
      try done.
    refine (eq_trans (proj2 (proj2 (b64_groups (Byte.to_N a) (Byte.to_N b) (Byte.to_N c) out _ _ _ _))) _);
      try done.
    rewrite !byte_of_N_to_N, IH, <- !app_assoc. done.
Qed.

Lemma base64_chunk_no_pad c : length c <= 3 -> Forall (fun x => is_byte "="%byte x = false) (base64_chunk c).
Proof.
  intros H. rewrite base64_chunk_alpha by done. apply Forall_fmap, Forall_true. intros i.
  apply bool_decide_eq_false, sextet_alpha, N.mod_lt. done.
Qed.

Lemma base64_encode_shape b :
  Forall (fun x => is_byte "="%byte x = false) (base64_encode_unpadded b) /\
  length (base64_encode_unpadded b) = length b / 3 * 4 + match length b mod 3 with 0 => 0 | 1 => 2 | _ => 3 end.
Proof.
  revert b. refine (base64_ind _ _ _ _ _).
  - by split.
  - intros a. rewrite base64_encode_short by (done || simpl; lia).
    split; [apply base64_chunk_no_pad; simpl; lia|done].
  - intros a b. rewrite base64_encode_short by (done || simpl; lia).
    split; [apply base64_chunk_no_pad; simpl; lia|done].
  - intros a b c r [IH1 IH2]. rewrite base64_encode_3. split.
    + apply Forall_app. split; [apply base64_chunk_no_pad; simpl; lia|done].
    + rewrite length_app, IH2. cbn [length].
      replace (S (S (S (length r)))) with (length r + 1 * 3) by lia.
      rewrite Nat.div_add, Nat.Div0.mod_add by done.
      change (length (base64_chunk [a; b; c])) with 4. lia.
Qed.

(** What [base64_encode_unpadded] prints, padded as the standard says, is read
    back as the bytes it was made from. *)
Lemma base64_decode_encode b : base64_decode (base64_encode_unpadded b ++ base64_pad b) = Some b.
Proof.
  destruct (base64_encode_shape b) as [Hne Hl]. unfold base64_decode.
  assert (Hbody : length (drop_while (is_byte "="%byte) (reverse (base64_encode_unpadded b ++ base64_pad b)))
                  = length (base64_encode_unpadded b)).
  { rewrite reverse_app. unfold base64_pad. rewrite reverse_replicate, drop_while_app_all
      by (apply Forall_replicate; done).
    rewrite drop_while_id, length_reverse; [done|].
    intros x Hx. rewrite Forall_forall in Hne. apply Hne, elem_of_reverse.
    destruct (reverse _); [done|]. injection Hx as ->. by left. }
  rewrite Hbody, length_app, take_app_length, b64_loop_encode.
  assert (Hp : length (base64_pad b) = (3 - length b mod 3) mod 3) by apply length_replicate.
  pose proof (Nat.mod_upper_bound (length b) 3 ltac:(done)).
  rewrite !bool_decide_eq_false_2; [done| |].
  - rewrite Hp. destruct (length b mod 3) as [|[|[|]]]; simpl; lia.
  - rewrite Hp, Hl. intros H4. apply H4.
    destruct (length b mod 3) as [|[|[|]]] eqn:E; try lia; simpl ((3 - _) mod 3);
      rewrite <- ?Nat.add_assoc; simpl (_ + _); rewrite Nat.add_comm;
      apply Nat.Div0.mod_add.
Qed.

(** ** Paths stay inside the root *)

Definition norm_name_step (ns : list bytes) (c : component) : list bytes :=
  match c with
  | ParentDir => removelast ns
  | Normal n => ns ++ [n]
  | _ => ns
  end.
Definition norm_names (cs : list component) : list bytes := foldl norm_name_step [] cs.

Lemma normalize_step_names ns c :
  Forall name_ok ns -> (forall n, c = Normal n -> name_ok n) ->
  normalize_step (join_pieces ns) c = join_pieces (norm_name_step ns c) /\ Forall name_ok (norm_name_step ns c).
Proof.
  intros Hns Hc. destruct c as [| | |n]; simpl; try done.
  - destruct (decide (ns = [])) as [->|Hne]; [done|].
    destruct (exists_last Hne) as (ms & m & ->). apply Forall_app in Hns as [Hms [Hm _]%Forall_cons].
    rewrite removelast_last. by rewrite path_pop_name.
  - rewrite path_join_name by auto. split; [done|]. apply names_snoc; auto.
Qed.

Lemma normalize_names p :
  normalize p = join_pieces (norm_names (components p)) /\ Forall name_ok (norm_names (components p)).
Proof.
  unfold normalize, norm_names. change (@nil byte) with (join_pieces []).
  assert (Hc : Forall (fun c => forall n, c = Normal n -> name_ok n) (components p)).
  { apply Forall_forall. intros c Hc n ->. by eapply components_normal_ok. }
  revert Hc. assert (Hn : Forall name_ok []) by constructor. revert Hn.
  generalize (@nil bytes). induction (components p) as [|c cs IH]; intros ns Hns Hcs; [done|].
  apply Forall_cons in Hcs as [Hc Hcs]. simpl.
  destruct (normalize_step_names ns c Hns Hc) as [-> ?]. by apply IH.
Qed.

(** A normalised path is a list of names: no root, no [.], no [..]; it is
    relative, and normalising it again changes nothing. *)
Lemma normalize_is_names p :
  components (normalize p) = Normal <$> norm_names (components p) /\
  has_root (normalize p) = false /\
  normalize (normalize p) = normalize p.
Proof.
  destruct (normalize_names p) as [E H]. rewrite E. split; [by apply components_names|].
  split; [by apply has_root_names|].
  destruct (normalize_names (join_pieces (norm_names (components p)))) as [E2 _]. rewrite E2.
  f_equal. rewrite components_names by done.
  unfold norm_names at 1. generalize (norm_names (components p)). intros ns.
  rewrite <- (app_nil_l ns) at 2. generalize (@nil bytes). induction ns as [|n ns IH]; intros ms; simpl.
  - by rewrite app_nil_r.
  - rewrite IH. by rewrite <- app_assoc.
Qed.

(** ** Words *)

Lemma take_word_None s : take_word s = None <-> Forall (fun x => is_ascii_whitespace x = true) s.
Proof.
  unfold take_word, trim_ascii_start.
  destruct (drop_while_suffix is_ascii_whitespace s) as (p & Hp & Hall). case_bool_decide as H.
  - split; [|done]. intros _. rewrite Hp, H, app_nil_r. done.
  - split; [done|]. intros Hs. by rewrite (drop_while_all _ _ Hs) in H.
Qed.

(** A word and the rest: the word is not empty and holds no white space, and
    only white space was dropped around it. *)
Lemma take_word_Some s w r :
  take_word s = Some (w, r) ->
  w <> [] /\ Forall (fun x => is_ascii_whitespace x = false) w /\
  (forall x, head r = Some x -> is_ascii_whitespace x = false) /\
  exists pre mid, s = pre ++ w ++ mid ++ r /\
    Forall (fun x => is_ascii_whitespace x = true) (pre ++ mid) /\ (r <> [] -> mid <> []).
Proof.
  unfold take_word, trim_ascii_start.
  destruct (drop_while_suffix is_ascii_whitespace s) as (pre & Hpre & Hall).
  set (t := drop_while is_ascii_whitespace s) in *. case_bool_decide as Ht; [done|]. intros [= <- <-].
  destruct (drop_while_suffix is_ascii_whitespace (drop (default (length t) (position is_ascii_whitespace t)) t))
    as (mid & Hmid & Hall2).
  assert (Hw : Forall (fun x => is_ascii_whitespace x = false)
      (take (default (length t) (position is_ascii_whitespace t)) t)).
  { destruct (position _ t) as [i|] eqn:E; simpl.
    - by apply position_Some in E as (_ & ? & _).
    - rewrite take_ge by done. by apply position_None. }
  repeat split.
  - destruct t as [|x t'] eqn:Et; [done|].
    assert (Hx : is_ascii_whitespace x = false)
      by (apply (drop_while_head is_ascii_whitespace s); fold t; by rewrite Et).
    simpl. rewrite Hx. destruct (position _ t'); done.
  - done.
  - apply drop_while_head.
  - exists pre, mid. split; [|split].
    + rewrite <- Hmid, take_drop. done.
    + by apply Forall_app.
    + intros Hr ->. simpl in Hmid. apply Hr. rewrite <- Hmid.
      destruct (position _ t) as [i|] eqn:E; simpl; [|by rewrite drop_ge].
      apply position_Some in E as (_ & _ & x & Hx & Hfx).
      assert (is_ascii_whitespace x = false); [|congruence].
      apply (drop_while_head is_ascii_whitespace (drop i t)). simpl in Hmid. rewrite <- Hmid.
      by rewrite (drop_S _ _ _ Hx).
Qed.

(** ** INI files are read back *)

Definition ini_name_ok (n : bytes) : Prop :=
  is_utf8 n = true /\ Forall (fun x => is_byte "]"%byte x = false /\ is_byte x0a x = false) n.
Definition ini_key_ok (k : bytes) : Prop :=
  is_utf8 k = true /\ trimmed is_ascii_whitespace k /\
  Forall (fun x => is_byte "="%byte x = false /\ is_byte x0a x = false) k /\
  exists c k', k = c :: k' /\ c <> "#"%byte /\ c <> ";"%byte /\ c <> "["%byte.
Definition ini_value_ok (v : bytes) : Prop :=
  trimmed is_ascii_whitespace v /\ Forall (fun x => is_byte x0a x = false) v.

Definition ini_header (n : bytes) : bytes := "["%byte :: n ++ [("]"%byte)].
Definition ini_pair (kv : bytes * bytes) : bytes := fst kv ++ "="%byte :: snd kv.
Definition ini_lines (f : list (bytes * list (bytes * bytes))) : list bytes :=
  f ≫= (fun s => ini_header (fst s) :: (ini_pair <$> snd s)).
Definition ini_print (f : list (bytes * list (bytes * bytes))) : bytes := join [x0a] (ini_lines f).

(** What the printed file should read as. *)
Fixpoint ini_meaning (block : nat) (f : list (bytes * list (bytes * bytes))) : list IniLine :=
  match f with
  | [] => []
  | (n, kvs) :: f' =>
      ((fun kv => mk_ini_line (S block) n (fst kv) (snd kv)) <$> kvs) ++ ini_meaning (S block) f'
  end.

Lemma last_app_cons_eq {A} (l : list A) x r y : last (l ++ x :: r) = Some y -> y ∈ x :: r.
Proof. rewrite last_app_cons. intros H. apply last_Some in H as [k ->]. apply elem_of_app. right. by left. Qed.

Lemma ini_step_header st n :
  ini_name_ok n -> ini_step st (ini_header n) = IniState (is_out st) (is_block st + 1) n.
Proof.
  intros [Hu Hn]. unfold ini_step, trim_ascii, ini_header. rewrite trim_by_id.
  2:{ split; [by intros x [= <-]|]. intros x Hx. rewrite app_comm_cons, last_snoc in Hx. by injection Hx as <-. }
  rewrite bool_decide_eq_false_2 by done. simpl (_ || _). rewrite bool_decide_eq_true_2 by done.
  rewrite app_comm_cons, position_app.
  - simpl (length _ - 1). rewrite Nat.sub_0_r, take_app_length. unfold lossy. by rewrite lossy_id.
  - constructor; [done|]. eapply Forall_impl; [exact Hn|]. by intros x [? _].
  - done.
Qed.

Lemma ini_step_pair st k v :
  ini_key_ok k -> ini_value_ok v ->
  ini_step st (ini_pair (k, v)) =
  IniState (is_out st ++ [mk_ini_line (is_block st) (is_section st) k v]) (is_block st) (is_section st).
Proof.
  intros (Hu & Ht & Hk & c & k' & -> & H1 & H2 & H3) (Hvt & Hv). unfold ini_step, trim_ascii, ini_pair.
  cbn [fst snd]. rewrite trim_by_id.
  2:{ split; [intros x [= <-]; by apply (proj1 Ht)|]. intros x Hx.
      rewrite last_app_cons in Hx. destruct (decide (v = [])) as [->|Hne]; [by injection Hx as <-|].
      apply (proj2 Hvt). destruct v; [done|]. by rewrite last_cons_cons in Hx. }
  rewrite <- app_comm_cons. rewrite !bool_decide_eq_false_2 by done. simpl (_ || _).
  rewrite app_comm_cons, position_app.
  - rewrite take_app_length, trim_by_id by done. unfold lossy. rewrite lossy_id by done.
    rewrite bool_decide_eq_false_2 by done.
    rewrite Nat.add_1_r, drop_app_ge by lia. replace (S _ - _) with 1 by lia.
    simpl (drop 1 _). rewrite drop_0, trim_by_id by done. done.
  - eapply Forall_impl; [exact Hk|]. by intros x [? _].
  - done.
Qed.

Lemma ini_pairs_fold st kvs :
  Forall (fun kv => ini_key_ok (fst kv) /\ ini_value_ok (snd kv)) kvs ->
  foldl ini_step st (ini_pair <$> kvs) =
  IniState (is_out st ++ ((fun kv => mk_ini_line (is_block st) (is_section st) (fst kv) (snd kv)) <$> kvs))
    (is_block st) (is_section st).
Proof.
  intros H. revert st. induction H as [|[k v] kvs [Hk Hv] _ IH]; intros st; csimpl.
  - rewrite app_nil_r. by destruct st.
  - rewrite ini_step_pair, IH by done. simpl. by rewrite <- app_assoc.
Qed.

Definition ini_file_ok (f : list (bytes * list (bytes * bytes))) : Prop :=
  Forall (fun s => ini_name_ok (fst s) /\
    Forall (fun kv => ini_key_ok (fst kv) /\ ini_value_ok (snd kv)) (snd s)) f.

Lemma ini_lines_fold f st :
  ini_file_ok f ->
  is_out (foldl ini_step st (ini_lines f)) = is_out st ++ ini_meaning (is_block st) f.
Proof.
  intros H. revert st. induction H as [|[n kvs] f [Hn Hkv] _ IH]; intros st; [by rewrite app_nil_r|].
  change (ini_lines ((n, kvs) :: f)) with (ini_header n :: (ini_pair <$> kvs) ++ ini_lines f).
  cbn [foldl]. rewrite foldl_app, ini_step_header, ini_pairs_fold, IH by done. cbn [is_out is_block is_section].
  rewrite Nat.add_1_r, <- app_assoc. done.
Qed.

Lemma ini_lines_no_nl f : ini_file_ok f -> Forall (Forall (fun x => is_byte x0a x = false)) (ini_lines f).
Proof.
  intros H. apply Forall_bind. eapply Forall_impl; [exact H|]. intros [n kvs] [[_ Hn] Hkv]. simpl.
  constructor.
  - constructor; [done|]. apply Forall_app. split; [|by constructor].
    eapply Forall_impl; [exact Hn|]. by intros x [_ ?].
  - apply Forall_fmap. eapply Forall_impl; [exact Hkv|]. intros [k v] [(_ & _ & Hk & _) [_ Hv]].
    apply Forall_app. split; [eapply Forall_impl; [exact Hk|]; by intros x [_ ?]|]. by constructor.
Qed.

Lemma ini_print_read f : ini_file_ok f -> ini (ini_print f) = ini_meaning 0 f.
Proof.
  intros H. unfold ini, ini_print. destruct (decide (ini_lines f = [])) as [E|Hne].
  - rewrite E. pose proof (ini_lines_fold f (IniState [] 0 []) H) as L. rewrite E in L. exact L.
  - rewrite split_on_join; [by rewrite ini_lines_fold|done|done|by apply ini_lines_no_nl].
Qed.

(** ** Properties *)

(** [glob_match] always ends; what it accepts, the glob means; and on a
    text without a [*] of its own it accepts exactly what the glob means. *)
Theorem glob_match_correct (pat s : bytes) :
  (exists b, glob_loop (glob_fuel pat s) pat s 0 0 None 0 = Some b /\ glob_match pat s = b) /\
  (glob_match pat s = true -> Glob pat s) /\
  (star_byte ∈ s \/ (Glob pat s <-> glob_match pat s = true)).
Proof.
  split; [exists (glob_match pat s); split; [apply glob_match_total|done]|].
  split; [apply glob_match_sound|]. destruct (decide (star_byte ∈ s)); [by left|right].
  split; [by apply glob_match_complete|apply glob_match_sound].
Qed.

(** A text that begins with a [*] is refused by the glob [*], which means
    every text: the loop compares the two bytes before it asks whether the
    pattern's is a wildcard. *)
Theorem glob_match_star_text (c : byte) (s : bytes) :
  glob_match #"*" (star_byte :: c :: s) = false /\ Glob #"*" (star_byte :: c :: s).
Proof.
  split; [done|]. generalize (star_byte :: c :: s). intros t. induction t; constructor; [constructor|done].
Qed.

(** What [base64_encode_unpadded] prints, padded as the standard says,
    [base64_decode] reads back as the bytes it was made from. *)
Theorem base64_round_trip (b : bytes) :
  base64_decode (base64_encode_unpadded b ++ base64_pad b) = Some b.
Proof. apply base64_decode_encode. Qed.

(** A normalised path stays inside the root: its components are names only
    (no root, no [.], no [..]), it is relative, and normalising it again
    changes nothing. *)
Theorem normalize_confined (p : path) :
  (exists names, components (normalize p) = Normal <$> names /\ Forall name_ok names) /\
  is_absolute (normalize p) = false /\ normalize (normalize p) = normalize p.
Proof.
  destruct (normalize_is_names p) as (E & Hr & Hi). split; [|done].
  exists (norm_names (components p)). split; [exact E|apply normalize_names].
Qed.

(** An INI file printed from named sections of keys and values is read as
    those keys and values, each with its section and the number of the block
    it stands in. *)
Theorem ini_round_trip (f : list (bytes * list (bytes * bytes))) :
  ini_file_ok f -> ini (ini_print f) = ini_meaning 0 f.
Proof. apply ini_print_read. Qed.

Definition ini_sample : list (bytes * list (bytes * bytes)) :=
  [(#"Unit", [(#"Description", #"a = b")]); (#"Service", [(#"ExecStart", #"/bin/true"); (#"ExecStart", [])])].

Lemma ini_round_trip_witness :
  ini_file_ok ini_sample /\ ini (ini_print ini_sample) = ini_meaning 0 ini_sample.
Proof.
  assert (H : ini_file_ok ini_sample).
  { repeat match goal with
    | |- Forall _ [] => constructor
    | |- Forall _ (_ :: _) => apply Forall_cons; split
    | |- ini_file_ok _ => unfold ini_file_ok, ini_sample
    | |- ini_key_ok _ => unfold ini_key_ok
    | |- ini_value_ok _ => unfold ini_value_ok
    | |- ini_name_ok _ => unfold ini_name_ok
    | |- _ /\ _ => split
    | |- trimmed _ _ => split; intros x Hx; try discriminate Hx; by injection Hx as <-
    | |- exists _ _, _ => eexists _, _; split; [reflexivity|]
    | |- Forall _ _ => progress cbn
    | |- _ => done
    end. }
  split; [exact H|apply (ini_round_trip ini_sample); exact H].
Defined.
