(* ===== verification/StrEnum.v ===== *)
(** The [str_enum!] macro of [src/entry.rs] as an interface: an enumeration
    with its variants in order, the text of each, and its place among them
    (the derived [Ord]). What [parse], equality and order do follows from the
    three laws, once for every enumeration. *)

From S2P Require Import Prelude Slices Order.

Class StrEnum (A : Type) := {
  enum_all : list A;
  enum_str : A -> bytes;
  enum_rank : A -> nat;
  enum_all_rank (a : A) : enum_all !! enum_rank a = Some a;
  enum_str_nodup : bool_decide (NoDup (enum_str <$> enum_all)) = true
}.

Section str_enum.
Context {A : Type} `{StrEnum A}.

(** [match s { $text => Some($variant), ... , _ => None }]: the first arm
    whose text is [s]. *)
Definition enum_parse (s : bytes) : option A :=
  List.find (fun a => bool_decide (enum_str a = s)) enum_all.

Lemma enum_rank_inj (a b : A) : enum_rank a = enum_rank b -> a = b.
Proof. intros E. pose proof (enum_all_rank a). pose proof (enum_all_rank b). congruence. Qed.

Definition enum_eq_dec : EqDecision A.
Proof.
  intros a b. destruct (decide (enum_rank a = enum_rank b)) as [E|E].
  - left. by apply enum_rank_inj.
  - right. intros ->. by apply E.
Defined.

Definition enum_ord : Ord A := fun a b => cmp (enum_rank a) (enum_rank b).
Lemma enum_ord_laws : @OrdLaws A enum_ord.
Proof.
  split; unfold cmp, enum_ord.
  - intros a b. rewrite cmp_eq. split; [apply enum_rank_inj|by intros ->].
  - intros a b. apply cmp_flip.
  - intros a b c. apply cmp_lt_trans.
Qed.

Lemma elem_of_enum_all (a : A) : a ∈ enum_all.
Proof. apply list_elem_of_lookup. eexists. apply enum_all_rank. Qed.

Lemma enum_str_inj (a b : A) : enum_str a = enum_str b -> a = b.
Proof.
  intros E. pose proof enum_str_nodup as Hn. apply bool_decide_eq_true in Hn.
  apply enum_rank_inj. eapply (NoDup_lookup _ _ _ (enum_str a) Hn).
  - by rewrite list_lookup_fmap, enum_all_rank.
  - by rewrite list_lookup_fmap, enum_all_rank, E.
Qed.

Lemma enum_parse_Some (s : bytes) (a : A) : enum_parse s = Some a <-> s = enum_str a.
Proof.
  unfold enum_parse. split.
  - intros E. apply find_some in E as [_ E]. by apply bool_decide_eq_true in E.
  - intros ->. destruct (List.find _ _) as [b|] eqn:E.
    + apply find_some in E as [_ E]. apply bool_decide_eq_true, enum_str_inj in E. by subst.
    + pose proof (find_none _ _ E a) as N. simpl in N.
      rewrite bool_decide_eq_true_2 in N by done. discriminate N.
      apply list_elem_of_In, elem_of_enum_all.
Qed.

Lemma enum_parse_str (a : A) : enum_parse (enum_str a) = Some a.
Proof. by apply enum_parse_Some. Qed.
End str_enum.
