(* ===== verification/Kinds.v ===== *)
(** [src/entry.rs], the vocabularies of the record: the six [str_enum!]
    enumerations, the note names of [mod key], and [Scope]. *)

From S2P Require Import Prelude Slices Order StrEnum.

Module Kind.
Inductive kind :=
| SystemdUnit | SystemdTimer | SystemdGenerator | Cron | AtJob | XdgAutostart | ShellProfile
| Pam | Udev | RcLocal | SysvInit | SshAuthorizedKey | Sudoers | LdPreload | KernelModule
| PkgHook | Motd | NetworkDispatcher | DbusService | DesktopExtension | SuidBinary
| FileCapability | GitHook | Tmpfiles | SudoPlugin | PolkitRule | PolkitAction | InetdService
| LibraryDir | KernelCallout | SystemdPreset | NssModule | Doas | SshClient | CloudInit
| SystemdHook | PythonStartup | TcpWrapper | Crypttab | DisplayManager | Logrotate
| EventHandler | InterpreterEnv | PkgSource | Alternative | DpkgDiversion | AuditPlugin
| MonitorPlugin | Plugin | PackageFile | UnfollowedLink | SaltSchedule | MercurialHook
| BrowserPolicy | ProgramStartup | GroupMember | InitramfsHook | Incron | ExternalFact
| Inittab | OpenrcService.

Definition ALL : list kind :=
  [SystemdUnit; SystemdTimer; SystemdGenerator; Cron; AtJob; XdgAutostart; ShellProfile;
   Pam; Udev; RcLocal; SysvInit; SshAuthorizedKey; Sudoers; LdPreload; KernelModule;
   PkgHook; Motd; NetworkDispatcher; DbusService; DesktopExtension; SuidBinary;
   FileCapability; GitHook; Tmpfiles; SudoPlugin; PolkitRule; PolkitAction;
   InetdService; LibraryDir; KernelCallout; SystemdPreset; NssModule; Doas; SshClient;
   CloudInit; SystemdHook; PythonStartup; TcpWrapper; Crypttab; DisplayManager;
   Logrotate; EventHandler; InterpreterEnv; PkgSource; Alternative; DpkgDiversion;
   AuditPlugin; MonitorPlugin; Plugin; PackageFile; UnfollowedLink; SaltSchedule;
   MercurialHook; BrowserPolicy; ProgramStartup; GroupMember; InitramfsHook; Incron;
   ExternalFact; Inittab; OpenrcService].

Definition as_str (x : kind) : bytes :=
  match x with
  | SystemdUnit => #"systemd_unit"
  | SystemdTimer => #"systemd_timer"
  | SystemdGenerator => #"systemd_generator"
  | Cron => #"cron"
  | AtJob => #"at_job"
  | XdgAutostart => #"xdg_autostart"
  | ShellProfile => #"shell_profile"
  | Pam => #"pam"
  | Udev => #"udev"
  | RcLocal => #"rc_local"
  | SysvInit => #"sysv_init"
  | SshAuthorizedKey => #"ssh_authorized_key"
  | Sudoers => #"sudoers"
  | LdPreload => #"ld_preload"
  | KernelModule => #"kernel_module"
  | PkgHook => #"pkg_hook"
  | Motd => #"motd"
  | NetworkDispatcher => #"network_dispatcher"
  | DbusService => #"dbus_service"
  | DesktopExtension => #"desktop_extension"
  | SuidBinary => #"suid_binary"
  | FileCapability => #"file_capability"
  | GitHook => #"git_hook"
  | Tmpfiles => #"tmpfiles"
  | SudoPlugin => #"sudo_plugin"
  | PolkitRule => #"polkit_rule"
  | PolkitAction => #"polkit_action"
  | InetdService => #"inetd_service"
  | LibraryDir => #"library_dir"
  | KernelCallout => #"kernel_callout"
  | SystemdPreset => #"systemd_preset"
  | NssModule => #"nss_module"
  | Doas => #"doas"
  | SshClient => #"ssh_client"
  | CloudInit => #"cloud_init"
  | SystemdHook => #"systemd_hook"
  | PythonStartup => #"python_startup"
  | TcpWrapper => #"tcp_wrapper"
  | Crypttab => #"crypttab"
  | DisplayManager => #"display_manager"
  | Logrotate => #"logrotate"
  | EventHandler => #"event_handler"
  | InterpreterEnv => #"interpreter_env"
  | PkgSource => #"pkg_source"
  | Alternative => #"alternative"
  | DpkgDiversion => #"dpkg_diversion"
  | AuditPlugin => #"audit_plugin"
  | MonitorPlugin => #"monitor_plugin"
  | Plugin => #"plugin"
  | PackageFile => #"package_file"
  | UnfollowedLink => #"unfollowed_link"
  | SaltSchedule => #"salt_schedule"
  | MercurialHook => #"mercurial_hook"
  | BrowserPolicy => #"browser_policy"
  | ProgramStartup => #"program_startup"
  | GroupMember => #"group_member"
  | InitramfsHook => #"initramfs_hook"
  | Incron => #"incron"
  | ExternalFact => #"external_fact"
  | Inittab => #"inittab"
  | OpenrcService => #"openrc_service"
  end.

Definition rank (x : kind) : nat :=
  match x with
  | SystemdUnit => 0 | SystemdTimer => 1 | SystemdGenerator => 2 | Cron => 3 | AtJob => 4
  | XdgAutostart => 5 | ShellProfile => 6 | Pam => 7 | Udev => 8 | RcLocal => 9
  | SysvInit => 10 | SshAuthorizedKey => 11 | Sudoers => 12 | LdPreload => 13
  | KernelModule => 14 | PkgHook => 15 | Motd => 16 | NetworkDispatcher => 17
  | DbusService => 18 | DesktopExtension => 19 | SuidBinary => 20 | FileCapability => 21
  | GitHook => 22 | Tmpfiles => 23 | SudoPlugin => 24 | PolkitRule => 25
  | PolkitAction => 26 | InetdService => 27 | LibraryDir => 28 | KernelCallout => 29
  | SystemdPreset => 30 | NssModule => 31 | Doas => 32 | SshClient => 33 | CloudInit => 34
  | SystemdHook => 35 | PythonStartup => 36 | TcpWrapper => 37 | Crypttab => 38
  | DisplayManager => 39 | Logrotate => 40 | EventHandler => 41 | InterpreterEnv => 42
  | PkgSource => 43 | Alternative => 44 | DpkgDiversion => 45 | AuditPlugin => 46
  | MonitorPlugin => 47 | Plugin => 48 | PackageFile => 49 | UnfollowedLink => 50
  | SaltSchedule => 51 | MercurialHook => 52 | BrowserPolicy => 53 | ProgramStartup => 54
  | GroupMember => 55 | InitramfsHook => 56 | Incron => 57 | ExternalFact => 58
  | Inittab => 59 | OpenrcService => 60
  end.

#[global] Program Instance str_enum : StrEnum kind :=
  {| enum_all := ALL; enum_str := as_str; enum_rank := rank |}.
Next Obligation. by intros []. Qed.
Next Obligation. by vm_compute. Qed.
#[global] Instance eq_dec : EqDecision kind := enum_eq_dec.
#[global] Instance ord : Ord kind := enum_ord.
#[global] Instance ord_laws : OrdLaws kind := enum_ord_laws.
Definition parse : bytes -> option kind := enum_parse.
End Kind.

Module Trigger.
Inductive trigger :=
| Boot | Login | Auth | Schedule | DeviceEvent | NetworkEvent | PackageOp | PowerEvent
| FileEvent | Always.

Definition ALL : list trigger :=
  [Boot; Login; Auth; Schedule; DeviceEvent; NetworkEvent; PackageOp; PowerEvent;
   FileEvent; Always].

Definition as_str (x : trigger) : bytes :=
  match x with
  | Boot => #"boot"
  | Login => #"login"
  | Auth => #"auth"
  | Schedule => #"schedule"
  | DeviceEvent => #"device-event"
  | NetworkEvent => #"network-event"
  | PackageOp => #"package-op"
  | PowerEvent => #"power-event"
  | FileEvent => #"file-event"
  | Always => #"always"
  end.

Definition rank (x : trigger) : nat :=
  match x with
  | Boot => 0 | Login => 1 | Auth => 2 | Schedule => 3 | DeviceEvent => 4
  | NetworkEvent => 5 | PackageOp => 6 | PowerEvent => 7 | FileEvent => 8 | Always => 9
  end.

#[global] Program Instance str_enum : StrEnum trigger :=
  {| enum_all := ALL; enum_str := as_str; enum_rank := rank |}.
Next Obligation. by intros []. Qed.
Next Obligation. by vm_compute. Qed.
#[global] Instance eq_dec : EqDecision trigger := enum_eq_dec.
#[global] Instance ord : Ord trigger := enum_ord.
#[global] Instance ord_laws : OrdLaws trigger := enum_ord_laws.
Definition parse : bytes -> option trigger := enum_parse.
End Trigger.

Module Enablement.
Inductive enablement :=
| Enabled | Disabled | Static | Masked | NotApplicable | Unknown.

Definition ALL : list enablement :=
  [Enabled; Disabled; Static; Masked; NotApplicable; Unknown].

Definition as_str (x : enablement) : bytes :=
  match x with
  | Enabled => #"enabled"
  | Disabled => #"disabled"
  | Static => #"static"
  | Masked => #"masked"
  | NotApplicable => #"not-applicable"
  | Unknown => #"unknown"
  end.

Definition rank (x : enablement) : nat :=
  match x with
  | Enabled => 0 | Disabled => 1 | Static => 2 | Masked => 3 | NotApplicable => 4
  | Unknown => 5
  end.

#[global] Program Instance str_enum : StrEnum enablement :=
  {| enum_all := ALL; enum_str := as_str; enum_rank := rank |}.
Next Obligation. by intros []. Qed.
Next Obligation. by vm_compute. Qed.
#[global] Instance eq_dec : EqDecision enablement := enum_eq_dec.
#[global] Instance ord : Ord enablement := enum_ord.
#[global] Instance ord_laws : OrdLaws enablement := enum_ord_laws.
Definition parse : bytes -> option enablement := enum_parse.
End Enablement.

Module Flag.
Inductive flag :=
| Unpackaged | PackagedModified | ConffileModified | TargetMissing | TargetUnresolvable
| WorldWritable | OwnerMismatch | HiddenPath | NonStandardLocation | ShadowsVendorUnit
| DegradedEnablement | EncodingAnomaly | WritableSearchPath.

Definition ALL : list flag :=
  [Unpackaged; PackagedModified; ConffileModified; TargetMissing; TargetUnresolvable;
   WorldWritable; OwnerMismatch; HiddenPath; NonStandardLocation; ShadowsVendorUnit;
   DegradedEnablement; EncodingAnomaly; WritableSearchPath].

Definition as_str (x : flag) : bytes :=
  match x with
  | Unpackaged => #"unpackaged"
  | PackagedModified => #"packaged-modified"
  | ConffileModified => #"conffile-modified"
  | TargetMissing => #"target-missing"
  | TargetUnresolvable => #"target-unresolvable"
  | WorldWritable => #"world-writable"
  | OwnerMismatch => #"owner-mismatch"
  | HiddenPath => #"hidden-path"
  | NonStandardLocation => #"non-standard-location"
  | ShadowsVendorUnit => #"shadows-vendor-unit"
  | DegradedEnablement => #"degraded-enablement"
  | EncodingAnomaly => #"encoding-anomaly"
  | WritableSearchPath => #"writable-search-path"
  end.

Definition rank (x : flag) : nat :=
  match x with
  | Unpackaged => 0 | PackagedModified => 1 | ConffileModified => 2 | TargetMissing => 3
  | TargetUnresolvable => 4 | WorldWritable => 5 | OwnerMismatch => 6 | HiddenPath => 7
  | NonStandardLocation => 8 | ShadowsVendorUnit => 9 | DegradedEnablement => 10
  | EncodingAnomaly => 11 | WritableSearchPath => 12
  end.

#[global] Program Instance str_enum : StrEnum flag :=
  {| enum_all := ALL; enum_str := as_str; enum_rank := rank |}.
Next Obligation. by intros []. Qed.
Next Obligation. by vm_compute. Qed.
#[global] Instance eq_dec : EqDecision flag := enum_eq_dec.
#[global] Instance ord : Ord flag := enum_ord.
#[global] Instance ord_laws : OrdLaws flag := enum_ord_laws.
Definition parse : bytes -> option flag := enum_parse.
End Flag.

Module Integrity.
Inductive integrity :=
| Intact | Modified | ModeModified | ConffileModified | Unknown.

Definition ALL : list integrity :=
  [Intact; Modified; ModeModified; ConffileModified; Unknown].

Definition as_str (x : integrity) : bytes :=
  match x with
  | Intact => #"intact"
  | Modified => #"modified"
  | ModeModified => #"mode-modified"
  | ConffileModified => #"conffile-modified"
  | Unknown => #"unknown"
  end.

Definition rank (x : integrity) : nat :=
  match x with
  | Intact => 0 | Modified => 1 | ModeModified => 2 | ConffileModified => 3 | Unknown => 4
  end.

#[global] Program Instance str_enum : StrEnum integrity :=
  {| enum_all := ALL; enum_str := as_str; enum_rank := rank |}.
Next Obligation. by intros []. Qed.
Next Obligation. by vm_compute. Qed.
#[global] Instance eq_dec : EqDecision integrity := enum_eq_dec.
#[global] Instance ord : Ord integrity := enum_ord.
#[global] Instance ord_laws : OrdLaws integrity := enum_ord_laws.
Definition parse : bytes -> option integrity := enum_parse.
End Integrity.

Module Producer.
Inductive producer :=
| Snapd | SystemdGenerator | SystemdTransient | SystemctlSetProperty | CloudInit | Apk
| SystemdPreset | DpkgPostinst.

Definition ALL : list producer :=
  [Snapd; SystemdGenerator; SystemdTransient; SystemctlSetProperty; CloudInit; Apk;
   SystemdPreset; DpkgPostinst].

Definition as_str (x : producer) : bytes :=
  match x with
  | Snapd => #"snapd"
  | SystemdGenerator => #"systemd-generator"
  | SystemdTransient => #"systemd-transient"
  | SystemctlSetProperty => #"systemctl-set-property"
  | CloudInit => #"cloud-init"
  | Apk => #"apk"
  | SystemdPreset => #"systemd-preset"
  | DpkgPostinst => #"dpkg-postinst"
  end.

Definition rank (x : producer) : nat :=
  match x with
  | Snapd => 0 | SystemdGenerator => 1 | SystemdTransient => 2 | SystemctlSetProperty => 3
  | CloudInit => 4 | Apk => 5 | SystemdPreset => 6 | DpkgPostinst => 7
  end.

#[global] Program Instance str_enum : StrEnum producer :=
  {| enum_all := ALL; enum_str := as_str; enum_rank := rank |}.
Next Obligation. by intros []. Qed.
Next Obligation. by vm_compute. Qed.
#[global] Instance eq_dec : EqDecision producer := enum_eq_dec.
#[global] Instance ord : Ord producer := enum_ord.
#[global] Instance ord_laws : OrdLaws producer := enum_ord_laws.
Definition parse : bytes -> option producer := enum_parse.
End Producer.


Module key.
Definition TARGET_UNVERIFIABLE : bytes := #"target_unverifiable".
Definition SHADOWS : bytes := #"shadows".
Definition SHADOWED_BY : bytes := #"shadowed_by".
Definition MATCHES_TEMPLATE : bytes := #"matches_template".
Definition TRUSTS : bytes := #"trusts".
Definition VOUCHED : bytes := #"vouched".
Definition READ_FROM : bytes := #"read_from".
Definition DIGEST_UNAVAILABLE : bytes := #"digest_unavailable".
Definition DECLARED_BY_ENTRY : bytes := #"declared_by_entry".
Definition GUARDED_BY_TEST : bytes := #"guarded_by_test".
Definition GUARDED_BY_CONDITION : bytes := #"guarded_by_condition".
Definition SCRIPT_SHELL : bytes := #"script_shell".
Definition EMPTY_FILE : bytes := #"empty_file".
Definition SYMLINK_TARGET : bytes := #"symlink_target".
Definition TEMPLATE_UNIT : bytes := #"template_unit".
Definition SCOPE : bytes := #"scope".
Definition SCOPE_UID : bytes := #"scope_uid".
Definition INFERRED_ENABLEMENT : bytes := #"inferred_enablement".
Definition CHANGED_AFTER_INSTALL : bytes := #"changed_after_install".
Definition SIGNATURE_CHECKING : bytes := #"signature_checking".
Definition REGISTRY_GENERATED : bytes := #"registry_generated".
Definition AFTER_HASH : bytes := #"after_hash".
Definition DAEMON : bytes := #"daemon".
End key.

Export Kind(kind). Export Trigger(trigger). Export Enablement(enablement).
Export Flag(flag). Export Integrity(integrity). Export Producer(producer).

(** [Entry]'s private constant. *)
Definition TARGET_PROVENANCE : bytes := #"target_provenance".

(** [Producer::derives_from_packaged_inputs]. *)
Definition derives_from_packaged_inputs (p : producer) : bool :=
  match p with
  | Producer.SystemdGenerator | Producer.Snapd | Producer.SystemdPreset | Producer.DpkgPostinst => true
  | _ => false
  end.

Module Scope.
Inductive scope :=
| System
| User
| Home (who : bytes).

#[global] Instance eq_dec : EqDecision scope.
Proof. solve_decision. Defined.

Definition label (s : scope) : bytes :=
  match s with
  | System => #"system"
  | User => #"user"
  | Home who => #"user:" ++ who
  end.

Definition from_label (l : bytes) : option scope :=
  if bool_decide (l = #"system") then Some System
  else if bool_decide (l = #"user") then Some User
  else Home <$> strip_prefix #"user:" l.

Lemma from_label_label s : from_label (label s) = Some s.
Proof. destruct s as [| |who]; try done. Qed.

(** Nothing else reads as a scope. *)
Lemma from_label_Some l s : from_label l = Some s <-> l = label s.
Proof.
  split; [|intros ->; apply from_label_label]. unfold from_label.
  repeat case_bool_decide; [by intros [= <-]..|].
  rewrite fmap_Some. intros (who & E & ->). by apply strip_prefix_Some in E.
Qed.
End Scope.
