(* ===== verification/Entry.v ===== *)
(** [src/entry.rs], the record: provenance, target verdicts, [Entry] and its
    operations, identities, and [dedup_ids]. *)

From S2P Require Import Prelude Slices Order Num Utf8 Paths StrEnum Kinds Text.

(** ** Provenance *)

Module Provenance.
Inductive provenance :=
| Packaged (package version : bytes) (integrity : integrity)
| GeneratedBy (by_ : producer)
| Reproduced (by_ : bytes)
| Unpackaged
| Unknown.

#[global] Instance eq_dec : EqDecision provenance.
Proof. solve_decision. Defined.

Definition is_packaged_intact (p : provenance) : bool :=
  match p with Packaged _ _ Integrity.Intact => true | _ => false end.
Definition is_verified (p : provenance) : bool :=
  is_packaged_intact p || match p with Reproduced _ => true | _ => false end.
End Provenance.
Export Provenance(provenance).

(** ** Target verdicts *)

Module TargetVerdict.
Inductive target_verdict :=
| Unpackaged
| Directory (package : bytes)
| Packaged (package : bytes) (integrity : integrity)
| Generated (by_ : producer)
| Reproduced (by_ : bytes)
| Unknown
| Unanswered
| AbsentGuarded (by_ : bytes)
| Other (words : bytes).

#[global] Instance eq_dec : EqDecision target_verdict.
Proof. solve_decision. Defined.

Definition is_verified (v : target_verdict) : bool :=
  match v with
  | Packaged _ Integrity.Intact | Directory _ | Reproduced _ | AbsentGuarded _ => true
  | _ => false
  end.

Definition words (v : target_verdict) : bytes :=
  match v with
  | Unpackaged => #"unpackaged"
  | Directory package => package ++ #" (directory)"
  | Packaged package integrity => package ++ #" (" ++ Integrity.as_str integrity ++ #")"
  | Generated by_ => #"generated by " ++ Producer.as_str by_
  | Reproduced by_ => #"reproduced by " ++ by_ ++ #" (intact)"
  | Unknown => #"unknown"
  | Unanswered => #"unanswered"
  | AbsentGuarded by_ => #"absent, guarded by " ++ by_
  | Other words => words
  end.

(** The last two readings of [from_words]: [<package> (<word>)], or nothing
    this version writes. *)
Definition from_package_words (words : bytes) : target_verdict :=
  match rsplit_once #" (" words with
  | Some (package, rest) =>
      match strip_suffix #")" rest with
      | Some w =>
          if bool_decide (w = #"directory") then Directory package
          else match Integrity.parse w with
               | Some integrity => Packaged package integrity
               | None => Other words
               end
      | None => Other words
      end
  | None => Other words
  end.

Definition from_words (words : bytes) : target_verdict :=
  if bool_decide (words = #"unpackaged") then Unpackaged
  else if bool_decide (words = #"unknown") then Unknown
  else if bool_decide (words = #"unanswered") then Unanswered
  else match strip_prefix #"absent, guarded by " words with
       | Some by_ => AbsentGuarded by_
       | None =>
           match strip_prefix #"generated by " words ≫= Producer.parse with
           | Some by_ => Generated by_
           | None =>
               match strip_prefix #"reproduced by " words ≫= strip_suffix #" (intact)" with
               | Some by_ => Reproduced by_
               | None => from_package_words words
               end
           end
       end.
End TargetVerdict.
Export TargetVerdict(target_verdict).

(** ** The record *)

(** A [SystemTime] is its nanoseconds since the epoch, negative before it. *)
Definition system_time := Z.

Record entry := mk_entry {
  e_id : bytes;
  e_kind : kind;
  e_collector : option bytes;
  e_source : path;
  e_name : bytes;
  e_command : option bytes;
  e_target_path : option path;
  e_target_sha256 : option bytes;
  e_enabled : enablement;
  e_trigger : trigger;
  e_principal : option bytes;
  e_owner_uid : N;
  e_mode : N;
  e_mtime : option system_time;
  e_provenance : provenance;
  e_flags : list flag;
  e_raw : gmap bytes bytes
}.

Definition set_id (e : entry) (id : bytes) : entry :=
  mk_entry id (e_kind e) (e_collector e) (e_source e) (e_name e) (e_command e) (e_target_path e)
    (e_target_sha256 e) (e_enabled e) (e_trigger e) (e_principal e) (e_owner_uid e) (e_mode e)
    (e_mtime e) (e_provenance e) (e_flags e) (e_raw e).
Definition set_name (e : entry) (name : bytes) : entry :=
  mk_entry (e_id e) (e_kind e) (e_collector e) (e_source e) name (e_command e) (e_target_path e)
    (e_target_sha256 e) (e_enabled e) (e_trigger e) (e_principal e) (e_owner_uid e) (e_mode e)
    (e_mtime e) (e_provenance e) (e_flags e) (e_raw e).
Definition set_collector (e : entry) (c : option bytes) : entry :=
  mk_entry (e_id e) (e_kind e) c (e_source e) (e_name e) (e_command e) (e_target_path e)
    (e_target_sha256 e) (e_enabled e) (e_trigger e) (e_principal e) (e_owner_uid e) (e_mode e)
    (e_mtime e) (e_provenance e) (e_flags e) (e_raw e).
Definition set_provenance (e : entry) (p : provenance) : entry :=
  mk_entry (e_id e) (e_kind e) (e_collector e) (e_source e) (e_name e) (e_command e) (e_target_path e)
    (e_target_sha256 e) (e_enabled e) (e_trigger e) (e_principal e) (e_owner_uid e) (e_mode e)
    (e_mtime e) p (e_flags e) (e_raw e).
Definition set_flags (e : entry) (fs : list flag) : entry :=
  mk_entry (e_id e) (e_kind e) (e_collector e) (e_source e) (e_name e) (e_command e) (e_target_path e)
    (e_target_sha256 e) (e_enabled e) (e_trigger e) (e_principal e) (e_owner_uid e) (e_mode e)
    (e_mtime e) (e_provenance e) fs (e_raw e).
Definition set_raw (e : entry) (raw : gmap bytes bytes) : entry :=
  mk_entry (e_id e) (e_kind e) (e_collector e) (e_source e) (e_name e) (e_command e) (e_target_path e)
    (e_target_sha256 e) (e_enabled e) (e_trigger e) (e_principal e) (e_owner_uid e) (e_mode e)
    (e_mtime e) (e_provenance e) (e_flags e) raw.

(** BLAKE3, in hexadecimal: a package, so a parameter. *)
Class Blake3 := blake3_hex : bytes -> bytes.

Module Entry.
Section ids.
Context `{Blake3}.

(** What [id_of] feeds the hasher: each part behind its length, eight bytes
    little-endian. *)
Definition id_input (parts : list bytes) : bytes :=
    parts ≫= (fun part => u64_to_le_bytes (N.of_nat (length part)) ++ part).
Definition id_of (parts : list bytes) : bytes := blake3_hex (id_input parts).

Definition entry_id (k : kind) (source : path) (name : bytes) : bytes :=
    id_of [Kind.as_str k; source; name].
Definition declared_entry_id (k : kind) (source : path) (name declared_by : bytes) : bytes :=
    id_of [Kind.as_str k; source; name; declared_by].

Definition new (k : kind) (source : path) (name : bytes) : entry :=
    mk_entry (entry_id k source name) k None source name None None None
    Enablement.Unknown Trigger.Boot None 0 0 None Provenance.Unknown [] ∅.

Definition rekey (e : entry) (rel : path) : entry := set_id e (entry_id (e_kind e) rel (e_name e)).
Definition rekey_declared (e : entry) (rel : path) (declared_by : bytes) : entry :=
    set_id e (declared_entry_id (e_kind e) rel (e_name e) declared_by).
End ids.

Definition has_flag (e : entry) (f : flag) : bool := mem f (e_flags e).
Definition flag (e : entry) (f : flag) : entry :=
  if mem f (e_flags e) then e else set_flags e (e_flags e ++ [f]).

Definition note (e : entry) (k v : bytes) : entry := set_raw e (<[k := v]> (e_raw e)).
Definition append_note (e : entry) (k v : bytes) : entry :=
  match e_raw e !! k with
  | Some existing => set_raw e (<[k := existing ++ #", " ++ v]> (e_raw e))
  | None => note e k v
  end.

Definition target_verdict (e : entry) : option target_verdict :=
  TargetVerdict.from_words <$> e_raw e !! TARGET_PROVENANCE.
Definition set_target_verdict (e : entry) (v : TargetVerdict.target_verdict) : entry :=
  note e TARGET_PROVENANCE (TargetVerdict.words v).

(** The slice is of bytes; an id is hexadecimal, so no character is cut. *)
Definition short_id (e : entry) : bytes := take (Nat.min 12 (length (e_id e))) (e_id e).
End Entry.

Definition hex (b : bytes) : bytes := b ≫= hex_byte.
Definition name_from_os (e : entry) (original : bytes) : entry :=
  if is_utf8 original then e
  else Entry.note (Entry.flag e Flag.EncodingAnomaly) #"name_raw_hex" (hex original).

(** ** Duplicate ids *)

Section dedup.
Context `{Blake3}.

Record dedup_state := Dedup {
  dd_seen : gset bytes;
  dd_next : gmap bytes N
}.

Definition suffixed (name : bytes) (counter : N) : bytes := name ++ #"#" ++ dec counter.

(** The [loop]: the counter is a [u32]. It returns when a fresh id is found:
    the counter after it, the name and the id. *)
Fixpoint dedup_loop (fuel : nat) (seen : gset bytes) (e : entry) (counter : N) : option (N * bytes * bytes) :=
  match fuel with
  | 0 => None
  | S fuel' =>
      let name := suffixed (e_name e) counter in
      let counter := u32_add counter 1 in
      let id := Entry.entry_id (e_kind e) (e_source e) name in
      if bool_decide (id ∈ seen) then dedup_loop fuel' seen e counter
      else Some (counter, name, id)
  end.

Definition dedup_key (e : entry) : bytes := from_utf8_lossy (e_source e) ++ [x01] ++ e_name e.

(** One turn of the [for]: the entry as it is left. *)
Definition dedup_step (st : dedup_state) (e : entry) : option (dedup_state * entry) :=
  if bool_decide (e_id e ∈ dd_seen st) then
    let counter := default 2%N (dd_next st !! dedup_key e) in
    '(counter, name, id) ← dedup_loop (S (size (dd_seen st))) (dd_seen st) e counter;
    Some (Dedup ({[id]} ∪ dd_seen st) (<[dedup_key e := counter]> (dd_next st)), set_id (set_name e name) id)
  else Some (Dedup ({[e_id e]} ∪ dd_seen st) (dd_next st), e).

Fixpoint dedup_from (st : dedup_state) (es : list entry) : option (list entry) :=
  match es with
  | [] => Some []
  | e :: es' =>
      '(st, e) ← dedup_step st e;
      es' ← dedup_from st es';
      Some (e :: es')
  end.
Definition dedup_ids (es : list entry) : option (list entry) := dedup_from (Dedup ∅ ∅) es.
End dedup.

(** ** Verdict words are read back *)

Definition blank : byte := " ".

(** The verdicts whose words are not those of another: a package's name holds
    no blank, and nothing this version did not write. *)
Definition verdict_ok (v : target_verdict) : Prop :=
  match v with
  | TargetVerdict.Directory package | TargetVerdict.Packaged package _ => blank ∉ package
  | TargetVerdict.Other _ => False
  | _ => True
  end.

(** A word and a bracket do not begin with a word and another word. *)
Lemma bracket_no_prefix (p w : bytes) (c : byte) (q rest : bytes) :
  blank ∉ p -> blank ∉ w -> c <> "("%byte ->
  strip_prefix (w ++ blank :: c :: q) (p ++ blank :: "("%byte :: rest) = None.
Proof.
  intros Hp Hw Hc. destruct (strip_prefix _ _) as [r|] eqn:E; [|done].
  apply strip_prefix_Some in E. rewrite <- app_assoc in E. simpl in E.
  apply cut_first in E as [_ [= <- _]]; done.
Qed.

Lemma blank_not_word (p r w : bytes) : mem blank w = false -> bool_decide (p ++ blank :: r = w) = false.
Proof.
  intros Hw. apply bool_decide_eq_false. intros <-. unfold mem in Hw. apply bool_decide_eq_false in Hw.
  apply Hw, elem_of_app. right. by left.
Qed.

Lemma from_words_package p r :
  blank ∉ p ->
  TargetVerdict.from_words (p ++ #" (" ++ r) = TargetVerdict.from_package_words (p ++ #" (" ++ r).
Proof.
  intros Hp. unfold TargetVerdict.from_words. change (#" (" ++ r) with (blank :: "("%byte :: r).
  rewrite !blank_not_word by done.
  change #"absent, guarded by " with (#"absent," ++ blank :: "g"%byte :: #"uarded by ").
  change #"generated by " with (#"generated" ++ blank :: "b"%byte :: #"y ").
  change #"reproduced by " with (#"reproduced" ++ blank :: "b"%byte :: #"y ").
  assert (forall w, mem blank w = false -> blank ∉ w) as W by (intros w; apply bool_decide_eq_false).
  rewrite !bracket_no_prefix by (done || by apply W). done.
Qed.

Lemma from_package_words_at p r :
  rsplit_once #" (" (#" (" ++ r) = Some ([], r) ->
  TargetVerdict.from_package_words (p ++ #" (" ++ r) =
  match strip_suffix #")" r with
  | Some w =>
      if bool_decide (w = #"directory") then TargetVerdict.Directory p
      else match Integrity.parse w with
           | Some integrity => TargetVerdict.Packaged p integrity
           | None => TargetVerdict.Other (p ++ #" (" ++ r)
           end
  | None => TargetVerdict.Other (p ++ #" (" ++ r)
  end.
Proof.
  intros H. unfold TargetVerdict.from_package_words. rewrite rsplit_once_app; [done|exact H].
Qed.

Lemma from_words_words v : verdict_ok v -> TargetVerdict.from_words (TargetVerdict.words v) = v.
Proof.
  intros Hv. destruct v as [|p|p i|b|b| | |b|w]; try done; simpl in Hv; cbn [TargetVerdict.words].
  - change #" (directory)" with (#" (" ++ #"directory)").
    rewrite (from_words_package p #"directory)") by done. by rewrite (from_package_words_at p #"directory)").
  - rewrite from_words_package, from_package_words_at by (done || by destruct i). by destruct i.
  - by destruct b.
  - unfold TargetVerdict.from_words.
    rewrite !bool_decide_eq_false_2 by (intros E; discriminate E).
    change (strip_prefix #"absent, guarded by " (#"reproduced by " ++ b ++ #" (intact)")) with (@None bytes).
    change (strip_prefix #"generated by " (#"reproduced by " ++ b ++ #" (intact)")) with (@None bytes).
    rewrite strip_prefix_app. cbn [mbind option_bind]. by rewrite strip_suffix_app.
Qed.

(** Whatever the words, the verdict read from them says them again. *)
Lemma words_from_words w : TargetVerdict.words (TargetVerdict.from_words w) = w.
Proof.
  unfold TargetVerdict.from_words, TargetVerdict.from_package_words. repeat case_bool_decide; [done..|].
  destruct (strip_prefix #"absent, guarded by " w) eqn:E1; [by apply strip_prefix_Some in E1|].
  destruct (strip_prefix #"generated by " w ≫= Producer.parse) as [b|] eqn:E2.
  { apply bind_Some in E2 as (x & Ex & Hb). apply strip_prefix_Some in Ex as ->.
    by apply enum_parse_Some in Hb as ->. }
  destruct (strip_prefix #"reproduced by " w ≫= strip_suffix #" (intact)") as [b|] eqn:E3.
  { apply bind_Some in E3 as (x & Ex & Hb). apply strip_prefix_Some in Ex as ->.
    by apply strip_suffix_Some in Hb as ->. }
  destruct (rsplit_once #" (" w) as [[p r]|] eqn:E4; [|done]. apply rsplit_once_Some in E4 as ->.
  destruct (strip_suffix #")" r) as [x|] eqn:E5; [|done]. apply strip_suffix_Some in E5 as ->.
  case_bool_decide; [by subst|]. destruct (Integrity.parse x) as [i|] eqn:E6; [|done].
  by apply enum_parse_Some in E6 as ->.
Qed.

(** ** Identities *)

Lemma has_flag_flag e f : Entry.has_flag (Entry.flag e f) f = true.
Proof.
  unfold Entry.has_flag, Entry.flag. destruct (mem f (e_flags e)) eqn:E; [done|]. unfold mem. apply bool_decide_eq_true.
  cbn. apply elem_of_app. right. by left.
Qed.

Section id_laws.
Context `{Blake3}.

Definition framed (part : bytes) : Prop := (N.of_nat (length part) < 2 ^ 64)%N.

(** No two lists of parts are fed to the hasher alike. *)
Lemma id_input_inj ps qs :
  Forall framed ps -> Forall framed qs -> Entry.id_input ps = Entry.id_input qs -> ps = qs.
Proof.
  revert qs. induction ps as [|p ps IH]; intros [|q qs] Hp Hq E; try done.
  apply Forall_cons in Hp as [Hp Hps]. apply Forall_cons in Hq as [Hq Hqs].
  change (Entry.id_input (p :: ps)) with
    ((u64_to_le_bytes (N.of_nat (length p)) ++ p) ++ Entry.id_input ps) in E.
  change (Entry.id_input (q :: qs)) with
    ((u64_to_le_bytes (N.of_nat (length q)) ++ q) ++ Entry.id_input qs) in E.
  rewrite <- !app_assoc in E. apply app_inj_1 in E as [El E].
  - apply le_bytes_inj in El; [|done..]. apply app_inj_1 in E as [-> E]; [|lia].
    f_equal. by apply IH.
  - unfold u64_to_le_bytes. by rewrite !le_bytes_length.
Qed.

(** No collision among some inputs: what a cryptographic hash offers. *)
Definition collision_free (P : bytes -> Prop) : Prop :=
  forall x y, P x -> P y -> blake3_hex x = blake3_hex y -> x = y.
End id_laws.

(** ** [dedup_ids] ends and leaves no duplicate *)

Section dedup_laws.
Context `{Blake3}.

Definition suffixed_input (e : entry) (k : N) : bytes :=
  Entry.id_input [Kind.as_str (e_kind e); e_source e; suffixed (e_name e) k].

Lemma suffixed_input_inj e1 k1 e2 k2 : suffixed_input e1 k1 = suffixed_input e2 k2 -> k1 = k2.
Proof.
  assert (shape : forall e k, exists x, suffixed_input e k = x ++ "#"%byte :: dec k).
  { intros e k. unfold suffixed_input, suffixed, Entry.id_input. cbn [mbind list_bind].
    eexists. rewrite app_nil_r, !app_assoc.
    change (?a ++ "#"%byte :: dec k) with (a ++ [("#"%byte)] ++ dec k). rewrite app_assoc. done. }
  destruct (shape e1 k1) as [x1 ->], (shape e2 k2) as [x2 ->].
  intros E. apply dec_inj. eapply proj2, cut_last; [..|exact E].
  all: intros Hin; pose proof (dec_is_digits k1); pose proof (dec_is_digits k2);
    rewrite !Forall_forall in *; firstorder discriminate.
Qed.

(** The inputs the loop may hash while it works through [n] entries of [es]. *)
Definition suffixed_of (es : list entry) (n : nat) (x : bytes) : Prop :=
  exists e k, e ∈ es /\ (k <= N.of_nat n + 2)%N /\ x = suffixed_input e k.

Section run.
Variable es : list entry.
Hypothesis Hfree : collision_free (suffixed_of es (length es)).
Hypothesis Hroom : (N.of_nat (length es) + 3 < 2 ^ 32)%N.

(** Different inputs of the domain have different ids, so no more of them than
    ids have been seen. *)
Lemma seen_size (seen : gset bytes) (c : N) (l : list bytes) :
    NoDup l -> Forall (fun x => blake3_hex x ∈ seen) l ->
    Forall (fun x => exists e k, e ∈ es /\ (k < c)%N /\ x = suffixed_input e k) l ->
    (c <= N.of_nat (length es) + 3)%N -> length l <= size seen.
Proof.
    intros Hn Hs Hb Hle.
    assert (Hn' : NoDup (blake3_hex <$> l)).
    { clear Hs. induction Hn as [|x l Hx Hn IH]; csimpl; constructor.
    - intros Hin. apply list_elem_of_fmap in Hin as (y & Hy & Hyl).
      apply Forall_cons in Hb as [(e & k & ? & ? & ->) Hb].
      rewrite Forall_forall in Hb. destruct (Hb _ Hyl) as (e' & k' & ? & ? & ->).
      apply Hfree in Hy; [by rewrite Hy in Hx|..]; eexists _, _; repeat split; try done; lia.
    - apply IH. by apply Forall_cons in Hb as [_ ?]. }
    rewrite <- (length_fmap blake3_hex), <- (size_list_to_set (C := gset bytes)) by exact Hn'.
    apply subseteq_size. intros x. rewrite elem_of_list_to_set, list_elem_of_fmap.
    intros (y & -> & Hy). rewrite Forall_forall in Hs. by apply Hs.
Qed.

(** What a counter [c] stands for: [c - 2] different inputs, each with its id
    already seen. *)
Record tried (seen : gset bytes) (c : N) (l : list bytes) : Prop := {
    tr_nodup : NoDup l;
    tr_count : c = (2 + N.of_nat (length l))%N;
    tr_seen : Forall (fun x => blake3_hex x ∈ seen) l;
    tr_below : Forall (fun x => exists e k, e ∈ es /\ (k < c)%N /\ x = suffixed_input e k) l;
    tr_size : length l <= size seen
}.

Lemma tried_mono seen seen' c l : seen ⊆ seen' -> tried seen c l -> tried seen' c l.
Proof.
    intros Hs [? ? Hseen ? Hz]. split; try done.
    - eapply Forall_impl; [exact Hseen|]. set_solver.
    - pose proof (subseteq_size _ _ Hs). lia.
Qed.

Lemma tried_nil seen : tried seen 2 [].
Proof. split; try done; try constructor. simpl. lia. Qed.

Lemma tried_snoc seen c l e :
    e ∈ es -> blake3_hex (suffixed_input e c) ∈ seen -> size seen <= length es -> tried seen c l ->
    tried seen (c + 1) (suffixed_input e c :: l).
Proof.
    intros He Hin Hz [Hn Hc Hs Hb Hl].
    assert (NoDup (suffixed_input e c :: l)).
    { constructor; [|done]. intros Hx. rewrite Forall_forall in Hb.
    destruct (Hb _ Hx) as (e' & k & _ & Hk & E). apply suffixed_input_inj in E. lia. }
    assert (Forall (fun x => exists e k, e ∈ es /\ (k < c + 1)%N /\ x = suffixed_input e k) (suffixed_input e c :: l)).
    { constructor; [exists e, c; repeat split; try done; lia|].
    eapply Forall_impl; [exact Hb|]. intros x (e' & k & ? & ? & ?). exists e', k. repeat split; try done. lia. }
    split; try done.
    - simpl length. lia.
    - by constructor.
    - eapply seen_size; [done|by constructor|done|]. lia.
Qed.

Lemma dedup_loop_finds fuel seen e c l :
    e ∈ es -> tried seen c l -> size seen < fuel + length l -> size seen < length es ->
    exists k l', dedup_loop fuel seen e c =
      Some ((k + 1)%N, suffixed (e_name e) k, blake3_hex (suffixed_input e k)) /\
    blake3_hex (suffixed_input e k) ∉ seen /\
    tried ({[blake3_hex (suffixed_input e k)]} ∪ seen) (k + 1) l'.
Proof.
    intros He. revert c l. induction fuel as [|fuel IH]; intros c l Ht Hf Hs.
    - pose proof (tr_size _ _ _ Ht). lia.
    - assert (Hc : u32_add c 1 = (c + 1)%N).
    { apply N.mod_small. pose proof (tr_count _ _ _ Ht). pose proof (tr_size _ _ _ Ht). lia. }
    cbn [dedup_loop]. rewrite Hc.
    change (Entry.entry_id (e_kind e) (e_source e) (suffixed (e_name e) c)) with
      (blake3_hex (suffixed_input e c)).
    case_bool_decide as Hin.
    + apply IH with (suffixed_input e c :: l); [apply tried_snoc; try done; lia|simpl; lia|done].
    + exists c, (suffixed_input e c :: l). split; [done|]. split; [done|].
      apply tried_snoc; [done|set_solver| |].
      * rewrite size_union, size_singleton by set_solver. lia.
      * eapply tried_mono; [|exact Ht]. set_solver.
Qed.

(** The state after the entries that came out as [done]. *)
Record dedup_ok (st : dedup_state) (done_ : list entry) : Prop := {
    dk_seen : dd_seen st = list_to_set (e_id <$> done_);
    dk_nodup : NoDup (e_id <$> done_);
    dk_next : forall key c, dd_next st !! key = Some c -> exists l, tried (dd_seen st) c l
}.

(** How an entry comes out: as it was, or under a suffixed name with the id of
    that name. *)
Definition deduped (e e' : entry) : Prop :=
    e' = e \/ exists k, e' = set_id (set_name e (suffixed (e_name e) k))
                              (Entry.entry_id (e_kind e) (e_source e) (suffixed (e_name e) k)).

Lemma dedup_step_ok st done_ e :
    e ∈ es -> length done_ < length es -> dedup_ok st done_ ->
    exists st' e', dedup_step st e = Some (st', e') /\ dedup_ok st' (done_ ++ [e']) /\
    deduped e e' /\ (e_id e ∉ e_id <$> done_ -> e' = e).
Proof.
    intros He Hlen [Hs Hn Hx].
    assert (Hz : size (dd_seen st) = length done_).
    { rewrite Hs, size_list_to_set, length_fmap by exact Hn. done. }
    unfold dedup_step. case_bool_decide as Hin.
    - destruct (dd_next st !! dedup_key e) as [c|] eqn:Ek; simpl default.
    1: destruct (Hx _ _ Ek) as [l Hl].
    2: pose (c := 2%N); pose (l := @nil bytes); pose proof (tried_nil (dd_seen st)) as Hl;
       change 2%N with c in Hl |- *; change [] with l in Hl.
    all: destruct (dedup_loop_finds (S (size (dd_seen st))) (dd_seen st) e c l)
      as (k & l' & E & Hnew & Hl'); [done|done|lia|lia|]; rewrite E; cbn [mbind option_bind];
      eexists _, _; split; [done|]; split; [|split; [right; by exists k|]].
    all: try (intros Hno; destruct Hno; rewrite Hs in Hin; by apply elem_of_list_to_set in Hin).
    all: split; cbn [dd_seen dd_next].
    all: try (rewrite fmap_app, list_to_set_app_L, <- Hs; cbn; set_solver).
    all: try (rewrite fmap_app; apply NoDup_app; split; [done|]; split; [|apply NoDup_singleton];
      intros x Hx1 Hx2; apply list_elem_of_singleton in Hx2 as ->; apply Hnew; rewrite Hs;
      by apply elem_of_list_to_set).
    all: intros key c' [[<- <-]|[_ Hk]]%lookup_insert_Some; [by exists l'|];
      destruct (Hx _ _ Hk) as [m Hm]; exists m; eapply tried_mono; [|exact Hm]; set_solver.
    - eexists _, _. split; [done|]. split; [|split; [by left|done]]. split; cbn [dd_seen dd_next].
    + rewrite fmap_app, list_to_set_app_L, <- Hs. cbn. set_solver.
    + rewrite fmap_app. apply NoDup_app. split; [done|]. split; [|apply NoDup_singleton].
      intros x Hx1 Hx2. apply list_elem_of_singleton in Hx2 as ->. apply Hin. rewrite Hs.
      by apply elem_of_list_to_set.
    + intros key c' Hk. destruct (Hx _ _ Hk) as [m Hm]. exists m. eapply tried_mono; [|exact Hm]. set_solver.
Qed.

Lemma dedup_from_ok rest st done_ :
    Forall (fun e => e ∈ es) rest -> length done_ + length rest <= length es -> dedup_ok st done_ ->
    exists rest', dedup_from st rest = Some rest' /\ NoDup (e_id <$> done_ ++ rest') /\
    Forall2 deduped rest rest' /\
    (forall i e, rest !! i = Some e -> e_id e ∉ e_id <$> done_ ++ take i rest' -> rest' !! i = Some e).
Proof.
    intros Hr. revert st done_. induction Hr as [|e rest He Hr IH]; intros st done_ Hl Hok; cbn [dedup_from].
    - exists []. rewrite app_nil_r. repeat split; [apply Hok|constructor|done].
    - simpl in Hl. destruct (dedup_step_ok st done_ e He ltac:(lia) Hok) as (st' & e' & -> & Hok' & Hd & Hsame).
    destruct (IH st' (done_ ++ [e'])) as (rest' & E & Hn & Hf & Hi); [rewrite length_app; simpl; lia|done|].
    cbn [mbind option_bind]. rewrite E. exists (e' :: rest').
    rewrite <- app_assoc in Hn. split; [done|]. split; [exact Hn|]. split; [by constructor|].
    intros [|i] x; simpl.
    + intros [= <-] Hx. rewrite app_nil_r in Hx. by rewrite Hsame.
    + intros Hx Hnx. apply Hi; [done|]. by rewrite <- app_assoc.
Qed.
End run.

Lemma dedup_ids_ok es :
  collision_free (suffixed_of es (length es)) -> (N.of_nat (length es) + 3 < 2 ^ 32)%N ->
  exists es', dedup_ids es = Some es' /\ NoDup (e_id <$> es') /\ Forall2 deduped es es' /\
    (forall i e, es !! i = Some e -> e_id e ∉ e_id <$> take i es' -> es' !! i = Some e).
Proof.
  intros Hf Hr. apply (dedup_from_ok es Hf Hr es (Dedup ∅ ∅) []).
  - by apply Forall_forall.
  - simpl. lia.
  - split; [done|constructor|done].
Qed.
End dedup_laws.

(** ** Properties *)

Section properties.
Context `{Blake3}.

(** C17. Where BLAKE3 does not collide on the two inputs hashed, two entries
    have one id only when their kind, source and name are the same, and an id
    with a declaring entry is never one without. *)
Theorem entry_id_identity (k k' : kind) (source source' : path) (name name' declared_by : bytes) :
  Forall framed [source; source'; name; name'; declared_by] ->
  collision_free (fun x => x = Entry.id_input [Kind.as_str k; source; name] \/
    x = Entry.id_input [Kind.as_str k'; source'; name'] \/
    x = Entry.id_input [Kind.as_str k'; source'; name'; declared_by]) ->
  (Entry.entry_id k source name = Entry.entry_id k' source' name' ->
    k = k' /\ source = source' /\ name = name') /\
  Entry.entry_id k source name <> Entry.declared_entry_id k' source' name' declared_by.
Proof.
  intros Hf Hc. assert (K : forall q, framed (Kind.as_str q)) by (by intros []).
  rewrite !Forall_cons in Hf. destruct Hf as (? & ? & ? & ? & ? & _).
  assert (F : forall ps, ps = [Kind.as_str k; source; name] \/ ps = [Kind.as_str k'; source'; name'] \/
      ps = [Kind.as_str k'; source'; name'; declared_by] -> Forall framed ps).
  { intros ps [-> | [-> | ->]]; repeat constructor; auto. }
  split; intros E; apply Hc, id_input_inj in E; try (by apply F; auto); try (by auto).
  - injection E as Ek -> ->. change (enum_str k = enum_str k') in Ek. by apply enum_str_inj in Ek as ->.
Qed.

End properties.

Lemma entry_id_identity_witness :
  let h : Blake3 := fun x => x in
  (@Entry.entry_id h Kind.Cron #"/etc/crontab" #"a" = @Entry.entry_id h Kind.Cron #"/etc/crontab" #"a" ->
    Kind.Cron = Kind.Cron /\ #"/etc/crontab" = #"/etc/crontab" /\ #"a" = #"a") /\
  @Entry.entry_id h Kind.Cron #"/etc/crontab" #"a" <>
    @Entry.declared_entry_id h Kind.Cron #"/etc/crontab" #"a" #"0123".
Proof.
  intros h. apply (@entry_id_identity h Kind.Cron Kind.Cron #"/etc/crontab" #"/etc/crontab" #"a" #"a" #"0123").
  - repeat (apply Forall_cons; split); done.
  - intros x y _ _ E. exact E.
Defined.

Definition dedup_sample `{Blake3} : list entry :=
  [Entry.new Kind.Cron #"/etc/crontab" #"job"; Entry.new Kind.Cron #"/etc/crontab" #"job";
   Entry.new Kind.Cron #"/etc/crontab" #"job#2"; Entry.new Kind.Cron #"/etc/crontab" #"job"].

Example dedup_sample_names :
  let h : Blake3 := fun x => x in
  e_name <$> default [] (dedup_ids (H := h) (dedup_sample (H := h))) =
  [ #"job"; #"job#2"; #"job#2#2"; #"job#3"].
Proof. by vm_compute. Qed.


(** The words of a verdict are read back as that verdict, for every
    verdict but one whose package's name holds a blank; and whatever words a
    record holds, the verdict read from them says them again. *)
Theorem verdict_round_trip (v : target_verdict) (w : bytes) :
  (verdict_ok v -> TargetVerdict.from_words (TargetVerdict.words v) = v) /\
  TargetVerdict.words (TargetVerdict.from_words w) = w.
Proof. split; [apply from_words_words|apply words_from_words]. Qed.

Lemma verdict_round_trip_witness :
  let v := TargetVerdict.Packaged #"openssh-server" Integrity.Modified in
  TargetVerdict.words v = #"openssh-server (modified)" /\
  (TargetVerdict.from_words (TargetVerdict.words v) = v /\
   TargetVerdict.words (TargetVerdict.from_words #"x (y) (z)") = #"x (y) (z)").
Proof.
  intros v. split; [reflexivity|].
  destruct (verdict_round_trip v #"x (y) (z)") as [H1 H2]. split; [|exact H2].
  apply H1. apply (bool_decide_eq_true (blank ∉ #"openssh-server")). vm_compute. reflexivity.
Defined.

(** A package name with blanks can spell another verdict: the target of a
    modified package named [absent, guarded by x] reads back as verified. *)
Theorem verdict_spoofed (x : bytes) :
  let v := TargetVerdict.Packaged (#"absent, guarded by " ++ x) Integrity.Modified in
  TargetVerdict.is_verified v = false /\
  TargetVerdict.is_verified (TargetVerdict.from_words (TargetVerdict.words v)) = true.
Proof.
  split; [done|]. unfold TargetVerdict.from_words. cbn [TargetVerdict.words].
  rewrite !bool_decide_eq_false_2 by (intros E; discriminate E).
  by rewrite <- app_assoc, strip_prefix_app.
Qed.

(** The notes, flags and verdict of an entry are kept: what is noted is
    found and other notes are untouched, a flag is held once however often it
    is set, and a verdict set is the verdict read. *)
Theorem entry_updates (e : entry) (k v k' : bytes) (f g : flag) (t : target_verdict) :
  e_raw (Entry.note e k v) !! k = Some v /\
  (k = k' \/ e_raw (Entry.append_note e k v) !! k' = e_raw e !! k') /\
  e_raw (Entry.append_note (Entry.note e k v) k k') !! k = Some (v ++ #", " ++ k') /\
  Entry.has_flag (Entry.flag e f) g = bool_decide (f = g) || Entry.has_flag e g /\
  (NoDup (e_flags e) -> NoDup (e_flags (Entry.flag e f))) /\
  (verdict_ok t -> Entry.target_verdict (Entry.set_target_verdict e t) = Some t).
Proof.
  split; [apply lookup_insert_eq|]. split; [|split; [|split; [|split]]].
  - destruct (decide (k = k')) as [?|Hne]; [by left|right]. unfold Entry.append_note.
    destruct (e_raw e !! k); cbn; by rewrite lookup_insert_ne.
  - unfold Entry.append_note. cbn. rewrite lookup_insert_eq. cbn. apply lookup_insert_eq.
  - unfold Entry.has_flag, Entry.flag. apply Bool.eq_iff_eq_true.
    destruct (mem f (e_flags e)) eqn:Hf; unfold mem in *; cbn; rewrite orb_true_iff, !bool_decide_eq_true.
    + apply bool_decide_eq_true in Hf. naive_solver.
    + rewrite elem_of_app, list_elem_of_singleton. naive_solver.
  - unfold Entry.flag, mem. case_bool_decide; [done|]. intros Hn. cbn. apply NoDup_app.
    split; [done|]. split; [|apply NoDup_singleton].
    intros x Hx Hx2. by apply list_elem_of_singleton in Hx2 as ->.
  - intros Ht. unfold Entry.target_verdict. cbn. rewrite lookup_insert_eq. cbn. f_equal.
    by apply from_words_words.
Qed.

Lemma entry_updates_witness :
  let h : Blake3 := fun x => x in
  let e := Entry.new (H := h) Kind.Cron #"/etc/crontab" #"job" in
  NoDup (e_flags (Entry.flag e Flag.Unpackaged)) /\
  Entry.target_verdict (Entry.set_target_verdict e TargetVerdict.Unanswered) = Some TargetVerdict.Unanswered.
Proof.
  intros h e.
  destruct (entry_updates e #"k" #"v" #"w" Flag.Unpackaged Flag.Unpackaged TargetVerdict.Unanswered)
    as (_ & _ & _ & _ & H1 & H2).
  split; [apply H1; constructor|apply H2; exact I].
Defined.
