(* ===== verification/Record.v ===== *)
(** [src/entry.rs], the record's JSON form: [Serialize], [Deserialize] and
    their helpers, over an interface to serde_json.

    serde_json is a package, so its value type, its primitive writers and
    readers and what its documentation says of them are parameters ([Serde],
    [SerdeLaws]); the key tables, the order, the defaults and the conversions
    are the source's. *)

From S2P Require Import Prelude Slices Order Num Utf8 Paths StrEnum Kinds Entry.

Class Serde (V E : Type) := {
  ser_str : bytes -> V;
  ser_bytes : bytes -> V;
  ser_bool : bool -> V;
  ser_u32 : N -> V;
  ser_i64 : Z -> V;
  ser_none : V;
  ser_seq : list V -> V;
  ser_map : list (bytes * V) -> V;
  ser_provenance : provenance -> V;
  de_string : V -> result E bytes;
  de_byte_vec : V -> result E bytes;
  de_u32 : V -> result E N;
  de_i64 : V -> result E Z;
  de_option : forall {A}, (V -> result E A) -> V -> result E (option A);
  de_seq : forall {A}, (V -> result E A) -> V -> result E (list A);
  de_entries : V -> result E (list (bytes * V));
  de_provenance : V -> result E provenance;
  custom : bytes -> E;
  missing_field : bytes -> E
}.

(** What is written is read back; an array is no string; [null] is [None] and
    anything else a [Some]. *)
Class SerdeLaws (V E : Type) `{Serde V E} := {
  de_ser_str s : is_utf8 s = true -> de_string (ser_str s) = Ok s;
  de_string_bytes b : is_ok (de_string (ser_bytes b)) = false;
  de_ser_bytes b : de_byte_vec (ser_bytes b) = Ok b;
  de_ser_u32 n : (n <= U32_MAX)%N -> de_u32 (ser_u32 n) = Ok n;
  de_ser_i64 z : (- 2 ^ 63 <= z < 2 ^ 63)%Z -> de_i64 (ser_i64 z) = Ok z;
  de_option_none {A} (f : V -> result E A) : de_option f ser_none = Ok None;
  de_option_str {A} (f : V -> result E A) s : de_option f (ser_str s) = Some <$> f (ser_str s);
  de_option_bytes {A} (f : V -> result E A) b : de_option f (ser_bytes b) = Some <$> f (ser_bytes b);
  de_option_i64 {A} (f : V -> result E A) z : de_option f (ser_i64 z) = Some <$> f (ser_i64 z);
  de_ser_seq {A} (g : A -> V) (f : V -> result E A) l :
    (forall a, a ∈ l -> f (g a) = Ok a) -> de_seq f (ser_seq (g <$> l)) = Ok l;
  de_ser_map l : de_entries (ser_map l) = Ok l;
  de_ser_provenance p : de_provenance (ser_provenance p) = Ok p
}.

Section record.
Context {V E : Type} `{Serde V E}.

(** ** Writing *)

Definition ser_option {A} (f : A -> V) (o : option A) : V :=
  match o with Some a => f a | None => ser_none end.
Definition ser_enum {A} `{StrEnum A} (a : A) : V := ser_str (enum_str a).

Definition put_bytes (k b : bytes) : list (bytes * V) :=
  [(k, if is_utf8 b then ser_str b else ser_bytes b); (k ++ #"_utf8", ser_bool (is_utf8 b))].

(** [as i64] of a [u64]. *)
Definition as_i64 (n : Z) : Z := ((n + 2 ^ 63) mod 2 ^ 64 - 2 ^ 63)%Z.
Definition nanos : Z := 1000000000.
Definition unix_secs (t : system_time) : Z :=
  if (0 <=? t)%Z then as_i64 (t / nanos) else (- as_i64 (- t / nanos))%Z.

Definition serialize_fields (e : entry) : list (bytes * V) :=
  [(#"id", ser_str (e_id e)); (#"kind", ser_enum (e_kind e));
   (#"collector", ser_option ser_str (e_collector e))] ++
  put_bytes #"source" (e_source e) ++
  [(#"name", ser_str (e_name e))] ++
  match e_command e with
  | Some c => put_bytes #"command" c
  | None => [(#"command", ser_none)]
  end ++
  match e_target_path e with
  | Some p => put_bytes #"target_path" p
  | None => [(#"target_path", ser_none)]
  end ++
  [(#"target_sha256", ser_option ser_str (e_target_sha256 e)); (#"enabled", ser_enum (e_enabled e));
   (#"trigger", ser_enum (e_trigger e)); (#"principal", ser_option ser_str (e_principal e));
   (#"owner_uid", ser_u32 (e_owner_uid e)); (#"mode", ser_u32 (e_mode e));
   (#"mtime", ser_option ser_i64 (unix_secs <$> e_mtime e));
   (#"provenance", ser_provenance (e_provenance e)); (#"flags", ser_seq (ser_enum <$> e_flags e));
   (#"raw", ser_map (prod_map id ser_str <$> btree_to_list (e_raw e)))].
Definition serialize (e : entry) : V := ser_map (serialize_fields e).

(** ** Reading *)

Inductive raw := Text (s : bytes) | Bytes (b : bytes).
(** [#[serde(untagged)]]: the first variant that reads. *)
Definition de_raw (v : V) : result E raw :=
  match de_string v with
| Ok s => Ok (Text s)
| Err _ =>
      match de_byte_vec v with
      | Ok b => Ok (Bytes b)
      | Err _ => Err (custom #"data did not match any variant of untagged enum Raw")
      end
  end.
Definition raw_bytes (r : raw) : bytes := match r with Text s => s | Bytes b => b end.
Definition to_path (r : raw) : path := raw_bytes r.

Definition de_enum {A} `{StrEnum A} (type_name : bytes) (v : V) : result E A :=
  s ← de_string v; ok_or (custom (#"unknown " ++ type_name ++ #": " ++ s)) (enum_parse s).

(** A [BTreeMap<String, String>]: a later entry of one key replaces an earlier. *)
Fixpoint de_string_pairs (m : gmap bytes bytes) (kvs : list (bytes * V)) : result E (gmap bytes bytes) :=
  match kvs with
  | [] => Ok m
  | (k, v) :: kvs' => s ← de_string v; de_string_pairs (<[k := s]> m) kvs'
  end.
Definition de_string_map (v : V) : result E (gmap bytes bytes) := de_entries v ≫= de_string_pairs ∅.

(** The local variables of [visit_map]. *)
Record visited := mk_visited {
  v_id : option bytes;
  v_kind : option kind;
  v_collector : option bytes;
  v_source : option path;
  v_name : option bytes;
  v_command : option bytes;
  v_target_path : option path;
  v_target_sha256 : option bytes;
  v_enabled : option enablement;
  v_trigger : option trigger;
  v_principal : option bytes;
  v_owner_uid : option N;
  v_mode : option N;
  v_mtime : option (option Z);
  v_provenance : option provenance;
  v_flags : option (list flag);
  v_raw : option (gmap bytes bytes)
}.

Definition visited0 : visited :=
  mk_visited None None None None None None None None None None None None None None None None None.

(** One turn of the [while let]: the value is read at the type of its field. *)
Definition visit_field (p : visited) (kv : bytes * V) : result E visited :=
  let '(k, v) := kv in
  if bool_decide (k = #"id") then
    x ← de_string v;
    Ok (mk_visited
         (Some x) (v_kind p) (v_collector p) (v_source p) (v_name p) (v_command p)
         (v_target_path p) (v_target_sha256 p) (v_enabled p) (v_trigger p)
         (v_principal p) (v_owner_uid p) (v_mode p) (v_mtime p) (v_provenance p)
         (v_flags p) (v_raw p))
  else if bool_decide (k = #"kind") then
    x ← de_enum #"Kind" v;
    Ok (mk_visited
         (v_id p) (Some x) (v_collector p) (v_source p) (v_name p) (v_command p)
         (v_target_path p) (v_target_sha256 p) (v_enabled p) (v_trigger p)
         (v_principal p) (v_owner_uid p) (v_mode p) (v_mtime p) (v_provenance p)
         (v_flags p) (v_raw p))
  else if bool_decide (k = #"collector") then
    x ← de_option de_string v;
    Ok (mk_visited
         (v_id p) (v_kind p) x (v_source p) (v_name p) (v_command p) (v_target_path p)
         (v_target_sha256 p) (v_enabled p) (v_trigger p) (v_principal p) (v_owner_uid p)
         (v_mode p) (v_mtime p) (v_provenance p) (v_flags p) (v_raw p))
  else if bool_decide (k = #"source") then
    x ← to_path <$> de_raw v;
    Ok (mk_visited
         (v_id p) (v_kind p) (v_collector p) (Some x) (v_name p) (v_command p)
         (v_target_path p) (v_target_sha256 p) (v_enabled p) (v_trigger p)
         (v_principal p) (v_owner_uid p) (v_mode p) (v_mtime p) (v_provenance p)
         (v_flags p) (v_raw p))
  else if bool_decide (k = #"name") then
    x ← de_string v;
    Ok (mk_visited
         (v_id p) (v_kind p) (v_collector p) (v_source p) (Some x) (v_command p)
         (v_target_path p) (v_target_sha256 p) (v_enabled p) (v_trigger p)
         (v_principal p) (v_owner_uid p) (v_mode p) (v_mtime p) (v_provenance p)
         (v_flags p) (v_raw p))
  else if bool_decide (k = #"command") then
    x ← de_option (fmap raw_bytes ∘ de_raw) v;
    Ok (mk_visited
         (v_id p) (v_kind p) (v_collector p) (v_source p) (v_name p) x (v_target_path p)
         (v_target_sha256 p) (v_enabled p) (v_trigger p) (v_principal p) (v_owner_uid p)
         (v_mode p) (v_mtime p) (v_provenance p) (v_flags p) (v_raw p))
  else if bool_decide (k = #"target_path") then
    x ← de_option (fmap to_path ∘ de_raw) v;
    Ok (mk_visited
         (v_id p) (v_kind p) (v_collector p) (v_source p) (v_name p) (v_command p) x
         (v_target_sha256 p) (v_enabled p) (v_trigger p) (v_principal p) (v_owner_uid p)
         (v_mode p) (v_mtime p) (v_provenance p) (v_flags p) (v_raw p))
  else if bool_decide (k = #"target_sha256") then
    x ← de_option de_string v;
    Ok (mk_visited
         (v_id p) (v_kind p) (v_collector p) (v_source p) (v_name p) (v_command p)
         (v_target_path p) x (v_enabled p) (v_trigger p) (v_principal p) (v_owner_uid p)
         (v_mode p) (v_mtime p) (v_provenance p) (v_flags p) (v_raw p))
  else if bool_decide (k = #"enabled") then
    x ← de_enum #"Enablement" v;
    Ok (mk_visited
         (v_id p) (v_kind p) (v_collector p) (v_source p) (v_name p) (v_command p)
         (v_target_path p) (v_target_sha256 p) (Some x) (v_trigger p) (v_principal p)
         (v_owner_uid p) (v_mode p) (v_mtime p) (v_provenance p) (v_flags p) (v_raw p))
  else if bool_decide (k = #"trigger") then
    x ← de_enum #"Trigger" v;
    Ok (mk_visited
         (v_id p) (v_kind p) (v_collector p) (v_source p) (v_name p) (v_command p)
         (v_target_path p) (v_target_sha256 p) (v_enabled p) (Some x) (v_principal p)
         (v_owner_uid p) (v_mode p) (v_mtime p) (v_provenance p) (v_flags p) (v_raw p))
  else if bool_decide (k = #"principal") then
    x ← de_option de_string v;
    Ok (mk_visited
         (v_id p) (v_kind p) (v_collector p) (v_source p) (v_name p) (v_command p)
         (v_target_path p) (v_target_sha256 p) (v_enabled p) (v_trigger p) x
         (v_owner_uid p) (v_mode p) (v_mtime p) (v_provenance p) (v_flags p) (v_raw p))
  else if bool_decide (k = #"owner_uid") then
    x ← de_u32 v;
    Ok (mk_visited
         (v_id p) (v_kind p) (v_collector p) (v_source p) (v_name p) (v_command p)
         (v_target_path p) (v_target_sha256 p) (v_enabled p) (v_trigger p)
         (v_principal p) (Some x) (v_mode p) (v_mtime p) (v_provenance p) (v_flags p)
         (v_raw p))
  else if bool_decide (k = #"mode") then
    x ← de_u32 v;
    Ok (mk_visited
         (v_id p) (v_kind p) (v_collector p) (v_source p) (v_name p) (v_command p)
         (v_target_path p) (v_target_sha256 p) (v_enabled p) (v_trigger p)
         (v_principal p) (v_owner_uid p) (Some x) (v_mtime p) (v_provenance p)
         (v_flags p) (v_raw p))
  else if bool_decide (k = #"mtime") then
    x ← de_option de_i64 v;
    Ok (mk_visited
         (v_id p) (v_kind p) (v_collector p) (v_source p) (v_name p) (v_command p)
         (v_target_path p) (v_target_sha256 p) (v_enabled p) (v_trigger p)
         (v_principal p) (v_owner_uid p) (v_mode p) (Some x) (v_provenance p)
         (v_flags p) (v_raw p))
  else if bool_decide (k = #"provenance") then
    x ← de_provenance v;
    Ok (mk_visited
         (v_id p) (v_kind p) (v_collector p) (v_source p) (v_name p) (v_command p)
         (v_target_path p) (v_target_sha256 p) (v_enabled p) (v_trigger p)
         (v_principal p) (v_owner_uid p) (v_mode p) (v_mtime p) (Some x) (v_flags p)
         (v_raw p))
  else if bool_decide (k = #"flags") then
    x ← de_seq (de_enum #"Flag") v;
    Ok (mk_visited
         (v_id p) (v_kind p) (v_collector p) (v_source p) (v_name p) (v_command p)
         (v_target_path p) (v_target_sha256 p) (v_enabled p) (v_trigger p)
         (v_principal p) (v_owner_uid p) (v_mode p) (v_mtime p) (v_provenance p)
         (Some x) (v_raw p))
  else if bool_decide (k = #"raw") then
    x ← de_string_map v;
    Ok (mk_visited
         (v_id p) (v_kind p) (v_collector p) (v_source p) (v_name p) (v_command p)
         (v_target_path p) (v_target_sha256 p) (v_enabled p) (v_trigger p)
         (v_principal p) (v_owner_uid p) (v_mode p) (v_mtime p) (v_provenance p)
         (v_flags p) (Some x))
  else Ok p.

Fixpoint visit_fields (p : visited) (kvs : list (bytes * V)) : result E visited :=
  match kvs with
  | [] => Ok p
  | kv :: kvs' => p ← visit_field p kv; visit_fields p kvs'
  end.

(** [-s as u64]: the negation wraps in an [i64]. *)
Definition neg_as_u64 (s : Z) : Z := (as_i64 (- s) mod 2 ^ 64)%Z.
Definition system_time_of_secs (s : Z) : system_time :=
  if (0 <=? s)%Z then (s * nanos)%Z else (- (neg_as_u64 s * nanos))%Z.

Definition finish (p : visited) : result E entry :=
  let missing (f : bytes) := missing_field f in
  id ← ok_or (missing #"id") (v_id p);
  kind ← ok_or (missing #"kind") (v_kind p);
  source ← ok_or (missing #"source") (v_source p);
  name ← ok_or (missing #"name") (v_name p);
  trigger ← ok_or (missing #"trigger") (v_trigger p);
  Ok (mk_entry id kind (v_collector p) source name (v_command p) (v_target_path p) (v_target_sha256 p)
        (default Enablement.Unknown (v_enabled p)) trigger (v_principal p)
        (default 0%N (v_owner_uid p)) (default 0%N (v_mode p))
        (system_time_of_secs <$> mjoin (v_mtime p))
        (default Provenance.Unknown (v_provenance p)) (default [] (v_flags p)) (default ∅ (v_raw p))).

Definition visit_map (kvs : list (bytes * V)) : result E entry := visit_fields visited0 kvs ≫= finish.
Definition deserialize (v : V) : result E entry := de_entries v ≫= visit_map.
End record.

(** ** What is written is read back *)

Section record_laws.
Context {V E : Type} `{SerdeLaws V E}.

Definition opt_utf8 (o : option bytes) : Prop := forall s, o = Some s -> is_utf8 s = true.

(** What Rust's types already promise of an entry: its strings are UTF-8, its
    integers fit, its time is one a [SystemTime] holds on either side of the
    epoch. *)
Record writable (e : entry) : Prop := {
  wr_id : is_utf8 (e_id e) = true;
  wr_collector : opt_utf8 (e_collector e);
  wr_name : is_utf8 (e_name e) = true;
  wr_sha : opt_utf8 (e_target_sha256 e);
  wr_principal : opt_utf8 (e_principal e);
  wr_uid : (e_owner_uid e <= U32_MAX)%N;
  wr_mode : (e_mode e <= U32_MAX)%N;
  wr_mtime : forall t, e_mtime e = Some t -> (- 2 ^ 63 * nanos < t < 2 ^ 63 * nanos)%Z;
  wr_raw : map_Forall (fun _ v => is_utf8 v = true) (e_raw e)
}.

(** The record keeps whole seconds. *)
Definition to_seconds (t : system_time) : system_time := (Z.quot t nanos * nanos)%Z.
Definition in_seconds (e : entry) : entry :=
  mk_entry (e_id e) (e_kind e) (e_collector e) (e_source e) (e_name e) (e_command e) (e_target_path e)
    (e_target_sha256 e) (e_enabled e) (e_trigger e) (e_principal e) (e_owner_uid e) (e_mode e)
    (to_seconds <$> e_mtime e) (e_provenance e) (e_flags e) (e_raw e).

Lemma as_i64_small n : (- 2 ^ 63 <= n < 2 ^ 63)%Z -> as_i64 n = n.
Proof. intros Hn. unfold as_i64. rewrite Z.mod_small; lia. Qed.

Lemma unix_secs_quot t :
  (- 2 ^ 63 * nanos < t < 2 ^ 63 * nanos)%Z ->
  unix_secs t = Z.quot t nanos /\ (- 2 ^ 63 < Z.quot t nanos < 2 ^ 63)%Z.
Proof.
  intros Ht. unfold unix_secs, nanos in *. destruct (Z.leb_spec 0 t).
  - rewrite Z.quot_div_nonneg by lia.
    assert (0 <= t / 1000000000 < 2 ^ 63)%Z by (split; [apply Z.div_pos; lia|apply Z.div_lt_upper_bound; lia]).
    rewrite as_i64_small; lia.
  - assert (Eq : Z.quot t 1000000000 = (- (- t / 1000000000))%Z).
    { rewrite <- (Z.opp_involutive t) at 1. rewrite Z.quot_opp_l, Z.quot_div_nonneg by lia. done. }
    assert (0 <= - t / 1000000000 < 2 ^ 63)%Z by (split; [apply Z.div_pos; lia|apply Z.div_lt_upper_bound; lia]).
    rewrite as_i64_small, Eq; lia.
Qed.

Lemma secs_round_trip t :
  (- 2 ^ 63 * nanos < t < 2 ^ 63 * nanos)%Z -> system_time_of_secs (unix_secs t) = to_seconds t.
Proof.
  intros Ht. destruct (unix_secs_quot t Ht) as [-> Hs]. unfold system_time_of_secs, to_seconds.
  destruct (Z.leb_spec 0 (Z.quot t nanos)); [done|].
  unfold neg_as_u64. rewrite as_i64_small, Z.mod_small by lia. lia.
Qed.

Lemma de_raw_written b : raw_bytes <$> de_raw (if is_utf8 b then ser_str b else ser_bytes b) = Ok b.
Proof.
  unfold de_raw. destruct (is_utf8 b) eqn:Eb.
  - by rewrite de_ser_str.
  - pose proof (de_string_bytes b) as F. destruct (de_string (ser_bytes b)); [done|].
    by rewrite de_ser_bytes.
Qed.

Lemma de_option_raw {A} (f : raw -> A) (g : bytes -> A) b :
  (forall r, f r = g (raw_bytes r)) ->
  de_option (fmap f ∘ de_raw) (if is_utf8 b then ser_str b else ser_bytes b) = Ok (Some (g b)).
Proof.
  intros Hf.
  assert (R : (fmap f ∘ de_raw) (if is_utf8 b then ser_str b else ser_bytes b) = Ok (g b)).
  { simpl. pose proof (de_raw_written b) as W. destruct (de_raw _) as [r|]; [|done].
    simpl in *. injection W as <-. by rewrite Hf. }
  destruct (is_utf8 b); [rewrite de_option_str|rewrite de_option_bytes]; by rewrite R.
Qed.

Lemma de_ser_enum {A} `{StrEnum A} n (a : A) :
  is_utf8 (enum_str a) = true -> de_enum n (ser_enum a) = Ok a.
Proof. intros Hu. unfold de_enum, ser_enum. rewrite de_ser_str by done. cbn. by rewrite enum_parse_str. Qed.

Lemma de_ser_opt o : opt_utf8 o -> de_option de_string (ser_option ser_str o) = Ok o.
Proof.
  intros Ho. destruct o as [s|]; simpl; [|apply de_option_none].
  rewrite de_option_str, de_ser_str by (by apply Ho). done.
Qed.

Lemma de_ser_mtime o :
  (forall t, o = Some t -> (- 2 ^ 63 * nanos < t < 2 ^ 63 * nanos)%Z) ->
  de_option de_i64 (ser_option ser_i64 (unix_secs <$> o)) = Ok (unix_secs <$> o).
Proof.
  intros Ho. destruct o as [t|]; simpl; [|apply de_option_none].
  destruct (unix_secs_quot t) as [-> Hq]; [by apply Ho|].
  rewrite de_option_i64, de_ser_i64 by lia. done.
Qed.

Lemma de_ser_pairs m0 (l : list (bytes * bytes)) :
  Forall (fun kv => is_utf8 (snd kv) = true) l ->
  de_string_pairs m0 (prod_map id ser_str <$> l) = Ok (foldl (fun m kv => <[fst kv := snd kv]> m) m0 l).
Proof.
  intros Hl. revert m0. induction Hl as [|[k v] l Hv _ IH]; intros m0; csimpl; [done|].
  rewrite de_ser_str by done. cbn. apply IH.
Qed.

Lemma foldl_insert_list (l : list (bytes * bytes)) (m0 : gmap bytes bytes) :
  NoDup l.*1 -> (forall k, k ∈ l.*1 -> m0 !! k = None) ->
  foldl (fun m kv => <[fst kv := snd kv]> m) m0 l = list_to_map l ∪ m0.
Proof.
  revert m0. induction l as [|[k v] l IH]; intros m0 Hn Hd; csimpl; [by rewrite (left_id_L ∅ _)|].
  apply NoDup_cons in Hn as [Hk Hn]. rewrite IH; [|done|].
  - cbn [fst snd]. rewrite <- insert_union_r by (by apply not_elem_of_list_to_map).
    by rewrite insert_union_l.
  - intros k' Hk'. rewrite lookup_insert_ne by (intros ->; done). apply Hd. csimpl. by right.
Qed.

Lemma de_ser_raw (m : gmap bytes bytes) :
  map_Forall (fun _ v => is_utf8 v = true) m ->
  de_string_map (ser_map (prod_map id ser_str <$> btree_to_list m)) = Ok m.
Proof.
  intros Hm. unfold de_string_map. rewrite de_ser_map. cbn [mbind result_bind].
  rewrite de_ser_pairs.
  - f_equal. rewrite foldl_insert_list; [|apply btree_keys_nodup|intros k _; apply lookup_empty].
    rewrite (right_id_L ∅ _). rewrite <- (list_to_map_to_list m) at 2.
    apply list_to_map_proper; [apply btree_keys_nodup|apply btree_to_list_perm].
  - apply Forall_forall. intros [k v] Hkv. apply elem_of_btree_to_list in Hkv. by apply (Hm k).
Qed.

Lemma visit_fields_app p l1 l2 : visit_fields p (l1 ++ l2) = visit_fields p l1 ≫= fun p => visit_fields p l2.
Proof. revert p. induction l1 as [|kv l1 IH]; intros p; simpl; [done|]. by destruct (visit_field p kv); simpl. Qed.

Lemma visit_fields_nil p : visit_fields p [] = Ok p.
Proof. done. Qed.
Lemma visit_fields_cons p kv l :
  visit_fields p (kv :: l) = visit_field p kv ≫= fun p => visit_fields p l.
Proof. done. Qed.

(** Evaluates the comparison of a key with the names [visit_map] knows. *)
Ltac eval_keys :=
  repeat match goal with
  | |- context [@bool_decide (?a = ?b) ?d] =>
      let r := eval vm_compute in (@bool_decide (a = b) d) in
      change (@bool_decide (a = b) d) with r; cbv iota
  end.
Ltac projections :=
  cbn [v_id v_kind v_collector v_source v_name v_command v_target_path v_target_sha256 v_enabled
       v_trigger v_principal v_owner_uid v_mode v_mtime v_provenance v_flags v_raw mbind result_bind].
Ltac visit1 :=
  projections; rewrite ?visit_fields_nil; projections; rewrite ?visit_fields_cons; unfold visit_field;
  cbv beta iota; eval_keys; projections; rewrite ?visit_fields_nil.

Lemma visit_source p b :
  visit_fields p (put_bytes #"source" b) =
  Ok (mk_visited (v_id p) (v_kind p) (v_collector p) (Some b) (v_name p) (v_command p)
        (v_target_path p) (v_target_sha256 p) (v_enabled p) (v_trigger p) (v_principal p)
        (v_owner_uid p) (v_mode p) (v_mtime p) (v_provenance p) (v_flags p) (v_raw p)).
Proof.
  unfold put_bytes. visit1.
  assert (R : to_path <$> de_raw (if is_utf8 b then ser_str b else ser_bytes b) = Ok b) by apply de_raw_written.
  rewrite R. cbn [mbind result_bind]. by visit1.
Qed.

Lemma visit_command p o :
  v_command p = None ->
  visit_fields p (match o with Some c => put_bytes #"command" c | None => [(#"command", ser_none)] end) =
  Ok (mk_visited (v_id p) (v_kind p) (v_collector p) (v_source p) (v_name p) o
        (v_target_path p) (v_target_sha256 p) (v_enabled p) (v_trigger p) (v_principal p)
        (v_owner_uid p) (v_mode p) (v_mtime p) (v_provenance p) (v_flags p) (v_raw p)).
Proof.
  intros Hp. destruct o as [b|]; [unfold put_bytes|]; visit1.
  - rewrite (de_option_raw raw_bytes id) by done. cbn [mbind result_bind]. by visit1.
  - rewrite de_option_none. cbn [mbind result_bind]. done.
Qed.

Lemma visit_target_path p o :
  visit_fields p (match o with Some c => put_bytes #"target_path" c | None => [(#"target_path", ser_none)] end) =
  Ok (mk_visited (v_id p) (v_kind p) (v_collector p) (v_source p) (v_name p) (v_command p)
        o (v_target_sha256 p) (v_enabled p) (v_trigger p) (v_principal p)
        (v_owner_uid p) (v_mode p) (v_mtime p) (v_provenance p) (v_flags p) (v_raw p)).
Proof.
  destruct o as [b|]; [unfold put_bytes|]; visit1.
  - rewrite (de_option_raw to_path id) by done. cbn [mbind result_bind]. by visit1.
  - rewrite de_option_none. cbn [mbind result_bind]. done.
Qed.

Lemma visit_written e :
  writable e ->
  visit_fields visited0 (serialize_fields e) =
  Ok (mk_visited (Some (e_id e)) (Some (e_kind e)) (e_collector e) (Some (e_source e)) (Some (e_name e))
        (e_command e) (e_target_path e) (e_target_sha256 e) (Some (e_enabled e)) (Some (e_trigger e))
        (e_principal e) (Some (e_owner_uid e)) (Some (e_mode e)) (Some (unix_secs <$> e_mtime e))
        (Some (e_provenance e)) (Some (e_flags e)) (Some (e_raw e))).
Proof.
  intros [? ? ? ? ? ? ? ? ?]. unfold serialize_fields, visited0.
  rewrite ?visit_fields_nil; projections; rewrite visit_fields_app. visit1. rewrite de_ser_str by done. projections.
  visit1. rewrite de_ser_enum by (by destruct (e_kind e)). projections.
  visit1. rewrite de_ser_opt by done. projections.
  rewrite ?visit_fields_nil; projections; rewrite visit_fields_app, visit_source. projections.
  rewrite ?visit_fields_nil; projections; rewrite visit_fields_app. visit1. rewrite de_ser_str by done.
  projections. rewrite ?visit_fields_nil; projections; rewrite visit_fields_app, visit_command by done. projections.
  rewrite ?visit_fields_nil; projections; rewrite visit_fields_app, visit_target_path. projections. visit1.
  rewrite de_ser_opt by done. projections. visit1.
  rewrite de_ser_enum by (by destruct (e_enabled e)). projections. visit1.
  rewrite de_ser_enum by (by destruct (e_trigger e)). projections. visit1.
  rewrite de_ser_opt by done. projections. visit1.
  rewrite !de_ser_u32 by done. projections. visit1.
  rewrite !de_ser_u32 by done. projections. visit1.
  rewrite de_ser_mtime by done. projections. visit1.
  rewrite de_ser_provenance. projections. visit1.
  rewrite de_ser_seq by (intros f _; apply de_ser_enum; by destruct f). projections. visit1.
  rewrite de_ser_raw by done. projections. by rewrite visit_fields_nil.
Qed.

Lemma deserialize_serialize e : writable e -> deserialize (serialize e) = Ok (in_seconds e).
Proof.
  intros He. unfold deserialize, serialize. rewrite de_ser_map. cbn [mbind result_bind].
  unfold visit_map. rewrite visit_written by done. cbn [mbind result_bind].
  assert (Ht : system_time_of_secs <$> (unix_secs <$> e_mtime e) = to_seconds <$> e_mtime e).
  { pose proof (wr_mtime e He) as Hm. destruct (e_mtime e) as [t|]; [|done]. cbn. f_equal.
    by apply secs_round_trip, Hm. }
  unfold finish, in_seconds. projections. cbn [ok_or mbind result_bind default mjoin option_join].
  by rewrite <- Ht.
Qed.

(** The names [visit_map] knows. *)
Definition record_keys : list bytes :=
  [ #"id"; #"kind"; #"collector"; #"source"; #"name"; #"command"; #"target_path"; #"target_sha256";
   #"enabled"; #"trigger"; #"principal"; #"owner_uid"; #"mode"; #"mtime"; #"provenance"; #"flags"; #"raw"].

Lemma visit_field_other p k v : k ∉ record_keys -> visit_field p (k, v) = Ok p.
Proof.
  intros Hk. unfold visit_field. cbv beta iota. unfold record_keys in Hk.
  repeat (let Hx := fresh in apply not_elem_of_cons in Hk as [Hx Hk]; rewrite (bool_decide_eq_false_2 _ Hx)).
  done.
Qed.

Lemma visit_map_ignores l1 k (v : V) l2 :
  k ∉ record_keys -> visit_map (l1 ++ (k, v) :: l2) = visit_map (l1 ++ l2).
Proof.
  intros Hk. unfold visit_map. rewrite !visit_fields_app. destruct (visit_fields visited0 l1); [|done].
  cbn [mbind result_bind visit_fields]. by rewrite visit_field_other.
Qed.

(** What a run leaves of the fields an entry must have came from the map. *)
Lemma visit_field_keeps p kv p' :
  visit_field p kv = Ok p' ->
  (is_Some (v_id p') -> is_Some (v_id p) \/ fst kv = #"id") /\
  (is_Some (v_kind p') -> is_Some (v_kind p) \/ fst kv = #"kind") /\
  (is_Some (v_source p') -> is_Some (v_source p) \/ fst kv = #"source") /\
  (is_Some (v_name p') -> is_Some (v_name p) \/ fst kv = #"name") /\
  (is_Some (v_trigger p') -> is_Some (v_trigger p) \/ fst kv = #"trigger").
Proof.
  destruct kv as [k v]. unfold visit_field. cbv beta iota.
  repeat (case_bool_decide; [
    rewrite result_bind_Ok; intros (x & _ & [= <-]); cbn [fst]; projections; repeat split; auto|]).
  intros [= <-]. repeat split; auto.
Qed.

Lemma visit_fields_keeps l p p' :
  visit_fields p l = Ok p' ->
  (is_Some (v_id p') -> is_Some (v_id p) \/ #"id" ∈ l.*1) /\
  (is_Some (v_kind p') -> is_Some (v_kind p) \/ #"kind" ∈ l.*1) /\
  (is_Some (v_source p') -> is_Some (v_source p) \/ #"source" ∈ l.*1) /\
  (is_Some (v_name p') -> is_Some (v_name p) \/ #"name" ∈ l.*1) /\
  (is_Some (v_trigger p') -> is_Some (v_trigger p) \/ #"trigger" ∈ l.*1).
Proof.
  revert p. induction l as [|kv l IH]; intros p.
  - rewrite visit_fields_nil. intros [= <-]. auto 10.
  - rewrite visit_fields_cons, result_bind_Ok. intros (q & Hq & E').
    apply visit_field_keeps in Hq. apply IH in E'. csimpl. setoid_rewrite elem_of_cons.
    destruct Hq as (? & ? & ? & ? & ?), E' as (? & ? & ? & ? & ?).
    repeat split; intros Hs.
    all: match goal with H1 : is_Some (?f ?x) -> _ \/ _, H2 : is_Some (?f ?x) |- _ => destruct (H1 H2) end; [|by auto].
    all: match goal with H1 : is_Some (?f ?x) -> _ \/ _, H2 : is_Some (?f ?x) |- _ => destruct (H1 H2) end; auto.
Qed.

Lemma visit_map_required (l : list (bytes * V)) f e :
  f ∈ [ #"id"; #"kind"; #"source"; #"name"; #"trigger"] -> visit_map l = Ok e -> f ∈ l.*1.
Proof.
  intros Hf. unfold visit_map. rewrite result_bind_Ok. intros (p & Hp & Hfin).
  apply visit_fields_keeps in Hp. unfold finish in Hfin.
  repeat (apply result_bind_Ok in Hfin as (? & ?%ok_or_Ok & Hfin)).
  destruct Hp as (K1 & K2 & K3 & K4 & K5). rewrite !elem_of_cons in Hf.
  assert (N : forall A, is_Some (@None A) -> False) by (intros A [? [=]]).
  destruct Hf as [->|[->|[->|[->|[->|Hf]]]]]; [..|by apply elem_of_nil in Hf].
  - destruct K1 as [Hn|?]; [by eexists|by apply N in Hn|done].
  - destruct K2 as [Hn|?]; [by eexists|by apply N in Hn|done].
  - destruct K3 as [Hn|?]; [by eexists|by apply N in Hn|done].
  - destruct K4 as [Hn|?]; [by eexists|by apply N in Hn|done].
  - destruct K5 as [Hn|?]; [by eexists|by apply N in Hn|done].
Qed.
End record_laws.
