(* ===== verification/Json.v ===== *)
(** A JSON value and the readers and writers of [Record]'s interface over it:
    the interface's laws hold of something, and the record's theorems can be
    run on a concrete entry. *)

From S2P Require Import Prelude Slices Order Num Utf8 Paths StrEnum Kinds Entry Record.

Inductive json :=
| JNull
| JBool (b : bool)
| JNum (z : Z)
| JStr (s : bytes)
| JArr (vs : list json)
| JObj (kvs : list (bytes * json)).

Module Json.
Definition err : Type := bytes.

Definition string (v : json) : result err bytes :=
    match v with JStr s => Ok s | _ => Err #"expected a string" end.
Definition number (lo hi : Z) (v : json) : result err Z :=
    match v with
    | JNum z => if (lo <=? z)%Z && (z <=? hi)%Z then Ok z else Err #"number out of range"
    | _ => Err #"expected a number"
    end.
Definition u32 (v : json) : result err N := Z.to_N <$> number 0 (2 ^ 32 - 1) v.
Definition i64 (v : json) : result err Z := number (- 2 ^ 63) (2 ^ 63 - 1) v.
Definition option_ {A} (f : json -> result err A) (v : json) : result err (option A) :=
    match v with JNull => Ok None | _ => Some <$> f v end.
Fixpoint seq_ {A} (f : json -> result err A) (vs : list json) : result err (list A) :=
    match vs with
    | [] => Ok []
    | v :: vs' => x ← f v; xs ← seq_ f vs'; Ok (x :: xs)
    end.
Definition array {A} (f : json -> result err A) (v : json) : result err (list A) :=
    match v with JArr vs => seq_ f vs | _ => Err #"expected an array" end.
Definition byte_vec (v : json) : result err bytes :=
    array (fun v => byte_of_N ∘ Z.to_N <$> number 0 255 v) v.
Definition entries (v : json) : result err (list (bytes * json)) :=
    match v with JObj kvs => Ok kvs | _ => Err #"expected an object" end.

(** The derived form of [Provenance]: internally tagged, kebab case. *)
Definition tagged (tag : bytes) (fields : list (bytes * bytes)) : json :=
    JObj ((#"verdict", JStr tag) :: (prod_map id JStr <$> fields)).
Definition of_provenance (p : provenance) : json :=
    match p with
    | Provenance.Packaged package version integrity =>
        tagged #"packaged" [(#"package", package); (#"version", version);
                            (#"integrity", Integrity.as_str integrity)]
    | Provenance.GeneratedBy by_ => tagged #"generated-by" [(#"by", Producer.as_str by_)]
    | Provenance.Reproduced by_ => tagged #"reproduced" [(#"by", by_)]
    | Provenance.Unpackaged => tagged #"unpackaged" []
    | Provenance.Unknown => tagged #"unknown" []
    end.
Definition field (k : bytes) (kvs : list (bytes * json)) : result err bytes :=
    match List.find (fun kv => bool_decide (fst kv = k)) kvs with
    | Some (_, v) => string v
    | None => Err (#"missing field " ++ k)
    end.
Definition provenance (v : json) : result err Provenance.provenance :=
    kvs ← entries v;
    tag ← field #"verdict" kvs;
    if bool_decide (tag = #"packaged") then
      package ← field #"package" kvs;
      version ← field #"version" kvs;
      i ← field #"integrity" kvs;
      integrity ← ok_or #"unknown Integrity" (Integrity.parse i);
      Ok (Provenance.Packaged package version integrity)
    else if bool_decide (tag = #"generated-by") then
      s ← field #"by" kvs;
      by_ ← ok_or #"unknown Producer" (Producer.parse s);
      Ok (Provenance.GeneratedBy by_)
    else if bool_decide (tag = #"reproduced") then by_ ← field #"by" kvs; Ok (Provenance.Reproduced by_)
    else if bool_decide (tag = #"unpackaged") then Ok Provenance.Unpackaged
    else if bool_decide (tag = #"unknown") then Ok Provenance.Unknown
    else Err #"unknown variant".

#[global] Instance serde : Serde json err := {|
    ser_str := JStr;
    ser_bytes b := JArr ((fun c => JNum (Z.of_N (Byte.to_N c))) <$> b);
    ser_bool := JBool;
    ser_u32 n := JNum (Z.of_N n);
    ser_i64 := JNum;
    ser_none := JNull;
    ser_seq := JArr;
    ser_map := JObj;
    ser_provenance := of_provenance;
    de_string := string;
    de_byte_vec := byte_vec;
    de_u32 := u32;
    de_i64 := i64;
    de_option := @option_;
    de_seq := @array;
    de_entries := entries;
    de_provenance := provenance;
    custom m := m;
    missing_field f := #"missing field " ++ f
  |}.

Lemma seq_fmap {A B} (g : A -> json) (f : json -> result err B) (h : A -> B) l :
    (forall a, a ∈ l -> f (g a) = Ok (h a)) -> seq_ f (g <$> l) = Ok (h <$> l).
Proof.
    induction l as [|a l IH]; intros Hl; csimpl; [done|].
    rewrite Hl by (by left). cbn. rewrite IH by (intros b Hb; apply Hl; by right). done.
Qed.

Lemma number_ok lo hi z : (lo <= z <= hi)%Z -> number lo hi (JNum z) = Ok z.
Proof. intros Hz. unfold number. by rewrite !(proj2 (Z.leb_le _ _)) by lia. Qed.

Lemma byte_number (c : byte) :
    byte_of_N ∘ Z.to_N <$> number 0 255 (JNum (Z.of_N (Byte.to_N c))) = Ok c.
Proof.
    pose proof (byte_to_N_lt c). rewrite number_ok by lia. cbn. by rewrite N2Z.id, byte_of_N_to_N.
Qed.

#[global] Instance serde_laws : SerdeLaws json err.
Proof.
    split; cbn [ser_str ser_bytes ser_u32 ser_i64 ser_none ser_seq ser_map ser_provenance de_string de_byte_vec
      de_u32 de_i64 de_option de_seq de_entries de_provenance serde]; try done.
    - intros b. pose proof (seq_fmap (fun c => JNum (Z.of_N (Byte.to_N c)))
        (fun v => byte_of_N ∘ Z.to_N <$> number 0 255 v) id b) as S.
      rewrite list_fmap_id in S. apply S. intros c _. apply byte_number.
    - intros n Hn. unfold u32, U32_MAX in *. rewrite number_ok by lia. cbn. by rewrite N2Z.id.
    - intros z Hz. unfold i64. apply number_ok. lia.
    - intros A g f l Hl. pose proof (seq_fmap g f id l) as S. rewrite list_fmap_id in S. by apply S.
    - intros p. destruct p as [package version i|b|b| |]; try done; by destruct i || by destruct b.
Qed.
End Json.

(** ** Properties of the record *)

Section properties.
Context {V E : Type} `{SerdeLaws V E}.

(** C15. An entry written to JSON and read back is the same entry, its time in
    whole seconds: paths and commands that are no text included. *)
Theorem record_round_trip (e : entry) : writable e -> deserialize (serialize e) = Ok (in_seconds e).
Proof. apply deserialize_serialize. Qed.

(** C16. A field an older reader does not know, wherever it stands, changes
    nothing of what is read; a record without one of the five fields every
    entry has is refused. *)
Theorem record_additive (l1 l2 : list (bytes * V)) (k : bytes) (v : V) :
  (k ∈ record_keys \/
    deserialize (ser_map (l1 ++ (k, v) :: l2)) = deserialize (ser_map (l1 ++ l2))) /\
  (forall f e, f ∈ [ #"id"; #"kind"; #"source"; #"name"; #"trigger"] ->
    deserialize (ser_map l1) = Ok e -> f ∈ l1.*1).
Proof.
  split.
  - destruct (decide (k ∈ record_keys)) as [?|Hk]; [by left|right].
    unfold deserialize. rewrite !de_ser_map. cbn [mbind result_bind]. by apply visit_map_ignores.
  - intros f e Hf. unfold deserialize. rewrite de_ser_map. cbn [mbind result_bind].
    by apply visit_map_required.
Qed.
End properties.

Definition record_sample : entry :=
  mk_entry #"0f" Kind.Cron (Some #"cron") [("/"%byte); xff] #"job" (Some [xfe; x00]) None None
    Enablement.Enabled Trigger.Schedule (Some #"root") 1000 33188 (Some (-1500000000)%Z)
    (Provenance.Packaged #"cron" #"3.0" Integrity.Intact) [Flag.WorldWritable] {[ #"shadows" := #"a" ]}.

Lemma record_round_trip_witness :
  writable record_sample /\
  deserialize (V := json) (serialize record_sample) = Ok (in_seconds record_sample).
Proof.
  assert (W : writable record_sample).
  { split; try done; try (by intros s [= <-]); try (by vm_compute).
    by apply map_Forall_singleton. }
  split; [exact W|apply (record_round_trip record_sample W)].
Defined.

Lemma record_additive_witness :
  deserialize (V := json) (ser_map ((#"severity", JNull) :: serialize_fields record_sample)) =
    deserialize (ser_map (serialize_fields record_sample)) /\
  #"trigger" ∈ (serialize_fields (V := json) record_sample).*1.
Proof.
  split.
  - destruct (record_additive (V := json) [] (serialize_fields record_sample) #"severity" JNull) as [[H|H] _].
    + exfalso. revert H. apply (bool_decide_eq_false (#"severity" ∈ record_keys)). vm_compute. reflexivity.
    + exact H.
  - destruct (record_additive (V := json) (serialize_fields record_sample) [] [] JNull) as [_ H].
    apply (H #"trigger" (in_seconds record_sample)).
    + apply (bool_decide_eq_true (#"trigger" ∈ _)). vm_compute. reflexivity.
    + vm_compute. reflexivity.
Defined.
