(* ===== verification/ScanData.v ===== *)
(** [src/scan.rs], the data: a collector's status, the scan's header, the
    scan. *)

From S2P Require Import Prelude Slices Order Paths Kinds Entry.

Module Status.
Inductive status :=
| Complete
| Partial (unreadable : list bytes)
| Skipped (reason : bytes)
| Failed (error : bytes).
#[global] Instance eq_dec : EqDecision status.
Proof. solve_decision. Defined.
End Status.
Export Status(status).

Record collector_status := mk_collector_status {
  cs_name : bytes;
  cs_status : status;
  cs_entries : nat;
  cs_truncated : list bytes
}.

Record header := mk_header {
  h_unbidden_version : bytes;
  h_schema_version : N;
  h_scan_time : Z;
  h_hostname : bytes;
  h_kernel : bytes;
  h_distro_id : bytes;
  h_distro_version : bytes;
  h_distro_like : bytes;
  h_root : path;
  h_live : bool;
  h_deep : bool;
  h_privileged : bool;
  h_enablement : bytes;
  h_collectors : list collector_status;
  h_enrichment_failures : list bytes;
  h_package_databases : option (list bytes)
}.

Record scan := mk_scan { s_header : header; s_entries : list entry }.

Definition inferred : bytes := #"inferred".
Definition SCHEMA_VERSION : N := 1.

(** The order entries are sorted in, here and after a diff: by kind, then by
    source as paths compare, then by name. *)
Definition entry_key (e : entry) : kind * list component * bytes :=
  (e_kind e, components (e_source e), e_name e).
