(* ===== verification/Diff.v ===== *)
(** [src/diff.rs]: two scans compared. *)

From S2P Require Import Prelude Slices Order Num Utf8 Paths StrEnum Kinds Entry Record ScanData.

Definition line_feed : bytes := [x0a].

(** ** Deltas *)

Module Delta.
Inductive delta :=
| Added
| Removed
| Changed (fields : list bytes)
| Unchanged
| Uncertain (would_be : bytes) (fields : list bytes) (because : bytes).
#[global] Instance eq_dec : EqDecision delta.
Proof. solve_decision. Defined.

Definition label (d : delta) : bytes :=
  match d with
  | Added => #"added"
  | Removed => #"removed"
  | Changed _ => #"changed"
  | Unchanged => #"unchanged"
  | Uncertain _ _ _ => #"uncertain"
  end.
End Delta.
Export Delta(delta).

Record diffed := mk_diffed { d_entry : entry; d_delta : delta }.

(** ** Whether two scans compare *)

Definition depth (deep : bool) : bytes := if deep then #"with --deep" else #"without --deep".
Definition privilege (root : bool) : bytes := if root then #"as root" else #"unprivileged".

Definition enrichment_ok (when : bytes) (s : scan) : result bytes unit :=
  match h_enrichment_failures (s_header s) with
  | [] => Ok tt
  | fs => Err (#"enrichment failed in " ++ when ++
               #", so its provenance and flags are incomplete:" ++ line_feed ++ #"  " ++
               join (line_feed ++ #"  ") fs)
  end.

Definition comparable (baseline current : scan) : result bytes unit :=
  let b := s_header baseline in
  let c := s_header current in
  if negb (bool_decide (h_deep b = h_deep c)) then
    Err (#"baseline was taken " ++ depth (h_deep b) ++ #" and this scan " ++ depth (h_deep c) ++
         #"; a deep scan and a shallow one are not comparable")
  else if negb (bool_decide (h_privileged b = h_privileged c)) then
    Err (#"baseline was taken " ++ privilege (h_privileged b) ++ #" and this scan " ++
         privilege (h_privileged c) ++ #"; run both the same way")
  else if negb (bool_decide (h_enablement b = h_enablement c)) then
    Err (#"baseline enablement came from " ++ h_enablement b ++ #" and this scan's from " ++
         h_enablement c ++ #"; every unit would appear to have changed")
  else
    _ ← enrichment_ok #"the baseline" baseline;
    enrichment_ok #"this scan" current.

(** ** What a collector could see *)

Module Coverage.
Inductive coverage := All | AllBut (paths : gset bytes) | Nothing.

Definition of_status (s : option collector_status) : coverage :=
  match cs_status <$> s with
  | Some Status.Complete => All
  | Some (Status.Partial unreadable) => AllBut (list_to_set unreadable)
  | _ => Nothing
  end.

Definition covers (self other : coverage) : bool :=
  match self, other with
  | All, _ | _, Nothing => true
  | AllBut mine, AllBut theirs => bool_decide (mine ⊆ theirs)
  | _, _ => false
  end.
End Coverage.

Record trust_t := mk_trust { t_added : bool; t_removed : bool; t_because : bytes }.

Definition kind_of (s : status) : bytes :=
  match s with
  | Status.Complete => #"complete"
  | Status.Partial _ => #"partial"
  | Status.Skipped _ => #"skipped"
  | Status.Failed _ => #"failed"
  end.

Definition by_name (s : scan) : gmap bytes collector_status :=
  foldl (fun m c => <[cs_name c := c]> m) ∅ (h_collectors (s_header s)).

Definition status_word (c : option collector_status) : bytes :=
  match c with Some c => kind_of (cs_status c) | None => #"absent" end.
Definition unreadable_of (c : option collector_status) : list bytes :=
  match cs_status <$> c with Some (Status.Partial unreadable) => unreadable | _ => [] end.

Definition because_of (name : bytes) (then_ now : option collector_status) : bytes :=
  let was := unreadable_of then_ in
  let is_now := unreadable_of now in
  let fresh := List.filter (fun u => negb (mem u was)) is_now in
  let cleared := List.filter (fun u => negb (mem u is_now)) was in
  name ++ #": " ++ status_word then_ ++ #" then, " ++ status_word now ++ #" now" ++
  (if bool_decide (fresh = []) then [] else #"; newly unreadable: " ++ join #", " fresh) ++
  (if bool_decide (cleared = []) then [] else #"; readable again: " ++ join #", " cleared).

Definition trust_step (old new : gmap bytes collector_status) (out : gmap bytes trust_t) (name : bytes) :=
  let then_ := Coverage.of_status (old !! name) in
  let now := Coverage.of_status (new !! name) in
  let narrowed := Coverage.covers then_ now in
  let widened := Coverage.covers now then_ in
  if narrowed && widened then out
  else <[name := mk_trust narrowed widened (because_of name (old !! name) (new !! name))]> out.

Definition trust (baseline current : scan) : gmap bytes trust_t :=
  let old := by_name baseline in
  let new := by_name current in
  foldl (trust_step old new) ∅ (bset_to_list (dom old ∪ dom new)).

(** ** Indexing *)

Fixpoint index_from (which : bytes) (out : gmap bytes entry) (es : list entry)
    : result bytes (gmap bytes entry) :=
  match es with
  | [] => Ok out
  | e :: es' =>
      match out !! e_id e with
      | Some first =>
          Err (#"duplicate entry id in the " ++ which ++ #": " ++ Entry.short_id e ++ #" is both " ++
               e_name first ++ #" (" ++ from_utf8_lossy (e_source first) ++ #") and " ++
               e_name e ++ #" (" ++ from_utf8_lossy (e_source e) ++
               #"). This is a collector defect or a deliberate collision; the diff will not guess.")
      | None => index_from which (<[e_id e := e]> out) es'
      end
  end.
Definition index (s : scan) (which : bytes) : result bytes (gmap bytes entry) :=
  index_from which ∅ (s_entries s).

(** ** Changed fields *)

Definition within (root text : bytes) : bytes :=
  let prefix := drop_while_end (is_byte slash) (from_utf8_lossy root) in
  if bool_decide (prefix = []) then text else replace_all (prefix ++ #"/") #"/" text.

Definition target_within (e : entry) (root : path) : option bytes :=
  (fun t => within root (from_utf8_lossy t)) <$> e_target_path e.

(** The notes with the machine's current state left out, as a map. *)
Definition settled (e : entry) (root : path) : gmap bytes bytes :=
  within root <$> filter (fun kv => starts_with #"live." (fst kv) = false) (e_raw e).

Definition check (name : bytes) (differs : bool) : list bytes := if differs then [name] else [].

Definition changed_fields (before after : entry) (roots : path * path) : list bytes :=
  check #"command" (negb (bool_decide (e_command before = e_command after))) ++
  check #"target_path" (negb (bool_decide (target_within before (fst roots) = target_within after (snd roots)))) ++
  check #"target_sha256" (negb (bool_decide (e_target_sha256 before = e_target_sha256 after))) ++
  check #"enabled" (negb (bool_decide (e_enabled before = e_enabled after))) ++
  check #"trigger" (negb (bool_decide (e_trigger before = e_trigger after))) ++
  check #"principal" (negb (bool_decide (e_principal before = e_principal after))) ++
  check #"owner_uid" (negb (bool_decide (e_owner_uid before = e_owner_uid after))) ++
  check #"mode" (negb (bool_decide (e_mode before = e_mode after))) ++
  check #"mtime" (negb (bool_decide (e_mtime before = e_mtime after))) ++
  check #"provenance" (negb (bool_decide (e_provenance before = e_provenance after))) ++
  check #"flags" (negb (bool_decide (sort_by id (e_flags before) = sort_by id (e_flags after)))) ++
  check #"raw" (negb (bool_decide (settled before (fst roots) = settled after (snd roots)))).

(** ** The comparison *)

Definition judged (tr : gmap bytes trust_t) (e : entry) (d : delta) : delta :=
  match e_collector e ≫= (fun c => tr !! c) with
  | None => d
  | Some t =>
      let uncertain would_be fields (trusted : bool) :=
        if trusted then d else Delta.Uncertain would_be fields (t_because t) in
      match d with
      | Delta.Added => uncertain #"added" [] (t_added t)
      | Delta.Removed => uncertain #"removed" [] (t_removed t)
      | Delta.Changed fields => uncertain #"changed" fields false
      | _ => d
      end
  end.

Definition substantive (fields : list bytes) : list bytes :=
  List.filter (fun f => negb (bool_decide (f = #"mtime"))) fields.

(** One turn of the loop over the current scan's entries, in id order. *)
Definition diff_step (tr : gmap bytes trust_t) (roots : path * path)
    (st : gmap bytes entry * list diffed) (kv : bytes * entry) : gmap bytes entry * list diffed :=
  let '(old, out) := st in
  let '(id, e) := kv in
  match old !! id with
  | None => (old, out ++ [mk_diffed e (judged tr e Delta.Added)])
  | Some before =>
      let fields := changed_fields before e roots in
      let d := if bool_decide (substantive fields = []) then Delta.Unchanged
               else judged tr e (Delta.Changed fields) in
      (delete id old, out ++ [mk_diffed e d])
  end.

Definition diff_with (baseline current : scan) (tr : gmap bytes trust_t) : result bytes (list diffed) :=
  if negb (bool_decide (tr = ∅)) && existsb (fun e => bool_decide (e_collector e = None)) (s_entries baseline) then
    Err (#"collector coverage differs, and this baseline predates per-collector comparison; " ++
         #"take a new baseline:" ++ line_feed ++ #"  " ++
         join (line_feed ++ #"  ") (t_because <$> btree_values tr))
  else
    old ← index baseline #"baseline";
    new ← index current #"current scan";
    let roots := (h_root (s_header baseline), h_root (s_header current)) in
    let '(old, out) := foldl (diff_step tr roots) (old, []) (btree_to_list new) in
    let out := out ++ ((fun e => mk_diffed e (judged tr e Delta.Removed)) <$> btree_values old) in
    Ok (sort_by (entry_key ∘ d_entry) out).

Record comparison := mk_comparison {
  cmp_entries : list diffed;
  cmp_coverage : gmap bytes bytes
}.

Definition compare (baseline current : scan) : result bytes comparison :=
  _ ← comparable baseline current;
  let tr := trust baseline current in
  es ← diff_with baseline current tr;
  Ok (mk_comparison es (t_because <$> tr)).

Definition diff (baseline current : scan) : result bytes (list diffed) :=
  cmp_entries <$> compare baseline current.

(** ** As JSON *)

Section to_json.
Context {V E : Type} `{Serde V E}.

Definition ser_words (ws : list bytes) : V := ser_seq (ser_str <$> ws).
(** The object [to_value] makes of the entry, with what the delta adds. *)
Definition to_json (d : diffed) : gmap bytes V :=
  let m := foldl (fun m kv => <[fst kv := snd kv]> m) ∅ (serialize_fields (d_entry d)) in
  let m := <[ #"delta" := ser_str (Delta.label (d_delta d))]> m in
  match d_delta d with
  | Delta.Changed fields => <[ #"changed" := ser_words fields]> m
  | Delta.Uncertain would_be fields because =>
      let m := <[ #"would_be" := ser_str would_be]> m in
      let m := if bool_decide (fields = []) then m else <[ #"changed" := ser_words fields]> m in
      <[ #"uncertain_because" := ser_str because]> m
  | _ => m
  end.
End to_json.

(** ** What the index holds *)

Definition ids (es : list entry) : list bytes := e_id <$> es.
Definition indexed (es : list entry) : gmap bytes entry := list_to_map ((fun e => (e_id e, e)) <$> es).

Lemma ids_keys es : ((fun e => (e_id e, e)) <$> es).*1 = ids es.
Proof. unfold ids. rewrite <- list_fmap_compose. done. Qed.

Lemma index_from_Ok which out es m :
  index_from which out es = Ok m <->
  NoDup (ids es) /\ (forall e, e ∈ es -> out !! e_id e = None) /\ m = indexed es ∪ out.
Proof.
  revert out. induction es as [|e es IH]; intros out; cbn [index_from].
  - split; [intros [= <-]|intros (_ & _ & ->)]; unfold indexed; csimpl; rewrite (left_id_L ∅ _); [|done].
    split; [constructor|]. split; [by intros e He%elem_of_nil|done].
  - unfold ids, indexed in *. csimpl. destruct (out !! e_id e) as [f|] eqn:Ho.
    + split; [done|]. intros (_ & Hd & _). rewrite Hd in Ho by (by left). done.
    + rewrite IH, NoDup_cons. setoid_rewrite elem_of_cons. split.
      * intros (Hn & Hd & ->).
        assert (Hne : e_id e ∉ e_id <$> es).
        { intros (f & Ef & Hf)%list_elem_of_fmap. specialize (Hd f Hf). rewrite <- Ef, lookup_insert_eq in Hd. done. }
        repeat split; try done.
        -- intros f [->|Hf]; [done|]. specialize (Hd f Hf). destruct (decide (e_id e = e_id f)) as [E|E].
           ++ rewrite E, lookup_insert_eq in Hd. done.
           ++ by rewrite lookup_insert_ne in Hd.
        -- rewrite <- insert_union_r; [by rewrite insert_union_l|].
           apply not_elem_of_list_to_map. by rewrite ids_keys.
      * intros ([Hne Hn] & Hd & ->). repeat split; try done.
        -- intros f Hf. rewrite lookup_insert_ne; [apply Hd; by right|].
           intros E. apply Hne, list_elem_of_fmap. by exists f.
        -- rewrite <- insert_union_l. rewrite insert_union_r; [done|].
           apply not_elem_of_list_to_map. by rewrite ids_keys.
Qed.

Lemma index_Ok s which m :
  index s which = Ok m <-> NoDup (ids (s_entries s)) /\ m = indexed (s_entries s).
Proof.
  unfold index. rewrite index_from_Ok, (right_id_L ∅ _).
  split; [naive_solver|]. intros [Hn ->]. split; [done|]. split; [|done]. intros e _. apply lookup_empty.
Qed.

Lemma indexed_lookup es id e :
  NoDup (ids es) -> indexed es !! id = Some e <-> e ∈ es /\ e_id e = id.
Proof.
  intros Hn. unfold indexed. rewrite <- elem_of_list_to_map by (by rewrite ids_keys).
  rewrite list_elem_of_fmap. naive_solver.
Qed.

Lemma indexed_None es id : indexed es !! id = None <-> id ∉ ids es.
Proof. unfold indexed. by rewrite <- not_elem_of_list_to_map, ids_keys. Qed.

Lemma indexed_values es : NoDup (ids es) -> btree_values (indexed es) ≡ₚ es.
Proof.
  intros Hn. unfold btree_values. rewrite btree_to_list_perm. unfold indexed.
  rewrite map_to_list_to_map by (by rewrite ids_keys). rewrite <- list_fmap_compose. by rewrite list_fmap_id.
Qed.

(** ** What each collector is trusted for *)

Definition trust_spec (old new : option collector_status) (name : bytes) : option trust_t :=
  let narrowed := Coverage.covers (Coverage.of_status old) (Coverage.of_status new) in
  let widened := Coverage.covers (Coverage.of_status new) (Coverage.of_status old) in
  if narrowed && widened then None else Some (mk_trust narrowed widened (because_of name old new)).

Lemma trust_fold old new names out name :
  NoDup names ->
  foldl (trust_step old new) out names !! name =
  if bool_decide (name ∈ names)
  then match trust_spec (old !! name) (new !! name) name with Some t => Some t | None => out !! name end
  else out !! name.
Proof.
  intros Hn. revert out. induction Hn as [|n names Hnn Hn IH]; intros out; csimpl; [done|].
  rewrite IH. unfold trust_step, trust_spec.
  destruct (decide (name = n)) as [->|Hne].
  - rewrite bool_decide_eq_false_2 by done. rewrite (bool_decide_eq_true_2 (n ∈ n :: names)) by (by left).
    destruct (Coverage.covers _ _ && Coverage.covers _ _); [done|]. by rewrite lookup_insert_eq.
  - rewrite (bool_decide_ext (name ∈ n :: names) (name ∈ names)) by (rewrite elem_of_cons; naive_solver).
    destruct (Coverage.covers (Coverage.of_status (old !! n)) _ && _); [done|]. by rewrite lookup_insert_ne.
Qed.

Lemma trust_lookup baseline current name :
  trust baseline current !! name = trust_spec (by_name baseline !! name) (by_name current !! name) name.
Proof.
  unfold trust. rewrite trust_fold by apply bset_to_list_nodup. rewrite lookup_empty.
  case_bool_decide as Hin; [by destruct (trust_spec _ _ _)|].
  rewrite elem_of_bset_to_list, elem_of_union, !elem_of_dom in Hin.
  destruct (by_name baseline !! name); [destruct Hin; left; by eexists|].
  destruct (by_name current !! name); [destruct Hin; right; by eexists|]. done.
Qed.

Lemma covers_refl c : Coverage.covers c c = true.
Proof. destruct c; simpl; try done. by apply bool_decide_eq_true. Qed.

Lemma trust_self s : trust s s = ∅.
Proof. apply map_eq. intros n. rewrite trust_lookup, lookup_empty. unfold trust_spec. by rewrite !covers_refl. Qed.

(** ** The loop *)

Definition row_delta (tr : gmap bytes trust_t) (roots : path * path) (old : gmap bytes entry) (kv : bytes * entry) : delta :=
  match old !! fst kv with
  | None => judged tr (snd kv) Delta.Added
  | Some before =>
      let fields := changed_fields before (snd kv) roots in
      if bool_decide (substantive fields = []) then Delta.Unchanged
      else judged tr (snd kv) (Delta.Changed fields)
  end.

Lemma diff_fold tr roots old out l :
  NoDup l.*1 ->
  foldl (diff_step tr roots) (old, out) l =
  (filter (fun kv => fst kv ∉ l.*1) old, out ++ ((fun kv => mk_diffed (snd kv) (row_delta tr roots old kv)) <$> l)).
Proof.
  revert old out. induction l as [|[id e] l IH]; intros old out Hn; csimpl.
  - rewrite app_nil_r. f_equal. symmetry. apply map_filter_id. intros k v _. apply not_elem_of_nil.
  - apply NoDup_cons in Hn as [Hid Hn]. unfold row_delta at 1. cbn [fst snd].
    assert (R : forall old', (forall k, k ∈ l.*1 -> old' !! k = old !! k) ->
      ((fun kv => mk_diffed (snd kv) (row_delta tr roots old' kv)) <$> l) =
      ((fun kv => mk_diffed (snd kv) (row_delta tr roots old kv)) <$> l)).
    { intros old' Ho. apply list_fmap_ext. intros i [k v] Hk. f_equal. unfold row_delta. cbn [fst snd].
      rewrite Ho; [done|]. apply list_elem_of_fmap. exists (k, v). split; [done|]. by eapply list_elem_of_lookup_2. }
    destruct (old !! id) as [before|] eqn:Ho; rewrite IH by done; f_equal.
    + apply map_eq. intros k. apply option_eq. intros v. rewrite !map_lookup_filter_Some, lookup_delete_Some, elem_of_cons.
      naive_solver.
    + rewrite <- app_assoc. cbn [app]. f_equal. f_equal. apply R. intros k Hk.
      apply lookup_delete_ne. by intros ->.
    + apply map_eq. intros k. apply option_eq. intros v. rewrite !map_lookup_filter_Some, elem_of_cons.
      cbn [fst]. split; [|naive_solver]. intros [Hk Hkn]. split; [done|]. intros [->|?]; [congruence|done].
    + rewrite <- app_assoc. done.
Qed.

(** ** The comparison, entry by entry *)

(** The baseline's entries that the current scan does not hold. *)
Definition gone (baseline current : scan) : list entry :=
  List.filter (fun e => negb (mem (e_id e) (ids (s_entries current)))) (s_entries baseline).

Definition roots_of (baseline current : scan) : path * path :=
  (h_root (s_header baseline), h_root (s_header current)).

(** The rows of a diff, unsorted: each of the current scan's entries, and each
    the baseline alone has. *)
Definition rows (baseline current : scan) : list diffed :=
  let tr := trust baseline current in
  ((fun e => mk_diffed e (row_delta tr (roots_of baseline current) (indexed (s_entries baseline)) (e_id e, e)))
     <$> s_entries current) ++
  ((fun e => mk_diffed e (judged tr e Delta.Removed)) <$> gone baseline current).

Lemma filter_ids_nodup (f : entry -> bool) es : NoDup (ids es) -> NoDup (ids (List.filter f es)).
Proof.
  unfold ids. induction es as [|e es IH]; simpl; [done|]. intros [He Hn]%NoDup_cons.
  destruct (f e); csimpl; [|by apply IH]. apply NoDup_cons. split; [|by apply IH].
  intros (e' & E & Hin)%list_elem_of_fmap. apply He, list_elem_of_fmap. exists e'. split; [done|].
  apply list_elem_of_In, filter_In in Hin as [Hin _]. by apply list_elem_of_In.
Qed.

Lemma elem_of_filterb {A} (f : A -> bool) x l : x ∈ List.filter f l <-> x ∈ l /\ f x = true.
Proof. by rewrite !list_elem_of_In, filter_In. Qed.

Lemma indexed_keys es : NoDup (ids es) -> forall id, id ∈ (btree_to_list (indexed es)).*1 <-> id ∈ ids es.
Proof.
  intros Hn id. rewrite btree_to_list_perm. split.
  - intros ([k v] & -> & Hk)%list_elem_of_fmap. apply elem_of_map_to_list, indexed_lookup in Hk as [Hv <-]; [|done].
    cbn. apply list_elem_of_fmap. by exists v.
  - intros (e & -> & He)%list_elem_of_fmap. apply list_elem_of_fmap. exists (e_id e, e). split; [done|].
    apply elem_of_map_to_list. by apply indexed_lookup.
Qed.

Lemma gone_values baseline current :
  NoDup (ids (s_entries baseline)) -> NoDup (ids (s_entries current)) ->
  btree_values (filter (fun kv => fst kv ∉ (btree_to_list (indexed (s_entries current))).*1)
                  (indexed (s_entries baseline))) ≡ₚ gone baseline current.
Proof.
  intros Hb Hc. transitivity (btree_values (indexed (gone baseline current)));
    [|apply indexed_values; by apply filter_ids_nodup].
  match goal with |- ?a ≡ₚ ?b => enough (a = b) as -> by done end. unfold btree_values. do 2 f_equal. apply map_eq. intros id. apply option_eq. intros e.
  rewrite map_lookup_filter_Some. cbn [fst]. rewrite indexed_keys by done.
  rewrite !indexed_lookup by (done || by apply filter_ids_nodup). unfold gone, mem.
  rewrite elem_of_filterb, negb_true_iff, bool_decide_eq_false. naive_solver.
Qed.

Lemma current_rows tr roots old es :
  NoDup (ids es) ->
  ((fun kv => mk_diffed (snd kv) (row_delta tr roots old kv)) <$> btree_to_list (indexed es)) ≡ₚ
  ((fun e => mk_diffed e (row_delta tr roots old (e_id e, e))) <$> es).
Proof.
  intros Hn. rewrite btree_to_list_perm. unfold indexed. rewrite map_to_list_to_map by (by rewrite ids_keys).
  rewrite <- list_fmap_compose. done.
Qed.

Lemma diff_Ok baseline current ds :
  diff baseline current = Ok ds ->
  comparable baseline current = Ok tt /\ NoDup (ids (s_entries baseline)) /\ NoDup (ids (s_entries current)) /\
  ds ≡ₚ rows baseline current /\ StronglySorted (key_le (entry_key ∘ d_entry)) ds.
Proof.
  unfold diff, compare. destruct (comparable baseline current) as [[]|] eqn:Hc; [|done]. cbn [mbind result_bind].
  destruct (diff_with _ _ _) as [es|] eqn:Hd; [|done]. cbn. intros [= <-]. unfold diff_with in Hd.
  case_match; [done|]. apply result_bind_Ok in Hd as (old & Hold & Hd). apply result_bind_Ok in Hd as (new & Hnew & Hd).
  apply index_Ok in Hold as [Hb ->], Hnew as [Hn ->]. cbv zeta in Hd.
  rewrite diff_fold in Hd by apply btree_keys_nodup. injection Hd as <-.
  repeat split; try done; [|apply sort_by_sorted].
  rewrite sort_by_perm. unfold rows. cbn [app]. f_equiv; [by apply current_rows|].
  apply fmap_Permutation. by apply gone_values.
Qed.

Lemma comparable_Ok baseline current :
  comparable baseline current = Ok tt <->
  h_deep (s_header baseline) = h_deep (s_header current) /\
  h_privileged (s_header baseline) = h_privileged (s_header current) /\
  h_enablement (s_header baseline) = h_enablement (s_header current) /\
  h_enrichment_failures (s_header baseline) = [] /\ h_enrichment_failures (s_header current) = [].
Proof.
  unfold comparable, enrichment_ok. repeat case_bool_decide; cbn [negb]; try naive_solver.
  destruct (h_enrichment_failures (s_header baseline)), (h_enrichment_failures (s_header current));
    cbn; naive_solver.
Qed.

Lemma diff_ends baseline current :
  comparable baseline current = Ok tt -> NoDup (ids (s_entries baseline)) -> NoDup (ids (s_entries current)) ->
  trust baseline current = ∅ \/ Forall (fun e => is_Some (e_collector e)) (s_entries baseline) ->
  is_ok (diff baseline current) = true.
Proof.
  intros Hc Hb Hn Ht. unfold diff, compare. rewrite Hc. cbn [mbind result_bind]. unfold diff_with.
  assert (negb (bool_decide (trust baseline current = ∅)) &&
    existsb (fun e => bool_decide (e_collector e = None)) (s_entries baseline) = false) as ->.
  { destruct Ht as [->|Ht]; [by rewrite bool_decide_eq_true_2|]. apply andb_false_intro2.
    apply not_true_iff_false. rewrite existsb_exists. intros (e & He & Hce).
    apply bool_decide_eq_true in Hce. rewrite Forall_forall in Ht.
    apply list_elem_of_In in He. apply Ht in He. rewrite Hce in He. by destruct He. }
  rewrite (proj2 (index_Ok baseline _ _)) by done. rewrite (proj2 (index_Ok current _ _)) by done.
  cbn [mbind result_bind]. rewrite diff_fold by apply btree_keys_nodup. done.
Qed.

Lemma changed_fields_self e root : changed_fields e e (root, root) = [].
Proof. unfold changed_fields. cbn [fst snd]. by rewrite !bool_decide_eq_true_2. Qed.

(** ** Properties *)

(** What a scan's collector of that name could see. *)
Definition sees (s : scan) (name : bytes) : Coverage.coverage := Coverage.of_status (by_name s !! name).

(** What a row of a diff claims of the two scans. *)
Definition honest (baseline current : scan) (d : diffed) : Prop :=
  let e := d_entry d in
  let trusted (f : bytes -> bool) := forall n, e_collector e = Some n -> f n = true in
  let widened n := Coverage.covers (sees current n) (sees baseline n) in
  let narrowed n := Coverage.covers (sees baseline n) (sees current n) in
  let differing before := changed_fields before e (roots_of baseline current) in
  match d_delta d with
  | Delta.Added => e ∈ s_entries current /\ e_id e ∉ ids (s_entries baseline) /\ trusted narrowed
  | Delta.Removed => e ∈ s_entries baseline /\ e_id e ∉ ids (s_entries current) /\ trusted widened
  | Delta.Changed fields => exists before, before ∈ s_entries baseline /\ e_id before = e_id e /\
      fields = differing before /\ (exists f, f ∈ fields /\ f <> #"mtime") /\
      trusted (fun n => narrowed n && widened n)
  | Delta.Unchanged => exists before, before ∈ s_entries baseline /\ e_id before = e_id e /\
      (forall f, f ∈ differing before -> f = #"mtime")
  | Delta.Uncertain _ _ _ => exists n, e_collector e = Some n /\ narrowed n && widened n = false
  end.

Lemma judged_cases baseline current e d :
  d = Delta.Added \/ d = Delta.Removed \/ (exists fs, d = Delta.Changed fs) ->
  let narrowed n := Coverage.covers (sees baseline n) (sees current n) in
  let widened n := Coverage.covers (sees current n) (sees baseline n) in
  (judged (trust baseline current) e d = d /\
    (forall n, e_collector e = Some n ->
      match d with
      | Delta.Added => narrowed n = true
      | Delta.Removed => widened n = true
      | _ => narrowed n && widened n = true
      end)) \/
  (exists w fs b n, judged (trust baseline current) e d = Delta.Uncertain w fs b /\
    e_collector e = Some n /\ narrowed n && widened n = false).
Proof.
  intros Hd narrowed widened. unfold judged. destruct (e_collector e) as [n|]; cbn [mbind option_bind];
    [|left; by split].
  rewrite trust_lookup. unfold trust_spec. fold (sees baseline n) (sees current n).
  subst narrowed widened. cbv beta.
  destruct (Coverage.covers (sees baseline n) (sees current n)) eqn:En,
    (Coverage.covers (sees current n) (sees baseline n)) eqn:Ew; cbn [andb].
  1: left; split; [done|]; intros m [= <-]; rewrite En, Ew; by destruct d.
  all: destruct Hd as [->|[->|[fs ->]]]; cbn [t_added t_removed t_because].
  all: first [left; split; [done|]; intros m [= <-]; rewrite ?En, ?Ew; done
             |right; eexists _, _, _, n; split; [done|]; split; [done|]; by rewrite En, Ew].
Qed.

Lemma rows_honest baseline current d :
  NoDup (ids (s_entries baseline)) -> d ∈ rows baseline current -> honest baseline current d.
Proof.
  intros Hb Hd. unfold rows in Hd. apply elem_of_app in Hd as [Hd|Hd].
  - apply list_elem_of_fmap in Hd as (e & -> & He). unfold row_delta. cbn [fst snd].
    destruct (indexed (s_entries baseline) !! e_id e) as [before|] eqn:Hold.
    + apply indexed_lookup in Hold as [Hin Hid]; [|done].
      case_bool_decide as Hs.
      * exists before. repeat split; try done. intros f Hf. cbn [d_entry] in Hf.
        destruct (decide (f = #"mtime")) as [->|Hne]; [done|]. exfalso.
        assert (f ∈ substantive (changed_fields before e (roots_of baseline current))) as Hx.
        { unfold substantive. rewrite elem_of_filterb. split; [done|]. by rewrite bool_decide_eq_false_2. }
        rewrite Hs in Hx. by apply elem_of_nil in Hx.
      * destruct (judged_cases baseline current e
          (Delta.Changed (changed_fields before e (roots_of baseline current))))
          as [[-> Ht]|(w & fs & b & n & -> & Hn & Hf)]; [by eauto| |by exists n].
        exists before. cbn [d_entry]. repeat split; try done.
        destruct (substantive _) as [|f fs] eqn:Ef; [done|].
        assert (f ∈ substantive (changed_fields before e (roots_of baseline current))) as Hx
          by (rewrite Ef; by left).
        unfold substantive in Hx. apply elem_of_filterb in Hx as [Hx Hy]. exists f. split; [done|].
        apply negb_true_iff, bool_decide_eq_false in Hy. done.
    + apply indexed_None in Hold.
      destruct (judged_cases baseline current e Delta.Added)
        as [[-> Ht]|(w & fs & b & n & -> & Hn & Hf)]; [by auto|by repeat split|by exists n].
  - apply list_elem_of_fmap in Hd as (e & -> & He). unfold gone, mem in He.
    apply elem_of_filterb in He as [He Hg]. apply negb_true_iff, bool_decide_eq_false in Hg.
    destruct (judged_cases baseline current e Delta.Removed)
      as [[-> Ht]|(w & fs & b & n & -> & Hn & Hf)]; [by auto|by repeat split|by exists n].
Qed.

(** C1. No row vanishes and none is made up: a diff's rows are, once each, the
    current scan's entries and those the baseline alone holds, in order of
    kind, source and name. *)
Theorem diff_accounts_for_all (baseline current : scan) (ds : list diffed) :
  diff baseline current = Ok ds ->
  (d_entry <$> ds) ≡ₚ s_entries current ++ gone baseline current /\
  NoDup (ids (d_entry <$> ds)) /\
  StronglySorted (key_le (entry_key ∘ d_entry)) ds.
Proof.
  intros (Hc & Hb & Hn & Hp & Hs)%diff_Ok.
  assert (Hr : (d_entry <$> ds) ≡ₚ s_entries current ++ gone baseline current).
  { rewrite Hp. unfold rows. rewrite fmap_app, <- !list_fmap_compose. by rewrite !list_fmap_id. }
  split; [exact Hr|]. split; [|exact Hs]. unfold ids. rewrite Hr, fmap_app. apply NoDup_app. split; [exact Hn|].
  split; [|by apply filter_ids_nodup]. intros id Hid (e & -> & He)%list_elem_of_fmap.
  unfold gone, mem in He. apply elem_of_filterb in He as [_ He]. by apply negb_true_iff, bool_decide_eq_false in He.
Qed.


(** A diff answers exactly when the scans were taken alike, no enrichment
    failed, no id is held twice in either, and either no collector's coverage
    moved or every baseline entry names its collector; otherwise it refuses. *)
Theorem diff_refuses (baseline current : scan) :
  is_ok (diff baseline current) = true <->
  (h_deep (s_header baseline) = h_deep (s_header current) /\
   h_privileged (s_header baseline) = h_privileged (s_header current) /\
   h_enablement (s_header baseline) = h_enablement (s_header current) /\
   h_enrichment_failures (s_header baseline) = [] /\ h_enrichment_failures (s_header current) = []) /\
  NoDup (ids (s_entries baseline)) /\ NoDup (ids (s_entries current)) /\
  (trust baseline current = ∅ \/ Forall (fun e => is_Some (e_collector e)) (s_entries baseline)).
Proof.
  rewrite <- comparable_Ok. split.
  - destruct (diff baseline current) as [ds|] eqn:E; [|done]. intros _.
    pose proof (diff_Ok _ _ _ E) as (Hc & Hb & Hn & _). repeat split; try done.
    unfold diff, compare, diff_with in E. rewrite Hc in E. cbn [mbind result_bind] in E.
    destruct (decide (trust baseline current = ∅)) as [?|Hne]; [by left|right].
    rewrite bool_decide_eq_false_2 in E by done. cbn [negb andb] in E.
    destruct (existsb _ _) eqn:Ex; [done|]. apply Forall_forall. intros e He.
    destruct (e_collector e) as [n|] eqn:Ec; [by eexists|]. exfalso.
    apply not_true_iff_false in Ex. apply Ex, existsb_exists. exists e. split; [by apply list_elem_of_In|].
    by apply bool_decide_eq_true.
  - intros (Hc & Hb & Hn & Ht). by apply diff_ends.
Qed.

(** A scan compared with itself, where its ids differ and its enrichment
    did not fail, is every entry once, each [Unchanged]. *)
Theorem diff_self_unchanged (s : scan) :
  h_enrichment_failures (s_header s) = [] -> NoDup (ids (s_entries s)) ->
  exists ds, diff s s = Ok ds /\ (d_entry <$> ds) ≡ₚ s_entries s /\
    Forall (fun d => d_delta d = Delta.Unchanged) ds.
Proof.
  intros Hf Hn. pose proof (diff_ends s s) as Ho. rewrite trust_self, comparable_Ok in Ho.
  specialize (Ho ltac:(done) Hn Hn ltac:(by left)). destruct (diff s s) as [ds|] eqn:E; [|done].
  exists ds. split; [done|]. apply diff_Ok in E as (_ & _ & _ & Hp & _).
  assert (Hg : gone s s = []).
  { unfold gone, mem. destruct (List.filter _ _) as [|e es] eqn:Eg; [done|]. exfalso.
    assert (e ∈ e :: es) as He by (by left). rewrite <- Eg in He. apply elem_of_filterb in He as [He Hx].
    apply negb_true_iff, bool_decide_eq_false in Hx. apply Hx. apply list_elem_of_fmap. by exists e. }
  split.
  - rewrite Hp. unfold rows. rewrite Hg. csimpl. rewrite app_nil_r, <- list_fmap_compose. by rewrite list_fmap_id.
  - rewrite Hp. unfold rows. rewrite Hg. csimpl. rewrite app_nil_r. apply Forall_fmap, Forall_forall.
    intros e He. cbn. unfold row_delta. cbn [fst snd].
    rewrite (proj2 (indexed_lookup _ _ e Hn)) by done. unfold roots_of. by rewrite changed_fields_self.
Qed.

(** Two scans to run the theorems on: [passwd] could not be read the second
    time, one job is new, one is gone. *)
Definition sample_header (collectors : list collector_status) : header :=
  mk_header #"0.3.4" SCHEMA_VERSION 0 #"host" #"6.1" #"debian" #"12" [] #"/" true false true inferred
    collectors [] None.
Definition sample_entry (id name : bytes) (collector : bytes) : entry :=
  mk_entry id Kind.Cron (Some collector) #"/etc/crontab" name (Some #"/bin/true") None None
    Enablement.Enabled Trigger.Schedule None 0 420 None Provenance.Unknown [] ∅.
Definition sample_baseline : scan :=
  mk_scan (sample_header [mk_collector_status #"cron" Status.Complete 2 []])
    [sample_entry #"01" #"kept" #"cron"; sample_entry #"02" #"gone" #"cron"].
Definition sample_current : scan :=
  mk_scan (sample_header [mk_collector_status #"cron" (Status.Partial [ #"etc/passwd"]) 2 []])
    [sample_entry #"01" #"kept" #"cron"; sample_entry #"03" #"new" #"cron"].
Definition sample_diff : list diffed := default [] (ok (diff sample_baseline sample_current)).

Lemma sample_diff_Ok : diff sample_baseline sample_current = Ok sample_diff.
Proof. vm_compute. reflexivity. Defined.

Example sample_diff_labels :
  (fun d => (e_name (d_entry d), Delta.label (d_delta d))) <$> sample_diff =
  [(#"gone", #"uncertain"); (#"kept", #"unchanged"); (#"new", #"added")].
Proof. by vm_compute. Qed.

Lemma diff_accounts_for_all_witness :
  length sample_diff = 3 /\
  (d_entry <$> sample_diff) ≡ₚ s_entries sample_current ++ gone sample_baseline sample_current.
Proof.
  split; [vm_compute; reflexivity|].
  apply (diff_accounts_for_all sample_baseline sample_current sample_diff). exact sample_diff_Ok.
Defined.


Lemma diff_self_unchanged_witness :
  exists ds, diff sample_current sample_current = Ok ds /\ (d_entry <$> ds) ≡ₚ s_entries sample_current /\
    Forall (fun d => d_delta d = Delta.Unchanged) ds.
Proof.
  apply (diff_self_unchanged sample_current).
  - reflexivity.
  - apply (bool_decide_eq_true (NoDup (ids (s_entries sample_current)))). vm_compute. reflexivity.
Defined.
