(* ===== verification/Query.v ===== *)
(** [src/query.rs]: the filter language. *)

From S2P Require Import Prelude Slices Order Num Utf8 Paths StrEnum Kinds Entry Text.

(** [str::to_lowercase] follows the Unicode tables, which the standard library
    generates: a parameter. Nothing proved here depends on what it does. *)
Class Lowercase := to_lowercase : bytes -> bytes.
Module Field.
Inductive field :=
| Kind | Flag | Enabled | Trigger | Prov | Pkg | Collector | User | Name | Src | Cmd | Id | Note.
#[global] Instance eq_dec : EqDecision field.
Proof. solve_decision. Defined.
End Field.
Export Field(field).

Definition FIELDS : list (bytes * field) :=
  [(#"kind", Field.Kind); (#"flag", Field.Flag); (#"enabled", Field.Enabled); (#"trigger", Field.Trigger);
   (#"prov", Field.Prov); (#"pkg", Field.Pkg); (#"collector", Field.Collector); (#"user", Field.User);
   (#"name", Field.Name); (#"src", Field.Src); (#"cmd", Field.Cmd); (#"id", Field.Id); (#"note", Field.Note)].

Record term := mk_term { tm_negate : bool; tm_field : option field; tm_any_of : list bytes }.
Definition query := list term.

(** ** Words *)

Definition quote_char : char := 34.
Definition is_quote (c : char) : bool := bool_decide (c = quote_char).

Record word_state := WordState { ws_out : list (list char); ws_cur : list char; ws_quoted : bool }.

Definition flush (out : list (list char)) (cur : list char) : list (list char) :=
  if bool_decide (cur = []) then out else out ++ [cur].

Definition word_step (st : word_state) (c : char) : word_state :=
  if is_quote c then WordState (ws_out st) (ws_cur st ++ [c]) (negb (ws_quoted st))
  else if is_whitespace c && negb (ws_quoted st) then WordState (flush (ws_out st) (ws_cur st)) [] (ws_quoted st)
  else WordState (ws_out st) (ws_cur st ++ [c]) (ws_quoted st).

Definition word_chars (cs : list char) : list (list char) :=
  let st := foldl word_step (WordState [] [] false) cs in
  flush (ws_out st) (ws_cur st).

Definition words (text : bytes) : list bytes := utf8_encode <$> word_chars (chars text).

(** ** Terms *)

Module Query.
Definition unquote (value : bytes) : bytes :=
  utf8_encode (List.filter (fun c => negb (is_quote c)) (chars value)).

Section parse.
Context `{Lowercase}.

Definition find_field (name : bytes) : option field :=
  snd <$> List.find (fun p => bool_decide (fst p = to_ascii_lowercase name)) FIELDS.

Definition parse_term (word : bytes) : option term :=
  let '(negate, rest) :=
    match strip_prefix #"-" word with
    | Some r => if bool_decide (r = []) then (false, word) else (true, r)
    | None => (false, word)
    end in
  let '(fld, value) :=
    match split_once #":" rest with
    | Some (name, value) =>
        match find_field name with Some f => (Some f, value) | None => (None, rest) end
    | None => (None, rest)
    end in
  let value := to_lowercase (unquote value) in
  if bool_decide (value = []) then None
  else
    let any_of :=
      match fld with
      | Some _ => List.filter (fun v => negb (bool_decide (v = []))) (split_on (is_byte "|"%byte) value)
      | None => [value]
      end in
    if bool_decide (any_of = []) then None else Some (mk_term negate fld any_of).

Definition parse (text : bytes) : query := omap parse_term (words text).
Definition is_empty (q : query) : bool := bool_decide (q = []).

(** ** Matching *)

Definition provenance_words (p : provenance) : list bytes :=
  match p with
  | Provenance.Packaged _ _ Integrity.Intact => [ #"packaged"; #"intact"]
  | Provenance.Packaged _ _ _ => [ #"packaged"; #"modified"]
  | Provenance.GeneratedBy _ => [ #"generated"]
  | Provenance.Reproduced _ => [ #"reproduced"]
  | Provenance.Unpackaged => [ #"unpackaged"]
  | Provenance.Unknown => [ #"unknown"]
  end.

Definition lower (b : bytes) : bytes := to_lowercase (from_utf8_lossy b).

(** [Option::is_some_and]. *)
Definition is_some_and {A} (f : A -> bool) (o : option A) : bool :=
  match o with Some a => f a | None => false end.

Definition holds (fld : option field) (v : bytes) (e : entry) : bool :=
  let has s := contains_sub v (to_lowercase s) in
  let command := default [] (lower <$> e_command e) in
  let package := match e_provenance e with
                 | Provenance.Packaged package _ _ => to_lowercase package
                 | _ => []
                 end in
  match fld with
  | Some Field.Kind => starts_with v (Kind.as_str (e_kind e))
  | Some Field.Flag =>
      if bool_decide (v = #"none") then bool_decide (e_flags e = [])
      else existsb (fun f => starts_with v (Flag.as_str f)) (e_flags e)
  | Some Field.Enabled => starts_with v (Enablement.as_str (e_enabled e))
  | Some Field.Trigger => starts_with v (Trigger.as_str (e_trigger e))
  | Some Field.Prov => mem v (provenance_words (e_provenance e))
  | Some Field.Pkg => contains_sub v package
  | Some Field.Collector => is_some_and has (e_collector e)
  | Some Field.User => is_some_and has (e_principal e)
  | Some Field.Name => has (e_name e)
  | Some Field.Src => has (from_utf8_lossy (e_source e))
  | Some Field.Cmd => contains_sub v command
  | Some Field.Id => starts_with v (e_id e)
  | Some Field.Note => existsb (fun kv => has (fst kv ++ #"=" ++ snd kv)) (btree_to_list (e_raw e))
  | None =>
      has (e_name e) || has (from_utf8_lossy (e_source e)) || starts_with v (e_id e)
      || contains_sub v (Kind.as_str (e_kind e)) || contains_sub v command
      || is_some_and (fun p => has (from_utf8_lossy p)) (e_target_path e)
      || is_some_and has (e_principal e) || contains_sub v package
      || existsb (fun kv => has (fst kv) || has (snd kv)) (btree_to_list (e_raw e))
  end.

Definition term_holds (t : term) (e : entry) : bool :=
  negb (bool_decide (existsb (fun v => holds (tm_field t) v e) (tm_any_of t) = tm_negate t)).
Definition matches (q : query) (e : entry) : bool := forallb (fun t => term_holds t e) q.
End parse.

(** ** Editing a query *)

Definition choices (word fld : bytes) : option (list bytes) :=
  '(name, value) ← split_once #":" word;
  if eq_ignore_ascii_case name fld && negb (starts_with #"-" word)
  then Some (split_on (is_byte "|"%byte) (unquote value))
  else None.

Definition has_choice (q fld value : bytes) : bool :=
  existsb (fun w => is_some_and (fun c => existsb (fun x => bool_decide (x = value)) c) (choices w fld)) (words q).

Definition names_field (fld w : bytes) : bool :=
  let w := default w (strip_prefix #"-" w) in
  is_some_and (fun p => eq_ignore_ascii_case (fst p) fld) (split_once #":" w).

Definition without_field (q fld : bytes) : bytes :=
  join #" " (List.filter (fun w => negb (names_field fld w)) (words q)).

(** [Vec::remove]. *)
Definition remove_at {A} (i : nat) (l : list A) : list A := take i l ++ drop (S i) l.

Definition toggle_step (fld value : bytes) (st : list bytes * bool) (w : bytes) : list bytes * bool :=
  let '(out, found) := st in
  match choices w fld, found with
  | Some c, false =>
      let c := match position (fun x => bool_decide (x = value)) c with
               | Some at_ => remove_at at_ c
               | None => c ++ [value]
               end in
      ((if bool_decide (c = []) then out else out ++ [fld ++ #":" ++ join #"|" c]), true)
  | _, _ => (out ++ [w], found)
  end.

Definition toggle_choice (q fld value : bytes) : bytes :=
  let '(out, found) := foldl (toggle_step fld value) ([], false) (words q) in
  join #" " (if found then out else out ++ [fld ++ #":" ++ value]).
End Query.

(** ** Words, joined and read again *)

(** Whether a run of characters opens or closes quotes, and [None] where it
    holds a blank outside them. *)
Fixpoint scan_word (q : bool) (w : list char) : option bool :=
  match w with
  | [] => Some q
  | c :: w' =>
      if is_quote c then scan_word (negb q) w'
      else if is_whitespace c && negb q then None
      else scan_word q w'
  end.
Definition word_ok (w : list char) : Prop := w <> [] /\ scan_word false w = Some false.
Definition last_word_ok (w : list char) : Prop := w <> [] /\ is_Some (scan_word false w).
Definition quoted_after (q : bool) (cs : list char) : bool :=
  foldl (fun q c => if is_quote c then negb q else q) q cs.

Lemma flush_app o1 o2 cur : flush (o1 ++ o2) cur = o1 ++ flush o2 cur.
Proof. unfold flush. case_bool_decide; [done|]. by rewrite app_assoc. Qed.

Lemma word_fold_out out cur q cs :
  foldl word_step (WordState out cur q) cs =
  WordState (out ++ ws_out (foldl word_step (WordState [] cur q) cs))
    (ws_cur (foldl word_step (WordState [] cur q) cs)) (ws_quoted (foldl word_step (WordState [] cur q) cs)).
Proof.
  revert out cur q. induction cs as [|c cs IH]; intros out cur q; cbn [foldl].
  - cbn. by rewrite app_nil_r.
  - unfold word_step at 2 4 6 8. cbn [ws_out ws_cur ws_quoted].
    destruct (is_quote c); [apply IH|]. destruct (is_whitespace c && negb q); [|apply IH].
    rewrite IH. rewrite (IH (flush [] cur)). cbn [ws_out ws_cur ws_quoted]. f_equal.
    rewrite <- (app_nil_r out) at 1. by rewrite flush_app, app_assoc.
Qed.

Lemma word_fold_quoted out cur q cs :
  ws_quoted (foldl word_step (WordState out cur q) cs) = quoted_after q cs.
Proof.
  revert out cur q. induction cs as [|c cs IH]; intros out cur q; cbn [foldl quoted_after]; [done|].
  unfold word_step at 2. cbn [ws_out ws_cur ws_quoted]. unfold quoted_after. cbn [foldl].
  destruct (is_quote c); [apply IH|]. case_match; apply IH.
Qed.

Lemma scan_word_fold q w q' out cur :
  scan_word q w = Some q' -> foldl word_step (WordState out cur q) w = WordState out (cur ++ w) q'.
Proof.
  revert q cur. induction w as [|c w IH]; intros q cur; cbn [scan_word foldl].
  - intros [= ->]. by rewrite app_nil_r.
  - unfold word_step at 2. cbn [ws_out ws_cur ws_quoted].
    destruct (is_quote c); [|destruct (is_whitespace c && negb q); [done|]];
      intros H; rewrite (IH _ (cur ++ [c])) by exact H; by rewrite <- app_assoc.
Qed.

Lemma word_chars_one w : last_word_ok w -> word_chars w = [w].
Proof.
  intros [Hne [q Hq]]. unfold word_chars. rewrite (scan_word_fold _ _ _ _ _ Hq). cbn.
  unfold flush. by rewrite bool_decide_eq_false_2.
Qed.

(** A blank outside quotes separates. *)
Lemma word_chars_split a c b :
  quoted_after false a = false -> is_quote c = false -> is_whitespace c = true ->
  word_chars (a ++ c :: b) = word_chars a ++ word_chars b.
Proof.
  intros Ha Hc Hw. unfold word_chars. rewrite foldl_app. cbn [foldl].
  destruct (foldl word_step (WordState [] [] false) a) as [out cur q] eqn:E.
  assert (q = false) as ->.
  { pose proof (word_fold_quoted [] [] false a) as Q. rewrite E in Q. cbn in Q. congruence. }
  unfold word_step at 2 4. cbn [ws_out ws_cur ws_quoted]. rewrite Hc, Hw. cbn [negb andb].
  rewrite word_fold_out. cbn [ws_out ws_cur]. by rewrite flush_app.
Qed.

Lemma scan_word_quoted q w q' : scan_word q w = Some q' -> quoted_after q w = q'.
Proof.
  revert q. induction w as [|c w IH]; intros q; cbn [scan_word]; [by intros [= ->]|].
  unfold quoted_after. cbn [foldl]. destruct (is_quote c); [apply IH|].
  destruct (is_whitespace c && negb q); [done|apply IH].
Qed.

(** What [words] makes: words, all of them closed but perhaps the last. *)
Inductive words_ok : list (list char) -> Prop :=
| words_nil : words_ok []
| words_last w : last_word_ok w -> words_ok [w]
| words_cons w ws : word_ok w -> words_ok ws -> words_ok (w :: ws).

Lemma words_ok_snoc ws w : Forall word_ok ws -> last_word_ok w -> words_ok (ws ++ [w]).
Proof. induction 1; simpl; intros; [by constructor|]. constructor; auto. Qed.

Lemma words_ok_all ws : Forall word_ok ws -> words_ok ws.
Proof. induction 1; by constructor. Qed.

Lemma scan_word_app q a b : scan_word q (a ++ b) = scan_word q a ≫= fun q' => scan_word q' b.
Proof.
  revert q. induction a as [|c a IH]; intros q; simpl; [done|].
  destruct (is_quote c); [apply IH|]. destruct (is_whitespace c && negb q); [done|apply IH].
Qed.

Lemma word_fold_ok cs out cur q :
  Forall word_ok out -> scan_word false cur = Some q ->
  let st := foldl word_step (WordState out cur q) cs in
  Forall word_ok (ws_out st) /\ scan_word false (ws_cur st) = Some (ws_quoted st).
Proof.
  revert out cur q. induction cs as [|c cs IH]; intros out cur q Ho Hc; cbn [foldl]; [done|].
  unfold word_step at 2 4 6. cbn [ws_out ws_cur ws_quoted].
  destruct (is_quote c) eqn:Eq; [|destruct (is_whitespace c && negb q) eqn:Ew]; apply IH; try done.
  - rewrite scan_word_app, Hc. cbn. by rewrite Eq.
  - unfold flush. case_bool_decide; [done|]. apply Forall_app. split; [done|]. constructor; [|constructor].
    split; [done|]. apply andb_true_iff in Ew as [_ Hq]. by destruct q.
  - apply andb_true_iff in Ew as [_ Hq]. by destruct q.
  - rewrite scan_word_app, Hc. cbn. by rewrite Eq, Ew.
Qed.

Lemma word_chars_ok cs : words_ok (word_chars cs).
Proof.
  unfold word_chars. destruct (word_fold_ok cs [] [] false) as [Ho Hc]; [constructor|done|].
  unfold flush. case_bool_decide; [by apply words_ok_all|]. apply words_ok_snoc; [done|]. split; [done|by eexists].
Qed.

Lemma word_chars_closed cs : quoted_after false cs = false -> Forall word_ok (word_chars cs).
Proof.
  intros Hq. unfold word_chars. destruct (word_fold_ok cs [] [] false) as [Ho Hc]; [constructor|done|].
  rewrite word_fold_quoted, Hq in Hc. unfold flush. case_bool_decide; [done|].
  apply Forall_app. split; [done|]. by repeat constructor.
Qed.

Definition blank_char : char := 32.

Lemma word_chars_join ws : words_ok ws -> word_chars (join [blank_char] ws) = ws.
Proof.
  induction 1 as [|w Hw|w ws [Hne Hw] Hws IH]; [done|by apply word_chars_one|].
  destruct ws as [|v ws]; [apply word_chars_one; split; [done|by eexists]|].
  change (join [blank_char] (w :: v :: ws)) with (w ++ blank_char :: join [blank_char] (v :: ws)).
  rewrite word_chars_split by (done || by apply scan_word_quoted). rewrite IH.
  rewrite word_chars_one; [done|]. split; [done|by eexists].
Qed.

Lemma words_ok_filter {A} (g : A -> list char) (f : A -> bool) l :
  words_ok (g <$> l) -> words_ok (g <$> List.filter f l).
Proof.
  intros H. remember (g <$> l) as ws eqn:E. revert l E. induction H as [|w Hw|w ws Hw Hws IH]; intros l E.
  - destruct l; [constructor|done].
  - destruct l as [|x [|y l]]; simplify_eq/=. destruct (f x); by constructor.
  - destruct l as [|x l]; simplify_eq/=. destruct (f x); csimpl; [constructor; auto|auto].
Qed.

(** ** The same, of byte strings *)

Lemma words_join bs :
  Forall (fun b => is_utf8 b = true) bs -> words_ok (chars <$> bs) -> words (join #" " bs) = bs.
Proof.
  intros Hu Hok. unfold words.
  assert (chars (join #" " bs) = join [blank_char] (chars <$> bs)) as ->.
  { clear Hok. induction Hu as [|b [|c bs] Hb Hu IH]; [done|done|].
    change (join #" " (b :: c :: bs)) with (b ++ #" " ++ join #" " (c :: bs)).
    rewrite chars_app by done. rewrite (chars_app #" ") by done. by rewrite IH. }
  rewrite word_chars_join by done. rewrite <- list_fmap_compose.
  rewrite <- (list_fmap_id bs) at 2. apply list_fmap_ext. intros i b Hb. cbn. apply encode_chars.
  rewrite Forall_lookup in Hu. by eapply Hu.
Qed.

Lemma word_chars_elem cs w c : w ∈ word_chars cs -> c ∈ w -> c ∈ cs.
Proof.
  assert (G : forall cs out cur q, let st := foldl word_step (WordState out cur q) cs in
    forall w c, w ∈ flush (ws_out st) (ws_cur st) -> c ∈ w ->
      (exists v, v ∈ out /\ c ∈ v) \/ c ∈ cur \/ c ∈ cs).
  { clear. induction cs as [|d cs IH]; intros out cur q st w c; subst st; cbn [foldl].
    - cbn. unfold flush. case_bool_decide; [eauto|]. rewrite elem_of_app, list_elem_of_singleton. naive_solver.
    - unfold word_step at 2 4. cbn [ws_out ws_cur ws_quoted]. rewrite elem_of_cons. intros Hw Hc.
      destruct (is_quote d); [|destruct (is_whitespace d && negb q)].
      1, 3: destruct (IH _ _ _ _ _ Hw Hc) as [?|[Hx|?]]; [by auto| |by auto];
        rewrite elem_of_app, list_elem_of_singleton in Hx; naive_solver.
      destruct (IH _ _ _ _ _ Hw Hc) as [(v & Hv & ?)|[Hx|?]]; [|by apply elem_of_nil in Hx|by auto].
      unfold flush in Hv. case_bool_decide; [by eauto|].
      apply elem_of_app in Hv as [?|Hv]; [by eauto|]. apply list_elem_of_singleton in Hv as ->. by auto. }
  intros Hw Hc. destruct (G cs [] [] false w c Hw Hc) as [(v & Hv & _)|[Hx|?]]; [..|done].
  - by apply elem_of_nil in Hv.
  - by apply elem_of_nil in Hx.
Qed.

Lemma word_chars_scalar cs :
  Forall (fun c => is_scalar c = true) cs -> Forall (Forall (fun c => is_scalar c = true)) (word_chars cs).
Proof.
  rewrite !Forall_forall. intros H w Hw. apply Forall_forall. intros c Hc. apply H. by eapply word_chars_elem.
Qed.

Lemma words_chars q : chars <$> words q = word_chars (chars q).
Proof.
  unfold words. rewrite <- list_fmap_compose. rewrite <- (list_fmap_id (word_chars _)) at 2.
  apply list_fmap_ext. intros i w Hw. cbn. apply chars_encode.
  pose proof (word_chars_scalar (chars q) (chars_scalar q)) as H. rewrite Forall_lookup in H. by eapply H.
Qed.

Lemma words_good q : Forall (fun b => is_utf8 b = true) (words q) /\ words_ok (chars <$> words q).
Proof.
  split; [|rewrite words_chars; apply word_chars_ok]. unfold words. apply Forall_fmap.
  eapply Forall_impl; [apply word_chars_scalar, chars_scalar|]. intros w Hw. by apply is_utf8_encode.
Qed.

(** Quotes that are opened are closed. *)
Definition balanced (q : bytes) : Prop := quoted_after false (chars q) = false.

Lemma words_split a b :
  is_utf8 a = true -> balanced a -> words (a ++ #" " ++ b) = words a ++ words b.
Proof.
  intros Ha Hb. unfold words. rewrite chars_app by done. rewrite (chars_app #" ") by done.
  change (chars #" ") with [blank_char]. cbn [app]. rewrite word_chars_split by done. apply fmap_app.
Qed.

Lemma words_closed q : balanced q -> Forall word_ok (chars <$> words q).
Proof. intros H. rewrite words_chars. by apply word_chars_closed. Qed.

Lemma words_without_field q fld :
  words (Query.without_field q fld) = List.filter (fun w => negb (Query.names_field fld w)) (words q).
Proof.
  unfold Query.without_field. destruct (words_good q) as [Hu Hok]. apply words_join.
  - rewrite Forall_forall in *. intros b Hb. apply Hu.
    apply list_elem_of_In, filter_In in Hb as [Hb _]. by apply list_elem_of_In.
  - by apply words_ok_filter.
Qed.

(** ** A picker's word *)

Definition token_byte (b : byte) : bool :=
  is_ascii_alphanumeric b || bool_decide (b = "-"%byte) || bool_decide (b = "_"%byte).
Definition token (s : bytes) : Prop := s <> [] /\ forallb token_byte s = true.
Definition field_name (s : bytes) : Prop := s <> [] /\ forallb is_ascii_lower s = true.
Definition picker_byte (b : byte) : bool :=
  token_byte b || bool_decide (b = ":"%byte) || bool_decide (b = "|"%byte).

Definition word_of (fld : bytes) (c : list bytes) : bytes := fld ++ #":" ++ join #"|" c.
Definition pick (fld : bytes) (c : list bytes) : list bytes :=
  if bool_decide (c = []) then [] else [word_of fld c].

Lemma picker_byte_plain b :
  picker_byte b = true ->
  is_ascii b = true /\ is_quote (Byte.to_N b) = false /\ is_whitespace (Byte.to_N b) = false.
Proof.
  intros Hb. pose proof (byte_forall (fun b => negb (picker_byte b) ||
    (is_ascii b && negb (is_quote (Byte.to_N b)) && negb (is_whitespace (Byte.to_N b)))) ltac:(by vm_compute) b) as H.
  cbv beta in H. rewrite Hb in H. cbn [negb orb] in H. rewrite !andb_true_iff, !negb_true_iff in H. tauto.
Qed.

Lemma lower_token b : is_ascii_lower b = true -> token_byte b = true /\ b <> ":"%byte.
Proof.
  intros Hb. pose proof (byte_forall (fun b => negb (is_ascii_lower b) ||
    (token_byte b && negb (bool_decide (b = ":"%byte)))) ltac:(by vm_compute) b) as H.
  cbv beta in H. rewrite Hb in H. cbn [negb orb] in H. rewrite andb_true_iff, negb_true_iff, bool_decide_eq_false in H.
  done.
Qed.

Lemma forallb_impl {A} (f g : A -> bool) l :
  (forall x, f x = true -> g x = true) -> forallb f l = true -> forallb g l = true.
Proof. intros H. rewrite !forallb_forall. auto. Qed.

Lemma forallb_app_intro {A} (f : A -> bool) l m :
  forallb f l = true -> forallb f m = true -> forallb f (l ++ m) = true.
Proof. intros. rewrite forallb_app. by apply andb_true_iff. Qed.

Lemma join_tokens_plain c : Forall token c -> forallb picker_byte (join #"|" c) = true.
Proof.
  induction 1 as [|s c [_ Hs] Hc IH]; [done|].
  assert (forallb picker_byte s = true).
  { eapply forallb_impl; [|exact Hs]. intros b Hb. unfold picker_byte. by rewrite Hb. }
  destruct c as [|t c]; [done|]. change (join #"|" (s :: t :: c)) with (s ++ #"|" ++ join #"|" (t :: c)).
  apply forallb_app_intro; [done|]. by apply forallb_app_intro.
Qed.

Lemma word_of_plain fld c : field_name fld -> Forall token c -> forallb picker_byte (word_of fld c) = true.
Proof.
  intros [_ Hf] Hc. unfold word_of. apply forallb_app_intro.
  - eapply forallb_impl; [|exact Hf]. intros b [Hb _]%lower_token. unfold picker_byte. by rewrite Hb.
  - apply forallb_app_intro; [done|]. by apply join_tokens_plain.
Qed.

Lemma plain_scan w q : forallb picker_byte w = true -> scan_word q (Byte.to_N <$> w) = Some q.
Proof.
  induction w as [|b w IH]; [done|]. cbn [forallb]. intros [Hb Hw]%andb_true_iff. csimpl. cbn [scan_word].
  apply picker_byte_plain in Hb as (_ & -> & ->). by apply IH.
Qed.

Lemma plain_ascii w : forallb picker_byte w = true -> forallb is_ascii w = true.
Proof. apply forallb_impl. intros b Hb. by apply picker_byte_plain. Qed.

Lemma plain_word w : w <> [] -> forallb picker_byte w = true -> is_utf8 w = true /\ word_ok (chars w).
Proof.
  intros Hne Hw. split; [by apply is_utf8_ascii, plain_ascii|].
  rewrite chars_ascii by (by apply plain_ascii). split; [by destruct w|by apply plain_scan].
Qed.

Lemma unquote_plain w : forallb picker_byte w = true -> Query.unquote w = w.
Proof.
  intros Hw. unfold Query.unquote.
  assert (List.filter (fun c => negb (is_quote c)) (chars w) = chars w) as ->.
  { rewrite chars_ascii by (by apply plain_ascii). induction w as [|b w IH]; [done|]. cbn [forallb] in Hw.
    apply andb_true_iff in Hw as [Hb Hw]. csimpl. cbn [List.filter].
    apply picker_byte_plain in Hb as (_ & -> & _). cbn. f_equal. by apply IH. }
  by apply encode_chars, is_utf8_ascii, plain_ascii.
Qed.

Lemma eq_ignore_ascii_case_refl s : eq_ignore_ascii_case s s = true.
Proof. by apply bool_decide_eq_true. Qed.

Lemma choices_word_of fld c :
  field_name fld -> Forall token c -> c <> [] -> Query.choices (word_of fld c) fld = Some c.
Proof.
  intros [Hne Hf] Hc Hc0. unfold Query.choices, word_of.
  assert (Hcolon : ":"%byte ∉ fld).
  { intros Hin. apply list_elem_of_In in Hin. eapply forallb_forall in Hf; [|exact Hin]. done. }
  change (split_once #":" (fld ++ #":" ++ join #"|" c)) with
    (split_once [(":"%byte)] (fld ++ ":"%byte :: join #"|" c)).
  rewrite (proj2 (split_once_one ":"%byte _ fld (join #"|" c)) (conj eq_refl Hcolon)). cbn [mbind option_bind].
  rewrite eq_ignore_ascii_case_refl.
  assert (starts_with #"-" (fld ++ #":" ++ join #"|" c) = false) as ->.
  { destruct fld as [|b fld]; [done|]. cbn [forallb] in Hf. apply andb_true_iff in Hf as [Hb _].
    unfold starts_with. cbn. rewrite decide_False; [done|]. by intros <-. }
  cbn [negb andb]. rewrite unquote_plain by (by apply join_tokens_plain). f_equal.
  apply (split_on_join "|"%byte); [done|done|]. eapply Forall_impl; [exact Hc|]. intros s [_ Hs].
  apply Forall_forall. intros x Hx. apply list_elem_of_In in Hx. eapply forallb_forall in Hs; [|exact Hx].
  apply bool_decide_eq_false. by intros ->.
Qed.

(** A query a picker for [fld] edits: it holds at most one [fld:] word, of
    which the chosen tokens are [c], and no quote is left open. *)
Definition picks (fld q : bytes) (c : list bytes) : Prop :=
  exists pre post, words q = pre ++ pick fld c ++ post /\
    Forall (fun w => Query.choices w fld = None) (pre ++ post) /\
    NoDup c /\ Forall token c /\ balanced q.

Lemma closed_balanced bs :
  Forall (fun b => is_utf8 b = true) bs -> Forall word_ok (chars <$> bs) -> balanced (join #" " bs).
Proof.
  unfold balanced. intros Hu Hok. induction Hu as [|b [|d bs] Hb Hu IH]; [done|..].
  - csimpl. apply Forall_cons in Hok as [[_ Hw] _]. by apply scan_word_quoted.
  - csimpl in Hok. apply Forall_cons in Hok as [[_ Hw] Hok]. specialize (IH Hok).
    change (join #" " (b :: d :: bs)) with (b ++ #" " ++ join #" " (d :: bs)).
    rewrite chars_app by done. rewrite (chars_app #" ") by done. change (chars #" ") with [blank_char].
    unfold quoted_after in *. rewrite foldl_app.
    pose proof (scan_word_quoted _ _ _ Hw) as Hq. unfold quoted_after in Hq. rewrite Hq. exact IH.
Qed.

Lemma pick_words fld c :
  field_name fld -> Forall token c ->
  Forall (fun b => is_utf8 b = true) (pick fld c) /\ Forall word_ok (chars <$> pick fld c).
Proof.
  intros Hf Hc. unfold pick. case_bool_decide; [by split; constructor|].
  destruct (plain_word (word_of fld c)) as [? ?].
  - destruct Hf as [Hf _]. unfold word_of. by destruct fld.
  - by apply word_of_plain.
  - split; csimpl; by apply Forall_singleton.
Qed.

(** A query made of words the picker left alone and its own word. *)
Lemma picks_join fld pre c post :
  field_name fld -> NoDup c -> Forall token c ->
  Forall (fun b => is_utf8 b = true) (pre ++ post) -> Forall word_ok (chars <$> (pre ++ post)) ->
  Forall (fun w => Query.choices w fld = None) (pre ++ post) ->
  picks fld (join #" " (pre ++ pick fld c ++ post)) c.
Proof.
  intros Hf Hn Hc Hu Hok Hno. destruct (pick_words fld c Hf Hc) as [Hpu Hpo].
  rewrite fmap_app in Hok. apply Forall_app in Hu as [Hu1 Hu2], Hok as [Ho1 Ho2].
  assert (Hu : Forall (fun b => is_utf8 b = true) (pre ++ pick fld c ++ post)) by (by rewrite !Forall_app).
  assert (Ho : Forall word_ok (chars <$> (pre ++ pick fld c ++ post))) by (by rewrite !fmap_app, !Forall_app).
  exists pre, post. split; [apply words_join; [done|by apply words_ok_all]|].
  repeat split; try done. by apply closed_balanced.
Qed.

Lemma toggle_fold_none fld v l out found :
  Forall (fun w => Query.choices w fld = None) l ->
  foldl (Query.toggle_step fld v) (out, found) l = (out ++ l, found).
Proof.
  intros H. revert out. induction H as [|w l Hw Hl IH]; intros out; cbn [foldl]; [by rewrite app_nil_r|].
  unfold Query.toggle_step at 2. rewrite Hw. rewrite IH. by rewrite <- app_assoc.
Qed.

(** What a toggle makes of the chosen tokens. *)
Definition toggled (v : bytes) (c : list bytes) : list bytes :=
  match position (fun x => bool_decide (x = v)) c with
  | Some at_ => Query.remove_at at_ c
  | None => c ++ [v]
  end.

Lemma toggled_spec v c :
  NoDup c -> Forall token c -> token v ->
  NoDup (toggled v c) /\ Forall token (toggled v c) /\
  (forall x, x ∈ toggled v c <-> (if bool_decide (x = v) then v ∉ c else x ∈ c)).
Proof.
  intros Hn Hc Hv. unfold toggled. destruct (position _ c) as [i|] eqn:E.
  - apply position_Some in E as (_ & _ & y & Hy & Heq). apply bool_decide_eq_true in Heq as ->.
    pose proof (take_drop_middle c i v Hy) as Hsplit. unfold Query.remove_at.
    rewrite <- Hsplit in Hn, Hc. apply NoDup_app in Hn as (Hn1 & Hd & Hn2).
    apply NoDup_cons in Hn2 as [Hv2 Hn2]. apply Forall_app in Hc as [Hc1 [_ Hc2]%Forall_cons].
    split; [|split; [by apply Forall_app|]].
    + apply NoDup_app. split; [done|]. split; [|done]. intros x Hx Hx2. eapply Hd; [exact Hx|]. by right.
    + assert (Hin : forall y, y ∈ c <-> y ∈ take i c \/ y = v \/ y ∈ drop (S i) c).
      { intros y. rewrite <- elem_of_cons, <- elem_of_app. by rewrite Hsplit. }
      intros x. rewrite elem_of_app. case_bool_decide as Hx; [subst x|]; rewrite Hin; [|naive_solver].
      split; [|intros H; destruct H; auto]. intros [H|H]; [|done]. exfalso. eapply Hd; [exact H|by left].
  - apply position_None in E. assert (Hvc : v ∉ c).
    { intros Hin. rewrite Forall_forall in E. apply E, bool_decide_eq_false in Hin. done. }
    split; [|split; [apply Forall_app; split; [done|by apply Forall_singleton]|]].
    + apply NoDup_app. split; [done|]. split; [|apply NoDup_singleton].
      by intros x Hx ->%list_elem_of_singleton.
    + intros x. rewrite elem_of_app, list_elem_of_singleton. case_bool_decide; naive_solver.
Qed.

Lemma toggle_picks fld q c v :
  field_name fld -> token v -> picks fld q c -> picks fld (Query.toggle_choice q fld v) (toggled v c).
Proof.
  intros Hf Hv (pre & post & Hw & Hno & Hn & Hc & Hb).
  destruct (toggled_spec v c Hn Hc Hv) as (Hn' & Hc' & _).
  destruct (words_good q) as [Hu _]. pose proof (words_closed q Hb) as Ho.
  rewrite Hw in Hu, Ho. rewrite !fmap_app in Ho. rewrite !Forall_app in Hu. rewrite !Forall_app in Ho.
  destruct Hu as (Hu1 & _ & Hu2), Ho as (Ho1 & _ & Ho2). apply Forall_app in Hno as [Hno1 Hno2].
  unfold Query.toggle_choice. rewrite Hw, foldl_app, toggle_fold_none by done. cbn [app].
  unfold pick. case_bool_decide as Hcn.
  - subst c. cbn [app]. rewrite toggle_fold_none by done. rewrite <- app_assoc.
    rewrite <- (app_nil_r [_]). change [fld ++ #":" ++ v] with (pick fld (toggled v [])). rewrite app_assoc.
    apply picks_join; rewrite ?app_nil_r; try done; rewrite ?fmap_app; by apply Forall_app.
  - cbn [app foldl]. unfold Query.toggle_step at 2. rewrite choices_word_of by done. fold (toggled v c).
    assert ((if bool_decide (toggled v c = []) then pre else pre ++ [fld ++ #":" ++ join #"|" (toggled v c)]) =
            pre ++ pick fld (toggled v c)) as ->.
    { unfold pick. case_bool_decide; [by rewrite app_nil_r|done]. }
    rewrite toggle_fold_none by done. rewrite <- app_assoc.
    apply picks_join; try done; rewrite ?fmap_app; by apply Forall_app.
Qed.

Lemma has_choice_picks fld q c x :
  field_name fld -> picks fld q c -> Query.has_choice q fld x = bool_decide (x ∈ c).
Proof.
  intros Hf (pre & post & Hw & Hno & Hn & Hc & _). unfold Query.has_choice. rewrite Hw, !existsb_app.
  apply Forall_app in Hno as [Hno1 Hno2].
  assert (none : forall l, Forall (fun w => Query.choices w fld = None) l ->
    existsb (fun w => Query.is_some_and (fun c => existsb (fun y => bool_decide (y = x)) c) (Query.choices w fld)) l = false).
  { induction 1 as [|w l Hl _ IH]; [done|]. cbn. by rewrite Hl. }
  rewrite (none pre), (none post) by done. rewrite orb_false_l, orb_false_r. unfold pick. case_bool_decide as Hcn; [by subst c|].
  cbn [existsb]. rewrite choices_word_of by done. cbn [Query.is_some_and]. rewrite orb_false_r. apply Bool.eq_iff_eq_true.
  rewrite existsb_exists, bool_decide_eq_true. split.
  - intros (y & Hy & ->%bool_decide_eq_true). by apply list_elem_of_In.
  - intros Hx. exists x. split; [by apply list_elem_of_In|]. by apply bool_decide_eq_true.
Qed.

(** ** Properties *)

Section properties.
Context `{Lowercase}.

Lemma parse_split a b :
  is_utf8 a = true -> balanced a -> Query.parse (a ++ #" " ++ b) = Query.parse a ++ Query.parse b.
Proof. intros Ha Hb. unfold Query.parse. by rewrite words_split, omap_app. Qed.

Lemma parse_term_negate w :
  w <> [] -> starts_with #"-" w = false ->
  Query.parse_term (#"-" ++ w) =
  (fun t => mk_term true (tm_field t) (tm_any_of t)) <$> Query.parse_term w /\
  (forall t, Query.parse_term w = Some t -> tm_negate t = false).
Proof.
  intros Hne Hs. unfold Query.parse_term. rewrite strip_prefix_app, (bool_decide_eq_false_2 (w = [])) by done.
  unfold starts_with in Hs. destruct (strip_prefix #"-" w) eqn:E; [done|].
  destruct (split_once #":" w) as [[name value]|]; [destruct (Query.find_field name)|]; cbv beta iota;
    (split; [repeat (case_bool_decide; [done|]); done|]);
    intros t; repeat (case_bool_decide; [done|]); by intros [= <-].
Qed.

(** A query is its words taken together: an entry matches two queries
    joined by a blank exactly when it matches both, provided the first closes
    the quotes it opens. *)
Theorem query_conjunction (a b : bytes) (e : entry) :
  is_utf8 a = true -> balanced a ->
  Query.matches (Query.parse (a ++ #" " ++ b)) e =
  Query.matches (Query.parse a) e && Query.matches (Query.parse b) e.
Proof. intros Ha Hb. rewrite parse_split by done. apply forallb_app. Qed.

(** A word with [-] in front is the same word negated: it parses exactly
    when the word does, and of every entry just one of the two holds. *)
Theorem query_negation (w : bytes) (e : entry) :
  w <> [] -> starts_with #"-" w = false ->
  match Query.parse_term w, Query.parse_term (#"-" ++ w) with
  | Some t, Some t' => Query.term_holds t' e = negb (Query.term_holds t e)
  | None, None => True
  | _, _ => False
  end.
Proof.
  intros Hne Hs. destruct (parse_term_negate w Hne Hs) as [-> Ht].
  destruct (Query.parse_term w) as [t|]; cbn; [|done].
  unfold Query.term_holds. cbn [tm_negate tm_field tm_any_of]. rewrite (Ht t eq_refl).
  by destruct (existsb _ _).
Qed.
End properties.

(** [without_field] takes out exactly the words that name the field: read
    again, the query has the other words, in their order, and none of the
    field's. *)
Theorem without_field_words (q fld : bytes) :
  words (Query.without_field q fld) = List.filter (fun w => negb (Query.names_field fld w)) (words q).
Proof. apply words_without_field. Qed.

(** A picker's toggle changes the one choice it names: it is chosen after
    exactly when it was not before, every other choice stays as it was, and
    toggling it again restores them all. *)
Theorem toggle_choice_toggles (fld q v : bytes) (c : list bytes) :
  field_name fld -> token v -> picks fld q c ->
  let q' := Query.toggle_choice q fld v in
  (forall x, Query.has_choice q' fld x =
    if bool_decide (x = v) then negb (Query.has_choice q fld x) else Query.has_choice q fld x) /\
  (forall x, Query.has_choice (Query.toggle_choice q' fld v) fld x = Query.has_choice q fld x).
Proof.
  intros Hf Hv Hp q'.
  assert (T : forall q c, picks fld q c -> forall x,
    Query.has_choice (Query.toggle_choice q fld v) fld x =
    if bool_decide (x = v) then negb (Query.has_choice q fld x) else Query.has_choice q fld x).
  { intros q0 c0 Hp0 x. pose proof (toggle_picks fld q0 c0 v Hf Hv Hp0) as Ht.
    rewrite (has_choice_picks _ _ _ _ Hf Ht), (has_choice_picks _ _ _ _ Hf Hp0).
    destruct Hp0 as (pre & post & _ & _ & Hn & Hc & _). destruct (toggled_spec v c0 Hn Hc Hv) as (_ & _ & S).
    specialize (S x). destruct (decide (x = v)) as [->|Hx];
      [rewrite (bool_decide_eq_true_2 (v = v)) in * by done|rewrite (bool_decide_eq_false_2 (x = v)) in * by done].
    - rewrite <- bool_decide_not. by apply bool_decide_ext.
    - by apply bool_decide_ext. }
  split; [by eapply T|]. intros x. subst q'. rewrite (T _ _ (toggle_picks fld q c v Hf Hv Hp)), (T _ _ Hp).
  case_bool_decide; [apply negb_involutive|done].
Qed.

(** A picker's edit loses the quotes of what was typed before it: the
    choice [a b] of [user:"a b"] is there before [c] is added and gone after,
    and [b|c] has become a word of its own. *)
Theorem toggle_choice_drops_quotes :
  let q := #"user:" ++ [x22] ++ #"a b" ++ [x22] in
  Query.has_choice q #"user" #"a b" = true /\
  Query.has_choice (Query.toggle_choice q #"user" #"c") #"user" #"a b" = false /\
  words (Query.toggle_choice q #"user" #"c") = [ #"user:a"; #"b|c"].
Proof. split; [|split]; vm_compute; reflexivity. Qed.

Definition query_sample : entry :=
  mk_entry #"0f" Kind.Cron (Some #"cron") #"/etc/crontab" #"Job" (Some #"/bin/true") None None
    Enablement.Enabled Trigger.Schedule (Some #"root") 0 420 None Provenance.Unpackaged [Flag.Unpackaged] ∅.

Lemma query_conjunction_witness :
  let l : Lowercase := to_ascii_lowercase in
  Query.matches (H := l) (Query.parse (H := l) #"name:job -flag:none") query_sample = true /\
  Query.matches (H := l) (Query.parse (H := l) (#"name:job" ++ #" " ++ #"-flag:none")) query_sample =
  Query.matches (H := l) (Query.parse (H := l) #"name:job") query_sample &&
  Query.matches (H := l) (Query.parse (H := l) #"-flag:none") query_sample.
Proof.
  intros l. split; [vm_compute; reflexivity|].
  apply (@query_conjunction l #"name:job" #"-flag:none" query_sample).
  - vm_compute. reflexivity.
  - vm_compute. reflexivity.
Defined.

Lemma query_negation_witness :
  let l : Lowercase := to_ascii_lowercase in
  match Query.parse_term (H := l) #"flag:none", Query.parse_term (H := l) (#"-" ++ #"flag:none") with
  | Some t, Some t' =>
      Query.term_holds (H := l) t' query_sample = negb (Query.term_holds (H := l) t query_sample)
  | None, None => True
  | _, _ => False
  end.
Proof.
  intros l. apply (@query_negation l #"flag:none" query_sample).
  - intros E. discriminate E.
  - vm_compute. reflexivity.
Defined.

Definition toggle_sample : bytes := #"kind:cron flag:hidden-path|unpackaged etc".

Lemma toggle_choice_toggles_witness :
  let q' := Query.toggle_choice toggle_sample #"flag" #"hidden-path" in
  q' = #"kind:cron flag:unpackaged etc" /\
  (forall x, Query.has_choice q' #"flag" x =
    if bool_decide (x = #"hidden-path") then negb (Query.has_choice toggle_sample #"flag" x)
    else Query.has_choice toggle_sample #"flag" x) /\
  (forall x, Query.has_choice (Query.toggle_choice q' #"flag" #"hidden-path") #"flag" x =
    Query.has_choice toggle_sample #"flag" x).
Proof.
  intros q'. split; [vm_compute; reflexivity|].
  apply (toggle_choice_toggles #"flag" toggle_sample #"hidden-path" [ #"hidden-path"; #"unpackaged"]).
  - split; [intros E; discriminate E|vm_compute; reflexivity].
  - split; [intros E; discriminate E|vm_compute; reflexivity].
  - exists [ #"kind:cron"], [ #"etc"]. split; [vm_compute; reflexivity|].
    split; [|split; [|split]].
    + apply Forall_app. split; apply Forall_singleton; vm_compute; reflexivity.
    + apply (bool_decide_eq_true (NoDup [ #"hidden-path"; #"unpackaged"])). vm_compute. reflexivity.
    + apply Forall_cons. split; [|apply Forall_singleton];
        (split; [intros E; discriminate E|vm_compute; reflexivity]).
    + vm_compute. reflexivity.
Defined.
