(* ===== verification/Render.v ===== *)
(** [src/render.rs]: what is hidden by default, and text from a hostile disk
    made safe to print. A writer is the bytes written; [serde_json]'s writers
    are parameters. *)

From S2P Require Import Prelude Slices Order Num Utf8 Paths StrEnum Kinds Entry ScanData.

(** ** Filters *)

Record filters := mk_filters { f_kinds : list kind; f_triggers : list trigger; f_flags : list flag }.

Definition keep (self : filters) (e : entry) : bool :=
  (bool_decide (f_kinds self = []) || mem (e_kind e) (f_kinds self))
  && (bool_decide (f_triggers self = []) || mem (e_trigger e) (f_triggers self))
  && (bool_decide (f_flags self = []) || existsb (Entry.has_flag e) (f_flags self)).

(** ** Suppression *)

Definition has_note (e : entry) (k : bytes) : bool := bool_decide (is_Some (e_raw e !! k)).
Definition flags_within (allowed : list flag) (e : entry) : bool := forallb (fun f => mem f allowed) (e_flags e).

Definition from_package_database (e : entry) : bool :=
  let metadata := has_note e key.READ_FROM || has_note e key.DIGEST_UNAVAILABLE in
  metadata && negb (has_note e key.CHANGED_AFTER_INSTALL)
  && match e_provenance e with
     | Provenance.Packaged _ _ _ | Provenance.GeneratedBy _ => true
     | _ => false
     end.

(** [Option::is_none_or]. *)
Definition is_none_or {A} (f : A -> bool) (o : option A) : bool :=
  match o with Some a => f a | None => true end.

Definition suppressed (e : entry) : bool :=
  let verified := Provenance.is_verified (e_provenance e) in
  let vendor_text := verified || from_package_database e in
  let quiet := forallb (fun f => bool_decide (f = Flag.DegradedEnablement)
                                 || (bool_decide (f = Flag.TargetUnresolvable) && vendor_text)) (e_flags e) in
  if has_note e key.EMPTY_FILE && flags_within [Flag.DegradedEnablement; Flag.Unpackaged] e then true
  else
    let target_verified := is_none_or TargetVerdict.is_verified (Entry.target_verdict e) in
    if bool_decide (e_kind e = Kind.NssModule) && negb verified then
      flags_within [Flag.DegradedEnablement; Flag.Unpackaged] e && target_verified
      && negb (has_note e key.AFTER_HASH)
    else if bool_decide (e_kind e = Kind.Plugin) then
      if negb verified && negb (has_note e key.REGISTRY_GENERATED) then false
      else
        let target_ok := target_verified || Entry.has_flag e Flag.TargetMissing in
        target_ok && flags_within [Flag.DegradedEnablement; Flag.Unpackaged; Flag.TargetMissing] e
    else if bool_decide (e_kind e = Kind.PkgSource) && has_note e key.VOUCHED then
      flags_within [Flag.DegradedEnablement; Flag.Unpackaged; Flag.ConffileModified] e
    else if bool_decide (e_kind e = Kind.Inittab) && has_note e key.VOUCHED then
      target_verified && flags_within [Flag.DegradedEnablement; Flag.Unpackaged] e
    else
      let derived := match e_provenance e with
                     | Provenance.GeneratedBy by_ => derives_from_packaged_inputs by_
                     | _ => false
                     end in
      let untouched := negb (has_note e key.CHANGED_AFTER_INSTALL) in
      quiet && target_verified && untouched && (verified || from_package_database e || derived).

(** ** Text made visible *)

Definition unsafe_char (c : char) (keep_tabs : bool) : bool :=
  if bool_decide (c = 9%N) then negb keep_tabs
  else is_control c
       || bool_decide (c = 0x061c%N) || char_in 0x200b 0x200f c || char_in 0x2028 0x202e c
       || char_in 0x2060 0x2064 c || char_in 0x2066 0x2069 c || bool_decide (c = 0xfeff%N).

Fixpoint hex_fuel (fuel : nat) (n : N) : list char :=
  match fuel with
  | 0 => []
  | S fuel' => (if (n <? 16)%N then [] else hex_fuel fuel' (n / 16)) ++ [Byte.to_N (hex_digit (n mod 16))]
  end.
(** [{:04x}] and [{:02x}]: a [char] has no more than six digits. *)
Definition hex_pad (w : nat) (n : N) : list char :=
  let d := hex_fuel 6 n in replicate (w - length d) 48%N ++ d.

Definition text (s : bytes) : list char := Byte.to_N <$> s.

Definition show_char (keep_tabs : bool) (c : char) : list char :=
  if negb (unsafe_char c keep_tabs) then [c]
  else if bool_decide (c = 10%N) then text #"\n"
  else if bool_decide (c = 13%N) then text #"\r"
  else if bool_decide (c = 9%N) then text #"\t"
  else if (c <? 0x100)%N then text #"\x" ++ hex_pad 2 c
  else text #"\u{" ++ hex_pad 4 c ++ text #"}".

Definition visible (s : bytes) (keep_tabs : bool) : bytes :=
  if negb (existsb (fun c => unsafe_char c keep_tabs) (chars s)) then s
  else utf8_encode (chars s ≫= show_char keep_tabs).

(** ** The table *)

(** [sort_by_key] on a boolean: false first. *)
Definition flags_text (e : entry) : bytes :=
  join #"," (sort_by (fun f => if bool_decide (f = Flag.as_str Flag.DegradedEnablement) then 1 else 0)
               (Flag.as_str <$> e_flags e)).

Definition width_of (lens : list nat) (min_ max_ : nat) : nat :=
  let widest := match lens with [] => min_ | n :: ns => foldl Nat.max n ns end in
  if widest <? min_ then min_ else if max_ <? widest then max_ else widest.

Definition count_chars (s : bytes) : nat := length (chars s).

Definition clip (s : bytes) (w : nat) : bytes :=
  if count_chars s <=? w then s
  else utf8_encode (take (w - 1) (chars s) ++ text #"~").

(** [{:<w$}]. *)
Definition pad (w : nat) (s : bytes) : bytes := s ++ replicate (w - count_chars s) x20.

Definition newline : bytes := [x0a].

Definition when (b : bool) (out : bytes) : bytes := if b then out else [].

Definition partial_of (c : collector_status) : option (bytes * nat) :=
  match cs_status c with Status.Partial unreadable => Some (cs_name c, length unreadable) | _ => None end.
Definition failed_of (c : collector_status) : option (bytes * bytes) :=
  match cs_status c with Status.Failed error => Some (cs_name c, error) | _ => None end.
Definition skipped_of (c : collector_status) : option (bytes * bytes) :=
  match cs_status c with Status.Skipped reason => Some (cs_name c, reason) | _ => None end.
Definition no_databases (h : header) : bool := bool_decide (h_package_databases h = Some []).

Definition banners (s : scan) : bytes :=
  let h := s_header s in
  let partial := omap partial_of (h_collectors h) in
  let failed := omap failed_of (h_collectors h) in
  let skipped := omap skipped_of (h_collectors h) in
  when (negb (h_privileged h))
    (#"! Running unprivileged. Per-user and root-owned sources were not all readable; " ++
     #"this scan is not comparable with one taken as root." ++ newline) ++
  (failed ≫= (fun '(name, error) => #"! Collector " ++ name ++ #" failed: " ++ visible error false ++ newline)) ++
  (h_enrichment_failures h ≫= (fun failure =>
     #"! Enrichment failed, flags may be missing: " ++ visible failure false ++ newline)) ++
  when (no_databases h)
    (#"! No package database the tool reads was found (dpkg, rpm, apk, pacman), so no file can be told apart " ++
     #"as packaged or not and nothing is hidden for being packaged." ++ newline) ++
  when (negb (bool_decide (partial = [])))
    (#"! Incomplete collectors: " ++
     join #", " ((fun '(n, c) => n ++ #" (" ++ dec (N.of_nat c) ++ #" paths)") <$> partial) ++
     #". See the JSON header for the paths." ++ newline) ++
  when (negb (bool_decide (skipped = [])))
    (#"  Skipped: " ++ join #", " ((fun '(n, r) => n ++ #" (" ++ r ++ #")") <$> skipped) ++ newline) ++
  when (negb (bool_decide (failed = [])) || negb (bool_decide (partial = [])) || negb (h_privileged h)
        || negb (bool_decide (h_enrichment_failures h = [])) || no_databases h) newline.

Record table_opts := mk_table_opts { o_all : bool; o_width : nat }.

Record columns := mk_columns { c_kind : nat; c_name : nat; c_flag : nat; c_cmd : nat }.

Definition columns_of (shown : list entry) (width : nat) : columns :=
  let kind_w := width_of ((fun e => length (Kind.as_str (e_kind e))) <$> shown) 12 20 in
  let name_w := width_of ((fun e => count_chars (visible (e_name e) false)) <$> shown) 12 34 in
  let flag_w := width_of ((fun e => count_chars (flags_text e)) <$> shown) 5 28 in
  let fixed := 12 + 2 + kind_w + 2 + 8 + 2 + name_w + 2 + flag_w + 2 in
  mk_columns kind_w name_w flag_w (Nat.max (width - fixed) 12).

Definition table_line (w : columns) (id k enabled name flags command : bytes) : bytes :=
  pad 12 id ++ #"  " ++ pad (c_kind w) k ++ #"  " ++ pad 8 enabled ++ #"  " ++
  pad (c_name w) name ++ #"  " ++ pad (c_flag w) flags ++ #"  " ++ command ++ newline.

Definition command_text (e : entry) : bytes :=
  match e_command e with
  | Some c => from_utf8_lossy c
  | None => match e_target_path e with
            | Some p => from_utf8_lossy p
            | None => from_utf8_lossy (e_source e)
            end
  end.

Definition table_row (w : columns) (e : entry) : bytes :=
  table_line w (Entry.short_id e) (clip (Kind.as_str (e_kind e)) (c_kind w))
    (clip (Enablement.as_str (e_enabled e)) 8) (clip (visible (e_name e) false) (c_name w))
    (clip (flags_text e) (c_flag w)) (clip (visible (command_text e) false) (c_cmd w)).

Definition is_hidden (opts : table_opts) (e : entry) : bool := negb (o_all opts) && suppressed e.

Definition table (s : scan) (f : filters) (opts : table_opts) : bytes :=
  let kept := List.filter (keep f) (s_entries s) in
  let shown := List.filter (fun e => negb (is_hidden opts e)) kept in
  let hidden := length (List.filter (is_hidden opts) kept) in
  let w := columns_of shown (o_width opts) in
  banners s ++
  table_line w #"ID" #"KIND" #"ENABLED" #"NAME" #"FLAGS" #"COMMAND" ++
  (shown ≫= table_row w) ++
  newline ++
  dec (N.of_nat (length shown)) ++ #" entries shown, " ++
    dec (N.of_nat (length (h_collectors (s_header s)))) ++ #" collectors ran." ++ newline ++
  when (0 <? hidden) (dec (N.of_nat hidden) ++ #" entries hidden (packaged, intact) " ++ [xe2; x80; x94] ++
                      #" use --all" ++ newline).

(** ** The machine forms *)

Section json.
(** [serde_json::to_writer] of a header and of an entry, and
    [to_writer_pretty] of a scan. *)
Context (write_header : header -> bytes) (write_entry : entry -> bytes) (write_scan : scan -> bytes).

Definition ndjson (s : scan) (f : filters) : bytes :=
  write_header (s_header s) ++ newline ++
  (List.filter (keep f) (s_entries s) ≫= (fun e => write_entry e ++ newline)).

Definition json_array (s : scan) (f : filters) : bytes :=
  write_scan (mk_scan (s_header s) (List.filter (keep f) (s_entries s))) ++ newline.
End json.

(** [COLUMNS], whether the output is a terminal, and the size it reports. *)
Definition terminal_width (columns : option bytes) (is_terminal : bool) (ws_col : option N) : N :=
  let from_env := n ← columns ≫= parse_unsigned U64_MAX; if (40 <=? n)%N then Some n else None in
  match from_env with
  | Some n => n
  | None =>
      let from_tty := if is_terminal then (n ← ws_col; if (40 <=? n)%N then Some n else None) else None in
      default 160%N from_tty
  end.

(** ** Safe text *)

Definition safe_chars (kt : bool) (cs : list char) : Prop := Forall (fun c => unsafe_char c kt = false) cs.
(** Text that is UTF-8 and holds nothing that instructs a terminal. *)
Definition safe (s : bytes) : Prop := is_utf8 s = true /\ safe_chars false (chars s).

Lemma safe_app s t : safe s -> safe t -> safe (s ++ t).
Proof.
  intros [Hs1 Hs2] [Ht1 Ht2]. split; [by rewrite is_utf8_app|]. rewrite chars_app by done. by apply Forall_app.
Qed.

Definition plain_byte (b : byte) : bool := is_ascii b && negb (unsafe_char (Byte.to_N b) false).

Lemma safe_plain s : forallb plain_byte s = true -> safe s.
Proof.
  intros Hs. assert (Ha : forallb is_ascii s = true).
  { rewrite forallb_forall in *. intros x Hx. apply Hs in Hx. by apply andb_true_iff in Hx as [? _]. }
  split; [by apply is_utf8_ascii|]. rewrite chars_ascii by done. apply Forall_fmap, Forall_forall.
  intros b Hb. rewrite forallb_forall in Hs. apply list_elem_of_In, Hs in Hb.
  apply andb_true_iff in Hb as [_ Hb]. by apply negb_true_iff in Hb.
Qed.

Lemma safe_encode cs :
  Forall (fun c => is_scalar c = true) cs -> safe_chars false cs -> safe (utf8_encode cs).
Proof. intros Hs Hc. split; [by apply is_utf8_encode|]. by rewrite chars_encode. Qed.

Lemma text_safe kt (s : bytes) :
  forallb (fun b => negb (unsafe_char (Byte.to_N b) kt)) s = true -> safe_chars kt (text s).
Proof.
  intros Hs. apply Forall_fmap, Forall_forall. intros b Hb. apply list_elem_of_In in Hb.
  eapply forallb_forall in Hs; [|exact Hb]. by apply negb_true_iff in Hs.
Qed.

Lemma hex_digit_char kt n :
  (n < 16)%N -> is_scalar (Byte.to_N (hex_digit n)) = true /\ unsafe_char (Byte.to_N (hex_digit n)) kt = false.
Proof.
  intros Hn. assert (Hin : n ∈ N.of_nat <$> seq 0 16).
  { apply list_elem_of_fmap. exists (N.to_nat n). rewrite elem_of_seq. lia. }
  assert (F : Forall (fun n => is_scalar (Byte.to_N (hex_digit n)) = true /\
    unsafe_char (Byte.to_N (hex_digit n)) kt = false) (N.of_nat <$> seq 0 16)).
  { cbn. repeat constructor; by destruct kt. }
  rewrite Forall_forall in F. by apply F.
Qed.

Lemma hex_pad_chars kt w n :
  Forall (fun c => is_scalar c = true) (hex_pad w n) /\ safe_chars kt (hex_pad w n).
Proof.
  assert (F : forall fuel n, Forall (fun c => is_scalar c = true /\ unsafe_char c kt = false) (hex_fuel fuel n)).
  { induction fuel as [|fuel IH]; intros m; cbn [hex_fuel]; [constructor|]. apply Forall_app. split.
    - case_match; [constructor|apply IH].
    - apply Forall_singleton, hex_digit_char, N.mod_lt. done. }
  assert (G : Forall (fun c => is_scalar c = true /\ unsafe_char c kt = false) (hex_pad w n)).
  { unfold hex_pad. apply Forall_app. split; [|apply F]. apply Forall_replicate. by destruct kt. }
  split; (eapply Forall_impl; [exact G|]); by intros c [? ?].
Qed.

Lemma show_char_chars kt c :
  is_scalar c = true ->
  Forall (fun c => is_scalar c = true) (show_char kt c) /\ safe_chars kt (show_char kt c).
Proof.
  intros Hc. unfold show_char.
  assert (T : forall s : bytes, forallb is_ascii s = true -> Forall (fun c => is_scalar c = true) (text s)).
  { intros s Hs. unfold text. rewrite <- (chars_ascii s Hs). apply chars_scalar. }
  destruct (unsafe_char c kt) eqn:E; cbn [negb].
  - repeat case_bool_decide; [split; [by apply T|by apply text_safe; destruct kt]..|].
    pose proof (hex_pad_chars kt 2 c) as [? ?]. pose proof (hex_pad_chars kt 4 c) as [? ?].
    destruct (c <? 0x100)%N; unfold safe_chars in *; rewrite !Forall_app;
      repeat split; try done; try (by apply T); by apply text_safe; destruct kt.
  - split; by apply Forall_singleton.
Qed.

Lemma bind_show kt cs :
  Forall (fun c => is_scalar c = true) cs ->
  Forall (fun c => is_scalar c = true) (cs ≫= show_char kt) /\ safe_chars kt (cs ≫= show_char kt).
Proof.
  induction 1 as [|c cs Hc Hcs [IH1 IH2]]; [split; constructor|]. csimpl.
  destruct (show_char_chars kt c Hc). unfold safe_chars in *. by rewrite !Forall_app.
Qed.

Lemma visible_chars kt s :
  is_utf8 s = true -> is_utf8 (visible s kt) = true /\ safe_chars kt (chars (visible s kt)).
Proof.
  intros Hs. unfold visible. destruct (existsb _ _) eqn:E; cbn [negb].
  - destruct (bind_show kt (chars s) (chars_scalar s)) as [H1 H2].
    split; [by apply is_utf8_encode|]. by rewrite chars_encode.
  - split; [done|]. apply Forall_forall. intros c Hc. apply not_true_iff_false. intros Hu.
    apply not_true_iff_false in E. apply E, existsb_exists. exists c. split; [by apply list_elem_of_In|done].
Qed.

Lemma safe_visible s : is_utf8 s = true -> safe (visible s false).
Proof. apply visible_chars. Qed.

Lemma show_char_length kt c : 1 <= length (show_char kt c).
Proof. unfold show_char. repeat case_match; cbn; rewrite ?length_app; cbn; lia. Qed.

Lemma safe_clip s w : safe s -> safe (clip s w).
Proof.
  intros [Hu Hs]. unfold clip. case_match; [done|]. apply safe_encode.
  - apply Forall_app. split; [apply Forall_take, chars_scalar|by repeat constructor].
  - apply Forall_app. split; [by apply Forall_take|by repeat constructor].
Qed.

Lemma safe_pad w s : safe s -> safe (pad w s).
Proof.
  intros Hs. unfold pad. apply safe_app; [done|]. apply safe_plain, forallb_forall.
  intros x Hx%list_elem_of_In. by apply elem_of_replicate in Hx as [-> _].
Qed.

Lemma safe_join sep ls : safe sep -> Forall safe ls -> safe (join sep ls).
Proof.
  intros Hsep. induction 1 as [|l [|m ls] Hl Hls IH]; [by split; [|constructor]|done|].
  change (join sep (l :: m :: ls)) with (l ++ sep ++ join sep (m :: ls)). auto using safe_app.
Qed.

Lemma safe_flags_text e : safe (flags_text e).
Proof.
  unfold flags_text. apply safe_join; [by apply safe_plain|]. rewrite sort_by_perm.
  apply Forall_fmap, Forall_forall. intros f _. apply safe_plain. by destruct f.
Qed.

(** ** Lines *)

Definition newlines (s : bytes) : nat := length (List.filter (is_byte x0a) s).

Lemma newlines_app s t : newlines (s ++ t) = newlines s + newlines t.
Proof. unfold newlines. by rewrite List.filter_app, length_app. Qed.

Lemma byte_of_N_not_newline n : (128 <= n < 256)%N -> x0a <> byte_of_N n.
Proof.
  intros Hn E. apply (f_equal Byte.to_N) in E. rewrite to_N_byte_of_N, N.mod_small in E by lia.
  change (Byte.to_N x0a) with 10%N in E. lia.
Qed.

#[local] Ltac Zify.zify_post_hook ::= Z.to_euclidean_division_equations.

Lemma encode1_newline c : is_scalar c = true -> x0a ∈ utf8_encode1 c -> c = 10%N.
Proof.
  intros Hc Hin. assert (Hlt : (c < 0x110000)%N).
  { unfold is_scalar in Hc. apply orb_true_iff in Hc as [Hc|Hc].
    - apply N.ltb_lt in Hc. lia.
    - apply andb_true_iff in Hc as [_ Hc]. by apply N.ltb_lt in Hc. }
  unfold utf8_encode1 in Hin. repeat case_match; rewrite ?elem_of_cons, ?elem_of_nil in Hin.
  all: repeat match goal with
    | H : (_ <? _)%N = true |- _ => apply N.ltb_lt in H
    | H : (_ <? _)%N = false |- _ => apply N.ltb_ge in H
    end.
  - destruct Hin as [E|[]]. apply (f_equal Byte.to_N) in E.
    rewrite to_N_byte_of_N, N.mod_small in E by lia. by symmetry.
  - exfalso. destruct Hin as [E|[E|[]]]; revert E; apply byte_of_N_not_newline; lia.
  - exfalso. destruct Hin as [E|[E|[E|[]]]]; revert E; apply byte_of_N_not_newline; lia.
  - exfalso. destruct Hin as [E|[E|[E|[E|[]]]]]; revert E; apply byte_of_N_not_newline; lia.
Qed.

Lemma safe_newlines s : safe s -> newlines s = 0.
Proof.
  intros [Hu Hs]. unfold newlines. destruct (List.filter _ s) as [|b l] eqn:E; [done|]. exfalso.
  assert (Hb : b ∈ b :: l) by (by left). rewrite <- E in Hb.
  apply list_elem_of_In, filter_In in Hb as [Hin Hb]. apply is_byte_true in Hb as ->.
  apply list_elem_of_In in Hin. rewrite <- (encode_chars s Hu) in Hin. unfold utf8_encode in Hin.
  apply list_elem_of_bind in Hin as (c & Hc & Hin).
  pose proof (chars_scalar s) as Hsc. unfold safe_chars in Hs. rewrite Forall_forall in Hsc. rewrite Forall_forall in Hs.
  apply encode1_newline in Hc as ->; [|by apply Hsc]. by apply Hs in Hin.
Qed.

(** What Rust's types and the record's own making promise of an entry that is
    printed: its name is a string, its id hexadecimal. *)
Definition printable (e : entry) : Prop := is_utf8 (e_name e) = true /\ forallb plain_byte (e_id e) = true.

Lemma forallb_take {A} (f : A -> bool) n l : forallb f l = true -> forallb f (take n l) = true.
Proof.
  rewrite !forallb_forall. intros H x Hx%list_elem_of_In. apply H, list_elem_of_In.
  apply list_elem_of_lookup in Hx as [i Hi]. rewrite lookup_take_Some in Hi. destruct Hi as [Hi _].
  by eapply list_elem_of_lookup_2.
Qed.

Lemma command_text_utf8 e : is_utf8 (command_text e) = true.
Proof. unfold command_text. repeat case_match; apply lossy_is_utf8. Qed.

Lemma safe_table_line w i k en n f c :
  safe i -> safe k -> safe en -> safe n -> safe f -> safe c ->
  exists l, table_line w i k en n f c = l ++ newline /\ safe l.
Proof.
  intros. unfold table_line. eexists. rewrite !app_assoc. split; [reflexivity|].
  repeat first [done|apply safe_pad|apply safe_app]; by apply safe_plain.
Qed.

Lemma safe_table_row w e : printable e -> exists l, table_row w e = l ++ newline /\ safe l.
Proof.
  intros [Hn Hi]. apply safe_table_line.
  - apply safe_plain. by apply forallb_take.
  - apply safe_clip, safe_plain. by destruct (e_kind e).
  - apply safe_clip, safe_plain. by destruct (e_enabled e).
  - by apply safe_clip, safe_visible.
  - apply safe_clip, safe_flags_text.
  - apply safe_clip, safe_visible, command_text_utf8.
Qed.

Lemma rows_newlines w es : Forall printable es -> newlines (es ≫= table_row w) = length es.
Proof.
  induction 1 as [|e es He Hes IH]; [done|]. csimpl. rewrite newlines_app, IH.
  destruct (safe_table_row w e He) as (l & -> & Hl). by rewrite newlines_app, safe_newlines.
Qed.

Lemma dec_newlines n : newlines (dec n) = 0.
Proof.
  apply safe_newlines, safe_plain, forallb_forall. intros b Hb%list_elem_of_In.
  pose proof (dec_is_digits n) as Hd. rewrite Forall_forall in Hd. apply Hd in Hb.
  pose proof (byte_forall (fun b => negb (is_ascii_digit b) || plain_byte b) ltac:(by vm_compute) b) as H.
  cbv beta in H. by rewrite Hb in H.
Qed.

(** ** Properties *)

Lemma flags_within_spec allowed e f : flags_within allowed e = true -> f ∈ e_flags e -> f ∈ allowed.
Proof.
  unfold flags_within. rewrite forallb_forall. intros H Hf%list_elem_of_In.
  apply H in Hf. by apply bool_decide_eq_true in Hf.
Qed.

(** The flags an entry may carry and still be hidden by default. *)
Definition tolerated : list flag :=
  [Flag.DegradedEnablement; Flag.TargetUnresolvable; Flag.Unpackaged; Flag.TargetMissing; Flag.ConffileModified].

Definition quiet_flags (e : entry) : Prop :=
  forall f, f ∈ e_flags e -> f = Flag.DegradedEnablement \/ f = Flag.TargetUnresolvable.
Definition target_verified (e : entry) : Prop :=
  forall v, Entry.target_verdict e = Some v -> TargetVerdict.is_verified v = true.

(** The six ways to be hidden. *)
Lemma suppressed_cases (e : entry) :
  suppressed e = true ->
  (has_note e key.EMPTY_FILE = true /\ flags_within [Flag.DegradedEnablement; Flag.Unpackaged] e = true) \/
  (e_kind e = Kind.NssModule /\ target_verified e /\
    flags_within [Flag.DegradedEnablement; Flag.Unpackaged] e = true) \/
  (e_kind e = Kind.Plugin /\
    (Provenance.is_verified (e_provenance e) = true \/ has_note e key.REGISTRY_GENERATED = true) /\
    (target_verified e \/ Entry.has_flag e Flag.TargetMissing = true) /\
    flags_within [Flag.DegradedEnablement; Flag.Unpackaged; Flag.TargetMissing] e = true) \/
  (e_kind e = Kind.PkgSource /\ has_note e key.VOUCHED = true /\
    flags_within [Flag.DegradedEnablement; Flag.Unpackaged; Flag.ConffileModified] e = true) \/
  (e_kind e = Kind.Inittab /\ has_note e key.VOUCHED = true /\ target_verified e /\
    flags_within [Flag.DegradedEnablement; Flag.Unpackaged] e = true) \/
  (quiet_flags e /\ target_verified e /\ has_note e key.CHANGED_AFTER_INSTALL = false /\
    e_provenance e <> Provenance.Unpackaged /\ e_provenance e <> Provenance.Unknown).
Proof.
  assert (T : is_none_or TargetVerdict.is_verified (Entry.target_verdict e) = true -> target_verified e).
  { intros H v Hv. by rewrite Hv in H. }
  unfold suppressed. cbv zeta. intros H.
  destruct (has_note e key.EMPTY_FILE && _) eqn:E1; [left; by apply andb_true_iff in E1|right].
  destruct (bool_decide (e_kind e = Kind.NssModule) && _) eqn:E2.
  { left. apply andb_true_iff in E2 as [Hk%bool_decide_eq_true _]. rewrite !andb_true_iff in H. naive_solver. }
  right. case_bool_decide as E3.
  { left. destruct (negb _ && _) eqn:E4; [done|]. rewrite andb_true_iff, orb_true_iff in H.
    split; [done|]. split; [|naive_solver].
    apply andb_false_iff in E4 as [E4|E4]; apply negb_false_iff in E4; auto. }
  right. destruct (bool_decide (e_kind e = Kind.PkgSource) && _) eqn:E4.
  { left. by apply andb_true_iff in E4 as [?%bool_decide_eq_true ?]. }
  right. destruct (bool_decide (e_kind e = Kind.Inittab) && _) eqn:E5.
  { left. apply andb_true_iff in E5 as [?%bool_decide_eq_true ?]. rewrite andb_true_iff in H. naive_solver. }
  right. rewrite !andb_true_iff, !orb_true_iff, negb_true_iff in H. destruct H as [[[Hq Ht] Hu] Hp].
  split; [|split; [auto|split; [done|]]].
  - intros f Hf%list_elem_of_In. rewrite forallb_forall in Hq. apply Hq, orb_true_iff in Hf.
    rewrite andb_true_iff, !bool_decide_eq_true in Hf. naive_solver.
  - split; intros E; rewrite E in Hp; cbn in Hp; unfold from_package_database in Hp; rewrite E in Hp;
      rewrite ?andb_false_r in Hp; naive_solver.
Qed.

(** C7. What is hidden by default is quiet: no flag but the five tolerated
    ones; a file no package owns only where it is empty, judged by the library
    it names, or vouched for; and a target that did not verify only where the
    file is empty, a repository is vouched for, or a plug-in's library is
    missing. In particular nothing packaged and modified, world-writable,
    hidden, or of the wrong owner is ever hidden. *)
Theorem suppressed_is_quiet (e : entry) :
  suppressed e = true ->
  (forall f, f ∈ e_flags e -> f ∈ tolerated) /\
  (e_provenance e = Provenance.Unpackaged \/ e_provenance e = Provenance.Unknown ->
    has_note e key.EMPTY_FILE = true \/ e_kind e = Kind.NssModule \/
    (e_kind e = Kind.Plugin /\ has_note e key.REGISTRY_GENERATED = true) \/
    ((e_kind e = Kind.PkgSource \/ e_kind e = Kind.Inittab) /\ has_note e key.VOUCHED = true)) /\
  (forall v, Entry.target_verdict e = Some v -> TargetVerdict.is_verified v = false ->
    has_note e key.EMPTY_FILE = true \/
    (e_kind e = Kind.PkgSource /\ has_note e key.VOUCHED = true) \/
    (e_kind e = Kind.Plugin /\ Entry.has_flag e Flag.TargetMissing = true)).
Proof.
  intros H. apply suppressed_cases in H.
  assert (W : forall allowed, allowed ⊆ tolerated -> flags_within allowed e = true ->
    forall f, f ∈ e_flags e -> f ∈ tolerated).
  { intros allowed Hs Ha f Hf. eapply Hs, flags_within_spec; [exact Ha|exact Hf]. }
  assert (C : forall v, Entry.target_verdict e = Some v -> TargetVerdict.is_verified v = false ->
    target_verified e -> False).
  { intros v Hv Hf Ht. apply Ht in Hv. congruence. }
  assert (P : e_provenance e = Provenance.Unpackaged \/ e_provenance e = Provenance.Unknown ->
    Provenance.is_verified (e_provenance e) = true -> False) by (by intros [-> | ->]).
  split; [|split].
  - destruct H as [(_ & Hf)|[(_ & _ & Hf)|[(_ & _ & _ & Hf)|[(_ & _ & Hf)|[(_ & _ & _ & Hf)|(Hf & _)]]]]].
    6: intros f Hin; apply Hf in Hin as [-> | ->]; unfold tolerated; set_solver.
    all: eapply W; [|exact Hf]; unfold tolerated; set_solver.
  - naive_solver.
  - naive_solver.
Qed.

Definition suppressed_sample : entry :=
  Entry.set_target_verdict
    (mk_entry #"0f" Kind.SystemdUnit (Some #"systemd") #"/usr/lib/systemd/system/ssh.service" #"ssh.service"
       None (Some #"/usr/sbin/sshd") None Enablement.Enabled Trigger.Boot None 0 420 None
       (Provenance.Packaged #"openssh-server" #"1" Integrity.Intact) [Flag.DegradedEnablement] ∅)
    (TargetVerdict.Packaged #"openssh-server" Integrity.Intact).

Lemma suppressed_is_quiet_witness :
  suppressed suppressed_sample = true /\
  (forall f, f ∈ e_flags suppressed_sample -> f ∈ tolerated).
Proof.
  split; [vm_compute; reflexivity|]. apply (suppressed_is_quiet suppressed_sample). vm_compute. reflexivity.
Defined.

(** What Unicode calls the characters that instruct rather than show: the
    control codes; the marks, embeddings, overrides and isolates of the
    bidirectional algorithm; line and paragraph separators; and those of no
    width, which make two names look one. *)
Definition harmful (c : char) : Prop :=
  ((c < 0x20 \/ 0x7F <= c <= 0x9F)
  \/ c = 0x061C \/ c = 0x200E \/ c = 0x200F \/ 0x202A <= c <= 0x202E \/ 0x2066 <= c <= 0x2069
  \/ c = 0x2028 \/ c = 0x2029
  \/ 0x200B <= c <= 0x200D \/ 0x2060 <= c <= 0x2064 \/ c = 0xFEFF)%N.
Definition tab : char := 9%N.

Lemma char_in_spec lo hi c : char_in lo hi c = true <-> (lo <= c <= hi)%N.
Proof. unfold char_in. rewrite andb_true_iff, !N.leb_le. done. Qed.

Lemma unsafe_harmful c kt : unsafe_char c kt = true <-> harmful c /\ ~ (c = tab /\ kt = true).
Proof.
  unfold unsafe_char, is_control, harmful, tab. case_bool_decide as Hc.
  - destruct kt; cbn; split; try done; [tauto|]. intros _. split; [lia|]. by intros [_ [=]].
  - rewrite !orb_true_iff, !char_in_spec, !bool_decide_eq_true, N.ltb_lt. split; [|lia]. intros H. split; [lia|tauto].
Qed.



(** No entry's text can add, split or erase a line of the table: after the
    banners it is one heading, one line for each entry shown, a blank line and
    the counts, and what is shown and what is hidden are all that the filters
    keep. *)
Theorem table_lines (s : scan) (f : filters) (opts : table_opts) :
  Forall printable (s_entries s) ->
  let kept := List.filter (keep f) (s_entries s) in
  let shown := length (List.filter (fun e => negb (is_hidden opts e)) kept) in
  let hidden := length (List.filter (is_hidden opts) kept) in
  shown + hidden = length kept /\
  newlines (table s f opts) = newlines (banners s) + (1 + shown + 2 + (if 0 <? hidden then 1 else 0)).
Proof.
  intros Hp kept shown hidden.
  assert (Hk : Forall printable kept).
  { unfold kept. rewrite Forall_forall in *. intros e He. apply Hp.
    apply list_elem_of_In, filter_In in He as [He _]. by apply list_elem_of_In. }
  split.
  { unfold shown, hidden. clear. induction kept as [|e es IH]; [done|]. cbn [List.filter].
    destruct (is_hidden opts e); cbn [negb length]; lia. }
  unfold table. cbv zeta. fold kept. rewrite !newlines_app, !dec_newlines.
  rewrite rows_newlines.
  2:{ rewrite Forall_forall in *. intros e He. apply Hk.
      apply list_elem_of_In, filter_In in He as [He _]. by apply list_elem_of_In. }
  fold shown hidden.
  destruct (safe_table_line (columns_of (List.filter (fun e => negb (is_hidden opts e)) kept) (o_width opts))
    #"ID" #"KIND" #"ENABLED" #"NAME" #"FLAGS" #"COMMAND") as (l & -> & Hl); try by apply safe_plain.
  rewrite newlines_app, (safe_newlines l) by done.
  assert (L1 : newlines newline = 1) by done.
  assert (L2 : newlines #" entries shown, " = 0) by done.
  assert (L3 : newlines #" collectors ran." = 0) by done.
  assert (L4 : newlines #" entries hidden (packaged, intact) " = 0) by done.
  assert (L5 : newlines [xe2; x80; x94] = 0) by done.
  assert (L6 : newlines #" use --all" = 0) by done.
  assert (L7 : newlines [] = 0) by done.
  unfold when. destruct (0 <? hidden); rewrite ?newlines_app, ?dec_newlines, ?L1, ?L2, ?L3, ?L4, ?L5, ?L6, ?L7; lia.
Qed.

Definition table_sample : scan :=
  mk_scan (mk_header #"0.3.4" SCHEMA_VERSION 0 #"h" [] [] [] [] #"/" true false true inferred [] [] None)
    [suppressed_sample; set_flags (set_name suppressed_sample (#"evil" ++ [x0a; x1b])) [Flag.HiddenPath]].

Lemma table_lines_witness :
  let f := mk_filters [] [] [] in
  let opts := mk_table_opts false 80 in
  let kept := List.filter (keep f) (s_entries table_sample) in
  let shown := length (List.filter (fun e => negb (is_hidden opts e)) kept) in
  let hidden := length (List.filter (is_hidden opts) kept) in
  (shown = 1 /\ hidden = 1) /\
  (shown + hidden = length kept /\
   newlines (table table_sample f opts) =
   newlines (banners table_sample) + (1 + shown + 2 + (if 0 <? hidden then 1 else 0))).
Proof.
  intros f opts kept shown hidden. split; [split; vm_compute; reflexivity|].
  refine (table_lines table_sample f opts _).
  apply Forall_cons. split; [|apply Forall_singleton]; split; vm_compute; reflexivity.
Defined.

(** [clip] keeps to its width, marks what it cut, and leaves text that
    fits alone. *)
Theorem clip_bound (s : bytes) (w : nat) :
  1 <= w ->
  count_chars (clip s w) <= w /\
  (count_chars s <= w -> clip s w = s) /\
  (w < count_chars s -> chars (clip s w) = take (w - 1) (chars s) ++ text #"~").
Proof.
  intros Hw.
  assert (Hc : chars (utf8_encode (take (w - 1) (chars s) ++ text #"~")) = take (w - 1) (chars s) ++ text #"~").
  { apply chars_encode, Forall_app. split; [apply Forall_take, chars_scalar|by repeat constructor]. }
  unfold clip, count_chars in *. destruct (length (chars s) <=? w) eqn:E.
  - apply Nat.leb_le in E. split; [done|]. split; [done|]. lia.
  - apply Nat.leb_gt in E. rewrite Hc, length_app, length_take. cbn [length text fmap list_fmap]. split; [|split; [lia|done]].
    change (length (text #"~")) with 1. lia.
Qed.

Lemma clip_bound_witness : clip #"packaged-modified" 9 = #"packaged~" /\ count_chars (clip #"packaged-modified" 9) <= 9.
Proof. split; [vm_compute; reflexivity|apply (clip_bound #"packaged-modified" 9); lia]. Defined.
