(* ===== verification/Report.v ===== *)
(** [src/report.rs]: a scan as one HTML page. The page's parts are files of
    [src/report/], so the template and its scripts are arguments; a JSON value
    and its text are [Record]'s interface and a parameter. *)

From S2P Require Import Prelude Slices Order Num Utf8 Paths StrEnum Kinds Entry Record ScanData Query Render Json.

Section report.
Context {V E : Type} `{Serde V E}.

Fixpoint oct_fuel (fuel : nat) (n : N) : bytes :=
  match fuel with
  | 0 => []
  | S fuel' => (if (n <? 8)%N then [] else oct_fuel fuel' (n / 8)) ++ [digit_char (n mod 8)]
  end.
(** [{:04o}] of twelve bits. *)
Definition octal4 (n : N) : bytes :=
  let d := oct_fuel 4 n in replicate (4 - length d) ("0"%byte) ++ d.

Definition row (e : entry) : list (bytes * V) :=
  let '(pkg, version) := match e_provenance e with
                         | Provenance.Packaged package version _ => (package, version)
                         | _ => ([], [])
                         end in
  [(#"id", ser_str (e_id e)); (#"kind", ser_str (Kind.as_str (e_kind e))); (#"name", ser_str (e_name e));
   (#"source", ser_str (from_utf8_lossy (e_source e)));
   (#"command", ser_option ser_str (from_utf8_lossy <$> e_command e));
   (#"target", ser_option ser_str (from_utf8_lossy <$> e_target_path e));
   (#"enabled", ser_str (Enablement.as_str (e_enabled e)));
   (#"trigger", ser_str (Trigger.as_str (e_trigger e)));
   (#"user", ser_option ser_str (e_principal e)); (#"pkg", ser_str pkg); (#"version", ser_str version);
   (#"prov", ser_seq (ser_str <$> Query.provenance_words (e_provenance e)));
   (#"flags", ser_seq ((fun f => ser_str (Flag.as_str f)) <$> e_flags e));
   (#"notes", ser_map (prod_map id ser_str <$> btree_to_list (e_raw e)));
   (#"collector", ser_option ser_str (e_collector e)); (#"owner", ser_u32 (e_owner_uid e));
   (#"mode", ser_str (octal4 (N.land (e_mode e) 4095)));
   (#"mtime", ser_option ser_i64 (t ← e_mtime e; if (0 <=? t)%Z then Some (t / nanos)%Z else None));
   (#"hidden", ser_bool (suppressed e))].

Definition notice_step (st : list bytes * list bytes) (c : collector_status) : list bytes * list bytes :=
  let '(out, partial) := st in
  match cs_status c with
  | Status.Partial unreadable =>
      (out, partial ++ [cs_name c ++ #" (" ++ dec (N.of_nat (length unreadable)) ++ #" paths)"])
  | Status.Failed error => (out ++ [ #"Collector " ++ cs_name c ++ #" failed: " ++ error], partial)
  | Status.Skipped reason => (out ++ [ #"Skipped: " ++ cs_name c ++ #" (" ++ reason ++ #")"], partial)
  | Status.Complete => (out, partial)
  end.

Definition notices (s : scan) : list bytes :=
  let h := s_header s in
  let out := if h_privileged h then [] else
    [ #"Running unprivileged. Per-user and root-owned sources were not all readable; " ++
      #"this scan is not comparable with one taken as root."] in
  let '(out, partial) := foldl notice_step (out, []) (h_collectors h) in
  out ++
  (if bool_decide (partial = []) then [] else [ #"Incomplete collectors: " ++ join #", " partial ++ #"."]) ++
  ((fun f => #"Enrichment failed, flags may be missing: " ++ f) <$> h_enrichment_failures h) ++
  (if no_databases h then
    [ #"No package database the tool reads was found (dpkg, rpm, apk, pacman), so no file can be told apart " ++
      #"as packaged or not and nothing is hidden for being packaged."] else []).

(** ** The data block *)

Definition escape (c : char) : list char :=
  if bool_decide (c = 60%N) then text #"\u003c"
  else if bool_decide (c = 62%N) then text #"\u003e"
  else if bool_decide (c = 38%N) then text #"\u0026"
  else if bool_decide (c = 0x2028%N) then text #"\u2028"
  else if bool_decide (c = 0x2029%N) then text #"\u2029"
  else [c].

(** [Value::to_string]. *)
Context (to_string : V -> bytes).
Definition embed (value : V) : bytes := utf8_encode (chars (to_string value) ≫= escape).

Definition report_data (s : scan) : V :=
  let h := s_header s in
  ser_map
    [(#"header", ser_map
       [(#"hostname", ser_str (h_hostname h));
        (#"distro", ser_str (trim (h_distro_id h ++ #" " ++ h_distro_version h)));
        (#"version", ser_str (h_unbidden_version h)); (#"scan_time", ser_i64 (h_scan_time h));
        (#"privileged", ser_bool (h_privileged h)); (#"notices", ser_seq (ser_str <$> notices s))]);
     (#"entries", ser_seq ((fun e => ser_map (row e)) <$> s_entries s))].

(** ** The page *)

Context (TEMPLATE CSS QUERY_JS APP_JS : bytes).

Definition marker_text (data tail : bytes) : bytes * bytes :=
  if starts_with #"/*CSS*/" tail then (#"/*CSS*/", CSS)
  else if starts_with #"/*DATA*/" tail then (#"/*DATA*/", data)
  else if starts_with #"/*QUERY*/" tail then (#"/*QUERY*/", QUERY_JS)
  else if starts_with #"/*APP*/" tail then (#"/*APP*/", APP_JS)
  else (#"/*", #"/*").

(** The [while let]: [rest] is cut at the next [/*]. *)
Fixpoint fill (fuel : nat) (data page rest : bytes) : option bytes :=
  match fuel with
  | 0 => None
  | S fuel' =>
      match split_once #"/*" rest with
      | None => Some (page ++ rest)
      | Some (before, after) =>
          let tail := #"/*" ++ after in
          let '(marker, txt) := marker_text data tail in
          fill fuel' data (page ++ before ++ txt) (drop (length marker) tail)
      end
  end.

Definition write (s : scan) : option bytes :=
  fill (S (length TEMPLATE)) (embed (report_data s)) [] TEMPLATE.

(** ** Laws *)

Lemma escape_chars c :
  is_scalar c = true ->
  Forall (fun d => is_scalar d = true /\ d <> 60%N /\ d <> 62%N /\ d <> 38%N /\ d <> 0x2028%N /\ d <> 0x2029%N) (escape c).
Proof.
  intros Hc. unfold escape. repeat case_bool_decide; by repeat constructor.
Qed.

Lemma marker_shorter data after : 2 <= length (fst (marker_text data (#"/*" ++ after))).
Proof. unfold marker_text. repeat case_match; cbn; lia. Qed.

Lemma fill_ends fuel data page rest : length rest < fuel -> is_Some (fill fuel data page rest).
Proof.
  revert page rest. induction fuel as [|fuel IH]; intros page rest Hl; [lia|]. cbn [fill].
  destruct (split_once #"/*" rest) as [[before after]|] eqn:E1; [|by eexists].
  apply split_once_Some in E1. destruct (marker_text data (#"/*" ++ after)) as [marker txt] eqn:E2.
  apply IH. rewrite length_drop. pose proof (marker_shorter data after) as Hm. rewrite E2 in Hm. cbn in Hm.
  rewrite E1 in Hl. rewrite !length_app in *. cbn in *. lia.
Qed.

Lemma fill_enough fuel fuel' data page rest :
  length rest < fuel -> length rest < fuel' -> fill fuel data page rest = fill fuel' data page rest.
Proof.
  revert fuel' page rest. induction fuel as [|fuel IH]; intros [|fuel'] page rest H1 H2; try lia. cbn [fill].
  destruct (split_once #"/*" rest) as [[before after]|] eqn:E1; [|done].
  apply split_once_Some in E1. destruct (marker_text data (#"/*" ++ after)) as [marker txt] eqn:E2.
  pose proof (marker_shorter data after) as Hm. rewrite E2 in Hm. cbn in Hm.
  apply IH; rewrite length_drop, E1, !length_app in *; cbn in *; lia.
Qed.

Lemma fill_page fuel data page rest : fill fuel data page rest = (fun t => page ++ t) <$> fill fuel data [] rest.
Proof.
  revert page rest. induction fuel as [|fuel IH]; intros page rest; cbn [fill]; [done|].
  destruct (split_once #"/*" rest) as [[before after]|]; [|done].
  destruct (marker_text data (#"/*" ++ after)) as [marker txt]. rewrite IH.
  rewrite (IH ([] ++ before ++ txt)). destruct (fill fuel data [] _); cbn; [|done]. by rewrite <- !app_assoc.
Qed.

(** ** Properties *)

(** C18. The data a page embeds can neither close its script element nor start
    a tag or an entity: none of the characters [<], [>] and [&] and neither
    line separator is left in it, whatever the scan holds. *)
Theorem embed_is_inert (value : V) :
  Forall (fun c => c <> 60%N /\ c <> 62%N /\ c <> 38%N /\ c <> 0x2028%N /\ c <> 0x2029%N) (chars (embed value)).
Proof.
  assert (F : Forall (fun d => is_scalar d = true /\ d <> 60%N /\ d <> 62%N /\ d <> 38%N /\ d <> 0x2028%N /\ d <> 0x2029%N)
    (chars (to_string value) ≫= escape)).
  { apply Forall_bind. eapply Forall_impl; [apply chars_scalar|]. apply escape_chars. }
  unfold embed. rewrite chars_encode; [|eapply Forall_impl; [exact F|]; by intros c [? _]].
  eapply Forall_impl; [exact F|]. by intros c [_ ?].
Qed.

(** The page is always written, and the placeholders are filled in one
    pass: where the first [/*] of what is left of the template begins the data
    placeholder, the data is put there as it is and never read for
    placeholders. *)
Theorem page_filled_once (s : scan) (data before after : bytes) :
  is_Some (write s) /\
  (split_once #"/*" (before ++ #"/*DATA*/" ++ after) = Some (before, #"DATA*/" ++ after) ->
   forall page, fill (S (length (before ++ #"/*DATA*/" ++ after))) data page (before ++ #"/*DATA*/" ++ after) =
     (fun t => page ++ before ++ data ++ t) <$> fill (S (length after)) data [] after).
Proof.
  split; [apply fill_ends; lia|]. intros Hs page.
  remember (fill (S (length after)) data [] after) as r eqn:Hr. cbn [fill]. rewrite Hs.
  assert (marker_text data (#"/*" ++ #"DATA*/" ++ after) = (#"/*DATA*/", data)) as -> by done.
  change (#"/*" ++ #"DATA*/" ++ after) with (#"/*DATA*/" ++ after). rewrite drop_app_length, fill_page.
  rewrite (fill_enough _ (S (length after))) by (rewrite ?length_app; cbn; lia).
  rewrite <- Hr. destruct r; cbn; [|done]. by rewrite <- !app_assoc.
Qed.
End report.

Lemma page_filled_once_witness :
  let template := #"<style>/*CSS*/</style><script>/*DATA*/</script>" in
  let after := #"</script>" in
  let before := #"<script>" in
  let data := #"/*CSS*/" in
  split_once #"/*" (before ++ #"/*DATA*/" ++ after) = Some (before, #"DATA*/" ++ after) /\
  (forall page, fill #"css" #"q" #"app" (S (length (before ++ #"/*DATA*/" ++ after))) data page (before ++ #"/*DATA*/" ++ after) =
     (fun t => page ++ before ++ data ++ t) <$> fill #"css" #"q" #"app" (S (length after)) data [] after).
Proof.
  intros template after before data.
  assert (E : split_once #"/*" (before ++ #"/*DATA*/" ++ after) = Some (before, #"DATA*/" ++ after))
    by (vm_compute; reflexivity).
  split; [exact E|].
  destruct (page_filled_once (V := json) (fun _ => data) template #"css" #"q" #"app" table_sample data before after)
    as [_ H]. exact (H E).
Defined.
