(* ===== verification/Sys.v ===== *)
(** System calls as data: a program that makes them is a tree of calls, and
    what the kernel answers is a branch of the tree. A claim about every
    branch holds whatever the file system does between two calls; a handler
    that answers from one snapshot runs a program to its result. *)

From S2P Require Import Prelude Slices Paths.

Definition errno := N.
Definition ENOENT : errno := 2%N.
Definition EINVAL : errno := 22%N.
Definition ENOTDIR : errno := 20%N.
Definition ENAMETOOLONG : errno := 36%N.
Definition ELOOP : errno := 40%N.

Definition fd := N.

(** The open flags the program uses. *)
Record oflags := mk_oflags {
  O_PATH : bool; O_DIRECTORY : bool; O_NOFOLLOW : bool; O_NONBLOCK : bool; O_NOCTTY : bool; O_CLOEXEC : bool
}.
Record resolve_flags := mk_resolve_flags { IN_ROOT : bool; NO_SYMLINKS : bool; NO_MAGICLINKS : bool }.

(** [struct stat], as far as it is read. *)
Record stat_t := mk_stat {
  st_dev : N; st_ino : N; st_mode : N; st_uid : N; st_gid : N; st_size : N;
  st_mtime : Z; st_ctime : Z; st_ctime_nsec : Z
}.

Inductive file_type := DT_UNKNOWN | DT_DIR | DT_LNK | DT_OTHER.
Record dirent_t := mk_dirent { d_name : bytes; d_type : file_type }.

Inductive at_flags := AT_FOLLOW | AT_SYMLINK_NOFOLLOW | AT_EMPTY_PATH.

(** A loop of [read]s, to the end of the file or to a limit, is one call: an
    interrupted one is made again, and any other error ends it. *)
Inductive sys : Type -> Type :=
| Open (p : path) (fl : oflags) : sys (result errno fd)
| OpenAt (d : fd) (p : path) (fl : oflags) : sys (result errno fd)
| OpenAt2 (d : fd) (p : path) (fl : oflags) (r : resolve_flags) : sys (result errno fd)
| StatAt (d : fd) (p : path) (fl : at_flags) : sys (result errno stat_t)
| FStat (d : fd) : sys (result errno stat_t)
| ReadLinkAt (d : fd) (p : path) : sys (result errno bytes)
| ReadDir (d : fd) : sys (result errno (list (result errno dirent_t)))
| Read (d : fd) (limit : N) : sys (result errno bytes)
| ReadToEnd (d : fd) : sys (result errno bytes).

Inductive prog (A : Type) : Type :=
| Ret (a : A)
| Call {R : Type} (s : sys R) (k : R -> prog A).
Arguments Ret {A} a.
Arguments Call {A R} s k.

Fixpoint prog_bind {A B} (p : prog A) (f : A -> prog B) : prog B :=
  match p with
  | Ret a => f a
  | Call s k => Call s (fun r => prog_bind (k r) f)
  end.
#[global] Instance prog_ret : MRet prog := @Ret.
#[global] Instance prog_mbind : MBind prog := fun A B f p => prog_bind p f.

Definition call {R} (s : sys R) : prog R := Call s Ret.

(** [?]: an error ends the program. *)
Definition try {E A B} (p : prog (result E A)) (f : A -> prog (result E B)) : prog (result E B) :=
  r ← p; match r with Ok a => f a | Err e => Ret (Err e) end.
Notation "x ←? p ; q" := (try p (fun x => q)) (at level 20, p at level 100, q at level 200, right associativity) : unbidden_scope.

(** ** Every call *)

Section calls.
(** What the kernel may answer, and what is claimed of a call. *)
Variable A : forall R, sys R -> R -> Prop.
Variable P : forall R, sys R -> Prop.

(** Every call a program can make satisfies [P], whatever is answered. *)
Fixpoint calls {T} (p : prog T) : Prop :=
  match p with
  | Ret _ => True
  | Call s k => P _ s /\ forall r, A _ s r -> calls (k r)
  end.

(** Every result a program can come to satisfies [Q]. *)
Fixpoint returns {T} (Q : T -> Prop) (p : prog T) : Prop :=
  match p with
  | Ret a => Q a
  | Call s k => forall r, A _ s r -> returns Q (k r)
  end.

(** Both, for the continuation may depend on the result. *)
Lemma calls_bind_returns {T U} (Q : T -> Prop) (p : prog T) (f : T -> prog U) :
  calls p -> returns Q p -> (forall a, Q a -> calls (f a)) -> calls (p ≫= f).
Proof.
  intros Hp Hr Hf. induction p as [a|R s k IH]; [by apply Hf|]. destruct Hp as [Hs Hk]. simpl in Hr.
  split; [done|]. intros r Ha. apply IH; auto.
Qed.

Lemma calls_bind {T U} (p : prog T) (f : T -> prog U) :
  calls p -> (forall a, calls (f a)) -> calls (p ≫= f).
Proof. intros Hp Hf. induction p as [a|R s k IH]; [apply Hf|]. destruct Hp as [Hs Hk]. split; auto. Qed.

Lemma calls_try {E T U} (p : prog (result E T)) (f : T -> prog (result E U)) :
  calls p -> (forall a, calls (f a)) -> calls (try p f).
Proof. intros Hp Hf. apply calls_bind; [done|]. by intros [a|e]. Qed.

Lemma calls_try_returns {E T U} (Q : T -> Prop) (p : prog (result E T)) (f : T -> prog (result E U)) :
  calls p -> returns (fun r => forall a, r = Ok a -> Q a) p -> (forall a, Q a -> calls (f a)) -> calls (try p f).
Proof. intros Hp Hr Hf. eapply calls_bind_returns; [done|exact Hr|]. intros [a|e] Ha; [by apply Hf, Ha|done]. Qed.

Lemma returns_bind {T U} (Q : T -> Prop) (Q' : U -> Prop) (p : prog T) (f : T -> prog U) :
  returns Q p -> (forall a, Q a -> returns Q' (f a)) -> returns Q' (p ≫= f).
Proof.
  intros Hp Hf. induction p as [a|R s k IH]; [by apply Hf|]. intros r Ha. apply IH. by apply Hp.
Qed.

Lemma returns_mono {T} (Q Q' : T -> Prop) (p : prog T) :
  (forall a, Q a -> Q' a) -> returns Q p -> returns Q' p.
Proof. intros H. induction p as [a|R s k IH]; simpl; auto. Qed.

Lemma returns_true {T} (p : prog T) : returns (fun _ => True) p.
Proof. induction p; simpl; auto. Qed.

Lemma returns_try {E T U} (Q : T -> Prop) (Q' : U -> Prop) (p : prog (result E T)) (f : T -> prog (result E U)) :
  returns (fun r => forall a, r = Ok a -> Q a) p ->
  (forall a, Q a -> returns (fun r => forall b, r = Ok b -> Q' b) (f a)) ->
  returns (fun r => forall b, r = Ok b -> Q' b) (try p f).
Proof.
  intros Hp Hf. eapply returns_bind; [exact Hp|]. intros [a|e] Ha; [by apply Hf, Ha|]. simpl. by intros b [=].
Qed.
End calls.

(** ** One moment *)

(** A kernel whose tree does not change answers each call one way. *)
Definition snapshot := forall R, sys R -> R.

Fixpoint run {A} (h : snapshot) (p : prog A) : A :=
  match p with
  | Ret a => a
  | Call s k => run h (k (h _ s))
  end.

Lemma run_bind {A B} h (p : prog A) (f : A -> prog B) : run h (p ≫= f) = run h (f (run h p)).
Proof. induction p as [a|R s k IH]; simpl; [done|apply IH]. Qed.

Lemma run_try {E A B} h (p : prog (result E A)) (f : A -> prog (result E B)) :
  run h (try p f) = match run h p with Ok a => run h (f a) | Err e => Err e end.
Proof. unfold try. rewrite run_bind. by destruct (run h p). Qed.

(** A snapshot that answers as the kernel may. *)
Definition answers (A : forall R, sys R -> R -> Prop) (h : snapshot) : Prop := forall R (s : sys R), A R s (h R s).

Lemma run_returns {T} A h (Q : T -> Prop) (p : prog T) : answers A h -> returns A Q p -> Q (run h p).
Proof. intros Ha. induction p as [a|R s k IH]; simpl; auto. Qed.

#[export] Hint Rewrite @run_bind @run_try : sys.

(** ** Loops *)

Fixpoint traverse {A B} (f : A -> prog B) (l : list A) : prog (list B) :=
  match l with
  | [] => Ret []
  | a :: l' => b ← f a; bs ← traverse f l'; Ret (b :: bs)
  end.

Fixpoint fold_prog {A S} (f : S -> A -> prog S) (s : S) (l : list A) : prog S :=
  match l with
  | [] => Ret s
  | a :: l' => s ← f s a; fold_prog f s l'
  end.

Lemma run_traverse {A B} h (f : A -> prog B) l : run h (traverse f l) = (fun a => run h (f a)) <$> l.
Proof. induction l as [|a l IH]; cbn [traverse]; [done|]. by rewrite !run_bind, IH. Qed.

Lemma run_fold_prog {A S} h (f : S -> A -> prog S) s l : run h (fold_prog f s l) = foldl (fun s a => run h (f s a)) s l.
Proof. revert s. induction l as [|a l IH]; intros s; cbn [fold_prog foldl]; [done|]. by rewrite run_bind, IH. Qed.
