(* ===== verification/Root.v ===== *)
(** [src/root.rs]: every access to the file system goes through a root.

    The operations are programs of system calls ([Sys]), so that what they
    never ask the kernel for can be proved for every answer it could give. *)

From S2P Require Import Prelude Slices Order Num Utf8 Paths Text Sys.

Definition READ_CAP : N := N.shiftl 1 20.
Definition MAX_RESOLVED_DEPTH : nat := 256.
Definition MAX_HOPS : nat := 40.

(** ** Metadata *)

Record meta := mk_meta {
  m_uid : N; m_gid : N; m_mode : N; m_size : N;
  m_mtime : option Z; m_ctime : option Z;
  m_is_dir : bool; m_is_symlink : bool; m_is_file : bool
}.

Definition perms (m : meta) : N := N.land (m_mode m) 4095.
Definition world_writable (m : meta) : bool := negb (bool_decide (N.land (m_mode m) 2 = 0%N)).

Definition S_IFMT : N := 0xF000.
Definition S_IFDIR : N := 0x4000.
Definition S_IFLNK : N := 0xA000.
Definition S_IFREG : N := 0x8000.
Definition has_type (mode ty : N) : bool := bool_decide (N.land mode S_IFMT = ty).

Definition clamp (lo hi n : Z) : Z := Z.max lo (Z.min hi n).
(** Nanoseconds since the epoch. *)
Definition time_at (secs nanos : Z) : Z := (secs * 1000000000 + clamp 0 999999999 nanos)%Z.

Definition meta_of (st : stat_t) : meta :=
  let mode := st_mode st in
  mk_meta (st_uid st) (st_gid st) mode (st_size st)
    (Some (time_at (st_mtime st) 0)) (Some (time_at (st_ctime st) (st_ctime_nsec st)))
    (negb (bool_decide (N.land mode S_IFDIR = 0%N)) && has_type mode S_IFDIR)
    (has_type mode S_IFLNK) (has_type mode S_IFREG).

Record dir_ent := mk_dir_ent { de_name : bytes; de_is_dir : bool; de_is_symlink : bool }.

(** ** Errors *)

Module Refusal.
Inductive refusal :=
| NotRegular (p : path)
| LeavesHome (link target : path).
Definition display (r : refusal) : bytes :=
  match r with
  | NotRegular p => from_utf8_lossy p ++ #" is not a regular file; not read"
  | LeavesHome link target =>
      from_utf8_lossy link ++ #" leads out of its owner's home to " ++ from_utf8_lossy target ++
      #"; recorded as a link, not followed"
  end.
End Refusal.
Export Refusal(refusal).

Inductive io_error :=
| Errno (n : errno)
| Refused (r : refusal).

Definition refusal_of (e : io_error) : option refusal :=
  match e with Refused r => Some r | Errno _ => None end.
(** [e.kind() == ErrorKind::NotFound]. *)
Definition is_not_found (e : io_error) : bool :=
  match e with Errno n => bool_decide (n = ENOENT) | Refused _ => false end.

Definition leaves_home (rel target : path) : io_error := Refused (Refusal.LeavesHome rel target).
Definition not_regular (rel : path) : io_error := Refused (Refusal.NotRegular rel).

Definition lift {A} (r : result errno A) : result io_error A :=
  match r with Ok a => Ok a | Err n => Err (Errno n) end.
Definition sys_call {A} (s : sys (result errno A)) : prog (result io_error A) := r ← call s; Ret (lift r).

(** ** Paths within the root *)

Definition normal_components (p : path) : list bytes :=
  omap (fun c => match c with Normal n => Some n | ParentDir => Some dotdot | _ => None end) (components p).

Fixpoint strip_slashes (fuel : nat) (p : path) : path :=
  match fuel with
  | 0 => p
  | S fuel' => match path_strip_prefix #"/" p with Some rest => strip_slashes fuel' rest | None => p end
  end.
(** A path that has been stripped is relative, so twice is enough. *)
Definition strip_leading_slash (p : path) : path := strip_slashes 2 p.

Record root := mk_root {
  r_fd : fd; r_base : path; r_live : bool; r_confined : bool; r_homes : list path
}.

Definition is_live (r : root) : bool := r_live r.
Definition abs (self : root) (rel : path) : path :=
  let rel := strip_leading_slash rel in
  if path_eqb (r_base self) #"/" then path_join #"/" rel else path_join (r_base self) rel.
Definition rel (self : root) (abs : path) : path :=
  strip_leading_slash (default abs (path_strip_prefix (r_base self) abs)).

Definition or_dot (rel : path) : path := if bool_decide (rel = []) then dot else rel.

(** ** Resolution *)

Record resolved := mk_resolved { rs_path : path; rs_links : nat; rs_planted : bool }.

(** [resolve_noting_links]'s loop. [left] is how many links may still be
    followed, [done] the components so far, [todo] those to come. *)
Fixpoint resolve_loop (r : root) (left : nat) : list bytes -> nat -> bool -> list bytes -> prog (result io_error resolved) :=
  fix go (done_ : list bytes) (links : nat) (planted : bool) (todo : list bytes) :=
    match todo with
    | [] => Ret (Ok (mk_resolved (path_collect done_) links planted))
    | c :: todo' =>
        if bool_decide (c = dotdot) then go (removelast done_) links planted todo'
        else if bool_decide (MAX_RESOLVED_DEPTH < length (done_ ++ [c])) then Ret (Err (Errno ENAMETOOLONG))
        else
          let here := path_collect (done_ ++ [c]) in
          st ←? sys_call (StatAt (r_fd r) here AT_SYMLINK_NOFOLLOW);
          let m := meta_of st in
          if negb (m_is_symlink m) then go (done_ ++ [c]) links planted todo'
          else
            let planted := planted || negb (bool_decide (m_uid m = 0%N)) in
            match left with
            | 0 => Ret (Err (Errno ELOOP))
            | S left' =>
                target ←? sys_call (ReadLinkAt (r_fd r) here);
                let done_ := if is_absolute target then [] else done_ in
                resolve_loop r left' done_ (links + 1) planted (normal_components target ++ todo')
            end
    end.

Definition resolve_noting_links (r : root) (rel : path) : prog (result io_error resolved) :=
  resolve_loop r MAX_HOPS [] 0 false (normal_components rel).
Definition resolve (r : root) (rel : path) : prog (result io_error path) :=
  x ←? resolve_noting_links r rel; Ret (Ok (rs_path x)).

(** ** Opening *)

Definition with_cloexec (fl : oflags) : oflags :=
  mk_oflags (O_PATH fl) (O_DIRECTORY fl) (O_NOFOLLOW fl) (O_NONBLOCK fl) (O_NOCTTY fl) true.
Definition with_nofollow (fl : oflags) : oflags :=
  mk_oflags (O_PATH fl) (O_DIRECTORY fl) true (O_NONBLOCK fl) (O_NOCTTY fl) (O_CLOEXEC fl).
Definition READ : oflags := mk_oflags false false false true true false.
Definition PATH_FLAGS : oflags := mk_oflags true false false false false false.
Definition PATH_DIR : oflags := mk_oflags true true false false false false.
Definition LIST_DIR : oflags := mk_oflags false true false false false false.
Definition STEP_FIRST : oflags := mk_oflags true true false false false true.
Definition STEP_NEXT : oflags := mk_oflags true true true false false true.

Fixpoint open_dirs (dir : fd) (dirs : list bytes) : prog (result io_error fd) :=
  match dirs with
  | [] => Ret (Ok dir)
  | part :: dirs' => dir ←? sys_call (OpenAt dir part STEP_NEXT); open_dirs dir dirs'
  end.

(** [Path::iter]: the components as names, [/], [.] and [..] included. *)
Definition path_iter (p : path) : list bytes :=
  (fun c => match c with
            | RootDir => #"/" | CurDir => dot | ParentDir => dotdot | Normal n => n
            end) <$> components p.

Definition open_resolved (r : root) (resolved : path) (flags : oflags) : prog (result io_error fd) :=
  let flags := with_cloexec flags in
  if r_confined r then
    sys_call (OpenAt2 (r_fd r) (or_dot resolved) flags (mk_resolve_flags true true true))
  else
    match last (path_iter resolved) with
    | None => sys_call (OpenAt (r_fd r) dot flags)
    | Some last_ =>
        dir ←? sys_call (OpenAt (r_fd r) dot STEP_FIRST);
        dir ←? open_dirs dir (removelast (path_iter resolved));
        f ←? sys_call (OpenAt dir last_ (with_nofollow flags));
        if O_PATH flags then
          st ←? sys_call (FStat f);
          if m_is_symlink (meta_of st) then Ret (Err (Errno ELOOP)) else Ret (Ok f)
        else Ret (Ok f)
    end.

Definition open_raw (r : root) (rel : path) (flags : oflags) : prog (result io_error fd) :=
  let rel := or_dot (strip_leading_slash rel) in
  let flags := with_cloexec flags in
  if r_confined r then sys_call (OpenAt2 (r_fd r) rel flags (mk_resolve_flags true false true))
  else if r_live r then sys_call (OpenAt (r_fd r) rel flags)
  else resolved ←? resolve r rel; open_resolved r resolved flags.

(** ** The home rule *)

Module Confinement.
Inductive confinement :=
| NoHome
| Inside (p : path)
| Escapes (target : path)
| Unresolvable (e : io_error).
End Confinement.
Export Confinement(confinement).

Definition in_home (self : root) (p : path) : bool :=
  let here := rel self (abs self p) in existsb (fun h => path_starts_with here (rel self h)) (r_homes self).

(** [Iterator::max_by_key] on the length: the last of the longest. *)
Definition longest (best : option path) (p : path) : option path :=
  match best with
  | Some b => if bool_decide (length b <= length p) then Some p else best
  | None => Some p
  end.

Definition home_of (self : root) (here : path) : option path :=
  foldl longest None (List.filter (path_starts_with here) (rel self <$> r_homes self)).

Definition confinement_of (self : root) (p : path) : prog confinement :=
  let here := rel self (abs self p) in
  match home_of self here with
  | None => Ret Confinement.NoHome
  | Some home =>
      x ← (real_home ←? resolve self home; x ←? resolve_noting_links self here; Ret (Ok (real_home, x)));
      Ret match x with
          | Err e => Confinement.Unresolvable e
          | Ok (real_home, x) =>
              if path_starts_with (rs_path x) real_home then Confinement.Inside (rs_path x)
              else if bool_decide (0 < rs_links x) && negb (rs_planted x)
                      && path_starts_with (normalize here) (normalize home)
              then Confinement.Inside (rs_path x)
              else Confinement.Escapes (path_join #"/" (rs_path x))
          end
  end.

Definition escaping_link (self : root) (p : path) : prog (option path) :=
  c ← confinement_of self p; Ret match c with Confinement.Escapes t => Some t | _ => None end.

Definition open_under (self : root) (conf : confinement) (p : path) (flags : oflags) : prog (result io_error fd) :=
  match conf with
  | Confinement.Unresolvable e => Ret (Err e)
  | Confinement.Escapes target => Ret (Err (leaves_home p target))
  | Confinement.Inside resolved => open_resolved self resolved flags
  | Confinement.NoHome => open_raw self p flags
  end.

Definition judge (self : root) (p : path) (describes_the_link : bool) : prog (result io_error unit) :=
  let judged := if describes_the_link then default [] (parent p) else p in
  c ← confinement_of self judged;
  Ret match c with
      | Confinement.Escapes target => Err (leaves_home p target)
      | Confinement.Unresolvable e => Err e
      | _ => Ok tt
      end.

(** ** Metadata and links *)

Definition statat_unjudged (self : root) (p : path) (nofollow : bool) : prog (result io_error meta) :=
  let p := or_dot (strip_leading_slash p) in
  let whole := sys_call (StatAt (r_fd self) p (if nofollow then AT_SYMLINK_NOFOLLOW else AT_FOLLOW)) in
  st ←? (if r_confined self || negb (r_live self) then
           if nofollow then
             match parent p, file_name p with
             | Some dir, Some name =>
                 d ←? open_raw self dir PATH_DIR;
                 sys_call (StatAt d name AT_SYMLINK_NOFOLLOW)
             | _, _ => whole
             end
           else
             f ←? open_raw self p PATH_FLAGS;
             sys_call (StatAt f [] AT_EMPTY_PATH)
         else whole);
  Ret (Ok (meta_of st)).

Definition statat (self : root) (p : path) (nofollow : bool) : prog (result io_error meta) :=
  _ ←? judge self p nofollow; statat_unjudged self p nofollow.
Definition stat (self : root) (p : path) := statat self p true.
Definition stat_follow (self : root) (p : path) := statat self p false.
Definition exists_ (self : root) (p : path) : prog bool := r ← stat self p; Ret (is_ok r).

Definition read_link (self : root) (p : path) : prog (result io_error path) :=
  let p := strip_leading_slash p in
  match parent p, file_name p with
  | Some dir, Some name =>
      if bool_decide (dir = []) then sys_call (ReadLinkAt (r_fd self) p)
      else
        c ← confinement_of self dir;
        d ←? open_under self c dir PATH_DIR;
        sys_call (ReadLinkAt d name)
  | _, _ => sys_call (ReadLinkAt (r_fd self) p)
  end.

(** ** Files *)

Definition open (self : root) (p : path) : prog (result io_error fd) :=
  conf ← confinement_of self p;
  let look := match conf with
              | Confinement.NoHome | Confinement.Inside _ =>
                  m ←? statat_unjudged self p false;
                  Ret (if m_is_file m then Ok tt else Err (not_regular p))
              | _ => Ret (Ok tt)
              end in
  _ ←? look;
  f ←? open_under self conf p READ;
  st ←? sys_call (FStat f);
  Ret (if m_is_file (meta_of st) then Ok f else Err (not_regular p)).

(** [Take] stops after [cap + 1] bytes. *)
Definition read_capped_from (f : fd) (cap : N) : prog (result io_error (bytes * bool)) :=
  buf ←? sys_call (Read f (cap + 1)%N);
  let buf := take_n (cap + 1) buf in
  Ret (Ok (take_n cap buf, (cap <? N.of_nat (length buf))%N)).

Definition read_capped (self : root) (p : path) (cap : N) : prog (result io_error (bytes * bool)) :=
  f ←? open self p; read_capped_from f cap.

(** ** Directories *)

Fixpoint read_entries (f : fd) (ents : list (result errno dirent_t)) (out : list dir_ent)
    : prog (result io_error (list dir_ent)) :=
  match ents with
  | [] => Ret (Ok out)
  | Err n :: _ => Ret (Err (Errno n))
  | Ok ent :: ents' =>
      let name := d_name ent in
      if bool_decide (name = dot) || bool_decide (name = dotdot) then read_entries f ents' out
      else
        match d_type ent with
        | DT_UNKNOWN =>
            st ← call (StatAt f name AT_SYMLINK_NOFOLLOW);
            let e := match st with
                     | Ok st => mk_dir_ent name (m_is_dir (meta_of st)) (m_is_symlink (meta_of st))
                     | Err _ => mk_dir_ent name false false
                     end in
            read_entries f ents' (out ++ [e])
        | DT_DIR => read_entries f ents' (out ++ [mk_dir_ent name true false])
        | DT_LNK => read_entries f ents' (out ++ [mk_dir_ent name false true])
        | DT_OTHER => read_entries f ents' (out ++ [mk_dir_ent name false false])
        end
  end.

Definition read_dir (self : root) (p : path) : prog (result io_error (list dir_ent)) :=
  c ← confinement_of self p;
  f ←? open_under self c p LIST_DIR;
  ents ←? sys_call (ReadDir f);
  out ←? read_entries f ents [];
  Ret (Ok (sort_by de_name out)).

Definition read_dir_optional (self : root) (p : path) : prog (result io_error (list dir_ent)) :=
  r ← read_dir self p;
  Ret match r with
      | Err e => if is_not_found e then Ok [] else r
      | Ok _ => r
      end.

Definition dir_identity (self : root) (p : path) : prog (result io_error (N * N)) :=
  let p := or_dot (strip_leading_slash p) in
  c ← confinement_of self p;
  f ←? open_under self c p PATH_DIR;
  st ←? sys_call (StatAt f [] AT_EMPTY_PATH);
  Ret (Ok (st_dev st, st_ino st)).

Definition probe_openat2 (f : fd) : prog bool :=
  r ← call (OpenAt2 f dot (with_cloexec LIST_DIR) (mk_resolve_flags true false true)); Ret (is_ok r).

(** ** Hidden paths *)

Definition CONVENTIONAL_DOT_DIRS : list bytes :=
  [ #".config"; #".local"; #".cache"; #".ssh"; #".var"; #".git"].

Definition is_hidden_path (p : path) : bool :=
  existsb (fun dir => path_starts_with p dir) [ #"/tmp"; #"/dev/shm"; #"/var/tmp"]
  || (let dirs := removelast (omap (fun c => match c with Normal n => Some n | _ => None end) (components p)) in
      existsb (fun n => starts_with #"." n && negb (bool_decide (n = dot)) && negb (mem n CONVENTIONAL_DOT_DIRS)) dirs).
