(* ===== verification/Tree.v ===== *)
(** A kernel made of a list of files: the concrete tree on which the
    witnesses and the examples run the programs of the library. *)

From S2P Require Import Prelude Slices Paths Sys Root.

Module Tree.
Inductive node :=
| File (uid : N) (mode : N) (content : bytes)
| Link (uid : N) (target : path)
| Dir (uid : N) (mode : N).

(** The files, each under its path in the root; the root itself is [[]]. *)
Abbreviation tree := (list (path * node)).

Definition times (t : Z) (mode uid size ino : N) : stat_t := mk_stat 1 ino mode uid uid size t t 0.
Definition stat_of (t : Z) (ino : N) (n : node) : stat_t :=
  match n with
  | File uid mode c => times t (N.lor S_IFREG mode) uid (N.of_nat (length c)) ino
  | Link uid target => times t (N.lor S_IFLNK 0x1FF) uid (N.of_nat (length target)) ino
  | Dir uid mode => times t (N.lor S_IFDIR mode) uid 0 ino
  end.

(** A descriptor is the place of its file in the list, the root's after all. *)
Definition root_fd : fd := 1000000%N.
Definition place (t : tree) (p : path) : option nat := position (fun e => bool_decide (fst e = p)) t.
Definition path_of (t : tree) (d : fd) : path :=
  if bool_decide (d = root_fd) then [] else default [] (fst <$> t !! N.to_nat d).
Definition under (dir p : path) : path :=
  if bool_decide (p = dot) || bool_decide (p = []) then dir
  else if bool_decide (dir = []) then p else dir ++ slash :: p.

Definition open_at (t : tree) (d : fd) (p : path) : result errno fd :=
  let q := under (path_of t d) p in
  if bool_decide (q = []) then Ok root_fd
  else match place t q with Some i => Ok (N.of_nat i) | None => Err ENOENT end.

Definition stat_at (t : tree) (d : fd) (p : path) : result errno stat_t :=
  let q := under (path_of t d) p in
  if bool_decide (q = []) then Ok (stat_of 0 0 (Dir 0 0x1ED))
  else match place t q with
       | Some i => Ok (stat_of (Z.of_nat i) (N.of_nat i + 1) (default (Dir 0 0) (snd <$> t !! i)))
       | None => Err ENOENT
       end.

Definition node_at (t : tree) (p : path) : option node := i ← place t p; snd <$> t !! i.

Definition content (t : tree) (d : fd) : result errno bytes :=
  match node_at t (path_of t d) with Some (File _ _ c) => Ok c | _ => Err 21%N end.

Definition dirent_of (n : node) (name : bytes) : dirent_t :=
  mk_dirent name match n with File _ _ _ => DT_OTHER | Link _ _ => DT_LNK | Dir _ _ => DT_DIR end.
Definition entries (t : tree) (dir : path) : list (result errno dirent_t) :=
  omap (fun e => match rsplit_once [slash] (fst e) with
                 | Some (d, n) => if bool_decide (d = dir) then Some (Ok (dirent_of (snd e) n)) else None
                 | None => if bool_decide (dir = []) then Some (Ok (dirent_of (snd e) (fst e))) else None
                 end) t.

(** The kernel of a tree that does not change. It follows no link itself: an
    offline root without [openat2] never asks it to. *)
Definition kernel (t : tree) : snapshot := fun R s =>
  match s in sys R return R with
  | Open _ _ => Ok root_fd
  | OpenAt d p _ => open_at t d p
  | OpenAt2 _ _ _ _ => Err 38%N
  | StatAt d p _ => stat_at t d p
  | FStat d => stat_at t d []
  | ReadLinkAt d p =>
      match node_at t (under (path_of t d) p) with
      | Some (Link _ target) => Ok target
      | Some _ => Err EINVAL
      | None => Err ENOENT
      end
  | ReadDir d => Ok (entries t (path_of t d))
  | Read d n => match content t d with Ok c => Ok (take_n n c) | Err e => Err e end
  | ReadToEnd d => content t d
  end.

Definition at_homes (homes : list path) : root := mk_root root_fd #"/mnt" false false homes.
Definition offline : root := at_homes [].
End Tree.

(** ** What the tests of [src/root.rs] say, on trees *)

Module RootExamples.
Definition image : Tree.tree :=
  [( #"etc", Tree.Dir 0 0x1ED); ( #"etc/real", Tree.File 0 0x1A4 #"x"); ( #"etc/shadow", Tree.File 0 0x180 #"s");
   ( #"etc/out", Tree.Link 0 #"/etc/real"); ( #"etc/up", Tree.Link 0 #"../../../etc/real");
   ( #"etc/loop", Tree.Link 0 #"loop");
   ( #"home", Tree.Dir 0 0x1ED); ( #"home/a", Tree.Dir 1000 0x1ED);
   ( #"home/a/.bashrc", Tree.Link 1000 #"/etc/shadow"); ( #"home/a/own", Tree.File 1000 0x1A4 #"mine");
   ( #"home/a/link", Tree.Link 1000 #"own")].
Definition r : root := Tree.at_homes [ #"/home/a"].
Definition h : snapshot := Tree.kernel image.
End RootExamples.

Example absolute_links_stay_in_the_root :
  run RootExamples.h (read_capped RootExamples.r #"etc/out" 10) = Ok (#"x", false).
Proof. by vm_compute. Qed.
Example dotdot_stops_at_the_root :
  run RootExamples.h (read_capped RootExamples.r #"etc/up" 10) = Ok (#"x", false).
Proof. by vm_compute. Qed.
Example a_loop_ends :
  run RootExamples.h (read_capped RootExamples.r #"etc/loop" 10) = Err (Errno ELOOP).
Proof. by vm_compute. Qed.
Example a_link_out_of_a_home_is_refused :
  run RootExamples.h (read_capped RootExamples.r #"home/a/.bashrc" 10) =
    Err (leaves_home #"home/a/.bashrc" #"/etc/shadow").
Proof. by vm_compute. Qed.
Example a_link_within_a_home_is_read :
  run RootExamples.h (read_capped RootExamples.r #"home/a/link" 10) = Ok (#"mine", false).
Proof. by vm_compute. Qed.
Example a_directory_is_no_file :
  run RootExamples.h (read_capped RootExamples.r #"etc" 10) = Err (not_regular #"etc").
Proof. by vm_compute. Qed.
