(* ===== verification/RootLaws.v ===== *)
(** [src/root.rs], its promises: what is never asked of the kernel, whatever
    it answers; where a resolution ends; the home rule; the bounds of a
    read. *)

From S2P Require Import Prelude Slices Order Num Utf8 Paths Text Sys Root.

(** ** What the kernel may answer *)

(** A directory's entries are names, [.] or [..]. *)
Definition plausible {R} (s : sys R) : R -> Prop :=
  match s in sys R return R -> Prop with
  | ReadDir _ => fun r => forall ents e, r = Ok ents -> Ok e ∈ ents ->
      name_ok (d_name e) \/ d_name e = dot \/ d_name e = dotdot
  | _ => fun _ => True
  end.
Definition Answers : forall R, sys R -> R -> Prop := fun R s r => @plausible R s r.

(** A path of plain names: relative, no [.], no [..]. *)
Definition plain_path (p : path) : Prop := exists ns, p = join_pieces ns /\ Forall name_ok ns.

(** A call that is not sent out of the tree below its descriptor: what is
    opened by [openat2] is confined by the kernel, what is opened by [openat]
    is one name that is not followed, and a status or a link is asked for by
    plain names, the last of them not followed. *)
Definition contained {R} (s : sys R) : Prop :=
  match s with
  | Open _ _ => False
  | OpenAt _ p fl => p = dot \/ (name_ok p /\ O_NOFOLLOW fl = true)
  | OpenAt2 _ _ _ rf => IN_ROOT rf = true /\ NO_MAGICLINKS rf = true
  | StatAt _ p fl => (p = [] /\ fl = AT_EMPTY_PATH) \/ (plain_path p /\ fl = AT_SYMLINK_NOFOLLOW)
  | ReadLinkAt _ p => plain_path p
  | FStat _ | ReadDir _ | Read _ _ | ReadToEnd _ => True
  end.
Definition Contained : forall R, sys R -> Prop := @contained.

(** A call that does not give a readable descriptor through a link. *)
Definition link_free {R} (s : sys R) : Prop :=
  match s with
  | OpenAt _ p fl => p = dot \/ O_PATH fl = true \/ O_NOFOLLOW fl = true
  | OpenAt2 _ _ fl rf => O_PATH fl = true \/ NO_SYMLINKS rf = true
  | _ => True
  end.
Definition LinkFree : forall R, sys R -> Prop := @link_free.

(** ** Resolution *)

Definition step_ok (n : bytes) : Prop := n = dotdot \/ name_ok n.

Lemma normal_components_ok p : Forall step_ok (normal_components p).
Proof.
  apply Forall_forall. intros n Hn. unfold normal_components in Hn. apply list_elem_of_omap in Hn as (c & Hc & E).
  destruct c; try done; injection E as <-; [by left|right]. by eapply components_normal_ok.
Qed.

Lemma resolve_loop_cons r left done_ links planted c todo :
  resolve_loop r left done_ links planted (c :: todo) =
  if bool_decide (c = dotdot) then resolve_loop r left (removelast done_) links planted todo
  else if bool_decide (MAX_RESOLVED_DEPTH < length (done_ ++ [c])) then Ret (Err (Errno ENAMETOOLONG))
  else
    st ←? sys_call (StatAt (r_fd r) (path_collect (done_ ++ [c])) AT_SYMLINK_NOFOLLOW);
    if negb (m_is_symlink (meta_of st)) then resolve_loop r left (done_ ++ [c]) links planted todo
    else
      match left with
      | 0 => Ret (Err (Errno ELOOP))
      | S left' =>
          target ←? sys_call (ReadLinkAt (r_fd r) (path_collect (done_ ++ [c])));
          resolve_loop r left' (if is_absolute target then [] else done_) (links + 1)
            (planted || negb (bool_decide (m_uid (meta_of st) = 0%N))) (normal_components target ++ todo)
      end.
Proof. by destruct left. Qed.

Lemma resolve_loop_nil r left done_ links planted :
  resolve_loop r left done_ links planted [] = Ret (Ok (mk_resolved (path_collect done_) links planted)).
Proof. by destruct left. Qed.

Lemma removelast_take {A} (l : list A) : removelast l = take (length l - 1) l.
Proof.
  induction l as [|x l IH]; [done|]. destruct l as [|y l]; [done|].
  change (removelast (x :: y :: l)) with (x :: removelast (y :: l)). rewrite IH. cbn. by rewrite Nat.sub_0_r.
Qed.

Lemma calls_sys A (P : forall R, sys R -> Prop) {T} (s : sys (result errno T)) : P _ s -> calls A P (sys_call s).
Proof. intros H. by split. Qed.

Lemma returns_any A {E T} (p : prog (result E T)) : returns A (fun r => forall a, r = Ok a -> True) p.
Proof. eapply returns_mono; [|apply returns_true]. done. Qed.

Definition plain_names (r : result io_error resolved) : Prop :=
  forall x, r = Ok x -> exists ns, rs_path x = join_pieces ns /\ Forall name_ok ns /\ length ns <= MAX_RESOLVED_DEPTH.

Lemma resolve_loop_contained r left done_ links planted todo :
  Forall name_ok done_ -> length done_ <= MAX_RESOLVED_DEPTH -> Forall step_ok todo ->
  calls Answers Contained (resolve_loop r left done_ links planted todo) /\
  returns Answers plain_names (resolve_loop r left done_ links planted todo).
Proof.
  revert done_ links planted todo. induction left as [|left IHl]; intros done_ links planted todo Hd Hl Ht;
    revert done_ links planted Hd Hl; induction Ht as [|c todo Hc Ht IH]; intros done_ links planted Hd Hl.
  1, 3: rewrite resolve_loop_nil; split; [done|]; intros x [= <-]; exists done_; cbn;
    by rewrite path_collect_names.
  all: rewrite resolve_loop_cons; case_bool_decide as Hdd;
    [apply IH; [rewrite removelast_take; by apply Forall_take|rewrite removelast_take, length_take; lia]|].
  all: case_bool_decide as Hlen; [by split|].
  all: assert (Hc' : name_ok c) by (by destruct Hc).
  all: assert (Hd' : Forall name_ok (done_ ++ [c])) by (by apply names_snoc).
  all: assert (Hp : plain_path (path_collect (done_ ++ [c])))
    by (exists (done_ ++ [c]); by rewrite path_collect_names).
  all: split; [apply calls_try; [apply calls_sys; by right|intros st]|
    eapply returns_try; [apply returns_any|intros st _]]; case_match; try done; try (apply IH; [done|lia]).
  - apply calls_try; [by apply calls_sys|]. intros target. apply IHl.
    + by case_match.
    + case_match; simpl; lia.
    + apply Forall_app. split; [apply normal_components_ok|done].
  - eapply returns_try; [apply returns_any|]. intros target _. apply IHl.
    + by case_match.
    + case_match; simpl; lia.
    + apply Forall_app. split; [apply normal_components_ok|done].
Qed.

Lemma resolve_noting_contained r p :
  calls Answers Contained (resolve_noting_links r p) /\ returns Answers plain_names (resolve_noting_links r p).
Proof. apply resolve_loop_contained; [constructor|simpl; lia|apply normal_components_ok]. Qed.

Lemma resolve_contained r p :
  calls Answers Contained (resolve r p) /\
  returns Answers (fun x => forall q, x = Ok q -> plain_path q) (resolve r p).
Proof.
  destruct (resolve_noting_contained r p) as [Hc Hr]. split.
  - apply calls_try; [done|]. done.
  - eapply returns_try; [exact Hr|]. intros x (ns & E & Hn & _) q [= <-]. by exists ns.
Qed.

(** ** Opening *)

Lemma open_dirs_calls (P : forall R, sys R -> Prop) dir dirs :
  (forall d part, part ∈ dirs -> P _ (OpenAt d part STEP_NEXT)) -> calls Answers P (open_dirs dir dirs).
Proof.
  revert dir. induction dirs as [|part dirs IH]; intros dir H; cbn [open_dirs]; [done|].
  apply calls_try; [apply calls_sys, H; by left|]. intros d. apply IH. intros d' q Hq. apply H. by right.
Qed.

Lemma path_iter_plain ns : Forall name_ok ns -> path_iter (join_pieces ns) = ns.
Proof.
  intros H. unfold path_iter. rewrite components_names by done. rewrite <- list_fmap_compose.
  apply list_fmap_id.
Qed.

Lemma open_resolved_contained r p flags : plain_path p -> calls Answers Contained (open_resolved r p flags).
Proof.
  intros (ns & -> & Hn). unfold open_resolved. destruct (r_confined r); [by apply calls_sys|].
  rewrite path_iter_plain by done. destruct (last ns) as [n|] eqn:El; [|by apply calls_sys; left].
  assert (Hin : forall m, m ∈ ns -> name_ok m) by (by apply Forall_forall).
  apply calls_try; [by apply calls_sys; left|]. intros dir. apply calls_try.
  - apply open_dirs_calls. intros d part Hp. right. split; [|done]. apply Hin.
    rewrite removelast_take in Hp. by eapply elem_of_take in Hp as (i & Hi & _);
      eapply list_elem_of_lookup_2.
  - intros dir2. apply calls_try.
    + apply calls_sys. right. split; [|done]. apply Hin. apply last_Some in El as [l ->].
      apply elem_of_app. right. by left.
    + intros f. destruct (O_PATH _); [|done]. apply calls_try; [by apply calls_sys|].
      intros st. by case_match.
Qed.

(** The root is not the running system's, or the kernel has [openat2]. *)
Definition offline (r : root) : Prop := r_confined r = true \/ r_live r = false.

Lemma open_raw_contained r p flags : offline r -> calls Answers Contained (open_raw r p flags).
Proof.
  intros Ho. unfold open_raw. destruct (r_confined r) eqn:Ec; [by apply calls_sys|].
  destruct (r_live r) eqn:El; [by destruct Ho; congruence|].
  destruct (resolve_contained r (or_dot (strip_leading_slash p))) as [Hc Hr].
  eapply calls_try_returns; [exact Hc|exact Hr|]. intros q Hq. by apply open_resolved_contained.
Qed.

Definition conf_plain (c : confinement) : Prop :=
  match c with Confinement.Inside p => plain_path p | _ => True end.

Lemma confinement_contained self p :
  calls Answers Contained (confinement_of self p) /\ returns Answers conf_plain (confinement_of self p).
Proof.
  unfold confinement_of. destruct (home_of _ _) as [home|]; [|done].
  destruct (resolve_contained self home) as [Hc1 _].
  destruct (resolve_noting_contained self (rel self (abs self p))) as [Hc2 Hr2]. split.
  - apply calls_bind; [|done]. apply calls_try; [done|]. intros h. apply calls_try; [done|]. done.
  - eapply returns_bind with
      (Q := fun x => forall y, x = Ok y -> exists ns, rs_path (snd y) = join_pieces ns /\ Forall name_ok ns).
    + eapply returns_try; [apply returns_any|]. intros h _. eapply returns_try; [exact Hr2|].
      intros x (ns & E & Hn & _) y [= <-]. by exists ns.
    + intros [[rh x]|e] Hx; cbn; [|done]. destruct (Hx _ eq_refl) as (ns & E & Hn). cbn in E.
      repeat case_match; cbn; try done; by exists ns.
Qed.

Lemma open_under_contained self c p flags :
  offline self -> conf_plain c -> calls Answers Contained (open_under self c p flags).
Proof.
  intros Ho Hc. destruct c; try done; cbn; [by apply open_raw_contained|by apply open_resolved_contained].
Qed.

Lemma stat_follow_contained self p : offline self -> calls Answers Contained (statat_unjudged self p false).
Proof.
  intros Ho. unfold statat_unjudged.
  assert (r_confined self || negb (r_live self) = true) as -> by (destruct Ho as [-> | ->]; [done|by rewrite orb_true_r]).
  apply calls_try; [|done]. apply calls_try; [by apply open_raw_contained|]. intros f.
  apply calls_sys. by left.
Qed.

Lemma plain_name n : name_ok n -> plain_path n.
Proof. intros H. exists [n]. split; [done|by apply Forall_singleton]. Qed.

Lemma open_contained self p : offline self -> calls Answers Contained (open self p).
Proof.
  intros Ho. destruct (confinement_contained self p) as [Hc Hr]. unfold open.
  eapply calls_bind_returns; [exact Hc|exact Hr|]. intros conf Hconf. apply calls_try.
  - destruct conf; try done; (apply calls_try; [by apply stat_follow_contained|done]).
  - intros _. apply calls_try; [by apply open_under_contained|]. intros f. apply calls_try; [by apply calls_sys|].
    done.
Qed.

Definition entry_names (r : result io_error (list (result errno dirent_t))) : Prop :=
  forall ents, r = Ok ents -> forall e, Ok e ∈ ents -> name_ok (d_name e) \/ d_name e = dot \/ d_name e = dotdot.

Lemma read_dir_returns f : returns Answers entry_names (sys_call (ReadDir f)).
Proof. intros r Hr. destruct r as [ents|n]; simpl; [|by intros ents [=]]. intros ents' [= <-] e He. by eapply Hr. Qed.

Lemma read_entries_contained f ents out :
  (forall e, Ok e ∈ ents -> name_ok (d_name e) \/ d_name e = dot \/ d_name e = dotdot) ->
  calls Answers Contained (read_entries f ents out).
Proof.
  revert out. induction ents as [|[e|n] ents IH]; intros out H; cbn [read_entries]; [done| |done].
  assert (H' : forall e, Ok e ∈ ents -> name_ok (d_name e) \/ d_name e = dot \/ d_name e = dotdot)
    by (intros e' He'; apply H; by right).
  destruct (bool_decide (d_name e = dot) || bool_decide (d_name e = dotdot)) eqn:Ed; [by apply IH|].
  destruct (d_type e); [|by apply IH..].
  apply calls_bind; [|by intros st; apply IH]. split; [|done]. right. split; [|done]. apply plain_name.
  apply orb_false_iff in Ed as [E1%bool_decide_eq_false E2%bool_decide_eq_false].
  destruct (H e ltac:(by left)) as [?|[?|?]]; done.
Qed.

Lemma read_dir_contained self p : offline self -> calls Answers Contained (read_dir self p).
Proof.
  intros Ho. destruct (confinement_contained self p) as [Hc Hr]. unfold read_dir.
  eapply calls_bind_returns; [exact Hc|exact Hr|]. intros conf Hconf.
  apply calls_try; [by apply open_under_contained|]. intros f.
  eapply calls_try_returns with
    (Q := fun ents => forall e, Ok e ∈ ents -> name_ok (d_name e) \/ d_name e = dot \/ d_name e = dotdot);
    [by apply calls_sys|eapply returns_mono; [|apply read_dir_returns]; done|].
  intros ents He. apply calls_try; [by apply read_entries_contained|done].
Qed.

Lemma read_capped_contained self p cap : offline self -> calls Answers Contained (read_capped self p cap).
Proof.
  intros Ho. apply calls_try; [by apply open_contained|]. intros f. apply calls_try; [by apply calls_sys|done].
Qed.

Lemma judge_contained self p b : offline self -> calls Answers Contained (judge self p b).
Proof. intros Ho. apply calls_bind; [apply confinement_contained|done]. Qed.

Lemma file_name_ok p n : file_name p = Some n -> name_ok n.
Proof.
  unfold file_name. destruct (last (components p)) as [[]|] eqn:E; try done. intros [= <-].
  apply (components_normal_ok p). apply last_Some in E as [l ->]. apply elem_of_app. right. by left.
Qed.

Lemma stat_contained self p :
  offline self -> is_Some (parent (or_dot (strip_leading_slash p))) ->
  is_Some (file_name (or_dot (strip_leading_slash p))) -> calls Answers Contained (stat self p).
Proof.
  intros Ho [dir Hd] [name Hn]. unfold stat, statat.
  apply calls_try; [by apply judge_contained|]. intros _. unfold statat_unjudged.
  assert (r_confined self || negb (r_live self) = true) as -> by (destruct Ho as [-> | ->]; [done|by rewrite orb_true_r]).
  rewrite Hd, Hn. apply calls_try; [|done]. apply calls_try; [by apply open_raw_contained|]. intros d.
  apply calls_sys. right. split; [|done]. apply plain_name. by apply file_name_ok in Hn.
Qed.

(** ** No readable descriptor through a link, in a home *)

Lemma resolve_loop_link_free A r left done_ links planted todo :
  calls A LinkFree (resolve_loop r left done_ links planted todo).
Proof.
  revert done_ links planted todo. induction left as [|left IHl]; intros done_ links planted todo;
    revert done_ links planted; induction todo as [|c todo IH]; intros done_ links planted.
  1, 3: by rewrite resolve_loop_nil.
  all: rewrite resolve_loop_cons; case_bool_decide; [apply IH|]; case_bool_decide; [done|].
  all: apply calls_try; [by apply calls_sys|]; intros st; case_match; [apply IH|].
  - done.
  - apply calls_try; [by apply calls_sys|]. intros target. apply IHl.
Qed.

Lemma resolve_link_free A r p : calls A LinkFree (resolve r p).
Proof. apply calls_try; [apply resolve_loop_link_free|done]. Qed.

Lemma open_resolved_link_free A r p flags : calls A LinkFree (open_resolved r p flags).
Proof.
  unfold open_resolved. destruct (r_confined r); [apply calls_sys; by right|].
  destruct (last (path_iter p)) as [n|]; [|apply calls_sys; by left].
  apply calls_try; [apply calls_sys; by left|]. intros dir. apply calls_try.
  - clear. generalize (removelast (path_iter p)) as dirs. intros dirs. revert dir.
    induction dirs as [|q dirs IH]; intros dir; cbn [open_dirs]; [done|].
    apply calls_try; [apply calls_sys; right; by left|]. intros d. apply IH.
  - intros dir2. apply calls_try; [apply calls_sys; right; by right|].
    intros f. destruct (O_PATH _); [|done]. apply calls_try; [by apply calls_sys|]. intros st. by case_match.
Qed.

Lemma open_raw_path_link_free A r p flags : O_PATH flags = true -> calls A LinkFree (open_raw r p flags).
Proof.
  intros Hf. unfold open_raw. destruct (r_confined r); [apply calls_sys; by left|].
  destruct (r_live r); [apply calls_sys; right; by left|].
  apply calls_try; [apply resolve_link_free|]. intros q. apply open_resolved_link_free.
Qed.

Lemma stat_follow_link_free A self p : calls A LinkFree (statat_unjudged self p false).
Proof.
  unfold statat_unjudged. apply calls_try; [|done]. case_match; [|by apply calls_sys].
  apply calls_try; [by apply open_raw_path_link_free|]. intros f. by apply calls_sys.
Qed.

Lemma confinement_link_free A self p : calls A LinkFree (confinement_of self p).
Proof.
  unfold confinement_of. destruct (home_of _ _); [|done]. apply calls_bind; [|done].
  apply calls_try; [apply resolve_link_free|]. intros h. apply calls_try; [apply resolve_loop_link_free|done].
Qed.

Lemma confinement_in_home A self p :
  is_Some (home_of self (rel self (abs self p))) ->
  returns A (fun c => c <> Confinement.NoHome) (confinement_of self p).
Proof.
  intros [home Hh]. unfold confinement_of. rewrite Hh.
  eapply returns_bind; [apply returns_true|]. intros [[rh x]|e] _; cbn; [|done]. by repeat case_match.
Qed.

Lemma open_under_link_free A self c p flags :
  c <> Confinement.NoHome -> calls A LinkFree (open_under self c p flags).
Proof. intros Hc. destruct c; try done. apply open_resolved_link_free. Qed.

(** ** One moment: where a resolution ends *)

Definition real (h : snapshot) (r : root) (p : path) : Prop :=
  exists st, h _ (StatAt (r_fd r) p AT_SYMLINK_NOFOLLOW) = Ok st /\ m_is_symlink (meta_of st) = false.
(** Every directory on the way, and the end, is there and is no link. *)
Definition walked (h : snapshot) (r : root) (ns : list bytes) : Prop :=
  forall i, 0 < i -> i <= length ns -> real h r (join_pieces (take i ns)).

Lemma walked_take h r ns n : walked h r ns -> walked h r (take n ns).
Proof.
  intros H i Hi Hl. rewrite length_take in Hl. rewrite take_take. replace (i `min` n) with i by lia. apply H; lia.
Qed.

Lemma walked_snoc h r ns c : walked h r ns -> real h r (join_pieces (ns ++ [c])) -> walked h r (ns ++ [c]).
Proof.
  intros H Hc i Hi Hl. rewrite length_app in Hl. cbn in Hl. destruct (decide (i = length ns + 1)) as [->|].
  - rewrite take_ge by (rewrite length_app; cbn; lia). done.
  - rewrite take_app_le by lia. apply H; lia.
Qed.

Lemma run_sys {T} h (s : sys (result errno T)) : run h (sys_call s) = lift (h _ s).
Proof. done. Qed.

Lemma resolve_loop_walked h r left done_ links planted todo x :
  Forall name_ok done_ -> length done_ <= MAX_RESOLVED_DEPTH -> Forall step_ok todo -> walked h r done_ ->
  run h (resolve_loop r left done_ links planted todo) = Ok x ->
  exists ns, rs_path x = join_pieces ns /\ Forall name_ok ns /\ length ns <= MAX_RESOLVED_DEPTH /\ walked h r ns.
Proof.
  revert done_ links planted todo. induction left as [|left IHl]; intros done_ links planted todo Hd Hn Ht Hw;
    revert done_ links planted Hd Hn Hw; induction Ht as [|c todo Hc Ht IH]; intros done_ links planted Hd Hn Hw.
  1, 3: rewrite resolve_loop_nil; cbn; intros [= <-]; exists done_; by rewrite path_collect_names.
  all: rewrite resolve_loop_cons; case_bool_decide as Hdd;
    [rewrite removelast_take; apply IH; [by apply Forall_take|rewrite length_take; lia|by apply walked_take]|].
  all: case_bool_decide as Hlen; [done|].
  all: assert (Hc' : name_ok c) by (by destruct Hc).
  all: assert (Hd' : Forall name_ok (done_ ++ [c])) by (by apply names_snoc).
  all: rewrite path_collect_names by done.
  all: rewrite run_try, run_sys; destruct (h _ (StatAt _ _ _)) as [st|e] eqn:Est; [|done]; cbn [lift];
    destruct (m_is_symlink (meta_of st)) eqn:El; cbn [negb];
    [|apply IH; [done|lia|]; apply walked_snoc; [done|]; by exists st].
  - done.
  - rewrite run_try, run_sys. destruct (h _ (ReadLinkAt _ _)) as [t|e]; [|done]. cbn [lift]. apply IHl.
    + by case_match.
    + case_match; simpl; lia.
    + apply Forall_app. split; [apply normal_components_ok|done].
    + case_match; [|done]. intros i Hi Hl. simpl in Hl. lia.
Qed.

Lemma resolve_noting_walked h r p x :
  run h (resolve_noting_links r p) = Ok x ->
  exists ns, rs_path x = join_pieces ns /\ Forall name_ok ns /\ length ns <= MAX_RESOLVED_DEPTH /\ walked h r ns.
Proof.
  apply resolve_loop_walked; [constructor|simpl; lia|apply normal_components_ok|].
  intros i Hi Hl. simpl in Hl. lia.
Qed.

Lemma run_resolve h r p : run h (resolve r p) =
  match run h (resolve_noting_links r p) with Ok x => Ok (rs_path x) | Err e => Err e end.
Proof. unfold resolve. by rewrite run_try. Qed.

(** A path with no links on it resolves to itself. *)
Lemma resolve_loop_plain h r left ns done_ links planted :
  Forall name_ok (done_ ++ ns) -> length (done_ ++ ns) <= MAX_RESOLVED_DEPTH ->
  walked h r (done_ ++ ns) ->
  run h (resolve_loop r left done_ links planted ns) = Ok (mk_resolved (join_pieces (done_ ++ ns)) links planted).
Proof.
  revert done_. induction ns as [|n ns IH]; intros done_ Hn Hl Hw.
  - rewrite resolve_loop_nil, app_nil_r in *. cbn. by rewrite path_collect_names.
  - rewrite resolve_loop_cons.
    assert (name_ok n) as Hok by (by apply Forall_app in Hn as [_ [? _]%Forall_cons]).
    rewrite (bool_decide_false (n = dotdot)) by apply Hok.
    rewrite cons_middle, app_assoc in Hn, Hl, Hw.
    rewrite bool_decide_false by (rewrite !length_app in *; cbn in *; lia).
    assert (Hd : Forall name_ok (done_ ++ [n])) by (by apply Forall_app in Hn as [? _]).
    destruct (Hw (length (done_ ++ [n]))) as (st & Hst & Hl0); [rewrite length_app; cbn; lia|rewrite !length_app; cbn; lia|].
    rewrite take_app_length in Hst.
    rewrite run_try, run_sys, path_collect_names, Hst by done. cbn [lift]. rewrite Hl0. cbn [negb].
    rewrite IH by done. by rewrite <- app_assoc.
Qed.

(** ** Listing and reading *)

Definition not_dots (n : bytes) : bool := negb (bool_decide (n = dot) || bool_decide (n = dotdot)).

Lemma run_read_entries h f ents out res :
  run h (read_entries f ents out) = Ok res ->
  exists ds, ents = Ok <$> ds /\ de_name <$> res = (de_name <$> out) ++ List.filter not_dots (d_name <$> ds).
Proof.
  revert out. induction ents as [|[e|n] ents IH]; intros out; cbn [read_entries].
  - intros [= <-]. exists []. by rewrite app_nil_r.
  - intros H.
    assert (exists out', run h (read_entries f ents out') = Ok res /\
      de_name <$> out' = (de_name <$> out) ++ List.filter not_dots [d_name e]) as (out' & Hrun & Hn).
    { unfold List.filter, not_dots.
      destruct (bool_decide (d_name e = dot) || bool_decide (d_name e = dotdot)); cbn [negb].
      - exists out. by rewrite app_nil_r.
      - destruct (d_type e); [rewrite run_bind in H|..]; (eexists; split; [exact H|]); rewrite fmap_app; [|done..].
        f_equal. by case_match. }
    destruct (IH out' Hrun) as (ds & -> & E). exists (e :: ds). split; [done|].
    rewrite E, Hn, <- app_assoc, <- List.filter_app. done.
  - done.
Qed.

Lemma run_open h self p f :
  run h (open self p) = Ok f -> exists st, h _ (FStat f) = Ok st /\ m_is_file (meta_of st) = true.
Proof.
  unfold open. rewrite run_bind. rewrite run_try. destruct (run h _) as [u|e]; [|done].
  rewrite run_try. destruct (run h _) as [f'|e]; [|done]. rewrite run_try, run_sys.
  destruct (h _ (FStat f')) as [st|e] eqn:E; [|done]. cbn. case_match; [|done]. intros [= <-]. by exists st.
Qed.

(** ** Properties *)

(** C19. A resolution that succeeds ends in the root, at a path of plain names
    no deeper than the bound, every directory of which, and the end itself,
    is there and is no symbolic link; resolving it again changes nothing. *)
Theorem resolve_real h r p q :
  run h (resolve r p) = Ok q ->
  exists ns, q = join_pieces ns /\ Forall name_ok ns /\ length ns <= MAX_RESOLVED_DEPTH /\
    walked h r ns /\ run h (resolve r q) = Ok q.
Proof.
  rewrite run_resolve. destruct (run h _) as [x|e] eqn:E; [|done]. intros [= <-].
  apply resolve_noting_walked in E as (ns & -> & Hn & Hl & Hw). exists ns. split_and!; try done.
  rewrite run_resolve. unfold resolve_noting_links.
  replace (normal_components (join_pieces ns)) with ns; [by rewrite resolve_loop_plain|].
  unfold normal_components. rewrite components_names by done. clear. induction ns; [done|]. cbn. by f_equal.
Qed.


(** The exception: the status of a path that ends in [..] is asked of the
    kernel whole, even under a confined offline root, and a link on the way
    takes it out of the root. *)
Theorem stat_dotdot_unconfined f base : ~ calls Answers Contained (stat (mk_root f base false true []) #"link/..").
Proof.
  intros [[[[=] _]|[(ns & E & Hn) _]] _]. assert (components #"link/.." = components (join_pieces ns)) as Hc by (by rewrite <- E).
  rewrite components_names in Hc by done. destruct ns as [|a [|b ns]]; vm_compute in Hc; simplify_eq.
Qed.

(** A path under a home is never opened for reading through a link,
    whatever the kernel answers; one that leads out of the home, or cannot be
    resolved, is neither opened, listed nor stated, and the error says which;
    and one that is inside is at a real path that is under the home's own
    real path, unless every link on it is root's and it is the home's by its
    own spelling. *)
Theorem home_rule self p (Hh : is_Some (home_of self (rel self (abs self p)))) :
  (forall A, calls A LinkFree (open self p)) /\
  (forall h, match run h (confinement_of self p) with
             | Confinement.NoHome => False
             | Confinement.Escapes t =>
                 run h (open self p) = Err (leaves_home p t) /\ run h (read_dir self p) = Err (leaves_home p t) /\
                 run h (stat_follow self p) = Err (leaves_home p t)
             | Confinement.Unresolvable e =>
                 run h (open self p) = Err e /\ run h (read_dir self p) = Err e /\ run h (stat_follow self p) = Err e
             | Confinement.Inside q =>
                 exists ns home real_home x, q = join_pieces ns /\ walked h self ns /\
                   home_of self (rel self (abs self p)) = Some home /\ run h (resolve self home) = Ok real_home /\
                   run h (resolve_noting_links self (rel self (abs self p))) = Ok x /\ rs_path x = q /\
                   (path_starts_with q real_home = true \/
                    rs_planted x = false /\
                    path_starts_with (normalize (rel self (abs self p))) (normalize home) = true)
             end).
Proof.
  split.
  - intros A. unfold open. eapply calls_bind_returns; [apply confinement_link_free|by apply confinement_in_home|].
    intros conf Hc. apply calls_try.
    + destruct conf; try done; (apply calls_try; [apply stat_follow_link_free|done]).
    + intros _. apply calls_try; [by apply open_under_link_free|]. intros f. by apply calls_try; [apply calls_sys|].
  - intros h. destruct (run h (confinement_of self p)) as [|q|t|e] eqn:Ec.
    + destruct Hh as [home Hh]. unfold confinement_of in Ec. rewrite Hh, run_bind in Ec. simpl in Ec.
      destruct (run h _) as [[rh x]|e]; by repeat case_match.
    + destruct Hh as [home Hh]. unfold confinement_of in Ec. rewrite Hh, run_bind, run_try in Ec. cbn [run] in Ec.
      destruct (run h (resolve self home)) as [rh|e] eqn:Er; [|done]. rewrite run_try in Ec.
      destruct (run h (resolve_noting_links _ _)) as [x|e] eqn:Ex; [|done].
      cbn [run fst snd] in Ec. pose proof (resolve_noting_walked _ _ _ _ Ex) as (ns & E & _ & _ & Hw).
      assert (rs_path x = q /\ (path_starts_with q rh = true \/ rs_planted x = false /\
        path_starts_with (normalize (rel self (abs self p))) (normalize home) = true)) as [Eq Hin].
      { destruct (path_starts_with (rs_path x) rh) eqn:E1; [by simplify_eq; auto|].
        destruct (bool_decide (0 < rs_links x)), (rs_planted x), (path_starts_with (normalize (rel self (abs self p))) (normalize home)); cbn [negb andb] in Ec; simplify_eq; auto. }
      exists ns, home, rh, x. rewrite <- Eq. split_and!; try done. by rewrite Eq.
    + split_and!.
      * unfold open. rewrite run_bind, Ec, run_try. done.
      * unfold read_dir. by rewrite run_bind, Ec.
      * unfold stat_follow, statat, judge. by rewrite run_try, run_bind, Ec.
    + split_and!.
      * unfold open. rewrite run_bind, Ec, run_try. done.
      * unfold read_dir. by rewrite run_bind, Ec.
      * unfold stat_follow, statat, judge. by rewrite run_try, run_bind, Ec.
Qed.

Lemma run_read_capped_length h self p cap b cut :
  run h (read_capped self p cap) = Ok (b, cut) -> (N.of_nat (length b) <= cap)%N.
Proof.
  unfold read_capped. rewrite run_try. destruct (run h (open self p)) as [f|e]; [|done].
  unfold read_capped_from. rewrite run_try, run_sys. destruct (h _ (Read f (cap + 1)%N)) as [buf|e]; [|done].
  cbn [lift run]. intros [= <- _]. rewrite length_take_n. lia.
Qed.

(** C21. A capped read gives the first [cap] bytes of what an open regular file
    gives, never more, and says it was cut exactly when there was more. *)
Theorem read_capped_bounded h self p cap b cut :
  run h (read_capped self p cap) = Ok (b, cut) ->
  (N.of_nat (length b) <= cap)%N /\
  exists f st buf, run h (open self p) = Ok f /\ h _ (FStat f) = Ok st /\ m_is_file (meta_of st) = true /\
    h _ (Read f (cap + 1)%N) = Ok buf /\ b = take_n cap buf /\ (cut = true <-> (cap < N.of_nat (length buf))%N).
Proof.
  unfold read_capped. rewrite run_try. destruct (run h (open self p)) as [f|e] eqn:Ef; [|done].
  unfold read_capped_from. rewrite run_try, run_sys. destruct (h _ (Read f (cap + 1)%N)) as [buf|e] eqn:Eb; [|done].
  cbn [lift run]. intros [= <- <-]. split; [rewrite length_take_n; lia|].
  destruct (run_open _ _ _ _ Ef) as (st & Hst & Hf). exists f, st, buf. split_and!; try done.
  - rewrite !take_n_take, take_take. f_equal. lia.
  - rewrite N.ltb_lt, length_take_n. lia.
Qed.

(** A listing is what the kernel gave, each name once as it gave it, less
    the two dots, in the order of the names' bytes; an error on any entry is
    an error of the listing. *)
Theorem read_dir_lists h self p out :
  run h (read_dir self p) = Ok out ->
  exists f ds, h _ (ReadDir f) = Ok (Ok <$> ds) /\
    de_name <$> out ≡ₚ List.filter not_dots (d_name <$> ds) /\
    StronglySorted (key_le de_name) out.
Proof.
  unfold read_dir. rewrite run_bind, run_try. destruct (run h (open_under _ _ _ _)) as [f|e]; [|done].
  rewrite run_try, run_sys. destruct (h _ (ReadDir f)) as [ents|e] eqn:Ed; [|done]. cbn [lift].
  rewrite run_try. destruct (run h (read_entries _ _ _)) as [res|e] eqn:Er; [|done]. cbn. intros [= <-].
  apply run_read_entries in Er as (ds & -> & E). exists f, ds. split_and!; [done| |apply sort_by_sorted].
  rewrite sort_by_perm, E. done.
Qed.

(** ** Witnesses: a small tree, with a file and a planted link in a home *)

Module Demo.
Definition node (p : path) : option stat_t :=
  let st mode uid := Some (mk_stat 1 1 mode uid uid 3 0 0 0) in
  if bool_decide (p ∈ [ #"home"; #"etc"; dot; [] ]) then st 0x41ED%N 0%N
  else if bool_decide (p = #"home/u") then st 0x41ED%N 1000%N
  else if bool_decide (p = #"home/u/f") then st 0x81A4%N 1000%N
  else if bool_decide (p = #"home/u/l") then st 0xA1FF%N 1000%N
  else if bool_decide (p = #"etc/shadow") then st 0x8180%N 0%N
  else None.

Definition found (p : path) : result errno stat_t :=
  match node p with Some st => Ok st | None => Err ENOENT end.

(** Descriptors: 3 the root, 4 the file, 5 a directory. *)
Definition kernel : snapshot := fun R s =>
  match s in sys R return R with
  | Open _ _ => Ok 3%N
  | OpenAt _ _ _ => Ok 5%N
  | OpenAt2 _ p _ _ => if bool_decide (p = #"home/u/f") then Ok 4%N else Ok 5%N
  | StatAt d p _ => if bool_decide (d = 3%N) then found p else found (if bool_decide (d = 4%N) then #"home/u/f" else p)
  | FStat d => found (if bool_decide (d = 4%N) then #"home/u/f" else dot)
  | ReadLinkAt _ p => if bool_decide (p = #"home/u/l") then Ok #"/etc/shadow" else Err EINVAL
  | ReadDir _ => Ok [Ok (mk_dirent #"l" DT_LNK); Ok (mk_dirent dot DT_DIR); Ok (mk_dirent #"f" DT_UNKNOWN)]
  | Read _ n => Ok (take_n n #"hello")
  | ReadToEnd _ => Ok #"hello"
  end.

Definition tree : root := mk_root 3%N #"/mnt" false true [ #"home/u" ].
End Demo.

Lemma resolve_real_witness :
  run Demo.kernel (resolve Demo.tree #"home/u/../u/l") = Ok #"etc/shadow" /\
  exists ns, #"etc/shadow" = join_pieces ns /\ Forall name_ok ns /\ length ns <= MAX_RESOLVED_DEPTH /\
    walked Demo.kernel Demo.tree ns /\ run Demo.kernel (resolve Demo.tree #"etc/shadow") = Ok #"etc/shadow".
Proof.
  split; [vm_compute; reflexivity|].
  apply (resolve_real Demo.kernel Demo.tree #"home/u/../u/l"). vm_compute. reflexivity.
Defined.


Lemma home_rule_witness :
  run Demo.kernel (open Demo.tree #"home/u/l") = Err (leaves_home #"home/u/l" #"/etc/shadow").
Proof.
  destruct (home_rule Demo.tree #"home/u/l" ltac:(eexists; vm_compute; reflexivity)) as [_ H].
  specialize (H Demo.kernel).
  replace (run Demo.kernel (confinement_of Demo.tree #"home/u/l")) with (Confinement.Escapes #"/etc/shadow") in H
    by (vm_compute; reflexivity).
  apply H.
Defined.

Lemma read_capped_bounded_witness :
  run Demo.kernel (read_capped Demo.tree #"home/u/f" 3) = Ok (#"hel", true) /\ (N.of_nat (length #"hel") <= 3)%N.
Proof.
  assert (run Demo.kernel (read_capped Demo.tree #"home/u/f" 3) = Ok (#"hel", true)) as H by (vm_compute; reflexivity).
  split; [exact H|]. apply (read_capped_bounded _ _ _ _ _ _ H).
Defined.

Lemma read_dir_lists_witness :
  exists out, run Demo.kernel (read_dir Demo.tree #"home/u") = Ok out /\ StronglySorted (key_le de_name) out.
Proof.
  eexists. split; [vm_compute; reflexivity|].
  destruct (read_dir_lists Demo.kernel Demo.tree #"home/u" _ ltac:(vm_compute; reflexivity)) as (f & ds & _ & _ & H).
  exact H.
Defined.
