(* ===== verification/Users.v ===== *)
(** [src/users.rs]: account discovery without a name service, and
    [Root::open_root], which learns the homes it confines from it. *)

From S2P Require Import Prelude Slices Order Num Utf8 Paths Text Sys Root.

Record user := mk_user {
  u_name : bytes; u_uid : option N; u_home : path; u_shell : option bytes; u_source : bytes
}.

(** [BTreeSet::insert] on a path: paths are one when their components are. *)
Definition path_key (p : path) : list component := components p.

Fixpoint one_per_home_from (seen : list (list component)) (users : list user) : list user :=
  match users with
  | [] => []
  | u :: users' =>
      let home := path_key (u_home u) in
      if bool_decide (home ∈ seen) then one_per_home_from seen users'
      else u :: one_per_home_from (home :: seen) users'
  end.
Definition one_per_home (users : list user) : list user := one_per_home_from [] users.

Module User.
Definition in_home (u : user) (rel : path) : path := path_join (u_home u) rel.

Definition REAL_HOME_TREES : list path :=
  [ #"/proc"; #"/sys"; #"/dev"; #"/run"; #"/usr"; #"/bin"; #"/sbin"; #"/lib"; #"/lib64"; #"/etc";
    #"/var"; #"/srv"; #"/tmp"].
Definition CONFINES_TREES : list path :=
  [ #"/proc"; #"/sys"; #"/dev"; #"/bin"; #"/sbin"; #"/lib"; #"/lib64"; #"/usr"; #"/etc"; #"/boot"].

Definition under_any (trees : list path) (home : path) : bool := existsb (path_starts_with home) trees.

Definition has_real_home (u : user) : bool :=
  if path_eqb (u_home u) #"/root" then true
  else if bool_decide (length (components (u_home u)) < 3) then false
  else negb (under_any REAL_HOME_TREES (u_home u)).

Definition confines (u : user) : bool :=
  path_eqb (u_home u) #"/root"
  || is_absolute (u_home u) && bool_decide (3 <= length (components (u_home u)))
     && negb (under_any CONFINES_TREES (u_home u)).
End User.

Notation users_map := (gmap bytes user).

Definition is_colon : byte -> bool := is_byte ":".

(** [f.len() < 7] skips a line; the fields are then indexed. *)
Definition passwd_user (line : bytes) : option user :=
  match split_on is_colon line with
  | f0 :: _ :: f2 :: _ :: _ :: f5 :: f6 :: _ =>
      let name := from_utf8_lossy f0 in
      let home := from_utf8_lossy f5 in
      if bool_decide (name = []) || bool_decide (home = []) then None
      else Some (mk_user name (if is_utf8 f2 then parse_unsigned U32_MAX f2 else None) home
                   (Some (from_utf8_lossy f6)) #"passwd")
  | _ => None
  end.

Definition add_passwd (found : users_map) (line : bytes) : users_map :=
  match passwd_user line with Some u => <[u_name u := u]> found | None => found end.

Definition has_home (found : users_map) (home : path) : bool :=
  existsb (fun u => path_eqb (u_home u) home) (btree_values found).

(** [found.entry(name).or_insert(...)], whose argument is worked out first. *)
Definition add_home (r : root) (home : path) (source : bytes) (found : users_map) : prog users_map :=
  match file_name home with
  | None => Ret found
  | Some n =>
      let name := from_utf8_lossy n in
      if has_home found home then Ret found
      else
        st ← stat r home;
        let u := mk_user name (m_uid <$> ok st) home None source in
        Ret (match found !! name with Some _ => found | None => <[name := u]> found end)
  end.

Fixpoint add_homes (r : root) (ents : list dir_ent) (found : users_map) : prog users_map :=
  match ents with
  | [] => Ret found
  | ent :: ents' =>
      found ← (if de_is_dir ent then add_home r (path_join #"/home" (de_name ent)) #"home-dir" found else Ret found);
      add_homes r ents' found
  end.

Definition add_spool (found : users_map) (ent : dir_ent) : users_map :=
  let name := from_utf8_lossy (de_name ent) in
  if de_is_dir ent || bool_decide (name = []) || bool_decide (is_Some (found !! name)) then found
  else <[name := mk_user name None (path_join #"/home" name) None #"cron-spool"]> found.

(** A listing, [unwrap_or_default]. *)
Definition listing (r : root) (dir : path) : prog (list dir_ent) :=
  ents ← read_dir_optional r dir; Ret (default [] (ok ents)).

Definition read_lines (r : root) (rel : path) : prog (list bytes) :=
  x ← read_capped r rel READ_CAP;
  Ret match x with Ok (b, _) => split_on (is_byte x0a) b | Err _ => [] end.

Definition discover (r : root) : prog (list user) :=
  lines ← read_lines r #"etc/passwd";
  let found := foldl add_passwd ∅ lines in
  homes ← listing r #"home";
  found ← add_homes r homes found;
  has_root ← exists_ r #"root";
  found ← (if has_root : bool then add_home r #"/root" #"home-dir" found else Ret found);
  spool ← listing r #"var/spool/cron";
  let found := foldl add_spool found spool in
  spool ← listing r #"var/spool/cron/crontabs";
  let found := foldl add_spool found spool in
  Ret (btree_values found).

Definition open_root (p : path) (live : bool) : prog (result io_error root) :=
  f ←? sys_call (Open p (with_cloexec LIST_DIR));
  confined ← probe_openat2 f;
  let r := mk_root f p live confined [] in
  users ← discover r;
  Ret (Ok (mk_root f p live confined (u_home <$> List.filter User.confines users))).
Definition live : prog (result io_error root) := open_root #"/" true.
Definition at_ (p : path) : prog (result io_error root) := open_root p false.

(** ** What is discovered *)

Definition keyed (m : users_map) : Prop := forall n u, m !! n = Some u -> u_name u = n /\ n <> [].

Lemma keyed_empty : keyed ∅.
Proof. intros n u H. by rewrite lookup_empty in H. Qed.

Lemma keyed_insert m u : keyed m -> u_name u <> [] -> keyed (<[u_name u := u]> m).
Proof. intros Hm Hu n v [[<- <-]|[_ H]]%lookup_insert_Some; [done|by apply Hm]. Qed.

Lemma passwd_user_name line u : passwd_user line = Some u -> u_name u <> [] /\ u_source u = #"passwd".
Proof.
  unfold passwd_user. destruct (split_on is_colon line) as [|f0 [|? [|f2 [|? [|? [|f5 [|f6 ?]]]]]]]; try done.
  cbv zeta. case_bool_decide as H; [done|]. cbn [orb]. case_match; [done|]. by intros [= <-].
Qed.

Lemma keyed_add_passwd m line : keyed m -> keyed (add_passwd m line).
Proof.
  intros Hm. unfold add_passwd. destruct (passwd_user line) as [u|] eqn:E; [|done].
  apply keyed_insert; [done|]. by eapply passwd_user_name.
Qed.

Lemma lossy_not_nil n : n <> [] -> from_utf8_lossy n <> [].
Proof.
  intros H E. apply H. assert (chars (from_utf8_lossy n) = []) as Hc by (by rewrite E).
  rewrite chars_lossy in Hc. unfold chars in Hc. apply fmap_nil_inv in Hc.
  destruct (utf8_chunks_of n) as (Hn & _). by rewrite Hc in Hn.
Qed.

Lemma keyed_add_spool m ent : keyed m -> keyed (add_spool m ent).
Proof.
  intros Hm. unfold add_spool. case_match eqn:E; [done|]. apply orb_false_iff in E as [E _].
  apply orb_false_iff in E as [_ E%bool_decide_eq_false]. by apply keyed_insert with (u := mk_user _ _ _ _ _).
Qed.

Lemma foldl_keyed {A} (f : users_map -> A -> users_map) (l : list A) m :
  (forall m a, keyed m -> keyed (f m a)) -> keyed m -> keyed (foldl f m l).
Proof. intros Hf. revert m. induction l as [|a l IH]; intros m Hm; [done|]. apply IH. by apply Hf. Qed.

Lemma file_name_not_nil p n : file_name p = Some n -> n <> [].
Proof.
  unfold file_name. destruct (last (components p)) as [[]|] eqn:E; try done. intros [= <-].
  apply last_Some in E as [l E]. eapply (components_normal_ok p). rewrite E. apply elem_of_app. right. by left.
Qed.

(** What is found stays found: only names nobody has are added. *)
Definition extends (m m' : users_map) : Prop := keyed m' /\ m ⊆ m'.

Lemma extends_refl m : keyed m -> extends m m.
Proof. done. Qed.
Lemma extends_trans m1 m2 m3 : extends m1 m2 -> extends m2 m3 -> extends m1 m3.
Proof. intros [_ H1] [H2 H3]. split; [done|]. by etrans. Qed.

Lemma extends_insert m u : keyed m -> m !! u_name u = None -> u_name u <> [] -> extends m (<[u_name u := u]> m).
Proof. intros Hm Hn Hu. split; [by apply keyed_insert|]. by apply insert_subseteq. Qed.

Lemma add_home_extends A r home source m :
  keyed m -> returns A (extends m) (add_home r home source m).
Proof.
  intros Hm. unfold add_home. destruct (file_name home) as [n|] eqn:En; [|by apply extends_refl].
  destruct (has_home m home); [by apply extends_refl|].
  eapply returns_bind; [apply returns_true|]. intros st _. cbn [returns].
  destruct (m !! _) eqn:E; [by apply extends_refl|].
  apply (extends_insert m (mk_user _ _ _ _ _)); [done|done|]. by eapply lossy_not_nil, file_name_not_nil.
Qed.

Lemma add_homes_extends A r ents m : keyed m -> returns A (extends m) (add_homes r ents m).
Proof.
  revert m. induction ents as [|ent ents IH]; intros m Hm; cbn [add_homes]; [by apply extends_refl|].
  eapply returns_bind with (Q := extends m).
  - case_match; [by apply add_home_extends|by apply extends_refl].
  - intros m' Hm'. eapply returns_mono; [|apply IH, Hm']. intros m''. by apply extends_trans.
Qed.

Lemma add_spool_extends m ent : keyed m -> extends m (add_spool m ent).
Proof.
  intros Hm. split; [by apply keyed_add_spool|]. unfold add_spool. case_match eqn:E; [done|].
  apply orb_false_iff in E as [_ E%bool_decide_eq_false]. apply insert_subseteq.
  destruct (m !! _) eqn:E'; [|done]. by destruct E.
Qed.

Lemma add_spools_extends ents m : keyed m -> extends m (foldl add_spool m ents).
Proof.
  revert m. induction ents as [|e ents IH]; intros m Hm; [by apply extends_refl|]. cbn.
  eapply extends_trans; [by apply add_spool_extends|]. apply IH. by apply add_spool_extends.
Qed.

(** The last line of the file to name an account is the one kept. *)
Definition passwd_account (lines : list bytes) (n : bytes) : option user :=
  last (List.filter (fun u => bool_decide (u_name u = n)) (omap passwd_user lines)).

Lemma passwd_found lines m n :
  foldl add_passwd m lines !! n = match passwd_account lines n with Some u => Some u | None => m !! n end.
Proof.
  unfold passwd_account. induction lines as [|line lines IH] using rev_ind; [done|].
  rewrite foldl_app, omap_app, List.filter_app. cbn [foldl]. unfold add_passwd at 1.
  cbn [omap list_omap]. destruct (passwd_user line) as [u|]; cbn [List.filter]; [|by rewrite app_nil_r].
  case_bool_decide as E.
  - rewrite last_snoc, <- E. apply lookup_insert_eq.
  - by rewrite app_nil_r, lookup_insert_ne.
Qed.

Lemma elem_of_btree_values (m : users_map) u : u ∈ btree_values m <-> exists n, m !! n = Some u.
Proof.
  unfold btree_values. rewrite list_elem_of_fmap. split.
  - intros ([n v] & -> & H). exists n. by apply elem_of_btree_to_list in H.
  - intros [n H]. exists (n, u). split; [done|]. by apply elem_of_btree_to_list.
Qed.

Lemma keyed_names m : keyed m -> u_name <$> btree_values m = btree_keys m.
Proof.
  intros Hm. unfold btree_values, btree_keys. rewrite <- list_fmap_compose. apply list_fmap_ext.
  intros i [n u] Hi. apply list_elem_of_lookup_2, elem_of_btree_to_list, Hm in Hi as [? _]. done.
Qed.

Lemma StronglySorted_fmap {A B} (R : A -> A -> Prop) (S : B -> B -> Prop) (f : A -> B) l :
  (forall x y, x ∈ l -> y ∈ l -> R x y -> S (f x) (f y)) -> StronglySorted R l -> StronglySorted S (f <$> l).
Proof.
  intros Hf H. induction H as [|x l Hl IH Hx]; csimpl; constructor.
  - apply IH. intros y z Hy Hz. apply Hf; by right.
  - apply Forall_fmap, Forall_forall. intros y Hy. rewrite Forall_forall in Hx. apply Hf; [by left|by right|auto].
Qed.

Lemma keyed_sorted m : keyed m -> StronglySorted (key_le u_name) (btree_values m).
Proof.
  intros Hm. unfold btree_values. eapply StronglySorted_fmap; [|apply sort_by_sorted].
  intros [n u] [n' u'] Hu Hu' H. apply (elem_of_btree_to_list m), Hm in Hu as [? _], Hu' as [? _].
  unfold key_le in *. cbn in *. by subst.
Qed.

Lemma has_home_true m home : has_home m home = true <-> exists u, u ∈ btree_values m /\ path_eqb (u_home u) home = true.
Proof.
  unfold has_home. rewrite existsb_exists. split; intros (u & Hu & H); exists u; [|]; by rewrite list_elem_of_In in *.
Qed.

(** A home somebody has, or the account named like it has another. *)
Definition claimed (m : users_map) (home : path) : Prop :=
  exists n u, m !! n = Some u /\
    (path_eqb (u_home u) home = true \/ exists f, file_name home = Some f /\ n = from_utf8_lossy f).

Lemma claimed_mono m m' home : m ⊆ m' -> claimed m home -> claimed m' home.
Proof. intros Hs (n & u & Hn & H). exists n, u. split; [|done]. by eapply lookup_weaken. Qed.

Lemma run_add_home h r home source m f :
  file_name home = Some f -> claimed (run h (add_home r home source m)) home.
Proof.
  intros Hf. unfold add_home. rewrite Hf. destruct (has_home m home) eqn:Eh.
  - apply has_home_true in Eh as (u & [n Hn]%elem_of_btree_values & E). exists n, u. by auto.
  - rewrite run_bind. cbn [run]. destruct (m !! from_utf8_lossy f) as [u|] eqn:E.
    + exists (from_utf8_lossy f), u. eauto.
    + eexists (from_utf8_lossy f), _. rewrite lookup_insert_eq. eauto.
Qed.

Definition any_answer : forall R, sys R -> R -> Prop := fun _ _ _ => True.

Lemma run_extends (h : snapshot) (m : users_map) (p : prog users_map) : returns any_answer (extends m) p -> extends m (run h p).
Proof. apply run_returns. by intros R s. Qed.

Lemma run_add_home_extends h r home source m : keyed m -> extends m (run h (add_home r home source m)).
Proof. intros Hm. by apply run_extends, add_home_extends. Qed.
Lemma run_add_homes_extends h r ents m : keyed m -> extends m (run h (add_homes r ents m)).
Proof. intros Hm. by apply run_extends, add_homes_extends. Qed.

Lemma run_add_homes h r ents m e f :
  keyed m -> e ∈ ents -> de_is_dir e = true -> file_name (path_join #"/home" (de_name e)) = Some f ->
  claimed (run h (add_homes r ents m)) (path_join #"/home" (de_name e)).
Proof.
  intros Hm He Hd Hf. revert m Hm. induction He as [e ents|e e' ents He IH]; intros m Hm; cbn [add_homes]; rewrite run_bind.
  - rewrite Hd. destruct (run_add_home_extends h r (path_join #"/home" (de_name e)) #"home-dir" m Hm) as [Hk _].
    eapply claimed_mono; [by apply run_add_homes_extends|by apply run_add_home with (f := f)].
  - apply IH; [done..|]. case_match; [|done]. by apply run_add_home_extends.
Qed.

(** What discovery comes to: the accounts of a map that holds those of
    passwd and claims every home. *)
Lemma run_discover h r :
  let found := foldl add_passwd ∅ (run h (read_lines r #"etc/passwd")) in
  exists m, run h (discover r) = btree_values m /\ extends found m /\
    (forall e f, e ∈ run h (listing r #"home") -> de_is_dir e = true ->
       file_name (path_join #"/home" (de_name e)) = Some f -> claimed m (path_join #"/home" (de_name e))) /\
    (run h (exists_ r #"root") = true -> claimed m #"/root").
Proof.
  intros found. assert (Hf : keyed found) by (apply foldl_keyed; [apply keyed_add_passwd|apply keyed_empty]).
  pose (m1 := run h (add_homes r (run h (listing r #"home")) found)).
  assert (H1 : extends found m1) by (by apply run_add_homes_extends).
  pose (m2 := run h (if run h (exists_ r #"root") then add_home r #"/root" #"home-dir" m1 else Ret m1)).
  assert (H2 : extends m1 m2).
  { unfold m2. destruct (run h (exists_ r #"root")); [apply run_add_home_extends, H1|apply extends_refl, H1]. }
  pose (m3 := foldl add_spool m2 (run h (listing r #"var/spool/cron"))).
  assert (H3 : extends m2 m3) by (apply add_spools_extends, H2).
  pose (m4 := foldl add_spool m3 (run h (listing r #"var/spool/cron/crontabs"))).
  assert (H4 : extends m3 m4) by (apply add_spools_extends, H3).
  exists m4. split_and!.
  - unfold discover. rewrite run_bind. cbv zeta. rewrite !run_bind. done.
  - repeat (eapply extends_trans; [|eassumption]). done.
  - intros e f He Hd Hfn. eapply claimed_mono; [|by eapply run_add_homes].
    etrans; [apply H2|]. etrans; [apply H3|apply H4].
  - intros Hr. eapply claimed_mono; [etrans; [apply H3|apply H4]|]. unfold m2. rewrite Hr.
    by eapply run_add_home.
Qed.

Lemma one_per_home_from_ok seen us :
  NoDup (path_key ∘ u_home <$> one_per_home_from seen us) /\
  (forall u, u ∈ one_per_home_from seen us -> path_key (u_home u) ∉ seen) /\
  (forall u, u ∈ us -> path_key (u_home u) ∈ seen \/
     exists v, v ∈ one_per_home_from seen us /\ path_key (u_home v) = path_key (u_home u)) /\
  one_per_home_from seen us `sublist_of` us.
Proof.
  revert seen. induction us as [|u us IH]; intros seen; cbn [one_per_home_from].
  - split_and!; [constructor|by intros u ?%elem_of_nil..|constructor].
  - case_bool_decide as Hs.
    + destruct (IH seen) as (H1 & H2 & H3 & H4). split_and!; [done|done| |by constructor].
      intros v [->|Hv]%elem_of_cons; [by left|by apply H3].
    + destruct (IH (path_key (u_home u) :: seen)) as (H1 & H2 & H3 & H4). split_and!.
      * csimpl. constructor; [|done]. intros (v & E & Hv)%list_elem_of_fmap. apply (H2 _ Hv), elem_of_cons. left. symmetry. exact E.
      * intros v [->|Hv]%elem_of_cons; [done|]. intros Hin. apply (H2 _ Hv). by right.
      * intros v [->|Hv]%elem_of_cons; [right; exists u; split; [by left|done]|].
        destruct (H3 _ Hv) as [[E|?]%elem_of_cons|(w & Hw & E)]; [|by left|].
        -- right. exists u. split; [by left|done].
        -- right. exists w. split; [by right|done].
      * by constructor.
Qed.

(** ** Properties *)

(** The accounts discovered are in order of name, each name once and none
    empty; whatever else is found, an account passwd names is there as its
    last line has it; and every directory of [/home], and [/root], is
    somebody's home unless another account has its name. *)
Theorem discover_complete h r (us := run h (discover r)) :
  StronglySorted (key_le u_name) us /\ NoDup (u_name <$> us) /\ Forall (fun u => u_name u <> []) us /\
  (forall n u, passwd_account (run h (read_lines r #"etc/passwd")) n = Some u -> u ∈ us) /\
  (forall home f, file_name home = Some f ->
     (exists e, e ∈ run h (listing r #"home") /\ de_is_dir e = true /\ home = path_join #"/home" (de_name e)) \/
     (run h (exists_ r #"root") = true /\ home = #"/root") ->
     exists u, u ∈ us /\ (path_eqb (u_home u) home = true \/ u_name u = from_utf8_lossy f)).
Proof.
  destruct (run_discover h r) as (m & E & [Hk Hs] & Hh & Hr). unfold us. rewrite E. split_and!.
  - by apply keyed_sorted.
  - rewrite keyed_names by done. apply btree_keys_nodup.
  - apply Forall_forall. intros u [n Hn]%elem_of_btree_values. by apply Hk in Hn as [-> ?].
  - intros n u Hu. apply elem_of_btree_values. exists n. eapply lookup_weaken; [|exact Hs]. rewrite passwd_found.
    by rewrite Hu.
  - intros home f Hf Hc. assert (claimed m home) as (n & u & Hn & Hu).
    { destruct Hc as [(e & He & Hd & ->)|[Hex ->]]; [by eapply Hh|by apply Hr]. }
    exists u. split; [apply elem_of_btree_values; eauto|]. destruct Hu as [?|(f' & Ef & En)]; [by left|right].
    apply Hk in Hn as [-> _]. by rewrite Hf in Ef; simplify_eq.
Qed.

(** Of accounts that share a home the first to name it is kept, and no
    home is lost. *)
Theorem one_per_home_once us :
  NoDup (path_key ∘ u_home <$> one_per_home us) /\ one_per_home us `sublist_of` us /\
  (forall u, u ∈ us -> exists v, v ∈ one_per_home us /\ path_key (u_home v) = path_key (u_home u)).
Proof.
  destruct (one_per_home_from_ok [] us) as (H1 & H2 & H3 & H4). split_and!; try done.
  intros u Hu. destruct (H3 u Hu) as [[]%elem_of_nil|?]; done.
Qed.

Lemma home_of_some self q home :
  home ∈ r_homes self -> path_starts_with q (rel self home) = true -> is_Some (home_of self q).
Proof.
  intros Hin Hs. unfold home_of.
  assert (Hl : forall l best, is_Some best \/ l <> [] -> is_Some (foldl longest best l)).
  { induction l as [|p l IH]; intros best [Hb|Hb]; try done; apply IH; left; unfold longest;
      destruct best; try case_bool_decide; eauto. }
  apply Hl. right. intros E. assert (rel self home ∈ List.filter (path_starts_with q) (rel self <$> r_homes self)) as Hx.
  { apply list_elem_of_In, filter_In. split; [|done]. apply list_elem_of_In. by apply list_elem_of_fmap_2. }
  rewrite E in Hx. by apply elem_of_nil in Hx.
Qed.


(** ** Witnesses *)

Module UsersDemo.
(** A tree with an account homed outside [/home], and a directory in [/home]
    that has the account's name. *)
Definition kernel : snapshot := fun R s =>
  match s in sys R return R with
  | Open _ _ => Ok 3%N
  | OpenAt _ _ _ => Err ENOENT
  | OpenAt2 _ p _ _ =>
      if bool_decide (p = #"etc/passwd") then Ok 4%N
      else if bool_decide (p = #"home") then Ok 5%N
      else if bool_decide (p = dot) then Ok 6%N else Err ENOENT
  | StatAt d p _ => if bool_decide (d = 4%N) then Ok (mk_stat 1 1 0x81A4 0 0 40 0 0 0) else Err ENOENT
  | FStat d => Ok (mk_stat 1 1 0x81A4 0 0 40 0 0 0)
  | ReadLinkAt _ _ => Err EINVAL
  | ReadDir d => if bool_decide (d = 5%N) then Ok [Ok (mk_dirent #"alice" DT_DIR)] else Ok []
  | Read _ _ | ReadToEnd _ => Ok #"alice:x:1000:1000::/srv/alice:/bin/sh"
  end.
Definition tree : root := mk_root 3%N #"/mnt" false true [].
Definition alice : user := mk_user #"alice" (Some 1000%N) #"/srv/alice" (Some #"/bin/sh") #"passwd".
End UsersDemo.

(** A directory of [/home] is not discovered when an account of its name
    has another home: its files are read for nobody. *)
Theorem home_directory_dropped :
  (exists e, e ∈ run UsersDemo.kernel (listing UsersDemo.tree #"home") /\ de_is_dir e = true /\ de_name e = #"alice") /\
  run UsersDemo.kernel (discover UsersDemo.tree) = [UsersDemo.alice].
Proof.
  split; [exists (mk_dir_ent #"alice" true false); split; [vm_compute; left|done]|by vm_compute].
Qed.

Lemma discover_complete_witness :
  UsersDemo.alice ∈ run UsersDemo.kernel (discover UsersDemo.tree) /\
  exists u, u ∈ run UsersDemo.kernel (discover UsersDemo.tree) /\
    (path_eqb (u_home u) #"/home/alice" = true \/ u_name u = #"alice").
Proof.
  destruct (discover_complete UsersDemo.kernel UsersDemo.tree) as (_ & _ & _ & H1 & H2). split.
  - apply (H1 #"alice"). vm_compute. reflexivity.
  - apply (H2 #"/home/alice" #"alice"); [vm_compute; reflexivity|]. left.
    exists (mk_dir_ent #"alice" true false). split; [vm_compute; left|split; reflexivity].
Defined.

Lemma one_per_home_once_witness :
  let root2 := mk_user #"toor" (Some 0%N) #"/srv/alice/" None #"passwd" in
  exists v, v ∈ one_per_home [UsersDemo.alice; root2] /\ path_key (u_home v) = path_key (u_home root2).
Proof. intros root2. apply (one_per_home_once [UsersDemo.alice; root2]). right. left. Defined.

