(* ===== verification/Scan.v ===== *)
(** [src/scan.rs]: what a collector is given and what is recorded of its
    reads; how an entry is made; the scan that runs the collectors, and its
    header. *)

From S2P Require Import Prelude Slices Order Num Utf8 Paths Text Kinds Entry ScanData Sys Root RootLaws Users.

(** Links out of a home one collector reports as entries of their own. *)
Definition MAX_LEFT_HOMES : nat := 256.

Record ctx := mk_ctx {
  cx_root : root;
  cx_users : list user;
  unreadable : list bytes;
  truncated : list bytes;
  left_homes : list (path * path)
}.
Definition set_unreadable (cx : ctx) (l : list bytes) : ctx :=
  mk_ctx (cx_root cx) (cx_users cx) l (truncated cx) (left_homes cx).
Definition set_truncated (cx : ctx) (l : list bytes) : ctx :=
  mk_ctx (cx_root cx) (cx_users cx) (unreadable cx) l (left_homes cx).
Definition set_left_homes (cx : ctx) (l : list (path * path)) : ctx :=
  mk_ctx (cx_root cx) (cx_users cx) (unreadable cx) (truncated cx) l.

(** What a bounded read found. *)
Module Outcome.
Inductive read :=
| Bytes (b : bytes) (truncated : bool)
| NotRegular
| NotFollowed (target : path)
| Absent
| Failed (e : io_error).
End Outcome.
Notation outcome := Outcome.read.

(** What the C library calls an error: it only ever becomes text. *)
Class Strerror := strerror : errno -> bytes.

Definition display_path (p : path) : bytes := from_utf8_lossy p.

Section ctx_ops.
Context `{Strerror}.

Definition display_error (e : io_error) : bytes :=
  match e with
  | Errno n => strerror n ++ #" (os error " ++ dec n ++ #")"
  | Refused r => Refusal.display r
  end.

Definition note_unreadable (cx : ctx) (what : bytes) : ctx := set_unreadable cx (unreadable cx ++ [what]).
Definition note_limited (cx : ctx) (what : bytes) : ctx := set_truncated cx (truncated cx ++ [what]).

Definition remember_left_home (cx : ctx) (rel target : path) : ctx :=
  if bool_decide (length (left_homes cx) < MAX_LEFT_HOMES)
     && negb (existsb (fun p => path_eqb (fst p) rel) (left_homes cx))
  then set_left_homes cx (left_homes cx ++ [(rel, target)]) else cx.

Definition note_left_home (cx : ctx) (rel target : path) : ctx :=
  note_limited (remember_left_home cx rel target)
    (display_path rel ++ #": leads out of its owner's home to " ++ display_path target ++ #", not followed").

(** A home that is there and is no directory holds nothing. *)
Fixpoint some_flat_home (r : root) (here : path) (users : list user) : prog bool :=
  match users with
  | [] => Ret false
  | u :: users' =>
      let home := rel r (u_home u) in
      if negb (bool_decide (home = [])) && path_starts_with here home && negb (path_eqb here home) then
        st ← stat_follow r home;
        match st with
        | Ok m => if negb (m_is_dir m) then Ret true else some_flat_home r here users'
        | Err _ => some_flat_home r here users'
        end
      else some_flat_home r here users'
  end.
Definition under_a_home_that_is_no_directory (cx : ctx) (p : path) : prog bool :=
  some_flat_home (cx_root cx) (rel (cx_root cx) (abs (cx_root cx) p)) (cx_users cx).

Definition is_errno (e : io_error) (n : errno) : bool :=
  match e with Errno m => bool_decide (m = n) | Refused _ => false end.

(** The account's own construction: the link is its, and fails every time. *)
Definition built (e : io_error) : bool := is_errno e ELOOP || is_errno e ENOTDIR || is_errno e ENAMETOOLONG.

Definition note_failed (cx : ctx) (p : path) (e : io_error) : prog ctx :=
  match refusal_of e with
  | Some refusal =>
      let cx := match refusal with
                | Refusal.LeavesHome _ target => remember_left_home cx p target
                | Refusal.NotRegular _ => cx
                end in
      Ret (note_limited cx (Refusal.display refusal))
  | None =>
      let what := display_path p ++ #": " ++ display_error e in
      flat ← (if is_errno e ENOTDIR then under_a_home_that_is_no_directory cx p else Ret false);
      Ret (if flat : bool then cx
           else if built e && in_home (cx_root cx) p then note_limited cx what
           else note_unreadable cx what)
  end.

Definition read_outcome (cx : ctx) (p : path) (cap : N) : prog outcome :=
  x ← Root.read_capped (cx_root cx) p cap;
  Ret match x with
      | Ok (b, cut) => Outcome.Bytes b cut
      | Err e =>
          match refusal_of e with
          | Some (Refusal.NotRegular _) => Outcome.NotRegular
          | Some (Refusal.LeavesHome _ target) => Outcome.NotFollowed target
          | None => if is_not_found e then Outcome.Absent else Outcome.Failed e
          end
      end.

Definition record (cx : ctx) (p : path) (cap : N) (o : outcome) : prog ctx :=
  match o with
  | Outcome.Bytes _ true =>
      Ret (note_limited cx (display_path p ++ #" (read to " ++ dec cap ++ #" bytes)"))
  | Outcome.Bytes _ false | Outcome.Absent => Ret cx
  | Outcome.NotRegular => Ret (note_limited cx (display_path p ++ #": not a regular file, not read"))
  | Outcome.NotFollowed target => Ret (note_left_home cx p target)
  | Outcome.Failed e => note_failed cx p e
  end.

Definition read_capped (cx : ctx) (p : path) (cap : N) : prog (option bytes * ctx) :=
  o ← read_outcome cx p cap;
  cx ← record cx p cap o;
  Ret (match o with Outcome.Bytes b _ => Some b | _ => None end, cx).
Definition read (cx : ctx) (p : path) : prog (option bytes * ctx) := read_capped cx p READ_CAP.

Definition dir (cx : ctx) (p : path) : prog (list dir_ent * ctx) :=
  x ← read_dir (cx_root cx) p;
  match x with
  | Ok v => Ret (v, cx)
  | Err e => if is_not_found e then Ret ([], cx) else cx ← note_failed cx p e; Ret ([], cx)
  end.

Notation identity := (N * N)%type.

Definition first_visit (cx : ctx) (d : path) (seen : gset identity) : prog (option identity * gset identity * ctx) :=
  x ← dir_identity (cx_root cx) d;
  match x with
  | Ok id => Ret (if bool_decide (id ∈ seen) then None else Some id, {[id]} ∪ seen, cx)
  | Err e => if is_not_found e then Ret (None, seen, cx) else cx ← note_failed cx d e; Ret (None, seen, cx)
  end.

Fixpoint distinct_from {T : Type} (cx : ctx) (seen : gset identity) (out : list (T * identity * path))
    (candidates : list (T * path)) : prog (list (T * identity * path) * ctx) :=
  match candidates with
  | [] => Ret (out, cx)
  | (label, d) :: candidates' =>
      x ← first_visit cx d seen;
      let '(id, seen, cx) := x in
      distinct_from cx seen (match id with Some id => out ++ [(label, id, d)] | None => out end) candidates'
  end.
Definition distinct_dirs {T : Type} (cx : ctx) (candidates : list (T * path)) : prog (list (T * identity * path) * ctx) :=
  distinct_from cx ∅ [] candidates.
End ctx_ops.

(** ** An entry *)

Definition is_sticky (mode : N) : bool := negb (bool_decide (N.land mode 0x200 = 0%N)).

(** [max_by_key]: the last of the longest. *)
Definition longer_home (best : option user) (u : user) : option user :=
  match best with
  | Some b => if bool_decide (length (u_home b) <= length (u_home u)) then Some u else best
  | None => Some u
  end.
Definition home_owner (cx : ctx) (p : path) : option user :=
  let here := rel (cx_root cx) p in
  foldl longer_home None
    (List.filter (fun u => User.has_real_home u && path_starts_with here (rel (cx_root cx) (u_home u))) (cx_users cx)).

Definition set_facts (e : entry) (uid mode : N) : entry :=
  mk_entry (e_id e) (e_kind e) (e_collector e) (e_source e) (e_name e) (e_command e) (e_target_path e)
    (e_target_sha256 e) (e_enabled e) (e_trigger e) (e_principal e) uid mode
    (e_mtime e) (e_provenance e) (e_flags e) (e_raw e).
Definition set_mtime (e : entry) (t : option system_time) : entry :=
  mk_entry (e_id e) (e_kind e) (e_collector e) (e_source e) (e_name e) (e_command e) (e_target_path e)
    (e_target_sha256 e) (e_enabled e) (e_trigger e) (e_principal e) (e_owner_uid e) (e_mode e)
    t (e_provenance e) (e_flags e) (e_raw e).
Definition flag_if (b : bool) (e : entry) (f : flag) : entry := if b then Entry.flag e f else e.

(** The link's target is noted, and what it leads to is what is judged. *)
Definition followed (r : root) (p : path) (link : meta) (e : entry) : prog (meta * entry) :=
  if m_is_symlink link then
    t ← read_link r p;
    let e := match t with Ok t => Entry.note e key.SYMLINK_TARGET (from_utf8_lossy t) | Err _ => e end in
    m ← stat_follow r p;
    Ret match m with
        | Ok target => (target, e)
        | Err err => match refusal_of err with
                     | None => (link, Entry.note e #"dangling_symlink" #"true")
                     | Some _ => (link, e)
                     end
        end
  else Ret (link, e).

Definition judged (cx : ctx) (p : path) (m : meta) (e : entry) : entry :=
  let e := set_facts e (m_uid m) (perms m) in
  let e := flag_if ((m_is_file m || m_is_dir m) && world_writable m) e Flag.WorldWritable in
  match home_owner cx p with
  | Some owner =>
      let e := Entry.note (Entry.note e #"user" (u_name owner)) #"user_discovered_via" (u_source owner) in
      flag_if (match u_uid owner with Some uid => negb (bool_decide (uid = m_uid m)) | None => false end)
        e Flag.OwnerMismatch
  | None => e
  end.

Section entries.
Context `{Blake3}.

Definition entry (cx : ctx) (k : kind) (p : path) (name : bytes) : prog Entry.entry :=
  let r := cx_root cx in
  let e := Entry.rekey (Entry.new k (abs r p) name) p in
  link ← stat r p;
  e ← match link with
      | Ok link =>
          x ← followed r p link (set_mtime e (m_mtime link));
          Ret (judged cx (abs r p) (fst x) (snd x))
      | Err _ => Ret e
      end;
  e ← match parent p with
      | Some dir =>
          m ← stat_follow r dir;
          Ret match m with
              | Ok m => flag_if (world_writable m && negb (is_sticky (m_mode m))) e Flag.WorldWritable
              | Err _ => e
              end
      | None => Ret e
      end;
  Ret (flag_if (is_hidden_path (path_join #"/" p)) e Flag.HiddenPath).
End entries.

(** ** The scan *)

(** What a panic carries. *)
Inductive payload :=
| StaticStr (s : bytes)
| OwnedString (s : bytes)
| OtherPayload.
Definition panic_message (p : payload) : bytes :=
  match p with StaticStr s | OwnedString s => s | OtherPayload => #"collector panicked" end.

(** [trait Collector]. What [collect] did to its context before it panicked
    stays done. *)
Record collector := mk_collector {
  c_name : bytes;
  c_deep_only : bool;
  c_collect : ctx -> prog (result payload (list Entry.entry) * ctx)
}.

Definition skipped (name reason : bytes) : collector_status :=
  mk_collector_status name (Status.Skipped reason) 0 [].

(** What the running system says of itself, and the clock. *)
Record machine := mk_machine {
  uname_nodename : bytes; uname_release : bytes; now_secs : Z; euid_root : bool; pkg_version : bytes
}.

Definition eq_byte : byte := "=".
Definition quote_byte : byte := x22.

(** One line of os-release, for the fields not yet known. *)
Definition os_release_line (st : bytes * bytes * bytes) (line : bytes) : bytes * bytes * bytes :=
  let '(id, version, like) := st in
  match split_once [eq_byte] line with
  | None => st
  | Some (k, v) =>
      let v := trim_by (is_byte quote_byte) v in
      if bool_decide (k = #"ID") && bool_decide (id = []) then (v, version, like)
      else if bool_decide (k = #"VERSION_ID") && bool_decide (version = []) then (id, v, like)
      else if bool_decide (k = #"ID_LIKE") && bool_decide (like = []) then (id, version, v)
      else st
  end.

Fixpoint os_release_from (r : root) (paths : list path) (st : bytes * bytes * bytes) : prog (bytes * bytes * bytes) :=
  match paths with
  | [] => Ret st
  | p :: paths' =>
      x ← Root.read_capped r p (64 * 1024);
      match x with
      | Err _ => os_release_from r paths' st
      | Ok (b, _) =>
          let st := foldl os_release_line st (lines (from_utf8_lossy b)) in
          if bool_decide (st.1.1 = []) then os_release_from r paths' st else Ret st
      end
  end.
Definition os_release (r : root) : prog (bytes * bytes * bytes) :=
  os_release_from r [ #"etc/os-release"; #"usr/lib/os-release"] ([], [], []).

Definition make_header (w : machine) (r : root) (deep : bool) (collectors : list collector_status) : prog header :=
  os ← os_release r;
  x ← Root.read_capped r #"etc/hostname" 4096;
  let host := match x with Ok (b, _) => trim (from_utf8_lossy b) | Err _ => [] end in
  Ret (mk_header (pkg_version w) SCHEMA_VERSION (now_secs w)
         (if bool_decide (host = []) then from_utf8_lossy (uname_nodename w) else host)
         (if is_live r then from_utf8_lossy (uname_release w) else [])
         os.1.1 os.1.2 os.2 (abs r []) (is_live r) deep (euid_root w) inferred collectors [] None).

Section scanning.
Context `{Blake3}.

(** An entry for each link out of a home no entry is for. *)
Fixpoint add_left_homes (r : root) (cx : ctx) (left : list (path * path)) (entries : list Entry.entry) : prog (list Entry.entry) :=
  match left with
  | [] => Ret entries
  | (p, target) :: left' =>
      if existsb (fun e => path_eqb (e_source e) (abs r p)) entries then add_left_homes r cx left' entries
      else
        let name := match file_name p with Some n => from_utf8_lossy n | None => [] end in
        e ← entry cx Kind.UnfollowedLink p name;
        let e := Entry.note e #"not_followed" (#"leads out of its owner's home to " ++ display_path target) in
        add_left_homes r cx left' (entries ++ [e])
  end.

(** One collector's thread; [None] only where [dedup_ids] did not end. *)
Definition run_collector (r : root) (users : list user) (deep : bool) (c : collector)
    : prog (option (collector_status * list Entry.entry)) :=
  let cx := mk_ctx r users [] [] [] in
  if c_deep_only c && negb deep then Ret (Some (skipped (c_name c) #"needs --deep", []))
  else
    x ← c_collect c cx;
    let '(collected, cx) := x in
    match collected with
    | Ok entries =>
        entries ← add_left_homes r (set_left_homes cx []) (left_homes cx) entries;
        let entries := (fun e => set_collector e (Some (c_name c))) <$> entries in
        Ret (entries ← dedup_ids entries;
             let status := match unreadable cx with [] => Status.Complete | _ => Status.Partial (unreadable cx) end in
             Some (mk_collector_status (c_name c) status (length entries) (truncated cx), entries))
    | Err payload =>
        Ret (Some (mk_collector_status (c_name c) (Status.Failed (panic_message payload)) 0 (truncated cx), []))
    end.

(** The threads share nothing they change, so one after another is every
    order; their results are taken in the collectors' order. *)
Fixpoint run_collectors (r : root) (users : list user) (deep : bool) (cs : list collector)
    : prog (option (list (collector_status * list Entry.entry))) :=
  match cs with
  | [] => Ret (Some [])
  | c :: cs' =>
      x ← run_collector r users deep c;
      xs ← run_collectors r users deep cs';
      Ret (x ← x; xs ← xs; Some (x :: xs))
  end.

Definition run_scan (w : machine) (r : root) (deep : bool) (cs : list collector) : prog (option scan) :=
  users ← discover r;
  results ← run_collectors r users deep cs;
  match results with
  | None => Ret None
  | Some results =>
      let results := sort_by (fun x => cs_name (fst x)) results in
      let entries := sort_by entry_key (mjoin (snd <$> results)) in
      h ← make_header w r deep (fst <$> results);
      Ret (Some (mk_scan h entries))
  end.
End scanning.

(** ** What a read records *)

Definition left_ok (cx : ctx) : Prop :=
  length (left_homes cx) <= MAX_LEFT_HOMES /\ NoDup (path_key ∘ fst <$> left_homes cx).

(** A context a collector's reads led to: what was recorded stays, and it is
    the same root and accounts. *)
Record grown (cx cx' : ctx) : Prop := mk_grown {
  gr_root : cx_root cx' = cx_root cx;
  gr_users : cx_users cx' = cx_users cx;
  gr_unreadable : unreadable cx `prefix_of` unreadable cx';
  gr_truncated : truncated cx `prefix_of` truncated cx';
  gr_left : left_homes cx `prefix_of` left_homes cx';
  gr_ok : left_ok cx -> left_ok cx'
}.

#[export] Instance grown_preorder : PreOrder grown.
Proof.
  split.
  - intros cx. by split.
  - intros a b c [? ? ? ? ? Ha] [? ? ? ? ? Hb]. split; try congruence; try (by etrans; eauto). auto.
Qed.

(** What makes a collector Partial is untouched. *)
Definition excused (cx cx' : ctx) : Prop := grown cx cx' /\ unreadable cx' = unreadable cx.

Lemma note_limited_excused cx w : excused cx (note_limited cx w).
Proof. split; [|done]. split; try done. by eexists. Qed.

Lemma note_unreadable_grown cx w : grown cx (note_unreadable cx w).
Proof. split; try done. by eexists. Qed.

Lemma excused_trans cx cx' cx'' : excused cx cx' -> excused cx' cx'' -> excused cx cx''.
Proof. intros [H1 E1] [H2 E2]. split; [by etrans|congruence]. Qed.

Lemma path_eqb_key p q : path_eqb p q = true <-> path_key p = path_key q.
Proof. apply bool_decide_eq_true. Qed.

Lemma existsb_key (l : list (path * path)) p :
  existsb (fun x => path_eqb (fst x) p) l = true <-> path_key p ∈ path_key ∘ fst <$> l.
Proof.
  rewrite existsb_exists, list_elem_of_fmap. split.
  - intros (x & Hx & E%path_eqb_key). exists x. split; [done|]. by apply list_elem_of_In.
  - intros (x & E & Hx). exists x. split; [by apply list_elem_of_In|]. by apply path_eqb_key.
Qed.

Lemma remember_excused cx p t : excused cx (remember_left_home cx p t).
Proof.
  unfold remember_left_home. case_bool_decide as Hl; [|by split]. cbn [andb].
  destruct (existsb _ _) eqn:E; cbn [negb]; [by split|]. split; [|done]. split; try done; [by eexists|].
  intros [H1 H2]. split; cbn.
  - rewrite length_app. cbn. lia.
  - rewrite fmap_app. apply NoDup_app. split; [done|]. split; [|apply NoDup_singleton].
    intros x Hx Hx2. apply list_elem_of_singleton in Hx2 as ->.
    apply not_true_iff_false in E. apply E, existsb_key. exact Hx.
Qed.

(** It is remembered, or the list is full. *)
Lemma remember_left cx p t (cx' := remember_left_home cx p t) :
  path_key p ∈ path_key ∘ fst <$> left_homes cx' \/ length (left_homes cx') = MAX_LEFT_HOMES \/
  MAX_LEFT_HOMES < length (left_homes cx').
Proof.
  unfold cx', remember_left_home. case_bool_decide as Hl; cbn [andb]; [|lia].
  destruct (existsb _ _) eqn:E; cbn [negb]; [left; by apply existsb_key|].
  left. cbn. rewrite fmap_app. apply elem_of_app. right. by left.
Qed.

Lemma note_left_home_excused cx p t : excused cx (note_left_home cx p t).
Proof. eapply excused_trans; [apply remember_excused|apply note_limited_excused]. Qed.

Section read_laws.
Context `{Strerror}.

(** The errors that cannot make a collector Partial where [in_home] holds. *)
Definition excusable (home : bool) (e : io_error) : bool :=
  match e with Refused _ => true | Errno _ => built e && home end.

Lemma note_failed_grown h cx p e :
  grown cx (run h (note_failed cx p e)) /\
  (excusable (in_home (cx_root cx) p) e = true -> excused cx (run h (note_failed cx p e))).
Proof.
  assert (Hx : forall cx', excused cx cx' -> grown cx cx' /\
    (excusable (in_home (cx_root cx) p) e = true -> excused cx cx')) by (by intros cx' [? ?]).
  unfold note_failed. destruct e as [n|[q|q t]]; cbn [refusal_of].
  - rewrite run_bind. destruct (run h (if is_errno _ _ then _ else _)); [by apply Hx|]. cbn [run excusable] in *.
    destruct (built (Errno n) && in_home (cx_root cx) p); [apply Hx, note_limited_excused|].
    split; [apply note_unreadable_grown|done].
  - apply Hx, note_limited_excused.
  - apply Hx. eapply excused_trans; [apply remember_excused|apply note_limited_excused].
Qed.

Lemma record_grown h cx p cap o :
  grown cx (run h (record cx p cap o)) /\
  (match o with Outcome.Failed e => excusable (in_home (cx_root cx) p) e | _ => true end = true ->
   excused cx (run h (record cx p cap o))).
Proof.
  destruct o as [b [|]| |t| |e]; cbn [record run].
  all: try (split; [apply note_limited_excused|intros _; apply note_limited_excused]).
  - by split.
  - split; [apply note_left_home_excused|intros _; apply note_left_home_excused].
  - by split.
  - apply note_failed_grown.
Qed.

Lemma first_visit_grown h cx d seen x :
  run h (first_visit cx d seen) = x ->
  grown cx x.2 /\ (forall id, id ∈ x.1.2 <-> id ∈ seen \/ x.1.1 = Some id) /\
  (forall id, x.1.1 = Some id -> id ∉ seen /\ run h (dir_identity (cx_root cx) d) = Ok id) /\
  (x.1.1 = None -> forall id, run h (dir_identity (cx_root cx) d) = Ok id -> id ∈ seen).
Proof.
  intros <-. unfold first_visit. rewrite run_bind. destruct (run h (dir_identity _ _)) as [id|e] eqn:E; cbn [run].
  - case_bool_decide as Hs; cbn; split_and!; try done; set_solver.
  - destruct (is_not_found e); [|rewrite run_bind]; cbn; split_and!; try done; [set_solver|exact (proj1 (note_failed_grown h cx d e))|set_solver].
Qed.

(** Every identity seen is that of a directory listed. *)
Lemma distinct_from_ok {T : Type} h cx seen out (cs : list (T * path)) x :
  NoDup (snd ∘ fst <$> out) -> (forall id, id ∈ seen <-> id ∈ snd ∘ fst <$> out) ->
  run h (distinct_from cx seen out cs) = x ->
  grown cx x.2 /\ NoDup (snd ∘ fst <$> x.1) /\
  (forall l id d, (l, id, d) ∈ x.1 -> (l, id, d) ∈ out \/
     (l, d) ∈ cs /\ run h (dir_identity (cx_root cx) d) = Ok id) /\
  (forall o, o ∈ out -> o ∈ x.1) /\
  (forall l d id, (l, d) ∈ cs -> run h (dir_identity (cx_root cx) d) = Ok id -> id ∈ snd ∘ fst <$> x.1).
Proof.
  revert cx seen out x. induction cs as [|[l d] cs IH]; intros cx seen out x Hn Ho <-; cbn [distinct_from].
  - cbn. split_and!; try done; [by left|]. by intros ? ? ? ?%elem_of_nil.
  - rewrite run_bind. destruct (run h (first_visit cx d seen)) as [[oid seen'] cx'] eqn:Ev.
    apply first_visit_grown in Ev as (Hg & Hsub & Hsome & Hnone). cbn [fst snd] in *.
    set (out' := match oid with Some id => out ++ [(l, id, d)] | None => out end).
    assert (Hout : forall o, o ∈ out' <-> o ∈ out \/ exists id, oid = Some id /\ o = (l, id, d)).
    { intros o. unfold out'. destruct oid; [rewrite elem_of_app, list_elem_of_singleton|]; naive_solver. }
    assert (Hids : forall id, id ∈ seen' <-> id ∈ snd ∘ fst <$> out').
    { intros id. rewrite Hsub, Ho. unfold out'. destruct oid; [|naive_solver].
      rewrite fmap_app, elem_of_app. cbn. rewrite list_elem_of_singleton. naive_solver. }
    destruct (IH cx' seen' out' (run h (distinct_from cx' seen' out' cs))) as (G & Hnd & Hfrom & Hkeep & Hall); [|done|done|].
    { unfold out'. destruct oid as [id|]; [|done]. destruct (Hsome _ eq_refl) as [Hid _].
      rewrite fmap_app. apply NoDup_app. split; [done|]. split; [|apply NoDup_singleton].
      intros y Hy ->%list_elem_of_singleton. by apply Hid, Ho. }
    rewrite (gr_root _ _ Hg) in *. split_and!; [by etrans|done|..].
    + intros l' id d' Hi. destruct (Hfrom _ _ _ Hi) as [[Hi'|(id0 & -> & [= -> -> ->])]%Hout|[? ?]].
      * by left.
      * right. split; [by left|by destruct (Hsome _ eq_refl)].
      * right. split; [by right|done].
    + intros o Hi. apply Hkeep, Hout. by left.
    + intros l' d' id [[= -> ->]|Hi]%elem_of_cons Hid; [|by eapply Hall].
      assert (id ∈ seen') as Hs.
      { apply Hsub. destruct oid as [id0|]; [|left; by apply Hnone]. right. destruct (Hsome _ eq_refl). congruence. }
      apply Hids, list_elem_of_fmap in Hs as (o & -> & Hi). apply list_elem_of_fmap. eauto.
Qed.
End read_laws.

(** ** What an entry holds *)

(** What an operation on an entry leaves alone: who it is. *)
Definition identity_of (e : Entry.entry) : bytes * kind * path * bytes := (e_id e, e_kind e, e_source e, e_name e).

Lemma identity_note e k v : identity_of (Entry.note e k v) = identity_of e.
Proof. done. Qed.
Lemma identity_flag_if b e f : identity_of (flag_if b e f) = identity_of e.
Proof. unfold flag_if, Entry.flag. destruct b; [|done]. by destruct (mem f (e_flags e)). Qed.

Lemma has_flag_note e k v g : Entry.has_flag (Entry.note e k v) g = Entry.has_flag e g.
Proof. done. Qed.
Lemma has_flag_if b e f g : Entry.has_flag (flag_if b e f) g = b && bool_decide (f = g) || Entry.has_flag e g.
Proof.
  unfold flag_if. destruct b; [|done]. cbn [andb]. unfold Entry.has_flag, Entry.flag. apply Bool.eq_iff_eq_true.
  destruct (mem f (e_flags e)) eqn:Hf; unfold mem in *; cbn; rewrite orb_true_iff, !bool_decide_eq_true.
  - apply bool_decide_eq_true in Hf. naive_solver.
  - rewrite elem_of_app, list_elem_of_singleton. naive_solver.
Qed.

(** What an entry says of its file that a flag or a note does not change. *)
Definition facts_of (e : Entry.entry) : N * N * option system_time := (e_owner_uid e, e_mode e, e_mtime e).
Lemma facts_flag_if b e f : facts_of (flag_if b e f) = facts_of e.
Proof. unfold flag_if, Entry.flag. destruct b; [|done]. by destruct (mem f (e_flags e)). Qed.

(** The file whose ownership and permissions count. *)
Definition counted (h : snapshot) (r : root) (p : path) (link : meta) : meta :=
  if m_is_symlink link then match run h (stat_follow r p) with Ok m => m | Err _ => link end else link.

Lemma run_followed h r p link e :
  let x := run h (followed r p link e) in
  x.1 = counted h r p link /\ identity_of x.2 = identity_of e /\ e_flags x.2 = e_flags e /\ facts_of x.2 = facts_of e.
Proof.
  unfold followed, counted. destruct (m_is_symlink link); [|done]. rewrite !run_bind. cbn [run].
  destruct (run h (read_link r p)), (run h (stat_follow r p)) as [m|err]; cbn; try done; by destruct (refusal_of err).
Qed.

Definition mismatched (cx : ctx) (p : path) (m : meta) : bool :=
  match home_owner cx p with
  | Some owner => match u_uid owner with Some uid => negb (bool_decide (uid = m_uid m)) | None => false end
  | None => false
  end.

Lemma judged_facts cx p m e :
  identity_of (judged cx p m e) = identity_of e /\
  facts_of (judged cx p m e) = (m_uid m, perms m, e_mtime e) /\
  (forall g, Entry.has_flag (judged cx p m e) g =
     mismatched cx p m && bool_decide (Flag.OwnerMismatch = g)
     || ((m_is_file m || m_is_dir m) && world_writable m && bool_decide (Flag.WorldWritable = g) || Entry.has_flag e g)).
Proof.
  unfold judged, mismatched. destruct (home_owner cx p) as [owner|].
  - split; [by rewrite identity_flag_if, !identity_note, identity_flag_if|].
    split; [rewrite facts_flag_if; change (facts_of (Entry.note (Entry.note ?x _ _) _ _)) with (facts_of x);
      by rewrite facts_flag_if|].
    intros g. by rewrite has_flag_if, !has_flag_note, has_flag_if.
  - split; [by rewrite identity_flag_if|]. split; [by rewrite facts_flag_if|]. intros g. by rewrite has_flag_if.
Qed.

(** A directory anyone can replace a file of. *)
Definition open_to_all (h : snapshot) (r : root) (p : path) : bool :=
  match parent p with
  | Some dir => match run h (stat_follow r dir) with
                | Ok m => world_writable m && negb (is_sticky (m_mode m))
                | Err _ => false
                end
  | None => false
  end.

Section entry_laws.
Context `{Blake3}.

Definition fresh (cx : ctx) (k : kind) (p : path) (name : bytes) : Entry.entry :=
  Entry.rekey (Entry.new k (abs (cx_root cx) p) name) p.

Lemma run_entry h cx k p name :
  run h (entry cx k p name) =
  flag_if (is_hidden_path (path_join #"/" p))
    (flag_if (open_to_all h (cx_root cx) p)
       (match run h (stat (cx_root cx) p) with
        | Ok link =>
            let x := run h (followed (cx_root cx) p link (set_mtime (fresh cx k p name) (m_mtime link))) in
            judged cx (abs (cx_root cx) p) x.1 x.2
        | Err _ => fresh cx k p name
        end) Flag.WorldWritable) Flag.HiddenPath.
Proof.
  unfold entry. cbv zeta. rewrite run_bind, run_bind, run_bind. cbn [run]. f_equal.
  assert (E : forall e, run h (match parent p with
      | Some dir => m ← stat_follow (cx_root cx) dir;
          Ret match m with
              | Ok m => flag_if (world_writable m && negb (is_sticky (m_mode m))) e Flag.WorldWritable
              | Err _ => e
              end
      | None => Ret e end) = flag_if (open_to_all h (cx_root cx) p) e Flag.WorldWritable).
  { intros e. unfold open_to_all. destruct (parent p) as [dir|]; [|done]. rewrite run_bind. cbn [run].
    by destruct (run h (stat_follow (cx_root cx) dir)). }
  rewrite E. f_equal. destruct (run h (stat (cx_root cx) p)) as [link|e]; [|done]. by rewrite run_bind.
Qed.

Lemma run_entry_identity h cx k p name :
  identity_of (run h (entry cx k p name)) = (Entry.entry_id k p name, k, abs (cx_root cx) p, name).
Proof.
  rewrite run_entry, !identity_flag_if. destruct (run h (stat _ _)) as [link|e]; [|done]. cbv zeta.
  destruct (run_followed h (cx_root cx) p link (set_mtime (fresh cx k p name) (m_mtime link))) as (_ & Hi & _).
  destruct (judged_facts cx (abs (cx_root cx) p)
    (run h (followed (cx_root cx) p link (set_mtime (fresh cx k p name) (m_mtime link)))).1
    (run h (followed (cx_root cx) p link (set_mtime (fresh cx k p name) (m_mtime link)))).2) as (E & _).
  by rewrite E, Hi.
Qed.
End entry_laws.

(** ** What a scan accounts for *)

Section scan_laws.
Context `{Blake3}.

Definition has_source (es : list Entry.entry) (p : path) : Prop := exists e, e ∈ es /\ path_eqb (e_source e) p = true.

Lemma run_add_left_homes h r cx left es :
  let out := run h (add_left_homes r cx left es) in
  es `prefix_of` out /\ (cx_root cx = r -> forall p t, (p, t) ∈ left -> has_source out (abs r p)).
Proof.
  revert es. induction left as [|[p t] left IH]; intros es; cbn [add_left_homes].
  - cbn. split; [done|]. by intros _ ? ? ?%elem_of_nil.
  - case_match eqn:E.
    + destruct (IH es) as [Hp Hl]. split; [done|]. intros Hr p' t' [[= -> ->]|Hi]%elem_of_cons; [|by eapply Hl].
      apply existsb_exists in E as (e & He & Hs). exists e. split; [|done].
      eapply elem_of_prefix; [|exact Hp]. by apply list_elem_of_In.
    + cbv zeta. rewrite run_bind.
      set (name := match file_name p with Some n => from_utf8_lossy n | None => [] end).
      set (e := run h (entry cx Kind.UnfollowedLink p name)).
      set (e' := Entry.note e _ _). destruct (IH (es ++ [e'])) as [Hp Hl]. split; [by eapply prefix_app_l|].
      intros Hr p' t' [[= -> ->]|Hi]%elem_of_cons; [|by eapply Hl]. exists e'. split.
      * eapply elem_of_prefix; [|exact Hp]. apply elem_of_app. right. by left.
      * pose proof (run_entry_identity h cx Kind.UnfollowedLink p name) as E2. apply path_eqb_key.
        change (e_source e') with ((identity_of e).1.2). fold e in E2. by rewrite E2, Hr.
Qed.

Variable h : snapshot.
Variable r : root.
Variable users : list user.
Variable deep : bool.

(** What a collector's own code comes to. *)
Definition collected (c : collector) : result payload (list Entry.entry) * ctx :=
  run h (c_collect c (mk_ctx r users [] [] [])).
Definition is_skipped (c : collector) : bool := c_deep_only c && negb deep.

(** Its entries with those of its refused links, before their ids are told
    apart. *)
Definition labelled (c : collector) (es : list Entry.entry) : list Entry.entry :=
  (fun e => set_collector e (Some (c_name c))) <$>
    run h (add_left_homes r (set_left_homes (collected c).2 []) (left_homes (collected c).2) es).

(** BLAKE3 does not collide on what [dedup_ids] hashes for this collector,
    and its counters do not wrap. *)
Definition ids_ok (c : collector) : Prop :=
  forall es, (collected c).1 = Ok es ->
    collision_free (suffixed_of (labelled c es) (length (labelled c es))) /\
    (N.of_nat (length (labelled c es)) + 3 < 2 ^ 32)%N.

(** What a scan must say of one collector. *)
Record reports (c : collector) (x : collector_status * list Entry.entry) : Prop := mk_reports {
  rp_name : cs_name x.1 = c_name c;
  rp_count : cs_entries x.1 = length x.2;
  rp_label : Forall (fun e => e_collector e = Some (c_name c)) x.2;
  rp_ids : NoDup (e_id <$> x.2);
  rp_outcome :
    if is_skipped c then x = (skipped (c_name c) #"needs --deep", [])
    else cs_truncated x.1 = truncated (collected c).2 /\
      match (collected c).1 with
      | Err p => cs_status x.1 = Status.Failed (panic_message p) /\ x.2 = []
      | Ok es =>
          cs_status x.1 = match unreadable (collected c).2 with
                          | [] => Status.Complete
                          | u => Status.Partial u
                          end /\
          Forall2 deduped (labelled c es) x.2 /\
          (forall e, e ∈ es -> has_source x.2 (e_source e)) /\
          (cx_root (collected c).2 = r ->
           forall p t, (p, t) ∈ left_homes (collected c).2 -> has_source x.2 (abs r p))
      end
}.

Lemma deduped_frame e e' : deduped e e' -> e_source e' = e_source e /\ e_collector e' = e_collector e.
Proof. intros [-> | [k ->]]; done. Qed.

Lemma deduped_source l l' p : Forall2 deduped l l' -> has_source l p -> has_source l' p.
Proof.
  intros Hd (e & He & Hs). apply list_elem_of_lookup in He as [i Hi].
  destruct (Forall2_lookup_l _ _ _ _ _ Hd Hi) as (e' & Hi' & [E _]%deduped_frame).
  exists e'. split; [by eapply list_elem_of_lookup_2|by rewrite E].
Qed.

Lemma labelled_source c es p :
  has_source (run h (add_left_homes r (set_left_homes (collected c).2 []) (left_homes (collected c).2) es)) p ->
  has_source (labelled c es) p.
Proof.
  intros (e & He & Hs). exists (set_collector e (Some (c_name c))). split; [|done].
  unfold labelled. apply list_elem_of_fmap. by exists e.
Qed.

Lemma run_collector_reports c :
  ids_ok c -> exists x, run h (run_collector r users deep c) = Some x /\ reports c x.
Proof.
  intros Hok. unfold run_collector. fold (is_skipped c). destruct (is_skipped c) eqn:Esk.
  { eexists. split; [done|]. split; try done; [constructor|]. by rewrite Esk. }
  rewrite run_bind. fold (collected c). destruct (collected c) as [[es|p] cx] eqn:Ec.
  - rewrite run_bind. destruct (Hok es) as [Hf Hr]; [by rewrite Ec|].
    destruct (dedup_ids_ok _ Hf Hr) as (out & Hout & Hn & Hd & _).
    assert (El : labelled c es = (fun e => set_collector e (Some (c_name c))) <$>
      run h (add_left_homes r (set_left_homes cx []) (left_homes cx) es)) by (unfold labelled; by rewrite Ec).
    cbn [run]. rewrite <- El, Hout. eexists. split; [done|].
    destruct (run_add_left_homes h r (set_left_homes cx []) (left_homes cx) es) as [Hp Hl].
    assert (Hsrc : forall p, has_source (run h (add_left_homes r (set_left_homes cx []) (left_homes cx) es)) p ->
      has_source out p).
    { intros p Hs. eapply deduped_source; [exact Hd|]. apply labelled_source. by rewrite Ec. }
    split; cbn [fst snd cs_name cs_entries]; [done|done| |done|].
    + apply Forall_forall. intros e' He'. apply list_elem_of_lookup in He' as [i Hi].
      destruct (Forall2_lookup_r _ _ _ _ _ Hd Hi) as (e & Hi' & [_ E]%deduped_frame). rewrite E.
      rewrite El, list_lookup_fmap in Hi'. by apply fmap_Some in Hi' as (e0 & _ & ->).
    + rewrite Esk, Ec. cbn [fst snd cs_status cs_truncated]. split_and!; [done|by case_match|done| |].
      * intros e He. apply Hsrc. exists e. split; [by eapply elem_of_prefix|by apply path_eqb_key].
      * intros Hr' p t Hi. apply Hsrc. by eapply Hl.
  - eexists. split; [done|]. split; try done; [constructor|]. rewrite Esk, Ec. done.
Qed.

Lemma run_collectors_report cs :
  Forall ids_ok cs -> exists xs, run h (run_collectors r users deep cs) = Some xs /\ Forall2 reports cs xs.
Proof.
  induction 1 as [|c cs Hc Hcs IH]; cbn [run_collectors]; [by exists []|].
  rewrite !run_bind. destruct (run_collector_reports c Hc) as (x & -> & Hx). destruct IH as (xs & -> & Hxs).
  exists (x :: xs). split; [done|]. by constructor.
Qed.
End scan_laws.

(** ** Properties *)


(** A read is recorded as what it was: whole, it leaves no note; cut,
    absent, refused, or failing in a home the way its owner can make a path
    fail, it never makes the collector Partial; a link out of a home is
    remembered unless the list is full, which holds a path once. *)
Theorem read_recorded `{Strerror} h cx p cap (x := run h (read_capped cx p cap)) :
  grown cx x.2 /\
  match run h (Root.read_capped (cx_root cx) p cap) with
  | Ok (b, cut) => x.1 = Some b /\ unreadable x.2 = unreadable cx /\ (cut = false -> x.2 = cx)
  | Err e =>
      x.1 = None /\ (is_not_found e = true -> x.2 = cx) /\
      (excusable (in_home (cx_root cx) p) e = true -> unreadable x.2 = unreadable cx) /\
      forall q target, e = Refused (Refusal.LeavesHome q target) ->
        path_key p ∈ path_key ∘ fst <$> left_homes x.2 \/ MAX_LEFT_HOMES <= length (left_homes x.2)
  end.
Proof.
  unfold x, read_capped. rewrite run_bind. set (o := run h (read_outcome cx p cap)). rewrite run_bind. cbn [run fst snd].
  destruct (record_grown h cx p cap o) as [Hg Hx]. split; [exact Hg|].
  assert (Ho : o = run h (read_outcome cx p cap)) by done. unfold read_outcome in Ho. rewrite run_bind in Ho.
  destruct (run h (Root.read_capped _ _ _)) as [[b cut]|e]; cbn [run] in Ho.
  - rewrite Ho in Hx |- *. split; [done|]. split; [by apply Hx|]. by intros ->.
  - destruct e as [n|[q|q t]]; cbn [refusal_of] in Ho.
    + destruct (is_not_found (Errno n)) eqn:En; rewrite Ho in Hx |- *.
      * split_and!; [done|done|done|]. by intros q t [=].
      * split_and!; [done|by intros|by intros E; apply Hx|]. by intros q t [=].
    + rewrite Ho in Hx |- *. split_and!; [done|done|by intros E; apply Hx|]. by intros q' t [=].
    + rewrite Ho in Hx |- *. split_and!; [done|done|by intros E; apply Hx|]. intros _ _ _.
      cbn [record run]. unfold note_left_home.
      destruct (remember_left cx p t) as [?|[?|?]]; [by left|right; cbn; lia|right; cbn; lia].
Qed.

(** A directory reached by several names is walked once: the directories
    kept have identities of their own, each is a candidate with the identity
    it had, and none that could be looked at is lost. *)
Theorem distinct_dirs_once `{Strerror} {T : Type} h cx (cs : list (T * path)) (x := run h (distinct_dirs cx cs)) :
  NoDup (snd ∘ fst <$> x.1) /\
  (forall l id d, (l, id, d) ∈ x.1 -> (l, d) ∈ cs /\ run h (dir_identity (cx_root cx) d) = Ok id) /\
  (forall l d id, (l, d) ∈ cs -> run h (dir_identity (cx_root cx) d) = Ok id -> id ∈ snd ∘ fst <$> x.1).
Proof.
  destruct (distinct_from_ok h cx ∅ [] cs x) as (_ & H1 & H2 & _ & H3); [constructor|set_solver|done|].
  split_and!; [done| |done]. intros l id d Hi. by destruct (H2 _ _ _ Hi) as [?%elem_of_nil|?].
Qed.

(** An entry is identified by its kind, its path in the root and its name,
    wherever the root is mounted, and reported where the root is; owner, mode
    and time are the file's, a link's being those of what it leads to, its
    time its own; and the three flags are set exactly when they hold. *)
Theorem entry_facts `{Blake3} h cx k p name (e := run h (entry cx k p name)) :
  identity_of e = (Entry.entry_id k p name, k, abs (cx_root cx) p, name) /\
  (Entry.has_flag e Flag.HiddenPath = is_hidden_path (path_join #"/" p)) /\
  match run h (stat (cx_root cx) p) with
  | Ok link =>
      let m := counted h (cx_root cx) p link in
      facts_of e = (m_uid m, perms m, m_mtime link) /\
      Entry.has_flag e Flag.OwnerMismatch = mismatched cx (abs (cx_root cx) p) m /\
      Entry.has_flag e Flag.WorldWritable =
        open_to_all h (cx_root cx) p || (m_is_file m || m_is_dir m) && world_writable m
  | Err _ =>
      facts_of e = (0%N, 0%N, None) /\ Entry.has_flag e Flag.OwnerMismatch = false /\
      Entry.has_flag e Flag.WorldWritable = open_to_all h (cx_root cx) p
  end.
Proof.
  split; [apply run_entry_identity|]. unfold e. rewrite run_entry.
  destruct (run h (stat (cx_root cx) p)) as [link|err]; cbv zeta.
  - pose (x := run h (followed (cx_root cx) p link (set_mtime (fresh cx k p name) (m_mtime link)))).
    destruct (run_followed h (cx_root cx) p link (set_mtime (fresh cx k p name) (m_mtime link))) as (Em & _ & Ef & Efa).
    fold x in Em, Ef, Efa |- *. destruct (judged_facts cx (abs (cx_root cx) p) x.1 x.2) as (_ & Hfa & Hfl).
    assert (Hno : forall g, Entry.has_flag x.2 g = false) by (intros g; unfold Entry.has_flag; by rewrite Ef).
    rewrite <- Em. unfold facts_of in Efa. injection Efa as _ _ Et.
    split; [|split; [|split]].
    + rewrite !has_flag_if, Hfl, Hno. cbn. by rewrite !andb_false_r, !andb_true_r, !orb_false_r.
    + rewrite !facts_flag_if, Hfa. by rewrite Et.
    + rewrite !has_flag_if, Hfl, Hno. cbn. by rewrite !andb_false_r, !andb_true_r, !orb_false_r.
    + rewrite !has_flag_if, Hfl, Hno. cbn. by rewrite !andb_false_r, !andb_true_r, !orb_false_r.
  - rewrite !facts_flag_if, !has_flag_if. cbn. by rewrite !andb_false_r, !andb_true_r, ?orb_false_r.
Qed.

(** ** Witnesses *)

Module ScanDemo.
#[local] Instance demo_blake3 : Blake3 := fun x => x.
#[local] Instance demo_strerror : Strerror := fun _ => #"error".

Definition machine : machine := mk_machine #"host" #"6.1" 0 true #"0.3.4".

(** One that reads a link out of a home, one that panics, one not asked for. *)
Definition reader : collector :=
  mk_collector #"reader" false (fun cx =>
    x ← read cx #"home/u/l";
    e ← entry x.2 Kind.Cron #"home/u/f" #"job";
    Ret (Ok [e; e], x.2)).
Definition panics : collector := mk_collector #"panics" false (fun cx => Ret (Err (StaticStr #"boom"), cx)).
Definition deep : collector := mk_collector #"deep" true (fun cx => Ret (Ok [], cx)).
Definition collectors : list collector := [reader; panics; deep].
Definition scan_of : option scan := run Demo.kernel (run_scan machine Demo.tree false collectors).
End ScanDemo.

Example scan_demo :
  (fun s => (cs_name <$> h_collectors (s_header s), cs_status <$> h_collectors (s_header s), e_name <$> s_entries s)) <$>
    ScanDemo.scan_of =
  Some ([ #"deep"; #"panics"; #"reader"],
        [Status.Skipped #"needs --deep"; Status.Failed #"boom"; Status.Complete],
        [ #"job"; #"job#2"; #"l"]).
Proof. by vm_compute. Qed.


Lemma read_recorded_witness :
  let cx := mk_ctx Demo.tree [] [] [] [] in
  let x := run Demo.kernel (read_capped (H := ScanDemo.demo_strerror) cx #"home/u/l" 10) in
  unreadable x.2 = [] /\ (path_key #"home/u/l" ∈ path_key ∘ fst <$> left_homes x.2 \/
    MAX_LEFT_HOMES <= length (left_homes x.2)).
Proof.
  intros cx x. destruct (@read_recorded ScanDemo.demo_strerror Demo.kernel cx #"home/u/l" 10) as [_ H].
  replace (run Demo.kernel (Root.read_capped (cx_root cx) #"home/u/l" 10)) with
    (@Err io_error (bytes * bool) (leaves_home #"home/u/l" #"/etc/shadow")) in H by (vm_compute; reflexivity).
  destruct H as (_ & _ & H1 & H2). split; [apply H1; vm_compute; reflexivity|].
  apply (H2 #"home/u/l" #"/etc/shadow"). reflexivity.
Defined.

Lemma distinct_dirs_once_witness :
  let cx := mk_ctx Demo.tree [] [] [] [] in
  let x := run Demo.kernel (distinct_dirs (H := ScanDemo.demo_strerror) cx [(1, #"etc"); (2, #"home")]) in
  (1, 1)%N ∈ snd ∘ fst <$> x.1.
Proof.
  intros cx x.
  destruct (@distinct_dirs_once ScanDemo.demo_strerror nat Demo.kernel cx [(1, #"etc"); (2, #"home")]) as (_ & _ & H).
  apply (H 1 #"etc"); [left|vm_compute; reflexivity].
Defined.
