(* ===== verification/PathMap.v ===== *)
(** [BTreeMap] and [BTreeSet] over paths. A path is a key by its components,
    so two spellings are one key, and the spelling kept is the first. *)

From S2P Require Import Prelude Slices Order Paths.

Abbreviation pkey := (list component).
(** A map: under each key, the spelling it was inserted with and the value. *)
Notation pmap V := (@gmap pkey list_eq_dec list_countable (path * V)).
Notation pset := (pmap unit).

Definition pm_empty {V} : pmap V := ∅.
Definition pm_get {V} (m : pmap V) (p : path) : option V := snd <$> m !! components p.
Definition pm_mem {V} (m : pmap V) (p : path) : bool := bool_decide (is_Some (pm_get m p)).
(** [insert]: the value is replaced, the key is not. *)
Definition pm_insert {V} (p : path) (v : V) (m : pmap V) : pmap V :=
  <[components p := (default p (fst <$> m !! components p), v)]> m.
(** [entry(p).or_default()] and a change to it. *)
Definition pm_update {V} (d : V) (f : V -> V) (p : path) (m : pmap V) : pmap V :=
  pm_insert p (f (default d (pm_get m p))) m.
Definition pm_list {V} (m : pmap V) : list (path * V) := btree_values m.
Definition pm_extend {V} (m m' : pmap V) : pmap V := foldl (fun m pv => pm_insert (fst pv) (snd pv) m) m (pm_list m').

Definition ps_insert (p : path) (s : pset) : pset := if pm_mem s p then s else pm_insert p tt s.
Definition ps_of (ps : list path) : pset := foldl (fun s p => ps_insert p s) pm_empty ps.
Definition ps_list (s : pset) : list path := fst <$> pm_list s.

(** Every spelling kept is of its key. *)
Definition pm_ok {V} (m : pmap V) : Prop := forall k q v, m !! k = Some (q, v) -> components q = k.

Lemma pm_ok_empty {V} : pm_ok (@pm_empty V).
Proof. intros k q v H. unfold pm_empty in H. by rewrite lookup_empty in H. Qed.

Lemma pm_ok_insert {V} (m : pmap V) p v : pm_ok m -> pm_ok (pm_insert p v m).
Proof.
  intros Hm k q w. unfold pm_insert. intros [[<- [= <- <-]]|[_ H]]%lookup_insert_Some; [|by eapply Hm].
  destruct (m !! components p) as [[q' v']|] eqn:E; [|done]. by apply Hm in E.
Qed.

Lemma pm_get_insert_eq {V} (m : pmap V) p q v : components p = components q -> pm_get (pm_insert p v m) q = Some v.
Proof. intros E. unfold pm_get, pm_insert. by rewrite E, lookup_insert_eq. Qed.
Lemma pm_get_insert_ne {V} (m : pmap V) p q v :
  components p <> components q -> pm_get (pm_insert p v m) q = pm_get m q.
Proof. intros E. unfold pm_get, pm_insert. by rewrite lookup_insert_ne. Qed.
Lemma pm_get_insert {V} (m : pmap V) p q v :
  pm_get (pm_insert p v m) q = if path_eqb p q then Some v else pm_get m q.
Proof.
  unfold path_eqb. case_bool_decide; [by apply pm_get_insert_eq|by apply pm_get_insert_ne].
Qed.
Lemma pm_get_empty {V} p : pm_get (@pm_empty V) p = None.
Proof. unfold pm_get, pm_empty. by rewrite lookup_empty. Qed.

Lemma pm_get_update {V} (d : V) f m p q :
  pm_get (pm_update d f p m) q = if path_eqb p q then Some (f (default d (pm_get m p))) else pm_get m q.
Proof. apply pm_get_insert. Qed.

Lemma pm_get_components {V} (m : pmap V) p q : components p = components q -> pm_get m p = pm_get m q.
Proof. intros E. unfold pm_get. by rewrite E. Qed.

Lemma elem_of_pm_list {V} (m : pmap V) q v : (q, v) ∈ pm_list m <-> exists k, m !! k = Some (q, v).
Proof.
  unfold pm_list, btree_values. rewrite list_elem_of_fmap. split.
  - intros ([k x] & E & H). cbn in E. subst x. exists k. by apply elem_of_btree_to_list in H.
  - intros [k H]. exists (k, (q, v)). split; [done|]. by apply elem_of_btree_to_list.
Qed.

Lemma pm_list_get {V} (m : pmap V) q v : pm_ok m -> (q, v) ∈ pm_list m -> pm_get m q = Some v.
Proof. intros Hm [k H]%elem_of_pm_list. unfold pm_get. by rewrite (Hm _ _ _ H), H. Qed.

Lemma pm_get_list {V} (m : pmap V) p v :
  pm_ok m -> pm_get m p = Some v -> exists q, (q, v) ∈ pm_list m /\ components q = components p.
Proof.
  intros Hm H. unfold pm_get in H. destruct (m !! components p) as [[q w]|] eqn:E; [|done].
  injection H as ->. exists q. split; [apply elem_of_pm_list; eauto|by apply Hm in E].
Qed.

Lemma pm_list_functional {V} (m : pmap V) q q' v v' :
  pm_ok m -> (q, v) ∈ pm_list m -> (q', v') ∈ pm_list m -> components q = components q' -> v = v'.
Proof.
  intros Hm H H' E. apply pm_list_get in H, H'; try done. rewrite (pm_get_components m q q' E) in H. congruence.
Qed.

Lemma pm_foldl_insert {V} (l : list (path * V)) m p :
  (forall q q' v v', (q, v) ∈ l -> (q', v') ∈ l -> components q = components q' -> v = v') ->
  pm_get (foldl (fun m pv => pm_insert (fst pv) (snd pv) m) m l) p =
  match find (fun pv => path_eqb (fst pv) p) l with Some (_, v) => Some v | None => pm_get m p end.
Proof.
  revert m. induction l as [|[q v] l IH]; intros m Hf; [done|]. cbn [foldl find fst snd].
  rewrite IH by (intros a b c d Ha Hb; apply (Hf a b c d); by right).
  rewrite pm_get_insert. destruct (path_eqb q p) eqn:E; [|done]. destruct (find _ l) as [[q' v']|] eqn:Ef; [|done].
  apply find_some in Ef as [Hin E']. apply bool_decide_eq_true in E, E'. cbn in E'. f_equal.
  eapply (Hf q' q); [right; by apply list_elem_of_In|left|by rewrite E, E'].
Qed.

Lemma pm_get_extend {V} (m m' : pmap V) p :
  pm_ok m' -> pm_get (pm_extend m m') p = match pm_get m' p with Some v => Some v | None => pm_get m p end.
Proof.
  intros Hm. unfold pm_extend. rewrite pm_foldl_insert by (intros q q' v v'; by apply pm_list_functional).
  destruct (find _ _) as [[q v]|] eqn:E.
  - apply find_some in E as [Hin E]. apply bool_decide_eq_true in E. cbn in E.
    apply list_elem_of_In, (pm_list_get _ _ _ Hm) in Hin. by rewrite <- (pm_get_components m' q p E), Hin.
  - destruct (pm_get m' p) as [v|] eqn:Eg; [|done]. exfalso.
    apply (pm_get_list _ _ _ Hm) in Eg as (q & Hin & Eq). eapply find_none in E; [|by apply list_elem_of_In].
    apply bool_decide_eq_false in E. done.
Qed.

Lemma pm_ok_foldl {V} (l : list (path * V)) m :
  pm_ok m -> pm_ok (foldl (fun m pv => pm_insert (fst pv) (snd pv) m) m l).
Proof. revert m. induction l as [|pv l IH]; intros m Hm; [done|]. apply IH. by apply pm_ok_insert. Qed.
Lemma pm_ok_extend {V} (m m' : pmap V) : pm_ok m -> pm_ok (pm_extend m m').
Proof. apply pm_ok_foldl. Qed.

Lemma pm_mem_true {V} (m : pmap V) p : pm_mem m p = true <-> is_Some (pm_get m p).
Proof. apply bool_decide_eq_true. Qed.

Lemma ps_get_insert s p q : pm_mem (ps_insert p s) q = path_eqb p q || pm_mem s q.
Proof.
  unfold ps_insert. destruct (pm_mem s p) eqn:E.
  - unfold path_eqb. case_bool_decide as Hc; [|done]. cbn. unfold pm_mem in *. by rewrite <- (pm_get_components s p q Hc).
  - unfold pm_mem. rewrite pm_get_insert. destruct (path_eqb p q); [|done]. by apply bool_decide_eq_true.
Qed.

Lemma ps_ok_insert s p : pm_ok s -> pm_ok (ps_insert p s).
Proof. intros H. unfold ps_insert. case_match; [done|]. by apply pm_ok_insert. Qed.

Lemma ps_of_ok_from ps s : pm_ok s -> pm_ok (foldl (fun s p => ps_insert p s) s ps).
Proof. revert s. induction ps as [|p ps IH]; intros s Hs; [done|]. apply IH. by apply ps_ok_insert. Qed.
Lemma ps_of_ok ps : pm_ok (ps_of ps).
Proof. apply ps_of_ok_from, pm_ok_empty. Qed.

Lemma ps_mem_from ps s q : pm_mem (foldl (fun s p => ps_insert p s) s ps) q = existsb (fun p => path_eqb p q) ps || pm_mem s q.
Proof.
  revert s. induction ps as [|p ps IH]; intros s; [done|]. cbn [foldl existsb]. rewrite IH, ps_get_insert.
  destruct (path_eqb p q); cbn; [by rewrite orb_true_r|done].
Qed.
Lemma ps_of_mem ps q : pm_mem (ps_of ps) q = existsb (fun p => path_eqb p q) ps.
Proof.
  unfold ps_of. rewrite ps_mem_from. unfold pm_mem. rewrite pm_get_empty.
  rewrite bool_decide_false by (by intros [? ?]). by rewrite orb_false_r.
Qed.
