(* ===== verification/Provenance.v ===== *)
(** [src/provenance/mod.rs]: which package shipped a file. The backends are
    asked in turn, then the two producers that explain what no package claims;
    what is left is judged by whether the databases were read whole. *)

From S2P Require Import Prelude Slices Order Num Utf8 Paths PathMap Kinds Entry Sys Root RootLaws Scan.

Notation answers := (pmap provenance).

Definition NOT_READ_WHOLE : bytes := #"not read to the end".

Module Database.
Inductive outcome :=
| Absent
| Complete (a : answers)
| Incomplete (a : answers) (why : bytes).
End Database.

Record resolution := mk_resolution {
  rs_answers : answers; rs_failures : list bytes; rs_databases : list bytes
}.

Definition backend : Type := root -> pset -> prog (result payload Database.outcome).

(** [collect()] into a set: of two equal paths the last is kept. *)
Definition ps_collect (ps : list path) : pset := foldl (fun (s : pset) p => <[components p := (p, tt)]> s) pm_empty ps.

(** What [resolve_with] takes from [reproduced] and [generated]: the paths a
    reproduction reads, and the two classifications, each of which may
    panic. *)
Class Producers := {
  reproduced_inputs : root -> pset -> prog (list path);
  reproduced_classify : root -> pset -> answers -> prog (result payload answers);
  generated_classify : root -> pset -> prog (result payload answers)
}.

Record progress := mk_progress {
  pg_out : answers; pg_failures : list bytes; pg_ran : bool; pg_failed : bool; pg_databases : list bytes
}.

Definition backend_step (st : progress) (name : bytes) (o : result payload Database.outcome) : progress :=
  match o with
  | Ok (Database.Complete a) =>
      mk_progress (pm_extend (pg_out st) a) (pg_failures st) true (pg_failed st) (pg_databases st ++ [name])
  | Ok (Database.Incomplete a why) =>
      mk_progress (pm_extend (pg_out st) a)
        (pg_failures st ++ [name ++ #" database " ++ NOT_READ_WHOLE ++ #": " ++ why])
        (pg_ran st) true (pg_databases st ++ [name])
  | Ok Database.Absent => st
  | Err p =>
      mk_progress (pg_out st) (pg_failures st ++ [name ++ #" database: " ++ panic_message p]) (pg_ran st) true
        (pg_databases st)
  end.

Fixpoint ask (r : root) (wanted : pset) (backends : list (bytes * backend)) (st : progress) : prog progress :=
  match backends with
  | [] => Ret st
  | (name, b) :: backends' => o ← b r wanted; ask r wanted backends' (backend_step st name o)
  end.

(** A producer's answers, or its panic as a failure. *)
Definition absorb (what : bytes) (x : result payload answers) (out : answers) (failures : list bytes)
    : answers * list bytes :=
  match x with
  | Ok a => (pm_extend out a, failures)
  | Err p => (out, failures ++ [what ++ #": " ++ panic_message p])
  end.

Definition unclaimed (wanted : pset) (out : answers) : pset :=
  ps_collect (List.filter (fun p => negb (pm_mem out p)) (ps_list wanted)).

Definition or_verdict (verdict : provenance) (out : answers) (p : path) : answers :=
  if pm_mem out p then out else pm_insert p verdict out.

Section resolving.
Context `{Producers}.

Definition asked_of (r : root) (wanted : pset) : prog pset :=
  ins ← reproduced_inputs r wanted; Ret (ps_collect (ps_list wanted ++ ins)).

Definition resolve_with (r : root) (wanted : pset) (backends : list (bytes * backend)) : prog resolution :=
  wanted ← asked_of r wanted;
  st ← ask r wanted backends (mk_progress pm_empty [] false false []);
  x ← reproduced_classify r wanted (pg_out st);
  let '(out, failures) := absorb #"reproductions" x (pg_out st) (pg_failures st) in
  y ← generated_classify r (unclaimed wanted out);
  let '(out, failures) := absorb #"runtime producers" y out failures in
  let verdict := if pg_ran st && negb (pg_failed st) then Provenance.Unpackaged else Provenance.Unknown in
  Ret (mk_resolution (foldl (or_verdict verdict) out (ps_list wanted)) failures (pg_databases st)).
End resolving.

(** ** Spellings *)

Definition ALIASED : list bytes := [ #"bin"; #"sbin"; #"lib"; #"lib64"].

Definition usr_alias (text : bytes) (dir : bytes) : list path :=
  match strip_prefix (#"usr/" ++ dir ++ #"/") text with
  | Some rest => [dir ++ #"/" ++ rest]
  | None =>
      match strip_prefix (dir ++ #"/") text with
      | Some rest => [ #"usr/" ++ dir ++ #"/" ++ rest]
      | None => []
      end
  end.
Definition usr_aliases (rel : path) : list path := rel :: (ALIASED ≫= usr_alias (from_utf8_lossy rel)).

Definition add_spelling (out : list path) (alias : path) : list path :=
  if existsb (path_eqb alias) out then out else out ++ [alias].

Definition spellings (r : root) (rel : path) : prog (list path) :=
  let out := usr_aliases rel in
  match parent rel, file_name rel with
  | Some parent, Some name =>
      real ← resolve r parent;
      Ret match real with
          | Ok real =>
              let resolved := path_join real name in
              if path_eqb resolved rel then out else foldl add_spelling out (usr_aliases resolved)
          | Err _ => out
          end
  | _, _ => Ret out
  end.

(** ** Digests *)

(** The three digests, in hexadecimal: packages. *)
Class Digests := { sha256_hex : bytes -> bytes; md5_hex : bytes -> bytes; sha1_hex : bytes -> bytes }.

Record file_digests := mk_file_digests { fd_sha256 : bytes; fd_md5 : bytes; fd_sha1 : bytes }.
Definition HASH_SIZE_LIMIT : N := N.shiftl 256 20.

Definition digests `{Digests} (r : root) (rel : path) : prog (option file_digests) :=
  m ← stat_follow r rel;
  match m with
  | Err _ => Ret None
  | Ok m =>
      if negb (m_is_file m) || (HASH_SIZE_LIMIT <? m_size m)%N then Ret None
      else
        f ← open r rel;
        match f with
        | Err _ => Ret None
        | Ok f =>
            b ← call (ReadToEnd f);
            Ret match b with
                | Ok b => Some (mk_file_digests (sha256_hex b) (md5_hex b) (sha1_hex b))
                | Err _ => None
                end
        end
  end.

(** ** Who answers *)

Lemma pm_ok_collect_from (ps : list path) (s : pset) :
  pm_ok s -> pm_ok (foldl (fun (s : pset) p => <[components p := (p, tt)]> s) s ps).
Proof.
  revert s. induction ps as [|p ps IH]; intros s Hs; [done|]. apply IH.
  intros k q v [[<- [= <- _]]|[_ H]]%lookup_insert_Some; [done|by eapply Hs].
Qed.
Lemma ps_collect_ok (ps : list path) : pm_ok (ps_collect ps).
Proof. apply pm_ok_collect_from, pm_ok_empty. Qed.

Lemma ps_collect_mem_from (ps : list path) (s : pset) q :
  pm_mem (foldl (fun (s : pset) p => <[components p := (p, tt)]> s) s ps) q = existsb (fun p => path_eqb p q) ps || pm_mem s q.
Proof.
  revert s. induction ps as [|p ps IH]; intros s; [done|]. cbn [foldl existsb]. rewrite IH.
  assert (pm_mem (<[components p := (p, tt)]> s) q = path_eqb p q || pm_mem s q) as ->.
  { unfold pm_mem, pm_get, path_eqb. destruct (decide (components p = components q)) as [E|E].
    - rewrite E, lookup_insert_eq, !bool_decide_true by eauto. done.
    - rewrite lookup_insert_ne, (bool_decide_false (components p = components q)) by done. done. }
  destruct (path_eqb p q), (existsb _ ps); done.
Qed.
Lemma ps_collect_mem (ps : list path) (q : path) : pm_mem (ps_collect ps) q = existsb (fun p => path_eqb p q) ps.
Proof.
  unfold ps_collect. rewrite ps_collect_mem_from. unfold pm_mem. rewrite pm_get_empty.
  rewrite bool_decide_false by (by intros [? ?]). by rewrite orb_false_r.
Qed.

Lemma path_eqb_eq p q : path_eqb p q = true <-> components p = components q.
Proof. apply bool_decide_eq_true. Qed.

Lemma ps_list_mem (s : pset) (q : path) : pm_ok s -> existsb (fun p => path_eqb p q) (ps_list s) = pm_mem s q.
Proof.
  intros Hs. apply Bool.eq_iff_eq_true. rewrite existsb_exists, pm_mem_true. unfold ps_list. split.
  - intros (p & Hin & E%path_eqb_eq). apply list_elem_of_In, list_elem_of_fmap in Hin as ([p' []] & -> & Hin).
    apply (pm_list_get _ _ _ Hs) in Hin. rewrite <- (pm_get_components s _ q E). eauto.
  - intros [[] Hg]. apply (pm_get_list _ _ _ Hs) in Hg as (p & Hin & E). exists p. split; [|by apply path_eqb_eq].
    apply list_elem_of_In, list_elem_of_fmap. by exists (p, tt).
Qed.

Lemma or_verdict_get (v : provenance) (out : answers) (ps : list path) (q : path) :
  pm_get (foldl (or_verdict v) out ps) q =
  match pm_get out q with
  | Some w => Some w
  | None => if existsb (fun p => path_eqb p q) ps then Some v else None
  end.
Proof.
  revert out. induction ps as [|p ps IH]; intros out; cbn [foldl existsb]; [by destruct (pm_get out q)|].
  rewrite IH. unfold or_verdict. destruct (pm_mem out p) eqn:E.
  - destruct (pm_get out q) eqn:Eq; [done|]. destruct (path_eqb p q) eqn:Epq; [|done].
    apply path_eqb_eq in Epq. apply pm_mem_true in E as [w E]. by rewrite (pm_get_components out p q Epq), Eq in E.
  - rewrite pm_get_insert. destruct (path_eqb p q) eqn:Epq; [|done].
    apply path_eqb_eq in Epq. unfold pm_mem in E. apply bool_decide_eq_false in E.
    rewrite <- (pm_get_components out p q Epq). destruct (pm_get out p); [|done]. destruct E. eauto.
Qed.

Definition outcome_answers (o : result payload Database.outcome) : answers :=
  match o with Ok (Database.Complete a) | Ok (Database.Incomplete a _) => a | _ => pm_empty end.
Definition read_whole (o : result payload Database.outcome) : bool :=
  match o with Ok (Database.Complete _) => true | _ => false end.
Definition not_whole (o : result payload Database.outcome) : bool :=
  match o with Ok (Database.Incomplete _ _) | Err _ => true | _ => false end.

(** The last database to answer for a path is the one heard. *)
Definition database_answer (os : list (result payload Database.outcome)) (p : path) : option provenance :=
  foldl (fun a o => match pm_get (outcome_answers o) p with Some v => Some v | None => a end) None os.

Lemma backend_step_get st name o p :
  pm_ok (outcome_answers o) ->
  pm_get (pg_out (backend_step st name o)) p =
  match pm_get (outcome_answers o) p with Some v => Some v | None => pm_get (pg_out st) p end.
Proof.
  intros Ho. destruct o as [[|a|a why]|q]; cbn in *; try (by rewrite pm_get_empty); by rewrite pm_get_extend.
Qed.

Lemma backend_step_ok st name o : pm_ok (pg_out st) -> pm_ok (pg_out (backend_step st name o)).
Proof. intros Hs. destruct o as [[]|]; cbn; try done; by apply pm_ok_extend. Qed.

Lemma run_ask h r wanted bs st (os := (fun b => run h (snd b r wanted)) <$> bs) (st' := run h (ask r wanted bs st)) :
  pm_ok (pg_out st) -> Forall (fun o => pm_ok (outcome_answers o)) os ->
  pm_ok (pg_out st') /\
  (forall p, pm_get (pg_out st') p =
     foldl (fun a o => match pm_get (outcome_answers o) p with Some v => Some v | None => a end) (pm_get (pg_out st) p) os) /\
  pg_ran st' = pg_ran st || existsb read_whole os /\ pg_failed st' = pg_failed st || existsb not_whole os /\
  length (pg_failures st') = length (pg_failures st) + length (List.filter not_whole os).
Proof.
  unfold os, st'. clear os st'. revert st. induction bs as [|[name b] bs IH]; intros st Hs Ho; cbn [ask].
  - cbn. rewrite !orb_false_r. split_and!; (done || lia).
  - csimpl in Ho. apply Forall_cons in Ho as [Hb Ho]. rewrite run_bind.
    destruct (IH (backend_step st name (run h (b r wanted)))) as (H1 & H2 & H3 & H4 & H5); [by apply backend_step_ok|done|].
    split_and!; [done|..].
    + intros p. rewrite H2, backend_step_get by done. done.
    + rewrite H3. csimpl. destruct (run h (b r wanted)) as [[]|]; cbn; by rewrite ?orb_true_r, ?orb_false_r, ?orb_assoc.
    + rewrite H4. csimpl. destruct (run h (b r wanted)) as [[]|]; cbn; by rewrite ?orb_true_r, ?orb_false_r, ?orb_assoc.
    + rewrite H5. csimpl. destruct (run h (b r wanted)) as [[]|]; cbn; rewrite ?length_app; cbn; lia.
Qed.

Lemma absorb_get what x out failures p :
  pm_ok (default pm_empty (ok x)) ->
  pm_get (absorb what x out failures).1 p =
  match pm_get (default pm_empty (ok x)) p with Some v => Some v | None => pm_get out p end.
Proof. intros Hx. destruct x as [a|q]; cbn in *; [by rewrite pm_get_extend|by rewrite pm_get_empty]. Qed.

Lemma existsb_filter {A} (f g : A -> bool) l : existsb f (List.filter g l) = existsb (fun x => f x && g x) l.
Proof.
  induction l as [|x l IH]; [done|]. cbn. destruct (g x); cbn; rewrite IH; [by rewrite andb_true_r|by rewrite andb_false_r].
Qed.

Lemma unclaimed_mem wanted out q : pm_ok wanted -> pm_mem (unclaimed wanted out) q = pm_mem wanted q && negb (pm_mem out q).
Proof.
  intros Hw. unfold unclaimed. rewrite ps_collect_mem, existsb_filter. rewrite <- ps_list_mem by done.
  apply Bool.eq_iff_eq_true. rewrite andb_true_iff, !existsb_exists. split.
  - intros (p & Hp & [E%path_eqb_eq Hn]%andb_true_iff). split; [exists p; split; [done|by apply path_eqb_eq]|].
    unfold pm_mem in *. by rewrite <- (pm_get_components out p q E).
  - intros [(p & Hp & E%path_eqb_eq) Hn]. exists p. split; [done|]. apply andb_true_iff.
    split; [by apply path_eqb_eq|]. unfold pm_mem in *. by rewrite (pm_get_components out p q E).
Qed.

(** What the producers promise: well-formed answers, and that the runtime
    producers answer only for what they are asked. *)
Class ProducersLaws `{Producers} (h : snapshot) : Prop := {
  reproduced_ok : forall r w a, pm_ok (default pm_empty (ok (run h (reproduced_classify r w a))));
  generated_ok : forall r w, pm_ok (default pm_empty (ok (run h (generated_classify r w))));
  generated_sub : forall r w p, pm_ok w ->
    pm_mem (default pm_empty (ok (run h (generated_classify r w)))) p = true -> pm_mem w p = true
}.

Definition backend_ok (h : snapshot) (b : backend) : Prop := forall r w, pm_ok (outcome_answers (run h (b r w))).

(** The answer to a path, by who gives it. *)
Lemma resolve_with_get `{ProducersLaws h} (r : root) (wanted : pset) (bs : list (bytes * backend))
    (asked := run h (asked_of r wanted)) (os := (fun b => run h (snd b r asked)) <$> bs)
    (st := run h (ask r asked bs (mk_progress pm_empty [] false false [])))
    (repro := run h (reproduced_classify r asked (pg_out st)))
    (out := (absorb #"reproductions" repro (pg_out st) (pg_failures st)).1)
    (gen := run h (generated_classify r (unclaimed asked out)))
    (res := run h (resolve_with r wanted bs)) :
  Forall (fun o => pm_ok (outcome_answers o)) os ->
  forall p, pm_get (rs_answers res) p =
    match pm_get (default pm_empty (ok repro)) p with
    | Some v => Some v
    | None =>
        match database_answer os p with
        | Some v => Some v
        | None =>
            match pm_get (default pm_empty (ok gen)) p with
            | Some v => Some v
            | None =>
                if pm_mem asked p then
                  Some (if existsb read_whole os && negb (existsb not_whole os) then Provenance.Unpackaged
                        else Provenance.Unknown)
                else None
            end
        end
    end.
Proof.
  intros Ho p.
  pose proof (reproduced_ok r asked (pg_out st)) as Hr. fold repro in Hr.
  pose proof (generated_ok r (unclaimed asked out)) as Hg. fold gen in Hg.
  pose proof (fun p => generated_sub r (unclaimed asked out) p (ps_collect_ok _)) as Hsub. fold gen in Hsub.
  assert (Hasked : pm_ok asked) by (unfold asked, asked_of; rewrite run_bind; apply ps_collect_ok).
  destruct (run_ask h r asked bs (mk_progress pm_empty [] false false [])) as (H1 & H2 & H3 & H4 & _);
    [apply pm_ok_empty|done|]. fold st os in H1, H2, H3, H4. cbn [pg_out pg_ran pg_failed orb] in H2, H3, H4.
  assert (Eout : pm_get out p = match pm_get (default pm_empty (ok repro)) p with
    | Some v => Some v | None => database_answer os p end).
  { unfold out. rewrite absorb_get, H2, pm_get_empty by done. done. }
  assert (Eres : rs_answers res = foldl (or_verdict
      (if pg_ran st && negb (pg_failed st) then Provenance.Unpackaged else Provenance.Unknown))
      (absorb #"runtime producers" gen out (absorb #"reproductions" repro (pg_out st) (pg_failures st)).2).1 (ps_list asked)).
  { unfold res, resolve_with. rewrite run_bind. fold asked. rewrite run_bind. fold st. rewrite run_bind. fold repro.
    destruct (absorb #"reproductions" repro (pg_out st) (pg_failures st)) as [out' fs] eqn:E.
    assert (out = out') as Eo by done. rewrite run_bind, <- Eo. fold gen.
    cbn [fst snd]. by destruct (absorb #"runtime producers" gen out fs). }
  rewrite Eres, or_verdict_get, absorb_get, ps_list_mem by done. rewrite H3, H4.
  assert (Hgp : forall v, pm_get (default pm_empty (ok gen)) p = Some v -> pm_get out p = None).
  { intros v Hv. specialize (Hsub p). rewrite pm_mem_true, Hv, unclaimed_mem in Hsub by done.
    specialize (Hsub ltac:(eauto)). apply andb_true_iff in Hsub as [_ Hn%negb_true_iff%bool_decide_eq_false].
    destruct (pm_get out p); [|done]. destruct Hn. eauto. }
  destruct (pm_get (default pm_empty (ok gen)) p) as [v|] eqn:Egen.
  - specialize (Hgp v eq_refl). rewrite Hgp in Eout. destruct (pm_get (default _ (ok repro)) p); [done|].
    by rewrite <- Eout.
  - rewrite Eout. destruct (pm_get (default _ (ok repro)) p); [done|]. by destruct (database_answer os p).
Qed.

(** ** Properties *)

(** Every path asked about, and every input of a reproduction, gets an
    answer: a runtime producer's where nothing else claims the path, else a
    reproduction's, else that of the last database to claim it; and a path
    nobody claims is Unpackaged only when some database was read whole and
    none failed or panicked, and Unknown otherwise. *)
Theorem resolution_precedence `{ProducersLaws h} (r : root) (wanted : pset) (bs : list (bytes * backend))
    (asked := run h (asked_of r wanted)) (os := (fun b => run h (snd b r asked)) <$> bs)
    (st := run h (ask r asked bs (mk_progress pm_empty [] false false [])))
    (repro := run h (reproduced_classify r asked (pg_out st)))
    (out := (absorb #"reproductions" repro (pg_out st) (pg_failures st)).1)
    (gen := run h (generated_classify r (unclaimed asked out)))
    (res := run h (resolve_with r wanted bs)) :
  Forall (fun b => backend_ok h (snd b)) bs ->
  forall p, pm_get (rs_answers res) p =
    match pm_get (default pm_empty (ok repro)) p with
    | Some v => Some v
    | None =>
        match database_answer os p with
        | Some v => Some v
        | None =>
            match pm_get (default pm_empty (ok gen)) p with
            | Some v => Some v
            | None =>
                if pm_mem asked p then
                  Some (if existsb read_whole os && negb (existsb not_whole os) then Provenance.Unpackaged
                        else Provenance.Unknown)
                else None
            end
        end
    end.
Proof.
  intros Hb. apply resolve_with_get, Forall_fmap. eapply Forall_impl; [exact Hb|]. intros b Hok. apply Hok.
Qed.

Module ProvenanceDemo.
#[local] Instance producers : Producers := {|
  reproduced_inputs := fun _ _ => Ret [ #"usr/share/t"];
  reproduced_classify := fun _ _ _ => Ret (Ok pm_empty);
  generated_classify := fun _ wanted =>
    Ret (Ok (if pm_mem wanted #"run/x" then pm_insert #"run/x" (Provenance.GeneratedBy Producer.Snapd) pm_empty
             else pm_empty))
|}.
Definition dpkg : backend := fun _ _ =>
  Ret (Ok (Database.Complete (pm_insert #"etc/a" (Provenance.Packaged #"a" #"1" Integrity.Intact) pm_empty))).
Definition panics : backend := fun _ _ => Ret (Err (StaticStr #"boom")).
Definition wanted : pset := ps_of [ #"etc/a"; #"etc/b"; #"run/x"].
Definition answer (bs : list (bytes * backend)) (p : path) : option provenance :=
  pm_get (rs_answers (run Demo.kernel (resolve_with (H := producers) Demo.tree wanted bs))) p.
End ProvenanceDemo.

Example provenance_demo :
  (ProvenanceDemo.answer [( #"dpkg", ProvenanceDemo.dpkg)] #"etc/b",
   ProvenanceDemo.answer [( #"dpkg", ProvenanceDemo.dpkg); ( #"rpm", ProvenanceDemo.panics)] #"etc/b",
   ProvenanceDemo.answer [] #"run/x") =
  (Some Provenance.Unpackaged, Some Provenance.Unknown, Some (Provenance.GeneratedBy Producer.Snapd)).
Proof. by vm_compute. Qed.

Lemma producers_laws : @ProducersLaws ProvenanceDemo.producers Demo.kernel.
Proof.
  split.
  - intros r w a. apply pm_ok_empty.
  - intros r w. cbn. case_match; [apply pm_ok_insert|]; apply pm_ok_empty.
  - intros r w p _ Hp. change (pm_mem (if pm_mem w #"run/x" then
      pm_insert #"run/x" (Provenance.GeneratedBy Producer.Snapd) pm_empty else pm_empty : answers) p = true) in Hp.
    apply pm_mem_true in Hp as [v Hv]. destruct (pm_mem w #"run/x") eqn:E.
    + rewrite pm_get_insert, pm_get_empty in Hv. destruct (path_eqb #"run/x" p) eqn:Ep; [|done].
      apply path_eqb_eq in Ep. unfold pm_mem in *. by rewrite <- (pm_get_components w _ p Ep).
    + by rewrite pm_get_empty in Hv.
Qed.

Lemma resolution_precedence_witness :
  ProvenanceDemo.answer [( #"dpkg", ProvenanceDemo.dpkg)] #"etc//a" =
    Some (Provenance.Packaged #"a" #"1" Integrity.Intact).
Proof.
  unfold ProvenanceDemo.answer.
  rewrite (@resolution_precedence ProvenanceDemo.producers Demo.kernel producers_laws).
  - vm_compute. reflexivity.
  - apply Forall_cons_2; [|apply Forall_nil_2]. intros r w. apply pm_ok_insert, pm_ok_empty.
Defined.
