(* ===== verification/Backend.v ===== *)
(** What the package backends share: the map from the spellings of the wanted
    paths back to them, the answering of one claim after another, and the
    contract a backend keeps towards [resolve_with]. *)

From S2P Require Import Prelude Slices Order Paths PathMap Kinds Entry Sys Root Provenance.

(** ** More of maps of paths *)

Lemma pm_ok_update {V} (d : V) f p m : pm_ok m -> pm_ok (pm_update d f p m).
Proof. apply pm_ok_insert. Qed.

Lemma pm_list_path {V} (m : pmap V) p q v w :
  pm_ok m -> (p, v) ∈ pm_list m -> (q, w) ∈ pm_list m -> components p = components q -> p = q.
Proof.
  intros Hm [k Hk]%elem_of_pm_list [k' Hk']%elem_of_pm_list E.
  pose proof (Hm _ _ _ Hk). pose proof (Hm _ _ _ Hk'). assert (k = k') as -> by congruence. congruence.
Qed.

Lemma ps_list_path (s : pset) p q : pm_ok s -> p ∈ ps_list s -> q ∈ ps_list s -> path_eqb p q = true -> p = q.
Proof.
  intros Hs ([p' v] & -> & Hp)%list_elem_of_fmap ([q' w] & -> & Hq)%list_elem_of_fmap E%path_eqb_eq.
  by eapply pm_list_path.
Qed.

Lemma ps_list_pm_mem (s : pset) p q : pm_ok s -> p ∈ ps_list s -> path_eqb p q = true -> pm_mem s q = true.
Proof.
  intros Hs Hp E. rewrite <- ps_list_mem by done. apply existsb_exists. exists p.
  split; [by apply list_elem_of_In|done].
Qed.

Lemma existsb_path_eqb (l : list path) p :
  existsb (fun w => path_eqb w p) l = true <-> exists w, w ∈ l /\ path_eqb w p = true.
Proof. rewrite existsb_exists. by setoid_rewrite list_elem_of_In. Qed.

(** ** Spellings *)

Definition alias_map (r : root) (wanted : list path) : prog (pmap (list path)) :=
  fold_prog (fun m w =>
    ss ← spellings r w;
    Ret (foldl (fun m alias => pm_update [] (fun ws => ws ++ [w]) alias m) m ss)) pm_empty wanted.

Definition spelled (h : snapshot) (r : root) (w q : path) : Prop :=
  exists s, s ∈ run h (spellings r w) /\ path_eqb s q = true.

Definition aliased (m : pmap (list path)) (q : path) : list path := default [] (pm_get m q).

Lemma aliased_update (w w' q : path) (ss : list path) (m : pmap (list path)) :
  w ∈ aliased (foldl (fun m alias => pm_update [] (fun ws => ws ++ [w']) alias m) m ss) q <->
  w ∈ aliased m q \/ w = w' /\ exists s, s ∈ ss /\ path_eqb s q = true.
Proof.
  revert m. induction ss as [|s ss IH]; intros m; cbn [foldl].
  - split; [by left|]. intros [?|(_ & ? & []%elem_of_nil & _)]; done.
  - rewrite IH, (ex_elem_cons (fun s => path_eqb s q = true)). unfold aliased at 1. rewrite pm_get_update.
    destruct (path_eqb s q) eqn:E.
    + rewrite (pm_get_components m s q) by (by apply path_eqb_eq). cbn [default from_option id].
      rewrite elem_of_app, list_elem_of_singleton. fold (aliased m q). tauto.
    + fold (aliased m q). split; intros [?|[? Hs]]; try (by left); right; split; try done; [by right|by destruct Hs].
Qed.

Lemma elem_of_aliased h r ws w q :
  w ∈ aliased (run h (alias_map r ws)) q <-> w ∈ ws /\ spelled h r w q.
Proof.
  unfold alias_map. rewrite run_fold_prog. set (step := fun m w => run h _).
  assert (H : forall (m : pmap (list path)), w ∈ aliased (foldl step m ws) q <-> w ∈ aliased m q \/ w ∈ ws /\ spelled h r w q).
  { induction ws as [|w' ws IH]; intros m; cbn [foldl].
    - split; [by left|]. intros [?|[[]%elem_of_nil _]]; done.
    - rewrite IH. unfold step. rewrite run_bind. cbn [run]. rewrite aliased_update, elem_of_cons.
      change (exists s, s ∈ run h (spellings r w') /\ path_eqb s q = true) with (spelled h r w' q).
      split; [intros [[?|[-> ?]]|[? ?]]|intros [?|[[->|?] ?]]]; tauto. }
  rewrite H. unfold aliased. rewrite pm_get_empty. cbn. rewrite elem_of_nil. tauto.
Qed.

Lemma run_alias_map h r ws p q :
  existsb (fun w => path_eqb w p) (default [] (pm_get (run h (alias_map r ws)) q)) = true <->
  exists w, w ∈ ws /\ path_eqb w p = true /\ spelled h r w q.
Proof.
  rewrite existsb_path_eqb. change (default [] (pm_get (run h (alias_map r ws)) q)) with (aliased (run h (alias_map r ws)) q).
  split; intros (w & H); exists w; rewrite elem_of_aliased in *; tauto.
Qed.

(** ** One claim after another *)

Section answering.
Context {C : Type}.

Definition answer_claims (verdict : C -> path -> prog provenance) (targets : C -> list path) (out : answers) (cs : list C)
    : prog answers :=
  fold_prog (fun out c => fold_prog (fun out w => v ← verdict c w; Ret (pm_insert w v out)) out (targets c)) out cs.

Variable verdict : C -> path -> provenance.
Variable targets : C -> list path.

Definition answer_one (out : answers) (c : C) : answers :=
  foldl (fun (out : answers) w => pm_insert w (verdict c w) out) out (targets c).
Definition answered (out : answers) (cs : list C) : answers := foldl answer_one out cs.

Lemma answer_one_ok out c : pm_ok out -> pm_ok (answer_one out c).
Proof.
  unfold answer_one. revert out. induction (targets c) as [|w ws IH]; intros out Ho; [done|]. cbn. apply IH.
  by apply pm_ok_insert.
Qed.
Lemma answered_ok out cs : pm_ok out -> pm_ok (answered out cs).
Proof.
  unfold answered. revert out. induction cs as [|c cs IH]; intros out Ho; [done|]. cbn. by apply IH, answer_one_ok.
Qed.

Lemma answer_one_get out c p :
  (forall w, w ∈ targets c -> path_eqb w p = true -> w = p) ->
  pm_get (answer_one out c) p = if bool_decide (p ∈ targets c) then Some (verdict c p) else pm_get out p.
Proof.
  unfold answer_one. revert out. induction (targets c) as [|w ws IH]; intros out Hu; [done|]. cbn [foldl].
  rewrite IH by (intros w' ?; apply Hu; by right). rewrite pm_get_insert.
  destruct (path_eqb w p) eqn:E.
  - assert (w = p) as -> by (apply Hu; [by left|done]).
    rewrite (bool_decide_true (p ∈ p :: ws)) by by left. by case_bool_decide.
  - assert (w <> p) by (intros ->; apply not_true_iff_false in E; apply E; by apply path_eqb_eq).
    erewrite (bool_decide_ext (p ∈ w :: ws)); [done|]. rewrite elem_of_cons. naive_solver.
Qed.

(** The last claim to name a path is the one heard. *)
Lemma answered_get out cs p :
  (forall c w, c ∈ cs -> w ∈ targets c -> path_eqb w p = true -> w = p) ->
  pm_get (answered out cs) p =
  match last (List.filter (fun c => bool_decide (p ∈ targets c)) cs) with
  | Some c => Some (verdict c p)
  | None => pm_get out p
  end.
Proof.
  unfold answered. induction cs as [|c cs IH] using rev_ind; intros Hu; [done|].
  rewrite foldl_app, List.filter_app. cbn [foldl List.filter].
  rewrite answer_one_get by (intros w ?; apply (Hu c); [apply elem_of_app; right; by left|done]).
  case_bool_decide.
  - by rewrite last_snoc.
  - rewrite app_nil_r. apply IH. intros c' w Hc. apply (Hu c'). apply elem_of_app. by left.
Qed.

Lemma answered_from out cs p v :
  pm_get (answered out cs) p = Some v ->
  pm_get out p = Some v \/ exists c w, c ∈ cs /\ w ∈ targets c /\ path_eqb w p = true /\ v = verdict c w.
Proof.
  unfold answered. revert out. induction cs as [|c cs IH]; intros out; cbn [foldl]; [by left|].
  intros [H|(c' & w & Hc & Hw)]%IH; [|right; exists c', w; split; [by right|done]].
  assert (pm_get out p = Some v \/ exists w, w ∈ targets c /\ path_eqb w p = true /\ v = verdict c w)
    as [?|(w & ? & ? & ?)]; [|by left|right; exists c, w; split; [by left|done]].
  clear IH. unfold answer_one in H. revert out H. induction (targets c) as [|w ws IH]; intros out; cbn [foldl]; [by left|].
  intros [H|(w' & ? & ?)]%IH; [|right; exists w'; split; [by right|done]].
  rewrite pm_get_insert in H. destruct (path_eqb w p) eqn:E; [|by left].
  right. exists w. split; [by left|]. split; [done|congruence].
Qed.

(** Claims that name nothing wanted change nothing. *)
Lemma answered_filter f out cs :
  (forall c, f c = false -> targets c = []) -> answered out (List.filter f cs) = answered out cs.
Proof.
  intros Hf. unfold answered. revert out. induction cs as [|c cs IH]; intros out; [done|]. cbn [List.filter foldl].
  destruct (f c) eqn:E; cbn [foldl]; rewrite IH; [done|].
  assert (answer_one out c = out) as -> by (unfold answer_one; by rewrite Hf). done.
Qed.

Lemma answered_app out cs cs' : answered out (cs ++ cs') = answered (answered out cs) cs'.
Proof. apply foldl_app. Qed.
End answering.

Lemma answered_ext {C : Type} (v v' : C -> path -> provenance) targets out cs :
  (forall c w, c ∈ cs -> w ∈ targets c -> v c w = v' c w) -> answered v targets out cs = answered v' targets out cs.
Proof.
  intros H. apply foldl_ext_in. intros out' c Hc. apply foldl_ext_in. intros out'' w Hw. by rewrite H.
Qed.
Lemma answered_fmap {B C : Type} (f : B -> C) v targets out bs :
  answered v targets out (f <$> bs) = answered (fun b => v (f b)) (fun b => targets (f b)) out bs.
Proof. unfold answered. revert out. induction bs as [|b bs IH]; intros out; [done|]. apply IH. Qed.


Lemma run_answer_claims {C} h (verdict : C -> path -> prog provenance) targets out cs :
  run h (answer_claims verdict targets out cs) = answered (fun c w => run h (verdict c w)) targets out cs.
Proof.
  unfold answer_claims, answered. rewrite run_fold_prog. revert out.
  induction cs as [|c cs IH]; intros out; [done|]. cbn [foldl]. rewrite run_fold_prog, <- IH. f_equal.
  unfold answer_one. generalize (targets c). intros ws. clear IH. revert out.
  induction ws as [|w ws IH]; intros out; [done|]. cbn [foldl]. by rewrite run_bind, IH.
Qed.

(** One of the spellings of [w] is [q]. *)
Definition spells (h : snapshot) (r : root) (w q : path) : bool := existsb (fun s => path_eqb s q) (run h (spellings r w)).
Lemma spells_true h r w q : spells h r w q = true <-> spelled h r w q.
Proof. apply existsb_path_eqb. Qed.

Lemma filter_ext_in {A} (f g : A -> bool) l : (forall x, x ∈ l -> f x = g x) -> List.filter f l = List.filter g l.
Proof. intros H. apply List.filter_ext_in. intros x Hx. apply H. by apply list_elem_of_In. Qed.

(** Claims matched through the alias map: a wanted path is the last claim's
    that names one of its spellings. *)
Lemma answered_aliased {C : Type} (h : snapshot) (r : root) (wanted : pset) (verdict : C -> path -> provenance) (key : C -> path)
    (cs : list C) (w : path) :
  pm_ok wanted -> w ∈ ps_list wanted ->
  pm_get (answered verdict (fun c => aliased (run h (alias_map r (ps_list wanted))) (key c)) pm_empty cs) w =
  (fun c => verdict c w) <$> last (List.filter (fun c => spells h r w (key c)) cs).
Proof.
  intros Hok Hw. rewrite answered_get, pm_get_empty.
  - rewrite (filter_ext_in _ (fun c => spells h r w (key c))); [by destruct (last _)|].
    intros c _. apply Bool.eq_iff_eq_true. rewrite bool_decide_eq_true, elem_of_aliased, spells_true. tauto.
  - intros c w' _ [Hw' _]%elem_of_aliased E. by eapply ps_list_path.
Qed.

(** ** The contract of a backend *)

Definition is_packaged (v : provenance) : Prop := exists package version i, v = Provenance.Packaged package version i.

(** The answers are a map, every one names a package, and nothing is answered
    that was not asked. *)
Record answers_for (wanted : pset) (a : answers) : Prop := mk_answers_for {
  af_ok : pm_ok a;
  af_packaged : forall p v, pm_get a p = Some v -> is_packaged v;
  af_asked : forall p, pm_mem a p = true -> pm_mem wanted p = true
}.

Class BackendLaws (h : snapshot) (b : backend) : Prop :=
  backend_answers : forall r wanted, pm_ok wanted -> answers_for wanted (outcome_answers (run h (b r wanted))).

(** A backend that does not panic. *)
Definition total (f : root -> pset -> prog Database.outcome) : backend := fun r wanted => o ← f r wanted; Ret (Ok o).

Lemma answers_for_empty wanted : answers_for wanted pm_empty.
Proof.
  split; [apply pm_ok_empty|intros p v; by rewrite pm_get_empty|].
  intros p [v Hv]%pm_mem_true. by rewrite pm_get_empty in Hv.
Qed.

Lemma total_answers (h : snapshot) f :
  (forall (r : root) (wanted : pset), pm_ok wanted -> match run h (f r wanted) with
     | Database.Absent => True
     | Database.Complete a | Database.Incomplete a _ => answers_for wanted a
     end) -> BackendLaws h (total f).
Proof.
  intros Hf r wanted Hw. specialize (Hf r wanted Hw). unfold total. rewrite run_bind. cbn [run].
  destruct (run h (f r wanted)); [by apply answers_for_empty|done|done].
Qed.

Lemma answers_for_answered {C : Type} (verdict : C -> path -> provenance) targets (wanted : pset) (out : answers) (cs : list C) :
  pm_ok wanted -> answers_for wanted out ->
  (forall c w, c ∈ cs -> w ∈ targets c -> is_packaged (verdict c w) /\ w ∈ ps_list wanted) ->
  answers_for wanted (answered verdict targets out cs).
Proof.
  intros Hw [H1 H2 H3] Hc. split; [by apply answered_ok|..].
  - intros p v [?|(c & w & Hin & Ht & _ & ->)]%answered_from; [by eapply H2|]. by apply (Hc c w).
  - intros p [v Hv]%pm_mem_true. apply answered_from in Hv as [?|(c & w & Hin & Ht & E & _)].
    + apply H3, pm_mem_true. eauto.
    + apply (ps_list_pm_mem _ w); [done| |done]. by apply (Hc c w).
Qed.

#[export] Hint Resolve answers_for_empty pm_ok_empty pm_ok_insert pm_ok_update ps_collect_ok ps_of_ok : pmap.
