(* ===== verification/Apk.v ===== *)
(** [src/provenance/apk.rs]: the apk backend. One text file of records says
    which package owns a path, with its digest and mode; the protected paths
    say what a difference means; the scripts archive and the triggers file
    hold what the packages run. *)

From S2P Require Import Prelude Slices Order Num Utf8 Paths PathMap Text Kinds Entry Sys Root RootLaws Tree Scan Provenance Backend.

Definition INSTALLED : path := #"lib/apk/db/installed".
Definition PROTECTED_D : path := #"etc/apk/protected_paths.d".
Definition DB_CAP : N := N.shiftl 64 20.
Definition newline : byte := x0a.
Definition DEFAULT_PROTECTED : bytes := join [newline] [ #"+etc"; #"@etc/init.d"; #"!etc/apk"; []].

Definition present (r : root) : prog bool := exists_ r INSTALLED.

(** ** The database *)

Module Alg.
Inductive alg := Md5 | Sha1 | Sha256.
#[global] Instance eq_dec : EqDecision alg.
Proof. solve_decision. Defined.
End Alg.
Export Alg(alg).

Record facts := mk_facts { fa_is_dir : bool; fa_digest : option (alg * bytes); fa_mode : option N }.
Definition no_facts : facts := mk_facts false None None.

(** A path with the package that claims it. *)
Record claim := mk_claim { cl_name : bytes; cl_version : bytes; cl_path : path; cl_facts : facts }.

(** [uid:gid:mode[:xattr-digest]]. *)
Definition acl_mode (value : bytes) : option N :=
  mode ← split_on (is_byte ":"%byte) value !! 2;
  if is_utf8 mode then from_str_radix 8 U32_MAX mode else None.

Fixpoint unhex_pairs (text : bytes) : option bytes :=
  match text with
  | a :: b :: text' =>
      hi ← to_digit 16 a; lo ← to_digit 16 b; rest ← unhex_pairs text';
      Some (byte_of_N (N.lor (N.shiftl hi 4) lo) :: rest)
  | _ => Some []
  end.
Definition unhex (text : bytes) : option bytes := if Nat.even (length text) then unhex_pairs text else None.

Definition is_ascii_hexdigit (b : byte) : bool := is_ascii_digit b || byte_in "a" "f" b || byte_in "A" "F" b.

Definition decode_digest (encoding : byte) (chunk : bytes) : option bytes :=
  if bool_decide (encoding = "Q"%byte) then base64_decode chunk
  else if bool_decide (encoding = "X"%byte) then unhex chunk
  else None.

(** SHA-1, or a SHA-256 whose last twelve bytes were appended. *)
Definition sha1_or_more (encoding : byte) (rest : bytes) : option bytes :=
  let head := if bool_decide (encoding = "Q"%byte) then 28 else 40 in
  '(first, more) ← split_at_checked head rest;
  b ← decode_digest encoding first;
  if negb (bool_decide (length b = 20)) then None
  else if bool_decide (more = []) then Some b
  else
    tail ← decode_digest encoding more;
    if bool_decide (length tail = 12) then Some (b ++ tail) else None.

Definition digest (value : bytes) : option (alg * bytes) :=
  if match value with c :: _ => is_ascii_hexdigit c | [] => false end then
    b ← unhex value; if bool_decide (length b = 16) then Some (Alg.Md5, hex b) else None
  else
    match value with
    | encoding :: a :: rest =>
        b ← (if bool_decide (a = "1"%byte) then sha1_or_more encoding rest
             else if bool_decide (a = "2"%byte) then
               b ← decode_digest encoding rest; if bool_decide (length b = 32) then Some b else None
             else None);
        if bool_decide (length b = 20) then Some (Alg.Sha1, hex b)
        else if bool_decide (length b = 32) then Some (Alg.Sha256, hex b)
        else None
    | _ => None
    end.

Record stream := mk_stream {
  st_name : bytes; st_version : bytes; st_dir : bytes; st_pending : option (path * facts); st_claims : list claim
}.

Definition flush (st : stream) : stream :=
  match st_pending st with
  | Some (p, f) =>
      mk_stream (st_name st) (st_version st) (st_dir st) None
        (st_claims st ++ [mk_claim (st_name st) (st_version st) p f])
  | None => st
  end.

(** A [Z:] or [a:] line says more of the file before it. *)
Definition describe (f : facts -> facts) (st : stream) : stream :=
  mk_stream (st_name st) (st_version st) (st_dir st) ((fun pf => (pf.1, f pf.2)) <$> st_pending st) (st_claims st).

Definition dir_line (value : bytes) (st : stream) : stream :=
  let st := flush st in
  let dir := default value (strip_suffix [slash] value) in
  mk_stream (st_name st) (st_version st) dir (st_pending st)
    (if bool_decide (dir = []) then st_claims st
     else st_claims st ++ [mk_claim (st_name st) (st_version st) dir (mk_facts true None None)]).

Definition file_line (value : bytes) (st : stream) : stream :=
  let st := flush st in
  let p := (if bool_decide (st_dir st = []) then [] else st_dir st ++ [slash]) ++ value in
  mk_stream (st_name st) (st_version st) (st_dir st) (Some (p, no_facts)) (st_claims st).

Definition db_line (st : stream) (line : bytes) : stream :=
  match line with
  | field :: c :: value =>
      if negb (bool_decide (c = ":"%byte)) then st
      else if bool_decide (field = "P"%byte) then mk_stream value (st_version st) (st_dir st) (st_pending st) (st_claims st)
      else if bool_decide (field = "V"%byte) then mk_stream (st_name st) value (st_dir st) (st_pending st) (st_claims st)
      else if bool_decide (field = "F"%byte) then dir_line value st
      else if bool_decide (field = "R"%byte) then file_line value st
      else if bool_decide (field = "a"%byte) then
        describe (fun f => mk_facts (fa_is_dir f) (fa_digest f) (acl_mode value)) st
      else if bool_decide (field = "Z"%byte) then
        describe (fun f => mk_facts (fa_is_dir f) (digest value) (fa_mode f)) st
      else st
  | _ => mk_stream [] [] [] None (st_claims (flush st))
  end.

Definition no_stream : stream := mk_stream [] [] [] None [].
(** Every directory and file the database claims, in order. *)
Definition each_path (b : bytes) : list claim :=
  st_claims (flush (foldl db_line no_stream (split_on (is_byte newline) b))).

Definition packaged_files (r : root) : prog pset :=
  x ← Root.read_capped r INSTALLED DB_CAP;
  Ret match x with
      | Ok (b, _) => foldl (fun out c => ps_insert (cl_path c) out) pm_empty (each_path b)
      | Err _ => pm_empty
      end.

(** ** Protected paths *)

Module Protect.
Inductive protect := None_ | Ignore | Changed | SymlinksOnly | All.
#[global] Instance eq_dec : EqDecision protect.
Proof. solve_decision. Defined.
End Protect.
Export Protect(protect).

Definition protect_line (line : bytes) : option (bytes * protect) :=
  '(mode, p) ← match line with
               | [] => None
               | c :: p =>
                   if bool_decide (c = "#"%byte) then None
                   else if bool_decide (c = "-"%byte) then Some (Protect.Ignore, p)
                   else if bool_decide (c = "+"%byte) then Some (Protect.Changed, p)
                   else if bool_decide (c = "@"%byte) then Some (Protect.SymlinksOnly, p)
                   else if bool_decide (c = "!"%byte) then Some (Protect.All, p)
                   else Some (Protect.Changed, line)
               end;
  let p := trim_by (is_byte slash) p in
  if bool_decide (p = []) then None else Some (p, mode).

Definition protect_list (text : bytes) : list (bytes * protect) :=
  omap protect_line (split_on (is_byte newline) text).

Definition PROTECTED_CAP : N := N.shiftl 1 20.
Definition is_list (e : dir_ent) : bool := negb (de_is_dir e) && ends_with #".list" (de_name e).

Definition protected_paths (r : root) : prog (list (bytes * protect)) :=
  ents ← read_dir_optional r PROTECTED_D;
  let lists := sort_by id (de_name <$> List.filter is_list (default [] (ok ents))) in
  fold_prog (fun out name =>
    x ← Root.read_capped r (path_join PROTECTED_D name) PROTECTED_CAP;
    Ret match x with Ok (b, _) => out ++ protect_list b | Err _ => out end) (protect_list DEFAULT_PROTECTED) lists.

(** What is left of a pattern below a directory it matches, and the mode a
    pattern without a slash gives it. *)
Definition descend (c : bytes) (pm : bytes * protect) : option (bytes * protect) :=
  i ← position (is_byte slash) (fst pm);
  if glob_match (take i (fst pm)) c then Some (drop (i + 1) (fst pm), snd pm) else None.
Definition settle (c : bytes) (mode : protect) (pm : bytes * protect) : protect :=
  if bool_decide (position (is_byte slash) (fst pm) = None) && glob_match (fst pm) c then snd pm else mode.

Fixpoint protect_dirs (level : list (bytes * protect)) (mode : protect) (dirs : list bytes) : list (bytes * protect) * protect :=
  match dirs with
  | [] => (level, mode)
  | c :: dirs' => protect_dirs (omap (descend c) level) (foldl (settle c) mode level) dirs'
  end.

Definition protect_mode (patterns : list (bytes * protect)) (p : path) : protect :=
  match last (path_iter p) with
  | None => Protect.None_
  | Some name =>
      let '(level, mode) := protect_dirs patterns Protect.None_ (removelast (path_iter p)) in
      foldl (settle name) mode level
  end.

(** ** One file against its record *)

Section verifying.
Context `{Digests}.

Definition hash (a : alg) (b : bytes) : bytes :=
  match a with Alg.Md5 => md5_hex b | Alg.Sha1 => sha1_hex b | Alg.Sha256 => sha256_hex b end.
Definition digest_of (a : alg) (d : file_digests) : bytes :=
  match a with Alg.Md5 => fd_md5 d | Alg.Sha1 => fd_sha1 d | Alg.Sha256 => fd_sha256 d end.

(** The setuid and setgid bits. *)
Definition privilege (mode : N) : N := N.land mode 0xC00.

(** A link's digest is of its target. *)
Definition actual_digest (r : root) (p : path) (m : meta) (a : alg) : prog (option bytes) :=
  if m_is_symlink m then t ← read_link r p; Ret (hash a <$> ok t)
  else d ← digests r p; Ret (digest_of a <$> (d : option file_digests)).

Definition verify (r : root) (p : path) (f : facts) (protected : list (bytes * protect)) : prog integrity :=
  if fa_is_dir f then Ret Integrity.Unknown
  else
    match fa_digest f with
    | None => Ret Integrity.Unknown
    | Some (a, expected) =>
        m ← stat r p;
        match m with
        | Err _ => Ret Integrity.Unknown
        | Ok m =>
            actual ← actual_digest r p m a;
            Ret match actual with
                | None => Integrity.Unknown
                | Some actual =>
                    if eq_ignore_ascii_case actual expected then
                      match fa_mode f with
                      | Some shipped =>
                          if bool_decide (privilege shipped = privilege (m_mode m)) then Integrity.Intact
                          else Integrity.ModeModified
                      | None => Integrity.Intact
                      end
                    else
                      match protect_mode protected p with
                      | Protect.Changed | Protect.All => Integrity.ConffileModified
                      | Protect.SymlinksOnly =>
                          if m_is_symlink m then Integrity.ConffileModified else Integrity.Modified
                      | Protect.Ignore | Protect.None_ => Integrity.Modified
                      end
                end
        end
    end.

(** ** The backend *)

Definition claim_verdict (r : root) (protected : list (bytes * protect)) (c : claim) (w : path) : prog provenance :=
  i ← verify r w (cl_facts c) protected;
  Ret (Provenance.Packaged (from_utf8_lossy (cl_name c)) (from_utf8_lossy (cl_version c)) i).

Context `{Strerror}.

Definition resolve (r : root) (wanted : pset) : prog Database.outcome :=
  here ← present r;
  if negb here then Ret Database.Absent
  else
    x ← Root.read_capped r INSTALLED DB_CAP;
    match x with
    | Err e => Ret (Database.Incomplete pm_empty (INSTALLED ++ #" could not be read: " ++ display_error e))
    | Ok (b, cut) =>
        aliases ← alias_map r (ps_list wanted);
        protected ← protected_paths r;
        out ← answer_claims (claim_verdict r protected) (fun c => aliased aliases (cl_path c)) pm_empty (each_path b);
        Ret (if cut : bool then Database.Incomplete out (INSTALLED ++ #" is larger than the read cap")
             else Database.Complete out)
    end.
End verifying.

(** ** Scripts and triggers *)

Definition SCRIPTS_GZ : path := #"lib/apk/db/scripts.tar.gz".
Definition SCRIPTS_TAR : path := #"lib/apk/db/scripts.tar".
Definition TRIGGERS : path := #"lib/apk/db/triggers".
Definition PHASES : list bytes :=
  [ #"pre-install"; #"post-install"; #"pre-deinstall"; #"post-deinstall"; #"pre-upgrade"; #"post-upgrade"; #"trigger"].

(** Raw deflate, unpacking to no more than a limit: a package. *)
Class Inflate := inflate : bytes -> N -> option bytes.
Class InflateLaws `{Inflate} : Prop :=
  inflate_limit : forall b limit out, inflate b limit = Some out -> (N.of_nat (length out) <= limit)%N.

Definition flag_set (flags : byte) (bit : N) : bool := negb (bool_decide (N.land (Byte.to_N flags) bit = 0%N)).

(** A zero-terminated field, when its flag announces it. *)
Definition skip_field (flags : byte) (rest : bytes) (bit : N) (i : nat) : option nat :=
  if flag_set flags bit then
    r ← get_from i rest; end_ ← position (is_byte x00) r; Some (i + (end_ + 1))
  else Some i.
Definition skip_extra (flags : byte) (rest : bytes) (i : nat) : option nat :=
  if flag_set flags 4 then
    lo ← rest !! i; hi ← rest !! (i + 1);
    Some (i + (2 + N.to_nat (Byte.to_N lo + 256 * Byte.to_N hi)))
  else Some i.

Definition gunzip `{Inflate} (b : bytes) : option bytes :=
  match strip_prefix [x1f; x8b; x08] b with
  | Some (flags :: rest) =>
      i ← skip_extra flags rest (Nat.min 6 (length rest));
      i ← skip_field flags rest 8 i;
      i ← skip_field flags rest 16 i;
      let i := if flag_set flags 2 then i + 2 else i in
      r ← get_from i rest; inflate r DB_CAP
  | _ => None
  end.

Definition BLOCK : nat := 512.
Definition nul : byte := x00.
Definition range (l : bytes) (from to : nat) : bytes := take (to - from) (drop from l).

(** A header field, up to its first zero. *)
Definition field (header : bytes) (from to : nat) : bytes :=
  let raw := range header from to in
  from_utf8_lossy (take (default (length raw) (position (is_byte nul) raw)) raw).

Definition entry_size (header : bytes) : N :=
  default 0%N (from_str_radix 8 U64_MAX (take_while is_ascii_digit (range header 124 136))).
Definition entry_name (header : bytes) : bytes :=
  let prefix := field header 345 500 in
  let name := field header 0 100 in
  if bool_decide (prefix = []) then name else prefix ++ #"/" ++ name.

Definition padded (size : N) : N := ((size + 511) / 512 * 512)%N.

(** What is left of the archive, from a block on. Each round takes a header at
    least, so the bytes left are fuel enough. *)
Fixpoint tar_from (fuel : nat) (rest : bytes) (long_name : option bytes) : list (bytes * bytes) :=
  match fuel with
  | 0 => []
  | S fuel' =>
      if negb (BLOCK <=? length rest) then []
      else
        let header := take BLOCK rest in
        if forallb (is_byte nul) header then []
        else if negb (bool_decide (range header 257 262 = #"ustar")) then []
        else
          let size := entry_size header in
          let data := take_n size (drop BLOCK rest) in
          let name := default (entry_name header) long_name in
          let next := drop_n (512 + padded size) rest in
          let typeflag := default nul (header !! 156) in
          if bool_decide (typeflag = "L"%byte) then
            tar_from fuel' next (Some (drop_while_end (is_byte nul) (from_utf8_lossy data)))
          else if bool_decide (typeflag = "0"%byte) || bool_decide (typeflag = nul) then
            (name, data) :: tar_from fuel' next None
          else tar_from fuel' next None
  end.
Definition tar_entries (b : bytes) : list (bytes * bytes) := tar_from (length b) b None.

Record script := mk_script { sc_package : bytes; sc_version : bytes; sc_digest : bytes; sc_phase : bytes; sc_body : bytes }.

(** A digest in either spelling, as hex. *)
Definition digest_text (text : bytes) : option bytes := snd <$> digest text.

Definition script_of (nb : bytes * bytes) : option script :=
  '(stem, phase) ← rsplit_once #"." (fst nb);
  if negb (bool_decide (phase ∈ PHASES)) then None
  else
    '(pkg_ver, d) ← rsplit_once #"." stem;
    d ← digest_text d;
    '(nv, rel) ← rsplit_once #"-" pkg_ver;
    '(name, ver) ← rsplit_once #"-" nv;
    Some (mk_script name (ver ++ #"-" ++ rel) d phase (snd nb)).

Definition scripts `{Inflate} (r : root) : prog (option (path * list script)) :=
  gz ← Root.read_capped r SCRIPTS_GZ DB_CAP;
  match gz with
  | Ok (b, _) => Ret (b ← gunzip b; Some (SCRIPTS_GZ, omap script_of (tar_entries b)))
  | Err _ =>
      tar ← Root.read_capped r SCRIPTS_TAR DB_CAP;
      Ret match tar with
          | Ok (b, _) => Some (SCRIPTS_TAR, omap script_of (tar_entries b))
          | Err _ => None
          end
  end.

Record checksums := mk_checksums {
  cs_sum : option bytes; cs_name : bytes; cs_version : bytes; cs_out : gmap bytes (bytes * bytes)
}.
Definition end_record (st : checksums) : gmap bytes (bytes * bytes) :=
  match cs_sum st with Some c => <[c := (cs_name st, cs_version st)]> (cs_out st) | None => cs_out st end.

Definition checksum_line (st : checksums) (line : bytes) : checksums :=
  match line with
  | f :: c :: value =>
      let value := from_utf8_lossy value in
      if negb (bool_decide (c = ":"%byte)) then st
      else if bool_decide (f = "C"%byte) then mk_checksums (digest_text value) (cs_name st) (cs_version st) (cs_out st)
      else if bool_decide (f = "P"%byte) then mk_checksums (cs_sum st) value (cs_version st) (cs_out st)
      else if bool_decide (f = "V"%byte) then mk_checksums (cs_sum st) (cs_name st) value (cs_out st)
      else st
  | _ => mk_checksums None [] [] (end_record st)
  end.

Definition packages_by_checksum (r : root) : prog (gmap bytes (bytes * bytes)) :=
  x ← Root.read_capped r INSTALLED DB_CAP;
  Ret match x with
      | Ok (b, _) => end_record (foldl checksum_line (mk_checksums None [] [] ∅) (split_on (is_byte newline) b))
      | Err _ => ∅
      end.

Record trigger := mk_trigger { tr_digest : bytes; tr_dirs : list bytes; tr_package : option (bytes * bytes) }.

Definition trigger_of (packages : gmap bytes (bytes * bytes)) (line : bytes) : option trigger :=
  match words_by is_ascii_whitespace line with
  | [] => None
  | first :: fields =>
      d ← digest_text (from_utf8_lossy first);
      Some (mk_trigger d (from_utf8_lossy <$> fields) (packages !! d))
  end.

Definition triggers (r : root) : prog (option (path * list trigger)) :=
  x ← Root.read_capped r TRIGGERS DB_CAP;
  match x with
  | Err _ => Ret None
  | Ok (b, _) =>
      packages ← packages_by_checksum r;
      Ret (Some (TRIGGERS, omap (trigger_of packages) (split_on (is_byte newline) b)))
  end.

(** ** What a complete answer says *)

Section laws.
Context `{Digests} `{Strerror}.
Variable h : snapshot.

Lemma run_claim_verdict r protected c w :
  run h (claim_verdict r protected c w) =
  Provenance.Packaged (from_utf8_lossy (cl_name c)) (from_utf8_lossy (cl_version c)) (run h (verify r w (cl_facts c) protected)).
Proof. unfold claim_verdict. by rewrite run_bind. Qed.

(** The answers to the claims of a database. *)
Definition answers_of (r : root) (wanted : pset) (cs : list claim) : answers :=
  answered (fun c w => run h (claim_verdict r (run h (protected_paths r)) c w))
    (fun c => aliased (run h (alias_map r (ps_list wanted))) (cl_path c)) pm_empty cs.

Lemma apk_run_resolve r wanted :
  run h (resolve r wanted) =
  if run h (present r) then
    match run h (Root.read_capped r INSTALLED DB_CAP) with
    | Err e => Database.Incomplete pm_empty (INSTALLED ++ #" could not be read: " ++ display_error e)
    | Ok (b, true) => Database.Incomplete (answers_of r wanted (each_path b)) (INSTALLED ++ #" is larger than the read cap")
    | Ok (b, false) => Database.Complete (answers_of r wanted (each_path b))
    end
  else Database.Absent.
Proof.
  unfold resolve. rewrite run_bind. destruct (run h (present r)); cbn [negb]; [|done].
  rewrite run_bind. destruct (run h (Root.read_capped r INSTALLED DB_CAP)) as [[b cut]|e]; [|done].
  rewrite run_bind. cbv zeta. rewrite run_bind, run_bind, run_answer_claims. by destruct cut.
Qed.

Lemma apk_answers_of_for r wanted cs : pm_ok wanted -> answers_for wanted (answers_of r wanted cs).
Proof.
  intros Hw. apply answers_for_answered; [done|by apply answers_for_empty|].
  intros c w _ [Hin _]%elem_of_aliased. split; [|done]. rewrite run_claim_verdict. by repeat eexists.
Qed.
End laws.

#[export] Instance apk_backend `{Digests} `{Strerror} h : BackendLaws h (total resolve).
Proof.
  apply total_answers. intros r wanted Hw. rewrite apk_run_resolve.
  destruct (run h (present r)); [|done].
  destruct (run h (Root.read_capped r INSTALLED DB_CAP)) as [[b [|]]|e];
    [by apply apk_answers_of_for..|by apply answers_for_empty].
Qed.

(** When a file is called intact: its record has a digest, the file's own (or
    its target's, where it is a link) is that digest, and no set-id bit
    differs from the mode recorded, if one was. *)
Definition intact `{Digests} (h : snapshot) (r : root) (p : path) (f : facts) : Prop :=
  exists a expected m actual,
    fa_digest f = Some (a, expected) /\ run h (stat r p) = Ok m /\
    run h (actual_digest r p m a) = Some actual /\ eq_ignore_ascii_case actual expected = true /\
    forall shipped, fa_mode f = Some shipped -> privilege shipped = privilege (m_mode m).

Lemma verify_intact `{Digests} h r p f protected : run h (verify r p f protected) = Integrity.Intact -> intact h r p f.
Proof.
  unfold verify. destruct (fa_is_dir f); [done|]. destruct (fa_digest f) as [[a e]|] eqn:Ef; [|done].
  rewrite run_bind. destruct (run h (stat r p)) as [m|err] eqn:Es; [|done].
  rewrite run_bind. cbn [run]. destruct (run h (actual_digest r p m a)) as [d|] eqn:Ed; [|done].
  destruct (eq_ignore_ascii_case d e) eqn:Ee; [|by repeat case_match].
  intros Hi. exists a, e, m, d. split_and!; try done. intros shipped Hs. rewrite Hs in Hi.
  by case_bool_decide.
Qed.

(** ** Protected paths, component by component *)

(** A pattern's components match a path's, all of them. *)
Fixpoint all_match (ps cs : list bytes) : bool :=
  match ps, cs with
  | [], [] => true
  | p :: ps', c :: cs' => glob_match p c && all_match ps' cs'
  | _, _ => false
  end.
(** The last pattern to match exactly these components. *)
Definition mode_at (patterns : list (bytes * protect)) (cs : list bytes) (mode : protect) : protect :=
  foldl (fun mode pm => if all_match (split_on (is_byte slash) (fst pm)) cs then snd pm else mode) mode patterns.
(** The last of the deepest: directory by directory, then the file. *)
Definition mode_from (patterns : list (bytes * protect)) (cs : list bytes) (mode : protect) : protect :=
  foldl (fun mode k => mode_at patterns (take k cs) mode) mode (seq 1 (length cs)).

Lemma all_match_nil l : all_match (split_on (is_byte slash) l) [] = false.
Proof. destruct (split_on _ l) eqn:E; [by apply split_on_not_nil in E|done]. Qed.

Lemma all_match_one pat c :
  all_match (split_on (is_byte slash) pat) [c] = bool_decide (position (is_byte slash) pat = None) && glob_match pat c.
Proof.
  rewrite split_on_position. destruct (position _ pat); cbn [all_match].
  - rewrite all_match_nil, andb_false_r. done.
  - by rewrite andb_true_r.
Qed.

Lemma mode_at_one level c mode : mode_at level [c] mode = foldl (settle c) mode level.
Proof.
  unfold mode_at. revert mode. induction level as [|pm level IH]; intros mode; [done|]. cbn [foldl].
  rewrite IH. unfold settle at 2. by rewrite all_match_one.
Qed.

Lemma mode_at_deeper level c d ds mode :
  mode_at level (c :: d :: ds) mode = mode_at (omap (descend c) level) (d :: ds) mode.
Proof.
  unfold mode_at. revert mode. induction level as [|[pat m] level IH]; intros mode; [done|]. cbn [foldl fst snd].
  rewrite IH, split_on_position. csimpl. unfold descend at 2. cbn [fst snd].
  destruct (position _ pat) as [i|]; cbn [mbind option_bind all_match].
  - destruct (glob_match (take i pat) c); cbn [andb foldl fst snd]; [done|done].
  - by rewrite andb_false_r.
Qed.

Lemma mode_from_cons level c cs mode :
  mode_from level (c :: cs) mode = mode_from (omap (descend c) level) cs (foldl (settle c) mode level).
Proof.
  unfold mode_from. cbn [length seq foldl take]. rewrite mode_at_one, foldl_seq_S.
  apply foldl_ext_in. intros mode' k [Hk1 Hk2]%elem_of_seq.
  destruct k as [|k]; [lia|]. destruct cs as [|d cs]; [cbn in Hk2; lia|]. cbn [take]. apply mode_at_deeper.
Qed.

Lemma protect_dirs_from level mode dirs name :
  (let '(level, mode) := protect_dirs level mode dirs in foldl (settle name) mode level) =
  mode_from level (dirs ++ [name]) mode.
Proof.
  revert level mode. induction dirs as [|c dirs IH]; intros level mode; cbn [protect_dirs app].
  - unfold mode_from. cbn. by rewrite mode_at_one.
  - by rewrite IH, mode_from_cons.
Qed.

(** The mode of a path is that of the deepest directory some pattern
    matches component by component, or of the file itself, and of the last of
    the patterns that match so deep; a pattern's stars do not cross a slash,
    and a path nothing matches is not protected. *)
Theorem protect_mode_reference patterns p :
  protect_mode patterns p = mode_from patterns (path_iter p) Protect.None_.
Proof.
  unfold protect_mode. destruct (last (path_iter p)) as [name|] eqn:E.
  - rewrite protect_dirs_from. apply last_Some in E as [l E]. by rewrite E, removelast_last.
  - by apply last_None in E as ->.
Qed.

(** ** A database as apk writes it *)

Record db_file := mk_db_file { df_name : bytes; df_mode : option N; df_digest : option (alg * bytes) }.
Record db_dir := mk_db_dir { dd_path : bytes; dd_files : list db_file }.
Record db_package := mk_db_package { dp_name : bytes; dp_version : bytes; dp_dirs : list db_dir }.

Definition digest_len (a : alg) : nat := match a with Alg.Md5 => 16 | Alg.Sha1 => 20 | Alg.Sha256 => 32 end.
Definition print_digest (d : alg * bytes) : bytes :=
  match fst d with Alg.Md5 => [] | Alg.Sha1 => #"X1" | Alg.Sha256 => #"X2" end ++ hex (snd d).

Definition file_lines (f : db_file) : list bytes :=
  [ #"R:" ++ df_name f] ++
  match df_mode f with Some m => [ #"a:0:0:" ++ octal4 m] | None => [] end ++
  match df_digest f with Some d => [ #"Z:" ++ print_digest d] | None => [] end.
Definition dir_lines (d : db_dir) : list bytes := ( #"F:" ++ dd_path d) :: (dd_files d ≫= file_lines).
Definition package_lines (p : db_package) : list bytes :=
  [ #"P:" ++ dp_name p; #"V:" ++ dp_version p] ++ (dp_dirs p ≫= dir_lines) ++ [[]].
Definition print_db (db : list db_package) : bytes := join [newline] ((db ≫= package_lines) ++ [[]]).

(** What it claims. *)
Definition file_facts (f : db_file) : facts := mk_facts false (prod_map id hex <$> df_digest f) (df_mode f).
Definition file_path (dir name : bytes) : path := (if bool_decide (dir = []) then [] else dir ++ [slash]) ++ name.
Definition file_claim (name version dir : bytes) (f : db_file) : claim :=
  mk_claim name version (file_path dir (df_name f)) (file_facts f).
Definition dir_claims (name version : bytes) (d : db_dir) : list claim :=
  (if bool_decide (dd_path d = []) then [] else [mk_claim name version (dd_path d) (mk_facts true None None)]) ++
  (file_claim name version (dd_path d) <$> dd_files d).
Definition package_claims (p : db_package) : list claim := dp_dirs p ≫= dir_claims (dp_name p) (dp_version p).

Definition one_line (s : bytes) : Prop := Forall (fun x => is_byte newline x = false) s.
Definition file_ok (f : db_file) : Prop :=
  one_line (df_name f) /\ (forall m, df_mode f = Some m -> (m < 4096)%N) /\
  (forall d, df_digest f = Some d -> length (snd d) = digest_len (fst d)).
Definition dir_ok (d : db_dir) : Prop :=
  one_line (dd_path d) /\ strip_suffix [slash] (dd_path d) = None /\ Forall file_ok (dd_files d).
Definition package_ok (p : db_package) : Prop :=
  one_line (dp_name p) /\ one_line (dp_version p) /\ Forall dir_ok (dp_dirs p).

(** *** Fields read back *)

Lemma acl_mode_octal m : (m < 4096)%N -> acl_mode ( #"0:0:" ++ octal4 m) = Some m.
Proof.
  intros H. assert (Hall : forallb (fun k => bool_decide (acl_mode ( #"0:0:" ++ octal4 (N.of_nat k)) = Some (N.of_nat k)))
    (seq 0 4096) = true) by by vm_compute.
  rewrite forallb_forall in Hall. specialize (Hall (N.to_nat m)).
  rewrite N2Nat.id in Hall. eapply bool_decide_eq_true, Hall, in_seq. lia.
Qed.

Definition nibbles_ok (b : byte) : bool :=
  bool_decide (unhex_pairs (hex_byte b) = Some [b]) && forallb is_ascii_hexdigit (hex_byte b).
Lemma nibbles b : nibbles_ok b = true.
Proof. apply byte_forall. by vm_compute. Qed.

Lemma unhex_pairs_hex b s : unhex_pairs (hex_byte b ++ s) = rest ← unhex_pairs s; Some (b :: rest).
Proof.
  pose proof (nibbles b) as [H%bool_decide_eq_true _]%andb_true_iff. revert H. unfold hex_byte. cbn [app unhex_pairs].
  destruct (to_digit 16 (hex_digit (_ / _))) as [x|]; cbn [mbind option_bind]; [|done].
  destruct (to_digit 16 _) as [y|]; cbn [mbind option_bind]; [|done]. intros [= H]. by rewrite H.
Qed.

Lemma length_hex b : length (hex b) = 2 * length b.
Proof. induction b as [|x b IH]; [done|]. change (hex (x :: b)) with (hex_byte x ++ hex b). cbn [length hex_byte app]. lia. Qed.

Lemma unhex_hex b : unhex (hex b) = Some b.
Proof.
  unfold unhex. rewrite length_hex, Nat.even_mul. cbn [Nat.even orb].
  induction b as [|x b IH]; [done|]. change (hex (x :: b)) with (hex_byte x ++ hex b).
  rewrite unhex_pairs_hex, IH. done.
Qed.

Lemma hex_head b : b <> [] -> match hex b with c :: _ => is_ascii_hexdigit c | [] => false end = true.
Proof.
  destruct b as [|x b]; [done|]. intros _. change (hex (x :: b)) with (hex_byte x ++ hex b).
  pose proof (nibbles x) as [_ H]%andb_true_iff. unfold hex_byte in *. cbn [app forallb] in *.
  by apply andb_true_iff in H as [? _].
Qed.

Lemma digest_print d : length (snd d) = digest_len (fst d) -> digest (print_digest d) = Some (prod_map id hex d).
Proof.
  destruct d as [a b]. cbn [fst snd prod_map]. intros Hl. unfold print_digest, digest. cbn [fst snd].
  destruct a; cbn [digest_len] in Hl.
  - change ([] ++ hex b) with (hex b). rewrite hex_head by by destruct b. rewrite unhex_hex. cbn [mbind option_bind].
    by rewrite bool_decide_true.
  - change ( #"X1" ++ hex b) with ("X"%byte :: "1"%byte :: hex b).
    cbv beta iota.
    assert (is_ascii_hexdigit "X"%byte = false) as -> by done. rewrite bool_decide_true by done.
    unfold sha1_or_more, split_at_checked. rewrite (bool_decide_false ("X"%byte = "Q"%byte)) by done.
    rewrite length_hex, Hl. cbn [Nat.mul Nat.add Nat.leb mbind option_bind].
    rewrite take_ge, drop_ge by (rewrite length_hex; lia). unfold decode_digest.
    rewrite (bool_decide_false ("X"%byte = "Q"%byte)), (bool_decide_true ("X"%byte = "X"%byte)) by done.
    rewrite unhex_hex. cbn [mbind option_bind]. rewrite (bool_decide_true (length b = 20)) by done.
    cbn [negb]. rewrite bool_decide_true by done. cbn [mbind option_bind]. by rewrite bool_decide_true.
  - change ( #"X2" ++ hex b) with ("X"%byte :: "2"%byte :: hex b).
    cbv beta iota.
    assert (is_ascii_hexdigit "X"%byte = false) as -> by done.
    rewrite (bool_decide_false ("2"%byte = "1"%byte)), (bool_decide_true ("2"%byte = "2"%byte)) by done.
    unfold decode_digest.
    rewrite (bool_decide_false ("X"%byte = "Q"%byte)), (bool_decide_true ("X"%byte = "X"%byte)) by done.
    rewrite unhex_hex. cbn [mbind option_bind]. rewrite (bool_decide_true (length b = 32)) by done.
    cbn [mbind option_bind]. rewrite (bool_decide_false (length b = 20)), (bool_decide_true (length b = 32)) by (done || lia). done.
Qed.

(** *** Lines read back *)

(** Lines that leave the package as it is and settle these claims. *)
Definition settled (st : stream) : list claim := st_claims (flush st).
Record reads (name version : bytes) (st : stream) (cs : list claim) (st' : stream) : Prop := mk_reads {
  rd_name : st_name st' = name; rd_version : st_version st' = version; rd_claims : settled st' = settled st ++ cs
}.

Lemma settled_flush st : settled (flush st) = settled st.
Proof. unfold settled, flush. destruct (st_pending st) as [[]|] eqn:E; cbn; [done|by rewrite E]. Qed.

Lemma flush_fields st : st_name (flush st) = st_name st /\ st_version (flush st) = st_version st /\
  st_dir (flush st) = st_dir st /\ st_pending (flush st) = None.
Proof. unfold flush. destruct (st_pending st) as [[]|] eqn:E; cbn; [done|by rewrite E]. Qed.

Lemma settled_describe f st n v d p g cs :
  st = mk_stream n v d (Some (p, g)) cs -> settled (describe f st) = cs ++ [mk_claim n v p (f g)].
Proof. by intros ->. Qed.

Lemma db_file_reads name version st f (st' := foldl db_line st (file_lines f)) :
  st_name st = name -> st_version st = version -> file_ok f ->
  reads name version st [file_claim name version (st_dir st) f] st' /\ st_dir st' = st_dir st.
Proof.
  intros <- <- (_ & Hm & Hd). destruct (flush_fields st) as (E1 & E2 & E3 & _).
  set (p := file_path (st_dir st) (df_name f)).
  assert (Er : db_line st ( #"R:" ++ df_name f) =
    mk_stream (st_name st) (st_version st) (st_dir st) (Some (p, no_facts)) (settled st)).
  { change (db_line st ( #"R:" ++ df_name f)) with (file_line (df_name f) st). unfold file_line. cbv zeta.
    by rewrite E1, E2, E3. }
  assert (Ea : forall st v, db_line st ( #"a:" ++ v) =
    describe (fun g => mk_facts (fa_is_dir g) (fa_digest g) (acl_mode v)) st) by done.
  assert (Ez : forall st v, db_line st ( #"Z:" ++ v) =
    describe (fun g => mk_facts (fa_is_dir g) (digest v) (fa_mode g)) st) by done.
  assert (st' = mk_stream (st_name st) (st_version st) (st_dir st) (Some (p, file_facts f)) (settled st)) as ->.
  { unfold st', file_lines, file_facts. cbn [app foldl]. rewrite Er.
    destruct (df_mode f) as [m|], (df_digest f) as [d|]; cbn [app foldl].
    - change ( #"a:0:0:" ++ octal4 m) with ( #"a:" ++ #"0:0:" ++ octal4 m).
      rewrite Ea, Ez, acl_mode_octal, digest_print by auto. done.
    - change ( #"a:0:0:" ++ octal4 m) with ( #"a:" ++ #"0:0:" ++ octal4 m). by rewrite Ea, acl_mode_octal by auto.
    - by rewrite Ez, digest_print by auto.
    - done. }
  done.
Qed.

Lemma reads_trans name version st cs st' cs' st'' :
  reads name version st cs st' -> reads name version st' cs' st'' -> reads name version st (cs ++ cs') st''.
Proof. intros [? ? H1] [? ? H2]. split; [done..|]. by rewrite H2, H1, app_assoc. Qed.

Lemma db_files_reads name version st fs (st' := foldl db_line st (fs ≫= file_lines)) :
  st_name st = name -> st_version st = version -> Forall file_ok fs ->
  reads name version st (file_claim name version (st_dir st) <$> fs) st'.
Proof.
  intros Hn Hv H. unfold st'. clear st'. revert st Hn Hv. induction H as [|f fs Hf _ IH]; intros st Hn Hv.
  - split; [done..|]. by rewrite app_nil_r.
  - cbn [mbind list_bind fmap list_fmap]. rewrite foldl_app.
    destruct (db_file_reads name version st f Hn Hv Hf) as [Hr Hd]. pose proof Hr as [Hn' Hv' _].
    pose proof (IH _ Hn' Hv') as Hrs. rewrite Hd in Hrs. exact (reads_trans _ _ _ [_] _ _ _ Hr Hrs).
Qed.

Lemma db_dir_reads name version st d (st' := foldl db_line st (dir_lines d)) :
  st_name st = name -> st_version st = version -> dir_ok d -> reads name version st (dir_claims name version d) st'.
Proof.
  intros Hn Hv (_ & Hs & Hf). unfold st', dir_lines, dir_claims. cbn [foldl].
  change (db_line st ( #"F:" ++ dd_path d)) with (dir_line (dd_path d) st).
  destruct (flush_fields st) as (E1 & E2 & E3 & E4).
  assert (Hdir : st_dir (dir_line (dd_path d) st) = dd_path d) by (unfold dir_line; cbv zeta; by rewrite Hs).
  assert (Hn' : st_name (dir_line (dd_path d) st) = name) by (by rewrite <- Hn, <- E1).
  assert (Hv' : st_version (dir_line (dd_path d) st) = version) by (by rewrite <- Hv, <- E2).
  pose proof (db_files_reads _ _ _ _ Hn' Hv' Hf) as Hr. rewrite Hdir in Hr. eapply reads_trans; [|exact Hr].
  split; [done|done|]. unfold settled at 1, dir_line. rewrite Hs. cbv zeta. cbn [default from_option id].
  unfold flush at 1. cbn [st_pending]. rewrite E4. cbn [st_claims]. rewrite E1, E2, Hn, Hv.
  case_bool_decide; [by rewrite app_nil_r|done].
Qed.

Lemma db_dirs_reads name version st ds (st' := foldl db_line st (ds ≫= dir_lines)) :
  st_name st = name -> st_version st = version -> Forall dir_ok ds ->
  reads name version st (ds ≫= dir_claims name version) st'.
Proof.
  intros Hn Hv H. unfold st'. clear st'. revert st Hn Hv. induction H as [|d ds Hd _ IH]; intros st Hn Hv.
  - split; [done..|]. by rewrite app_nil_r.
  - cbn [mbind list_bind]. rewrite foldl_app. pose proof (db_dir_reads name version st d Hn Hv Hd) as Hr.
    pose proof Hr as [Hn' Hv' _]. eapply reads_trans; [exact Hr|]. by apply IH.
Qed.

Lemma db_package_reads out p : package_ok p ->
  foldl db_line (mk_stream [] [] [] None out) (package_lines p) = mk_stream [] [] [] None (out ++ package_claims p).
Proof.
  intros (_ & _ & Hd). unfold package_lines. rewrite foldl_app. cbn [foldl].
  change (db_line (db_line (mk_stream [] [] [] None out) ( #"P:" ++ dp_name p)) ( #"V:" ++ dp_version p))
    with (mk_stream (dp_name p) (dp_version p) [] None out).
  rewrite foldl_app. cbn [foldl db_line].
  destruct (db_dirs_reads (dp_name p) (dp_version p) (mk_stream (dp_name p) (dp_version p) [] None out) (dp_dirs p))
    as [_ _ Hr]; [done..|]. unfold settled in Hr. by rewrite Hr.
Qed.

Lemma db_packages_reads out db : Forall package_ok db ->
  foldl db_line (mk_stream [] [] [] None out) (db ≫= package_lines) = mk_stream [] [] [] None (out ++ (db ≫= package_claims)).
Proof.
  intros H. revert out. induction H as [|p db Hp _ IH]; intros out; [by rewrite app_nil_r|].
  cbn [mbind list_bind]. by rewrite foldl_app, db_package_reads, IH, app_assoc.
Qed.

Lemma one_line_app s t : one_line s -> one_line t -> one_line (s ++ t).
Proof. intros. by apply Forall_app. Qed.
Lemma one_line_of s : forallb (fun x => negb (is_byte newline x)) s = true -> one_line s.
Proof. intros H. apply Forall_forall. intros x Hx. eapply forallb_forall in H; [|by apply list_elem_of_In]. by apply negb_true_iff. Qed.

Lemma one_line_hex b : one_line (hex b).
Proof.
  induction b as [|x b IH]; [constructor|]. change (hex (x :: b)) with (hex_byte x ++ hex b). apply one_line_app; [|done].
  apply one_line_of. exact (byte_forall (fun x => forallb (fun x => negb (is_byte newline x)) (hex_byte x)) ltac:(by vm_compute) x).
Qed.
Lemma one_line_octal m : one_line (octal4 m).
Proof.
  assert (H : forall n, is_byte newline (digit_char (n mod 8)) = false).
  { intros n. pose proof (N.mod_lt n 8 ltac:(done)) as Hn. apply bool_decide_eq_false. intros E.
    pose proof (digit_char_digit (n mod 8) ltac:(lia)) as Hd. rewrite E in Hd. done. }
  repeat constructor; apply H.
Qed.

Lemma package_one_lines p : package_ok p -> Forall one_line (package_lines p).
Proof.
  intros (Hn & Hv & Hd). unfold package_lines. apply Forall_app. split.
  { apply Forall_cons. split; [|apply Forall_singleton]; by apply one_line_app; [apply one_line_of|]. }
  apply Forall_app. split; [|by repeat constructor].
  apply Forall_bind. eapply Forall_impl; [exact Hd|]. intros d (Hp & _ & Hf). unfold dir_lines. apply Forall_cons.
  split; [by apply one_line_app; [apply one_line_of|]|]. apply Forall_bind. eapply Forall_impl; [exact Hf|].
  intros f (Hfn & _ & _). unfold file_lines. apply Forall_app. split; [apply Forall_singleton; by apply one_line_app; [apply one_line_of|]|].
  apply Forall_app. split.
  - destruct (df_mode f); [|constructor]. apply Forall_singleton, one_line_app; [by apply one_line_of|apply one_line_octal].
  - destruct (df_digest f) as [[a b]|]; [|constructor]. apply Forall_singleton, one_line_app; [by apply one_line_of|].
    unfold print_digest. apply one_line_app; [by destruct a; apply one_line_of|apply one_line_hex].
Qed.

(** A database written the way apk writes it is read back as just what it
    claims: every directory but the top one and every file, in order, each
    with its package, its mode and its digest, whichever of the three
    algorithms it was taken with. *)
Theorem apk_round_trip (db : list db_package) :
  Forall package_ok db -> each_path (print_db db) = db ≫= package_claims.
Proof.
  intros H. unfold each_path, print_db. rewrite split_on_join.
  - unfold no_stream. by rewrite foldl_app, (db_packages_reads [] db).
  - by apply bool_decide_eq_true.
  - by destruct (db ≫= package_lines).
  - apply Forall_app. split; [|by repeat constructor]. apply Forall_bind. eapply Forall_impl; [exact H|apply package_one_lines].
Qed.

(** C27. A database answered for completely was read to its end, and a wanted
    path is then the last record's that names one of its spellings: that
    record's package and version, with what checking the file against the
    record says; a path no record names has no answer. *)
Theorem apk_complete `{Digests} `{Strerror} (h : snapshot) (r : root) (wanted : pset) (out : answers) :
  pm_ok wanted -> run h (resolve r wanted) = Database.Complete out ->
  exists b, run h (Root.read_capped r INSTALLED DB_CAP) = Ok (b, false) /\
  forall w, w ∈ ps_list wanted ->
    pm_get out w =
    (fun c => Provenance.Packaged (from_utf8_lossy (cl_name c)) (from_utf8_lossy (cl_version c))
                (run h (verify r w (cl_facts c) (run h (protected_paths r))))) <$>
    last (List.filter (fun c => spells h r w (cl_path c)) (each_path b)).
Proof.
  intros Hok. rewrite apk_run_resolve. destruct (run h (present r)); [|done].
  destruct (run h (Root.read_capped r INSTALLED DB_CAP)) as [[b [|]]|e]; [done| |done].
  intros [= <-]. exists b. split; [done|]. intros w Hw. unfold answers_of. rewrite answered_aliased by done.
  destruct (last _); [|done]. cbn. by rewrite run_claim_verdict.
Qed.

(** ** The archive of scripts *)

(** More fuel than bytes changes nothing. *)
Lemma tar_from_fuel n m rest ln : length rest <= n -> length rest <= m -> tar_from n rest ln = tar_from m rest ln.
Proof.
  revert m rest ln. induction n as [|n IH]; intros m rest ln Hn Hm.
  { destruct rest; [|cbn in Hn; lia]. by destruct m. }
  destruct m as [|m]; [destruct rest; [done|cbn in Hm; lia]|]. cbn [tar_from].
  destruct (BLOCK <=? length rest) eqn:Eb; cbn [negb]; [|done].
  assert (Hl : forall size, length (drop_n (512 + padded size) rest) < length rest).
  { intros size. rewrite drop_n_drop, length_drop. apply Nat.leb_le in Eb. unfold BLOCK in Eb. lia. }
  repeat (case_match; [done|]). cbv zeta. pose proof (Hl (entry_size (take BLOCK rest))) as Hlt.
  repeat case_match; rewrite ?(IH m) by lia; done.
Qed.

Lemma tar_from_bodies fuel rest ln :
  Forall (fun e => length e.2 <= length rest) (tar_from fuel rest ln).
Proof.
  revert rest ln. induction fuel as [|fuel IH]; intros rest ln; cbn [tar_from]; [constructor|].
  repeat (case_match; [constructor|]). cbv zeta.
  assert (Hn : forall size ln', Forall (fun e : bytes * bytes => length e.2 <= length rest)
      (tar_from fuel (drop_n (512 + padded size) rest) ln')).
  { intros size ln'. eapply Forall_impl; [apply IH|]. intros e. cbv beta. rewrite drop_n_drop, length_drop. lia. }
  repeat case_match; [apply Hn|constructor; [|apply Hn]|apply Hn].
  cbn [snd]. rewrite take_n_take, length_take, length_drop. lia.
Qed.

Lemma gunzip_bound `{InflateLaws} b out : gunzip b = Some out -> (N.of_nat (length out) <= DB_CAP)%N.
Proof.
  unfold gunzip. destruct (strip_prefix _ b) as [[|flags rest']|]; [done| |done].
  destruct (skip_extra _ _ _) as [i1|]; cbn [mbind option_bind]; [|done].
  destruct (skip_field _ _ 8 _) as [i2|]; cbn [mbind option_bind]; [|done].
  destruct (skip_field _ _ 16 _) as [i3|]; cbn [mbind option_bind]; [|done]. cbv zeta.
  destruct (get_from _ _) as [rest|]; cbn [mbind option_bind]; [|done]. apply inflate_limit.
Qed.

Lemma script_of_body nb s : script_of nb = Some s -> sc_body s = nb.2 /\ sc_phase s ∈ PHASES.
Proof.
  unfold script_of. destruct (rsplit_once #"." nb.1) as [[stem phase]|]; cbn [mbind option_bind]; [|done].
  case_bool_decide as Hp; cbn [negb]; [|done].
  destruct (rsplit_once #"." stem) as [[pv d]|]; cbn [mbind option_bind]; [|done].
  destruct (digest_text d); cbn [mbind option_bind]; [|done].
  destruct (rsplit_once #"-" pv) as [[nv rel]|]; cbn [mbind option_bind]; [|done].
  destruct (rsplit_once #"-" nv) as [[name ver]|]; cbn [mbind option_bind]; [|done]. by intros [= <-].
Qed.

Lemma tar_entries_bodies b : Forall (fun e => length e.2 <= length b) (tar_entries b).
Proof. apply tar_from_bodies. Qed.

(** No script's body is larger than the cap on reading the database,
    whether its archive came compressed or not: unpacking stops at the cap,
    and an archive is never read past what there is of it. *)
Theorem scripts_bounded `{InflateLaws} (h : snapshot) (r : root) (where_ : path) (ss : list script) :
  run h (scripts r) = Some (where_, ss) ->
  forall s, s ∈ ss -> (N.of_nat (length (sc_body s)) <= DB_CAP)%N /\ sc_phase s ∈ PHASES.
Proof.
  assert (Hall : forall b, (N.of_nat (length b) <= DB_CAP)%N -> forall s, s ∈ omap script_of (tar_entries b) ->
    (N.of_nat (length (sc_body s)) <= DB_CAP)%N /\ sc_phase s ∈ PHASES).
  { intros b Hb s (e & He & [-> Hp]%script_of_body)%list_elem_of_omap. split; [|done].
    pose proof (tar_entries_bodies b) as Ht. rewrite Forall_forall in Ht. specialize (Ht _ He). cbn in Ht. lia. }
  unfold scripts. rewrite run_bind. destruct (run h (Root.read_capped r SCRIPTS_GZ DB_CAP)) as [[b cut]|e]; cbn [run].
  - destruct (gunzip b) as [out|] eqn:Eg; cbn [mbind option_bind]; [|done]. intros [= _ <-].
    apply Hall. by apply gunzip_bound in Eg.
  - rewrite run_bind. cbn [run]. destruct (run h (Root.read_capped r SCRIPTS_TAR DB_CAP)) as [[b cut]|e'] eqn:Et; [|done].
    intros [= _ <-]. apply Hall. by eapply run_read_capped_length.
Qed.

(** ** Witnesses *)

Module ApkDemo.
(** A digest is the hexadecimal of the content, twenty bytes of it. *)
#[local] Instance digests : Digests := {| sha256_hex := hex; md5_hex := hex; sha1_hex := hex |}.
#[local] Instance strerror : Strerror := fun _ => #"error".
(** Stored, not compressed. *)
#[local] Instance stored : Inflate := fun b limit => if (N.of_nat (length b) <=? limit)%N then Some b else None.
#[local] Instance stored_laws : InflateLaws.
Proof. intros b limit out. unfold inflate, stored. destruct (N.leb_spec (N.of_nat (length b)) limit); [|done]. by intros [= <-]. Qed.

Definition content (c : byte) : bytes := replicate 20 c.
Definition db : list db_package :=
  [mk_db_package #"busybox" #"1.36-r2"
     [mk_db_dir #"bin" [mk_db_file #"busybox" (Some 0xFED%N) (Some (Alg.Sha1, content "b"))];
      mk_db_dir #"etc" [mk_db_file #"securetty" None (Some (Alg.Sha1, content "s"))];
      mk_db_dir [] [mk_db_file #"x" None None]]].

Definition dirs : Tree.tree :=
  [( #"lib", Tree.Dir 0 0x1ED); ( #"lib/apk", Tree.Dir 0 0x1ED); ( #"lib/apk/db", Tree.Dir 0 0x1ED)].
Definition host : Tree.tree :=
  dirs ++
  [(INSTALLED, Tree.File 0 0x1A4 (print_db db)); ( #"bin", Tree.Dir 0 0x1ED); ( #"etc", Tree.Dir 0 0x1ED);
   ( #"bin/busybox", Tree.File 0 0x1ED (content "b")); ( #"etc/securetty", Tree.File 0 0x1A4 #"changed")].
Definition wanted : pset := ps_of [ #"bin/busybox"; #"etc/securetty"; #"x"; #"etc/other"].
Definition answers_on (t : Tree.tree) (w : pset) : option (list (option provenance)) :=
  match run (Tree.kernel t) (resolve Tree.offline w) with
  | Database.Complete out => Some ((fun p => pm_get out p) <$> ps_list w)
  | _ => None
  end.

(** An archive of one script. *)
Definition pad (n : nat) (b : bytes) : bytes := take n (b ++ replicate n nul).
Definition header (name : bytes) (size : bytes) : bytes :=
  pad 124 name ++ pad 32 size ++ [("0"%byte)] ++ pad 100 [] ++ pad 255 #"ustar".
Definition body : bytes := #"#!/bin/sh".
Definition archive : bytes :=
  header ( #"a-1-r0.X1" ++ hex (content "c") ++ #".trigger") #"00000000011" ++ pad 512 body ++ pad 1024 [].
Definition script_host : Tree.tree := dirs ++ [(SCRIPTS_TAR, Tree.File 0 0x1A4 archive)].
End ApkDemo.

Example apk_demo :
  ApkDemo.answers_on ApkDemo.host ApkDemo.wanted =
  Some [Some (Provenance.Packaged #"busybox" #"1.36-r2" Integrity.ModeModified);
        None;
        Some (Provenance.Packaged #"busybox" #"1.36-r2" Integrity.ConffileModified);
        Some (Provenance.Packaged #"busybox" #"1.36-r2" Integrity.Unknown)].
Proof. by vm_compute. Qed.

Lemma apk_scripts_demo :
  run (Tree.kernel ApkDemo.script_host) (scripts (H := ApkDemo.stored) Tree.offline) =
    Some (SCRIPTS_TAR, [mk_script #"a" #"1-r0" (hex (ApkDemo.content "c")) #"trigger" ApkDemo.body]).
Proof. by vm_compute. Qed.

Lemma scripts_bounded_witness : (N.of_nat (length ApkDemo.body) <= DB_CAP)%N /\ #"trigger" ∈ PHASES.
Proof.
  exact (@scripts_bounded ApkDemo.stored ApkDemo.stored_laws _ Tree.offline _ _ apk_scripts_demo _
    (list_elem_of_here _ [])).
Defined.

Lemma apk_demo_db_ok : Forall package_ok ApkDemo.db.
Proof.
  repeat constructor; try (by intros ? [= <-]); try done.
Qed.

Lemma apk_round_trip_witness : length (each_path (print_db ApkDemo.db)) = 5.
Proof. rewrite (apk_round_trip ApkDemo.db apk_demo_db_ok). reflexivity. Defined.

Module ApkSmall.
Definition host : Tree.tree := ApkDemo.dirs ++ [(INSTALLED, Tree.File 0 0x1A4 (join [newline] [ #"P:a"; #"V:1"; #"R:x"]))].
Definition wanted : pset := ps_of [ #"x"].
Definition out : answers := pm_insert #"x" (Provenance.Packaged #"a" #"1" Integrity.Unknown) pm_empty.
End ApkSmall.

Lemma apk_small :
  run (Tree.kernel ApkSmall.host)
    (resolve (H := ApkDemo.digests) (H0 := ApkDemo.strerror) Tree.offline ApkSmall.wanted) = Database.Complete ApkSmall.out.
Proof. by vm_compute. Qed.

Lemma apk_complete_witness :
  exists b, run (Tree.kernel ApkSmall.host) (Root.read_capped Tree.offline INSTALLED DB_CAP) = Ok (b, false) /\
    is_Some (last (List.filter (fun c => spells (Tree.kernel ApkSmall.host) Tree.offline #"x" (cl_path c)) (each_path b))).
Proof.
  destruct (@apk_complete ApkDemo.digests ApkDemo.strerror (Tree.kernel ApkSmall.host) Tree.offline
    ApkSmall.wanted ApkSmall.out (ps_of_ok _) apk_small) as (b & Hb & H).
  exists b. split; [exact Hb|]. specialize (H #"x" ltac:(vm_compute; left)).
  destruct (last _) as [c|]; [eexists; reflexivity|]. exfalso. vm_compute in H. discriminate H.
Defined.
