(* ===== verification/Pacman.v ===== *)
(** [src/provenance/pacman.rs]: the pacman backend. A directory per package,
    its list of files with the configuration files' digests, and a compressed
    manifest of the build. *)

From S2P Require Import Prelude Slices Order Num Utf8 Paths PathMap Kinds Entry Sys Root Tree Scan Provenance Backend Apk.

Definition LOCAL : path := #"var/lib/pacman/local".
Definition FILES_CAP : N := N.shiftl 16 20.
Definition MTREE_CAP : N := N.shiftl 64 20.
Definition MAX_PACKAGES : N := 100000.

Definition present (r : root) : prog bool := exists_ r LOCAL.

(** [name-version-release]: the last two hyphens divide. *)
Definition split_dir_name (dir : bytes) : option (bytes * bytes) :=
  '(nv, release) ← rsplit_once #"-" dir;
  '(name, version) ← rsplit_once #"-" nv;
  if bool_decide (name = []) then None else Some (name, version ++ #"-" ++ release).

Record pkg := mk_pkg { pk_dir : bytes; pk_name : bytes; pk_version : bytes }.

Definition pkg_of (ent : dir_ent) : option pkg :=
  let dir := from_utf8_lossy (de_name ent) in
  if negb (de_is_dir ent) || de_is_symlink ent then None
  else '(name, version) ← split_dir_name dir; Some (mk_pkg dir name version).

(** The loop over the directory; [n] packages are held. *)
Fixpoint packages_from (ents : list dir_ent) (n : N) : result bytes (list pkg) :=
  match ents with
  | [] => Ok []
  | ent :: ents' =>
      match pkg_of ent with
      | None => packages_from ents' n
      | Some p =>
          if (MAX_PACKAGES <=? n)%N then Err (LOCAL ++ #" lists more than " ++ dec MAX_PACKAGES ++ #" packages")
          else match packages_from ents' (n + 1)%N with Ok ps => Ok (p :: ps) | Err e => Err e end
      end
  end.

Definition packages `{Strerror} (r : root) : prog (result bytes (list pkg)) :=
  ents ← read_dir r LOCAL;
  Ret match ents with
      | Ok ents => packages_from ents 0
      | Err e => Err (LOCAL ++ #" could not be listed: " ++ display_error e)
      end.

(** ** A package's files *)

Record files := mk_files { fi_paths : list bytes; fi_backups : gmap bytes bytes }.

Definition percent : byte := "%".
Definition tab : byte := x09.
Definition is_section (line : bytes) : bool :=
  bool_decide (2 < length line) && starts_with [percent] line && ends_with [percent] line.

Definition files_line (st : bytes * files) (line : bytes) : bytes * files :=
  let '(section, out) := st in
  let line := strip_cr line in
  if bool_decide (line = []) then st
  else if is_section line then (line, out)
  else if bool_decide (section = #"%FILES%") then
    let p := default line (strip_suffix [slash] line) in
    (section, if bool_decide (p = []) then out else mk_files (fi_paths out ++ [p]) (fi_backups out))
  else if bool_decide (section = #"%BACKUP%") then
    match position (is_byte tab) line with
    | Some i =>
        let md5 := to_ascii_lowercase (from_utf8_lossy (drop (i + 1) line)) in
        (section, mk_files (fi_paths out) (<[take i line := md5]> (fi_backups out)))
    | None => st
    end
  else st.

Definition parse_files (b : bytes) : files :=
  snd (foldl files_line ([], mk_files [] ∅) (split_on (is_byte newline) b)).

Definition files_path (p : pkg) : path := path_join (path_join LOCAL (pk_dir p)) #"files".
Definition mtree_path (p : pkg) : path := path_join (path_join LOCAL (pk_dir p)) #"mtree".

Definition packaged_files `{Strerror} (r : root) : prog pset :=
  pkgs ← packages r;
  match pkgs with
  | Err _ => Ret pm_empty
  | Ok pkgs =>
      fold_prog (fun out p =>
        x ← Root.read_capped r (files_path p) FILES_CAP;
        Ret match x with
            | Ok (b, _) => foldl (fun out p => ps_insert p out) out (fi_paths (parse_files b))
            | Err _ => out
            end) pm_empty pkgs
  end.

(** ** The manifest *)

Record facts := mk_facts { fa_is_dir : bool; fa_sha256 : option bytes; fa_link : option bytes; fa_mode : option N }.
Definition no_facts : facts := mk_facts false None None None.

Definition backslash : byte := x5c.
Definition octal (b : byte) : option N := to_digit 8 b.

(** [\NNN], octal, the value cut to a byte. *)
Fixpoint unescape (text : bytes) : bytes :=
  match text with
  | [] => []
  | x :: text' =>
      match text' with
      | a :: b :: c :: text'' =>
          if bool_decide (x = backslash) then
            match octal a, octal b, octal c with
            | Some a, Some b, Some c => byte_of_N ((a * 8 + b) * 8 + c) :: unescape text''
            | _, _, _ => x :: unescape text'
            end
          else x :: unescape text'
      | _ => x :: unescape text'
      end
  end.

Definition blank : byte := " ".
Definition mode_of (v : bytes) : option N := if is_utf8 v then from_str_radix 8 U32_MAX v else None.

(** What a [/set] line makes of the defaults. *)
Definition set_word (st : option N * bool) (w : bytes) : option N * bool :=
  match strip_prefix #"mode=" w with
  | Some v => (mode_of v, snd st)
  | None =>
      match strip_prefix #"type=" w with
      | Some v => (fst st, bool_decide (v = #"dir"))
      | None => st
      end
  end.

Definition fact_word (f : facts) (w : bytes) : facts :=
  match strip_prefix #"type=" w with
  | Some v => mk_facts (bool_decide (v = #"dir")) (fa_sha256 f) (fa_link f) (fa_mode f)
  | None =>
      match strip_prefix #"mode=" w with
      | Some v => mk_facts (fa_is_dir f) (fa_sha256 f) (fa_link f) (mode_of v)
      | None =>
          match strip_prefix #"sha256digest=" w with
          | Some v => mk_facts (fa_is_dir f) (Some (to_ascii_lowercase (from_utf8_lossy v))) (fa_link f) (fa_mode f)
          | None =>
              match strip_prefix #"link=" w with
              | Some v => mk_facts (fa_is_dir f) (fa_sha256 f) (Some (unescape v)) (fa_mode f)
              | None => f
              end
          end
      end
  end.

Definition mtree_line (wanted : gset bytes) (st : (option N * bool) * gmap bytes facts) (line : bytes)
    : (option N * bool) * gmap bytes facts :=
  let '(defaults, out) := st in
  match words_by (is_byte blank) line with
  | [] => st
  | first :: words =>
      if bool_decide (first = #"/set") then (foldl set_word defaults words, out)
      else if bool_decide (first = #"/unset") then st
      else
        let name := unescape (default first (strip_prefix #"./" first)) in
        if bool_decide (name ∈ wanted) then
          (defaults, <[name := foldl fact_word (mk_facts (snd defaults) None None (fst defaults)) words]> out)
        else st
  end.

Definition read_mtree (text : bytes) (wanted : gset bytes) : gmap bytes facts :=
  snd (foldl (mtree_line wanted) ((None, false), ∅) (split_on (is_byte newline) text)).

Definition mtree_facts `{Inflate} (gz : bytes) (wanted : gset bytes) : gmap bytes facts :=
  match gunzip gz with Some text => read_mtree text wanted | None => ∅ end.

(** ** One file against its package *)

Definition changed (conffile : bool) : integrity := if conffile then Integrity.ConffileModified else Integrity.Modified.

Definition verify `{Digests} (r : root) (p : path) (f : facts) (backup : option bytes) : prog integrity :=
  if fa_is_dir f then Ret Integrity.Unknown
  else
    m ← stat r p;
    match m with
    | Err _ => Ret Integrity.Unknown
    | Ok m =>
        let conffile := bool_decide (is_Some backup) in
        match fa_link f with
        | Some shipped =>
            if negb (m_is_symlink m) then Ret (changed conffile)
            else
              t ← read_link r p;
              Ret match t with
                  | Ok t => if bool_decide (t = shipped) then Integrity.Intact else Integrity.Modified
                  | Err _ => Integrity.Unknown
                  end
        | None =>
            match fa_sha256 f with
            | None => Ret Integrity.Unknown
            | Some expected =>
                d ← digests r p;
                Ret match d with
                    | None => Integrity.Unknown
                    | Some d =>
                        if eq_ignore_ascii_case (fd_sha256 d) expected then
                          match fa_mode f with
                          | Some shipped =>
                              if bool_decide (privilege shipped = privilege (m_mode m)) then Integrity.Intact
                              else Integrity.ModeModified
                          | None => Integrity.Intact
                          end
                        else changed conffile
                    end
            end
        end
    end.

(** ** The backend *)

(** The wanted paths by the bytes of their spellings. *)
Definition alias_map (r : root) (wanted : list path) : prog (gmap bytes (list path)) :=
  fold_prog (fun m w =>
    ss ← spellings r w;
    Ret (foldl (fun m alias => <[alias := default [] (m !! alias) ++ [w]]> m) m ss)) ∅ wanted.
Definition aliased (m : gmap bytes (list path)) (p : bytes) : list path := default [] (m !! p).

Section resolving.
Context `{Digests} `{Strerror} `{Inflate}.

Definition claim_verdict (r : root) (p : pkg) (fs : files) (facts : gmap bytes facts) (owned : bytes) (w : path)
    : prog provenance :=
  i ← verify r w (default no_facts (facts !! owned)) (fi_backups fs !! owned);
  Ret (Provenance.Packaged (pk_name p) (pk_version p) i).

Definition read_facts (r : root) (p : pkg) (owned : list bytes) : prog (gmap bytes facts) :=
  x ← Root.read_capped r (mtree_path p) MTREE_CAP;
  Ret match x with Ok (gz, _) => mtree_facts gz (list_to_set owned) | Err _ => ∅ end.

(** One package's files, and why they were not read. *)
Definition resolve_pkg (r : root) (aliases : gmap bytes (list path)) (st : answers * list bytes) (p : pkg)
    : prog (answers * list bytes) :=
  let '(out, unread) := st in
  x ← Root.read_capped r (files_path p) FILES_CAP;
  match x with
  | Err e => Ret (out, unread ++ [pk_dir p ++ #": " ++ display_error e])
  | Ok (b, cut) =>
      let unread := if cut : bool then unread ++ [pk_dir p ++ #": files is larger than the read cap"] else unread in
      let fs := parse_files b in
      let owned := List.filter (fun q => bool_decide (is_Some (aliases !! q))) (fi_paths fs) in
      if bool_decide (owned = []) then Ret (out, unread)
      else
        facts ← read_facts r p owned;
        out ← answer_claims (claim_verdict r p fs facts) (aliased aliases) out owned;
        Ret (out, unread)
  end.

Definition conclude (out : answers) (unread : list bytes) : Database.outcome :=
  if bool_decide (unread = []) then Database.Complete out
  else
    Database.Incomplete out (dec (N.of_nat (length unread)) ++ #" package records could not be read: " ++
      join #"; " (take 3 unread)).

Definition resolve (r : root) (wanted : pset) : prog Database.outcome :=
  here ← present r;
  if negb here then Ret Database.Absent
  else
    pkgs ← packages r;
    match pkgs with
    | Err why => Ret (Database.Incomplete pm_empty why)
    | Ok pkgs =>
        aliases ← alias_map r (ps_list wanted);
        st ← fold_prog (resolve_pkg r aliases) (pm_empty, []) pkgs;
        Ret (conclude (fst st) (snd st))
    end.
End resolving.

(** ** A manifest read for fewer paths says the same of them *)

Lemma mtree_line_agree k n1 n2 d o1 o2 line :
  (k ∈ n1 <-> k ∈ n2) -> o1 !! k = o2 !! k ->
  (mtree_line n1 (d, o1) line).1 = (mtree_line n2 (d, o2) line).1 /\
  (mtree_line n1 (d, o1) line).2 !! k = (mtree_line n2 (d, o2) line).2 !! k.
Proof.
  intros Hn Ho. unfold mtree_line. destruct (words_by _ line) as [|first words]; [done|].
  case_bool_decide; [done|]. case_bool_decide; [done|]. cbv zeta. set (name := unescape _).
  destruct (decide (name = k)) as [->|Hne].
  - do 2 case_bool_decide; try tauto; cbn; by rewrite ?lookup_insert_eq.
  - do 2 case_bool_decide; cbn; by rewrite ?lookup_insert_ne.
Qed.

Lemma read_mtree_agree k n1 n2 text : (k ∈ n1 <-> k ∈ n2) -> read_mtree text n1 !! k = read_mtree text n2 !! k.
Proof.
  intros Hn. unfold read_mtree.
  assert (H : forall ls st1 st2, st1.1 = st2.1 -> st1.2 !! k = st2.2 !! k ->
    (foldl (mtree_line n1) st1 ls).2 !! k = (foldl (mtree_line n2) st2 ls).2 !! k).
  { intros ls. induction ls as [|l ls IH]; intros [d1 o1] [d2 o2] E1 E2; [done|]. cbn [foldl fst snd] in *. subst d2.
    destruct (mtree_line_agree k n1 n2 d1 o1 o2 l Hn E2) as [H1 H2]. by apply IH. }
  by apply H.
Qed.

Lemma mtree_facts_agree `{Inflate} k n1 n2 gz : (k ∈ n1 <-> k ∈ n2) -> mtree_facts gz n1 !! k = mtree_facts gz n2 !! k.
Proof. intros Hn. unfold mtree_facts. destruct (gunzip gz); [by apply read_mtree_agree|done]. Qed.

(** ** The wanted paths by their spellings *)

Lemma pacman_aliased_update (w w' : path) (q : bytes) (ss : list path) (m : gmap bytes (list path)) :
  w ∈ aliased (foldl (fun m alias => <[alias := default [] (m !! alias) ++ [w']]> m) m ss) q <->
  w ∈ aliased m q \/ w = w' /\ q ∈ ss.
Proof.
  revert m. induction ss as [|s ss IH]; intros m; cbn [foldl].
  - rewrite elem_of_nil. tauto.
  - rewrite IH, elem_of_cons. unfold aliased at 1. destruct (decide (q = s)) as [->|Hne].
    + rewrite lookup_insert_eq. cbn [default from_option id]. rewrite elem_of_app, list_elem_of_singleton.
      fold (aliased m s). tauto.
    + rewrite lookup_insert_ne by done. fold (aliased m q). tauto.
Qed.

Lemma pacman_elem_of_aliased (h : snapshot) (r : root) (ws : list path) (w : path) (q : bytes) :
  w ∈ aliased (run h (alias_map r ws)) q <-> w ∈ ws /\ q ∈ run h (spellings r w).
Proof.
  unfold alias_map. rewrite run_fold_prog. set (step := fun m w => run h _).
  assert (H : forall m, w ∈ aliased (foldl step m ws) q <-> w ∈ aliased m q \/ w ∈ ws /\ q ∈ run h (spellings r w)).
  { induction ws as [|w' ws IH]; intros m; cbn [foldl].
    - rewrite elem_of_nil. tauto.
    - rewrite IH. unfold step. rewrite run_bind. cbn [run]. rewrite pacman_aliased_update, elem_of_cons.
      split; [intros [[?|[-> ?]]|[? ?]]|intros [?|[[->|?] ?]]]; tauto. }
  rewrite H. unfold aliased. rewrite lookup_empty. cbn. rewrite elem_of_nil. tauto.
Qed.

(** ** What a complete answer says *)

Section laws.
Context `{Digests} `{Strerror} `{Inflate}.
Variable h : snapshot.
Variable r : root.

(** A package's list as read, and a file it names. *)
Record owned_file := mk_owned { ow_pkg : pkg; ow_files : files; ow_path : bytes }.

Definition list_of (p : pkg) : result io_error (bytes * bool) := run h (Root.read_capped r (files_path p) FILES_CAP).
Definition list_whole (p : pkg) : Prop := exists b, list_of p = Ok (b, false).
Definition pkg_files (p : pkg) : list owned_file :=
  match list_of p with
  | Ok (b, _) => mk_owned p (parse_files b) <$> fi_paths (parse_files b)
  | Err _ => []
  end.

(** What the manifest says of one of its package's files. *)
Definition manifest (p : pkg) (q : bytes) : facts :=
  default no_facts
    (match run h (Root.read_capped r (mtree_path p) MTREE_CAP) with
     | Ok (gz, _) => mtree_facts gz {[q]} !! q
     | Err _ => None
     end).

Definition owned_verdict (o : owned_file) (w : path) : provenance :=
  Provenance.Packaged (pk_name (ow_pkg o)) (pk_version (ow_pkg o))
    (run h (verify r w (manifest (ow_pkg o) (ow_path o)) (fi_backups (ow_files o) !! ow_path o))).

Lemma run_read_facts p owned q :
  q ∈ owned -> default no_facts (run h (read_facts r p owned) !! q) = manifest p q.
Proof.
  intros Hq. unfold read_facts, manifest. rewrite run_bind. cbn [run].
  destruct (run h (Root.read_capped r (mtree_path p) MTREE_CAP)) as [[gz cut]|e]; [|done].
  f_equal. apply mtree_facts_agree. set_solver.
Qed.

Lemma run_resolve_pkg aliases st p :
  let st' := run h (resolve_pkg r aliases st p) in
  st'.1 = answered owned_verdict (fun o => aliased aliases (ow_path o)) st.1 (pkg_files p) /\
  (st'.2 = [] <-> st.2 = [] /\ list_whole p).
Proof.
  destruct st as [out unread]. unfold resolve_pkg, pkg_files, list_whole. rewrite run_bind.
  change (run h (Root.read_capped r (files_path p) FILES_CAP)) with (list_of p).
  destruct (list_of p) as [[b cut]|e]; cbv zeta.
  2:{ cbn. split; [done|]. split; [by intros [_ [=]]%app_nil|by intros [_ [? [=]]]]. }
  set (unread' := if cut then _ else _).
  assert (Hu : unread' = [] <-> unread = [] /\ exists b', @Ok io_error (bytes * bool) (b, cut) = Ok (b', false)).
  { unfold unread'. destruct cut; [|naive_solver]. split; [by intros [_ [=]]%app_nil|by intros [_ [? [=]]]]. }
  set (fs := parse_files b). set (owned := List.filter _ (fi_paths fs)).
  assert (Hans : forall v, (forall q w, q ∈ owned -> v q w = owned_verdict (mk_owned p fs q) w) ->
    answered v (aliased aliases) out owned =
    answered owned_verdict (fun o => aliased aliases (ow_path o)) out (mk_owned p fs <$> fi_paths fs)).
  { intros v Hv. rewrite answered_fmap. transitivity (answered (fun q => owned_verdict (mk_owned p fs q))
      (aliased aliases) out owned).
    - apply answered_ext. intros q w Hq _. by apply Hv.
    - apply answered_filter. intros q Hq%bool_decide_eq_false. unfold aliased.
      cbn [ow_path]. destruct (aliases !! q) eqn:E; [|done]. destruct Hq. by eexists. }
  case_bool_decide as Ho; cbn [run fst snd].
  - split; [|done]. rewrite <- (Hans (fun q => owned_verdict (mk_owned p fs q))) by done. by rewrite Ho.
  - rewrite run_bind, run_bind, run_answer_claims. cbn [run fst snd]. split; [|done]. apply Hans. intros q w Hq.
    unfold claim_verdict, owned_verdict. rewrite run_bind. cbn [run ow_pkg ow_files ow_path].
    by rewrite run_read_facts.
Qed.

Lemma run_resolve_pkgs aliases st ps (st' := run h (fold_prog (resolve_pkg r aliases) st ps)) :
  st'.1 = answered owned_verdict (fun o => aliased aliases (ow_path o)) st.1 (ps ≫= pkg_files) /\
  (st'.2 = [] <-> st.2 = [] /\ Forall list_whole ps).
Proof.
  unfold st'. clear st'. rewrite run_fold_prog. revert st. induction ps as [|p ps IH]; intros st.
  - cbn. rewrite Forall_nil. tauto.
  - cbn [foldl mbind list_bind]. destruct (run_resolve_pkg aliases st p) as [A1 A2].
    destruct (IH (run h (resolve_pkg r aliases st p))) as [I1 I2]. split.
    + by rewrite I1, A1, answered_app.
    + rewrite I2, A2, Forall_cons. tauto.
Qed.

(** The answers to what the packages' lists name. *)
Definition answers_of (wanted : pset) (ps : list pkg) : answers :=
  answered owned_verdict (fun o => aliased (run h (alias_map r (ps_list wanted))) (ow_path o)) pm_empty (ps ≫= pkg_files).

Lemma pacman_answers_of_for (wanted : pset) ps : pm_ok wanted -> answers_for wanted (answers_of wanted ps).
Proof.
  intros Hw. apply answers_for_answered; [done|by apply answers_for_empty|].
  intros o w _ [Hin _]%pacman_elem_of_aliased. split; [|done]. by repeat eexists.
Qed.

Lemma pacman_run_resolve (wanted : pset) :
  match run h (resolve r wanted) with
  | Database.Absent => True
  | Database.Incomplete a _ => a = pm_empty \/ exists ps, a = answers_of wanted ps
  | Database.Complete a => exists ps, run h (packages r) = Ok ps /\ Forall list_whole ps /\ a = answers_of wanted ps
  end.
Proof.
  unfold resolve. rewrite run_bind. destruct (run h (present r)); cbn [negb]; [|done].
  rewrite run_bind. destruct (run h (packages r)) as [ps|why]; [|by left].
  rewrite run_bind, run_bind. cbn [run].
  destruct (run_resolve_pkgs (run h (alias_map r (ps_list wanted))) (pm_empty, []) ps) as [A1 A2].
  destruct (run h (fold_prog _ _ _)) as [out unread]. cbn [fst snd] in *. unfold conclude. case_bool_decide as Hu.
  - exists ps. split; [done|]. split; [by apply A2|done].
  - right. by exists ps.
Qed.
End laws.

#[export] Instance pacman_backend `{Digests} `{Strerror} `{Inflate} h : BackendLaws h (total resolve).
Proof.
  apply total_answers. intros r wanted Hw. pose proof (pacman_run_resolve h r wanted) as Hr.
  destruct (run h (resolve r wanted)) as [|a|a why]; [done| |].
  - destruct Hr as (ps & _ & _ & ->). by apply pacman_answers_of_for.
  - destruct Hr as [->|[ps ->]]; [by apply answers_for_empty|by apply pacman_answers_of_for].
Qed.

(** ** Properties *)

(** A database answered for completely was: its directory was listed and
    every package's file list was read to the end. A wanted path is then the
    last package's to list one of its spellings, byte for byte: that package
    and version, with what checking the file against the package's manifest
    says; a path no list names has no answer. *)
Theorem pacman_complete `{Digests} `{Strerror} `{Inflate} (h : snapshot) (r : root) (wanted : pset) (out : answers) :
  pm_ok wanted -> run h (resolve r wanted) = Database.Complete out ->
  exists ps, run h (packages r) = Ok ps /\ Forall (list_whole h r) ps /\
  forall w, w ∈ ps_list wanted ->
    pm_get out w =
    (fun o => owned_verdict h r o w) <$>
    last (List.filter (fun o => mem (ow_path o) (run h (spellings r w))) (ps ≫= pkg_files h r)).
Proof.
  intros Hok Hr. pose proof (pacman_run_resolve h r wanted) as H'. rewrite Hr in H'. destruct H' as (ps & Hp & Hl & ->).
  exists ps. split_and!; [done|done|]. intros w Hw. unfold answers_of. rewrite answered_get, pm_get_empty.
  - rewrite (filter_ext_in _ (fun o => mem (ow_path o) (run h (spellings r w)))); [by destruct (last _)|].
    intros o _. unfold mem. apply bool_decide_ext. rewrite pacman_elem_of_aliased. tauto.
  - intros o w' _ [Hw' _]%pacman_elem_of_aliased E. by eapply ps_list_path.
Qed.

(** ** A manifest as mtree writes it *)

Record mtree_entry := mk_mtree_entry {
  me_name : bytes; me_dir : bool; me_mode : option N; me_sha256 : option bytes; me_link : option bytes
}.

Definition plain (b : byte) : bool := byte_in x21 x7e b && negb (bool_decide (b = backslash)).
Definition octal3 (b : byte) : bytes :=
  let n := Byte.to_N b in [digit_char (n / 64 mod 8); digit_char (n / 8 mod 8); digit_char (n mod 8)].
Definition escape1 (b : byte) : bytes := if plain b then [b] else backslash :: octal3 b.
Definition escape (s : bytes) : bytes := s ≫= escape1.

Definition entry_words (e : mtree_entry) : list bytes :=
  [ #"./" ++ escape (me_name e); #"type=" ++ (if me_dir e then #"dir" else #"file")] ++
  match me_mode e with Some m => [ #"mode=" ++ octal4 m] | None => [] end ++
  match me_sha256 e with Some d => [ #"sha256digest=" ++ hex d] | None => [] end ++
  match me_link e with Some t => [ #"link=" ++ escape t] | None => [] end.
Definition print_mtree (es : list mtree_entry) : bytes := join [newline] ((join [blank] ∘ entry_words <$> es) ++ [[]]).
Definition entry_facts (e : mtree_entry) : facts := mk_facts (me_dir e) (hex <$> me_sha256 e) (me_link e) (me_mode e).
Definition mode_ok (e : mtree_entry) : Prop := forall m, me_mode e = Some m -> (m < 4096)%N.

Lemma unescape_plain x s : x <> backslash -> unescape (x :: s) = x :: unescape s.
Proof.
  intros Hx. destruct s as [|a [|b [|c s]]]; try done. cbn [unescape]. by rewrite (bool_decide_false (x = backslash)).
Qed.

Definition octal3_ok (b : byte) : bool :=
  match octal3 b with
  | [x; y; z] =>
      match octal x, octal y, octal z with
      | Some x, Some y, Some z => bool_decide (byte_of_N ((x * 8 + y) * 8 + z) = b)
      | _, _, _ => false
      end
  | _ => false
  end.
Lemma octal3_back b : octal3_ok b = true.
Proof. apply byte_forall. by vm_compute. Qed.

Lemma unescape_escape1 b s : unescape (escape1 b ++ s) = b :: unescape s.
Proof.
  unfold escape1. destruct (plain b) eqn:Ep.
  - apply andb_true_iff in Ep as [_ Hn%negb_true_iff%bool_decide_eq_false]. by apply unescape_plain.
  - pose proof (octal3_back b) as Ho. unfold octal3_ok, octal3 in Ho. cbv zeta in Ho.
    unfold octal3. cbv zeta. cbn [app unescape]. rewrite bool_decide_true by done.
    destruct (octal _) as [x|]; [|done]. destruct (octal _) as [y|]; [|done]. destruct (octal _) as [z|]; [|done].
    apply bool_decide_eq_true in Ho. by rewrite Ho.
Qed.
Lemma unescape_escape s : unescape (escape s) = s.
Proof.
  induction s as [|b s IH]; [done|]. change (escape (b :: s)) with (escape1 b ++ escape s).
  by rewrite unescape_escape1, IH.
Qed.

(** A word of a line: something, with no blank and no line end. *)
Definition word_byte (x : byte) : bool := negb (is_byte blank x) && negb (is_byte newline x).
Definition word_ok (w : bytes) : Prop := w <> [] /\ forallb word_byte w = true.

Lemma escape_bytes s : forallb word_byte (escape s) = true.
Proof.
  induction s as [|b s IH]; [done|]. change (escape (b :: s)) with (escape1 b ++ escape s).
  rewrite forallb_app, IH, andb_true_r. exact (byte_forall (fun b => forallb word_byte (escape1 b)) ltac:(by vm_compute) b).
Qed.
Lemma hex_bytes d : forallb word_byte (hex d) = true.
Proof.
  induction d as [|b d IH]; [done|]. change (hex (b :: d)) with (hex_byte b ++ hex d).
  rewrite forallb_app, IH, andb_true_r. exact (byte_forall (fun b => forallb word_byte (hex_byte b)) ltac:(by vm_compute) b).
Qed.
Lemma octal4_bytes m : forallb word_byte (octal4 m) = true.
Proof.
  assert (H : forall n, word_byte (digit_char (n mod 8)) = true).
  { intros n. assert (n mod 8 < 8)%N as Hn by by apply N.mod_lt.
    assert (Hall : forallb (fun k => word_byte (digit_char (N.of_nat k))) (seq 0 8) = true) by done.
    rewrite forallb_forall in Hall. specialize (Hall (N.to_nat (n mod 8))). rewrite N2Nat.id in Hall.
    apply Hall, in_seq. revert Hn. generalize (n mod 8)%N. lia. }
  unfold octal4. cbn [forallb]. by rewrite !H.
Qed.

Lemma word_app w v : w <> [] -> forallb word_byte w = true -> forallb word_byte v = true -> word_ok (w ++ v).
Proof. intros Hne Hw Hv. split; [by destruct w|]. by rewrite forallb_app, Hw, Hv. Qed.

Lemma entry_words_ok e : Forall word_ok (entry_words e).
Proof.
  unfold entry_words. apply Forall_app. split; [|apply Forall_app; split; [|apply Forall_app; split]].
  - apply Forall_cons. split; [apply word_app; [done|done|apply escape_bytes]|].
    apply Forall_singleton, word_app; [done|done|by destruct (me_dir e)].
  - destruct (me_mode e); constructor; [apply word_app; [done|done|apply octal4_bytes]|constructor].
  - destruct (me_sha256 e); constructor; [apply word_app; [done|done|apply hex_bytes]|constructor].
  - destruct (me_link e); constructor; [apply word_app; [done|done|apply escape_bytes]|constructor].
Qed.

Lemma words_of_line ws : ws <> [] -> Forall word_ok ws -> words_by (is_byte blank) (join [blank] ws) = ws.
Proof.
  intros Hne H. unfold words_by. rewrite split_on_join; [|by apply bool_decide_eq_true|done|].
  - clear Hne. induction H as [|w ws [Hw _] _ IH]; [done|]. cbn [List.filter]. rewrite bool_decide_false by done.
    cbn [negb]. by rewrite IH.
  - eapply Forall_impl; [exact H|]. intros w [_ Hw]. apply Forall_forall. intros x Hx.
    eapply forallb_forall in Hw; [|by apply list_elem_of_In]. apply andb_true_iff in Hw as [Hw _]. by apply negb_true_iff.
Qed.

Lemma line_one_line ws : Forall word_ok ws -> one_line (join [blank] ws).
Proof.
  intros H. assert (Hw : forall w, word_ok w -> one_line w).
  { intros w [_ Hw]. apply Forall_forall. intros x Hx. eapply forallb_forall in Hw; [|by apply list_elem_of_In].
    apply andb_true_iff in Hw as [_ Hw]. by apply negb_true_iff. }
  induction H as [|w ws Hok Hws IH]; [constructor|]. destruct ws as [|v ws]; [by apply Hw|].
  change (one_line (w ++ [blank] ++ join [blank] (v :: ws))). apply one_line_app; [by apply Hw|].
  apply one_line_app; [by apply one_line_of|done].
Qed.

Lemma lower_hex d : to_ascii_lowercase (from_utf8_lossy (hex d)) = hex d.
Proof.
  assert (Ha : forallb is_ascii (hex d) = true).
  { induction d as [|b d IH]; [done|]. change (hex (b :: d)) with (hex_byte b ++ hex d). rewrite forallb_app, IH, andb_true_r.
    exact (byte_forall (fun b => forallb is_ascii (hex_byte b)) ltac:(by vm_compute) b). }
  rewrite lossy_id by by apply is_utf8_ascii. clear Ha. induction d as [|b d IH]; [done|].
  change (hex (b :: d)) with (hex_byte b ++ hex d). unfold to_ascii_lowercase in *. rewrite fmap_app, IH. f_equal.
  pose proof (byte_forall (fun b => bool_decide (to_ascii_lowercase1 <$> hex_byte b = hex_byte b)) ltac:(by vm_compute) b) as Hb.
  by apply bool_decide_eq_true in Hb.
Qed.

Lemma mode_of_octal4 m : (m < 4096)%N -> mode_of (octal4 m) = Some m.
Proof.
  intros H. unfold mode_of. rewrite from_str_radix_octal4 by done.
  assert (Hall : forallb (fun k => is_utf8 (octal4 (N.of_nat k))) (seq 0 4096) = true) by by vm_compute.
  rewrite forallb_forall in Hall. specialize (Hall (N.to_nat m)). rewrite N2Nat.id in Hall. rewrite Hall; [done|].
  apply in_seq. lia.
Qed.

Lemma entry_words_facts e : mode_ok e ->
  foldl fact_word (mk_facts false None None None) (drop 1 (entry_words e)) = entry_facts e.
Proof.
  intros Hm. unfold entry_words, entry_facts. cbn [app drop].
  assert (Et : fact_word (mk_facts false None None None) ( #"type=" ++ (if me_dir e then #"dir" else #"file")) =
    mk_facts (me_dir e) None None None) by by destruct (me_dir e).
  cbn [foldl]. rewrite Et, !foldl_app.
  assert (Emode : forall d s l m v, fact_word (mk_facts d s l m) ( #"mode=" ++ v) = mk_facts d s l (mode_of v)) by done.
  assert (Esha : forall d s l m v, fact_word (mk_facts d s l m) ( #"sha256digest=" ++ v) =
    mk_facts d (Some (to_ascii_lowercase (from_utf8_lossy v))) l m) by done.
  assert (Elink : forall d s l m v, fact_word (mk_facts d s l m) ( #"link=" ++ v) = mk_facts d s (Some (unescape v)) m) by done.
  assert (E1 : foldl fact_word (mk_facts (me_dir e) None None None)
      match me_mode e with Some m => [ #"mode=" ++ octal4 m] | None => [] end = mk_facts (me_dir e) None None (me_mode e)).
  { destruct (me_mode e) as [m|] eqn:E; [|done]. cbn [foldl]. rewrite Emode, mode_of_octal4 by by apply Hm. done. }
  rewrite E1. clear E1. destruct (me_sha256 e) as [d|]; cbn [foldl]; rewrite ?Esha, ?lower_hex;
    destruct (me_link e) as [t|]; cbn [foldl]; rewrite ?Elink, ?unescape_escape; done.
Qed.

Lemma read_entry wanted out e : mode_ok e ->
  mtree_line wanted ((None, false), out) (join [blank] (entry_words e)) =
  ((None, false), if bool_decide (me_name e ∈ wanted) then <[me_name e := entry_facts e]> out else out).
Proof.
  intros Hm. unfold mtree_line. rewrite words_of_line by (done || apply entry_words_ok).
  pose proof (entry_words_facts e Hm) as Hf. unfold entry_words in *. cbn [app drop] in *.
  rewrite (bool_decide_false (_ = #"/set")), (bool_decide_false (_ = #"/unset")) by done.
  change (strip_prefix #"./" ( #"./" ++ escape (me_name e))) with (Some (escape (me_name e))).
  cbn [default from_option id fst snd]. rewrite unescape_escape, Hf. by case_bool_decide.
Qed.

(** A manifest written the way mtree writes it is read back: every wanted
    path has just what the last entry for it says (whether it is a directory,
    its mode, its digest and its target), whatever bytes its name and target
    are made of, and a path it does not name has nothing. *)
Theorem mtree_round_trip (es : list mtree_entry) (wanted : gset bytes) (k : bytes) :
  Forall mode_ok es -> k ∈ wanted ->
  read_mtree (print_mtree es) wanted !! k =
  entry_facts <$> last (List.filter (fun e => bool_decide (me_name e = k)) es).
Proof.
  intros Hes Hk. unfold read_mtree, print_mtree. rewrite split_on_join; [|by apply bool_decide_eq_true|by destruct es|].
  2:{ apply Forall_app. split; [|by repeat constructor]. apply Forall_fmap, Forall_forall. intros e _.
      apply line_one_line, entry_words_ok. }
  rewrite foldl_app. cbn [foldl].
  assert (Hd : forall st, mtree_line wanted st [] = st) by (by intros []). rewrite Hd.
  assert (H : foldl (mtree_line wanted) (None, false, ∅) (join [blank] ∘ entry_words <$> es) =
    ((None, false), foldl (fun out e => if bool_decide (me_name e ∈ wanted) then <[me_name e := entry_facts e]> out else out) ∅ es)).
  { clear Hd. generalize (∅ : gmap bytes facts). induction Hes as [|e es He _ IH]; intros out; [done|].
    cbn [fmap list_fmap foldl]. rewrite <- IH. f_equal. unfold compose. by apply read_entry. }
  rewrite H. cbn [snd]. clear H Hd Hes. induction es as [|e es IH] using rev_ind; [done|].
  rewrite foldl_app, List.filter_app. cbn [foldl List.filter]. destruct (decide (me_name e = k)) as [<-|Hne].
  - rewrite !bool_decide_true by done. rewrite last_snoc. by rewrite lookup_insert_eq.
  - rewrite (bool_decide_false (me_name e = k)), app_nil_r by done. rewrite <- IH.
    case_bool_decide; [by rewrite lookup_insert_ne|done].
Qed.

(** ** Witnesses *)

Example split_dir_name_cases :
  (split_dir_name #"bash-5.3.20-1", split_dir_name #"gtk-update-icon-cache-1:4.0-2", split_dir_name #"nohyphens",
   split_dir_name #"one-hyphen") =
  (Some ( #"bash", #"5.3.20-1"), Some ( #"gtk-update-icon-cache", #"1:4.0-2"), None, None).
Proof. by vm_compute. Qed.

Module PacmanDemo.
#[local] Instance digests : Digests := {| sha256_hex := hex; md5_hex := hex; sha1_hex := hex |}.
#[local] Instance strerror : Strerror := fun _ => #"error".

(** Stored, not compressed. *)
Definition gzip (text : bytes) : bytes := [x1f; x8b; x08; x00; x00; x00; x00; x00; x00; x00] ++ text.

Definition entries : list mtree_entry :=
  [mk_mtree_entry #"usr/bin/tool" false (Some 0x1ED%N) (Some #"tool") None;
   mk_mtree_entry #"etc/tool.conf" false (Some 0x1A4%N) (Some #"shipped") None;
   mk_mtree_entry #"usr/share/with space" false None (Some #"x") None;
   mk_mtree_entry #"usr/bin/alias" false None None (Some #"to ol")].

Definition dir (p : path) : path * Tree.node := (p, Tree.Dir 0 0x1ED).
Definition pkg_dir : path := LOCAL ++ #"/tool-1.0-1".
Definition dirs : Tree.tree :=
  [dir #"var"; dir #"var/lib"; dir #"var/lib/pacman"; dir LOCAL; dir pkg_dir].
Definition listed : bytes := join [newline]
  [ #"%FILES%"; #"usr/"; #"usr/bin/tool"; #"usr/share/with space"; #"usr/bin/alias"; #"etc/tool.conf"; []; #"%BACKUP%";
    #"etc/tool.conf" ++ [tab] ++ #"00"; []].
Definition host : Tree.tree :=
  dirs ++
  [(pkg_dir ++ #"/files", Tree.File 0 0x1A4 listed);
   (pkg_dir ++ #"/mtree", Tree.File 0 0x1A4 (gzip (print_mtree entries)));
   dir #"usr"; dir #"usr/bin"; dir #"usr/share"; dir #"etc";
   ( #"usr/bin/tool", Tree.File 0 0x1ED #"tool"); ( #"etc/tool.conf", Tree.File 0 0x1A4 #"local");
   ( #"usr/share/with space", Tree.File 0 0x1A4 #"x"); ( #"usr/bin/alias", Tree.Link 0 #"elsewhere")].
Definition wanted : pset :=
  ps_of [ #"usr/bin/tool"; #"etc/tool.conf"; #"usr/share/with space"; #"usr/bin/alias"; #"usr/bin/stranger"].
Definition integrities (t : Tree.tree) (w : pset) : option (list (option integrity)) :=
  match run (Tree.kernel t) (resolve (H1 := ApkDemo.stored) Tree.offline w) with
  | Database.Complete out =>
      Some ((fun p => match pm_get out p with Some (Provenance.Packaged _ _ i) => Some i | _ => None end) <$> ps_list w)
  | _ => None
  end.
End PacmanDemo.

Example pacman_demo :
  PacmanDemo.integrities PacmanDemo.host PacmanDemo.wanted =
  Some [Some Integrity.ConffileModified; Some Integrity.Modified; None; Some Integrity.Intact; Some Integrity.Intact].
Proof. by vm_compute. Qed.

Lemma pacman_demo_modes : Forall mode_ok PacmanDemo.entries.
Proof. repeat constructor; intros m [= <-]; done. Qed.

Lemma mtree_round_trip_witness :
  read_mtree (print_mtree PacmanDemo.entries) {[ #"usr/bin/alias"]} !! #"usr/bin/alias" =
    Some (mk_facts false None (Some #"to ol") None).
Proof.
  rewrite (mtree_round_trip _ _ _ pacman_demo_modes (elem_of_singleton_2 _ _ eq_refl)). reflexivity.
Defined.

Module PacmanSmall.
Definition host : Tree.tree :=
  PacmanDemo.dirs ++ [(PacmanDemo.pkg_dir ++ #"/files", Tree.File 0 0x1A4 (join [newline] [ #"%FILES%"; #"x"]))].
Definition wanted : pset := ps_of [ #"x"].
Definition out : answers := pm_insert #"x" (Provenance.Packaged #"tool" #"1.0-1" Integrity.Unknown) pm_empty.
End PacmanSmall.

Lemma pacman_small :
  run (Tree.kernel PacmanSmall.host)
    (resolve (H := PacmanDemo.digests) (H0 := PacmanDemo.strerror) (H1 := ApkDemo.stored) Tree.offline PacmanSmall.wanted) =
  Database.Complete PacmanSmall.out.
Proof. by vm_compute. Qed.

Lemma pacman_complete_witness :
  exists ps, run (Tree.kernel PacmanSmall.host) (packages (H := PacmanDemo.strerror) Tree.offline) = Ok ps /\
    Forall (list_whole (Tree.kernel PacmanSmall.host) Tree.offline) ps.
Proof.
  destruct (@pacman_complete PacmanDemo.digests PacmanDemo.strerror ApkDemo.stored (Tree.kernel PacmanSmall.host)
    Tree.offline PacmanSmall.wanted PacmanSmall.out (ps_of_ok _) pacman_small) as (ps & Hp & Hl & _).
  exists ps. split; [exact Hp|exact Hl].
Defined.
