(* ===== verification/Rpm.v ===== *)
(** [src/provenance/rpm.rs]: the rpm backend. A header per package, in a
    format read by hand here, kept in a table of an SQLite database; SQLite
    itself is a parameter. *)

From S2P Require Import Prelude Slices Order Num Utf8 Paths PathMap Kinds Entry Sys Root Tree Scan Provenance Backend.

Definition DB : path := #"var/lib/rpm/rpmdb.sqlite".
Definition DBS : list path := [ #"usr/lib/sysimage/rpm/rpmdb.sqlite"; DB].
Definition DB_CAP : N := N.shiftl 512 20.

Definition TAG_NAME : N := 1000.
Definition TAG_VERSION : N := 1001.
Definition TAG_RELEASE : N := 1002.
Definition TAG_EPOCH : N := 1003.
Definition TAG_SUMMARY : N := 1004.
Definition TAG_DESCRIPTION : N := 1005.
Definition TAG_ARCH : N := 1022.
Definition TAG_FILEMODES : N := 1030.
Definition TAG_FILEDIGESTS : N := 1035.
Definition TAG_FILELINKTOS : N := 1036.
Definition TAG_FILEFLAGS : N := 1037.
Definition TAG_DIRINDEXES : N := 1116.
Definition TAG_BASENAMES : N := 1117.
Definition TAG_DIRNAMES : N := 1118.
Definition TAG_FILEDIGESTALGO : N := 5011.

Definition TAG_HEADERIMAGE : N := 61.
Definition TAG_HEADERSIGNATURES : N := 62.
Definition TAG_HEADERIMMUTABLE : N := 63.

Definition TYPE_INT16 : N := 3.
Definition TYPE_INT32 : N := 4.
Definition TYPE_STRING : N := 6.
Definition TYPE_STRING_ARRAY : N := 8.
Definition TYPE_I18NSTRING : N := 9.

Definition RPMFILE_CONFIG : N := N.shiftl 1 0.
Definition RPMFILE_GHOST : N := N.shiftl 1 6.

Definition MAX_INDEX_ENTRIES : N := N.shiftl 1 20.
Definition MAX_STORE : N := N.shiftl 256 20.

(** ** The header *)

Definition nul : byte := x00.

(** A number written high byte first. *)
Definition from_be_bytes (s : bytes) : N := foldl (fun n b => n * 256 + Byte.to_N b)%N 0%N s.
(** The same bits read as a signed number of [w] bits. *)
Definition as_signed (w n : N) : Z := if (n <? 2 ^ (w - 1))%N then Z.of_N n else (Z.of_N n - 2 ^ Z.of_N w)%Z.
(** An [i64] cut to [w] bits. *)
Definition as_unsigned (w : N) (v : Z) : N := Z.to_N (v mod 2 ^ Z.of_N w).

Definition be32 (b : bytes) (at_ : nat) : option N :=
  let s := take 4 (drop at_ b) in if length s =? 4 then Some (from_be_bytes s) else None.

Definition checked (n : N) : option N := if (n <=? U64_MAX)%N then Some n else None.

Record field := mk_field { hf_ty : N; hf_count : N; hf_data : bytes }.
Abbreviation header := (gmap N field).

Definition MAGIC : bytes := [x8e; xad; xe8; x01].

(** The entry at [i] of the index, put among the fields unless it carries
    structure or points outside the store. *)
Definition index_entry (blob store : bytes) (fields : header) (i : nat) : option header :=
  let at_ := 8 + i * 16 in
  tag ← be32 blob at_;
  ty ← be32 blob (at_ + 4);
  offset ← as_signed 32 <$> be32 blob (at_ + 8);
  count ← be32 blob (at_ + 12);
  if bool_decide (tag ∈ [TAG_HEADERIMAGE; TAG_HEADERSIGNATURES; TAG_HEADERIMMUTABLE]) then Some fields
  else if (offset <? 0)%Z || (Z.of_nat (length store) <? offset)%Z then Some fields
  else Some (<[tag := mk_field ty count (drop (Z.to_nat offset) store)]> fields).

Fixpoint index_entries (blob store : bytes) (fields : header) (is_ : list nat) : option header :=
  match is_ with
  | [] => Some fields
  | i :: is_ => fields ← index_entry blob store fields i; index_entries blob store fields is_
  end.

Definition parse (blob : bytes) : option header :=
  blob ← match strip_prefix MAGIC blob with Some rest => get_from 4 rest | None => Some blob end;
  il ← be32 blob 0;
  dl ← be32 blob 4;
  if (MAX_INDEX_ENTRIES <? il)%N || (MAX_STORE <? dl)%N then None
  else
    entries ← checked (il * 16);
    index_end ← checked (8 + entries);
    store_end ← checked (index_end + dl);
    if (N.of_nat (length blob) <? store_end)%N then None
    else
      let store := take (N.to_nat dl) (drop (N.to_nat index_end) blob) in
      index_entries blob store ∅ (seq 0 (N.to_nat il)).

Definition string (hd : header) (tag : N) : option bytes :=
  f ← hd !! tag;
  if negb (bool_decide (hf_ty f = TYPE_STRING)) && negb (bool_decide (hf_ty f = TYPE_I18NSTRING)) then None
  else
    let end_ := default (length (hf_data f)) (position (is_byte nul) (hf_data f)) in
    Some (from_utf8_lossy (take end_ (hf_data f))).

(** The strings a terminator ends, one after another. *)
Definition terminated (data : bytes) : list bytes := removelast (split_on (is_byte nul) data).

Definition bytes_array (hd : header) (tag : N) : list bytes :=
  match hd !! tag with
  | None => []
  | Some f =>
      if bool_decide (hf_ty f = TYPE_STRING) then take_n 1 (terminated (hf_data f))
      else if bool_decide (hf_ty f = TYPE_STRING_ARRAY) || bool_decide (hf_ty f = TYPE_I18NSTRING) then
        take_n (hf_count f) (terminated (hf_data f))
      else []
  end.

Definition string_array (hd : header) (tag : N) : list bytes :=
  match hd !! tag with
  | Some f =>
      if bool_decide (hf_ty f = TYPE_STRING_ARRAY) || bool_decide (hf_ty f = TYPE_I18NSTRING) then
        from_utf8_lossy <$> bytes_array hd tag
      else []
  | None => []
  end.

(** The whole numbers of a store, two or four bytes each. *)
Fixpoint int16s (data : bytes) : list Z :=
  match data with
  | a :: b :: data => as_signed 16 (from_be_bytes [a; b]) :: int16s data
  | _ => []
  end.
Fixpoint int32s (data : bytes) : list Z :=
  match data with
  | a :: b :: c :: d :: data => as_signed 32 (from_be_bytes [a; b; c; d]) :: int32s data
  | _ => []
  end.

Definition int_array (hd : header) (tag : N) : list Z :=
  match hd !! tag with
  | None => []
  | Some f =>
      if bool_decide (hf_ty f = TYPE_INT16) then take_n (hf_count f) (int16s (hf_data f))
      else if bool_decide (hf_ty f = TYPE_INT32) then take_n (hf_count f) (int32s (hf_data f))
      else []
  end.

Definition int (hd : header) (tag : N) : option N := as_unsigned 32 <$> head (int_array hd tag).

(** ** The files of a header *)

Record file := mk_file { fl_index : nat; fl_path : path; fl_flags : N }.

(** [get] at an [i64] read as an index: a negative one is past any end. *)
Definition get_signed {A} (l : list A) (i : Z) : option A :=
  if (i <? 0)%Z || (Z.of_nat (length l) <=? i)%Z then None else l !! Z.to_nat i.

Definition file_at (dirnames : list bytes) (dirindexes flags : list Z) (i : nat) (base : bytes) : option file :=
  dir ← d ← dirindexes !! i; get_signed dirnames d;
  Some (mk_file i (drop_while (is_byte slash) dir ++ base) (as_unsigned 32 (default 0%Z (flags !! i)))).

Definition files_of (hd : header) : list file :=
  let dirnames := string_array hd TAG_DIRNAMES in
  let dirindexes := int_array hd TAG_DIRINDEXES in
  let flags := int_array hd TAG_FILEFLAGS in
  omap id (imap (file_at dirnames dirindexes flags) (string_array hd TAG_BASENAMES)).

Definition is_ghost (flags : N) : bool := negb (bool_decide (N.land flags RPMFILE_GHOST = 0%N)).
Definition is_config (flags : N) : bool := negb (bool_decide (N.land flags RPMFILE_CONFIG = 0%N)).

Definition nevr (hd : header) : bytes :=
  let version := default [] (string hd TAG_VERSION) in
  let release := default [] (string hd TAG_RELEASE) in
  let arch := default [] (string hd TAG_ARCH) in
  let base :=
    match int hd TAG_EPOCH with
    | Some e => if (0 <? e)%N then dec e ++ #":" ++ version ++ #"-" ++ release else version ++ #"-" ++ release
    | None => version ++ #"-" ++ release
    end in
  if bool_decide (arch = []) then base else base ++ #"." ++ arch.

Record claim := mk_claim {
  cl_package : bytes; cl_version : bytes; cl_digest : bytes; cl_algo : N; cl_config : bool; cl_ghost : bool;
  cl_link_to : option bytes; cl_mode : option N
}.

Definition claim_of (hd : header) (f : file) : claim :=
  let i := fl_index f in
  mk_claim (default [] (string hd TAG_NAME)) (nevr hd)
    (default [] (string_array hd TAG_FILEDIGESTS !! i)) (default 0%N (int hd TAG_FILEDIGESTALGO))
    (is_config (fl_flags f)) (is_ghost (fl_flags f))
    (l ← string_array hd TAG_FILELINKTOS !! i; if bool_decide (l = []) then None else Some l)
    (as_unsigned 16 <$> int_array hd TAG_FILEMODES !! i).

Abbreviation claims := (pmap (list claim)).

(** The claim is put under every wanted path the file's path stands for. *)
Definition collect_claim (hd : header) (aliases : pmap (list path)) (cs : claims) (f : file) : claims :=
  match pm_get aliases (fl_path f) with
  | None => cs
  | Some wanted => foldl (fun cs w => pm_update [] (fun l => l ++ [claim_of hd f]) w cs) cs wanted
  end.
Definition collect_claims (aliases : pmap (list path)) (cs : claims) (hd : header) : claims :=
  foldl (collect_claim hd aliases) cs (files_of hd).

(** ** The database *)

(** rusqlite, given the image of a database and a query of one column of
    blobs: where it stopped and why, or a row at a time, [None] for one that
    could not be given up. *)
Module Stage.
Inductive stage := Memory | Image | Table | Rows.
End Stage.
Abbreviation stage := Stage.stage.
Class Sqlite := sqlite : bytes -> bytes -> result (stage * bytes) (list (option bytes)).

Definition SQLITE_WRITE_VERSION : nat := 18.
Definition SQLITE_READ_VERSION : nat := 19.
Definition SQLITE_HEADER : nat := 100.
Definition QUERY : bytes := #"SELECT blob FROM Packages".

Fixpoint first_existing (r : root) (ps : list path) : prog (option path) :=
  match ps with
  | [] => Ret None
  | p :: ps => here ← exists_ r p; if here : bool then Ret (Some p) else first_existing r ps
  end.
Definition db_path (r : root) : prog (option path) := first_existing r DBS.
Definition present (r : root) : prog bool := db ← db_path r; Ret (bool_decide (is_Some db)).

Definition stage_text (db : path) (s : stage) (e : bytes) : bytes :=
  match s with
  | Stage.Memory => #"SQLite: " ++ e
  | Stage.Image => db ++ #" is not a database SQLite can open: " ++ e
  | Stage.Table => db ++ #" has no Packages table: " ++ e
  | Stage.Rows => db ++ #" Packages could not be read: " ++ e
  end.

(** The image with its format versions set back to the rollback journal's. *)
Definition unjournalled (image : bytes) : bytes := <[SQLITE_READ_VERSION := x01]> (<[SQLITE_WRITE_VERSION := x01]> image).

(** The blobs of the rows, and how many rows gave none. *)
Definition rows_read (rows : list (option bytes)) : list bytes * N :=
  (omap id rows, N.of_nat (length (List.filter (fun row => bool_decide (row = None)) rows))).

Definition blobs_of `{Sqlite} (db : path) (image : bytes) : result bytes (list bytes * N) :=
  match sqlite (unjournalled image) QUERY with
  | Err (s, e) => Err (stage_text db s e)
  | Ok rows => Ok (rows_read rows)
  end.

Section database.
Context `{Digests} `{Strerror} `{Sqlite}.

Definition try_blobs (r : root) : prog (result bytes (list bytes * N)) :=
  db ← db_path r;
  match db with
  | None => Ret (Err #"no database")
  | Some db =>
      m ← stat_follow r db;
      match m with
      | Err e => Ret (Err (db ++ #" could not be examined: " ++ display_error e))
      | Ok m =>
          if bool_decide (m_size m = 0%N) || (DB_CAP <? m_size m)%N then
            Ret (Err (db ++ #" is empty or larger than the read cap"))
          else
            x ← Root.read_capped r db DB_CAP;
            Ret match x with
                | Err e => Err (db ++ #" could not be read: " ++ display_error e)
                | Ok (image, truncated) =>
                    if (truncated : bool) || (length image <? SQLITE_HEADER) then Err (db ++ #" is truncated")
                    else blobs_of db image
                end
      end
  end.
Definition read_blobs (r : root) : prog (option (list bytes)) := x ← try_blobs r; Ret (fst <$> ok x).

(** ** A file against its claims *)

Definition privilege (mode : N) : N := N.land mode 0xC00.

Definition digest_of (actual : option file_digests) (algo : N) : option bytes :=
  actual ← actual;
  if bool_decide (algo = 0%N) || bool_decide (algo = 1%N) then Some (fd_md5 actual)
  else if bool_decide (algo = 8%N) then Some (fd_sha256 actual)
  else None.

Definition rank (i : integrity) : N :=
  match i with
  | Integrity.Intact => 3
  | Integrity.ConffileModified => 2
  | Integrity.Modified | Integrity.ModeModified => 1
  | Integrity.Unknown => 0
  end.

Definition changed (c : claim) : integrity := if cl_config c then Integrity.ConffileModified else Integrity.Modified.

Definition judge_claim (r : root) (p : path) (actual : option file_digests) (c : claim) : prog integrity :=
  if cl_ghost c then Ret Integrity.Unknown
  else
    match cl_link_to c with
    | Some target =>
        m ← stat r p;
        on_disk ← (if match m with Ok m => m_is_symlink m | Err _ => false end then
                     t ← read_link r p; Ret (ok t)
                   else Ret None);
        Ret match on_disk with
            | Some t => if bool_decide (from_utf8_lossy t = target) then Integrity.Intact else changed c
            | None => changed c
            end
    | None =>
        match digest_of actual (cl_algo c) with
        | Some d =>
            if bool_decide (cl_digest c = []) then Ret Integrity.Unknown
            else if eq_ignore_ascii_case (cl_digest c) d then
              m ← stat r p;
              Ret match cl_mode c, m with
                  | Some shipped, Ok disk =>
                      if bool_decide (privilege shipped = privilege (m_mode disk)) then Integrity.Intact
                      else Integrity.ModeModified
                  | _, _ => Integrity.Intact
                  end
            else Ret (changed c)
        | None => Ret Integrity.Unknown
        end
    end.

(** The first of the claims that rank highest. *)
Definition better (best : option (claim * integrity)) (i : integrity) : bool :=
  match best with None => true | Some (_, current) => (rank current <? rank i)%N end.
Definition consider (r : root) (p : path) (actual : option file_digests) (best : option (claim * integrity)) (c : claim)
    : prog (option (claim * integrity)) :=
  i ← judge_claim r p actual c;
  Ret (if better best i then Some (c, i) else best).

Definition verify (r : root) (p : path) (candidates : list claim) : prog provenance :=
  actual ← digests r p;
  best ← fold_prog (consider r p actual) None candidates;
  Ret match best with
      | Some (c, i) => Provenance.Packaged (cl_package c) (cl_version c) i
      | None => Provenance.Unpackaged
      end.

(** ** The backend *)

Definition collect_blob (aliases : pmap (list path)) (st : claims * N) (blob : bytes) : claims * N :=
  match parse blob with
  | None => (fst st, snd st + 1)%N
  | Some hd => (collect_claims aliases (fst st) hd, snd st)
  end.

Definition conclude (out : answers) (n : N) : Database.outcome :=
  if bool_decide (n = 0%N) then Database.Complete out
  else Database.Incomplete out (dec n ++ #" package headers could not be read").

Definition verify_claims (r : root) (cs : claims) : prog answers :=
  fold_prog (fun out pc => v ← verify r (fst pc) (snd pc); Ret (pm_insert (fst pc) v out)) pm_empty (pm_list cs).

Definition resolve (r : root) (wanted : pset) : prog Database.outcome :=
  here ← present r;
  if negb here then Ret Database.Absent
  else
    aliases ← alias_map r (ps_list wanted);
    x ← try_blobs r;
    match x with
    | Err why => Ret (Database.Incomplete pm_empty why)
    | Ok (blobs, unread) =>
        let '(cs, unparsed) := foldl (collect_blob aliases) (pm_empty, 0%N) blobs in
        out ← verify_claims r cs;
        Ret (conclude out (unread + unparsed)%N)
    end.

(** The headers that parse. *)
Definition headers (blobs : list bytes) : list header := omap parse blobs.

Definition packaged_files (r : root) : prog pset :=
  blobs ← read_blobs r;
  Ret match blobs with
      | None => pm_empty
      | Some blobs =>
          foldl (fun out hd =>
            foldl (fun out f => if is_ghost (fl_flags f) then out else ps_insert (fl_path f) out) out (files_of hd))
            pm_empty (headers blobs)
      end.

Record imported_key := mk_imported_key { ik_key_id : bytes; ik_created : bytes; ik_summary : bytes; ik_armored : bytes }.

Definition imported_key_of (hd : header) : option imported_key :=
  if negb (bool_decide (string hd TAG_NAME = Some #"gpg-pubkey")) then None
  else
    Some (mk_imported_key (default [] (string hd TAG_VERSION)) (default [] (string hd TAG_RELEASE))
            (default [] (string hd TAG_SUMMARY)) (default [] (string hd TAG_DESCRIPTION))).

Definition imported_keys (r : root) : prog (option (path * list imported_key)) :=
  db ← db_path r;
  match db with
  | None => Ret None
  | Some db =>
      blobs ← read_blobs r;
      Ret match blobs with
          | None => None
          | Some blobs => Some (db, omap imported_key_of (headers blobs))
          end
  end.

(** ** Scriptlets *)

Definition SCRIPT_CAP : N := N.shiftl 1 20.

Definition SCRIPTLETS : list (bytes * N * N) :=
  [ ( #"%pre", 1023, 1085); ( #"%post", 1024, 1086); ( #"%preun", 1025, 1087); ( #"%postun", 1026, 1088);
    ( #"%pretrans", 1151, 1153); ( #"%posttrans", 1152, 1154); ( #"%preuntrans", 5103, 5105);
    ( #"%postuntrans", 5104, 5106)]%N.

Record trigger_tags := mk_trigger_tags {
  tt_label : bytes; tt_scripts : N; tt_prog : N; tt_names : N; tt_versions : N; tt_index : N; tt_flags : N;
  tt_priorities : option N
}.
Definition TRIGGERS : list trigger_tags :=
  [mk_trigger_tags #"%trigger" 1065 1092 1066 1067 1069 1068 None;
   mk_trigger_tags #"%filetrigger" 5066 5067 5069 5071 5070 5072 (Some 5084%N);
   mk_trigger_tags #"%transfiletrigger" 5076 5077 5079 5081 5080 5082 (Some 5085%N)].

Definition RPMSENSE_LESS : Z := Z.shiftl 1 1.
Definition RPMSENSE_GREATER : Z := Z.shiftl 1 2.
Definition RPMSENSE_EQUAL : Z := Z.shiftl 1 3.
Definition RPMSENSE_TRIGGERIN : Z := Z.shiftl 1 16.
Definition RPMSENSE_TRIGGERUN : Z := Z.shiftl 1 17.
Definition RPMSENSE_TRIGGERPOSTUN : Z := Z.shiftl 1 18.
Definition RPMSENSE_TRIGGERPREIN : Z := Z.shiftl 1 25.

Definition has_sense (flags sense : Z) : bool := negb (bool_decide (Z.land flags sense = 0%Z)).

Definition condition (name version : bytes) (flags : Z) : bytes :=
  if bool_decide (version = []) then name
  else
    let compared op := name ++ #" " ++ op ++ #" " ++ version in
    match has_sense flags RPMSENSE_LESS, has_sense flags RPMSENSE_GREATER, has_sense flags RPMSENSE_EQUAL with
    | true, false, false => compared #"<"
    | true, false, true => compared #"<="
    | false, true, false => compared #">"
    | false, true, true => compared #">="
    | false, false, true => compared #"="
    | _, _, _ => name ++ #" " ++ version
    end.

Definition when_label (flags : Z) : bytes :=
  if has_sense flags RPMSENSE_TRIGGERPREIN then #"prein"
  else if has_sense flags RPMSENSE_TRIGGERIN then #"in"
  else if has_sense flags RPMSENSE_TRIGGERUN then #"un"
  else if has_sense flags RPMSENSE_TRIGGERPOSTUN then #"postun"
  else [].

Record scriptlet := mk_scriptlet {
  sl_package : bytes; sl_arch : bytes; sl_version : bytes; sl_kind : bytes; sl_prog : bytes; sl_fires_on : list bytes;
  sl_priority : option Z; sl_body : bytes; sl_truncated : bool
}.

Definition push (hd : header) (kind prog_ : bytes) (fires_on : list bytes) (priority : option Z) (body : bytes) : scriptlet :=
  mk_scriptlet (default [] (string hd TAG_NAME)) (default [] (string hd TAG_ARCH)) (nevr hd) kind prog_ fires_on priority
    (take_n SCRIPT_CAP body) (SCRIPT_CAP <? N.of_nat (length body))%N.

Definition install_scriptlet (hd : header) (tags : bytes * N * N) : option scriptlet :=
  let '(kind, body_tag, prog_tag) := tags in
  body ← head (bytes_array hd body_tag);
  Some (push hd kind (join #" " (from_utf8_lossy <$> bytes_array hd prog_tag)) [] None body).

(** What fires script [i]: the flags of its names together, and a condition
    for each name. *)
Definition fires (names versions : list bytes) (index flags : list Z) (i : nat) : Z * list bytes :=
  foldl (fun st ja =>
    let '(j, at_) := ja : nat * Z in
    if negb (bool_decide (at_ = Z.of_nat i)) then st
    else
      match names !! j with
      | None => st
      | Some name =>
          let flag := default 0%Z (flags !! j) in
          (Z.lor (fst st) flag, snd st ++ [condition name (default [] (versions !! j)) flag])
      end) (0%Z, []) (imap pair index).

Definition trigger_scripts (hd : header) (t : trigger_tags) : list scriptlet :=
  let names := string_array hd (tt_names t) in
  let versions := string_array hd (tt_versions t) in
  let index := int_array hd (tt_index t) in
  let flags := int_array hd (tt_flags t) in
  let progs := bytes_array hd (tt_prog t) in
  let priorities := match tt_priorities t with Some tag => int_array hd tag | None => [] end in
  imap (fun i body =>
    let '(when_, fires_on) := fires names versions index flags i in
    push hd (tt_label t ++ when_label when_) (default [] (from_utf8_lossy <$> progs !! i)) fires_on (priorities !! i) body)
    (bytes_array hd (tt_scripts t)).

Definition collect_scriptlets (hd : header) : list scriptlet :=
  if bool_decide (default [] (string hd TAG_NAME) = []) then []
  else omap (install_scriptlet hd) SCRIPTLETS ++ (TRIGGERS ≫= trigger_scripts hd).

Definition scriptlets (r : root) : prog (option (path * list scriptlet)) :=
  db ← db_path r;
  match db with
  | None => Ret None
  | Some db =>
      blobs ← read_blobs r;
      Ret match blobs with
          | None => None
          | Some blobs => Some (db, headers blobs ≫= collect_scriptlets)
          end
  end.
End database.

(** ** Claims gathered under the wanted paths *)

Definition claimed (cs : claims) (p : path) : list claim := default [] (pm_get cs p).

Lemma claimed_update cs c (ws : list path) p x :
  x ∈ claimed (foldl (fun cs w => pm_update [] (fun l => l ++ [c]) w cs) cs ws) p <->
  x ∈ claimed cs p \/ x = c /\ exists w, w ∈ ws /\ path_eqb w p = true.
Proof.
  revert cs. induction ws as [|w ws IH]; intros cs; cbn [foldl].
  - split; [by left|]. by intros [?|(_ & w & []%elem_of_nil & _)].
  - rewrite IH, (ex_elem_cons (fun w => path_eqb w p = true)). unfold claimed at 1. rewrite pm_get_update.
    destruct (path_eqb w p) eqn:E; [|unfold claimed; naive_solver].
    rewrite (pm_get_components cs w p) by (by apply path_eqb_eq). cbn [default from_option id].
    rewrite elem_of_app, list_elem_of_singleton. unfold claimed. tauto.
Qed.

(** What holds of the claims at every step: each key is a wanted path and has
    a claim. *)
Record claims_ok (ws : list path) (cs : claims) : Prop := mk_claims_ok {
  co_ok : pm_ok cs;
  co_asked : forall q l, (q, l) ∈ pm_list cs -> q ∈ ws /\ l <> []
}.

Lemma claims_ok_update ws cs c w :
  w ∈ ws -> claims_ok ws cs -> claims_ok ws (pm_update [] (fun l => l ++ [c]) w cs).
Proof.
  intros Hw [H1 H2]. split; [by apply pm_ok_insert|]. intros q l [k Hk]%elem_of_pm_list.
  unfold pm_update, pm_insert in Hk. apply lookup_insert_Some in Hk as [[<- [= <- <-]]|[_ Hk]].
  - split; [|by intros [_ [=]]%app_nil]. destruct (cs !! components w) as [[q' l']|] eqn:E; [|done]. cbn.
    apply (H2 q' l'), elem_of_pm_list. eauto.
  - apply (H2 q l), elem_of_pm_list. eauto.
Qed.

Lemma claims_ok_updates (ws ws' : list path) cs c :
  (forall w, w ∈ ws' -> w ∈ ws) -> claims_ok ws cs ->
  claims_ok ws (foldl (fun cs w => pm_update [] (fun l => l ++ [c]) w cs) cs ws').
Proof.
  revert cs. induction ws' as [|w ws' IH]; intros cs Hs Hc; [done|]. cbn [foldl].
  apply IH; [intros ? ?; apply Hs; by right|]. apply claims_ok_update; [apply Hs; by left|done].
Qed.

Section collecting.
Variable h : snapshot.
Variable r : root.
Variable wanted : pset.
Let ws : list path := ps_list wanted.
Let aliases : pmap (list path) := run h (alias_map r ws).

(** The claims a header lays to a path. *)
Definition header_claims (hd : header) (w : path) : list claim :=
  claim_of hd <$> List.filter (fun f => spells h r w (fl_path f)) (files_of hd).
Definition candidates (hs : list header) (w : path) : list claim := hs ≫= fun hd => header_claims hd w.

Lemma collect_claim_aliased hd cs f :
  collect_claim hd aliases cs f =
  foldl (fun cs w => pm_update [] (fun l => l ++ [claim_of hd f]) w cs) cs (aliased aliases (fl_path f)).
Proof. unfold collect_claim, aliased. by destruct (pm_get aliases (fl_path f)). Qed.

Lemma collect_claim_ok hd cs f : claims_ok ws cs -> claims_ok ws (collect_claim hd aliases cs f).
Proof. intros Hc. rewrite collect_claim_aliased. apply claims_ok_updates; [|done]. by intros w [Hw _]%elem_of_aliased. Qed.

Lemma collect_ok hs cs : claims_ok ws cs -> claims_ok ws (foldl (collect_claims aliases) cs hs).
Proof.
  revert cs. induction hs as [|hd hs IH]; intros cs Hc; [done|]. apply IH. unfold collect_claims. clear IH.
  revert cs Hc. induction (files_of hd) as [|f fs IH]; intros cs Hc; [done|]. by apply IH, collect_claim_ok.
Qed.

Lemma collect_claim_spec hd cs f w x :
  pm_ok wanted -> w ∈ ws ->
  x ∈ claimed (collect_claim hd aliases cs f) w <-> x ∈ claimed cs w \/ x = claim_of hd f /\ spells h r w (fl_path f) = true.
Proof.
  intros Hok Hw. rewrite collect_claim_aliased, claimed_update. apply or_iff_compat_l, and_iff_compat_l.
  rewrite spells_true. split.
  - intros (w' & [Hw' Hs]%elem_of_aliased & E). by rewrite <- (ps_list_path wanted w' w).
  - intros Hs. exists w. split; [by apply elem_of_aliased|by apply path_eqb_eq].
Qed.

Lemma collect_header_spec hd cs w x :
  pm_ok wanted -> w ∈ ws ->
  x ∈ claimed (collect_claims aliases cs hd) w <-> x ∈ claimed cs w \/ x ∈ header_claims hd w.
Proof.
  intros Hok Hw. unfold collect_claims, header_claims. revert cs.
  induction (files_of hd) as [|f fs IH]; intros cs; cbn [foldl].
  - cbn. rewrite elem_of_nil. tauto.
  - rewrite IH, collect_claim_spec by done. cbn [List.filter]. destruct (spells h r w (fl_path f)).
    + cbn [fmap list_fmap]. rewrite elem_of_cons. tauto.
    + naive_solver.
Qed.

Lemma collect_spec hs cs w x :
  pm_ok wanted -> w ∈ ws ->
  x ∈ claimed (foldl (collect_claims aliases) cs hs) w <-> x ∈ claimed cs w \/ x ∈ candidates hs w.
Proof.
  intros Hok Hw. revert cs. induction hs as [|hd hs IH]; intros cs; cbn [foldl].
  - unfold candidates. cbn. rewrite elem_of_nil. tauto.
  - rewrite IH, collect_header_spec by done. unfold candidates. cbn [mbind list_bind]. rewrite elem_of_app. tauto.
Qed.
End collecting.

(** ** The verdict on a path *)

Section verdicts.
Context `{Digests}.
Variable h : snapshot.
Variable r : root.

Definition judged (p : path) (c : claim) : integrity := run h (judge_claim r p (run h (digests r p)) c).

(** [c] is among the claims and none of them ranks higher. *)
Definition wins (p : path) (cs : list claim) (c : claim) : Prop :=
  c ∈ cs /\ forall c', c' ∈ cs -> (rank (judged p c') <= rank (judged p c))%N.

Definition consider_one (p : path) (best : option (claim * integrity)) (c : claim) : option (claim * integrity) :=
  if better best (judged p c) then Some (c, judged p c) else best.

Lemma best_of p cs :
  match foldl (consider_one p) None cs with
  | None => cs = []
  | Some (c, i) => i = judged p c /\ wins p cs c
  end.
Proof.
  induction cs as [|c cs IH] using rev_ind; [done|]. rewrite foldl_app. cbn [foldl]. unfold consider_one at 1.
  destruct (foldl _ None cs) as [[c' i]|]; cbn [better].
  - destruct IH as (-> & Hin & Hmax). destruct (N.ltb_spec (rank (judged p c')) (rank (judged p c))).
    + split; [done|]. split; [apply elem_of_app; right; by left|].
      intros c'' [Hc| ->%list_elem_of_singleton]%elem_of_app; [|done]. specialize (Hmax _ Hc). lia.
    + split; [done|]. split; [apply elem_of_app; by left|].
      intros c'' [Hc| ->%list_elem_of_singleton]%elem_of_app; [by apply Hmax|lia].
  - subst cs. split; [done|]. split; [by left|]. intros c' ->%list_elem_of_singleton. done.
Qed.

Definition verdict_of (p : path) (c : claim) : provenance :=
  Provenance.Packaged (cl_package c) (cl_version c) (judged p c).

Lemma run_verify p cs :
  cs <> [] -> exists c, wins p cs c /\ run h (verify r p cs) = verdict_of p c.
Proof.
  intros Hne. unfold verify. rewrite run_bind, run_bind, run_fold_prog. cbn [run].
  assert (E : foldl (fun best c => run h (consider r p (run h (digests r p)) best c)) None cs = foldl (consider_one p) None cs).
  { apply foldl_ext_in. intros best c _. unfold consider. by rewrite run_bind. }
  rewrite E. pose proof (best_of p cs) as Hb. revert Hb. clear E. destruct (foldl (consider_one p) None cs) as [[c i]|]; intros Hb; [|done].
  destruct Hb as [-> Hw]. by exists c.
Qed.

(** The answers to claims whose every path is a wanted one. *)
Lemma run_verify_claims (ws : list path) (cs : claims) w :
  claims_ok ws cs -> (forall q, q ∈ ws -> path_eqb q w = true -> q = w) ->
  pm_get (run h (verify_claims r cs)) w = (fun l => run h (verify r w l)) <$> pm_get cs w.
Proof.
  intros [Hok Hasked] Huniq. unfold verify_claims. rewrite run_fold_prog.
  set (answer := fun pc : path * list claim => (fst pc, run h (verify r (fst pc) (snd pc)))).
  assert (E : foldl (fun out pc => run h (v ← verify r (fst pc) (snd pc); Ret (pm_insert (fst pc) v out))) pm_empty (pm_list cs)
            = foldl (fun m pv => pm_insert (fst pv) (snd pv) m) pm_empty (answer <$> pm_list cs)).
  { rewrite foldl_fmap. apply foldl_ext_in. intros out pc _. by rewrite run_bind. }
  rewrite E, pm_foldl_insert, pm_get_empty.
  - assert (Hf : find (fun pv : path * provenance => path_eqb (fst pv) w) (answer <$> pm_list cs) =
      answer <$> find (fun pc => path_eqb (fst pc) w) (pm_list cs)).
    { generalize (pm_list cs). intros l. induction l as [|pc l IH]; [done|]. cbn [fmap list_fmap find answer fst].
      destruct (path_eqb (fst pc) w); [done|exact IH]. }
    rewrite Hf. destruct (find _ (pm_list cs)) as [[q l]|] eqn:Ef; cbn.
    + apply find_some in Ef as [Hin%list_elem_of_In Eq]. cbn in Eq.
      assert (q = w) as -> by (apply Huniq; [by eapply Hasked|done]).
      by rewrite (pm_list_get _ _ _ Hok Hin).
    + destruct (pm_get cs w) as [l|] eqn:Eg; [|done]. exfalso.
      apply (pm_get_list _ _ _ Hok) in Eg as (q & Hin & Eq). eapply find_none in Ef; [|by apply list_elem_of_In].
      cbn in Ef. apply not_true_iff_false in Ef. apply Ef. by apply path_eqb_eq.
  - intros q q' v v' (pc & [= -> ->] & Hp)%list_elem_of_fmap (pc' & [= -> ->] & Hp')%list_elem_of_fmap Eq.
    destruct pc as [q1 l1], pc' as [q2 l2]. cbn in *.
    pose proof (pm_list_path _ _ _ _ _ Hok Hp Hp' Eq) as ->. by rewrite (pm_list_functional _ _ _ _ _ Hok Hp Hp' eq_refl).
Qed.
End verdicts.

(** ** What an answer says *)

Lemma collect_blobs aliases blobs cs n :
  foldl (collect_blob aliases) (cs, n) blobs =
  (foldl (collect_claims aliases) cs (headers blobs),
   n + N.of_nat (length (List.filter (fun b => bool_decide (parse b = None)) blobs)))%N.
Proof.
  unfold headers. revert cs n. induction blobs as [|b blobs IH]; intros cs n; cbn [foldl List.filter omap list_omap].
  - cbn. f_equal. lia.
  - unfold collect_blob at 2. destruct (parse b) as [hd|]; cbn [fst snd].
    + rewrite bool_decide_false by done. by rewrite IH.
    + rewrite bool_decide_true by done. rewrite IH. cbn [length]. f_equal. lia.
Qed.

(** Every row gave a blob and every blob is a header. *)
Lemma nothing_lost (rows : list (option bytes)) :
  (snd (rows_read rows) + N.of_nat (length (List.filter (fun b => bool_decide (parse b = None)) (fst (rows_read rows)))))%N = 0%N ->
  Forall2 (fun row hd => exists b, row = Some b /\ parse b = Some hd) rows (headers (fst (rows_read rows))).
Proof.
  unfold rows_read, headers. cbn [fst snd]. induction rows as [|[b|] rows IH]; [by constructor| |].
  - cbn [omap list_omap id List.filter length]. rewrite bool_decide_false by done.
    destruct (parse b) as [hd|] eqn:E.
    + rewrite (bool_decide_false (Some hd = None)) by done. intros Hn. constructor; [eauto|by apply IH].
    + rewrite bool_decide_true by done. cbn [length]. lia.
  - cbn [List.filter]. rewrite bool_decide_true by done. cbn [length]. lia.
Qed.

Section laws.
Context `{Digests} `{Strerror} `{Sqlite}.
Variable h : snapshot.
Variable r : root.

(** The database file was read whole and these are its rows. *)
Definition database_rows (rows : list (option bytes)) : Prop :=
  exists db image, run h (db_path r) = Some db /\ run h (Root.read_capped r db DB_CAP) = Ok (image, false) /\
    sqlite (unjournalled image) QUERY = Ok rows.

Definition answers_of (wanted : pset) (hs : list header) : answers :=
  run h (verify_claims r (foldl (collect_claims (run h (alias_map r (ps_list wanted)))) pm_empty hs)).

Lemma run_try_blobs x :
  run h (try_blobs r) = Ok x -> exists rows, database_rows rows /\ x = rows_read rows.
Proof.
  unfold try_blobs, database_rows. rewrite run_bind. destruct (run h (db_path r)) as [db|]; [|done].
  rewrite run_bind. destruct (run h (stat_follow r db)) as [m|]; [|done].
  case_match; [done|]. rewrite run_bind. destruct (run h (Root.read_capped r db DB_CAP)) as [[image [|]]|] eqn:E; try done.
  cbn [run orb]. case_match; [done|]. unfold blobs_of. destruct (sqlite _ _) as [rows|[s e]] eqn:Es; [|done].
  intros [= <-]. exists rows. split; [|done]. by exists db, image.
Qed.

Lemma rpm_run_resolve (wanted : pset) :
  match run h (resolve r wanted) with
  | Database.Absent => run h (db_path r) = None
  | Database.Complete out => exists rows hs, database_rows rows /\
      Forall2 (fun row hd => exists b, row = Some b /\ parse b = Some hd) rows hs /\ out = answers_of wanted hs
  | Database.Incomplete out _ => out = pm_empty \/
      exists rows, database_rows rows /\ out = answers_of wanted (headers (fst (rows_read rows)))
  end.
Proof.
  unfold resolve, present. rewrite run_bind, run_bind. cbn [run].
  destruct (run h (db_path r)) as [db|] eqn:Edb; [|done]. rewrite bool_decide_true by (by eexists). cbn [negb].
  rewrite run_bind, run_bind. destruct (run h (try_blobs r)) as [x|why] eqn:Ex; [|by left].
  apply run_try_blobs in Ex as (rows & Hr & ->). destruct (rows_read rows) as [blobs unread] eqn:Er.
  rewrite collect_blobs, run_bind. cbn [run]. unfold conclude. rewrite N.add_0_l. case_bool_decide as Hn.
  - exists rows, (headers blobs). split; [done|]. split; [|done].
    pose proof (nothing_lost rows) as Hl. rewrite Er in Hl. by apply Hl.
  - right. exists rows. by rewrite Er.
Qed.

Lemma claims_ok_empty ws : claims_ok ws pm_empty.
Proof. split; [apply pm_ok_empty|]. intros q l [k Hk]%elem_of_pm_list. unfold pm_empty in Hk. by rewrite lookup_empty in Hk. Qed.

(** A wanted path is answered by a claim laid to it that none outranks. *)
Lemma answers_of_get (wanted : pset) (hs : list header) w :
  pm_ok wanted -> w ∈ ps_list wanted ->
  match pm_get (answers_of wanted hs) w with
  | None => candidates h r hs w = []
  | Some v => exists c, wins h r w (candidates h r hs w) c /\ v = verdict_of h r w c
  end.
Proof.
  intros Hok Hw. unfold answers_of.
  rewrite (run_verify_claims h r (ps_list wanted)); [| |intros q Hq E; by apply (ps_list_path wanted)].
  2:{ apply collect_ok, claims_ok_empty. }
  pose proof (collect_ok h r wanted hs pm_empty (claims_ok_empty _)) as [Hcs Hasked].
  pose proof (fun c => collect_spec h r wanted hs pm_empty w c Hok Hw) as Hspec. revert Hcs Hasked Hspec.
  generalize (foldl (collect_claims (run h (alias_map r (ps_list wanted)))) pm_empty hs). intros cs Hcs Hasked Hspec.
  assert (Hin : forall c, c ∈ claimed cs w <-> c ∈ candidates h r hs w).
  { intros c. rewrite Hspec. unfold claimed at 1. rewrite pm_get_empty. cbn. rewrite elem_of_nil. tauto. }
  unfold claimed in Hin. destruct (pm_get cs w) as [l|] eqn:E; cbn in Hin |- *.
  - assert (l <> []) as Hne by (apply (pm_get_list _ _ _ Hcs) in E as (q & Hq & _); by eapply Hasked).
    destruct (run_verify h r w l Hne) as (c & [Hc Hmax] & ->). exists c. split; [|done].
    split; [by apply Hin|]. intros c' Hc'. by apply Hmax, Hin.
  - apply elem_of_nil_inv. intros c Hc. by apply Hin, elem_of_nil in Hc.
Qed.

Lemma rpm_answers_for (wanted : pset) hs : pm_ok wanted -> answers_for wanted (answers_of wanted hs).
Proof.
  intros Hok. pose proof (collect_ok h r wanted hs pm_empty (claims_ok_empty _)) as [Hcs Hasked].
  unfold answers_of, verify_claims. rewrite run_fold_prog. revert Hasked.
  generalize (foldl (collect_claims (run h (alias_map r (ps_list wanted)))) pm_empty hs), (answers_for_empty wanted).
  intros cs. generalize (@pm_empty provenance). induction (pm_list cs) as [|[q l] qs IH]; intros out Ho Ha; [done|].
  cbn [foldl]. rewrite run_bind. cbn [run fst snd]. destruct (Ha q l ltac:(by left)) as [Hq Hl].
  destruct (run_verify h r q l Hl) as (c & _ & ->).
  apply IH; [|intros q' l' ?; apply Ha; by right]. destruct Ho as [H1' H2' H3']. split; [by apply pm_ok_insert|..].
  - intros p v. rewrite pm_get_insert. case_match; [intros [= <-]; by repeat eexists|by apply H2'].
  - intros p [v Hv]%pm_mem_true. rewrite pm_get_insert in Hv. destruct (path_eqb q p) eqn:E.
    + by apply (ps_list_pm_mem wanted q).
    + apply H3', pm_mem_true. eauto.
Qed.
End laws.

#[export] Instance rpm_backend `{Digests} `{Strerror} `{Sqlite} h : BackendLaws h (total resolve).
Proof.
  apply total_answers. intros r wanted Hw. pose proof (rpm_run_resolve h r wanted) as Hr.
  destruct (run h (resolve r wanted)) as [|a|a why]; [done| |].
  - destruct Hr as (rows & hs & _ & _ & ->). by apply rpm_answers_for.
  - destruct Hr as [->|(rows & _ & ->)]; [by apply answers_for_empty|by apply rpm_answers_for].
Qed.

(** C28. A database answered for completely was: its file was read to the end,
    SQLite gave every row and every row is a header. A wanted path is then
    answered with the package, version and verdict of a claim some header
    lays to one of its spellings, and no claim laid to it ranks higher; a
    path no header claims has no answer. *)
Theorem rpm_complete `{Digests} `{Strerror} `{Sqlite} (h : snapshot) (r : root) (wanted : pset) (out : answers) :
  pm_ok wanted -> run h (resolve r wanted) = Database.Complete out ->
  exists rows hs, database_rows h r rows /\
    Forall2 (fun row hd => exists b, row = Some b /\ parse b = Some hd) rows hs /\
    forall w, w ∈ ps_list wanted ->
    match pm_get out w with
    | None => candidates h r hs w = []
    | Some v => exists c, wins h r w (candidates h r hs w) c /\ v = verdict_of h r w c
    end.
Proof.
  intros Hok Hr. pose proof (rpm_run_resolve h r wanted) as H'. rewrite Hr in H'.
  destruct H' as (rows & hs & Hrows & Hp & ->). exists rows, hs. split; [done|]. split; [done|].
  intros w Hw. by apply answers_of_get.
Qed.

(** What makes a claim match the file: the link it shipped, or the digest it
    recorded and the privileges of its mode. *)
Definition matches_claim `{Digests} (h : snapshot) (r : root) (p : path) (c : claim) : Prop :=
  cl_ghost c = false /\
  match cl_link_to c with
  | Some target => exists m t, run h (stat r p) = Ok m /\ m_is_symlink m = true /\
      run h (read_link r p) = Ok t /\ from_utf8_lossy t = target
  | None => exists d, digest_of (run h (digests r p)) (cl_algo c) = Some d /\ cl_digest c <> [] /\
      eq_ignore_ascii_case (cl_digest c) d = true /\
      forall shipped m, cl_mode c = Some shipped -> run h (stat r p) = Ok m -> privilege shipped = privilege (m_mode m)
  end.

Lemma judged_intact `{Digests} h r p c : judged h r p c = Integrity.Intact -> matches_claim h r p c.
Proof.
  unfold judged, judge_claim, matches_claim, changed. destruct (cl_ghost c); [done|]. intros Hj. split; [done|].
  destruct (cl_link_to c) as [target|].
  - rewrite run_bind in Hj. destruct (run h (stat r p)) as [m|]; [|by destruct (cl_config c)].
    destruct (m_is_symlink m) eqn:El; [|by destruct (cl_config c)]. rewrite run_bind in Hj. cbn [run] in Hj.
    rewrite run_bind in Hj. cbn [run] in Hj. destruct (run h (read_link r p)) as [t|]; [|by destruct (cl_config c)].
    cbn in Hj. case_bool_decide; [|by destruct (cl_config c)]. by exists m, t.
  - destruct (digest_of _ _) as [d|]; [|done]. case_bool_decide; [done|].
    destruct (eq_ignore_ascii_case (cl_digest c) d) eqn:Ed; [|by destruct (cl_config c)].
    exists d. split_and!; [done..|]. intros shipped m Hm Hs. rewrite run_bind, Hs, Hm in Hj. cbn [run] in Hj.
    by case_bool_decide.
Qed.

(** A path called intact, in an answer whole or not, is claimed by a file
    of a header in the database that the path spells; the answer names that
    header's package; the file is no ghost; and either it was shipped as a
    link and is a link to the same target, or its digest is the one recorded
    and its setuid and setgid bits are those it was shipped with. *)
Theorem rpm_intact `{Digests} `{Strerror} `{Sqlite} (h : snapshot) (r : root) (wanted : pset) (w : path) (package version : bytes) :
  pm_ok wanted -> w ∈ ps_list wanted ->
  pm_get (outcome_answers (run h (total resolve r wanted))) w = Some (Provenance.Packaged package version Integrity.Intact) ->
  exists rows hd f, database_rows h r rows /\ hd ∈ headers (fst (rows_read rows)) /\ f ∈ files_of hd /\
    spelled h r w (fl_path f) /\ package = default [] (string hd TAG_NAME) /\ version = nevr hd /\
    matches_claim h r w (claim_of hd f).
Proof.
  intros Hok Hw Hv. unfold total in Hv. rewrite run_bind in Hv. cbn [run] in Hv.
  assert (exists rows, database_rows h r rows /\ pm_get (answers_of h r wanted (headers (fst (rows_read rows)))) w =
    Some (Provenance.Packaged package version Integrity.Intact)) as (rows & Hrows & Ha).
  { pose proof (rpm_run_resolve h r wanted) as Hr. destruct (run h (resolve r wanted)) as [|out|out why].
    - cbn in Hv. by rewrite pm_get_empty in Hv.
    - destruct Hr as (rows & hs & Hrows & Hp & ->). exists rows. split; [done|]. cbn in Hv.
      assert (headers (fst (rows_read rows)) = hs) as ->; [|done].
      clear -Hp. induction Hp as [|row hd rows hs (b & -> & Hb) _ IH]; [done|].
      unfold headers, rows_read in *. cbn in *. by rewrite Hb, IH.
    - destruct Hr as [->|(rows & Hrows & ->)]; cbn in Hv; [by rewrite pm_get_empty in Hv|]. by exists rows. }
  pose proof (answers_of_get h r wanted (headers (fst (rows_read rows))) w Hok Hw) as Hg. rewrite Ha in Hg.
  destruct Hg as (c & [Hc _] & [= -> -> Hi]). apply list_elem_of_bind in Hc as (hd & Hc & Hhd).
  apply list_elem_of_fmap in Hc as (f & -> & Hf). apply list_elem_of_In, List.filter_In in Hf as [Hf Hs].
  exists rows, hd, f. split_and!; try done; [by apply list_elem_of_In|by apply spells_true|by apply judged_intact].
Qed.

(** ** A header as rpm writes it *)

Inductive value := Text (s : bytes) | Strings (ss : list bytes) | Shorts (zs : list Z) | Longs (zs : list Z).

Fixpoint be_bytes (k : nat) (n : N) : bytes :=
  match k with O => [] | S k => be_bytes k (n / 256)%N ++ [byte_of_N n] end.

Definition value_type (v : value) : N :=
  match v with Text _ => TYPE_STRING | Strings _ => TYPE_STRING_ARRAY | Shorts _ => TYPE_INT16 | Longs _ => TYPE_INT32 end.
Definition value_count (v : value) : nat :=
  match v with Text _ => 1 | Strings ss => length ss | Shorts zs | Longs zs => length zs end.
Definition print_ints (width : N) (zs : list Z) : bytes := zs ≫= fun z => be_bytes (N.to_nat width / 8) (as_unsigned width z).
Definition print_value (v : value) : bytes :=
  match v with
  | Text s => s ++ [nul]
  | Strings ss => ss ≫= fun s => s ++ [nul]
  | Shorts zs => print_ints 16 zs
  | Longs zs => print_ints 32 zs
  end.

Fixpoint print_index (offset : nat) (es : list (N * value)) : bytes :=
  match es with
  | [] => []
  | (tag, v) :: es =>
      be_bytes 4 tag ++ be_bytes 4 (value_type v) ++ be_bytes 4 (N.of_nat offset) ++ be_bytes 4 (N.of_nat (value_count v)) ++
      print_index (offset + length (print_value v)) es
  end.
Definition print_store (es : list (N * value)) : bytes := es ≫= fun e => print_value (snd e).
Definition print_header (es : list (N * value)) : bytes :=
  be_bytes 4 (N.of_nat (length es)) ++ be_bytes 4 (N.of_nat (length (print_store es))) ++ print_index 0 es ++ print_store es.

Definition no_nul (s : bytes) : Prop := Forall (fun x => is_byte nul x = false) s.
Definition in_width (w : Z) (z : Z) : Prop := (- 2 ^ (w - 1) <= z < 2 ^ (w - 1))%Z.
Definition value_ok (v : value) : Prop :=
  match v with
  | Text s => no_nul s
  | Strings ss => Forall no_nul ss
  | Shorts zs => Forall (in_width 16) zs
  | Longs zs => Forall (in_width 32) zs
  end.
Definition entry_ok (e : N * value) : Prop :=
  (fst e < 2 ^ 32)%N /\ fst e ∉ [TAG_HEADERIMAGE; TAG_HEADERSIGNATURES; TAG_HEADERIMMUTABLE] /\ value_ok (snd e).
Record header_ok (es : list (N * value)) : Prop := mk_header_ok {
  ho_tags : NoDup (fst <$> es);
  ho_entries : Forall entry_ok es;
  ho_index : (N.of_nat (length es) <= MAX_INDEX_ENTRIES)%N;
  ho_store : (N.of_nat (length (print_store es)) <= MAX_STORE)%N
}.

(** What the accessors give back for a value. *)
Definition reads (hd : header) (tag : N) (v : value) : Prop :=
  match v with
  | Text s => string hd tag = Some (from_utf8_lossy s) /\ bytes_array hd tag = [s]
  | Strings ss => bytes_array hd tag = ss /\ string_array hd tag = from_utf8_lossy <$> ss
  | Shorts zs | Longs zs => int_array hd tag = zs
  end.

Lemma be_bytes_length k n : length (be_bytes k n) = k.
Proof. revert n. induction k as [|k IH]; intros n; [done|]. cbn. rewrite length_app, IH. cbn. lia. Qed.

Lemma from_be_be k n : from_be_bytes (be_bytes k n) = (n mod 256 ^ N.of_nat k)%N.
Proof.
  revert n. induction k as [|k IH]; intros n; [by rewrite N.mod_1_r|].
  unfold from_be_bytes in *. cbn [be_bytes]. rewrite foldl_app. cbn [foldl]. rewrite IH, to_N_byte_of_N.
  rewrite Nat2N.inj_succ, N.pow_succ_r'. rewrite (N.Div0.mod_mul_r n 256). lia.
Qed.

Lemma from_be_32 n : (n < 2 ^ 32)%N -> from_be_bytes (be_bytes 4 n) = n.
Proof. intros Hn. rewrite from_be_be. by apply N.mod_small. Qed.

Lemma be32_at pre n post : (n < 2 ^ 32)%N -> be32 (pre ++ be_bytes 4 n ++ post) (length pre) = Some n.
Proof.
  intros Hn. unfold be32. rewrite drop_app_length, take_app_le by (by rewrite be_bytes_length).
  rewrite take_ge by (by rewrite be_bytes_length). cbv zeta. by rewrite be_bytes_length, from_be_32.
Qed.

Lemma be32_at' pre pre' n post at_ :
  (n < 2 ^ 32)%N -> at_ = length pre + length pre' -> be32 (pre ++ pre' ++ be_bytes 4 n ++ post) at_ = Some n.
Proof. intros Hn ->. rewrite <- length_app, (app_assoc pre). by apply be32_at. Qed.

Lemma as_signed_unsigned w z : (0 < w)%N -> in_width (Z.of_N w) z -> as_signed w (as_unsigned w z) = z.
Proof.
  intros Hw Hz. unfold in_width, as_signed, as_unsigned in *.
  assert (E : (2 ^ Z.of_N w = 2 * 2 ^ (Z.of_N w - 1))%Z) by (rewrite <- Z.pow_succ_r by lia; f_equal; lia).
  set (p := (2 ^ (Z.of_N w - 1))%Z) in *. assert (Hp : (Z.of_N (2 ^ (w - 1)) = p)%Z).
  { rewrite N2Z.inj_pow, N2Z.inj_sub by lia. done. }
  assert (0 <= z mod (2 ^ Z.of_N w) < 2 ^ Z.of_N w)%Z by (apply Z.mod_pos_bound; rewrite E; lia).
  assert (z mod (2 ^ Z.of_N w) = if (z <? 0) then z + 2 ^ Z.of_N w else z)%Z as Em.
  { destruct (Z.ltb_spec z 0); [|apply Z.mod_small; lia]. symmetry. apply Z.mod_unique_pos with (-1)%Z; lia. }
  destruct (N.ltb_spec (Z.to_N (z mod 2 ^ Z.of_N w)) (2 ^ (w - 1))) as [Hlt|Hlt]; rewrite Z2N.id by lia;
    destruct (Z.ltb_spec z 0); lia.
Qed.

Lemma as_unsigned_lt w z : (as_unsigned w z < 2 ^ w)%N.
Proof.
  unfold as_unsigned. assert (0 <= z mod 2 ^ Z.of_N w < 2 ^ Z.of_N w)%Z by (apply Z.mod_pos_bound; apply Z.pow_pos_nonneg; lia).
  apply N2Z.inj_lt. rewrite Z2N.id by lia. rewrite N2Z.inj_pow. lia.
Qed.

(** ** Reading it back *)

Lemma terminated_cons s data : no_nul s -> terminated (s ++ nul :: data) = s :: terminated data.
Proof.
  intros Hs. unfold terminated. rewrite split_on_app by (done || by apply bool_decide_eq_true).
  cbn [removelast]. destruct (split_on (is_byte nul) data) eqn:E; [by apply split_on_not_nil in E|done].
Qed.
Lemma terminated_strings ss data :
  Forall no_nul ss -> terminated ((ss ≫= fun s => s ++ [nul]) ++ data) = ss ++ terminated data.
Proof.
  intros H. induction H as [|s ss Hs _ IH]; [done|]. cbn [mbind list_bind]. rewrite <- !app_assoc. cbn [app].
  by rewrite terminated_cons, IH.
Qed.

Lemma take_n_app {A} (l k : list A) : take_n (N.of_nat (length l)) (l ++ k) = l.
Proof. by rewrite take_n_take, Nat2N.id, take_app_length. Qed.

Lemma print_ints_cons w z zs : print_ints w (z :: zs) = be_bytes (N.to_nat w / 8) (as_unsigned w z) ++ print_ints w zs.
Proof. done. Qed.

Lemma int16s_print zs data : Forall (in_width 16) zs -> int16s (print_ints 16 zs ++ data) = zs ++ int16s data.
Proof.
  intros H. induction H as [|z zs Hz _ IH]; [done|]. rewrite print_ints_cons, <- app_assoc. change (N.to_nat 16 / 8) with 2. pose proof (as_signed_unsigned 16 z ltac:(done) Hz) as Es.
  pose proof (from_be_be 2 (as_unsigned 16 z)) as Eb. rewrite N.mod_small in Eb by apply (as_unsigned_lt 16).
  pose proof (be_bytes_length 2 (as_unsigned 16 z)). destruct (be_bytes 2 _) as [|a [|b [|]]]; try done.
  cbn [app int16s]. by rewrite Eb, Es, IH.
Qed.
Lemma int32s_print zs data : Forall (in_width 32) zs -> int32s (print_ints 32 zs ++ data) = zs ++ int32s data.
Proof.
  intros H. induction H as [|z zs Hz _ IH]; [done|]. rewrite print_ints_cons, <- app_assoc. change (N.to_nat 32 / 8) with 4. pose proof (as_signed_unsigned 32 z ltac:(done) Hz) as Es.
  pose proof (from_be_be 4 (as_unsigned 32 z)) as Eb. rewrite N.mod_small in Eb by apply (as_unsigned_lt 32).
  pose proof (be_bytes_length 4 (as_unsigned 32 z)). destruct (be_bytes 4 _) as [|a [|b [|c [|d [|]]]]]; try done.
  cbn [app int32s]. by rewrite Eb, Es, IH.
Qed.

Definition field_of (v : value) (rest : bytes) : field :=
  mk_field (value_type v) (N.of_nat (value_count v)) (print_value v ++ rest).

Lemma field_reads hd tag v rest : value_ok v -> hd !! tag = Some (field_of v rest) -> reads hd tag v.
Proof.
  intros Hv Hl. destruct v as [s|ss|zs|zs]; cbn [reads value_ok] in *.
  - unfold string, bytes_array. rewrite Hl. cbn [field_of hf_ty hf_data value_type print_value mbind option_bind].
    rewrite bool_decide_true by done. cbn [negb andb]. rewrite <- app_assoc. cbn [app].
    rewrite position_app by (done || by apply bool_decide_eq_true). cbn [default from_option id].
    rewrite take_app_length, terminated_cons by done. split; [done|]. apply (take_n_app [s]).
  - assert (Eb : bytes_array hd tag = ss).
    { unfold bytes_array. rewrite Hl. cbn [field_of hf_ty hf_data hf_count value_type print_value value_count].
      rewrite bool_decide_false, bool_decide_true by done. cbn [orb]. by rewrite terminated_strings, take_n_app. }
    split; [done|]. unfold string_array. rewrite Hl, Eb. done.
  - unfold int_array. rewrite Hl. cbn [field_of hf_ty hf_data hf_count value_type print_value value_count].
    rewrite bool_decide_true by done. by rewrite int16s_print, take_n_app.
  - unfold int_array. rewrite Hl. cbn [field_of hf_ty hf_data hf_count value_type print_value value_count].
    rewrite bool_decide_false, bool_decide_true by done. by rewrite int32s_print, take_n_app.
Qed.

Lemma print_ints_length w zs : (8 <= w)%N -> length zs <= length (print_ints w zs).
Proof.
  intros Hw. assert (1 <= N.to_nat w / 8) by (apply Nat.div_le_lower_bound; lia).
  induction zs as [|z zs IH]; [done|]. rewrite print_ints_cons, length_app, be_bytes_length. cbn [length]. lia.
Qed.
Lemma value_count_le v : value_count v <= length (print_value v).
Proof.
  destruct v as [s|ss|zs|zs]; cbn [value_count print_value]; [rewrite length_app; cbn; lia| |by apply print_ints_length..].
  induction ss as [|s ss IH]; [done|]. change ((s :: ss) ≫= _) with ((s ++ [nul]) ++ (ss ≫= fun s => s ++ [nul])).
  rewrite !length_app. cbn [length]. lia.
Qed.

Lemma read_index_entry (blob store pre post : bytes) (tag ty offset count : N) (fields : header) (k : nat) :
  (tag < 2 ^ 32)%N -> (ty < 2 ^ 32)%N -> (offset < 2 ^ 31)%N -> (count < 2 ^ 32)%N ->
  length pre = 8 + k * 16 ->
  blob = pre ++ be_bytes 4 tag ++ be_bytes 4 ty ++ be_bytes 4 offset ++ be_bytes 4 count ++ post ->
  tag ∉ [TAG_HEADERIMAGE; TAG_HEADERSIGNATURES; TAG_HEADERIMMUTABLE] ->
  (offset <= N.of_nat (length store))%N ->
  index_entry blob store fields k = Some (<[tag := mk_field ty count (drop (N.to_nat offset) store)]> fields).
Proof.
  intros Ht Hty Ho Hc Hpre -> Htag Hlen. unfold index_entry. cbv zeta. rewrite <- Hpre.
  rewrite (be32_at pre tag) by done. rewrite (be32_at' pre (be_bytes 4 tag) ty _ (length pre + 4)) by (done || by rewrite be_bytes_length).
  rewrite (app_assoc (be_bytes 4 tag)), (be32_at' pre (be_bytes 4 tag ++ be_bytes 4 ty) offset _ (length pre + 8))
    by (lia || by rewrite length_app, !be_bytes_length).
  rewrite (app_assoc (be_bytes 4 tag ++ _)),
    (be32_at' pre ((be_bytes 4 tag ++ be_bytes 4 ty) ++ be_bytes 4 offset) count _ (length pre + 12))
    by (lia || by rewrite !length_app, !be_bytes_length).
  cbn [mbind option_bind fmap option_fmap option_map].
  rewrite bool_decide_false by done.
  assert (Es : as_signed 32 offset = Z.of_N offset).
  { unfold as_signed. change (2 ^ (32 - 1))%N with (2 ^ 31)%N. by apply N.ltb_lt in Ho as ->. }
  rewrite Es. destruct (Z.ltb_spec (Z.of_N offset) 0); [lia|]. destruct (Z.ltb_spec (Z.of_nat (length store)) (Z.of_N offset)); [lia|].
  cbn [orb]. do 4 f_equal. lia.
Qed.

Lemma read_index (blob store : bytes) (es : list (N * value)) : forall (k : nat) (pre post spre spost : bytes) (fields : header),
  Forall entry_ok es -> NoDup (fst <$> es) -> length pre = 8 + k * 16 ->
  blob = pre ++ print_index (length spre) es ++ post -> store = spre ++ print_store es ++ spost ->
  (N.of_nat (length store) < 2 ^ 31)%N ->
  exists hd, index_entries blob store fields (seq k (length es)) = Some hd /\
    (forall tag v, (tag, v) ∈ es -> exists rest, hd !! tag = Some (field_of v rest)) /\
    (forall tag, tag ∉ fst <$> es -> hd !! tag = fields !! tag).
Proof.
  induction es as [|[tag v] es IH]; intros k pre post spre spost fields Hes Hnd Hpre Hblob Hstore Hlen.
  - exists fields. split; [done|]. split; [by intros tag v []%elem_of_nil|done].
  - apply Forall_cons in Hes as [(Htag & Hregion & Hv) Hes]. rewrite fmap_cons in Hnd. apply NoDup_cons in Hnd as [Hout Hnd].
    change ((tag, v).1) with tag in *. change ((tag, v).2) with v in *.
    change (print_store ((tag, v) :: es)) with (print_value v ++ print_store es) in Hstore.
    pose proof (value_count_le v) as Hcount. assert (length spre + length (print_value v) <= length store) as Hfits.
    { rewrite Hstore, !length_app. lia. }
    cbn [length seq index_entries].
    rewrite (read_index_entry blob store pre (print_index (length spre + length (print_value v)) es ++ post) tag
      (value_type v) (N.of_nat (length spre)) (N.of_nat (value_count v)) fields k); [|done| |lia..|done| |done|lia].
    2: by destruct v.
    2: by rewrite Hblob.
    assert (Edrop : drop (length spre) store = print_value v ++ print_store es ++ spost).
    { by rewrite Hstore, drop_app_length, <- app_assoc. }
    cbn [mbind option_bind]. rewrite Nat2N.id, Edrop.
    change (mk_field _ _ _) with (field_of v (print_store es ++ spost)).
    destruct (IH (S k) (pre ++ be_bytes 4 tag ++ be_bytes 4 (value_type v) ++ be_bytes 4 (N.of_nat (length spre)) ++
        be_bytes 4 (N.of_nat (value_count v))) post (spre ++ print_value v) spost
      (<[tag := field_of v (print_store es ++ spost)]> fields)) as (hd & Hr & Hin & Hkeep); try done.
    + rewrite !length_app, !be_bytes_length. lia.
    + rewrite Hblob, length_app. cbn [print_index]. by rewrite <- !app_assoc.
    + by rewrite Hstore, <- !app_assoc.
    + exists hd. split; [done|]. split.
      * intros tag' v' [[= -> ->]|Hin']%elem_of_cons; [|by apply Hin]. exists (print_store es ++ spost).
        rewrite Hkeep by done. apply lookup_insert_eq.
      * intros tag' Hn. rewrite fmap_cons in Hn. apply not_elem_of_cons in Hn as [Hne Hout']. rewrite Hkeep by done. by apply lookup_insert_ne.
Qed.

Lemma print_index_length offset es : length (print_index offset es) = 16 * length es.
Proof.
  revert offset. induction es as [|[tag v] es IH]; intros offset; [done|]. cbn [print_index length].
  rewrite !length_app, !be_bytes_length, IH. lia.
Qed.

Lemma no_magic n l : (n <= MAX_INDEX_ENTRIES)%N -> strip_prefix MAGIC (be_bytes 4 n ++ l) = None.
Proof.
  intros Hn. assert (Hz : (n / 256 / 256 / 256 = 0)%N).
  { rewrite !N.Div0.div_div. apply N.div_small. change MAX_INDEX_ENTRIES with 1048576%N in Hn. lia. }
  cbn [be_bytes app]. rewrite Hz. done.
Qed.

Lemma parse_print es rest :
  header_ok es ->
  exists hd, parse (print_header es ++ rest) = Some hd /\
    (forall tag v, (tag, v) ∈ es -> exists rest, hd !! tag = Some (field_of v rest)) /\
    (forall tag, tag ∉ fst <$> es -> hd !! tag = None).
Proof.
  intros [Hnd Hes Hil Hdl]. unfold parse, print_header. rewrite <- !app_assoc, no_magic by done. cbn [mbind option_bind].
  set (ilb := be_bytes 4 _). set (dlb := be_bytes 4 _). set (ix := print_index 0 es). set (st := print_store es) in *.
  assert (Eil : be32 (ilb ++ dlb ++ ix ++ st ++ rest) 0 = Some (N.of_nat (length es))).
  { apply (be32_at []). change MAX_INDEX_ENTRIES with 1048576%N in Hil. lia. }
  assert (Edl : be32 (ilb ++ dlb ++ ix ++ st ++ rest) 4 = Some (N.of_nat (length st))).
  { apply (be32_at' [] ilb); [|unfold ilb; by rewrite be_bytes_length]. change MAX_STORE with 268435456%N in Hdl. lia. }
  rewrite Eil, Edl. cbn [mbind option_bind]. 
  rewrite (proj2 (N.ltb_ge _ _) Hil), (proj2 (N.ltb_ge _ _) Hdl). cbn [orb].
  assert (length ilb = 4 /\ length dlb = 4 /\ length ix = 16 * length es) as [Hi [Hd Hx]].
  { unfold ilb, dlb, ix. by rewrite !be_bytes_length, print_index_length. }
  change MAX_INDEX_ENTRIES with 1048576%N in Hil. change MAX_STORE with 268435456%N in Hdl. unfold checked, U64_MAX.
  assert (forall n, (n < 2 ^ 63)%N -> (n <=? 2 ^ 64 - 1)%N = true) as Hck by (intros n Hn; apply N.leb_le; lia).
  rewrite !Hck by lia. cbn [mbind option_bind]. rewrite !Hck by lia. cbn [mbind option_bind].
  rewrite Hck by lia. cbn [mbind option_bind].
  destruct (N.ltb_spec (N.of_nat (length (ilb ++ dlb ++ ix ++ st ++ rest))) (8 + N.of_nat (length es) * 16 + N.of_nat (length st)))
    as [Hlt|_]; [rewrite !length_app in Hlt; lia|].
  assert (Est : take (N.to_nat (N.of_nat (length st))) (drop (N.to_nat (8 + N.of_nat (length es) * 16)) (ilb ++ dlb ++ ix ++ st ++ rest)) = st).
  { rewrite Nat2N.id, !app_assoc, <- (app_assoc _ st). rewrite drop_app_length' by (rewrite !length_app; lia).
    by rewrite take_app_length. }
  rewrite Est. rewrite Nat2N.id.
  destruct (read_index (ilb ++ dlb ++ ix ++ st ++ rest) st es 0 (ilb ++ dlb) (st ++ rest) [] [] ∅) as (hd & Hr & Hin & Hkeep);
    try done.
  - cbn [app]. by rewrite app_nil_r.
  - lia.
  - exists hd. split; [done|]. split; [done|]. intros tag Ht. rewrite Hkeep by done. apply lookup_empty.
Qed.

(** A header written the way rpm writes one is read back, whatever
    follows it and with or without the lead of a package file: every tag's
    strings, empty ones among them, and its numbers with their signs are what
    they were, and a tag that was not written is absent. *)
Theorem header_round_trip (es : list (N * value)) (lead rest : bytes) :
  header_ok es -> lead = [] \/ (exists reserved, length reserved = 4 /\ lead = MAGIC ++ reserved) ->
  exists hd, parse (lead ++ print_header es ++ rest) = Some hd /\
    (forall tag v, (tag, v) ∈ es -> reads hd tag v) /\ (forall tag, tag ∉ fst <$> es -> hd !! tag = None).
Proof.
  intros Hok Hlead. destruct (parse_print es rest Hok) as (hd & Hp & Hin & Hout). exists hd. split; [|split; [|done]].
  - destruct Hlead as [->|(reserved & Hlen & ->)]; [done|]. unfold parse in Hp |- *.
    unfold print_header in Hp. rewrite <- !app_assoc, no_magic in Hp by apply Hok. cbn [mbind option_bind] in Hp.
    unfold print_header. rewrite <- !app_assoc, strip_prefix_app. unfold get_from. rewrite length_app.
    destruct (Nat.leb_spec 4 (length reserved + length (be_bytes 4 (N.of_nat (length es)) ++
      be_bytes 4 (N.of_nat (length (print_store es))) ++ print_index 0 es ++ print_store es ++ rest))); [|lia].
    rewrite drop_app_length' by done. exact Hp.
  - intros tag v Hv. destruct (Hin tag v Hv) as [more Hl]. apply (field_reads hd tag v more); [|done].
    pose proof (ho_entries _ Hok) as He. rewrite Forall_forall in He. by apply (He (tag, v)).
Qed.

(** ** Witnesses *)

Module RpmDemo.
#[local] Instance digests : Digests := {| sha256_hex := hex; md5_hex := hex; sha1_hex := hex |}.
#[local] Instance strerror : Strerror := fun _ => #"error".
(** An image of a hundred bytes and one row. *)
#[local] Instance one_row : Sqlite := fun image _ => Ok [Some (drop SQLITE_HEADER image)].

Definition package : list (N * value) :=
  [(TAG_NAME, Text #"filesystem"); (TAG_VERSION, Text #"3.18"); (TAG_RELEASE, Text #"36.fc44"); (TAG_EPOCH, Longs [2%Z]);
   (TAG_ARCH, Text #"x86_64"); (TAG_FILEMODES, Shorts [16749; -32275; -32275; -24065; -32275]%Z);
   (TAG_FILEDIGESTS, Strings [[]; hex #"shipped"; hex #"conf"; []; []]);
   (TAG_FILELINKTOS, Strings [[]; []; []; #"bash"; []]); (TAG_FILEFLAGS, Longs [0; 0; 1; 0; 64]%Z);
   (TAG_DIRINDEXES, Longs [0; 1; 2; 1; 1]%Z); (TAG_BASENAMES, Strings [[]; #"ls"; #"conf"; #"sh"; #"java"]);
   (TAG_DIRNAMES, Strings [ #"/"; #"/usr/bin/"; #"/etc/"]); (TAG_FILEDIGESTALGO, Longs [8%Z])].

Definition file (p : path) (b : bytes) : path * Tree.node := (p, Tree.File 0 0x1ED b).
Definition dir (p : path) : path * Tree.node := (p, Tree.Dir 0 0x1ED).
Definition image : bytes := replicate SQLITE_HEADER x00 ++ print_header package.
Definition dirs : Tree.tree := [dir #"usr"; dir #"usr/lib"; dir #"usr/lib/sysimage"; dir #"usr/lib/sysimage/rpm"; dir #"usr/bin"; dir #"etc"].
Definition host : Tree.tree :=
  dirs ++
  [file #"usr/lib/sysimage/rpm/rpmdb.sqlite" image; file #"usr/bin/ls" #"shipped"; file #"etc/conf" #"local";
   ( #"usr/bin/sh", Tree.Link 0 #"bash"); file #"usr/bin/java" #"x"].
Definition wanted : pset := ps_of [ #"usr/bin/ls"; #"etc/conf"; #"usr/bin/sh"; #"usr/bin/java"; #"usr/bin/stranger"].
Definition integrities (t : Tree.tree) (w : pset) : option (list (option integrity)) :=
  match run (Tree.kernel t) (resolve Tree.offline w) with
  | Database.Complete out =>
      Some ((fun p => match pm_get out p with Some (Provenance.Packaged _ _ i) => Some i | _ => None end) <$> ps_list w)
  | _ => None
  end.
End RpmDemo.

(** The path with the empty basename keeps its place, so the others keep
    their directories. *)
Example rpm_files_demo :
  (fun hd => ((fun f => (fl_path f, fl_flags f)) <$> files_of hd, nevr hd)) <$> parse (print_header RpmDemo.package) =
  Some ([([], 0); ( #"usr/bin/ls", 0); ( #"etc/conf", 1); ( #"usr/bin/sh", 0); ( #"usr/bin/java", 64)]%N,
        #"2:3.18-36.fc44.x86_64").
Proof. by vm_compute. Qed.

Example rpm_demo :
  (ps_list RpmDemo.wanted, RpmDemo.integrities RpmDemo.host RpmDemo.wanted) =
  ([ #"etc/conf"; #"usr/bin/java"; #"usr/bin/ls"; #"usr/bin/sh"; #"usr/bin/stranger"],
   Some [Some Integrity.ConffileModified; Some Integrity.Unknown; Some Integrity.Intact; Some Integrity.Intact; None]).
Proof. by vm_compute. Qed.

#[local] Instance value_ok_dec v : Decision (value_ok v).
Proof. destruct v; unfold value_ok, no_nul, in_width; apply _. Defined.
#[local] Instance entry_ok_dec e : Decision (entry_ok e).
Proof. unfold entry_ok. apply _. Defined.

Lemma rpm_package_ok : header_ok RpmDemo.package.
Proof.
  split; [apply (bool_decide_unpack _); by vm_compute..|by vm_compute|by vm_compute].
Qed.

Lemma header_round_trip_witness :
  exists hd, parse (print_header RpmDemo.package ++ #"more") = Some hd /\ int_array hd TAG_FILEMODES = [16749; -32275; -32275; -24065; -32275]%Z.
Proof.
  destruct (header_round_trip RpmDemo.package [] #"more" rpm_package_ok (or_introl eq_refl)) as (hd & Hp & Hr & _).
  exists hd. split; [exact Hp|]. apply (Hr TAG_FILEMODES (Shorts [16749; -32275; -32275; -24065; -32275]%Z)).
  unfold RpmDemo.package. do 5 right. left.
Defined.

Module RpmSmall.
Definition package : list (N * value) :=
  [(TAG_NAME, Text #"a"); (TAG_BASENAMES, Strings [ #"sh"]); (TAG_DIRNAMES, Strings [ #"/"]);
   (TAG_DIRINDEXES, Longs [0%Z]); (TAG_FILELINKTOS, Strings [[xfe]])].
Definition host : Tree.tree :=
  RpmDemo.dirs ++ [RpmDemo.file #"usr/lib/sysimage/rpm/rpmdb.sqlite" (replicate SQLITE_HEADER x00 ++ print_header package);
   ( #"sh", Tree.Link 0 [xff])].
Definition kernel : snapshot := Tree.kernel host.
Definition wanted : pset := ps_of [ #"sh"].
Definition out : answers := pm_insert #"sh" (Provenance.Packaged #"a" #"-" Integrity.Intact) pm_empty.
End RpmSmall.

(** The package shipped a link to one byte, the link on the disk is to
    another, and neither byte is text: the comparison is made after both have
    become the replacement character, and the link is called intact. *)
Theorem lossy_link_intact :
  run RpmSmall.kernel (resolve (H := RpmDemo.digests) (H0 := RpmDemo.strerror) (H1 := RpmDemo.one_row) Tree.offline RpmSmall.wanted)
    = Database.Complete RpmSmall.out /\
  run RpmSmall.kernel (read_link Tree.offline #"sh") = Ok [xff] /\
  (fun hd => bytes_array hd TAG_FILELINKTOS) <$> parse (print_header RpmSmall.package) = Some [[xfe]].
Proof. by vm_compute. Qed.

Lemma rpm_small :
  run RpmSmall.kernel (resolve (H := RpmDemo.digests) (H0 := RpmDemo.strerror) (H1 := RpmDemo.one_row) Tree.offline RpmSmall.wanted)
    = Database.Complete RpmSmall.out.
Proof. by vm_compute. Qed.

Lemma rpm_complete_witness :
  exists rows hs, database_rows (H1 := RpmDemo.one_row) RpmSmall.kernel Tree.offline rows /\
    Forall2 (fun row hd => exists b, row = Some b /\ parse b = Some hd) rows hs.
Proof.
  destruct (@rpm_complete RpmDemo.digests RpmDemo.strerror RpmDemo.one_row RpmSmall.kernel Tree.offline RpmSmall.wanted
    RpmSmall.out (ps_of_ok _) rpm_small) as (rows & hs & Hr & Hp & _).
  exists rows, hs. split; [exact Hr|exact Hp].
Defined.

Lemma rpm_small_intact :
  pm_get (outcome_answers (run RpmSmall.kernel
    (total (resolve (H := RpmDemo.digests) (H0 := RpmDemo.strerror) (H1 := RpmDemo.one_row)) Tree.offline RpmSmall.wanted))) #"sh" =
  Some (Provenance.Packaged #"a" #"-" Integrity.Intact).
Proof. by vm_compute. Qed.
Lemma rpm_small_wanted : #"sh" ∈ ps_list RpmSmall.wanted.
Proof. apply (bool_decide_unpack _). by vm_compute. Qed.

Lemma rpm_intact_witness :
  exists rows, database_rows (H1 := RpmDemo.one_row) RpmSmall.kernel Tree.offline rows.
Proof.
  destruct (@rpm_intact RpmDemo.digests RpmDemo.strerror RpmDemo.one_row RpmSmall.kernel Tree.offline RpmSmall.wanted
    #"sh" #"a" #"-" (ps_of_ok _) rpm_small_wanted rpm_small_intact) as (rows & _ & _ & Hr & _).
  exists rows. exact Hr.
Defined.
