(* ===== verification/Dpkg.v ===== *)
(** [src/provenance/dpkg.rs]: the dpkg backend. File lists say which package
    owns a path, the status file its version and conffiles, the md5sums what
    it shipped, and the diversions where a listed file really is. *)

From S2P Require Import Prelude Slices Order Num Utf8 Paths PathMap Kinds Entry Sys Root Tree Scan Provenance Backend.

Definition INFO : path := #"var/lib/dpkg/info".
Definition STATUS : path := #"var/lib/dpkg/status".
Definition DIVERSIONS : path := #"var/lib/dpkg/diversions".
Definition STATOVERRIDE : path := #"var/lib/dpkg/statoverride".
Definition DB_CAP : N := N.shiftl 64 20.
Definition LIST_CAP : N := N.shiftl 1 20.
Definition MAINTAINER_SCRIPTS : list bytes :=
  [ #"preinst"; #"postinst"; #"prerm"; #"postrm"; #"config"; #"triggers"].

Definition present (r : root) : prog bool := exists_ r STATUS.

(** ** Change times *)

(** In nanoseconds. *)
Definition INSTALL_WINDOW : Z := 120 * 1000000000.

(** [SystemTime::duration_since]: an error when the other is later. *)
Definition duration_since (t u : system_time) : option Z := if bool_decide (u <= t)%Z then Some (t - u)%Z else None.

Definition changed_after_install (file list : system_time) : option Z :=
  after ← duration_since file list; if bool_decide (INSTALL_WINDOW < after)%Z then Some after else None.

Definition list_time (r : root) (name : bytes) : prog (option system_time) :=
  m ← stat r (path_join INFO name); Ret (m ← ok m; m_ctime m).

Definition dot_list : bytes := #".list".

Definition list_written (r : root) (package : bytes) : prog (option (bytes * system_time)) :=
  let exact := package ++ dot_list in
  t ← list_time r exact;
  match t with
  | Some t => Ret (Some (exact, t))
  | None =>
      ents ← read_dir_optional r INFO;
      match ok ents with
      | None => Ret None
      | Some ents =>
          let names := from_utf8_lossy ∘ de_name <$> ents in
          match find (fun n => starts_with (package ++ #":") n && ends_with dot_list n) names with
          | None => Ret None
          | Some found => t ← list_time r found; Ret ((fun t => (found, t)) <$> t)
          end
      end
  end.

(** The loop over a list's lines: [None] while it goes on. *)
Fixpoint touched_from (r : root) (listed : system_time) (window : Z) (lines : list bytes) (sampled : nat) : prog bool :=
  match lines with
  | [] => Ret (bool_decide (0 < sampled))
  | line :: lines' =>
      m ← stat r (drop 1 line);
      match m with
      | Err _ => touched_from r listed window lines' sampled
      | Ok m =>
          if negb (m_is_file m) then touched_from r listed window lines' sampled
          else
            match m_ctime m with
            | None => touched_from r listed window lines' sampled
            | Some ctime =>
                if match duration_since listed ctime with Some newer => bool_decide (window < newer)%Z | None => false end
                then
                  if bool_decide (sampled + 1 = 64) then Ret true
                  else touched_from r listed window lines' (sampled + 1)
                else Ret false
            end
      end
  end.

Definition list_touched_by (r : root) (list_ : bytes) (listed : system_time) (window : Z) : prog bool :=
  x ← Root.read_capped r (path_join INFO list_) LIST_CAP;
  match x with
  | Err _ => Ret false
  | Ok (b, _) =>
      let absolute := fun l => starts_with [slash] l && bool_decide (1 < length l) in
      touched_from r listed window (List.filter absolute (split_on (is_byte x0a) b)) 0
  end.
Definition list_touched (r : root) (list_ : bytes) (listed : system_time) : prog bool :=
  list_touched_by r list_ listed INSTALL_WINDOW.

Definition statoverridden (r : root) (p : path) : prog bool :=
  let want := slash :: display_path p in
  x ← Root.read_capped r STATOVERRIDE LIST_CAP;
  Ret match x with
      | Ok (b, _) =>
          existsb (fun l => bool_decide (split_whitespace l !! 3 = Some want)) (lines (from_utf8_lossy b))
      | Err _ => false
      end.

(** ** Names *)

Definition colon : byte := ":".
Definition newline : byte := x0a.
Definition base_name (pkg : bytes) : bytes := default pkg (head (split_on (is_byte colon) pkg)).

Definition strip_slash_str (s : bytes) : bytes := default s (strip_prefix [slash] s).
Definition strip_slash (line : bytes) : bytes := strip_slash_str (strip_cr line).

(** The paths a file list names. *)
Definition listed_paths (b : bytes) : list path :=
  from_utf8_lossy <$> List.filter (fun l => negb (bool_decide (l = []))) (strip_slash <$> split_on (is_byte newline) b).

Definition in_info (name : bytes) : path := INFO ++ #"/" ++ name.

Definition packaged_files (r : root) : prog pset :=
  here ← present r;
  if negb here then Ret pm_empty
  else
    ents ← read_dir_optional r INFO;
    fold_prog (fun out ent =>
      let name := from_utf8_lossy (de_name ent) in
      if negb (ends_with dot_list name) then Ret out
      else
        x ← Root.read_capped r (in_info name) DB_CAP;
        Ret match x with
            | Ok (b, _) => foldl (fun out p => ps_insert p out) out (listed_paths b)
            | Err _ => out
            end) pm_empty (default [] (ok ents)).

(** ** The status file *)

Record pkg_info := mk_pkg_info { pi_version : bytes; pi_conffiles : gmap bytes bytes }.
Definition no_info : pkg_info := mk_pkg_info [] ∅.

Record status_state := mk_status_state {
  ss_package : bytes; ss_arch : bytes; ss_info : pkg_info; ss_in_conffiles : bool; ss_out : gmap bytes pkg_info
}.

Definition qualified (package arch : bytes) : bytes := package ++ [colon] ++ arch.
Definition put_if (needed : gset bytes) (key : bytes) (info : pkg_info) (out : gmap bytes pkg_info) : gmap bytes pkg_info :=
  if bool_decide (key ∈ needed) then <[key := info]> out else out.

(** What was gathered of a stanza without a [Package] is not let go. *)
Definition flush (needed : gset bytes) (st : status_state) : status_state :=
  if bool_decide (ss_package st = []) then st
  else
    mk_status_state [] [] no_info (ss_in_conffiles st)
      (put_if needed (qualified (ss_package st) (ss_arch st)) (ss_info st)
         (put_if needed (ss_package st) (ss_info st) (ss_out st))).

Definition is_blank (c : byte) : bool := bool_decide (c = x20) || bool_decide (c = x09).

Definition status_line (needed : gset bytes) (st : status_state) (line : bytes) : status_state :=
  let '(mk_status_state package arch info in_conffiles out) := st in
  match line with
  | [] =>
      let st := flush needed st in
      mk_status_state (ss_package st) (ss_arch st) (ss_info st) false (ss_out st)
  | c :: _ =>
      if is_blank c then
        if in_conffiles then
          match split_whitespace line with
          | p :: digest :: _ =>
              mk_status_state package arch
                (mk_pkg_info (pi_version info) (<[strip_slash_str p := digest]> (pi_conffiles info))) in_conffiles out
          | _ => st
          end
        else st
      else
        match split_once [colon] line with
        | None => mk_status_state package arch info false out
        | Some (key, value) =>
            let value := trim value in
            if bool_decide (key = #"Package") then mk_status_state value arch info false out
            else if bool_decide (key = #"Architecture") then mk_status_state package value info false out
            else if bool_decide (key = #"Version") then
              mk_status_state package arch (mk_pkg_info value (pi_conffiles info)) false out
            else if bool_decide (key = #"Conffiles") then mk_status_state package arch info true out
            else mk_status_state package arch info false out
        end
  end.

Definition parse_status (needed : gset bytes) (text : bytes) : gmap bytes pkg_info :=
  ss_out (flush needed (foldl (status_line needed) (mk_status_state [] [] no_info false ∅) (lines text))).

(** ** Diversions *)

Notation diversions_map := (pmap (path * bytes)).

(** Three lines a record; what is short of three is dropped. *)
Definition diversion_of (c : list bytes) : option (path * (path * bytes)) :=
  match c with
  | [from; to; by_] => Some (strip_slash_str from, (strip_slash_str to, by_))
  | _ => None
  end.

(** [collect()] into a map: of two records for a path the last is kept. *)
Definition pm_collect {V} (l : list (path * V)) : pmap V :=
  foldl (fun (m : pmap V) pv => <[components pv.1 := pv]> m) pm_empty l.

Definition parse_diversions (text : bytes) : diversions_map :=
  pm_collect (omap diversion_of (chunks 3 (lines text))).

Definition diversions (r : root) : prog diversions_map :=
  x ← Root.read_capped r DIVERSIONS DB_CAP;
  Ret match x with Ok (b, _) => parse_diversions (from_utf8_lossy b) | Err _ => pm_empty end.

(** ** One file against its package *)

Section verifying.
Context `{Digests}.

(** The md5sums line, if it names one of the spellings. *)
Definition md5sums_line (aliases : list bytes) (line : bytes) : option bytes :=
  let cs := chars (from_utf8_lossy line) in
  i ← position is_whitespace cs;
  let listed := strip_slash_str (trim (utf8_encode (drop (i + 1) cs))) in
  if bool_decide (listed ∈ aliases) then Some (utf8_encode (take i cs)) else None.

Definition shipped_digest (r : root) (pkg : bytes) (p : path) : prog (option bytes) :=
  x ← Root.read_capped r (in_info (pkg ++ #".md5sums")) DB_CAP;
  match x with
  | Err _ => Ret None
  | Ok (b, _) =>
      ss ← spellings r p;
      Ret (head (omap (md5sums_line (from_utf8_lossy <$> ss)) (split_on (is_byte newline) b)))
  end.

Definition conffile (r : root) (info : pkg_info) (p : path) : prog (option bytes) :=
  ss ← spellings r p; Ret (head (omap (fun s => pi_conffiles info !! from_utf8_lossy s) ss)).

Definition link_by_change_time (r : root) (link : path) (pkg : bytes) : prog integrity :=
  if negb (is_live r) then Ret Integrity.Unknown
  else
    m ← stat r link;
    w ← list_written r pkg;
    Ret match m, w with
        | Ok m, Some (_, installed) =>
            match m_ctime m with
            | Some changed =>
                match changed_after_install changed installed with
                | Some _ => Integrity.Modified
                | None => Integrity.Intact
                end
            | None => Integrity.Unknown
            end
        | _, _ => Integrity.Unknown
        end.

Definition against (expected : bytes) (actual : file_digests) (otherwise : integrity) : integrity :=
  if eq_ignore_ascii_case expected (fd_md5 actual) then Integrity.Intact else otherwise.

(** Where a link leads, in the root's own terms. *)
Definition link_target (r : root) (p target : path) : path :=
  if is_absolute target then rel r target
  else match parent p with Some d => rel r (path_join d target) | None => rel r target end.

(** A link: what it leads to, or when it changed. *)
Definition verify_link (r : root) (p : path) (pkg : bytes) (info : pkg_info) (actual : option file_digests)
    : prog integrity :=
  target ← read_link r p;
  match target, actual with
  | Ok target, Some actual =>
      let resolved := link_target r p target in
      c ← conffile r info resolved;
      match c with
      | Some expected => Ret (against expected actual Integrity.ConffileModified)
      | None =>
          s ← shipped_digest r pkg resolved;
          match s with
          | Some expected => Ret (against expected actual Integrity.Modified)
          | None => link_by_change_time r p pkg
          end
      end
  | _, _ => link_by_change_time r p pkg
  end.

Definition verify (r : root) (p listed : path) (pkg : bytes) (info : pkg_info) : prog integrity :=
  actual ← digests r p;
  c ← conffile r info listed;
  match c, actual with
  | Some expected, Some actual => Ret (against expected actual Integrity.ConffileModified)
  | _, _ =>
      m ← stat r p;
      if match m with Ok m => m_is_symlink m | Err _ => false end then verify_link r p pkg info actual
      else
        match actual with
        | None => Ret Integrity.Unknown
        | Some actual =>
            s ← shipped_digest r pkg listed;
            Ret match s with Some expected => against expected actual Integrity.Modified | None => Integrity.Unknown end
        end
  end.

(** ** The backend *)

Notation owners := (pmap (list (bytes * path))).

(** A maintainer script is its package's. *)
Definition script_owner (w : path) : option bytes :=
  name ← path_strip_prefix INFO w;
  '(stem, ext) ← rsplit_once #"." (from_utf8_lossy name);
  if bool_decide (ext ∈ MAINTAINER_SCRIPTS) && negb (bool_decide (stem = [])) then Some stem else None.

Definition add_script (owner : owners) (w : path) : owners :=
  match script_owner w with
  | Some stem => pm_update [] (fun cs => cs ++ [(stem, w)]) w owner
  | None => owner
  end.

(** Where the file a package lists is: elsewhere, if another diverted it. *)
Definition on_disk (diverted : diversions_map) (pkg : bytes) (listed : path) : path :=
  match pm_get diverted listed with
  | Some (to, by_) => if bool_decide (by_ = base_name pkg) then listed else to
  | None => listed
  end.

Definition add_claim (pkg : bytes) (listed : path) (cs : list (bytes * path)) : list (bytes * path) :=
  if existsb (fun c => bool_decide (fst c = pkg)) cs then cs else cs ++ [(pkg, listed)].

Definition claim_path (aliases : pmap (list path)) (diverted : diversions_map) (pkg : bytes) (owner : owners) (listed : path)
    : owners :=
  match pm_get aliases (on_disk diverted pkg listed) with
  | Some ws => foldl (fun owner w => pm_update [] (add_claim pkg listed) w owner) owner ws
  | None => owner
  end.

Context `{Strerror}.

(** One file list, and what was not read of it. *)
Definition read_list (r : root) (aliases : pmap (list path)) (diverted : diversions_map)
    (st : owners * list bytes) (ent : dir_ent) : prog (owners * list bytes) :=
  let '(owner, gaps) := st in
  let name := from_utf8_lossy (de_name ent) in
  match strip_suffix dot_list name with
  | None => Ret st
  | Some pkg =>
      x ← Root.read_capped r (in_info name) DB_CAP;
      Ret match x with
          | Ok (b, cut) =>
              (foldl (claim_path aliases diverted pkg) owner (listed_paths b),
               if cut : bool then gaps ++ [in_info name ++ #" is larger than the read cap"] else gaps)
          | Err e => (owner, gaps ++ [in_info name ++ #" could not be read: " ++ display_error e])
          end
  end.

Definition read_status (r : root) (needed : gset bytes) : prog (gmap bytes pkg_info * option bytes) :=
  x ← Root.read_capped r STATUS DB_CAP;
  Ret match x with
      | Ok (b, cut) =>
          (parse_status needed (from_utf8_lossy b),
           if cut : bool then Some (STATUS ++ #" is larger than the read cap") else None)
      | Err e => (∅, Some (STATUS ++ #" could not be read: " ++ display_error e))
      end.

Definition verdict_of (r : root) (status : gmap bytes pkg_info) (p : path) (claim : bytes * path) : prog (option provenance) :=
  match status !! claim.1 with
  | None => Ret None
  | Some info =>
      i ← verify r p claim.2 claim.1 info;
      Ret (Some (Provenance.Packaged (base_name claim.1) (pi_version info) i))
  end.

(** The first it is intact for, or the last. *)
Definition choose (verdicts : list provenance) : option provenance :=
  match find Provenance.is_packaged_intact verdicts with Some v => Some v | None => last verdicts end.

Definition judge_path (r : root) (status : gmap bytes pkg_info) (out : answers) (oc : path * list (bytes * path)) : prog answers :=
  vs ← traverse (verdict_of r status oc.1) oc.2;
  Ret match choose (omap id vs) with Some v => pm_insert oc.1 v out | None => out end.

Definition conclude (out : answers) (gaps : list bytes) : Database.outcome :=
  match gaps with
  | [] => Database.Complete out
  | [g] => Database.Incomplete out g
  | g :: rest => Database.Incomplete out (g ++ #" (and " ++ dec (N.of_nat (length rest)) ++ #" more)")
  end.

Definition needed_of (owner : owners) : gset bytes := list_to_set (fst <$> mjoin (snd <$> pm_list owner)).

Definition resolve (r : root) (wanted : pset) : prog Database.outcome :=
  here ← present r;
  if negb here then Ret Database.Absent
  else
    aliases ← alias_map r (ps_list wanted);
    let owner := foldl add_script pm_empty (ps_list wanted) in
    diverted ← diversions r;
    listing ← read_dir_optional r INFO;
    let '(ents, gaps) := match listing with
                         | Ok ents => (ents, [])
                         | Err e => ([], [INFO ++ #" could not be listed: " ++ display_error e])
                         end in
    x ← fold_prog (read_list r aliases diverted) (owner, gaps) ents;
    let '(owner, gaps) := x in
    if bool_decide (owner = ∅) then Ret (conclude pm_empty gaps)
    else
      x ← read_status r (needed_of owner);
      let '(status, status_gap) := x in
      out ← fold_prog (judge_path r status) pm_empty (pm_list owner);
      Ret (conclude out (gaps ++ option_list status_gap)).
End verifying.

(** ** Reading the status file for fewer packages says the same of them *)

(** Two readings that agree but for what they keep. *)
Definition agree (k : bytes) (a b : status_state) : Prop :=
  ss_package a = ss_package b /\ ss_arch a = ss_arch b /\ ss_info a = ss_info b /\
  ss_in_conffiles a = ss_in_conffiles b /\ ss_out a !! k = ss_out b !! k.

Lemma put_if_agree k n1 n2 key info out1 out2 :
  (k ∈ n1 <-> k ∈ n2) -> out1 !! k = out2 !! k -> put_if n1 key info out1 !! k = put_if n2 key info out2 !! k.
Proof.
  intros Hn Ho. unfold put_if. destruct (decide (key = k)) as [->|Hne].
  - do 2 case_bool_decide; try done; [by rewrite !lookup_insert_eq|naive_solver..].
  - do 2 case_bool_decide; by rewrite ?lookup_insert_ne.
Qed.

Lemma flush_agree k n1 n2 a b : (k ∈ n1 <-> k ∈ n2) -> agree k a b -> agree k (flush n1 a) (flush n2 b).
Proof.
  intros Hn (E1 & E2 & E3 & E4 & E5). unfold flush. rewrite <- E1. case_bool_decide; [done|].
  unfold agree. cbn. rewrite <- E2, <- E3. split_and!; try done. by apply put_if_agree, put_if_agree.
Qed.

Lemma status_line_agree k n1 n2 a b line :
  (k ∈ n1 <-> k ∈ n2) -> agree k a b -> agree k (status_line n1 a line) (status_line n2 b line).
Proof.
  intros Hn Hab. destruct line as [|c line].
  - assert (Hf : agree k (flush n1 a) (flush n2 b)) by by apply flush_agree.
    destruct a, b. unfold status_line. destruct Hf as (F1 & F2 & F3 & F4 & F5). unfold agree. cbn. by rewrite F1, F2, F3.
  - destruct a as [p1 a1 i1 c1 o1], b as [p2 a2 i2 c2 o2]. destruct Hab as (E1 & E2 & E3 & E4 & E5).
    cbn in *. subst. unfold status_line. repeat case_match; done.
Qed.

Lemma parse_status_needed k n1 n2 text :
  (k ∈ n1 <-> k ∈ n2) -> parse_status n1 text !! k = parse_status n2 text !! k.
Proof.
  intros Hn. unfold parse_status. apply flush_agree; [done|].
  assert (H : forall ls a b, agree k a b -> agree k (foldl (status_line n1) a ls) (foldl (status_line n2) b ls)).
  { intros ls. induction ls as [|l ls IH]; intros a b Hab; [done|]. cbn. by apply IH, status_line_agree. }
  by apply H.
Qed.

(** What the status file has of one package. *)
Definition status_of (text : bytes) (pkg : bytes) : option pkg_info := parse_status {[pkg]} text !! pkg.

Lemma parse_status_of needed text pkg : pkg ∈ needed -> parse_status needed text !! pkg = status_of text pkg.
Proof. intros H. apply parse_status_needed. set_solver. Qed.

(** ** Claims *)

Definition claims_of (owner : pmap (list (bytes * path))) (p : path) : list (bytes * path) := default [] (pm_get owner p).
Definition claimed_by (owner : pmap (list (bytes * path))) (p : path) (pkg : bytes) : Prop := pkg ∈ fst <$> claims_of owner p.

Lemma claims_update owner f p q :
  claims_of (pm_update [] f p owner) q = if path_eqb p q then f (claims_of owner q) else claims_of owner q.
Proof.
  unfold claims_of. rewrite pm_get_update. destruct (path_eqb p q) eqn:E; [|done]. apply path_eqb_eq in E.
  cbn. by rewrite (pm_get_components owner p q E).
Qed.

Lemma add_claim_pkgs pkg listed cs x : x ∈ fst <$> add_claim pkg listed cs <-> x ∈ fst <$> cs \/ x = pkg.
Proof.
  unfold add_claim. case_match eqn:E.
  - split; [by left|]. intros [?| ->]; [done|]. apply existsb_exists in E as (c & Hc & E%bool_decide_eq_true).
    apply list_elem_of_fmap. exists c. split; [done|]. by apply list_elem_of_In.
  - rewrite fmap_app, elem_of_app. cbn. by rewrite list_elem_of_singleton.
Qed.

Lemma add_claims_spec pkg listed ws owner p x :
  claimed_by (foldl (fun owner w => pm_update [] (add_claim pkg listed) w owner) owner ws) p x <->
  claimed_by owner p x \/ x = pkg /\ existsb (fun w => path_eqb w p) ws = true.
Proof.
  revert owner. induction ws as [|w ws IH]; intros owner; cbn [foldl existsb].
  - split; [by left|]. by intros [?|[_ ?]].
  - rewrite IH. unfold claimed_by. rewrite claims_update. destruct (path_eqb w p); cbn [orb].
    + rewrite add_claim_pkgs. naive_solver.
    + naive_solver.
Qed.

Lemma claim_path_spec aliases diverted pkg owner listed p x :
  claimed_by (claim_path aliases diverted pkg owner listed) p x <->
  claimed_by owner p x \/
  x = pkg /\ existsb (fun w => path_eqb w p) (default [] (pm_get aliases (on_disk diverted pkg listed))) = true.
Proof.
  unfold claim_path. destruct (pm_get aliases _) as [ws|]; cbn; [apply add_claims_spec|].
  split; [by left|]. by intros [?|[_ ?]].
Qed.

Lemma claim_paths_spec aliases diverted pkg ls owner p x :
  claimed_by (foldl (claim_path aliases diverted pkg) owner ls) p x <->
  claimed_by owner p x \/
  x = pkg /\ exists listed, listed ∈ ls /\
    existsb (fun w => path_eqb w p) (default [] (pm_get aliases (on_disk diverted pkg listed))) = true.
Proof.
  revert owner. induction ls as [|l ls IH]; intros owner; cbn [foldl].
  - split; [by left|]. intros [?|(_ & ? & []%elem_of_nil & _)]; done.
  - rewrite IH, claim_path_spec. split.
    + intros [[?|[-> ?]]|(-> & l' & ? & ?)]; [by left|right; split; [done|]; exists l; split; [by left|done]|].
      right. split; [done|]. exists l'. split; [by right|done].
    + intros [?|(-> & l' & [->|?]%elem_of_cons & ?)]; [by left; left|left; by right|right]. eauto.
Qed.

Lemma claims_scripts ws owner p x :
  claimed_by (foldl add_script owner ws) p x <->
  claimed_by owner p x \/ exists w, w ∈ ws /\ path_eqb w p = true /\ script_owner w = Some x.
Proof.
  revert owner. induction ws as [|w ws IH]; intros owner; cbn [foldl].
  - split; [by left|]. intros [?|(? & []%elem_of_nil & _)]; done.
  - rewrite IH. assert (claimed_by (add_script owner w) p x <->
      claimed_by owner p x \/ path_eqb w p = true /\ script_owner w = Some x) as ->.
    { unfold add_script. destruct (script_owner w) as [stem|]; [|naive_solver].
      unfold claimed_by. rewrite claims_update. destruct (path_eqb w p); [|naive_solver].
      rewrite fmap_app, elem_of_app. cbn. rewrite list_elem_of_singleton. naive_solver. }
    setoid_rewrite elem_of_cons. naive_solver.
Qed.

Section reading.
Context `{Strerror}.
Variable h : snapshot.
Variable r : root.

(** A package's file list, and whether it was read whole. *)
Definition list_of (ent : dir_ent) : option (bytes * result io_error (bytes * bool)) :=
  let name := from_utf8_lossy (de_name ent) in
  pkg ← strip_suffix dot_list name; Some (pkg, run h (Root.read_capped r (in_info name) DB_CAP)).

Definition list_whole (ent : dir_ent) : Prop :=
  forall pkg x, list_of ent = Some (pkg, x) -> exists b, x = Ok (b, false).

(** A package's list names the path, by one of its spellings, and no diversion
    takes the file elsewhere. *)
Definition lists (diverted : pmap (path * bytes)) (ents : list dir_ent) (w : path) (pkg : bytes) : Prop :=
  exists ent b cut listed, ent ∈ ents /\ list_of ent = Some (pkg, Ok (b, cut)) /\ listed ∈ listed_paths b /\
    spelled h r w (on_disk diverted pkg listed).

Definition read_lists (aliases : pmap (list path)) (diverted : pmap (path * bytes)) (st : pmap (list (bytes * path)) * list bytes)
    (ents : list dir_ent) : pmap (list (bytes * path)) * list bytes :=
  run h (fold_prog (read_list r aliases diverted) st ents).

Lemma read_lists_cons aliases diverted st ent ents :
  read_lists aliases diverted st (ent :: ents) =
  read_lists aliases diverted (run h (read_list r aliases diverted st ent)) ents.
Proof. unfold read_lists. cbn [fold_prog]. by rewrite run_bind. Qed.

Lemma run_read_list aliases diverted st ent st' :
  run h (read_list r aliases diverted st ent) = st' ->
  (forall p x, claimed_by st'.1 p x <-> claimed_by st.1 p x \/
     exists b cut listed, list_of ent = Some (x, Ok (b, cut)) /\ listed ∈ listed_paths b /\
       existsb (fun w => path_eqb w p) (default [] (pm_get aliases (on_disk diverted x listed))) = true) /\
  (st'.2 = [] <-> st.2 = [] /\ list_whole ent).
Proof.
  intros <-. destruct st as [owner gaps]. unfold read_list, list_whole, list_of. cbv zeta.
  destruct (strip_suffix dot_list _) as [pkg|]; cbn [mbind option_bind].
  - rewrite run_bind. destruct (run h (Root.read_capped r _ _)) as [[b cut]|e]; cbn [run fst snd].
    + split.
      * intros p x. rewrite claim_paths_spec. split.
        -- intros [?|(-> & l & ? & ?)]; [by left|right]. by exists b, cut, l.
        -- intros [?|(b' & cut' & l & [= <- <- <-] & ? & ?)]; [by left|right]. eauto.
      * destruct cut.
        -- split; [by intros [_ [=]]%app_nil|]. intros [_ Hw]. by destruct (Hw _ _ eq_refl) as (? & [=]).
        -- split; [|by intros [? _]]. intros ->. split; [done|]. intros pkg' x [= <- <-]. by eexists.
    + split.
      * intros p x. split; [by left|]. by intros [?|(? & ? & ? & [=] & _)].
      * split; [by intros [_ [=]]%app_nil|]. intros [_ Hw]. by destruct (Hw _ _ eq_refl) as (? & [=]).
  - split; [|cbn; naive_solver]. intros p x. cbn. split; [by left|]. by intros [?|(? & ? & ? & [=] & _)].
Qed.

Lemma read_lists_spec aliases diverted st ents :
  (forall p x, claimed_by (read_lists aliases diverted st ents).1 p x <-> claimed_by st.1 p x \/
     exists ent b cut listed, ent ∈ ents /\ list_of ent = Some (x, Ok (b, cut)) /\ listed ∈ listed_paths b /\
       existsb (fun w => path_eqb w p) (default [] (pm_get aliases (on_disk diverted x listed))) = true) /\
  ((read_lists aliases diverted st ents).2 = [] <-> st.2 = [] /\ Forall list_whole ents).
Proof.
  revert st. induction ents as [|ent ents IH]; intros st.
  - cbn. split; [|by rewrite Forall_nil; naive_solver]. intros p x. split; [by left|].
    intros [?|(? & ? & ? & ? & []%elem_of_nil & _)]; done.
  - rewrite read_lists_cons. destruct (run h (read_list r aliases diverted st ent)) as [o g] eqn:E.
    apply run_read_list in E as [Hc Hg]. destruct (IH (o, g)) as [IHc IHg]. split.
    + intros p x. rewrite IHc, Hc. split.
      * intros [[?|(b & c & l & ?)]|(e' & b & c & l & ? & ?)]; [by left|right; exists ent, b, c, l|right; exists e', b, c, l].
        -- split; [by left|done].
        -- split; [by right|done].
      * intros [?|(e' & b & c & l & [-> |?]%elem_of_cons & ?)]; [by left; left|left; right; by exists b, c, l|].
        right. by exists e', b, c, l.
    + rewrite IHg, Forall_cons. cbn in Hg. cbn. naive_solver.
Qed.
End reading.

(** ** Verdicts *)

Lemma pm_ok_scripts ws owner : pm_ok owner -> pm_ok (foldl add_script owner ws).
Proof.
  revert owner. induction ws as [|w ws IH]; intros owner Ho; [done|]. cbn. apply IH.
  unfold add_script. case_match; [by apply pm_ok_update|done].
Qed.

Lemma pm_ok_claims aliases diverted pkg ls owner :
  pm_ok owner -> pm_ok (foldl (claim_path aliases diverted pkg) owner ls).
Proof.
  revert owner. induction ls as [|l ls IH]; intros owner Ho; [done|]. cbn. apply IH. unfold claim_path.
  destruct (pm_get aliases _) as [ws|]; [|done]. clear IH. revert owner Ho.
  induction ws as [|w ws IH]; intros owner Ho; [done|]. cbn. apply IH. by apply pm_ok_update.
Qed.

Lemma pm_ok_lists `{Strerror} h r aliases diverted st ents :
  pm_ok st.1 -> pm_ok (read_lists h r aliases diverted st ents).1.
Proof.
  revert st. induction ents as [|ent ents IH]; intros [owner gaps] Ho; [done|]. rewrite read_lists_cons. apply IH.
  unfold read_list. cbv zeta. case_match; [|done]. rewrite run_bind. cbn [run].
  destruct (run h (Root.read_capped r _ _)) as [[b cut]|e]; [by apply pm_ok_claims|done].
Qed.

Section verdicts.
Context `{Digests}.
Variable h : snapshot.
Variable r : root.
Variable status : gmap bytes pkg_info.

(** What one claim comes to, and what a path's claims do. *)
Definition claim_verdict (p : path) (claim : bytes * path) : option provenance :=
  run h (verdict_of r status p claim).
Definition path_verdict (oc : path * list (bytes * path)) : option provenance :=
  choose (omap (claim_verdict oc.1) oc.2).

Lemma omap_id_fmap {A B} (f : A -> option B) (l : list A) : omap id (f <$> l) = omap f l.
Proof. induction l as [|x l IH]; [done|]. cbn. unfold id at 1. destruct (f x); cbn; by rewrite <- IH. Qed.

Lemma run_judge_path out oc :
  run h (judge_path r status out oc) = match path_verdict oc with Some v => pm_insert oc.1 v out | None => out end.
Proof. unfold judge_path. rewrite run_bind, run_traverse. cbn [run]. by rewrite omap_id_fmap. Qed.

Lemma claim_verdict_some p claim v :
  claim_verdict p claim = Some v <-> exists info, status !! claim.1 = Some info /\
    v = Provenance.Packaged (base_name claim.1) (pi_version info) (run h (verify r p claim.2 claim.1 info)).
Proof.
  unfold claim_verdict, verdict_of. destruct (status !! claim.1) as [info|]; [|naive_solver].
  rewrite run_bind. cbn [run]. naive_solver.
Qed.

Lemma choose_some vs v : choose vs = Some v -> v ∈ vs.
Proof.
  unfold choose. destruct (find _ vs) as [w|] eqn:E.
  - intros [= <-]. apply find_some in E as [? _]. by apply list_elem_of_In.
  - intros Hl. apply last_Some in Hl as [l ->]. apply elem_of_app. right. by left.
Qed.
Lemma choose_is_some vs : is_Some (choose vs) <-> vs <> [].
Proof.
  split; [intros [v Hv] ->; done|]. intros Hne. unfold choose. destruct (find _ vs); [eauto|].
  destruct (last vs) eqn:E; [eauto|]. by apply last_None in E.
Qed.

Lemma path_verdict_some oc v :
  path_verdict oc = Some v -> exists claim, claim ∈ oc.2 /\ claim_verdict oc.1 claim = Some v.
Proof. unfold path_verdict. intros Hv%choose_some. by apply list_elem_of_omap in Hv as (c & ? & ?); exists c. Qed.

Lemma path_verdict_is_some oc : is_Some (path_verdict oc) <-> exists pkg, pkg ∈ fst <$> oc.2 /\ is_Some (status !! pkg).
Proof.
  unfold path_verdict. rewrite choose_is_some. split.
  - intros Hne. destruct (omap _ _) as [|v vs] eqn:E; [done|].
    assert (v ∈ omap (claim_verdict oc.1) oc.2) as (c & Hc & Hv)%list_elem_of_omap by (rewrite E; by left).
    apply claim_verdict_some in Hv as (info & Hi & _). exists c.1. split; [by apply list_elem_of_fmap_2|eauto].
  - intros (pkg & (c & -> & Hc)%list_elem_of_fmap & [info Hi]) E.
    assert (exists v, claim_verdict oc.1 c = Some v) as [v Hv] by (eexists; apply claim_verdict_some; eauto).
    assert (v ∈ omap (claim_verdict oc.1) oc.2) as Hin by (apply list_elem_of_omap; eauto).
    rewrite E in Hin. by apply elem_of_nil in Hin.
Qed.

Lemma judged_get (l : list (path * list (bytes * path))) (out : answers) (p : path) :
  (forall a b, a ∈ l -> b ∈ l -> path_eqb a.1 b.1 = true -> a = b) ->
  pm_get (run h (fold_prog (judge_path r status) out l)) p =
  match find (fun oc => path_eqb oc.1 p) l with
  | Some oc => match path_verdict oc with Some v => Some v | None => pm_get out p end
  | None => pm_get out p
  end.
Proof.
  rewrite run_fold_prog. revert out. induction l as [|oc l IH]; intros out Hf; [done|]. cbn [foldl find].
  rewrite run_judge_path, IH by (intros a b Ha Hb; apply Hf; by right).
  assert (E : pm_get (match path_verdict oc with Some v => pm_insert oc.1 v out | None => out end) p =
    if path_eqb oc.1 p then match path_verdict oc with Some v => Some v | None => pm_get out p end else pm_get out p).
  { destruct (path_verdict oc); [apply pm_get_insert|by destruct (path_eqb oc.1 p)]. }
  rewrite E. destruct (path_eqb oc.1 p) eqn:Ep; [|done].
  destruct (find _ l) as [oc'|] eqn:Ef; [|done]. apply find_some in Ef as [Hin%list_elem_of_In Ep'].
  assert (oc = oc') as <-.
  { apply Hf; [by left|by right|]. apply path_eqb_eq. apply path_eqb_eq in Ep, Ep'. congruence. }
  by destruct (path_verdict oc).
Qed.

Lemma judged_owner (owner : pmap (list (bytes * path))) (p : path) :
  pm_ok owner ->
  pm_get (run h (fold_prog (judge_path r status) pm_empty (pm_list owner))) p =
  match find (fun oc => path_eqb oc.1 p) (pm_list owner) with Some oc => path_verdict oc | None => None end.
Proof.
  intros Ho. rewrite judged_get, pm_get_empty.
  - destruct (find _ _) as [oc|]; [|done]. by destruct (path_verdict oc).
  - intros [a x] [b y] Ha Hb E%path_eqb_eq. cbn in E. pose proof (pm_list_path _ _ _ _ _ Ho Ha Hb E) as ->.
    f_equal. by eapply pm_list_functional.
Qed.
End verdicts.

Lemma conclude_complete out gaps out' : conclude out gaps = Database.Complete out' -> gaps = [] /\ out = out'.
Proof. destruct gaps as [|g [|g' gaps]]; cbn; naive_solver. Qed.

Section backend_laws.
Context `{Digests} `{Strerror}.
Variable h : snapshot.
Variable r : root.
Variable wanted : pset.

(** The claims on every wanted path, and what could not be read. *)
Definition claims_read (ents : list dir_ent) : pmap (list (bytes * path)) * list bytes :=
  read_lists h r (run h (alias_map r (ps_list wanted))) (run h (diversions r))
    (foldl add_script pm_empty (ps_list wanted), []) ents.

Lemma resolve_complete_inv out :
  run h (resolve r wanted) = Database.Complete out ->
  exists ents, run h (read_dir_optional r INFO) = Ok ents /\ (claims_read ents).2 = [] /\
    ((claims_read ents).1 = ∅ /\ out = pm_empty \/
     exists b, run h (Root.read_capped r STATUS DB_CAP) = Ok (b, false) /\
       out = run h (fold_prog (judge_path r (parse_status (needed_of (claims_read ents).1) (from_utf8_lossy b)))
                      pm_empty (pm_list (claims_read ents).1))).
Proof.
  unfold resolve. rewrite run_bind. destruct (run h (present r)); cbn [negb]; [|done].
  rewrite run_bind. cbv zeta. rewrite run_bind, run_bind.
  destruct (run h (read_dir_optional r INFO)) as [ents|e].
  - rewrite run_bind. change (run h (fold_prog (read_list r _ _) _ ents)) with (claims_read ents).
    destruct (claims_read ents) as [owner gaps] eqn:Ec. case_bool_decide as Ho.
    + cbn [run]. intros [-> <-]%conclude_complete. exists ents. rewrite Ec. auto.
    + rewrite run_bind. unfold read_status. rewrite run_bind. cbn [run].
      destruct (run h (Root.read_capped r STATUS DB_CAP)) as [[b [|]]|e] eqn:Es; rewrite run_bind; cbn [run option_list];
        intros [[Hg ?]%app_nil Hout]%conclude_complete; try done.
      exists ents. rewrite Ec. split_and!; [done|done|]. right. by exists b.
  - rewrite run_bind. set (gap := INFO ++ _).
    cbn [fold_prog run]. case_bool_decide; cbn [run].
    + by intros [? _]%conclude_complete.
    + rewrite run_bind. destruct (run h (read_status r _)) as [status g]. rewrite run_bind. cbn [run].
      by intros [? _]%conclude_complete.
Qed.

(** The packages with a claim on a wanted path: by the name of the file, or
    by a file list. *)
Definition claims (ents : list dir_ent) (w : path) (pkg : bytes) : Prop :=
  script_owner w = Some pkg \/ lists h r (run h (diversions r)) ents w pkg.

Lemma claims_read_spec ents w pkg :
  pm_ok wanted -> w ∈ ps_list wanted -> claimed_by (claims_read ents).1 w pkg <-> claims ents w pkg.
Proof.
  intros Hok Hw. unfold claims_read.
  destruct (read_lists_spec h r (run h (alias_map r (ps_list wanted))) (run h (diversions r))
    (foldl add_script pm_empty (ps_list wanted), []) ents) as [-> _].
  cbn [fst]. rewrite claims_scripts. unfold claims, lists. setoid_rewrite run_alias_map.
  assert (Hw' : forall w', w' ∈ ps_list wanted -> path_eqb w' w = true -> w' = w) by (intros w' ? ?; by eapply ps_list_path).
  assert (Hww : path_eqb w w = true) by (by apply path_eqb_eq).
  assert (Hno : ~ claimed_by pm_empty w pkg).
  { unfold claimed_by, claims_of. rewrite pm_get_empty. cbn. apply not_elem_of_nil. }
  split.
  - intros [[?|(w' & Hin & Heq & Hs)]|(ent & b & cut & l & He & Hl & Hin & w' & Hw1 & Heq & Hs)]; [done|left|right].
    + by rewrite <- (Hw' w').
    + rewrite (Hw' w' Hw1 Heq) in Hs. by exists ent, b, cut, l.
  - intros [Hs|(ent & b & cut & l & He & Hl & Hin & Hs)]; [left; right; by exists w|right].
    exists ent, b, cut, l. split_and!; try done. by exists w.
Qed.

Lemma claims_read_ok ents : pm_ok (claims_read ents).1.
Proof. apply pm_ok_lists. cbn [fst]. apply pm_ok_scripts, pm_ok_empty. Qed.

Lemma claims_read_whole ents : (claims_read ents).2 = [] -> Forall (list_whole h r) ents.
Proof.
  destruct (read_lists_spec h r (run h (alias_map r (ps_list wanted))) (run h (diversions r))
    (foldl add_script pm_empty (ps_list wanted), []) ents) as [_ Hg]. intros E. by apply Hg in E as [_ ?].
Qed.

Lemma find_owner (owner : pmap (list (bytes * path))) p oc :
  pm_ok owner -> find (fun oc => path_eqb oc.1 p) (pm_list owner) = Some oc ->
  oc.2 = claims_of owner p /\ components oc.1 = components p.
Proof.
  intros Ho [Hin%list_elem_of_In E%path_eqb_eq]%find_some. destruct oc as [q cs]. cbn in *.
  apply pm_list_get in Hin; [|done]. unfold claims_of. by rewrite <- (pm_get_components owner q p E), Hin.
Qed.

Lemma find_owner_none (owner : pmap (list (bytes * path))) p :
  pm_ok owner -> find (fun oc => path_eqb oc.1 p) (pm_list owner) = None -> claims_of owner p = [].
Proof.
  intros Ho Hf. unfold claims_of. destruct (pm_get owner p) as [cs|] eqn:E; [|done]. exfalso.
  apply pm_get_list in E as (q & Hin & E); [|done]. eapply find_none in Hf; [|by apply list_elem_of_In].
  apply bool_decide_eq_false in Hf. done.
Qed.

Lemma elem_of_needed owner pkg : (exists p cs, (p, cs) ∈ pm_list owner /\ pkg ∈ fst <$> cs) -> pkg ∈ needed_of owner.
Proof.
  intros (p & cs & Hin & Hp). unfold needed_of. apply elem_of_list_to_set.
  apply list_elem_of_fmap in Hp as (c & -> & Hc). apply list_elem_of_fmap_2. apply list_elem_of_join.
  exists cs. split; [done|]. apply list_elem_of_fmap. by exists (p, cs).
Qed.
End backend_laws.

(** ** The contract *)

Lemma conclude_answers out gaps : outcome_answers (Ok (conclude out gaps)) = out.
Proof. by destruct gaps as [|g [|g' gaps]]. Qed.

Section contract.
Context `{Digests} `{Strerror}.
Variable h : snapshot.
Variable r : root.
Variable wanted : pset.
Hypothesis Hwanted : pm_ok wanted.

(** Claims on wanted paths only. *)
Definition asked_only (owner : pmap (list (bytes * path))) : Prop :=
  pm_ok owner /\ forall p x, claimed_by owner p x -> pm_mem wanted p = true.

Lemma lists_asked_only ents gaps :
  asked_only (read_lists h r (run h (alias_map r (ps_list wanted))) (run h (diversions r))
    (foldl add_script pm_empty (ps_list wanted), gaps) ents).1.
Proof.
  split; [apply pm_ok_lists; cbn [fst]; apply pm_ok_scripts, pm_ok_empty|]. intros p x.
  destruct (read_lists_spec h r (run h (alias_map r (ps_list wanted))) (run h (diversions r))
    (foldl add_script pm_empty (ps_list wanted), gaps) ents) as [-> _]. cbn [fst]. rewrite claims_scripts.
  intros [[Hc|(w & Hw & E & _)]|(ent & b & cut & l & _ & _ & _ & (w & Hw & E & _)%run_alias_map)].
  - unfold claimed_by, claims_of in Hc. rewrite pm_get_empty in Hc. by apply elem_of_nil in Hc.
  - by apply (ps_list_pm_mem wanted w).
  - by apply (ps_list_pm_mem wanted w).
Qed.

Lemma judged_for owner status :
  asked_only owner -> answers_for wanted (run h (fold_prog (judge_path r status) pm_empty (pm_list owner))).
Proof.
  intros [Hok Hasked]. split.
  - rewrite run_fold_prog. generalize (@pm_empty provenance), (@pm_ok_empty provenance).
    induction (pm_list owner) as [|oc ocs IH]; intros out Ho; [done|]. cbn [foldl]. rewrite run_judge_path. apply IH.
    case_match; [by apply pm_ok_insert|done].
  - intros p v. rewrite judged_owner by done. destruct (find _ _) as [oc|]; [|done].
    intros (c & _ & (info & _ & ->)%claim_verdict_some)%path_verdict_some. by repeat eexists.
  - intros p [v Hv]%pm_mem_true. rewrite judged_owner in Hv by done. destruct (find _ _) as [oc|] eqn:Ef; [|done].
    apply find_owner in Ef as [Hcs _]; [|done]. apply path_verdict_some in Hv as (c & Hc & _). rewrite Hcs in Hc.
    apply (Hasked p c.1). by apply list_elem_of_fmap_2.
Qed.

Lemma dpkg_answers_for : answers_for wanted (outcome_answers (Ok (run h (resolve r wanted)))).
Proof.
  unfold resolve. rewrite run_bind. destruct (run h (present r)); cbn [negb]; [|by apply answers_for_empty].
  rewrite run_bind. cbv zeta. rewrite run_bind, run_bind.
  set (listing := match run h (read_dir_optional r INFO) with Ok ents => _ | Err e => _ end).
  destruct listing as [ents gaps]. rewrite run_bind.
  pose proof (lists_asked_only ents gaps) as Ha. unfold read_lists in Ha. revert Ha.
  generalize (run h (fold_prog (read_list r (run h (alias_map r (ps_list wanted))) (run h (diversions r)))
    (foldl add_script pm_empty (ps_list wanted), gaps) ents)). intros [owner gaps'] Ha. cbn [fst] in Ha.
  case_bool_decide; [cbn [run]; rewrite conclude_answers; by apply answers_for_empty|].
  rewrite run_bind. destruct (run h (read_status r _)) as [status gap]. rewrite run_bind. cbn [run].
  rewrite conclude_answers. by apply judged_for.
Qed.
End contract.

#[export] Instance dpkg_backend `{Digests} `{Strerror} h : BackendLaws h (total resolve).
Proof.
  apply total_answers. intros r wanted Hw. pose proof (dpkg_answers_for h r wanted Hw) as Ha.
  by destruct (run h (resolve r wanted)).
Qed.

(** ** Properties *)


Definition is_link (h : snapshot) (r : root) (p : path) : Prop :=
  exists m, run h (stat r p) = Ok m /\ m_is_symlink m = true.

(** A digest the package's metadata gives the file, or what the link that is
    the file leads to. *)
Definition recorded `{Digests} (h : snapshot) (r : root) (p listed : path) (pkg : bytes) (look : path -> prog (option bytes))
    (expected : bytes) : Prop :=
  run h (look listed) = Some expected \/
  is_link h r p /\ exists t, run h (read_link r p) = Ok t /\ run h (look (link_target r p t)) = Some expected.

(** How the link's change time stands to its package's installation. *)
Definition dated (h : snapshot) (r : root) (p : path) (pkg : bytes) (late : bool) : Prop :=
  is_live r = true /\ is_link h r p /\
  exists m l changed installed, run h (stat r p) = Ok m /\ m_ctime m = Some changed /\
    run h (list_written r pkg) = Some (l, installed) /\
    (late = true <-> is_Some (changed_after_install changed installed)).

(** What each verdict on a file means. *)
Definition explained `{Digests} (h : snapshot) (r : root) (p listed : path) (pkg : bytes) (info : pkg_info) (i : integrity) : Prop :=
  let digest_is (same : bool) look := exists a e, run h (digests r p) = Some a /\
    eq_ignore_ascii_case e (fd_md5 a) = same /\ recorded h r p listed pkg look e in
  match i with
  | Integrity.Intact =>
      digest_is true (conffile r info) \/ digest_is true (shipped_digest r pkg) \/ dated h r p pkg false
  | Integrity.Modified => digest_is false (shipped_digest r pkg) \/ dated h r p pkg true
  | Integrity.ConffileModified => digest_is false (conffile r info)
  | Integrity.ModeModified => False
  | Integrity.Unknown => True
  end.

Section verify_laws.
Context `{Digests}.
Variable h : snapshot.
Variable r : root.
Variables (p listed : path) (pkg : bytes) (info : pkg_info).
Notation explained := (explained h r p listed pkg info).

Lemma link_time_explained : is_link h r p -> explained (run h (link_by_change_time r p pkg)).
Proof.
  intros Hl. unfold link_by_change_time. destruct (is_live r) eqn:El; cbn [negb]; [|done].
  rewrite !run_bind. cbn [run]. destruct (run h (stat r p)) as [m|e] eqn:Em; [|done].
  destruct (run h (list_written r pkg)) as [[l installed]|] eqn:Ew; [|done].
  destruct (m_ctime m) as [changed|] eqn:Ec; [|done].
  assert (Hd : forall late, (late = true <-> is_Some (changed_after_install changed installed)) -> dated h r p pkg late)
    by (intros late ?; split; [done|]; split; [done|]; by exists m, l, changed, installed).
  destruct (changed_after_install changed installed) as [z|] eqn:Ez.
  - right. apply Hd. split; eauto.
  - right. right. apply Hd. split; [done|]. by intros [? ?].
Qed.

Lemma against_conffile a e :
  run h (digests r p) = Some a -> recorded h r p listed pkg (conffile r info) e ->
  explained (against e a Integrity.ConffileModified).
Proof.
  intros Ha Hr. unfold against. destruct (eq_ignore_ascii_case e (fd_md5 a)) eqn:E; [left|]; by exists a, e.
Qed.

Lemma against_shipped a e :
  run h (digests r p) = Some a -> recorded h r p listed pkg (shipped_digest r pkg) e ->
  explained (against e a Integrity.Modified).
Proof.
  intros Ha Hr. unfold against. destruct (eq_ignore_ascii_case e (fd_md5 a)) eqn:E; [right; left|left]; by exists a, e.
Qed.

Lemma verify_link_explained :
  is_link h r p -> explained (run h (verify_link r p pkg info (run h (digests r p)))).
Proof.
  intros Hl. pose proof (link_time_explained Hl) as Ht. unfold verify_link. rewrite run_bind.
  destruct (run h (read_link r p)) as [t|err] eqn:Et; [|done].
  destruct (run h (digests r p)) as [a|] eqn:Ea; [|done]. cbv zeta. rewrite run_bind.
  destruct (run h (conffile r info (link_target r p t))) as [e|] eqn:Ec.
  - apply against_conffile; [done|]. right. eauto.
  - rewrite run_bind. destruct (run h (shipped_digest r pkg (link_target r p t))) as [e|] eqn:Es; [|done].
    apply against_shipped; [done|]. right. eauto.
Qed.

Lemma verify_explained : explained (run h (verify r p listed pkg info)).
Proof.
  unfold verify. rewrite run_bind, run_bind.
  assert (Hrest : explained (run h (m ← stat r p;
      if match m with Ok m => m_is_symlink m | Err _ => false end
      then verify_link r p pkg info (run h (digests r p))
      else match run h (digests r p) with
           | None => Ret Integrity.Unknown
           | Some actual =>
               s ← shipped_digest r pkg listed;
               Ret match s with Some expected => against expected actual Integrity.Modified | None => Integrity.Unknown end
           end))).
  { rewrite run_bind. destruct (run h (stat r p)) as [m|err] eqn:Es; [destruct (m_is_symlink m) eqn:Em|].
    1: apply verify_link_explained; by exists m.
    all: destruct (run h (digests r p)) as [a|] eqn:Ea; [|done]; rewrite run_bind; cbn [run];
      destruct (run h (shipped_digest r pkg listed)) as [e|] eqn:Ed; [|done];
      apply against_shipped; [done|by left]. }
  destruct (run h (conffile r info listed)) as [e|] eqn:Ec, (run h (digests r p)) as [a|] eqn:Ea; try exact Hrest.
  apply against_conffile; [done|by left].
Qed.
End verify_laws.


(** ** Witnesses *)

Module DpkgDemo.
(** A digest that is the content itself, so that a tree can say it. *)
#[local] Instance digests : Digests := {| sha256_hex := id; md5_hex := id; sha1_hex := id |}.
#[local] Instance strerror : Strerror := fun _ => #"error".

Definition file (p : path) (lines : list bytes) : path * Tree.node := (p, Tree.File 0 0x1A4 (join [newline] lines)).

(** Package [a] lists two files, one of them diverted by [b]; one more is
    nobody's. *)
Definition host (diversions : Tree.node) : Tree.tree :=
  [( #"var", Tree.Dir 0 0x1ED); ( #"var/lib", Tree.Dir 0 0x1ED); ( #"var/lib/dpkg", Tree.Dir 0 0x1ED);
   (INFO, Tree.Dir 0 0x1ED); ( #"usr", Tree.Dir 0 0x1ED); ( #"usr/bin", Tree.Dir 0 0x1ED);
   file STATUS [ #"Package: a"; #"Architecture: amd64"; #"Version: 1.2"; []; #"Package: b"; #"Version: 3"; []];
   file (in_info #"a.list") [ #"/."; #"/usr/bin/x"; #"/usr/bin/y"];
   file (in_info #"a.md5sums") [ #"xx  usr/bin/x"; #"yy  usr/bin/y"];
   (DIVERSIONS, diversions);
   ( #"usr/bin/x", Tree.File 0 0x1ED #"xx"); ( #"usr/bin/y", Tree.File 0 0x1ED #"other");
   ( #"usr/bin/y.orig", Tree.File 0 0x1ED #"yy"); ( #"usr/bin/z", Tree.File 0 0x1ED #"zz")].

Definition diverted : Tree.node := Tree.File 0 0x1A4 (join [newline] [ #"/usr/bin/y"; #"/usr/bin/y.orig"; #"b"; []]).
Definition wanted : pset := ps_of [ #"bin/x"; #"usr/bin/y"; #"usr/bin/y.orig"; #"usr/bin/z"].
Definition answers_on (t : Tree.tree) : list (option provenance) :=
  match run (Tree.kernel t) (resolve Tree.offline wanted) with
  | Database.Complete out => pm_get out <$> ps_list wanted
  | _ => []
  end.
End DpkgDemo.

(** The merged-usr alias of a listed path is answered only where the file is,
    which here it is not: [bin/x] is intact by its spelling alone when it can
    be read, and unknown when it cannot. *)
Example dpkg_demo :
  DpkgDemo.answers_on (DpkgDemo.host DpkgDemo.diverted) =
  [Some (Provenance.Packaged #"a" #"1.2" Integrity.Unknown); None;
   Some (Provenance.Packaged #"a" #"1.2" Integrity.Intact); None].
Proof. by vm_compute. Qed.

(** A diversions file that cannot be read is not among the gaps: the database
    is reported read whole, and the diverted file's two places are each
    answered for the other. *)
Theorem diversions_unread_complete :
  DpkgDemo.answers_on (DpkgDemo.host (Tree.Dir 0 0x1ED)) =
  [Some (Provenance.Packaged #"a" #"1.2" Integrity.Unknown);
   Some (Provenance.Packaged #"a" #"1.2" Integrity.Modified); None; None].
Proof. by vm_compute. Qed.

Module DpkgSmall.
Definition host : Tree.tree :=
  [( #"var", Tree.Dir 0 0x1ED); ( #"var/lib", Tree.Dir 0 0x1ED); ( #"var/lib/dpkg", Tree.Dir 0 0x1ED);
   (INFO, Tree.Dir 0 0x1ED); DpkgDemo.file STATUS [ #"Package: a"; #"Version: 1"];
   DpkgDemo.file (in_info #"a.list") [ #"/x"]].
Definition kernel : snapshot := Tree.kernel host.
Definition wanted : pset := ps_of [ #"x"].
Definition out : answers := pm_insert #"x" (Provenance.Packaged #"a" #"1" Integrity.Unknown) pm_empty.
End DpkgSmall.

Lemma dpkg_small :
  run DpkgSmall.kernel (resolve (H := DpkgDemo.digests) (H0 := DpkgDemo.strerror) Tree.offline DpkgSmall.wanted) =
    Database.Complete DpkgSmall.out.
Proof. by vm_compute. Qed.

