(* ===== verification/Generated.v ===== *)
(** [src/provenance/generated.rs]: files no package claims that a producer
    writes at run time: by the place they are in, and for snaps, presets and
    masks by the evidence the host holds that the producer was there. *)

From S2P Require Import Prelude Slices Order Num Utf8 Paths PathMap Text Kinds Entry Sys Root Tree Scan Provenance Backend Dpkg.

Definition UNIT_CAP : N := N.shiftl 64 10.
Definition SNAPS : path := #"var/lib/snapd/snaps".

(** ** Installed snaps *)

Abbreviation snaps := (gmap bytes (gset bytes)).

Definition snap_image (ent : dir_ent) : option (bytes * bytes) :=
  stem ← strip_suffix #".snap" (from_utf8_lossy (de_name ent));
  '(snap, rev) ← rsplit_once #"_" stem;
  if bool_decide (snap = []) || bool_decide (rev = []) || de_is_dir ent || de_is_symlink ent then None else Some (snap, rev).

Definition add_image (out : snaps) (ent : dir_ent) : snaps :=
  match snap_image ent with
  | Some (snap, rev) => <[snap := {[rev]} ∪ default ∅ (out !! snap)]> out
  | None => out
  end.
Definition installed (r : root) : prog snaps :=
  ents ← read_dir_optional r SNAPS; Ret (foldl add_image ∅ (default [] (ok ents))).

Definition has (s : snaps) (snap : bytes) : bool := bool_decide (is_Some (s !! snap)).
Definition has_revision (s : snaps) (snap rev : bytes) : bool :=
  match s !! snap with Some revs => bool_decide (rev ∈ revs) | None => false end.

(** ** Snap units *)

(** The values a key is given in a unit file. *)
Definition key_value (key line : bytes) : option bytes :=
  rest ← strip_prefix key (trim line); v ← strip_prefix #"=" (trim_start rest); Some (trim v).
Definition values (text key : bytes) : list bytes := omap (key_value key) (lines text).

Definition exec_value (line : bytes) : option bytes :=
  '(k, v) ← split_once #"=" (trim line); if starts_with #"Exec" (trim k) then Some (trim v) else None.

Definition exec_prefix (b : byte) : bool := bool_decide (b ∈ #"-@+!:").
(** The command goes through [snap run], for this snap. *)
Definition runs_snap (snap v : bytes) : bool :=
  match strip_prefix #"/usr/bin/snap run " (drop_while exec_prefix v) with
  | None => false
  | Some args =>
      match List.filter (fun a => negb (starts_with #"--" a)) (split_whitespace args) with
      | [] => false
      | app :: _ =>
          bool_decide (app = snap) || match strip_prefix snap app with Some r => starts_with #"." r | None => false end
      end
  end.

Definition mount_unit (s : snaps) (text : bytes) : bool :=
  match values text #"What", values text #"Where" with
  | [what], [where_] =>
      match (i ← strip_prefix #"/var/lib/snapd/snaps/" what; strip_suffix #".snap" i) with
      | None => false
      | Some image =>
          match rsplit_once #"_" image with
          | None => false
          | Some (snap, rev) => has_revision s snap rev && bool_decide (where_ = #"/snap/" ++ snap ++ #"/" ++ rev)
          end
      end
  | _, _ => false
  end.

Definition service_unit (s : snaps) (name text : bytes) : bool :=
  match (rest ← strip_prefix #"snap." name; split_once #"." rest) with
  | None => false
  | Some (snap, _) =>
      if negb (has s snap) || negb (mem #"yes" (values text #"X-Snappy")) then false
      else forallb (runs_snap snap) (omap exec_value (lines text))
  end.

(** The text of a snap's unit file, by its name. *)
Definition snap_unit_text (s : snaps) (name text : bytes) : bool :=
  if starts_with #"snap-" name && ends_with #".mount" name then mount_unit s text else service_unit s name text.

Definition snap_unit (r : root) (s : snaps) (p : path) : prog bool :=
  match file_name p with
  | None => Ret false
  | Some n =>
      x ← Root.read_capped r p UNIT_CAP;
      Ret match x with
          | Err _ | Ok (_, true) => false
          | Ok (b, false) => snap_unit_text s (from_utf8_lossy n) (from_utf8_lossy b)
          end
  end.

(** ** Presets *)

Inductive preset_match := Instance_ | Template.
#[global] Instance preset_match_eq_dec : EqDecision preset_match.
Proof. solve_decision. Defined.

Fixpoint match_patterns (verb unit template : bytes) (patterns : list bytes) : option (option preset_match) :=
  match patterns with
  | [] => None
  | pattern :: patterns' =>
      let yes m := if bool_decide (verb = #"enable") then Some m else None in
      if glob_match pattern unit then Some (yes Instance_)
      else if glob_match pattern template then Some (yes Template)
      else match_patterns verb unit template patterns'
  end.

(** What one line decides: [None] when it does not match. *)
Definition preset_line (unit template line : bytes) : option (option preset_match) :=
  '(verb, rest) ← split_once_whitespace (trim line);
  if bool_decide (verb = #"enable") || bool_decide (verb = #"disable")
  then match_patterns verb unit template (split_whitespace rest)
  else None.

Definition preset_text (unit template text : bytes) : option (option preset_match) :=
  head (omap (preset_line unit template) (lines text)).

(** The first file to decide does. *)
Fixpoint preset_files (r : root) (unit template : bytes) (files : list path) : prog (option preset_match) :=
  match files with
  | [] => Ret None
  | f :: files' =>
      x ← Root.read_capped r f UNIT_CAP;
      match x with
      | Err _ => preset_files r unit template files'
      | Ok (b, _) =>
          match preset_text unit template (from_utf8_lossy b) with
          | Some v => Ret v
          | None => preset_files r unit template files'
          end
      end
  end.

Definition PRESET_DIRS : list path := [ #"usr/lib/systemd/system-preset"; #"lib/systemd/system-preset"].
Definition is_preset (e : dir_ent) : bool := negb (de_is_dir e) && ends_with #".preset" (de_name e).

(** [dedup_by] the name, after sorting by it: the first of each is kept. *)
Fixpoint dedup_names (last_ : option bytes) (l : list (bytes * path)) : list (bytes * path) :=
  match l with
  | [] => []
  | np :: l' => if bool_decide (last_ = Some (fst np)) then dedup_names last_ l' else np :: dedup_names (Some (fst np)) l'
  end.
Definition named_key (np : bytes * path) : bytes * list component := (fst np, components (snd np)).

Definition preset_dir (r : root) (out : list (bytes * path)) (dir : path) : prog (list (bytes * path)) :=
  ents ← read_dir_optional r dir;
  Ret (out ++ ((fun e => (de_name e, path_join dir (de_name e))) <$> List.filter is_preset (default [] (ok ents)))).

Definition preset_verdict (r : root) (unit template : bytes) : prog (option preset_match) :=
  files ← fold_prog (preset_dir r) [] PRESET_DIRS;
  preset_files r unit template (snd <$> dedup_names None (sort_by named_key files)).

Definition TEMPLATE_DIRS : list path :=
  [ #"usr/lib/systemd/system"; #"lib/systemd/system"; #"usr/lib/systemd/user"].

(** The instance a link in a [.wants] directory names: the unit, its template,
    its instance. *)
Definition wanted_instance (text : bytes) : option (bytes * bytes * bytes) :=
  rest ← strip_prefix #"etc/systemd/system/" text;
  '(dir, unit) ← split_once #"/" rest;
  if contains_sub #"/" unit || negb (ends_with #".wants" dir || ends_with #".requires" dir) then None
  else
    '(stem, suffix) ← rsplit_once #"." unit;
    '(name, instance_) ← split_once #"@" stem;
    if bool_decide (instance_ = []) then None else Some (unit, name ++ #"@." ++ suffix, instance_).

Definition default_instance (text instance_ : bytes) : bool :=
  existsb (fun l => match strip_prefix #"DefaultInstance=" (trim l) with
                    | Some v => bool_decide (trim v = instance_)
                    | None => false
                    end) (lines text).

Definition preset_link (r : root) (p : path) : prog bool :=
  match wanted_instance (from_utf8_lossy p) with
  | None => Ret false
  | Some (unit, template, instance_) =>
      end_ ← Root.resolve r p;
      match end_ with
      | Err _ => Ret false
      | Ok end_ =>
          if negb (existsb (fun d => path_eqb end_ (path_join d template)) TEMPLATE_DIRS) then Ret false
          else
            verdict ← preset_verdict r unit template;
            match verdict with
            | None => Ret false
            | Some Instance_ => Ret true
            | Some Template =>
                x ← Root.read_capped r end_ UNIT_CAP;
                Ret match x with Ok (b, _) => default_instance (from_utf8_lossy b) instance_ | Err _ => false end
            end
      end
  end.

(** ** Masks *)

Definition SCRIPT_CAP : N := N.shiftl 1 20.
Definition DEV_NULL : path := #"/dev/null".

(** [text] is a file directly in one of these directories. *)
Definition directly_in (dirs : list bytes) (text : bytes) : bool :=
  existsb (fun d => match strip_prefix d text with Some rest => negb (contains_sub #"/" rest) | None => false end) dirs.

Definition VENDOR_DIRS : list bytes := [ #"usr/lib/systemd/system/"; #"lib/systemd/system/"; #"usr/lib/systemd/user/"].

(** The link's change time is in its package's installation. *)
Definition made_at (changed installed : system_time) : bool :=
  bool_decide (changed_after_install changed installed = None) && bool_decide (installed <= changed)%Z.

Fixpoint scripts_name (r : root) (unit : bytes) (changed : option system_time) (ents : list dir_ent) : prog bool :=
  match ents with
  | [] => Ret false
  | ent :: ents' =>
      let name := from_utf8_lossy (de_name ent) in
      match strip_suffix #".postinst" name with
      | None => scripts_name r unit changed ents'
      | Some pkg =>
          script ← Root.read_capped r (path_join INFO name) SCRIPT_CAP;
          match script with
          | Err _ => scripts_name r unit changed ents'
          | Ok (b, _) =>
              if negb (contains_sub unit b) then scripts_name r unit changed ents'
              else
                w ← list_written r pkg;
                match w, changed with
                | Some (_, installed), Some changed_ =>
                    if made_at changed_ installed then Ret true else scripts_name r unit changed ents'
                | _, _ => scripts_name r unit changed ents'
                end
          end
      end
  end.

Definition postinst_mask (r : root) (p : path) : prog bool :=
  if negb (directly_in VENDOR_DIRS (from_utf8_lossy p)) || negb (is_live r) then Ret false
  else
    t ← read_link r p;
    if match t with Ok t => negb (path_eqb t DEV_NULL) | Err _ => true end then Ret false
    else
      match file_name p with
      | None => Ret false
      | Some n =>
          m ← stat r p;
          match m with
          | Err _ => Ret false
          | Ok m =>
              ents ← read_dir_optional r INFO;
              scripts_name r (from_utf8_lossy n) (m_ctime m) (default [] (ok ents))
          end
      end.

(** ** The producer of a path *)

Definition ADMIN_WRITTEN : list bytes :=
  [ #"var/lib/cloud/scripts/"; #"var/lib/cloud/handlers/"; #"var/lib/cloud/seed/"].
Definition UNIT_DIRS : list bytes := [ #"etc/systemd/system/"; #"etc/systemd/user/"].

(** What its place alone says: [None] when it says nothing. *)
Definition by_place (s : snaps) (text : bytes) : option (option producer) :=
  match strip_prefix #"snap/" text with
  | Some rest =>
      Some match split_on (is_byte slash) rest with
           | snap :: rev :: _ => if has_revision s snap rev then Some Producer.Snapd else None
           | _ => None
           end
  | None =>
      if starts_with #"run/systemd/generator" text then Some (Some Producer.SystemdGenerator)
      else if starts_with #"run/systemd/transient/" text then Some (Some Producer.SystemdTransient)
      else if starts_with #"run/systemd/system.control/" text || starts_with #"etc/systemd/system.control/" text then
        Some (Some Producer.SystemctlSetProperty)
      else if starts_with #"run/cloud-init/" text
              || (starts_with #"var/lib/cloud/" text && negb (existsb (fun d => starts_with d text) ADMIN_WRITTEN)) then
        Some (Some Producer.CloudInit)
      else if starts_with #"lib/apk/db/" text then Some (Some Producer.Apk)
      else None
  end.

(** What is asked when the file is no snap's. *)
Definition preset_or_mask (r : root) (p : path) : prog (option producer) :=
  link ← preset_link r p;
  if link : bool then Ret (Some Producer.SystemdPreset)
  else mask ← postinst_mask r p; Ret (if mask : bool then Some Producer.DpkgPostinst else None).

Definition producer_of (r : root) (s : snaps) (p : path) : prog (option producer) :=
  let text := from_utf8_lossy p in
  match by_place s text with
  | Some by_ => Ret by_
  | None =>
      unit ← (if directly_in UNIT_DIRS text then snap_unit r s p else Ret false);
      if unit : bool then Ret (Some Producer.Snapd) else preset_or_mask r p
  end.

Definition classify (r : root) (unclaimed : pset) : prog answers :=
  s ← installed r;
  fold_prog (fun out p =>
    by_ ← producer_of r s p;
    Ret match by_ with Some by_ => pm_insert p (Provenance.GeneratedBy by_) out | None => out end)
    pm_empty (ps_list unclaimed).

(** ** Laws *)

Definition generated (h : snapshot) (r : root) (q : path) : option producer :=
  run h (s ← installed r; producer_of r s q).

Lemma generated_run_classify h r (w : pset) :
  run h (classify r w) =
  foldl (fun (out : answers) p => match generated h r p with Some by_ => pm_insert p (Provenance.GeneratedBy by_) out | None => out end)
    pm_empty (ps_list w).
Proof.
  unfold classify, generated. rewrite run_bind, run_fold_prog. apply foldl_ext_in. intros out p _.
  by rewrite !run_bind.
Qed.

Lemma generated_classify_from h r (w : pset) p v :
  pm_get (run h (classify r w)) p = Some v ->
  exists q by_, q ∈ ps_list w /\ path_eqb q p = true /\ generated h r q = Some by_ /\ v = Provenance.GeneratedBy by_.
Proof.
  rewrite generated_run_classify. induction (ps_list w) as [|q l IH] using rev_ind; [cbn [foldl]; by rewrite pm_get_empty|].
  rewrite foldl_app. cbn [foldl]. destruct (generated h r q) as [by_|] eqn:Eg.
  - rewrite pm_get_insert. destruct (path_eqb q p) eqn:E.
    + intros [= <-]. exists q, by_. split_and!; try done. apply elem_of_app. right. by left.
    + intros (q' & b' & Hq & ?)%IH. exists q', b'. split; [apply elem_of_app; by left|done].
  - intros (q' & b' & Hq & ?)%IH. exists q', b'. split; [apply elem_of_app; by left|done].
Qed.

Lemma generated_classify_ok h r (w : pset) : pm_ok (run h (classify r w)).
Proof.
  rewrite generated_run_classify. induction (ps_list w) as [|q l IH] using rev_ind; [apply pm_ok_empty|].
  rewrite foldl_app. cbn [foldl]. destruct (generated h r q); [by apply pm_ok_insert|done].
Qed.

Lemma classify_sub h r (w : pset) p : pm_ok w -> pm_mem (run h (classify r w)) p = true -> pm_mem w p = true.
Proof.
  intros Hw [v (q & by_ & Hq & E & _)%generated_classify_from]%pm_mem_true. by eapply ps_list_pm_mem.
Qed.

(** *** Images *)

Definition listing (h : snapshot) (r : root) (dir : path) : list dir_ent :=
  default [] (ok (run h (read_dir_optional r dir))).

(** A squashfs image of a revision: a regular entry of the directory, by its
    name. *)
Definition image (h : snapshot) (r : root) (snap rev : bytes) : Prop :=
  snap <> [] /\ rev <> [] /\ exists ent, ent ∈ listing h r SNAPS /\ de_is_dir ent = false /\ de_is_symlink ent = false /\
    from_utf8_lossy (de_name ent) = snap ++ #"_" ++ rev ++ #".snap".

Lemma snap_image_some ent snap rev : snap_image ent = Some (snap, rev) ->
  snap <> [] /\ rev <> [] /\ de_is_dir ent = false /\ de_is_symlink ent = false /\
  from_utf8_lossy (de_name ent) = snap ++ #"_" ++ rev ++ #".snap".
Proof.
  unfold snap_image. destruct (strip_suffix _ _) as [stem|] eqn:Es; cbn [mbind option_bind]; [|done].
  destruct (rsplit_once _ stem) as [[a b]|] eqn:Er; cbn [mbind option_bind]; [|done].
  destruct (bool_decide (a = []) || bool_decide (b = []) || de_is_dir ent || de_is_symlink ent) eqn:Eo; [done|].
  intros [= -> ->]. rewrite !orb_false_iff in Eo. destruct Eo as [[[H1%bool_decide_eq_false H2%bool_decide_eq_false] H3] H4].
  split_and!; try done. apply rsplit_once_Some in Er as ->. apply strip_suffix_Some in Es as ->.
  by rewrite <- !app_assoc.
Qed.

Lemma add_images_has (ents : list dir_ent) (s : snaps) snap rev :
  has_revision (foldl add_image s ents) snap rev = true <->
  has_revision s snap rev = true \/ exists ent, ent ∈ ents /\ snap_image ent = Some (snap, rev).
Proof.
  revert s. induction ents as [|ent ents IH]; intros s; cbn [foldl].
  - split; [by left|]. by intros [?|(? & []%elem_of_nil & _)].
  - rewrite IH, (ex_elem_cons (fun ent => snap_image ent = Some (snap, rev))).
    assert (has_revision (add_image s ent) snap rev = true <->
      has_revision s snap rev = true \/ snap_image ent = Some (snap, rev)) as ->; [|tauto].
    unfold add_image, has_revision. destruct (snap_image ent) as [[a b]|]; [|split; [by left|by intros [?|?]]].
    destruct (decide (a = snap)) as [->|Hne].
    + rewrite lookup_insert_eq. rewrite bool_decide_eq_true. destruct (s !! snap) as [revs|]; cbn.
      * rewrite bool_decide_eq_true. set_solver.
      * split; [intros; right; f_equal; set_solver|intros [?|[= ->]]; [done|set_solver]].
    + rewrite lookup_insert_ne by done. split; [by left|]. intros [?|[= -> _]]; done.
Qed.

Lemma run_installed h r : run h (installed r) = foldl add_image ∅ (listing h r SNAPS).
Proof. unfold installed. by rewrite run_bind. Qed.

Lemma installed_revision h r snap rev : has_revision (run h (installed r)) snap rev = true -> image h r snap rev.
Proof.
  rewrite run_installed, add_images_has. intros [?|(ent & Hin & (? & ? & ? & ? & ?)%snap_image_some)]; [done|].
  split_and!; try done. by exists ent.
Qed.

Lemma add_images_some (ents : list dir_ent) (s : snaps) snap revs :
  (forall revs, s !! snap = Some revs -> exists rev, rev ∈ revs) ->
  foldl add_image s ents !! snap = Some revs -> exists rev, rev ∈ revs.
Proof.
  revert s. induction ents as [|ent ents IH]; intros s Hs; cbn [foldl]; [apply Hs|]. apply IH. intros revs'.
  unfold add_image. destruct (snap_image ent) as [[a b]|]; [|apply Hs].
  intros [[_ <-]|[_ ?]]%lookup_insert_Some; [exists b; set_solver|by apply Hs].
Qed.

Lemma installed_snap h r snap : has (run h (installed r)) snap = true -> exists rev, image h r snap rev.
Proof.
  unfold has. rewrite bool_decide_eq_true. intros [revs Hr].
  assert (exists rev, rev ∈ revs) as [rev Hin].
  { rewrite run_installed in Hr. eapply add_images_some; [|exact Hr]. intros ? Hn. by rewrite lookup_empty in Hn. }
  exists rev. apply installed_revision. unfold has_revision. rewrite Hr. by apply bool_decide_eq_true.
Qed.

(** *** What a snap's unit must say *)

(** Either a mount of the revision's image at its own place, or a unit of the
    snap's name that says snapd wrote it and whose every command starts with
    [snap run] and the snap. *)
Definition snap_written (snap rev name text : bytes) : Prop :=
  (starts_with #"snap-" name = true /\ ends_with #".mount" name = true /\
   values text #"What" = [ #"/var/lib/snapd/snaps/" ++ snap ++ #"_" ++ rev ++ #".snap"] /\
   values text #"Where" = [ #"/snap/" ++ snap ++ #"/" ++ rev]) \/
  ((exists rest, name = #"snap." ++ snap ++ #"." ++ rest) /\ #"yes" ∈ values text #"X-Snappy" /\
   Forall (fun v => runs_snap snap v = true) (omap exec_value (lines text))).

Lemma mount_unit_written s name text :
  starts_with #"snap-" name && ends_with #".mount" name = true -> mount_unit s text = true ->
  exists snap rev, has_revision s snap rev = true /\ snap_written snap rev name text.
Proof.
  intros [Hn1 Hn2]%andb_true_iff. unfold mount_unit.
  destruct (values text #"What") as [|what [|]] eqn:Ew; [done| |done].
  destruct (values text #"Where") as [|where_ [|]] eqn:Eh; [done| |done].
  destruct (strip_prefix _ what) as [i|] eqn:Ep; cbn [mbind option_bind]; [|done].
  destruct (strip_suffix _ i) as [im|] eqn:Es; [|done].
  destruct (rsplit_once _ im) as [[snap rev]|] eqn:Er; [|done].
  intros [Hrev Hwhere%bool_decide_eq_true]%andb_true_iff. exists snap, rev. split; [done|]. left.
  apply rsplit_once_Some in Er as ->. apply strip_suffix_Some in Es as ->. apply strip_prefix_Some in Ep as ->.
  rewrite Ew, Eh, Hwhere. split_and!; try done. by rewrite <- !app_assoc.
Qed.

Lemma service_unit_written s name text :
  service_unit s name text = true -> exists snap, has s snap = true /\ forall rev, snap_written snap rev name text.
Proof.
  unfold service_unit. destruct (strip_prefix _ name) as [rest|] eqn:Ep; cbn [mbind option_bind]; [|done].
  destruct (split_once _ rest) as [[snap rest']|] eqn:Eo; [|done].
  destruct (has s snap) eqn:Eh; cbn [negb orb]; [|done].
  destruct (mem _ _) eqn:Em; cbn [negb]; [|done]. intros Hall. exists snap. split; [done|]. intros rev. right.
  split; [|split; [by apply bool_decide_eq_true in Em|]].
  - exists rest'. apply strip_prefix_Some in Ep as ->. by apply split_once_Some in Eo as ->.
  - apply Forall_forall. intros v Hv. eapply forallb_forall in Hall; [done|by apply list_elem_of_In].
Qed.

(** Where a path must be, and what it must hold, to be snapd's. *)
Definition snapd_file (h : snapshot) (r : root) (q : path) (snap rev : bytes) : Prop :=
  let text := from_utf8_lossy q in
  starts_with ( #"snap/" ++ snap ++ #"/" ++ rev) text = true \/
  directly_in UNIT_DIRS text = true /\ exists n b, file_name q = Some n /\
    run h (Root.read_capped r q UNIT_CAP) = Ok (b, false) /\
    snap_written snap rev (from_utf8_lossy n) (from_utf8_lossy b).

Lemma split_on_two {A} (f : A -> bool) l a b rest : split_on f l = a :: b :: rest -> exists c tl, f c = true /\ l = a ++ c :: b ++ tl.
Proof.
  rewrite split_on_position. destruct (position f l) as [i|] eqn:E; [|done]. intros [= <- Hr].
  apply position_Some in E as (Hi & _ & c & Hc & Hf). exists c. rewrite split_on_position in Hr.
  assert (El : l = take i l ++ c :: drop (i + 1) l) by (rewrite Nat.add_1_r, <- drop_S by done; by rewrite take_drop).
  destruct (position f (drop (i + 1) l)) as [j|].
  - injection Hr as <- _. exists (drop j (drop (i + 1) l)). split; [done|]. by rewrite take_drop.
  - injection Hr as <- _. exists []. split; [done|]. by rewrite app_nil_r.
Qed.

(** A link in a [.wants] directory that ends at a vendor's template, for an
    instance the vendor's presets enable, or the template's default one. *)
Definition preset_file (h : snapshot) (r : root) (q : path) : Prop :=
  exists unit template instance_ end_ d,
    wanted_instance (from_utf8_lossy q) = Some (unit, template, instance_) /\
    run h (Root.resolve r q) = Ok end_ /\ d ∈ TEMPLATE_DIRS /\ path_eqb end_ (path_join d template) = true /\
    (run h (preset_verdict r unit template) = Some Instance_ \/
     run h (preset_verdict r unit template) = Some Template /\
     exists b cut, run h (Root.read_capped r end_ UNIT_CAP) = Ok (b, cut) /\
       default_instance (from_utf8_lossy b) instance_ = true).

(** A link to /dev/null in a vendor's directory of a running system, named in
    the script of a package that was installed when the link was made. *)
Definition mask_file (h : snapshot) (r : root) (q : path) : Prop :=
  is_live r = true /\ directly_in VENDOR_DIRS (from_utf8_lossy q) = true /\
  (exists t, run h (read_link r q) = Ok t /\ path_eqb t DEV_NULL = true) /\
  exists n m changed, file_name q = Some n /\ run h (stat r q) = Ok m /\ m_ctime m = Some changed /\
  exists ent pkg b cut l installed, ent ∈ listing h r INFO /\ from_utf8_lossy (de_name ent) = pkg ++ #".postinst" /\
    run h (Root.read_capped r (path_join INFO (pkg ++ #".postinst")) SCRIPT_CAP) = Ok (b, cut) /\
    contains_sub (from_utf8_lossy n) b = true /\ run h (list_written r pkg) = Some (l, installed) /\
    (installed <= changed <= installed + INSTALL_WINDOW)%Z.

Lemma made_at_spec changed installed : made_at changed installed = true -> (installed <= changed <= installed + INSTALL_WINDOW)%Z.
Proof.
  unfold made_at, changed_after_install, duration_since. rewrite andb_true_iff, !bool_decide_eq_true.
  intros [Hc Hle]. split; [done|]. rewrite (bool_decide_true (installed <= changed)%Z) in Hc by done.
  cbn [mbind option_bind] in Hc. case_bool_decide as Hw; [done|]. lia.
Qed.

Lemma run_scripts_name h r unit changed ents : run h (scripts_name r unit changed ents) = true ->
  exists c, changed = Some c /\ exists ent pkg b cut l installed, ent ∈ ents /\ from_utf8_lossy (de_name ent) = pkg ++ #".postinst" /\
    run h (Root.read_capped r (path_join INFO (pkg ++ #".postinst")) SCRIPT_CAP) = Ok (b, cut) /\
    contains_sub unit b = true /\ run h (list_written r pkg) = Some (l, installed) /\
    (installed <= c <= installed + INSTALL_WINDOW)%Z.
Proof.
  induction ents as [|ent ents IH]; [done|]. cbn [scripts_name].
  assert (IH' : run h (scripts_name r unit changed ents) = true -> exists c, changed = Some c /\
    exists ent' pkg b cut l installed, ent' ∈ ent :: ents /\ from_utf8_lossy (de_name ent') = pkg ++ #".postinst" /\
    run h (Root.read_capped r (path_join INFO (pkg ++ #".postinst")) SCRIPT_CAP) = Ok (b, cut) /\
    contains_sub unit b = true /\ run h (list_written r pkg) = Some (l, installed) /\
    (installed <= c <= installed + INSTALL_WINDOW)%Z).
  { intros (c & Hc & e & pkg & b & cut & l & t & Hin & Hrest)%IH. exists c. split; [done|].
    exists e, pkg, b, cut, l, t. split; [by right|done]. }
  cbv zeta. destruct (strip_suffix _ _) as [pkg|] eqn:Es; [|done]. apply strip_suffix_Some in Es. rewrite Es.
  rewrite run_bind. destruct (run h (Root.read_capped r _ SCRIPT_CAP)) as [[b cut]|e] eqn:Er; [|done].
  destruct (contains_sub unit b) eqn:Ec; cbn [negb]; [|done]. rewrite run_bind.
  destruct (run h (list_written r pkg)) as [[l t]|] eqn:El; [|done]. destruct changed as [c|]; [|done].
  destruct (made_at c t) eqn:Em; [|done]. intros _. exists c. split; [done|].
  exists ent, pkg, b, cut, l, t. apply made_at_spec in Em as [? ?]. split; [by left|by split_and!].
Qed.

Lemma run_postinst_mask h r q : run h (postinst_mask r q) = true -> mask_file h r q.
Proof.
  unfold postinst_mask, mask_file. destruct (directly_in VENDOR_DIRS _); cbn [negb orb]; [|done].
  destruct (is_live r); cbn [negb]; [|done]. rewrite run_bind.
  destruct (run h (read_link r q)) as [t|e]; [|done].
  destruct (path_eqb t DEV_NULL) eqn:Et; cbn [negb]; [|done].
  destruct (file_name q) as [n|]; [|done]. rewrite run_bind. destruct (run h (stat r q)) as [m|e]; [|done].
  rewrite run_bind. fold (listing h r INFO). intros (c & Hc & Hs)%run_scripts_name.
  split_and!; [done|done|by exists t|]. by exists n, m, c.
Qed.

Lemma run_preset_link h r q : run h (preset_link r q) = true -> preset_file h r q.
Proof.
  unfold preset_link, preset_file. destruct (wanted_instance _) as [[[unit template] instance_]|]; [|done].
  rewrite run_bind. destruct (run h (Root.resolve r q)) as [end_|e]; [|done].
  destruct (existsb _ TEMPLATE_DIRS) eqn:Ed; cbn [negb]; [|done].
  apply existsb_exists in Ed as (d & Hd%list_elem_of_In & Ed). rewrite run_bind.
  destruct (run h (preset_verdict r unit template)) as [[|]|] eqn:Ev; [| |done].
  - intros _. exists unit, template, instance_, end_, d. split_and!; try done. by left.
  - rewrite run_bind. cbn [run]. destruct (run h (Root.read_capped r end_ UNIT_CAP)) as [[b cut]|e] eqn:Er; [|done].
    intros Hdef. exists unit, template, instance_, end_, d. split_and!; try done. right. split; [done|]. by exists b, cut.
Qed.

(** What each producer's verdict rests on. *)
Definition evidence (h : snapshot) (r : root) (q : path) (by_ : producer) : Prop :=
  let under d := starts_with d (from_utf8_lossy q) = true in
  match by_ with
  | Producer.Snapd => exists snap rev, image h r snap rev /\ snapd_file h r q snap rev
  | Producer.SystemdGenerator => under #"run/systemd/generator"
  | Producer.SystemdTransient => under #"run/systemd/transient/"
  | Producer.SystemctlSetProperty => under #"run/systemd/system.control/" \/ under #"etc/systemd/system.control/"
  | Producer.CloudInit => under #"run/cloud-init/" \/ under #"var/lib/cloud/" /\ Forall (fun d => ~ under d) ADMIN_WRITTEN
  | Producer.Apk => under #"lib/apk/db/"
  | Producer.SystemdPreset => preset_file h r q
  | Producer.DpkgPostinst => mask_file h r q
  end.

Lemma by_place_evidence h r q by_ : by_place (run h (installed r)) (from_utf8_lossy q) = Some (Some by_) -> evidence h r q by_.
Proof.
  unfold by_place. set (text := from_utf8_lossy q). set (s := run h (installed r)).
  destruct (strip_prefix #"snap/" text) as [rest|] eqn:Es.
  - destruct (split_on _ rest) as [|snap [|rev more]] eqn:Eo; [done..|].
    destruct (has_revision s snap rev) eqn:Ev; [|done]. intros [= <-]. cbn.
    exists snap, rev. split; [by apply installed_revision|]. left.
    apply split_on_two in Eo as (c & tl & ->%bool_decide_eq_true & ->). apply strip_prefix_Some in Es. fold text. rewrite Es.
    assert ( #"snap/" ++ snap ++ slash :: rev ++ tl = ( #"snap/" ++ snap ++ #"/" ++ rev) ++ tl) as -> by by rewrite <- !app_assoc.
    unfold starts_with. by rewrite strip_prefix_app.
  - destruct (starts_with #"run/systemd/generator" text) eqn:E1; [by intros [= <-]|].
    destruct (starts_with #"run/systemd/transient/" text) eqn:E2; [by intros [= <-]|].
    destruct (_ || _) eqn:E3; [intros [= <-]; by apply orb_true_iff in E3|].
    clear E3. destruct (_ || _) eqn:E4.
    + intros [= <-]. apply orb_true_iff in E4 as [?|[? Ha]%andb_true_iff]; [by left|right]. split; [done|].
      apply Forall_forall. intros d Hd Hu. apply negb_true_iff, not_true_iff_false in Ha. apply Ha, existsb_exists.
      exists d. split; [by apply list_elem_of_In|done].
    + destruct (starts_with #"lib/apk/db/" text) eqn:E5; [by intros [= <-]|done].
Qed.

Lemma snap_unit_evidence h r q :
  directly_in UNIT_DIRS (from_utf8_lossy q) = true -> run h (snap_unit r (run h (installed r)) q) = true ->
  evidence h r q Producer.Snapd.
Proof.
  intros Hd. unfold snap_unit. destruct (file_name q) as [n|] eqn:En; [|done]. rewrite run_bind. cbn [run].
  destruct (run h (Root.read_capped r q UNIT_CAP)) as [[b [|]]|e] eqn:Er; [done| |done]. unfold snap_unit_text.
  assert (Hin : forall snap rev, image h r snap rev -> snap_written snap rev (from_utf8_lossy n) (from_utf8_lossy b) ->
    evidence h r q Producer.Snapd).
  { intros snap rev Hi Hw. exists snap, rev. split; [done|]. right. split; [done|]. by exists n, b. }
  destruct (starts_with _ _ && ends_with _ _) eqn:En'.
  - intros Hu. apply (mount_unit_written _ _ _ En') in Hu as (snap & rev & Hrev%installed_revision & Hw). by eapply Hin.
  - intros (snap & [rev Hi]%installed_snap & Hw)%service_unit_written. by eapply Hin.
Qed.

(** No path is called generated on its name alone but under the few
    directories only root's own services write: a snap's file needs an image
    of the snap installed and, in a unit directory, to say just what snapd
    writes; a preset's link, to end at a vendor's template for an instance
    the vendor enables; a mask, a running system, a link to /dev/null, and a
    script of a package installed when the link was made. Every such answer
    is for a path asked about. *)
Theorem generated_evidence (h : snapshot) (r : root) (unclaimed : pset) (p : path) (v : provenance) :
  pm_get (run h (classify r unclaimed)) p = Some v ->
  exists q by_, q ∈ ps_list unclaimed /\ path_eqb q p = true /\ v = Provenance.GeneratedBy by_ /\ evidence h r q by_.
Proof.
  intros (q & by_ & Hq & E & Hg & ->)%generated_classify_from. exists q, by_. split_and!; try done. revert Hg. unfold generated.
  rewrite run_bind. unfold producer_of. cbv zeta.
  destruct (by_place _ _) as [o|] eqn:Ep; [cbn [run]; intros ->; by apply by_place_evidence|].
  assert (Hlater : run h (preset_or_mask r q) = Some by_ -> evidence h r q by_).
  { unfold preset_or_mask. rewrite run_bind. destruct (run h (preset_link r q)) eqn:El; cbn [run].
    - intros [= <-]. by apply run_preset_link.
    - rewrite run_bind. cbn [run]. destruct (run h (postinst_mask r q)) eqn:Em; [|done].
      intros [= <-]. by apply run_postinst_mask. }
  rewrite run_bind. destruct (directly_in UNIT_DIRS _) eqn:Ed; [|done].
  destruct (run h (snap_unit r _ q)) eqn:Eu; [|done]. intros [= <-]. by apply snap_unit_evidence.
Qed.

(** ** Where a name does earn it *)

Module GeneratedDemo.
Definition dir (p : path) : path * Tree.node := (p, Tree.Dir 0 0x1ED).
Definition file (p : path) (ls : list bytes) : path * Tree.node := (p, Tree.File 0 0x1A4 (join [x0a] ls)).

Definition climbs : path := #"var/lib/cloud/../../../tmp/evil".
Definition host : Tree.tree :=
  [dir #"var"; dir #"var/lib"; dir #"var/lib/cloud"; dir #"tmp"; file #"tmp/evil" [ #"#!/bin/sh"];
   dir #"var/lib/snapd"; dir SNAPS; file (SNAPS ++ #"/foo_1.snap") [];
   dir #"etc"; dir #"etc/systemd"; dir #"etc/systemd/system";
   file #"etc/systemd/system/snap.foo.a.service" [ #"X-Snappy=yes"; #"ExecStart=/usr/bin/snap run foo.a"];
   file #"etc/systemd/system/snap.bar.a.service" [ #"X-Snappy=yes"; #"ExecStart=/usr/bin/snap run bar.a"];
   file #"etc/systemd/system/snap.foo.b.service" [ #"X-Snappy=yes"; #"ExecStart=/tmp/evil"];
   file #"etc/systemd/system/snap.foo.c.service" [ #"X-Snappy=yes"; #"ExecStart=/usr/bin/snap run foo.c ; /tmp/evil"]].
Definition kernel : snapshot := Tree.kernel host.
Definition by_of (p : path) : option producer := generated kernel Tree.offline p.
End GeneratedDemo.

Example generated_demo :
  (GeneratedDemo.by_of #"etc/systemd/system/snap.foo.a.service", GeneratedDemo.by_of #"etc/systemd/system/snap.bar.a.service",
   GeneratedDemo.by_of #"etc/systemd/system/snap.foo.b.service") = (Some Producer.Snapd, None, None).
Proof. by vm_compute. Qed.

(** The place is read off the text, and [..] is not: a file anywhere on the
    root, named through a producer's directory, is the producer's. *)
Theorem dotdot_generated :
  GeneratedDemo.by_of GeneratedDemo.climbs = Some Producer.CloudInit /\
  run GeneratedDemo.kernel (Root.resolve Tree.offline GeneratedDemo.climbs) = Ok #"tmp/evil" /\
  GeneratedDemo.by_of #"tmp/evil" = None.
Proof. by vm_compute. Qed.

(** A command line is read to its first command: what follows a lone
    semicolon, which systemd runs too, is not looked at. *)
Theorem snap_unit_second_command :
  GeneratedDemo.by_of #"etc/systemd/system/snap.foo.c.service" = Some Producer.Snapd.
Proof. by vm_compute. Qed.

Definition generated_small : pset := ps_of [ #"run/cloud-init/status"].
Lemma generated_small_answer :
  pm_get (run GeneratedDemo.kernel (classify Tree.offline generated_small)) #"run/cloud-init/status" =
    Some (Provenance.GeneratedBy Producer.CloudInit).
Proof. by vm_compute. Qed.

Lemma generated_evidence_witness : exists q, q ∈ ps_list generated_small /\
  evidence GeneratedDemo.kernel Tree.offline q Producer.CloudInit.
Proof.
  destruct (generated_evidence _ _ _ _ _ generated_small_answer) as (q & by_ & Hq & _ & Hv & He).
  exists q. injection Hv as <-. split; [exact Hq|exact He].
Defined.
