(* ===== verification/Reproduced.v ===== *)
(** [src/provenance/reproduced.rs]: files no manifest vouches for, made again
    from the packaged files they are generated from and compared byte for
    byte: copies of templates, pam-auth-update's stacks, authselect's. *)

From S2P Require Import Prelude Slices Order Num Utf8 Paths PathMap Kinds Entry Sys Root Tree Scan Provenance Backend.

Definition CAP : N := N.shiftl 256 10.
Definition NSSWITCH : path := #"etc/nsswitch.conf".
Definition NSSWITCH_TEMPLATE : path := #"usr/share/libc-bin/nsswitch.conf".
Definition COPIES : list (path * path) :=
  [(NSSWITCH, NSSWITCH_TEMPLATE);
   ( #"etc/profile", #"usr/share/base-files/profile");
   ( #"root/.bashrc", #"usr/share/base-files/dot.bashrc");
   ( #"root/.profile", #"usr/share/base-files/dot.profile");
   ( #"etc/ssh/sshd_config", #"usr/share/openssh/sshd_config");
   ( #"etc/inittab", #"usr/share/sysvinit/inittab")].
Definition SKEL : list bytes := [ #".bashrc"; #".profile"; #".bash_logout"].

Definition template_of (p : path) : option path :=
  match find (fun c => path_eqb (fst c) p) COPIES with
  | Some (_, template) => Some template
  | None =>
      name ← file_name p;
      if is_utf8 name && mem name SKEL && bool_decide (3 <= length (components p))
      then Some (path_join #"etc/skel" name) else None
  end.

Definition PAM_TYPES : list bytes := [ #"auth"; #"account"; #"password"; #"session"; #"session-noninteractive"].
Definition PAM_TEMPLATES : path := #"usr/share/pam".
Definition PAM_PROFILES : path := #"usr/share/pam-configs".
Definition PAM_SAVED : path := #"var/lib/pam".
Definition AUTHSELECT_CONF : path := #"etc/authselect/authselect.conf".
Definition AUTHSELECT_PAM : list bytes :=
  [ #"system-auth"; #"password-auth"; #"fingerprint-auth"; #"smartcard-auth"; #"switchable-auth"; #"postlogin"].
Definition newline : byte := x0a.
Definition AUTHSELECT_PREAMBLE : bytes := join [newline]
  [ #"# Generated by authselect";
    #"# Do not modify this file manually, use authselect instead. Any user changes will be overwritten.";
    #"# You can stop authselect from managing your configuration by calling 'authselect opt-out'.";
    #"# See authselect(8) for more details."; []; []].

Definition read (r : root) (p : path) : prog (option bytes) :=
  x ← Root.read_capped r p CAP; Ret match x with Ok (b, false) => Some b | _ => None end.

(** ** pam-auth-update *)

Definition tab : byte := x09.
Definition blank : byte := " ".
Definition PAM_EMPTY_PRIMARY : bytes := #"[default=1]" ++ [tab; tab; tab] ++ #"pam_permit.so".
Definition PAM_MARKERS : list bytes :=
  [ #"# here are the per-package modules (the " ++ [x22] ++ #"Primary" ++ [x22] ++ #" block)";
    #"# here's the fallback if no module succeeds";
    #"# and here are more per-package modules (the " ++ [x22] ++ #"Additional" ++ [x22] ++ #" block)";
    #"# end of pam-auth-update config"].

Definition pam_space (b : byte) : bool := bool_decide (b ∈ [blank; x09; x0a; x0d; x0b; x0c]).
Definition pam_trim (s : bytes) : bytes := trim_by pam_space s.

Definition pam_type (p : path) : option bytes :=
  rest ← path_strip_prefix #"etc/pam.d" p;
  name ← (if is_utf8 rest then strip_prefix #"common-" rest else None);
  find (fun t => bool_decide (t = name)) PAM_TYPES.

(** Each [Module: <name>] with the lines after it. *)
Definition saved_line (entries : list (bytes * list bytes)) (line : bytes) : list (bytes * list bytes) :=
  match strip_prefix #"Module: " line with
  | Some name => entries ++ [(name, [])]
  | None =>
      match last entries with
      | Some (name, ls) => removelast entries ++ [(name, ls ++ [line])]
      | None => entries
      end
  end.

Definition is_nil (s : bytes) : bool := bool_decide (s = []).
(** The stand-in for an empty Primary block, saved first. *)
Definition stand_in (e : bytes * list bytes) : bool :=
  bool_decide (fst e = #"null") && bool_decide (List.filter (negb ∘ is_nil) (snd e) = [PAM_EMPTY_PRIMARY]).
Definition profile_name (name : bytes) : bool :=
  is_utf8 name && negb (is_nil name || bool_decide (name = #".") || bool_decide (name = #"..") || contains_sub #"/" name).

Definition modules_of (b : bytes) : list bytes :=
  let entries := foldl saved_line [] (split_on (is_byte newline) b) in
  let entries := match entries with e :: es => if stand_in e then es else entries | [] => [] end in
  List.filter profile_name (fst <$> entries).

Definition saved_modules (r : root) (ty : bytes) : prog (list bytes) :=
  b ← read r (path_join PAM_SAVED ty); Ret match b with Some b => modules_of b | None => [] end.

Definition prefix_until (f : byte -> bool) (s : bytes) : bytes := take (default (length s) (position f s)) s.
Definition suffix_from (f : byte -> bool) (s : bytes) : bytes := drop (default (length s) (position f s)) s.

Definition profile_line (st : gmap bytes (list bytes) * option bytes) (line : bytes) : gmap bytes (list bytes) * option bytes :=
  let '(fields, current) := st in
  let word := prefix_until pam_space line in
  match strip_suffix #":" word with
  | Some (c :: name) =>
      let value := suffix_from (negb ∘ pam_space) (drop (length word) line) in
      (<[c :: name := if is_nil value then [] else [value]]> fields, Some (c :: name))
  | _ =>
      match current with
      | Some name =>
          let line := pam_trim line in
          (if is_nil line then fields else <[name := default [] (fields !! name) ++ [line]]> fields, current)
      | None => st
      end
  end.
Definition pam_profile (text : bytes) : gmap bytes (list bytes) :=
  fst (foldl profile_line (∅, None) (split_on (is_byte newline) text)).

(** [slice::split_inclusive]. *)
Fixpoint split_inclusive {A} (f : A -> bool) (l : list A) : list (list A) :=
  match l with
  | [] => []
  | x :: l' =>
      if f x then [x] :: split_inclusive f l'
      else match split_inclusive f l' with [] => [[x]] | s :: ss => (x :: s) :: ss end
  end.

Fixpoint markers_from (markers : list bytes) (from : nat) (lines : list bytes) : option (list nat) :=
  match markers with
  | [] => Some []
  | m :: ms =>
      i ← position (starts_with m) (drop from lines);
      rest ← markers_from ms (from + i + 1) lines; Some (from + i :: rest)
  end.
Definition pam_markers (lines : list bytes) : option (list nat) := markers_from PAM_MARKERS 0 lines.

Definition is_word_byte (b : byte) : bool := is_ascii_alphanumeric b || bool_decide (b = "_"%byte).
Definition index_from (f : byte -> bool) (from : nat) (s : bytes) : nat :=
  match position f (drop from s) with Some i => from + i | None => length s end.

Definition pam_stack_line (word line : bytes) (jump : nat) : bytes :=
  let control := match line with
                 | c :: _ =>
                     if bool_decide (c = "["%byte) then default 0 (S <$> position (is_byte "]"%byte) line)
                     else index_from (negb ∘ is_word_byte) 0 line
                 | [] => length line
                 end in
  let sep := index_from (negb ∘ pam_space) control line in
  let module_ := index_from pam_space sep line in
  word ++ [tab] ++
  (if bool_decide (0 < control) && bool_decide (control < sep) && bool_decide (sep < module_) then
     replace_all #"end" (dec (N.of_nat jump)) (take control line) ++
     take (module_ - control) (drop control line) ++ [blank] ++
     join [blank] (List.filter (negb ∘ is_nil) (split_on pam_space (drop module_ line)))
   else [blank]) ++ [newline].

Definition PRIMARY : bytes := #"Primary".
Definition ADDITIONAL : bytes := #"Additional".

(** The lines of a block, and whether a profile of its type has come yet. *)
Record block := mk_block { bl_lines : list bytes; bl_begun : bool }.

Definition add_profile (fields : gmap bytes (list bytes)) (main initial : bytes) (b : block) : block :=
  let first_initial := if bl_begun b then None
                       else ls ← fields !! initial; if bool_decide (ls = []) then None else Some ls in
  mk_block (bl_lines b ++ default [] (match first_initial with Some ls => Some ls | None => fields !! main end)) true.

Definition field_name (ty : bytes) : bytes :=
  match default ty (head (split_on (is_byte "-"%byte) ty)) with
  | c :: w => (if is_ascii_lower c then byte_of_N (Byte.to_N c - 32) else c) :: w
  | [] => []
  end.

(** Primary, then Additional. *)
Definition place_profile (ty : bytes) (st : block * block) (text : bytes) : block * block :=
  let fields := pam_profile text in
  let main := field_name ty in
  let initial := main ++ #"-Initial" in
  let kind := main ++ #"-Type" in
  if bool_decide (ty = #"session-noninteractive") && bool_decide (is_Some (fields !! #"Session-Interactive-Only")) then st
  else if bool_decide (fields !! kind = Some [PRIMARY]) then (add_profile fields main initial (fst st), snd st)
  else if bool_decide (fields !! kind = Some [ADDITIONAL]) then (fst st, add_profile fields main initial (snd st))
  else st.

(** Stack lines after what is written, each given how many follow it and
    [extra]; [None] once it is more than fits. *)
Fixpoint write_block (word : bytes) (extra : nat) (out : bytes) (ls : list bytes) : option bytes :=
  match ls with
  | [] => Some out
  | l :: ls' =>
      let out := out ++ pam_stack_line word l (length ls' + extra) in
      if (CAP <? N.of_nat (length out))%N then None else write_block word extra out ls'
  end.

Definition assemble (word : bytes) (lines : list bytes) (at_ : list nat) (primary additional : list bytes) : option bytes :=
  match at_ with
  | [primary_at; fallback_at; additional_at; end_at] =>
      let out := mjoin (take (primary_at + 1) lines) in
      let out := if bool_decide (primary = []) then out ++ word ++ [tab] ++ PAM_EMPTY_PRIMARY ++ [newline] else out in
      out ← write_block word 1 out primary;
      let out := out ++ mjoin (take (additional_at + 1 - fallback_at) (drop fallback_at lines)) in
      out ← write_block word 0 out additional;
      Some (out ++ mjoin (drop end_at lines))
  | _ => None
  end.

(** Bind over a program that may give nothing. *)
Definition try_some {A B} (p : prog (option A)) (f : A -> prog (option B)) : prog (option B) :=
  x ← p; match x with Some a => f a | None => Ret None end.

Definition template_lines (b : bytes) : list bytes := split_inclusive (is_byte newline) b.
Definition common (ty : bytes) : path := path_join PAM_TEMPLATES ( #"common-" ++ ty).

(** The templates written before this one have their markers. *)
Fixpoint earlier_ok (r : root) (tys : list bytes) : prog bool :=
  match tys with
  | [] => Ret true
  | ty :: tys' =>
      b ← read r (common ty);
      match b with
      | Some b => if bool_decide (is_Some (pam_markers (template_lines b))) then earlier_ok r tys' else Ret false
      | None => Ret false
      end
  end.

Fixpoint read_profiles (r : root) (seen : gset bytes) (modules : list bytes) : prog (option (list bytes)) :=
  match modules with
  | [] => Ret (Some [])
  | name :: modules' =>
      if bool_decide (name ∈ seen) then read_profiles r seen modules'
      else
        try_some (read r (path_join PAM_PROFILES name)) (fun text =>
        try_some (read_profiles r ({[name]} ∪ seen) modules') (fun texts => Ret (Some (text :: texts))))
  end.

Fixpoint take_until (ty : bytes) (tys : list bytes) : list bytes :=
  match tys with t :: tys' => if bool_decide (t = ty) then [] else t :: take_until ty tys' | [] => [] end.

Definition pam_auth_update (r : root) (ty : bytes) (template : path) (modules : list bytes) : prog (option bytes) :=
  if negb (mem ty PAM_TYPES) then Ret None
  else
    earlier ← earlier_ok r (take_until ty PAM_TYPES);
    if negb earlier then Ret None
    else
      try_some (read r template) (fun text =>
      let lines := template_lines text in
      match pam_markers lines with
      | None => Ret None
      | Some at_ =>
          try_some (read_profiles r ∅ modules) (fun texts =>
          let '(primary, additional) := foldl (place_profile ty) (mk_block [] false, mk_block [] false) texts in
          let word := default ty (head (split_on (is_byte "-"%byte) ty)) in
          Ret (assemble word lines at_ (bl_lines primary) (bl_lines additional)))
      end).

(** ** authselect *)

Definition authselect_name (p : path) : option bytes :=
  name ← path_strip_prefix #"etc/pam.d" p;
  if is_utf8 name then find (fun n => bool_decide (n = name)) AUTHSELECT_PAM else None.

Definition PROFILE_DIRS : list path := [ #"usr/share/authselect/vendor"; #"usr/share/authselect/default"].

Fixpoint first_existing (r : root) (dirs : list path) : prog (option path) :=
  match dirs with
  | [] => Ret None
  | d :: dirs' => here ← exists_ r d; if here : bool then Ret (Some d) else first_existing r dirs'
  end.

Definition authselect_config (r : root) : prog (option (path * list bytes)) :=
  try_some (read r AUTHSELECT_CONF) (fun b =>
  if negb (is_utf8 b) then Ret None
  else
    match List.filter (negb ∘ is_nil) (trim <$> lines b) with
    | [] => Ret None
    | id_ :: features =>
        if contains_sub #".." id_ then Ret None
        else
          match strip_prefix #"custom/" id_ with
          | Some custom => Ret (Some (path_join #"etc/authselect/custom" custom, features))
          | None =>
              try_some (first_existing r ((fun d => path_join d id_) <$> PROFILE_DIRS))
                (fun dir => Ret (Some (dir, features)))
          end
    end).

Definition AUTHSELECT_DEPTH : N := 50000.

Inductive op :=
| Continue (e : bytes)
| Stop (e : bytes)
| Include (e : bytes)
| Exclude (e : bytes)
| Imply (name e : bytes)
| If (e yes : bytes) (no : option bytes).

Definition op_expr (o : op) : bytes :=
  match o with Continue e | Stop e | Include e | Exclude e | Imply _ e | If e _ _ => e end.

Inductive fail := Syntax | Depth.

Definition open_brace : byte := "{".
Definition close_brace : byte := "}".
Definition quote : byte := x22.
Definition slice {A} (from to : nat) (l : list A) : list A := take (to - from) (drop from l).

(** Up to a brace or one of the bytes that stop it. *)
Definition span (line : bytes) (from : nat) (stop : bytes) : nat :=
  index_from (fun b => bool_decide (b = open_brace) || bool_decide (b = close_brace) || mem b stop) from line.

Definition is_at (line : bytes) (i : nat) (b : byte) : bool := bool_decide (line !! i = Some b).

(** An expression running to a closing brace. *)
Definition expr_at (line : bytes) (from : nat) : option (bytes * nat) :=
  let end_ := span line from #":|" in
  if bool_decide (from < end_) && is_at line end_ close_brace then Some (slice from end_ line, end_ + 1) else None.

Definition imply_at (line : bytes) (from : nat) : option (nat * op) :=
  let name_end := span line from [("|"%byte); quote] in
  let link := quote :: #" if " in
  let cond := name_end + length link in
  if bool_decide (name_end = from) || negb (bool_decide (cond <= length line /\ slice name_end cond line = link)) then None
  else '(e, end_) ← expr_at line cond; Some (end_, Imply (slice from name_end line) e).

Definition if_at (line : bytes) (from : nat) : option (nat * op) :=
  let colon := span line from #":|" in
  if bool_decide (colon = from) || negb (is_at line colon ":"%byte) then None
  else
    let yes_end := span line (colon + 1) #"|" in
    let e := slice from colon line in
    let yes := slice (colon + 1) yes_end line in
    if is_at line yes_end close_brace then Some (yes_end + 1, If e yes None)
    else if is_at line yes_end "|"%byte then
      let no_end := span line (yes_end + 1) #"|" in
      if is_at line no_end close_brace then Some (no_end + 1, If e yes (Some (slice (yes_end + 1) no_end line))) else None
    else None.

(** The operator whose brace is at [at_], and where it ends. *)
Definition authselect_op (line : bytes) (at_ : nat) : option (nat * op) :=
  let body := drop (at_ + 1) line in
  let found kw := if starts_with kw body then Some (at_ + 1 + length kw) else None in
  let of_expr (f : bytes -> op) from := '(e, end_) ← expr_at line from; Some (end_, f e) in
  match found #"continue if " with Some from => of_expr Continue from | None =>
  match found #"stop if " with Some from => of_expr Stop from | None =>
  match found #"include if " with Some from => of_expr Include from | None =>
  match found #"exclude if " with Some from => of_expr Exclude from | None =>
  match found ( #"imply " ++ [quote]) with Some from => imply_at line from | None =>
  match found #"if " with Some from => if_at line from | None => None
  end end end end end end.

Inductive token := Open | Close | Name (n : bytes) | And | Or | Not | End.

Definition is_blank (b : byte) : bool := bool_decide (b = blank) || bool_decide (b = tab).
Definition is_ascii_alphabetic (b : byte) : bool := is_ascii_lower b || is_ascii_upper b.

Definition keyword (w : bytes) : option token :=
  let w := to_ascii_lowercase w in
  if bool_decide (w = #"and") then Some And
  else if bool_decide (w = #"or") then Some Or
  else if bool_decide (w = #"not") then Some Not
  else None.

(** The next token and the text after it. *)
Definition authselect_token (text : bytes) : result fail (token * bytes) :=
  let text := drop_while is_blank text in
  match text with
  | [] => Ok (End, [])
  | c :: rest =>
      if bool_decide (c = "("%byte) then Ok (Open, rest)
      else if bool_decide (c = ")"%byte) then Ok (Close, rest)
      else if bool_decide (c = quote) then
        match position (is_byte quote) rest with
        | Some i => Ok (Name (take i rest), drop (i + 1) rest)
        | None => Err Syntax
        end
      else if is_ascii_alphabetic c then
        let w := prefix_until (negb ∘ is_ascii_alphabetic) text in
        match keyword w with
        | Some t => Ok (t, drop (length w) text)
        | None => Err Syntax
        end
      else Ok (End, [])
  end.

(** An open parenthesis: the value so far, the operator waiting for its next
    operand ([true] for [and]), and whether that operand is negated. *)
Record group := mk_group { g_value : option bool; g_and : option bool; g_negate : bool }.
Definition no_group : group := mk_group None None false.

Definition wants_operand (g : group) : bool :=
  bool_decide (g_value g = None) || bool_decide (is_Some (g_and g)).

Definition take_operand (g : group) (operand : bool) : group :=
  let operand := xorb operand (g_negate g) in
  mk_group (Some match g_value g, g_and g with
                 | Some value, Some true => value && operand
                 | Some value, Some false => value || operand
                 | _, _ => operand
                 end) None false.

(** One token: the value, a failure, or the groups (innermost first) and the
    text left. *)
Definition eval_step (features : gset bytes) (st : list group * bytes) : result fail bool + (list group * bytes) :=
  let '(groups, text) := st in
  match authselect_token text with
  | Err e => inl (Err e)
  | Ok (t, rest) =>
      match groups with
      | [] => inl (Err Syntax)
      | g :: gs =>
          let wants := wants_operand g in
          match t with
          | Not => if wants then inr (mk_group (g_value g) (g_and g) (negb (g_negate g)) :: gs, rest) else inl (Err Syntax)
          | Open =>
              if wants then
                if (AUTHSELECT_DEPTH <? N.of_nat (length groups))%N then inl (Err Depth) else inr (no_group :: groups, rest)
              else inl (Err Syntax)
          | And => if wants then inl (Err Syntax) else inr (mk_group (g_value g) (Some true) (g_negate g) :: gs, rest)
          | Or => if wants then inl (Err Syntax) else inr (mk_group (g_value g) (Some false) (g_negate g) :: gs, rest)
          | Name n => if wants then inr (take_operand g (bool_decide (n ∈ features)) :: gs, rest) else inl (Err Syntax)
          | Close =>
              match gs with
              | outer :: gs' =>
                  if wants then inl (Err Syntax) else inr (take_operand outer (default false (g_value g)) :: gs', rest)
              | [] => inl (Err Syntax)
              end
          | End =>
              match gs with
              | [] => if wants then inl (Err Syntax) else inl (Ok (default false (g_value g)))
              | _ :: _ => inl (Err Syntax)
              end
          end
      end
  end.

Fixpoint eval_loop (features : gset bytes) (fuel : nat) (st : list group * bytes) : option (result fail bool) :=
  match fuel with
  | 0 => None
  | S fuel' => match eval_step features st with inl r => Some r | inr st => eval_loop features fuel' st end
  end.

(** Each token but the last takes a byte at least, so the text is fuel
    enough ([eval_total]). *)
Definition authselect_eval (text : bytes) (features : gset bytes) : result fail bool :=
  default (Err Syntax) (eval_loop features (S (length text)) ([no_group], text)).

(** What an operator does to its line. *)
Inductive effect :=
| Write (s : bytes)
| DropLine (features : gset bytes)
| StopHere
| Empty
| NoFile.

Definition apply_op (features : gset bytes) (o : op) : effect :=
  match authselect_eval (op_expr o) features with
  | Err Syntax => Empty
  | Err Depth => NoFile
  | Ok holds =>
      match o with
      | Continue _ => if holds then DropLine features else StopHere
      | Stop _ => if holds then StopHere else DropLine features
      | Include _ => if holds then Write [] else DropLine features
      | Exclude _ => if holds then DropLine features else Write []
      | If _ yes no => Write (if holds then yes else default [] no)
      | Imply name _ => DropLine (if holds then {[name]} ∪ features else features)
      end
  end.

Inductive line_end :=
| Line (s : bytes)
| Dropped (features : gset bytes)
| Stopped (s : bytes)
| Emptied
| Refused.

(** One line from [from] on, [copied] of it written; a step moves [from] on. *)
Fixpoint render_line (fuel : nat) (features : gset bytes) (line out : bytes) (copied from : nat) : line_end :=
  match fuel with
  | 0 => Refused
  | S fuel' =>
      match position (is_byte open_brace) (drop from line) with
      | None => Line (out ++ drop copied line)
      | Some i =>
          let brace := from + i in
          match authselect_op line brace with
          | None => render_line fuel' features line out copied (brace + 1)
          | Some (end_, o) =>
              let out := out ++ slice copied brace line in
              match apply_op features o with
              | Empty => Emptied
              | NoFile => Refused
              | StopHere => Stopped out
              | DropLine features => Dropped features
              | Write s => render_line fuel' features line (out ++ s) end_ end_
              end
          end
      end
  end.

Definition trim_space (b : byte) : bool := bool_decide (b ∈ [blank; x09; x0d; x0b; x0c]).
Definition trim_line (line : bytes) : bytes :=
  let kept := drop_while_end trim_space line in
  if bool_decide (kept = []) then take 1 line else kept.
Definition authselect_trim (text : bytes) : bytes := join [newline] (trim_line <$> split_on (is_byte newline) text).

(** The lines in turn; [out] is what the lines before wrote. *)
Fixpoint render_lines (features : gset bytes) (out : bytes) (lines : list bytes) : option bytes :=
  match lines with
  | [] => Some (authselect_trim out)
  | line :: lines' =>
      match render_line (S (length line)) features line [] 0 0 with
      | Line s =>
          let out := out ++ s ++ (if bool_decide (lines' = []) then [] else [newline]) in
          render_lines features out lines'
      | Dropped features => render_lines features out lines'
      | Stopped s => Some (authselect_trim (out ++ s))
      | Emptied => Some []
      | Refused => None
      end
  end.

Definition authselect_render (template : bytes) (features : list bytes) : option bytes :=
  render_lines (list_to_set features) [] (split_on (is_byte newline) template).

(** ** Recipes *)

Module Recipe.
Inductive recipe :=
| Copy (template : path)
| Pam (ty : bytes) (template : path) (modules : list bytes)
| Authselect (template : path) (features : list bytes).
End Recipe.
Export Recipe(recipe).

Definition recipe_of (r : root) (p : path) : prog (option recipe) :=
  match pam_type p with
  | Some ty => modules ← saved_modules r ty; Ret (Some (Recipe.Pam ty (common ty) modules))
  | None =>
      match authselect_name p with
      | Some name =>
          try_some (authselect_config r) (fun df =>
            Ret (Some (Recipe.Authselect (path_join (fst df) name) (snd df))))
      | None => Ret (Recipe.Copy <$> template_of p)
      end
  end.

Definition recipe_inputs (r : root) (x : recipe) : prog (list path) :=
  match x with
  | Recipe.Copy template => Ret [template]
  | Recipe.Pam _ template modules => Ret ((path_join PAM_PROFILES <$> modules) ++ [template])
  | Recipe.Authselect template _ => here ← exists_ r template; Ret (if here : bool then [template] else [])
  end.

Definition expected (r : root) (x : recipe) : prog (option bytes) :=
  match x with
  | Recipe.Copy template => read r template
  | Recipe.Pam ty template modules => pam_auth_update r ty template modules
  | Recipe.Authselect template features =>
      t ← read r template;
      match t with
      | Some t => Ret (b ← authselect_render t features; Some (AUTHSELECT_PREAMBLE ++ b))
      | None => here ← exists_ r template; Ret (if here : bool then None else Some AUTHSELECT_PREAMBLE)
      end
  end.

Definition made_by (x : recipe) (a : answers) : option bytes :=
  match x with
  | Recipe.Copy template =>
      match pm_get a template with
      | Some (Provenance.Packaged package _ _) => Some (package ++ #", identical to /" ++ display_path template)
      | _ => None
      end
  | Recipe.Pam _ _ _ => Some #"pam-auth-update"
  | Recipe.Authselect _ _ => Some #"authselect"
  end.

Definition inputs_for (r : root) (p : path) : prog (list path) :=
  x ← recipe_of r p;
  match x with Some x => recipe_inputs r x | None => Ret [] end.

Definition inputs (r : root) (wanted : pset) : prog (list path) :=
  ls ← traverse (inputs_for r) (ps_list wanted); Ret (mjoin (ls : list (list path))).

(** No package says anything of its content. *)
Definition open_question (a : answers) (p : path) : bool :=
  match pm_get a p with
  | None | Some (Provenance.Packaged _ _ Integrity.Unknown) => true
  | Some _ => false
  end.
Definition intact (a : answers) (p : path) : bool :=
  match pm_get a p with Some v => Provenance.is_packaged_intact v | None => false end.

(** What a path is a reproduction by. *)
Definition reproduction (r : root) (a : answers) (p : path) : prog (option bytes) :=
  if negb (open_question a p) then Ret None
  else
    try_some (recipe_of r p) (fun x =>
    match made_by x a with
    | None => Ret None
    | Some by_ =>
        ins ← recipe_inputs r x;
        if negb (forallb (intact a) ins) then Ret None
        else
          want ← expected r x;
          have ← read r p;
          Ret match want, have with
              | Some want, Some have => if bool_decide (want = have) then Some by_ else None
              | _, _ => None
              end
    end).

Definition classify (r : root) (wanted : pset) (a : answers) : prog answers :=
  fold_prog (fun out p =>
    by_ ← reproduction r a p;
    Ret match by_ with Some by_ => pm_insert p (Provenance.Reproduced by_) out | None => out end)
    pm_empty (ps_list wanted).

(** ** Laws *)

Lemma reproduced_run_classify h r (w : pset) a :
  run h (classify r w a) =
  foldl (fun (out : answers) p => match run h (reproduction r a p) with
           | Some by_ => pm_insert p (Provenance.Reproduced by_) out | None => out end) pm_empty (ps_list w).
Proof. unfold classify. rewrite run_fold_prog. apply foldl_ext_in. intros out p _. by rewrite run_bind. Qed.

Lemma reproduced_classify_ok h r (w : pset) a : pm_ok (run h (classify r w a)).
Proof.
  rewrite reproduced_run_classify. induction (ps_list w) as [|q l IH] using rev_ind; [apply pm_ok_empty|].
  rewrite foldl_app. cbn [foldl]. destruct (run h (reproduction r a q)); [by apply pm_ok_insert|done].
Qed.

Lemma reproduced_classify_from h r (w : pset) a p v :
  pm_get (run h (classify r w a)) p = Some v ->
  exists q by_, q ∈ ps_list w /\ path_eqb q p = true /\ run h (reproduction r a q) = Some by_ /\
    v = Provenance.Reproduced by_.
Proof.
  rewrite reproduced_run_classify. induction (ps_list w) as [|q l IH] using rev_ind; [cbn [foldl]; by rewrite pm_get_empty|].
  rewrite foldl_app. cbn [foldl].
  assert (IH' : pm_get (foldl (fun (out : answers) p => match run h (reproduction r a p) with
      | Some by_ => pm_insert p (Provenance.Reproduced by_) out | None => out end) pm_empty l) p = Some v ->
    exists q' by_, q' ∈ l ++ [q] /\ path_eqb q' p = true /\ run h (reproduction r a q') = Some by_ /\
      v = Provenance.Reproduced by_).
  { intros (q' & b' & Hq & ?)%IH. exists q', b'. split; [apply elem_of_app; by left|done]. }
  destruct (run h (reproduction r a q)) as [by_|] eqn:Eg; [|done].
  rewrite pm_get_insert. destruct (path_eqb q p) eqn:E; [|done].
  intros [= <-]. exists q, by_. split_and!; try done. apply elem_of_app. right. by left.
Qed.

Lemma run_try_some {A B} h (p : prog (option A)) (f : A -> prog (option B)) :
  run h (try_some p f) = match run h p with Some x => run h (f x) | None => None end.
Proof. unfold try_some. rewrite run_bind. by destruct (run h p). Qed.

Lemma run_read h r p b : run h (read r p) = Some b -> run h (Root.read_capped r p CAP) = Ok (b, false).
Proof.
  unfold read. rewrite run_bind. cbn [run]. destruct (run h (Root.read_capped r p CAP)) as [[c [|]]|e]; [done| |done].
  by intros [= ->].
Qed.


(** ** The evaluator ends *)

Lemma length_drop_while {A} (f : A -> bool) l : length (drop_while f l) <= length l.
Proof. induction l as [|x l IH]; [done|]. cbn. destruct (f x); cbn in *; lia. Qed.

Lemma token_shorter text t rest : authselect_token text = Ok (t, rest) -> t = End \/ length rest < length text.
Proof.
  unfold authselect_token. pose proof (length_drop_while is_blank text) as Hl.
  destruct (drop_while is_blank text) as [|c text'] eqn:Ed; [by intros [= <- _]; left|]. cbn [length] in Hl.
  repeat (case_bool_decide; [intros [= <- <-]; right; lia|]).
  case_bool_decide.
  - destruct (position _ text') as [i|]; [|done]. intros [= <- <-]. right. rewrite length_drop. lia.
  - destruct (is_ascii_alphabetic c) eqn:Ea; [|by intros [= <- _]; left].
    destruct (keyword _) as [t'|]; [|done]. intros [= <- <-]. right. unfold prefix_until. cbn [position].
    unfold compose at 1. rewrite Ea. cbn [negb]. rewrite length_drop, length_take. cbn [length].
    destruct (position _ text'); cbn [fmap option_fmap option_map default from_option id]; lia.
Qed.

Lemma step_shorter features gs text gs' text' :
  eval_step features (gs, text) = inr (gs', text') -> length text' < length text.
Proof.
  unfold eval_step. destruct (authselect_token text) as [[t rest]|e] eqn:Et; [|done].
  apply token_shorter in Et as [->|Hlt].
  - destruct gs as [|g [|]]; [done| |done]. by destruct (wants_operand g).
  - destruct gs as [|g gs]; [done|].
    destruct t; repeat (case_match; try done); intros [= _ <-]; done.
Qed.

Lemma eval_total features fuel gs text : length text < fuel -> is_Some (eval_loop features fuel (gs, text)).
Proof.
  revert gs text. induction fuel as [|fuel IH]; intros gs text Hf; [lia|]. cbn [eval_loop].
  destruct (eval_step features (gs, text)) as [r|[gs' text']] eqn:Es; [eauto|].
  apply step_shorter in Es. apply IH. lia.
Qed.

Lemma eval_more features fuel fuel' st x : eval_loop features fuel st = Some x -> fuel <= fuel' -> eval_loop features fuel' st = Some x.
Proof.
  revert fuel' st. induction fuel as [|fuel IH]; intros fuel' st; [done|]. cbn [eval_loop].
  destruct fuel' as [|fuel']; [lia|]. cbn [eval_loop]. destruct (eval_step features st); [done|]. intros H Hf. apply IH; [done|lia].
Qed.

(** ** What an expression means *)

(** A chain of operands, the operators between them grouping from the left;
    an operand is a name, a negated operand, or a chain in parentheses. *)
Inductive operand :=
| ONamed (n : bytes)
| ONot (o : operand)
| OParen (first : operand) (rest : list (bool * operand)).

Fixpoint operand_value (features : gset bytes) (o : operand) : bool :=
  match o with
  | ONamed n => bool_decide (n ∈ features)
  | ONot o => negb (operand_value features o)
  | OParen first rest =>
      (fix chain (v : bool) (rest : list (bool * operand)) : bool :=
         match rest with
         | [] => v
         | (and_, o) :: rest' =>
             let w := operand_value features o in chain (if and_ : bool then v && w else v || w) rest'
         end) (operand_value features first) rest
  end.
Definition chain_value (features : gset bytes) (v : bool) (rest : list (bool * operand)) : bool :=
  foldl (fun v ao => if ao.1 : bool then v && operand_value features ao.2 else v || operand_value features ao.2) v rest.
Definition expression_value (features : gset bytes) (e : operand * list (bool * operand)) : bool :=
  chain_value features (operand_value features e.1) e.2.

Lemma operand_value_paren features first rest :
  operand_value features (OParen first rest) = expression_value features (first, rest).
Proof.
  cbn [operand_value]. unfold expression_value, chain_value. cbn [fst snd]. generalize (operand_value features first).
  induction rest as [|[and_ o] rest IH]; intros v; [done|]. cbn [foldl fst snd]. by rewrite <- IH.
Qed.

(** As authselect takes it: a name in quotes, words apart. *)
Definition op_word (and_ : bool) : bytes := if and_ then #" and " else #" or ".
Fixpoint print_operand (o : operand) : bytes :=
  match o with
  | ONamed n => quote :: n ++ [quote]
  | ONot o => #"not " ++ print_operand o
  | OParen first rest =>
      #"(" ++ print_operand first ++
      (fix chain (rest : list (bool * operand)) : bytes :=
         match rest with [] => [] | (and_, o) :: rest' => op_word and_ ++ print_operand o ++ chain rest' end) rest ++ #")"
  end.
Definition print_chain (rest : list (bool * operand)) : bytes := rest ≫= fun ao => op_word ao.1 ++ print_operand ao.2.
Definition print_expression (e : operand * list (bool * operand)) : bytes := print_operand e.1 ++ print_chain e.2.

Lemma print_operand_paren first rest : print_operand (OParen first rest) = #"(" ++ print_expression (first, rest) ++ #")".
Proof.
  cbn [print_operand]. unfold print_expression. cbn [fst snd]. rewrite <- (app_assoc (print_operand first)). do 2 f_equal.
  unfold print_chain. induction rest as [|[and_ o] rest IH]; [done|]. cbn [mbind list_bind fst snd].
  rewrite <- !app_assoc. do 2 f_equal. exact IH.
Qed.

(** How deep its parentheses nest, and that no name holds a quote. *)
Fixpoint operand_depth (o : operand) : nat :=
  match o with
  | ONamed _ => 0
  | ONot o => operand_depth o
  | OParen first rest =>
      S (Nat.max (operand_depth first)
           ((fix chain (rest : list (bool * operand)) : nat :=
               match rest with [] => 0 | (_, o) :: rest' => Nat.max (operand_depth o) (chain rest') end) rest))
  end.
Fixpoint operand_ok (o : operand) : Prop :=
  match o with
  | ONamed n => Forall (fun x => is_byte quote x = false) n
  | ONot o => operand_ok o
  | OParen first rest =>
      operand_ok first /\
      (fix chain (rest : list (bool * operand)) : Prop :=
         match rest with [] => True | (_, o) :: rest' => operand_ok o /\ chain rest' end) rest
  end.
Definition chain_depth (rest : list (bool * operand)) : nat := foldr (fun ao n => Nat.max (operand_depth ao.2) n) 0 rest.
Definition chain_ok (rest : list (bool * operand)) : Prop := Forall (fun ao => operand_ok ao.2) rest.

Lemma operand_depth_paren first rest : operand_depth (OParen first rest) = S (Nat.max (operand_depth first) (chain_depth rest)).
Proof.
  cbn [operand_depth]. do 2 f_equal. unfold chain_depth. induction rest as [|[a o] rest IH]; [done|].
  cbn [foldr snd]. by rewrite <- IH.
Qed.
Lemma operand_ok_paren first rest : operand_ok (OParen first rest) <-> operand_ok first /\ chain_ok rest.
Proof.
  cbn [operand_ok]. unfold chain_ok. induction rest as [|[a o] rest IH]; [by rewrite Forall_nil|].
  rewrite Forall_cons. cbn [snd]. tauto.
Qed.

(** Induction over operands and the chains in them. *)
Lemma operand_ind' (P : operand -> Prop) :
  (forall n, P (ONamed n)) -> (forall o, P o -> P (ONot o)) ->
  (forall first rest, P first -> Forall (fun ao => P ao.2) rest -> P (OParen first rest)) -> forall o, P o.
Proof.
  intros H1 H2 H3. fix IH 1. intros [n|o|first rest]; [apply H1|apply H2, IH|]. apply H3; [apply IH|].
  induction rest as [|[a o] rest IHr]; constructor; [apply IH|exact IHr].
Qed.

(** Steps of the evaluator lead from one state to another. *)
Inductive steps (features : gset bytes) : list group * bytes -> list group * bytes -> Prop :=
| steps_refl st : steps features st st
| steps_step st st' st'' : eval_step features st = inr st' -> steps features st' st'' -> steps features st st''.

Lemma steps_trans features st st' st'' : steps features st st' -> steps features st' st'' -> steps features st st''.
Proof. induction 1; [done|]. intros. eapply steps_step; eauto. Qed.
Lemma steps_one features st st' : eval_step features st = inr st' -> steps features st st'.
Proof. intros. eapply steps_step; [done|constructor]. Qed.

Lemma steps_eval features st st' x :
  steps features st st' -> eval_step features st' = inl x -> exists fuel, eval_loop features fuel st = Some x.
Proof.
  induction 1 as [st|st st' st'' Hs _ IH]; intros He.
  - exists 1. cbn. by rewrite He.
  - destruct (IH He) as [fuel Hf]. exists (S fuel). cbn [eval_loop]. by rewrite Hs.
Qed.

(** Tokens of what is printed. *)
Lemma token_blank text : authselect_token (blank :: text) = authselect_token text.
Proof. done. Qed.

Lemma token_name n s : Forall (fun x => is_byte quote x = false) n ->
  authselect_token (quote :: n ++ quote :: s) = Ok (Name n, s).
Proof.
  intros H. unfold authselect_token. cbn [drop_while]. change (is_blank quote) with false. cbv iota.
  rewrite (bool_decide_false (quote = "("%byte)), (bool_decide_false (quote = ")"%byte)), (bool_decide_true (quote = quote)) by done.
  rewrite position_app by (done || by apply bool_decide_eq_true). rewrite take_app_length.
  replace (n ++ quote :: s) with ((n ++ [quote]) ++ s) by by rewrite <- app_assoc.
  by rewrite drop_app_length' by (rewrite length_app; cbn; lia).
Qed.

Lemma token_not s : authselect_token ( #"not " ++ s) = Ok (Not, #" " ++ s).
Proof. done. Qed.
Lemma token_word and_ s : authselect_token (op_word and_ ++ s) = Ok (if and_ then And else Or, #" " ++ s).
Proof. by destruct and_. Qed.

Lemma step_blank features gs text : eval_step features (gs, #" " ++ text) = eval_step features (gs, text).
Proof. done. Qed.

(** One step or more. *)
Definition leads (features : gset bytes) (st st' : list group * bytes) : Prop :=
  exists st1, eval_step features st = inr st1 /\ steps features st1 st'.
Lemma leads_steps features st st' : leads features st st' -> steps features st st'.
Proof. intros (st1 & ? & ?). by eapply steps_step. Qed.
Lemma leads_blank features gs text st' : leads features (gs, text) st' -> leads features (gs, #" " ++ text) st'.
Proof. intros (st1 & ? & ?). exists st1. by rewrite step_blank. Qed.
Lemma leads_one features st st' : eval_step features st = inr st' -> leads features st st'.
Proof. intros. exists st'. split; [done|constructor]. Qed.
Lemma leads_trans features st st' st'' : leads features st st' -> steps features st' st'' -> leads features st st''.
Proof. intros (st1 & ? & ?) ?. exists st1. split; [done|]. by eapply steps_trans. Qed.

Definition fits (gs : list group) (depth : nat) : Prop := (N.of_nat (length gs + depth) <= AUTHSELECT_DEPTH + 1)%N.
Definition waiting (v and_ : bool) : group := mk_group (Some v) (Some and_) false.
Definition holding (v : bool) : group := mk_group (Some v) None false.

(** An operand is read where one is wanted, and given to the group. *)
Definition reads_operand (features : gset bytes) (o : operand) : Prop := forall g gs s,
  operand_ok o -> wants_operand g = true -> fits (g :: gs) (operand_depth o) ->
  leads features (g :: gs, print_operand o ++ s) (take_operand g (operand_value features o) :: gs, s).

(** A chain goes on from the value so far. *)
Lemma steps_chain features rest : Forall (fun ao => reads_operand features ao.2) rest -> forall v gs s,
  chain_ok rest -> fits (holding v :: gs) (chain_depth rest) ->
  steps features (holding v :: gs, print_chain rest ++ s) (holding (chain_value features v rest) :: gs, s).
Proof.
  induction 1 as [|[and_ o] rest Ho _ IH]; intros v gs s Hok Hd; [constructor|].
  apply Forall_cons in Hok as [Hok Hoks]. unfold fits in *. cbn [chain_depth foldr snd] in *. fold (chain_depth rest) in Hd.
  change (print_chain ((and_, o) :: rest)) with ((op_word and_ ++ print_operand o) ++ print_chain rest).
  rewrite <- !app_assoc.
  eapply steps_step; [unfold eval_step; rewrite token_word; by destruct and_|].
  assert (Hl : leads features (waiting v and_ :: gs, #" " ++ print_operand o ++ print_chain rest ++ s)
    (take_operand (waiting v and_) (operand_value features o) :: gs, print_chain rest ++ s)).
  { apply leads_blank, Ho; [done|done|]. unfold fits. cbn [length] in *. lia. }
  apply leads_steps in Hl.
  assert (Ht : take_operand (waiting v and_) (operand_value features o) =
    holding (if and_ then v && operand_value features o else v || operand_value features o)).
  { unfold take_operand, waiting, holding. cbn. by destruct and_, (operand_value features o). }
  rewrite Ht in Hl. eapply steps_trans; [exact Hl|]. apply IH; [done|]. cbn [length] in *. lia.
Qed.

Lemma reads_every_operand features o : reads_operand features o.
Proof.
  induction o as [n|o IH|first rest IH1 IH2] using operand_ind'; intros g gs s Hok Hw Hd.
  - apply leads_one. cbn [print_operand app]. rewrite <- app_assoc. cbn [app]. unfold eval_step.
    rewrite token_name by done. by rewrite Hw.
  - cbn [print_operand operand_value]. rewrite <- app_assoc.
    exists (mk_group (g_value g) (g_and g) (negb (g_negate g)) :: gs, #" " ++ print_operand o ++ s).
    split; [unfold eval_step; by rewrite token_not, Hw|]. apply leads_steps, leads_blank.
    assert (take_operand g (negb (operand_value features o)) =
      take_operand (mk_group (g_value g) (g_and g) (negb (g_negate g))) (operand_value features o)) as ->.
    { unfold take_operand. cbn [g_value g_and g_negate]. by destruct (operand_value features o), (g_negate g). }
    by apply IH.
  - apply operand_ok_paren in Hok as [Hf Hr]. rewrite operand_depth_paren in Hd. rewrite operand_value_paren.
    rewrite print_operand_paren. unfold print_expression. cbn [fst snd]. unfold fits in Hd. cbn [length] in Hd.
    exists (no_group :: g :: gs, print_operand first ++ print_chain rest ++ #")" ++ s). split.
    { rewrite <- !app_assoc. unfold eval_step. change (authselect_token ( #"(" ++ ?x)) with (@Ok fail _ (Open, x)).
      rewrite Hw. destruct (N.ltb_spec AUTHSELECT_DEPTH (N.of_nat (length (g :: gs)))) as [Hlt|]; [|done].
      cbn [length] in Hlt. lia. }
    assert (H1 : leads features (no_group :: g :: gs, print_operand first ++ print_chain rest ++ #")" ++ s)
      (holding (operand_value features first) :: g :: gs, print_chain rest ++ #")" ++ s)).
    { pose proof (IH1 no_group (g :: gs) (print_chain rest ++ #")" ++ s) Hf eq_refl) as H.
      assert (take_operand no_group (operand_value features first) = holding (operand_value features first)) as E
        by (unfold take_operand, holding; cbn; by destruct (operand_value features first)).
      rewrite E in H. apply H. unfold fits. cbn [length]. lia. }
    eapply steps_trans; [by apply leads_steps|]. eapply steps_trans.
    { apply steps_chain; [done|done|]. unfold fits. cbn [length]. lia. }
    apply steps_one. unfold eval_step. change (authselect_token ( #")" ++ s)) with (@Ok fail _ (Close, s)). done.
Qed.

(** An authselect expression means what it is printed from: its operands
    in turn, [and] and [or] of one precedence grouping from the left, [not]
    taking the one operand after it, a chain in parentheses its own value,
    and a name true when the feature is selected; down to the fifty thousand
    parentheses the tool itself nests. *)
Theorem authselect_eval_meaning (features : gset bytes) (e : operand * list (bool * operand)) :
  operand_ok e.1 -> chain_ok e.2 -> (N.of_nat (Nat.max (operand_depth e.1) (chain_depth e.2)) <= AUTHSELECT_DEPTH)%N ->
  authselect_eval (print_expression e) features = Ok (expression_value features e).
Proof.
  destruct e as [first rest]. cbn [fst snd]. intros Hf Hr Hd. unfold print_expression, expression_value. cbn [fst snd].
  assert (H : steps features ([no_group], print_operand first ++ print_chain rest)
    ([holding (chain_value features (operand_value features first) rest)], [])).
  { eapply steps_trans.
    - apply leads_steps, reads_every_operand; [done|done|]. unfold fits. cbn [length]. lia.
    - assert (take_operand no_group (operand_value features first) = holding (operand_value features first)) as ->
        by (unfold take_operand, holding; cbn; by destruct (operand_value features first)).
      rewrite <- (app_nil_r (print_chain rest)). apply steps_chain; [|done|unfold fits; cbn [length]; lia].
      apply Forall_forall. intros ao _. apply reads_every_operand. }
  eapply steps_eval in H as [fuel Hfuel]; [|done]. unfold authselect_eval.
  destruct (eval_total features (S (length (print_operand first ++ print_chain rest))) [no_group]
    (print_operand first ++ print_chain rest) ltac:(lia)) as [x Hx]. rewrite Hx. cbn [default from_option id].
  pose proof (eval_more _ _ (Nat.max fuel (S (length (print_operand first ++ print_chain rest)))) _ _ Hfuel ltac:(lia)) as H1.
  pose proof (eval_more _ _ (Nat.max fuel (S (length (print_operand first ++ print_chain rest)))) _ _ Hx ltac:(lia)) as H2.
  rewrite H2 in H1. by injection H1 as ->.
Qed.

(** ** Rendering ends *)

Lemma index_from_ge f from s : from <= length s -> from <= index_from f from s.
Proof. intros H. unfold index_from. destruct (position _ _); lia. Qed.
Lemma is_at_lt line i b : is_at line i b = true -> i < length line.
Proof. unfold is_at. intros H%bool_decide_eq_true. by apply lookup_lt_Some in H. Qed.

Lemma expr_at_after line from e end_ : expr_at line from = Some (e, end_) -> from < end_.
Proof. unfold expr_at. case_bool_decide; cbn [andb]; [|done]. case_match; [|done]. intros [= _ <-]. lia. Qed.

Lemma if_at_after line from end_ o : from <= length line -> if_at line from = Some (end_, o) -> from < end_.
Proof.
  intros Hf. unfold if_at. pose proof (index_from_ge (fun b => bool_decide (b = open_brace) || bool_decide (b = close_brace) || mem b #":|") from line Hf) as Hc.
  fold (span line from #":|") in Hc. cbv zeta. set (colon := span line from #":|") in *.
  case_bool_decide; cbn [orb]; [done|]. destruct (is_at line colon _) eqn:Ec; cbn [negb]; [|done]. apply is_at_lt in Ec.
  pose proof (index_from_ge (fun b => bool_decide (b = open_brace) || bool_decide (b = close_brace) || mem b #"|") (colon + 1) line ltac:(lia)) as Hy.
  fold (span line (colon + 1) #"|") in Hy. set (yes_end := span line (colon + 1) #"|") in *.
  destruct (is_at line yes_end close_brace) eqn:Ey; [intros [= <- _]; lia|].
  destruct (is_at line yes_end "|"%byte) eqn:Ep; [|done]. apply is_at_lt in Ep.
  pose proof (index_from_ge (fun b => bool_decide (b = open_brace) || bool_decide (b = close_brace) || mem b #"|") (yes_end + 1) line ltac:(lia)) as Hn.
  fold (span line (yes_end + 1) #"|") in Hn. case_match; [|done]. intros [= <- _]. lia.
Qed.

Lemma starts_with_length (p l : bytes) : starts_with p l = true -> length p <= length l.
Proof.
  unfold starts_with. destruct (strip_prefix p l) as [r|] eqn:E; [|done].
  intros _. apply strip_prefix_Some in E. rewrite E, length_app. lia.
Qed.

Lemma imply_at_after line from end_ o : from <= length line -> imply_at line from = Some (end_, o) -> from < end_.
Proof.
  intros Hf. unfold imply_at.
  pose proof (index_from_ge (fun b => bool_decide (b = open_brace) || bool_decide (b = close_brace) || mem b [("|"%byte); quote]) from line Hf) as Hc.
  fold (span line from [("|"%byte); quote]) in Hc. cbv zeta. case_match; [done|].
  destruct (expr_at _ _) as [[e en]|] eqn:E; cbn [mbind option_bind]; [|done].
  intros [= <- _]. apply expr_at_after in E. lia.
Qed.

Lemma authselect_op_after line at_ end_ o : authselect_op line at_ = Some (end_, o) -> at_ < end_.
Proof.
  unfold authselect_op. cbv zeta.
  assert (He : forall (n : nat) (f : bytes -> op), ('(e, end_) ← expr_at line (at_ + 1 + n); Some (end_, f e)) = Some (end_, o) -> at_ < end_).
  { intros n f. destruct (expr_at _ _) as [[e en]|] eqn:E; cbn [mbind option_bind]; [|done].
    intros [= <- _]. apply expr_at_after in E. lia. }
  assert (Hl : forall kw, kw <> [] -> starts_with kw (drop (at_ + 1) line) = true -> at_ + 1 + length kw <= length line).
  { intros kw Hk Hs%starts_with_length. rewrite length_drop in Hs. destruct kw; [done|]. cbn [length] in *. lia. }
  destruct (starts_with #"continue if " _); [apply He|].
  destruct (starts_with #"stop if " _); [apply He|].
  destruct (starts_with #"include if " _); [apply He|].
  destruct (starts_with #"exclude if " _); [apply He|].
  destruct (starts_with ( #"imply " ++ [quote]) _) eqn:Ei.
  - apply Hl in Ei; [|done]. intros H%imply_at_after; [lia|done].
  - destruct (starts_with #"if " _) eqn:Es; [|done]. apply Hl in Es; [|done]. intros H%if_at_after; [lia|done].
Qed.

Lemma render_line_fuel n m features line out copied from :
  length line - from < n -> length line - from < m ->
  render_line n features line out copied from = render_line m features line out copied from.
Proof.
  revert m features out copied from. induction n as [|n IH]; intros m features out copied from Hn Hm; [lia|].
  destruct m as [|m]; [lia|]. cbn [render_line].
  destruct (position _ (drop from line)) as [i|] eqn:Ep; [|done]. cbv zeta.
  apply position_Some in Ep as [Hi _]. rewrite length_drop in Hi.
  destruct (authselect_op line (from + i)) as [[end_ o]|] eqn:Eo; [|apply IH; lia].
  apply authselect_op_after in Eo. destruct (apply_op features o); try done. apply IH; lia.
Qed.

(** ** Witnesses *)

Module ReproducedDemo.
Definition dir (p : path) : path * Tree.node := (p, Tree.Dir 0 0x1ED).
Definition file (p : path) (ls : list bytes) : path * Tree.node := (p, Tree.File 0 0x1A4 (join [newline] ls)).

(** A copied template, and the stack of one profile. *)
Definition host : Tree.tree :=
  [dir #"etc"; dir #"etc/pam.d"; dir #"usr"; dir #"usr/share"; dir #"usr/share/base-files"; dir PAM_TEMPLATES;
   dir PAM_PROFILES; dir #"var"; dir #"var/lib"; dir PAM_SAVED;
   file #"usr/share/base-files/profile" [ #"PATH=/bin"; []]; file #"etc/profile" [ #"PATH=/bin"; []];
   file (common #"auth") ([ #"# local"] ++ PAM_MARKERS ++ [[]]);
   file (PAM_SAVED ++ #"/auth") [ #"Module: unix"; #"[success=end] pam_unix.so"];
   file (PAM_PROFILES ++ #"/unix")
     [ #"Name: Unix authentication"; #"Auth-Type: Primary"; #"Auth:"; #" [success=end default=ignore]  pam_unix.so  try  x"];
   file #"etc/pam.d/common-auth"
     ([ #"# local"; default [] (PAM_MARKERS !! 0); #"auth" ++ [tab] ++ #"[success=1 default=ignore]  pam_unix.so try x"] ++
      drop 1 PAM_MARKERS ++ [[]])].
Definition kernel : snapshot := Tree.kernel host.
Definition wanted : pset := ps_of [ #"etc/profile"; #"etc/pam.d/common-auth"].
Definition packaged (p : path) (a : answers) : answers :=
  pm_insert p (Provenance.Packaged #"base" #"1" Integrity.Intact) a.
Definition base : answers :=
  packaged #"usr/share/base-files/profile" (packaged (common #"auth") (packaged (PAM_PROFILES ++ #"/unix") pm_empty)).
Definition verdicts (a : answers) : list (option provenance) :=
  (fun p => pm_get (run kernel (classify Tree.offline wanted a)) p) <$> ps_list wanted.
End ReproducedDemo.

Lemma reproduced_demo :
  ReproducedDemo.verdicts ReproducedDemo.base =
    [Some (Provenance.Reproduced #"pam-auth-update");
     Some (Provenance.Reproduced #"base, identical to /usr/share/base-files/profile")] /\
  ReproducedDemo.verdicts pm_empty = [None; None].
Proof. by vm_compute. Qed.

Definition reproduced_small : pset := ps_of [ #"etc/profile"].
Lemma reproduced_small_answer :
  pm_get (run ReproducedDemo.kernel (classify Tree.offline reproduced_small ReproducedDemo.base)) #"etc/profile" =
    Some (Provenance.Reproduced #"base, identical to /usr/share/base-files/profile").
Proof. by vm_compute. Qed.


Definition sample_expression : operand * list (bool * operand) :=
  (ONot (ONamed #"with-a"), [(true, OParen (ONamed #"with-b") [(false, ONamed #"with-c")])]).
Lemma sample_expression_ok :
  operand_ok sample_expression.1 /\ chain_ok sample_expression.2 /\
  (N.of_nat (Nat.max (operand_depth sample_expression.1) (chain_depth sample_expression.2)) <= AUTHSELECT_DEPTH)%N.
Proof. split_and!; [repeat constructor..|done]. Qed.

Lemma authselect_eval_meaning_witness :
  authselect_eval (print_expression sample_expression) {[ #"with-c"]} = Ok true.
Proof.
  destruct sample_expression_ok as (H1 & H2 & H3). rewrite (authselect_eval_meaning _ _ H1 H2 H3). reflexivity.
Defined.
