(* ===== verification/Databases.v ===== *)
(** [src/provenance/mod.rs], put together: the fixed list of databases, the
    real producers, and the union of the packages' files. *)

From S2P Require Import Prelude Slices Order Num Utf8 Paths PathMap Kinds Entry Sys Root Tree Scan Provenance Backend.
From S2P Require Import Apk Pacman Rpm Dpkg Generated Reproduced.

(** Neither producer panics in the model, as neither backend does. *)
#[export] Instance producers : Producers := {|
  reproduced_inputs := Reproduced.inputs;
  reproduced_classify r wanted a := out ← Reproduced.classify r wanted a; Ret (Ok out);
  generated_classify r unclaimed := out ← Generated.classify r unclaimed; Ret (Ok out)
|}.

#[export] Instance producers_laws h : ProducersLaws h.
Proof.
  split; cbn [reproduced_classify generated_classify producers].
  - intros r w a. rewrite run_bind. apply reproduced_classify_ok.
  - intros r w. rewrite run_bind. apply generated_classify_ok.
  - intros r w p Hw. rewrite run_bind. by apply classify_sub.
Qed.

Section databases.
Context `{Digests} `{Strerror} `{Inflate} `{Sqlite}.

Definition BACKENDS : list (bytes * backend) :=
  [( #"dpkg", total Dpkg.resolve); ( #"rpm", total Rpm.resolve); ( #"apk", total Apk.resolve);
   ( #"pacman", total Pacman.resolve)].

Definition resolve (r : root) (wanted : pset) : prog resolution := resolve_with r wanted BACKENDS.

Definition ps_extend (s s' : pset) : pset := foldl (fun s p => ps_insert p s) s (ps_list s').

Definition packaged_files (r : root) : prog pset :=
  dpkg ← Dpkg.packaged_files r;
  rpm ← Rpm.packaged_files r;
  apk ← Apk.packaged_files r;
  pacman ← Pacman.packaged_files r;
  Ret (ps_extend (ps_extend (ps_extend dpkg rpm) apk) pacman).
End databases.

(** ** What an answer rests on *)

Section justified.
Context `{Digests} `{Strerror} `{Inflate} `{Sqlite}.
Variable h : snapshot.
Variable r : root.

Lemma backends_laws : Forall (fun nb => BackendLaws h (snd nb)) BACKENDS.
Proof. do 4 (apply Forall_cons; split; [cbn; apply _|]). apply Forall_nil. by split. Qed.

Definition outcome_of (nb : bytes * backend) (asked : pset) : result payload Database.outcome := run h (snd nb r asked).

(** The databases' answers alone. *)
Definition database_answers (asked : pset) : answers :=
  pg_out (run h (ask r asked BACKENDS (mk_progress pm_empty [] false false []))).

Inductive justified (asked : pset) (p : path) : provenance -> Prop :=
| J_reproduced q by_ :
    q ∈ ps_list asked -> path_eqb q p = true -> run h (Reproduced.reproduction r (database_answers asked) q) = Some by_ ->
    justified asked p (Provenance.Reproduced by_)
| J_packaged nb package version i :
    nb ∈ BACKENDS -> pm_get (outcome_answers (outcome_of nb asked)) p = Some (Provenance.Packaged package version i) ->
    justified asked p (Provenance.Packaged package version i)
| J_generated q by_ :
    path_eqb q p = true -> generated h r q = Some by_ ->
    (forall nb, nb ∈ BACKENDS -> pm_get (outcome_answers (outcome_of nb asked)) p = None) ->
    justified asked p (Provenance.GeneratedBy by_)
| J_unpackaged :
    (exists nb out, nb ∈ BACKENDS /\ outcome_of nb asked = Ok (Database.Complete out)) ->
    (forall nb, nb ∈ BACKENDS -> outcome_of nb asked = Ok Database.Absent \/
       exists out, outcome_of nb asked = Ok (Database.Complete out) /\ pm_get out p = None) ->
    justified asked p Provenance.Unpackaged
| J_unknown :
    (forall nb, nb ∈ BACKENDS -> outcome_of nb asked = Ok Database.Absent) \/
    (exists nb out why, nb ∈ BACKENDS /\ outcome_of nb asked = Ok (Database.Incomplete out why)) ->
    justified asked p Provenance.Unknown.
End justified.

Lemma database_answer_some os p v :
  database_answer os p = Some v -> exists o, o ∈ os /\ pm_get (outcome_answers o) p = Some v.
Proof.
  unfold database_answer. induction os as [|o os IH] using rev_ind; [done|]. rewrite foldl_app. cbn [foldl].
  destruct (pm_get (outcome_answers o) p) as [w|] eqn:E.
  - intros [= ->]. exists o. split; [apply elem_of_app; right; by left|done].
  - intros (o' & Ho & Hv)%IH. exists o'. split; [apply elem_of_app; by left|done].
Qed.
Lemma database_answer_none os p o : database_answer os p = None -> o ∈ os -> pm_get (outcome_answers o) p = None.
Proof.
  unfold database_answer. induction os as [|o' os IH] using rev_ind; [by intros _ ?%elem_of_nil|]. rewrite foldl_app. cbn [foldl].
  destruct (pm_get (outcome_answers o') p) as [w|] eqn:E; [done|].
  intros Hn [Ho| ->%list_elem_of_singleton]%elem_of_app; [by apply IH|done].
Qed.

Section composed.
Context `{Digests} `{Strerror} `{Inflate} `{Sqlite}.
Variable h : snapshot.
Variable r : root.
Variable wanted : pset.
Let asked : pset := run h (asked_of r wanted).
Let outcomes : list (result payload Database.outcome) := (fun nb => outcome_of h r nb asked) <$> BACKENDS.

Lemma asked_ok : pm_ok asked.
Proof. unfold asked, asked_of. rewrite run_bind. apply ps_collect_ok. Qed.

Lemma wanted_asked p : pm_ok wanted -> pm_mem wanted p = true -> pm_mem asked p = true.
Proof.
  intros Hw Hp. unfold asked, asked_of. rewrite run_bind. cbn [run]. rewrite ps_collect_mem, existsb_app.
  apply orb_true_iff. left. by rewrite ps_list_mem.
Qed.

Lemma outcomes_for : Forall (fun o => answers_for asked (outcome_answers o)) outcomes.
Proof.
  apply Forall_fmap. eapply Forall_impl; [apply (backends_laws h)|]. intros nb Hb. apply Hb, asked_ok.
Qed.
Lemma outcomes_ok : Forall (fun o => pm_ok (outcome_answers o)) outcomes.
Proof. eapply Forall_impl; [apply outcomes_for|]. by intros o []. Qed.

(** A backend of the list does not panic. *)
Lemma outcome_total nb : nb ∈ BACKENDS -> exists o, outcome_of h r nb asked = Ok o.
Proof.
  unfold BACKENDS. intros Hnb. repeat (apply elem_of_cons in Hnb as [-> |Hnb]; [unfold outcome_of, total; cbn [snd]; rewrite run_bind; by eexists|]).
  by apply elem_of_nil in Hnb.
Qed.

Definition produced : answers := run h (Reproduced.classify r asked (database_answers h r asked)).
Definition run_time : answers :=
  run h (Generated.classify r (unclaimed asked (pm_extend (database_answers h r asked) produced))).

Lemma elem_of_outcomes o : o ∈ outcomes -> exists nb, nb ∈ BACKENDS /\ o = outcome_of h r nb asked.
Proof. intros (nb & -> & Hnb)%list_elem_of_fmap. by exists nb. Qed.
Lemma outcome_in nb : nb ∈ BACKENDS -> outcome_of h r nb asked ∈ outcomes.
Proof. apply (list_elem_of_fmap_2 (fun nb => outcome_of h r nb asked)). Qed.

Definition silent : provenance :=
  if existsb read_whole outcomes && negb (existsb not_whole outcomes) then Provenance.Unpackaged else Provenance.Unknown.
Definition answer_to (p : path) : option provenance :=
  match pm_get produced p with
  | Some v => Some v
  | None =>
      match database_answer outcomes p with
      | Some v => Some v
      | None =>
          match pm_get run_time p with
          | Some v => Some v
          | None => if pm_mem asked p then Some silent else None
          end
      end
  end.

Lemma resolve_get p : pm_get (rs_answers (run h (resolve r wanted))) p = answer_to p.
Proof.
  unfold resolve. pose proof (resolve_with_get r wanted BACKENDS outcomes_ok p) as Hg. cbv zeta in Hg. rewrite Hg.
  cbn [reproduced_classify generated_classify producers]. rewrite !run_bind. cbn [run ok default from_option id absorb fst].
  reflexivity.
Qed.

Lemma produced_from p v :
  pm_get produced p = Some v -> justified h r asked p v /\ pm_mem asked p = true.
Proof.
  intros (q & by_ & Hq & E & Hr & ->)%reproduced_classify_from. split; [by eapply J_reproduced|].
  apply (ps_list_pm_mem asked q); [apply asked_ok|done..].
Qed.

Lemma run_time_from p v :
  pm_get run_time p = Some v ->
  pm_mem asked p = true /\ exists q by_, path_eqb q p = true /\ generated h r q = Some by_ /\ v = Provenance.GeneratedBy by_.
Proof.
  intros Hv. split.
  - assert (pm_mem run_time p = true) as Hm by (apply pm_mem_true; eauto).
    apply classify_sub in Hm; [|apply ps_collect_ok]. rewrite unclaimed_mem in Hm by apply asked_ok.
    by apply andb_true_iff in Hm as [? _].
  - apply generated_classify_from in Hv as (q & by_ & _ & ?). eauto.
Qed.

Lemma database_from p v :
  database_answer outcomes p = Some v -> justified h r asked p v /\ pm_mem asked p = true.
Proof.
  intros (o & Ho & Hv)%database_answer_some. pose proof outcomes_for as Hf. rewrite Forall_forall in Hf.
  destruct (Hf o Ho) as [_ Hp Ha]. destruct (Hp p v Hv) as (package & version & i & ->).
  apply elem_of_outcomes in Ho as (nb & Hnb & ->). split; [by eapply J_packaged|]. apply Ha, pm_mem_true. eauto.
Qed.

Lemma silent_justified p :
  database_answer outcomes p = None -> justified h r asked p silent.
Proof.
  intros Hn. unfold silent. destruct (existsb not_whole outcomes) eqn:Ef.
  - rewrite andb_false_r. apply existsb_exists in Ef as (o & Ho%list_elem_of_In & Hf).
    apply elem_of_outcomes in Ho as (nb & Hnb & ->). destruct (outcome_total nb Hnb) as [o Eo]. rewrite Eo in Hf.
    destruct o as [|a|a why]; try done. apply J_unknown. right. by exists nb, a, why.
  - assert (Hok : forall nb, nb ∈ BACKENDS -> not_whole (outcome_of h r nb asked) = false).
    { intros nb Hnb. apply not_true_iff_false. intros Ht. apply not_true_iff_false in Ef. apply Ef, existsb_exists.
      exists (outcome_of h r nb asked). split; [by apply list_elem_of_In, outcome_in|done]. }
    assert (Hcases : forall nb, nb ∈ BACKENDS -> outcome_of h r nb asked = Ok Database.Absent \/
      exists out, outcome_of h r nb asked = Ok (Database.Complete out) /\ pm_get out p = None).
    { intros nb Hnb. specialize (Hok nb Hnb). pose proof (database_answer_none _ _ _ Hn (outcome_in nb Hnb)) as Hout.
      destruct (outcome_total nb Hnb) as [o Eo]. rewrite Eo in Hok, Hout |- *.
      destruct o as [|a|a why]; [by left|right; by exists a|done]. }
    rewrite andb_true_r. destruct (existsb read_whole outcomes) eqn:Er.
    + apply J_unpackaged; [|done]. apply existsb_exists in Er as (o & Ho%list_elem_of_In & Hr).
      apply elem_of_outcomes in Ho as (nb & Hnb & ->). destruct (outcome_total nb Hnb) as [o Eo].
      exists nb. rewrite Eo in Hr |- *. destruct o as [|a|a why]; try done. by exists a.
    + apply J_unknown. left. intros nb Hnb. destruct (Hcases nb Hnb) as [?|(out & Eo & _)]; [done|].
      apply not_true_iff_false in Er. destruct Er. apply existsb_exists. exists (outcome_of h r nb asked).
      split; [by apply list_elem_of_In, outcome_in|by rewrite Eo].
Qed.

Lemma answer_asked p v : answer_to p = Some v -> pm_mem asked p = true.
Proof.
  unfold answer_to. destruct (pm_get produced p) eqn:Ep; [intros _; by eapply produced_from|].
  destruct (database_answer outcomes p) eqn:Ed; [intros _; by eapply database_from|].
  destruct (pm_get run_time p) eqn:Eg; [intros _; by eapply run_time_from|]. by destruct (pm_mem asked p).
Qed.

Lemma asked_answered p : pm_mem asked p = true -> is_Some (answer_to p).
Proof.
  intros Hm. unfold answer_to. rewrite Hm. destruct (pm_get produced p); [by eexists|].
  destruct (database_answer outcomes p); [by eexists|]. destruct (pm_get run_time p); by eexists.
Qed.

Lemma answer_justified p v : answer_to p = Some v -> justified h r asked p v.
Proof.
  unfold answer_to. destruct (pm_get produced p) eqn:Ep; [intros [= ->]; by apply produced_from|].
  destruct (database_answer outcomes p) eqn:Ed; [intros [= ->]; by apply database_from|].
  destruct (pm_get run_time p) eqn:Eg.
  - intros [= ->]. apply run_time_from in Eg as (_ & q & by_ & E & Hg & ->). apply (J_generated h r asked p q); [done..|].
    intros nb Hnb. apply (database_answer_none _ _ _ Ed), outcome_in, Hnb.
  - destruct (pm_mem asked p); [|done]. intros [= <-]. by apply silent_justified.
Qed.
End composed.

(** ** Property *)

(** C5. Every path asked about is answered, whatever the databases hold, and
    nothing else is; and each answer rests on what it should. Packaged: a
    database said so. Reproduced: the file is what its generator makes of
    packaged, intact inputs. Generated: a runtime producer's evidence holds
    and no database names the path. Unpackaged: some database was read whole,
    none was not, and none names the path. Unknown: there is no database, or
    one was not read whole. *)
Theorem resolution_justified `{Digests} `{Strerror} `{Inflate} `{Sqlite} (h : snapshot) (r : root) (wanted : pset)
    (asked := run h (asked_of r wanted)) (res := run h (resolve r wanted)) :
  pm_ok wanted ->
  (forall p, pm_mem wanted p = true -> pm_mem asked p = true) /\
  (forall p, pm_mem (rs_answers res) p = pm_mem asked p) /\
  (forall p v, pm_get (rs_answers res) p = Some v -> justified h r asked p v).
Proof.
  intros Hw. split; [intros p; by apply wanted_asked|]. split.
  - intros p. apply Bool.eq_iff_eq_true. rewrite pm_mem_true. unfold res. rewrite resolve_get. split.
    + intros [v Hv]. by eapply answer_asked.
    + apply asked_answered.
  - intros p v. unfold res. rewrite resolve_get. apply answer_justified.
Qed.

Module DatabasesDemo.
#[local] Instance none_stored : Sqlite := fun _ _ => Ok [].
Definition host : Tree.tree := ApkSmall.host.
Definition kernel : snapshot := Tree.kernel host.
Definition resolved (w : pset) : resolution :=
  run kernel (resolve (H := PacmanDemo.digests) (H0 := PacmanDemo.strerror) (H1 := ApkDemo.stored) Tree.offline w).
Definition verdicts (w : pset) : list (option provenance) := (fun p => pm_get (rs_answers (resolved w)) p) <$> ps_list w.
Definition wanted : pset := ps_of [ #"x"; #"y"; #"lib/apk/db/triggers"].
End DatabasesDemo.

Example databases_demo :
  (DatabasesDemo.verdicts DatabasesDemo.wanted, rs_databases (DatabasesDemo.resolved DatabasesDemo.wanted)) =
  ([Some (Provenance.GeneratedBy Producer.Apk); Some (Provenance.Packaged #"a" #"1" Integrity.Unknown); Some Provenance.Unpackaged],
   [ #"apk"]).
Proof. by vm_compute. Qed.

Lemma databases_demo_y : pm_get (rs_answers (DatabasesDemo.resolved DatabasesDemo.wanted)) #"y" = Some Provenance.Unpackaged.
Proof. by vm_compute. Qed.

Lemma resolution_justified_witness :
  justified (H := PacmanDemo.digests) (H0 := PacmanDemo.strerror) (H1 := ApkDemo.stored) (H2 := DatabasesDemo.none_stored)
    DatabasesDemo.kernel Tree.offline (run DatabasesDemo.kernel (asked_of Tree.offline DatabasesDemo.wanted)) #"y"
    Provenance.Unpackaged.
Proof.
  destruct (@resolution_justified PacmanDemo.digests PacmanDemo.strerror ApkDemo.stored DatabasesDemo.none_stored
    DatabasesDemo.kernel Tree.offline DatabasesDemo.wanted (ps_of_ok _)) as (_ & _ & Hj).
  exact (Hj #"y" Provenance.Unpackaged databases_demo_y).
Defined.
