(* ===== verification/Collect.v ===== *)
(** [src/collect/mod.rs]: what the collectors share: the words of shell text,
    include patterns, the run-parts rules, the loader's directories, and files
    one directory replaces in another. *)

From S2P Require Import Prelude Slices Order Utf8 Paths PathMap Text Kinds Entry Sys Root Tree Users Scan.

(** ** Reading through a context *)

(** A collector's program: it reads the root and changes its context. *)
Definition coll (A : Type) : Type := ctx -> prog (A * ctx).
#[export] Instance coll_ret : MRet coll := fun A x cx => Ret (x, cx).
#[export] Instance coll_bind : MBind coll := fun A B f m cx => x ← m cx; f (fst x) (snd x).

(** What looks at the root behind the context's back. *)
Definition lift {A} (f : root -> prog A) : coll A := fun cx => a ← f (cx_root cx); Ret (a, cx).
Definition the_root : coll root := fun cx => Ret (cx_root cx, cx).
Definition the_users : coll (list user) := fun cx => Ret (cx_users cx, cx).

Fixpoint fold_coll {A S} (f : S -> A -> coll S) (s : S) (l : list A) : coll S :=
  match l with [] => mret s | a :: l => s ← f s a; fold_coll f s l end.
Fixpoint map_coll {A B} (f : A -> coll B) (l : list A) : coll (list B) :=
  match l with [] => mret [] | a :: l => b ← f a; bs ← map_coll f l; mret (b :: bs) end.

(** Whether a path is there, and whether one of several is. *)
Definition there (p : path) : coll bool := lift (fun r => exists_ r p).
Fixpoint any_there (ps : list path) : coll bool :=
  match ps with [] => mret false | p :: ps => b ← there p; if b : bool then mret true else any_there ps end.

Section reading.
Context `{Strerror}.
Definition read_capped (p : path) (cap : N) : coll (option bytes) := fun cx => Scan.read_capped cx p cap.
Definition read (p : path) : coll (option bytes) := fun cx => Scan.read cx p.
Definition dir (p : path) : coll (list dir_ent) := fun cx => Scan.dir cx p.
Definition first_visit (d : path) (seen : gset (N * N)) : coll (option (N * N) * gset (N * N)) :=
  fun cx => x ← Scan.first_visit cx d seen; let '(id, seen, cx) := x in Ret ((id, seen), cx).
End reading.
Definition entry `{Blake3} (k : kind) (p : path) (name : bytes) : coll Entry.entry :=
  fun cx => e ← Scan.entry cx k p name; Ret (e, cx).

(** ** Fields a collector sets *)

Definition with_command (e : Entry.entry) (c : option bytes) : Entry.entry :=
  mk_entry (e_id e) (e_kind e) (e_collector e) (e_source e) (e_name e) c (e_target_path e)
    (e_target_sha256 e) (e_enabled e) (e_trigger e) (e_principal e) (e_owner_uid e) (e_mode e)
    (e_mtime e) (e_provenance e) (e_flags e) (e_raw e).
Definition set_target_path (e : Entry.entry) (p : option path) : Entry.entry :=
  mk_entry (e_id e) (e_kind e) (e_collector e) (e_source e) (e_name e) (e_command e) p
    (e_target_sha256 e) (e_enabled e) (e_trigger e) (e_principal e) (e_owner_uid e) (e_mode e)
    (e_mtime e) (e_provenance e) (e_flags e) (e_raw e).
Definition set_enabled (e : Entry.entry) (x : enablement) : Entry.entry :=
  mk_entry (e_id e) (e_kind e) (e_collector e) (e_source e) (e_name e) (e_command e) (e_target_path e)
    (e_target_sha256 e) x (e_trigger e) (e_principal e) (e_owner_uid e) (e_mode e)
    (e_mtime e) (e_provenance e) (e_flags e) (e_raw e).
Definition set_trigger (e : Entry.entry) (t : trigger) : Entry.entry :=
  mk_entry (e_id e) (e_kind e) (e_collector e) (e_source e) (e_name e) (e_command e) (e_target_path e)
    (e_target_sha256 e) (e_enabled e) t (e_principal e) (e_owner_uid e) (e_mode e)
    (e_mtime e) (e_provenance e) (e_flags e) (e_raw e).
Definition set_principal (e : Entry.entry) (p : option bytes) : Entry.entry :=
  mk_entry (e_id e) (e_kind e) (e_collector e) (e_source e) (e_name e) (e_command e) (e_target_path e)
    (e_target_sha256 e) (e_enabled e) (e_trigger e) p (e_owner_uid e) (e_mode e)
    (e_mtime e) (e_provenance e) (e_flags e) (e_raw e).

(** [cron::set_command], which every collector of command lines uses. *)
Definition set_command (e : Entry.entry) (b : bytes) : Entry.entry :=
  let e := if is_utf8 b then e else Entry.flag e Flag.EncodingAnomaly in
  let e := if existsb (is_byte x00) b then Entry.note e #"command_nul" #"true" else e in
  with_command e (Some b).

(** What a program that is not installed does not run. *)
Definition off_unless (installed : bool) (why : bytes) (e : Entry.entry) : Entry.entry :=
  if installed then e else Entry.note (set_enabled e Enablement.Disabled) #"not_run" why.
(** The first word, where it is an absolute path. *)
Definition leading_path (command : bytes) : option path :=
  match head (split_whitespace command) with Some w => if starts_with [slash] w then Some w else None | None => None end.

(** ** Shell text *)

Definition shell_end (b : byte) : bool := bool_decide (b ∈ #";|&<>()").
Definition shell_word (word : bytes) : bytes := take (default (length word) (position shell_end word)) word.

Definition eq_sign : byte := "=".
Definition hyphen : byte := "-".

(** [NAME=value] before the program. *)
Definition is_env (word : bytes) : bool :=
  match position (is_byte eq_sign) word, word with
  | Some eq, c :: _ => bool_decide (0 < eq) && negb (bool_decide (c = hyphen)) && negb (bool_decide (c = slash))
  | _, _ => false
  end.

Fixpoint first_absolute_from (fuel : nat) (rest : bytes) : option path :=
  match fuel with
  | O => None
  | S fuel =>
      '(word, tail) ← take_word rest;
      if is_env word then first_absolute_from fuel tail
      else let word := shell_word word in if starts_with [slash] word then Some word else None
  end.
Definition first_absolute (command : bytes) : option path := first_absolute_from (S (length command)) command.

Definition include_rel (base : path) (spec : bytes) : path :=
  match path_strip_prefix [slash] spec with Some stripped => stripped | None => path_join base spec end.

Definition has_glob (name : bytes) : bool := existsb (is_byte "*") name || existsb (is_byte "?") name.

Definition expand_glob `{Strerror} (p : path) : coll (list path) :=
  let name := default [] (file_name p) in
  if negb (has_glob name) then mret [p]
  else
    let d := default [] (parent p) in
    ents ← dir d;
    mret (sort_by components
            ((fun ent => path_join d (de_name ent)) <$>
              List.filter (fun ent => negb (de_is_dir ent) && glob_match name (de_name ent)) ents)).

(** ** run-parts *)

Module RunParts.
Inductive run_parts := Debian | DebianLsb | Script | BusyBox.
Definition lsbsysinit (f : run_parts) : run_parts := match f with Debian => DebianLsb | _ => f end.
End RunParts.
Abbreviation run_parts := RunParts.run_parts.

(** A file read by its resolved name, if it can be. *)
Definition sniff (r : root) (p : path) : prog (option bytes) :=
  resolved ← Root.resolve r p;
  match resolved with
  | Err _ => Ret None
  | Ok resolved =>
      x ← Root.read_capped r resolved (N.shiftl 16 20);
      Ret (fst <$> ok x)
  end.

Fixpoint flavour_from (r : root) (ps : list path) : prog run_parts :=
  match ps with
  | [] => Ret RunParts.Debian
  | p :: ps =>
      b ← sniff r p;
      match b with
      | None => flavour_from r ps
      | Some b =>
          Ret (if starts_with #"#!" b then RunParts.Script
               else if contains_sub #"BusyBox" b then RunParts.BusyBox
               else RunParts.Debian)
      end
  end.
Definition run_parts_flavour : coll run_parts := lift (fun r => flavour_from r [ #"usr/bin/run-parts"; #"bin/run-parts"]).

Definition lower (b : byte) : bool := is_ascii_lower b || is_ascii_digit b.
Definition DPKG_LEFTOVERS : list bytes := [ #".dpkg-old"; #".dpkg-dist"; #".dpkg-new"; #".dpkg-tmp"].
Definition nonempty_all (f : byte -> bool) (s : bytes) : bool := negb (bool_decide (s = [])) && forallb f s.
Definition plain_byte (b : byte) : bool := lower b || bool_decide (b ∈ #"_-").
Definition part_byte (b : byte) : bool := lower b || bool_decide (b ∈ #"_.").

Definition lsb_name (name : bytes) : bool :=
  if existsb (fun s => ends_with s name) DPKG_LEFTOVERS then false
  else if match name with c :: _ => lower c | [] => false end && forallb plain_byte name then true
  else
    match reverse (split_on (is_byte hyphen) name) with
    | [] => false
    | last :: parts =>
        negb (bool_decide (parts = [])) && forallb (nonempty_all part_byte) parts && nonempty_all lower last
    end.

Definition name_byte (b : byte) : bool := is_ascii_alphanumeric b || bool_decide (b ∈ #"_-").
Definition SKIP : list bytes := [ #".cfsaved"; #".rpmsave"; #".rpmorig"; #".rpmnew"; #".swp"; #",v"].
Definition script_skips (name : bytes) : bool :=
  starts_with #"." name || ends_with #"~" name || ends_with #"," name || existsb (fun s => ends_with s name) SKIP.

Definition newline : byte := x0a.

Section shared.
Context `{Strerror}.

Definition listed (d : path) (name : bytes) (file : bytes) : coll (option bool) :=
  b ← read_capped (path_join d file) (64 * 1024);
  mret (match b with Some b => Some (mem name (split_on (is_byte newline) b)) | None => None end).

Definition run_parts_skips (flavour : run_parts) (d : path) (name : bytes) : coll (option bytes) :=
  match flavour with
  | RunParts.Debian =>
      mret (if nonempty_all name_byte name then None
            else Some #"run-parts runs only names of letters, digits, _ and -")
  | RunParts.DebianLsb =>
      mret (if lsb_name name then None
            else Some #"run-parts --lsbsysinit runs only lower-case names in LSB's namespaces")
  | RunParts.BusyBox =>
      mret (if negb (starts_with #"." name) && nonempty_all (fun b => is_ascii_alphanumeric b || bool_decide (b ∈ #"_-.")) name
            then None
            else Some #"run-parts runs only names of letters, digits, _, - and dots after the first character")
  | RunParts.Script =>
      if script_skips name then mret (Some #"run-parts skips a hidden, backup or package-manager copy")
      else
        deny ← listed d name #"jobs.deny";
        if bool_decide (deny = Some true) then mret (Some #"named in jobs.deny")
        else
          allow ← listed d name #"jobs.allow";
          mret (if bool_decide (allow = Some false) then Some #"not named in jobs.allow" else None)
  end.

Record run_parts_file := mk_run_parts_file { rp_rel : path; rp_name : bytes; rp_not_run : option bytes }.

(** Why the file a name leads to is not run. *)
Definition not_runnable (r : root) (p : path) : prog (option bytes) :=
  m ← stat_follow r p;
  Ret match m with
      | Ok m =>
          if m_is_file m then
            if bool_decide (N.land (m_mode m) 0x49 = 0%N) then Some #"not executable" else None
          else Some #"not a regular file"
      | Err _ => Some #"a link to nothing"
      end.

Definition run_parts_file_of (flavour : run_parts) (d : path) (ent : dir_ent) : coll run_parts_file :=
  let p := path_join d (de_name ent) in
  why ← run_parts_skips flavour d (de_name ent);
  why ← match why with
        | Some why => mret (Some why)
        | None => lift (fun r => not_runnable r p)
        end;
  mret (mk_run_parts_file p (de_name ent) why).

Definition run_parts_dir (flavour : run_parts) (d : path) : coll (list run_parts_file) :=
  ents ← dir d;
  map_coll (run_parts_file_of flavour d) (List.filter (fun ent => negb (de_is_dir ent)) ents).

(** ** The loader's directories *)

Definition MAX_LD_DIRS : N := 4096.

(** The directories with the file that named each, the files read, and the
    directories named. *)
Record ld_state := mk_ld { ld_out : list (bytes * path); ld_read : pset; ld_named : gset bytes }.

(** Trailing slashes go, but for one that is all there is. *)
Definition pop_slashes (d : bytes) : bytes :=
  let kept := drop_while_end (is_byte slash) d in if bool_decide (kept = []) then take 1 d else kept.

Definition before (c : byte) (s : bytes) : bytes := take (default (length s) (position (is_byte c) s)) s.

(** What a line of ld.so.conf says. *)
Inductive ld_line := LdNothing | LdInclude (patterns : list bytes) | LdDir (d : bytes).
Definition read_ld_line (raw : bytes) : ld_line :=
  let line := trim_ascii (before "#" raw) in
  let i := default (length line) (position is_ascii_whitespace line) in
  let word := take i line in
  let rest := drop i line in
  if bool_decide (line = []) || eq_ignore_ascii_case word #"hwcap" then LdNothing
  else if bool_decide (word = #"include") && negb (bool_decide (rest = [])) then LdInclude (words_by is_ascii_whitespace rest)
  else LdDir (pop_slashes (from_utf8_lossy (trim_ascii (before "=" line)))).

Definition name_dir (p : path) (st : ld_state) (d : bytes) : ld_state :=
  if bool_decide (d = []) || (MAX_LD_DIRS <=? N.of_nat (length (ld_out st)))%N then st
  else
    mk_ld (if bool_decide (d ∈ ld_named st) then ld_out st else ld_out st ++ [(d, p)]) (ld_read st) ({[d]} ∪ ld_named st).

(** [n] is nine less the depth: a file nine includes deep is not read. *)
Fixpoint ld_so_conf (n : nat) (p : path) (st : ld_state) : coll ld_state :=
  match n with
  | O => mret st
  | S n =>
      if pm_mem (ld_read st) p then mret st
      else
        let st := mk_ld (ld_out st) (ps_insert p (ld_read st)) (ld_named st) in
        b ← read_capped p (64 * 1024);
        match b with
        | None => mret st
        | Some b =>
            let base := default [] (parent p) in
            fold_coll (fun st raw =>
              match read_ld_line raw with
              | LdNothing => mret st
              | LdInclude patterns =>
                  fold_coll (fun st pat =>
                    fs ← expand_glob (include_rel base pat);
                    fold_coll (fun st f => ld_so_conf n f st) st fs) st patterns
              | LdDir d => mret (name_dir p st d)
              end) st (split_on (is_byte newline) b)
        end
  end.

Definition MAX_INCLUDES : nat := 9.
Definition ld_so_conf_dirs : coll (list (bytes * path)) :=
  st ← ld_so_conf MAX_INCLUDES #"etc/ld.so.conf" (mk_ld [] pm_empty ∅); mret (ld_out st).

(** ** Files one directory replaces in another *)

Record found := mk_found { fo_name : bytes; fo_rel : path; fo_by : option path }.

Definition find_file (d : path) (st : gmap bytes path * list found) (ent : dir_ent) : gmap bytes path * list found :=
  let '(first, out) := st in
  let p := path_join d (de_name ent) in
  let by_ := first !! de_name ent in
  (match by_ with Some _ => first | None => <[de_name ent := p]> first end, out ++ [mk_found (de_name ent) p by_]).

Definition find_in_dir (suffix : bytes) (st : gset (N * N) * (gmap bytes path * list found)) (d : path)
    : coll (gset (N * N) * (gmap bytes path * list found)) :=
  x ← first_visit d (fst st);
  let '(id, seen) := x : option (N * N) * gset (N * N) in
  match id with
  | None => mret (seen, snd st)
  | Some _ =>
      ents ← dir d;
      mret (seen, foldl (find_file d) (snd st)
                    (List.filter (fun ent => negb (de_is_dir ent) && ends_with suffix (de_name ent)) ents))
  end.

Definition replaceable (dirs : list path) (suffix : bytes) : coll (list (path * option path)) :=
  st ← fold_coll (find_in_dir suffix) (∅, (∅, [])) dirs;
  mret ((fun f => (fo_rel f, fo_by f)) <$> sort_by fo_name (snd (snd st))).
End shared.

(** ** What a reading can come to *)

(** Every result, whatever the kernel answers. *)
Definition yields {A} (Q : A -> Prop) (m : coll A) : Prop :=
  forall cx, returns (fun _ _ _ => True) (fun x => Q (fst x)) (m cx).

Lemma yields_ret {A} (Q : A -> Prop) a : Q a -> yields Q (mret a).
Proof. by intros Ha cx. Qed.
Lemma yields_bind {A B} (Q : A -> Prop) (Q' : B -> Prop) (m : coll A) (f : A -> coll B) :
  yields Q m -> (forall a, Q a -> yields Q' (f a)) -> yields Q' (m ≫= f).
Proof. intros Hm Hf cx. eapply returns_bind; [apply Hm|]. intros [a cx'] Ha. exact (Hf a Ha cx'). Qed.
Lemma yields_mono {A} (Q Q' : A -> Prop) m : (forall a, Q a -> Q' a) -> yields Q m -> yields Q' m.
Proof. intros H Hm cx. eapply returns_mono; [|apply Hm]. intros [a cx']. apply H. Qed.
Lemma yields_any {A} (m : coll A) : yields (fun _ => True) m.
Proof. intros cx. apply returns_true. Qed.
Lemma yields_bind_any {A B} (Q' : B -> Prop) (m : coll A) (f : A -> coll B) : (forall a, yields Q' (f a)) -> yields Q' (m ≫= f).
Proof. intros Hf. apply (yields_bind (fun _ => True)); [apply yields_any|]. intros a _. apply Hf. Qed.
Lemma yields_fold {A S} (I : S -> Prop) (f : S -> A -> coll S) l s :
  I s -> (forall s a, a ∈ l -> I s -> yields I (f s a)) -> yields I (fold_coll f s l).
Proof.
  revert s. induction l as [|a l IH]; intros s Hs Hf; [by apply yields_ret|]. cbn [fold_coll].
  apply (yields_bind I); [apply Hf; [by left|done]|]. intros s' Hs'. apply IH; [done|]. intros s'' a' Ha. apply Hf. by right.
Qed.
(** An invariant that knows what was gone through. *)
Lemma yields_scan {A S} (I : list A -> S -> Prop) (f : S -> A -> coll S) l s :
  I [] s -> (forall seen a s, I seen s -> yields (I (seen ++ [a])) (f s a)) -> yields (I l) (fold_coll f s l).
Proof.
  intros Hs Hf. assert (G : forall l pre s, I pre s -> yields (I (pre ++ l)) (fold_coll f s l)).
  { clear l s Hs. induction l as [|a l IH]; intros pre s Hs; cbn [fold_coll].
    - rewrite app_nil_r. by apply yields_ret.
    - eapply yields_bind; [by apply (Hf pre)|]. intros s' Hs'. rewrite cons_middle, app_assoc. by apply IH. }
  exact (G l [] s Hs).
Qed.
Lemma yields_map {A B} (Q : B -> Prop) (f : A -> coll B) l :
  (forall a, a ∈ l -> yields Q (f a)) -> yields (Forall Q) (map_coll f l).
Proof.
  induction l as [|a l IH]; intros Hf; cbn [map_coll]; [by apply yields_ret|].
  apply (yields_bind Q); [apply Hf; by left|]. intros b Hb. apply (yields_bind (Forall Q)).
  - apply IH. intros a' Ha. apply Hf. by right.
  - intros bs Hbs. apply yields_ret. by constructor.
Qed.
Lemma yields_map2 {A B} (Q : A -> B -> Prop) (f : A -> coll B) l :
  (forall a, yields (Q a) (f a)) -> yields (Forall2 Q l) (map_coll f l).
Proof.
  intros Hf. induction l as [|a l IH]; cbn [map_coll]; [apply yields_ret; constructor|].
  eapply yields_bind; [apply Hf|]. intros b Hb. eapply yields_bind; [exact IH|]. intros bs Hbs. apply yields_ret. by constructor.
Qed.
Lemma yields_join {A B} (Q : B -> Prop) (f : A -> coll (list B)) l :
  (forall a, yields (Forall Q) (f a)) -> yields (Forall Q) (es ← map_coll f l; mret (mjoin es)).
Proof. intros Hf. eapply yields_bind; [apply yields_map; intros; apply Hf|]. intros es He. by apply yields_ret, Forall_join. Qed.
Lemma yields_run {A} (Q : A -> Prop) m h cx : yields Q m -> Q (fst (run h (m cx))).
Proof. intros Hm. apply (run_returns (fun _ _ _ => True) h (fun x => Q (fst x)) (m cx)); [done|apply Hm]. Qed.

Create HintDb yields.
#[export] Hint Resolve yields_ret yields_any yields_bind_any : yields.

(** ** Laws of a reading of one moment *)

Definition value {A} (h : snapshot) (cx : ctx) (m : coll A) : A := fst (run h (m cx)).
Definition after {A} (h : snapshot) (cx : ctx) (m : coll A) : ctx := snd (run h (m cx)).

Lemma run_coll_bind {A B} h cx (m : coll A) (f : A -> coll B) :
  run h ((m ≫= f) cx) = run h (f (value h cx m) (after h cx m)).
Proof. unfold mbind, coll_bind. by rewrite run_bind. Qed.
Lemma value_bind {A B} h cx (m : coll A) (f : A -> coll B) : value h cx (m ≫= f) = value h (after h cx m) (f (value h cx m)).
Proof. unfold value at 1. by rewrite run_coll_bind. Qed.
Lemma after_bind {A B} h cx (m : coll A) (f : A -> coll B) : after h cx (m ≫= f) = after h (after h cx m) (f (value h cx m)).
Proof. unfold after at 1. by rewrite run_coll_bind. Qed.

Lemma value_lift {A} h cx (p : root -> prog A) : value h cx (lift p) = run h (p (cx_root cx)).
Proof. unfold value, lift. by rewrite run_bind. Qed.
Lemma after_lift {A} h cx (p : root -> prog A) : after h cx (lift p) = cx.
Proof. unfold after, lift. by rewrite run_bind. Qed.

(** The bytes of a file, as far as they are read. *)
Definition file_text (h : snapshot) (r : root) (p : path) : option bytes :=
  match run h (Root.read_capped r p READ_CAP) with Ok (b, _) => Some b | Err _ => None end.
Lemma value_read_capped `{Strerror} h cx p : value h cx (read_capped p READ_CAP) = file_text h (cx_root cx) p.
Proof.
  unfold value, read_capped, Scan.read_capped, read_outcome, file_text. rewrite !run_bind.
  destruct (run h (Root.read_capped (cx_root cx) p READ_CAP)) as [[b cut]|e]; cbn [run]; [done|].
  destruct (refusal_of e) as [[q|q t]|]; [done..|]. by destruct (is_not_found e).
Qed.
(** Whether a path is there, at one moment. *)
Definition holds (h : snapshot) (r : root) (p : path) : bool := run h (exists_ r p).
Lemma value_there h cx p : value h cx (there p) = holds h (cx_root cx) p.
Proof. apply value_lift. Qed.
Lemma after_there h cx p : after h cx (there p) = cx.
Proof. apply after_lift. Qed.
Lemma value_any_there h cx ps : value h cx (any_there ps) = existsb (holds h (cx_root cx)) ps.
Proof.
  induction ps as [|p ps IH]; [done|]. cbn [any_there existsb]. rewrite value_bind, value_there, after_there.
  by destruct (holds h (cx_root cx) p).
Qed.
Lemma after_any_there h cx ps : after h cx (any_there ps) = cx.
Proof.
  induction ps as [|p ps IH]; [done|]. cbn [any_there]. rewrite after_bind, value_there, after_there.
  by destruct (holds h (cx_root cx) p).
Qed.

(** ** What reading leaves alone *)

(** The root and the accounts stay as they are: only what is recorded of the
    reads changes. *)
Definition same_place (cx cx' : ctx) : Prop := cx_root cx' = cx_root cx /\ cx_users cx' = cx_users cx.
Definition stays {A} (m : coll A) : Prop := forall cx, returns (fun _ _ _ => True) (fun x => same_place cx (snd x)) (m cx).

Lemma stays_ret {A} (a : A) : stays (mret a).
Proof. by intros cx. Qed.
Lemma stays_bind {A B} (m : coll A) (f : A -> coll B) : stays m -> (forall a, stays (f a)) -> stays (m ≫= f).
Proof.
  intros Hm Hf cx. eapply returns_bind; [apply Hm|]. intros [a cx'] [H1 H2]. cbn [fst snd] in *.
  eapply returns_mono; [|apply Hf]. intros [b cx''] [H3 H4]. split; congruence.
Qed.
Lemma stays_lift {A} (f : root -> prog A) : stays (lift f).
Proof. intros cx. unfold lift. eapply returns_bind; [apply returns_true|]. by intros a _. Qed.
Lemma stays_there p : stays (there p).
Proof. apply stays_lift. Qed.
Lemma stays_any_there ps : stays (any_there ps).
Proof. induction ps as [|p ps IH]; cbn [any_there]; [apply stays_ret|]. apply stays_bind; [apply stays_there|]. intros []; [apply stays_ret|done]. Qed.
Lemma stays_root : stays the_root.
Proof. by intros cx. Qed.
Lemma stays_users : stays the_users.
Proof. by intros cx. Qed.
Lemma stays_fold {A S} (f : S -> A -> coll S) l s : (forall s a, stays (f s a)) -> stays (fold_coll f s l).
Proof.
  intros Hf. revert s. induction l as [|a l IH]; intros s; [apply stays_ret|]. cbn [fold_coll]. apply stays_bind; [apply Hf|done].
Qed.
Lemma stays_map {A B} (f : A -> coll B) l : (forall a, stays (f a)) -> stays (map_coll f l).
Proof.
  intros Hf. induction l as [|a l IH]; [apply stays_ret|]. cbn [map_coll]. apply stays_bind; [apply Hf|]. intros b.
  apply stays_bind; [done|]. intros bs. apply stays_ret.
Qed.
Lemma stays_entry `{Blake3} k p name : stays (entry k p name).
Proof. intros cx. unfold entry. eapply returns_bind; [apply returns_true|]. by intros e _. Qed.

Section reads_stay.
Context `{Strerror}.
Lemma note_left_home_same cx p t : same_place cx (note_left_home cx p t).
Proof. unfold note_left_home, remember_left_home. by case_match. Qed.
Lemma note_failed_same cx p e : returns (fun _ _ _ => True) (same_place cx) (note_failed cx p e).
Proof.
  unfold note_failed. destruct (refusal_of e) as [[q|q t]|]; [done| |].
  - unfold returns. cbv zeta. unfold remember_left_home. by case_match.
  - cbv zeta. eapply returns_bind; [apply returns_true|]. intros [] _; [done|]. cbn. by case_match.
Qed.
Lemma stays_read_capped p cap : stays (read_capped p cap).
Proof.
  intros cx. unfold read_capped, Scan.read_capped. eapply returns_bind; [apply returns_true|]. intros o _.
  eapply (returns_bind _ (same_place cx)); [|done]. destruct o as [b []| |t| |e]; try done; [apply note_left_home_same|apply note_failed_same].
Qed.
Lemma stays_read p : stays (read p).
Proof. apply stays_read_capped. Qed.
Lemma stays_dir p : stays (dir p).
Proof.
  intros cx. unfold dir, Scan.dir. eapply returns_bind; [apply returns_true|]. intros [v|e] _; [done|].
  destruct (is_not_found e); [done|]. eapply returns_bind; [apply note_failed_same|done].
Qed.
Lemma stays_first_visit d seen : stays (first_visit d seen).
Proof.
  intros cx. unfold first_visit. eapply (returns_bind _ (fun x => same_place cx (snd x))); [|by intros [[id s] cx']].
  unfold Scan.first_visit. eapply returns_bind; [apply returns_true|]. intros [id|e] _; [done|].
  destruct (is_not_found e); [done|]. eapply returns_bind; [apply note_failed_same|done].
Qed.
End reads_stay.

Create HintDb stays.
#[export] Hint Resolve stays_ret stays_lift stays_there stays_any_there stays_root stays_users stays_entry stays_read_capped stays_read stays_dir
  stays_first_visit : stays.
Ltac solve_stays :=
  repeat first [solve [auto with stays] | apply stays_bind; [|intros ?] | apply stays_fold; intros ? ? | apply stays_map; intros ?
    | progress cbv zeta | case_match].

Lemma after_same {A} h cx (m : coll A) : stays m -> same_place cx (after h cx m).
Proof. intros Hm. exact (run_returns _ h (fun x => same_place cx (snd x)) (m cx) (fun _ _ => I) (Hm cx)). Qed.
Lemma after_root {A} h cx (m : coll A) : stays m -> cx_root (after h cx m) = cx_root cx.
Proof. intros Hm. by destruct (after_same h cx m Hm). Qed.
Lemma after_place {A} h cx cx' (m : coll A) : stays m -> same_place cx' cx -> same_place (after h cx' m) cx.
Proof. intros Hm [C1 C2]. destruct (after_same h cx' _ Hm) as [E1 E2]. split; congruence. Qed.

(** What a command finds depends on where it reads alone. *)
Definition steady {A} (m : coll A) : Prop :=
  stays m /\ forall h cx cx', same_place cx cx' -> value h cx m = value h cx' m.
Lemma same_after {A} h cx cx' (m : coll A) : stays m -> same_place cx cx' -> same_place (after h cx m) (after h cx' m).
Proof.
  intros Hm [E1 E2]. destruct (after_same h cx m Hm) as [F1 F2], (after_same h cx' m Hm) as [G1 G2]. split; congruence.
Qed.
Lemma steady_ret {A} (a : A) : steady (mret a).
Proof. split; [apply stays_ret|done]. Qed.
Lemma steady_bind {A B} (m : coll A) (f : A -> coll B) : steady m -> (forall a, steady (f a)) -> steady (m ≫= f).
Proof.
  intros [Hs Hv] Hf. split; [apply stays_bind; [done|intros a; apply Hf]|]. intros h cx cx' Hc.
  rewrite !value_bind, (Hv h cx cx') by done. apply Hf, same_after; done.
Qed.
Lemma steady_lift {A} (f : root -> prog A) : steady (lift f).
Proof. split; [apply stays_lift|]. intros h cx cx' [Hr _]. by rewrite !value_lift, Hr. Qed.
Lemma steady_there p : steady (there p).
Proof. apply steady_lift. Qed.
Lemma steady_map {A B} (f : A -> coll B) l : (forall a, steady (f a)) -> steady (map_coll f l).
Proof.
  intros Hf. induction l as [|a l IH]; cbn [map_coll]; [apply steady_ret|].
  apply steady_bind; [done|]. intros b. apply steady_bind; [done|]. intros bs. apply steady_ret.
Qed.
Lemma steady_any_there ps : steady (any_there ps).
Proof. split; [apply stays_any_there|]. intros h cx cx' [Hr _]. by rewrite !value_any_there, Hr. Qed.
Lemma steady_root : steady the_root.
Proof. split; [apply stays_root|]. by intros h cx cx' [Hr _]. Qed.
Lemma steady_users : steady the_users.
Proof. split; [apply stays_users|]. by intros h cx cx' [_ Hu]. Qed.
Lemma steady_fold {A S} (f : S -> A -> coll S) l s : (forall s a, steady (f s a)) -> steady (fold_coll f s l).
Proof.
  intros Hf. revert s. induction l as [|a l IH]; intros s; cbn [fold_coll]; [apply steady_ret|]. by apply steady_bind.
Qed.
Section steady_reads.
Context `{Strerror}.
Lemma steady_read_capped p cap : steady (read_capped p cap).
Proof.
  split; [apply stays_read_capped|]. intros h cx cx' [Hr _].
  unfold value, read_capped, Scan.read_capped, read_outcome. rewrite !run_bind, Hr.
  destruct (run h (Root.read_capped (cx_root cx') p cap)) as [[b cut]|e]; cbn [run]; [done|].
  destruct (refusal_of e) as [[q|q t]|]; [done..|]. by destruct (is_not_found e).
Qed.
(** What a directory holds, at one moment. *)
Definition listing (h : snapshot) (r : root) (p : path) : list dir_ent :=
  match run h (read_dir r p) with Ok ents => ents | Err _ => [] end.
Lemma value_dir h cx p : value h cx (dir p) = listing h (cx_root cx) p.
Proof.
  unfold value, dir, Scan.dir, listing. rewrite run_bind. destruct (run h (read_dir (cx_root cx) p)) as [ents|e]; [done|].
  destruct (is_not_found e); [done|]. by rewrite run_bind.
Qed.
Lemma steady_dir p : steady (dir p).
Proof. split; [apply stays_dir|]. intros h cx cx' [Hr _]. by rewrite !value_dir, Hr. Qed.
End steady_reads.

Create HintDb steady.
#[export] Hint Resolve steady_ret steady_lift steady_there steady_any_there steady_root steady_users steady_read_capped steady_dir : steady.
Ltac solve_steady :=
  repeat first [solve [auto with steady] | apply steady_bind; [|intros ?] | apply steady_fold; intros ? ? | apply steady_map; intros ?
    | progress cbv zeta | case_match].

(** An invariant of a loop, on a reading of one moment. *)
Lemma value_fold_inv {A S} (I : S -> Prop) h cx (f : S -> A -> coll S) s l :
  (forall s a, stays (f s a)) -> I s ->
  (forall s a cx', a ∈ l -> same_place cx cx' -> I s -> I (value h cx' (f s a))) ->
  I (value h cx (fold_coll f s l)).
Proof.
  intros Hs Hi Hf. assert (G : forall cx', same_place cx cx' -> I (value h cx' (fold_coll f s l))); [|by apply G].
  revert s Hi Hf. induction l as [|a l IH]; intros s Hi Hf cx' Hc; [done|]. cbn [fold_coll]. rewrite value_bind. apply IH.
  - apply Hf; [by left|done|done].
  - intros s' a' cx'' Ha. apply Hf. by right.
  - destruct (after_same h cx' (f s a) (Hs s a)), Hc. split; congruence.
Qed.

(** One that knows what was gone through. *)
Lemma value_scan_inv {A S} (I : list A -> S -> Prop) h cx (f : S -> A -> coll S) s l :
  (forall s a, stays (f s a)) -> I [] s ->
  (forall seen s a cx', same_place cx cx' -> I seen s -> I (seen ++ [a]) (value h cx' (f s a))) ->
  I l (value h cx (fold_coll f s l)).
Proof.
  intros Hs Hi Hf. assert (G : forall pre cx', same_place cx cx' -> I pre s -> I (pre ++ l) (value h cx' (fold_coll f s l))).
  { clear Hi. revert s. induction l as [|a l IH]; intros s pre cx' Hc Hi; [by rewrite app_nil_r|]. cbn [fold_coll]. rewrite value_bind.
    rewrite cons_middle, app_assoc. apply IH; [|by apply Hf].
    destruct (after_same h cx' (f s a) (Hs s a)), Hc. split; congruence. }
  by apply (G []).
Qed.

(** What a reading comes to at a place. *)
Section at_place.
Context (h : snapshot) (cx : ctx).
Definition finds {A} (Q : A -> Prop) (m : coll A) : Prop := forall cx', same_place cx cx' -> Q (value h cx' m).

Lemma finds_ret {A} (Q : A -> Prop) a : Q a -> finds Q (mret a).
Proof. by intros Ha cx' _. Qed.
Lemma finds_yields {A} (Q : A -> Prop) m : yields Q m -> finds Q m.
Proof. intros Hm cx' _. exact (yields_run _ _ h cx' Hm). Qed.
Lemma finds_mono {A} (Q Q' : A -> Prop) m : (forall a, Q a -> Q' a) -> finds Q m -> finds Q' m.
Proof. intros H Hm cx' Hc. by apply H, Hm. Qed.
Lemma finds_lift {A} (Q : A -> Prop) p : Q (run h (p (cx_root cx))) -> finds Q (lift p).
Proof. intros HQ cx' [Hr _]. by rewrite value_lift, Hr. Qed.
Lemma finds_root : finds (eq (cx_root cx)) the_root.
Proof. by intros cx' [Hr _]. Qed.
Lemma finds_bind {A B} (Q : A -> Prop) (Q' : B -> Prop) (m : coll A) (f : A -> coll B) :
  stays m -> finds Q m -> (forall a, Q a -> finds Q' (f a)) -> finds Q' (m ≫= f).
Proof.
  intros Hs Hm Hf cx' Hc. rewrite value_bind. apply Hf; [by apply Hm|]. destruct (after_same h cx' m Hs), Hc. split; congruence.
Qed.
Lemma finds_bind_any {A B} (Q' : B -> Prop) (m : coll A) (f : A -> coll B) : stays m -> (forall a, finds Q' (f a)) -> finds Q' (m ≫= f).
Proof. intros Hs Hf. apply (finds_bind (fun _ => True)); [done|done|]. intros a _. apply Hf. Qed.
Lemma finds_fold {A S} (I : S -> Prop) (f : S -> A -> coll S) s l :
  (forall s a, stays (f s a)) -> I s -> (forall s a, a ∈ l -> I s -> finds I (f s a)) -> finds I (fold_coll f s l).
Proof.
  intros Hs Hi Hf cx' Hc. apply value_fold_inv; [done|done|]. intros s' a cx'' Ha [E1 E2] Hs'. apply Hf; [done|done|].
  destruct Hc. split; congruence.
Qed.
Lemma finds_map {A B} (Q : A -> B -> Prop) (f : A -> coll B) l :
  (forall a, stays (f a)) -> (forall a, a ∈ l -> finds (Q a) (f a)) -> finds (Forall2 Q l) (map_coll f l).
Proof.
  intros Hs. induction l as [|a l IH]; intros Hf; cbn [map_coll]; [apply finds_ret; constructor|].
  eapply finds_bind; [apply Hs|apply Hf; by left|]. intros b Hb. eapply finds_bind; [by apply stays_map|apply IH; intros; apply Hf; by right|].
  intros bs Hbs. apply finds_ret. by constructor.
Qed.
End at_place.

(** ** What an entry begins with *)

(** The notes an entry can have before its collector adds any. *)
Definition MADE_KEYS : list bytes := [key.SYMLINK_TARGET; #"dangling_symlink"; #"user"; #"user_discovered_via"].

Record made (k : kind) (name : bytes) (e : Entry.entry) : Prop := mk_made {
  md_kind : e_kind e = k;
  md_name : e_name e = name;
  md_enabled : e_enabled e = Enablement.Unknown;
  md_command : e_command e = None;
  md_target : e_target_path e = None;
  md_principal : e_principal e = None;
  md_notes : forall key, is_Some (e_raw e !! key) -> key ∈ MADE_KEYS
}.

Lemma made_flag_if b k name e f : made k name e -> made k name (flag_if b e f).
Proof. intros []. unfold flag_if, Entry.flag. destruct b; [|done]. by destruct (mem f (e_flags e)). Qed.
Lemma made_note k name e key v : key ∈ MADE_KEYS -> made k name e -> made k name (Entry.note e key v).
Proof.
  intros Hk []. split; try done. intros key' Hs. cbn [Entry.note set_raw e_raw] in Hs.
  destruct (decide (key = key')) as [<-|Hne]; [done|]. rewrite lookup_insert_ne in Hs by done. eauto.
Qed.
Lemma made_judged cx p m k name e : made k name e -> made k name (judged cx p m e).
Proof.
  intros Hm. assert (Hf : made k name (flag_if ((m_is_file m || m_is_dir m) && world_writable m)
    (set_facts e (m_uid m) (perms m)) Flag.WorldWritable)) by (apply made_flag_if; by destruct Hm).
  unfold judged. cbv zeta. destruct (home_owner cx p); [|done].
  apply made_flag_if, made_note; [by apply (bool_decide_eq_true_1 _)|]. apply made_note; [by apply (bool_decide_eq_true_1 _)|done].
Qed.
Lemma made_followed A r p link k name e : made k name e -> returns A (fun x => made k name x.2) (followed r p link e).
Proof.
  intros Hm. unfold followed. destruct (m_is_symlink link); [|done].
  eapply returns_bind; [apply returns_true|]. intros t _. cbv zeta.
  assert (Ht : made k name (match t with Ok t => Entry.note e key.SYMLINK_TARGET (from_utf8_lossy t) | Err _ => e end)).
  { destruct t; [|done]. apply made_note; [by apply (bool_decide_eq_true_1 _)|done]. }
  eapply returns_bind; [apply returns_true|]. intros [m|err] _; cbn; [done|]. destruct (refusal_of err); [done|].
  cbn [snd]. apply made_note; [by apply (bool_decide_eq_true_1 _)|done].
Qed.

Lemma entry_made `{Blake3} k p name : yields (made k name) (entry k p name).
Proof.
  intros cx. unfold entry. eapply returns_bind; [|intros e He; exact He]. unfold Scan.entry. cbv zeta.
  assert (Hn : made k name (Entry.rekey (Entry.new k (abs (cx_root cx) p) name) p)).
  { split; try done. intros key. cbn. rewrite lookup_empty. by intros [? [=]]. }
  eapply returns_bind; [apply returns_true|]. intros link _. eapply returns_bind with (Q := made k name).
  - destruct link as [link|]; [|done]. eapply returns_bind; [apply (made_followed _ _ _ _ k name); by destruct Hn|].
    intros x Hx. by apply made_judged.
  - intros e He. eapply returns_bind with (Q := made k name); [|intros e' He'; by apply made_flag_if].
    destruct (parent p); [|done]. eapply returns_bind; [apply returns_true|]. intros [m|] _; cbn; [|done].
    by apply made_flag_if.
Qed.

(** A note no key of [ks] names. *)
Lemma note_other (ks : list bytes) e key v k : mem key ks = false -> k ∈ ks -> e_raw (Entry.note e key v) !! k = e_raw e !! k.
Proof.
  intros Hk Hin. unfold mem in Hk. apply bool_decide_eq_false in Hk. cbn. apply lookup_insert_ne. by intros ->.
Qed.

(** ** The command word *)

Lemma take_word_shorter s word tail : take_word s = Some (word, tail) -> length tail < length s.
Proof.
  unfold take_word. cbv zeta. case_bool_decide as Hne; [done|]. intros [= <- <-].
  set (t := trim_ascii_start s) in *. assert (length t <= length s) by apply drop_while_length.
  assert (0 < default (length t) (position is_ascii_whitespace t)).
  { assert (Hh : forall x, head t = Some x -> is_ascii_whitespace x = false) by (intros x Hx; by eapply drop_while_head).
    destruct t as [|c t]; [done|]. cbn [position]. rewrite (Hh c) by done. destruct (position _ t); cbn; lia. }
  set (n := default (length t) (position is_ascii_whitespace t)) in *.
  assert (length (trim_ascii_start (drop n t)) <= length (drop n t)) by apply drop_while_length.
  rewrite length_drop in *. destruct t; [done|]. cbn [length] in *. lia.
Qed.

Lemma first_absolute_more k n rest : length rest < n -> first_absolute_from (k + n) rest = first_absolute_from n rest.
Proof.
  revert rest. induction n as [|n IH]; intros rest Hn; [lia|]. rewrite Nat.add_succ_r. cbn [first_absolute_from].
  destruct (take_word rest) as [[word tail]|] eqn:E; [|done]. cbn [mbind option_bind]. destruct (is_env word); [|done].
  apply IH. apply take_word_shorter in E. lia.
Qed.

(** The assignments before the program do not matter. *)
Lemma first_absolute_env word tail rest :
  take_word rest = Some (word, tail) ->
  first_absolute rest = if is_env word then first_absolute tail
                        else if starts_with [slash] (shell_word word) then Some (shell_word word) else None.
Proof.
  intros E. unfold first_absolute at 1. cbn [first_absolute_from]. rewrite E. cbn [mbind option_bind].
  destruct (is_env word); [|done]. apply take_word_shorter in E. unfold first_absolute.
  replace (length rest) with ((length rest - S (length tail)) + S (length tail)) by lia. apply first_absolute_more. lia.
Qed.

Lemma shell_word_no_end w : Forall (fun b => shell_end b = false) (shell_word w).
Proof.
  unfold shell_word. destruct (position shell_end w) as [i|] eqn:E; cbn [default from_option id].
  - by apply position_Some in E as (_ & Ht & _).
  - apply position_None in E. by rewrite take_ge.
Qed.

(** ** The loader's directories *)

Definition plain_dir (d : bytes) : Prop := d <> [] /\ (d = [slash] \/ last d <> Some slash).
Record ld_dirs_ok (out : list (bytes * path)) : Prop := mk_ld_dirs_ok {
  ld_once : NoDup (fst <$> out);
  ld_few : (N.of_nat (length out) <= MAX_LD_DIRS)%N;
  ld_plain : Forall plain_dir (fst <$> out)
}.
Definition ld_ok (st : ld_state) : Prop :=
  ld_dirs_ok (ld_out st) /\ forall d, d ∈ fst <$> ld_out st -> d ∈ ld_named st.

Lemma pop_slashes_plain d : d <> [] -> plain_dir (pop_slashes d).
Proof.
  intros Hd. unfold pop_slashes. cbv zeta. case_bool_decide as Hk.
  - split; [by destruct d|]. left. destruct d as [|c d]; [done|]. unfold drop_while_end in Hk.
    assert (Hall : Forall (fun x => is_byte slash x = true) (c :: d)).
    { apply (f_equal reverse) in Hk. rewrite reverse_involutive, reverse_nil in Hk.
      destruct (drop_while_suffix (is_byte slash) (reverse (c :: d))) as (p & Ep & Hp). rewrite Hk, app_nil_r in Ep.
      apply Forall_reverse. by rewrite Ep. }
    apply Forall_cons in Hall as [Hc _]. apply is_byte_true in Hc as ->. done.
  - split; [done|]. right. intros Hl. unfold drop_while_end in Hl. rewrite last_reverse in Hl.
    apply drop_while_head in Hl. by rewrite (proj2 (is_byte_true slash slash)) in Hl.
Qed.
Lemma pop_slashes_nil : pop_slashes [] = [].
Proof. done. Qed.

Lemma name_dir_ok p st d : (d <> [] -> plain_dir d) -> ld_ok st -> ld_ok (name_dir p st d).
Proof.
  intros Hd [[H1 H2 H3] H4]. unfold name_dir. case_bool_decide as He; [done|]. cbn [orb].
  destruct (N.leb_spec MAX_LD_DIRS (N.of_nat (length (ld_out st)))); [done|].
  case_bool_decide as Hn.
  - split; [done|]. cbn [ld_out ld_named]. intros d' Hd'. apply elem_of_union_r. by apply H4.
  - split; cbn [ld_out ld_named].
    + split.
      * rewrite fmap_app. apply NoDup_app. split; [done|]. split; [|apply NoDup_singleton].
        intros d' Hd' ->%list_elem_of_singleton. by apply Hn, H4.
      * rewrite length_app. cbn [length]. lia.
      * rewrite fmap_app. apply Forall_app. split; [done|]. apply Forall_singleton. by apply Hd.
    + intros d'. rewrite fmap_app, elem_of_app. intros [Hd'| ->%list_elem_of_singleton]; [apply elem_of_union_r; by apply H4|].
      by apply elem_of_union_l, elem_of_singleton.
Qed.

Lemma read_ld_line_dir raw d : read_ld_line raw = LdDir d -> d <> [] -> plain_dir d.
Proof.
  unfold read_ld_line. cbv zeta. case_match; [done|]. case_match; [done|]. intros [= <-] Hne. apply pop_slashes_plain.
  intros E. by rewrite E in Hne.
Qed.

Lemma ld_so_conf_ok `{Strerror} n p st : ld_ok st -> yields ld_ok (ld_so_conf n p st).
Proof.
  revert p st. induction n as [|n IH]; intros p st Hst; cbn [ld_so_conf]; [by apply yields_ret|].
  destruct (pm_mem (ld_read st) p); [by apply yields_ret|]. apply yields_bind_any. intros [b|]; [|by apply yields_ret].
  apply yields_fold; [done|]. intros st1 raw _ H1. destruct (read_ld_line raw) as [|pats|d] eqn:E; [by apply yields_ret| |].
  - apply yields_fold; [done|]. intros st2 pat _ H2. apply yields_bind_any. intros fs.
    apply yields_fold; [done|]. intros st3 f _ H3. by apply IH.
  - apply yields_ret, name_dir_ok; [|done]. by eapply read_ld_line_dir.
Qed.

(** ** Replacement *)

Definition named (d : path) (ent : dir_ent) : bytes * path := (de_name ent, path_join d (de_name ent)).

(** A file with the first of its name before it. *)
Definition replaced (all : list (bytes * path)) (i : nat) (np : bytes * path) : path * option path :=
  (snd np, snd <$> find (fun np' => bool_decide (fst np' = fst np)) (take i all)).

Lemma find_file_spec (all : list (bytes * path)) (st : gmap bytes path * list found) (d : path) (ents : list dir_ent) :
  (forall n, fst st !! n = snd <$> find (fun np => bool_decide (fst np = n)) all) ->
  length all = length (snd st) ->
  let st' := foldl (find_file d) st ents in
  (forall n, fst st' !! n = snd <$> find (fun np => bool_decide (fst np = n)) (all ++ (named d <$> ents))) /\
  snd st' = snd st ++ imap (fun i ent => mk_found (de_name ent) (path_join d (de_name ent))
    (snd <$> find (fun np => bool_decide (fst np = de_name ent)) (all ++ take i (named d <$> ents)))) ents.
Proof.
  revert all st. induction ents as [|ent ents IH]; intros all [first out] Hf Hlen; cbn zeta.
  - cbn. rewrite !app_nil_r. done.
  - cbn [foldl]. destruct (IH (all ++ [named d ent]) (find_file d (first, out) ent)) as [H1 H2].
    + intros n. cbn [find_file fst] in *. rewrite find_app. specialize (Hf n) as Hfn.
      destruct (first !! de_name ent) as [q|] eqn:Eq; cbn [fst].
      * rewrite Hfn. destruct (find _ all) eqn:Ef; [done|]. cbn [find named fst]. case_bool_decide; [|done].
        subst n. by rewrite Eq in Hfn.
      * destruct (decide (de_name ent = n)) as [<-|Hne].
        -- rewrite lookup_insert_eq. rewrite Eq in Hfn. destruct (find _ all); [done|]. cbn [find named fst].
           by rewrite bool_decide_true.
        -- rewrite lookup_insert_ne, Hfn by done. destruct (find _ all); [done|]. cbn [find named fst].
           by rewrite bool_decide_false.
    + rewrite length_app. cbn [find_file snd]. rewrite length_app. cbn in *. lia.
    + split.
      * intros n. rewrite H1. cbn [fmap list_fmap]. by rewrite <- app_assoc.
      * rewrite H2. cbn [find_file snd imap]. rewrite <- app_assoc. cbn [app]. f_equal. f_equal.
        -- f_equal. cbn in Hf. by rewrite Hf, app_nil_r.
        -- apply imap_ext. intros i x _. cbn [compose]. cbn [fmap list_fmap take]. by rewrite <- app_assoc.
Qed.

Definition found_at (all : list (bytes * path)) (i : nat) (np : bytes * path) : found :=
  mk_found (fst np) (snd np) (snd <$> find (fun np' => bool_decide (fst np' = fst np)) (take i all)).
(** A file of one of the directories whose name ends as asked. *)
Definition file_from (dirs : list path) (suffix : bytes) (np : bytes * path) : Prop :=
  ends_with suffix (fst np) = true /\ exists d, d ∈ dirs /\ snd np = path_join d (fst np).

Definition found_ok (dirs : list path) (suffix : bytes) (st : gmap bytes path * list found) : Prop :=
  exists all, Forall (file_from dirs suffix) all /\ snd st = imap (found_at all) all /\
    forall n, fst st !! n = snd <$> find (fun np => bool_decide (fst np = n)) all.

Lemma find_files_ok dirs suffix d st ents :
  d ∈ dirs -> Forall (fun ent => ends_with suffix (de_name ent) = true) ents ->
  found_ok dirs suffix st -> found_ok dirs suffix (foldl (find_file d) st ents).
Proof.
  intros Hd Hs (all & Hall & Hout & Hfirst). exists (all ++ (named d <$> ents)).
  assert (length all = length (snd st)) as Hlen by (by rewrite Hout, length_imap).
  destruct (find_file_spec all st d ents Hfirst Hlen) as [H1 H2]. split; [|split; [|done]].
  - apply Forall_app. split; [done|]. apply Forall_fmap. eapply Forall_impl; [exact Hs|]. intros ent Hent.
    split; [done|]. by exists d.
  - rewrite H2, Hout, imap_app. f_equal.
    + apply imap_ext. intros i np Hi. unfold found_at. do 3 f_equal. rewrite take_app_le; [done|].
      apply lookup_lt_Some in Hi. lia.
    + rewrite imap_fmap. apply imap_ext. intros i ent _. unfold found_at, compose. cbn [named fst snd]. do 3 f_equal.
      by rewrite take_app_add.
Qed.

Lemma replaceable_found `{Strerror} dirs suffix :
  yields (fun st => found_ok dirs suffix (snd st)) (fold_coll (find_in_dir suffix) (∅, (∅, [])) dirs).
Proof.
  apply yields_fold; [exists []; by split|]. intros [seen st] d Hd Hst. unfold find_in_dir. cbn [fst snd] in *.
  apply yields_bind_any. intros [id seen']. destruct id; [|by apply yields_ret].
  apply yields_bind_any. intros ents. apply yields_ret. cbn [snd]. apply find_files_ok; [done| |done].
  apply Forall_forall. intros ent Hent. apply list_elem_of_In, List.filter_In in Hent as [_ Ht].
  by apply andb_true_iff in Ht as [_ ?].
Qed.

(** ** Properties *)

(** However ld.so.conf and what it includes are written, at most 4096
    directories come of them, each named once, none empty and none with a
    slash at its end but the root itself; and the reading ends, for includes
    go nine deep. *)
Theorem ld_dirs_bounded `{Strerror} : yields ld_dirs_ok ld_so_conf_dirs.
Proof.
  apply (yields_bind ld_ok).
  - apply ld_so_conf_ok. split; [split; [constructor|done|constructor]|]. by intros d ?%elem_of_nil.
  - intros st [Hst _]. by apply yields_ret.
Qed.

(** Of the files of one name in several directories, the one in the
    earliest directory is replaced by none and replaces every other; the
    files come in the order of their names, those of one name in the order of
    the directories. *)
Theorem replaceable_first `{Strerror} (dirs : list path) (suffix : bytes) :
  yields (fun out => exists all, Forall (file_from dirs suffix) all /\
      let fs := sort_by fo_name (imap (found_at all) all) in
      out = (fun f => (fo_rel f, fo_by f)) <$> fs /\ StronglySorted (key_le fo_name) fs /\
      fs ≡ₚ imap (found_at all) all /\
      forall n, List.filter (has_key fo_name n) fs = List.filter (has_key fo_name n) (imap (found_at all) all))
    (replaceable dirs suffix).
Proof.
  eapply yields_bind; [apply replaceable_found|]. intros [seen [first out]] (all & Hall & Hout & _).
  apply yields_ret. cbn [snd] in *. exists all. split; [done|]. cbv zeta. rewrite Hout.
  split; [done|]. split; [apply sort_by_sorted|]. split; [apply sort_by_perm|]. intros n. apply sort_by_stable.
Qed.

(** The names debianutils' own binary was given, and what it did with them. *)
Example lsb_names :
  forallb lsb_name (words_by (is_byte " ")
    #"00-header 10-help-text 10-x.y-z 1-a 1_-a a a- a-1 a_1-b_2 a1-b2 _a-b a--b a-b a_b ab1 _a.b-c a.b-c a_b-c a-b-c-d a-b.c-d a.dpkg-bak a.dpkg-old-y x.dpkg-oldx") = true /\
  existsb lsb_name (words_by (is_byte " ")
    #"A _a a-B a.b a-b.c -a 10-x. 50-landscape-sysinfo.sh x.dpkg-old a.dpkg-dist a.dpkg-new a.dpkg-tmp 10-a.dpkg-old x~ A-b .a") = false.
Proof. by vm_compute. Qed.
