(* ===== verification/Pyyaml.v ===== *)
(** [src/pyyaml.rs]: PyYAML's reader, scanner and parser. A [char] is a code
    point; a [String] being put together is its list of them. What can go wrong
    is a [fault]: an [Err] of the code, a panic, or a loop of the model that has
    spent its fuel. The laws show the last two never happen. *)

From S2P Require Import Prelude Slices Order Num Utf8.

(** [{:?}] of a [char] and of a [str] follows Unicode's tables, which the
    standard library generates: a parameter. Only messages show it. *)
Class Debug := { debug_char : char -> bytes; debug_str : bytes -> bytes }.

(** ** Programs that may fail *)

Inductive fault :=
| Raised (why : bytes)
| Panicked
| Spent.

Definition st (S A : Type) : Type := S -> result fault (A * S).
#[global] Instance st_ret S : MRet (st S) := fun A a s => Ok (a, s).
#[global] Instance st_bind S : MBind (st S) := fun A B f m s => match m s with Ok (a, s') => f a s' | Err e => Err e end.
Definition ask {S A} (f : S -> A) : st S A := fun s => Ok (f s, s).
Definition modify {S} (f : S -> S) : st S unit := fun s => Ok (tt, f s).
Definition stop {S A} (e : fault) : st S A := fun _ => Err e.
Definition when {S} (b : bool) (m : st S unit) : st S unit := if b then m else mret tt.
(** A program on a part of the state. *)
Definition zoom {S T A} (get : T -> S) (set : S -> T -> T) (m : st S A) : st T A :=
  fun t => match m (get t) with Ok (a, s) => Ok (a, set s t) | Err e => Err e end.

(** ** Marks and messages *)

Record Mark := mk_mark { m_line : nat; m_column : nat }.
Definition no_mark : Mark := mk_mark 0 0.
Definition show_mark (m : Mark) : bytes :=
  #"line " ++ dec (N.of_nat (m_line m + 1)) ++ #", column " ++ dec (N.of_nat (m_column m + 1)).

Definition err {S A} (context problem : bytes) (m : Mark) : st S A :=
  stop (Raised (if bool_decide (context = []) then problem ++ #" at " ++ show_mark m
                else context ++ #": " ++ problem ++ #" at " ++ show_mark m)).

Inductive Event :=
| StreamStart
| StreamEnd
| DocumentStart
| DocumentEnd
| Alias (anchor : bytes)
| Scalar (anchor tag : option bytes) (implicit : bool) (value : bytes)
| SequenceStart (anchor tag : option bytes)
| SequenceEnd
| MappingStart (anchor tag : option bytes)
| MappingEnd.

(** ** Character classes *)

Definition ch (s : bytes) : list char := Byte.to_N <$> s.
Definition is_char (b : byte) (c : char) : bool := (c =? Byte.to_N b)%N.
Definition has (s : list char) (c : char) : bool := mem c s.
Definition NUL : char := 0.
Definition BREAK : list char := [0x0D; 0x0A; 0x85; 0x2028; 0x2029]%N.
Definition BREAKZ : list char := NUL :: BREAK.
Definition BLANKZ : list char := NUL :: 0x20%N :: BREAK.
Definition BLANKZ_TAB : list char := NUL :: 0x20%N :: 0x09%N :: BREAK.
Definition BLANK_TAB : list char := [0x20; 0x09]%N.
Definition HEX : list char := ch #"0123456789ABCDEFabcdef".
Definition is_digit (c : char) : bool := char_in 0x30 0x39 c.
Definition is_alphanumeric (c : char) : bool := is_digit c || char_in 0x41 0x5A c || char_in 0x61 0x7A c.
Definition word (c : char) : bool := is_alphanumeric c || is_char "-" c || is_char "_" c.

(** ** Tokens *)

Inductive Directive :=
| Yaml (major_is_one : bool)
| TagHandle (handle prefix : bytes)
| Other.

Inductive Tok :=
| TStreamStart
| TStreamEnd
| TDirective (d : Directive)
| TDocumentStart
| TDocumentEnd
| TBlockSequenceStart
| TBlockMappingStart
| TBlockEnd
| TFlowSequenceStart
| TFlowMappingStart
| TFlowSequenceEnd
| TFlowMappingEnd
| TKey
| TValue
| TBlockEntry
| TFlowEntry
| TAlias (name : bytes)
| TAnchor (name : bytes)
| TTag (handle : option bytes) (suffix : bytes)
| TScalar (value : bytes) (plain : bool).
Record Token := mk_token { t_tok : Tok; t_mark : Mark }.

Record SimpleKey := mk_simple_key {
  k_token_number : nat; k_required : bool; k_index : nat; k_line : nat; k_column : nat; k_mark : Mark
}.

(** ** reader.py

    [r_rest] is the buffer from the pointer on: no operation goes back. *)
Record reader := mk_reader { r_rest : list char; r_pointer : nat; r_line : nat; r_column : nat }.

Definition peek_in (l : list char) (i : nat) : char := default NUL (l !! i).
Definition peek (i : nat) : st reader char := ask (fun r => peek_in (r_rest r) i).
Definition prefix (n : nat) : st reader (list char) := ask (fun r => take n (r_rest r)).
Definition forward1 (r : reader) : reader :=
  match r_rest r with
  | [] => r
  | c :: rest =>
      let p := S (r_pointer r) in
      if has [0x0A; 0x85; 0x2028; 0x2029]%N c || is_char x0d c && negb (is_char x0a (peek_in rest 0))
      then mk_reader rest p (S (r_line r)) 0
      else mk_reader rest p (r_line r) (if (c =? 0xFEFF)%N then r_column r else S (r_column r))
  end.
Definition forwarded (n : nat) (r : reader) : reader := Nat.iter n forward1 r.
Definition forward (n : nat) : st reader unit := modify (forwarded n).
Definition mark_of (r : reader) : Mark := mk_mark (r_line r) (r_column r).
Definition mark : st reader Mark := ask mark_of.

(** How far [while f(peek(length))] goes: [f] is false of the NUL that ends
    the buffer. *)
Definition run (f : char -> bool) : st reader nat := ask (fun r => length (take_while f (r_rest r))).
Definition skip (f : char -> bool) : st reader unit := n ← run f; forward n.
(** The characters of a run, passed over. *)
Definition word_of (n : nat) : st reader (list char) := s ← prefix n; forward n;; mret s.
(** Fuel for a loop each round of which passes over a character. *)
Definition fuel_for {A} (loop : nat -> st reader A) : st reader A := fun r => loop (S (length (r_rest r))) r.

Definition scan_line_break : st reader (list char) :=
  c ← peek 0;
  if has [0x0D; 0x0A; 0x85]%N c then
    p ← prefix 2;
    forward (if bool_decide (p = [0x0D; 0x0A]%N) then 2 else 1);;
    mret [0x0A%N]
  else if has [0x2028; 0x2029]%N c then forward 1;; mret [c]
  else mret [].
Definition is_break (l : list char) : bool := bool_decide (l = [0x0A%N]).

Section Reader.
Context `{Debug}.

(** [err] where the reader stands, naming the character it found. *)
Definition found {S A} (context expected : bytes) (c : char) (m : Mark) : st S A :=
  err context (expected ++ #", but found " ++ debug_char c) m.
Definition found_here {A} (context expected : bytes) : st reader A :=
  c ← peek 0; m ← mark; found context expected c m.
Definition found_from {A} (context expected : bytes) (start : Mark) : st reader A :=
  c ← peek 0; found context expected c start.

Definition IN_DIRECTIVE : bytes := #"while scanning a directive".
Definition IN_BLOCK : bytes := #"while scanning a block scalar".
Definition IN_QUOTED : bytes := #"while scanning a quoted scalar".
Definition IN_DOUBLE : bytes := #"while scanning a double-quoted scalar".

Definition scan_ignored_line (context : bytes) : st reader unit :=
  skip (is_char " ");;
  c ← peek 0;
  when (is_char "#" c) (skip (fun c => negb (has BREAKZ c)));;
  c ← peek 0;
  if has BREAKZ c then scan_line_break;; mret tt
  else found_here context #"expected a comment or a line break".

(** *** Directives *)

Definition EXPECTED_WORD : bytes := #"expected alphabetic or numeric character".

Definition scan_directive_name (start : Mark) : st reader (list char) :=
  n ← run word;
  if bool_decide (n = 0) then found_from IN_DIRECTIVE EXPECTED_WORD start
  else
    value ← word_of n;
    c ← peek 0;
    if has BLANKZ c then mret value else found_from IN_DIRECTIVE EXPECTED_WORD start.

Definition scan_yaml_directive_number (start : Mark) : st reader (list char) :=
  c ← peek 0;
  if is_digit c then n ← run is_digit; word_of n else found_from IN_DIRECTIVE #"expected a digit" start.

Definition scan_yaml_directive_value (start : Mark) : st reader Directive :=
  skip (is_char " ");;
  major ← scan_yaml_directive_number start;
  c ← peek 0;
  if is_char "." c then
    forward 1;;
    scan_yaml_directive_number start;;
    c ← peek 0;
    if has BLANKZ c then mret (Yaml (bool_decide (drop_while (is_char "0") major = ch #"1")))
    else found_here IN_DIRECTIVE #"expected a digit or ' '"
  else found_here IN_DIRECTIVE #"expected a digit or '.'".

(** *** Tags *)

Definition scan_tag_handle (name : bytes) (start : Mark) : st reader (list char) :=
  let context := #"while scanning a " ++ name in
  c ← peek 0;
  if is_char "!" c then
    c ← peek 1;
    if is_char " " c then word_of 1
    else
      rest ← ask (fun r => drop 1 (r_rest r));
      let n := S (length (take_while word rest)) in
      c ← peek n;
      if is_char "!" c then word_of (S n)
      else forward n;; m ← mark; found context #"expected '!'" c m
  else found_from context #"expected '!'" start.

(** [e.to_string()] of a [FromUtf8Error]. *)
Fixpoint utf8_error_from (at_ : nat) (ks : list (char + bytes)) : bytes :=
  match ks with
  | [] => []
  | inl c :: ks => utf8_error_from (at_ + length (utf8_encode1 c)) ks
  | inr s :: ks =>
      let wants := match head s with
        | Some b => if byte_in xc2 xdf b then 2 else if byte_in xe0 xef b then 3 else if byte_in xf0 xf4 b then 4 else 1
        | None => 1
        end in
      let index := dec (N.of_nat at_) in
      if bool_decide (ks = []) && (length s <? wants) then #"incomplete utf-8 byte sequence from index " ++ index
      else #"invalid utf-8 sequence of " ++ dec (N.of_nat (length s)) ++ #" bytes from index " ++ index
  end.
Definition utf8_error (b : bytes) : bytes := utf8_error_from 0 (utf8_chunks b).

(** The [k]th of [n] characters from here that is no hexadecimal digit. *)
Definition not_hex (n : nat) : st reader (option char) :=
  ask (fun r => find (fun c => negb (has HEX c)) (peek_in (r_rest r) <$> seq 0 n)).
Definition hex_code (max : N) (s : list char) : option N := from_str_radix 16 max (utf8_encode s).

Fixpoint uri_escapes_loop (fuel : nat) (name : bytes) (codes : bytes) : st reader bytes :=
  match fuel with
  | O => stop Spent
  | S fuel =>
      c ← peek 0;
      if is_char "%" c then
        forward 1;;
        bad ← not_hex 2;
        match bad with
        | Some c =>
            m ← mark;
            found (#"while scanning a " ++ name) #"expected URI escape sequence of 2 hexadecimal numbers" c m
        | None =>
            s ← word_of 2;
            uri_escapes_loop fuel name (codes ++ [byte_of_N (default 0%N (hex_code U8_MAX s))])
        end
      else mret codes
  end.
Definition scan_uri_escapes (name : bytes) (start : Mark) : st reader (list char) :=
  codes ← fuel_for (fun fuel => uri_escapes_loop fuel name []);
  if is_utf8 codes then mret (chars codes) else err (#"while scanning a " ++ name) (utf8_error codes) start.

Definition uri_char (c : char) : bool :=
  is_alphanumeric c || has (ch #"-;/?:@&=+$,_.!~*'()[]") c.
(** A run of plain URI characters and the escapes after it, again and again. *)
Fixpoint tag_uri_loop (fuel : nat) (name : bytes) (start : Mark) (chunks : list char) : st reader (list char) :=
  match fuel with
  | O => stop Spent
  | S fuel =>
      n ← run uri_char;
      s ← word_of n;
      c ← peek 0;
      if is_char "%" c then
        codes ← scan_uri_escapes name start;
        tag_uri_loop fuel name start (chunks ++ s ++ codes)
      else mret (chunks ++ s)
  end.
Definition scan_tag_uri (name : bytes) (start : Mark) : st reader (list char) :=
  chunks ← fuel_for (fun fuel => tag_uri_loop fuel name start []);
  if bool_decide (chunks = []) then found_here (#"while parsing a " ++ name) #"expected URI" else mret chunks.

Definition scan_tag_directive_value (start : Mark) : st reader Directive :=
  skip (is_char " ");;
  handle ← scan_tag_handle #"directive" start;
  c ← peek 0;
  if is_char " " c then
    skip (is_char " ");;
    uri ← scan_tag_uri #"directive" start;
    c ← peek 0;
    if has BLANKZ c then mret (TagHandle (utf8_encode handle) (utf8_encode uri))
    else found_here IN_DIRECTIVE #"expected ' '"
  else found_here IN_DIRECTIVE #"expected ' '".

Definition scan_directive : st reader Directive :=
  start ← mark;
  forward 1;;
  name ← scan_directive_name start;
  value ← (if bool_decide (name = ch #"YAML") then scan_yaml_directive_value start
           else if bool_decide (name = ch #"TAG") then scan_tag_directive_value start
           else skip (fun c => negb (has BREAKZ c));; mret Other);
  scan_ignored_line IN_DIRECTIVE;;
  mret value.

Definition scan_anchor (alias : bool) : st reader bytes :=
  let what := if alias then #"while scanning an alias" else #"while scanning an anchor" in
  forward 1;;
  n ← run word;
  if bool_decide (n = 0) then found_here what EXPECTED_WORD
  else
    value ← word_of n;
    c ← peek 0;
    if has (BLANKZ_TAB ++ ch #"?:,]}%@`") c then mret (utf8_encode value) else found_here what EXPECTED_WORD.

Definition scan_tag : st reader (option bytes * bytes) :=
  start ← mark;
  c ← peek 1;
  got ← (if is_char "<" c then
           forward 2;;
           suffix ← scan_tag_uri #"tag" start;
           c ← peek 0;
           if is_char ">" c then forward 1;; mret (None, suffix)
           else found_here #"while parsing a tag" #"expected '>'"
         else if has BLANKZ_TAB c then forward 1;; mret (None, ch #"!")
         else
           rest ← ask (fun r => drop 1 (r_rest r));
           let use_handle :=
             is_char "!" (peek_in (drop_while (fun c => negb (has BLANKZ c) && negb (is_char "!" c)) rest) 0) in
           handle ← (if use_handle then scan_tag_handle #"tag" start else forward 1;; mret (ch #"!"));
           suffix ← scan_tag_uri #"tag" start;
           mret (Some handle, suffix));
  c ← peek 0;
  if has BLANKZ c then mret (utf8_encode <$> fst got, utf8_encode (snd got))
  else found_here #"while scanning a tag" #"expected ' '".

(** *** Block scalars *)

Definition is_blank_tab (c : char) : bool := has BLANK_TAB c.

(** The chomping and the indentation indicators, in either order. *)
Definition digit_value (c : char) : option nat :=
  if is_digit c then Some (N.to_nat (c - 0x30)) else None.
Definition zero_indicator {A} (start : Mark) : st reader A :=
  err IN_BLOCK #"expected indentation indicator in the range 1-9, but found 0" start.
Definition is_chomping (c : char) : bool := is_char "+" c || is_char "-" c.
Definition scan_block_scalar_indicators (start : Mark) : st reader (option bool * option nat) :=
  c ← peek 0;
  got ← (if is_chomping c then
           forward 1;;
           d ← peek 0;
           match digit_value d with
           | Some O => zero_indicator start
           | Some d => forward 1;; mret (Some (is_char "+" c), Some d)
           | None => mret (Some (is_char "+" c), None)
           end
         else match digit_value c with
         | Some O => zero_indicator start
         | Some d =>
             forward 1;;
             c ← peek 0;
             if is_chomping c then forward 1;; mret (Some (is_char "+" c), Some d) else mret (None, Some d)
         | None => mret (None, None)
         end);
  c ← peek 0;
  if has BLANKZ c then mret got
  else found_here IN_BLOCK #"expected chomping or indentation indicators".

Fixpoint indentation_loop (fuel : nat) (chunks : list (list char)) (max_indent : nat) : st reader (list (list char) * nat) :=
  match fuel with
  | O => stop Spent
  | S fuel =>
      c ← peek 0;
      if is_char " " c then
        forward 1;;
        column ← ask r_column;
        indentation_loop fuel chunks (Nat.max max_indent column)
      else if has BREAK c then b ← scan_line_break; indentation_loop fuel (chunks ++ [b]) max_indent
      else mret (chunks, max_indent)
  end.
Definition scan_block_scalar_indentation : st reader (list (list char) * nat) :=
  fuel_for (fun fuel => indentation_loop fuel [] 0).

(** [while self.column < indent && self.peek(0) == ' '] passes over a blank,
    which is one more column. *)
Definition skip_to (indent : nat) : st reader unit :=
  n ← run (is_char " ");
  column ← ask r_column;
  forward (Nat.min (indent - column) n).
Fixpoint breaks_loop (fuel indent : nat) (chunks : list (list char)) : st reader (list (list char)) :=
  match fuel with
  | O => stop Spent
  | S fuel =>
      c ← peek 0;
      if has BREAK c then b ← scan_line_break; skip_to indent;; breaks_loop fuel indent (chunks ++ [b])
      else mret chunks
  end.
Definition scan_block_scalar_breaks (indent : nat) : st reader (list (list char)) :=
  skip_to indent;; fuel_for (fun fuel => breaks_loop fuel indent []).

(** Whether a line of the scalar starts here. *)
Definition at_line (indent : nat) : st reader bool :=
  column ← ask r_column;
  c ← peek 0;
  mret (bool_decide (column = indent) && negb (c =? NUL)%N).
Fixpoint block_scalar_loop (fuel : nat) (folded : bool) (indent : nat)
    (chunks : list char) (breaks : list (list char)) (line_break : list char) : st reader (list char * list (list char) * list char) :=
  match fuel with
  | O => stop Spent
  | S fuel =>
      here ← at_line indent;
      if here : bool then
        c ← peek 0;
        n ← run (fun c => negb (has BREAKZ c));
        s ← word_of n;
        let chunks := chunks ++ concat breaks ++ s in
        line_break ← scan_line_break;
        breaks ← scan_block_scalar_breaks indent;
        here ← at_line indent;
        if here : bool then
          d ← peek 0;
          let glue := if folded && is_break line_break && negb (is_blank_tab c) && negb (is_blank_tab d)
                      then (if bool_decide (breaks = []) then ch #" " else []) else line_break in
          block_scalar_loop fuel folded indent (chunks ++ glue) breaks line_break
        else mret (chunks, breaks, line_break)
      else mret (chunks, breaks, line_break)
  end.
Definition scan_block_scalar (self_indent : Z) (folded : bool) : st reader bytes :=
  start ← mark;
  forward 1;;
  indicators ← scan_block_scalar_indicators start;
  let '(chomping, increment) := indicators in
  scan_ignored_line IN_BLOCK;;
  let min_indent := Z.to_nat (Z.max (self_indent + 1) 1) in
  first ← match increment with
    | None =>
        got ← scan_block_scalar_indentation;
        let '(breaks, max_indent) := got in
        mret (breaks, Nat.max min_indent max_indent)
    | Some inc =>
        let indent := min_indent + inc - 1 in
        breaks ← scan_block_scalar_breaks indent;
        mret (breaks, indent)
    end;
  let '(breaks, indent) := first in
  body ← fuel_for (fun fuel => block_scalar_loop fuel folded indent [] breaks []);
  let '(chunks, breaks, line_break) := body in
  let chunks := if bool_decide (chomping = Some false) then chunks else chunks ++ line_break in
  mret (utf8_encode (if bool_decide (chomping = Some true) then chunks ++ concat breaks else chunks)).

(** *** Quoted scalars *)

Definition QUOTED_STOP : list char := [0x27; 0x22; 0x5C]%N ++ NUL :: BLANK_TAB ++ BREAK.
Definition SINGLE_QUOTE : char := 0x27.
Definition DOUBLE_QUOTE : char := 0x22.
Definition BACKSLASH : char := 0x5C.

Definition replacement (c : char) : option char :=
  (if is_char "0" c then Some 0x00 else if is_char "a" c then Some 0x07 else if is_char "b" c then Some 0x08
   else if is_char "t" c || (c =? 0x09) then Some 0x09 else if is_char "n" c then Some 0x0A
   else if is_char "v" c then Some 0x0B else if is_char "f" c then Some 0x0C else if is_char "r" c then Some 0x0D
   else if is_char "e" c then Some 0x1B else if is_char " " c then Some 0x20 else if (c =? DOUBLE_QUOTE) then Some DOUBLE_QUOTE
   else if (c =? BACKSLASH) then Some BACKSLASH else if is_char "/" c then Some 0x2F else if is_char "N" c then Some 0x85
   else if is_char "_" c then Some 0xA0 else if is_char "L" c then Some 0x2028 else if is_char "P" c then Some 0x2029
   else None)%N.
Definition code_length (c : char) : option nat :=
  if is_char "x" c then Some 2 else if is_char "u" c then Some 4 else if is_char "U" c then Some 8 else None.

(** [char::from_u32], a lone surrogate becoming U+FFFD. *)
Definition escaped_char (code : N) : option char :=
  if is_scalar code then Some code
  else if ((0xD800 <=? code) && (code <? 0xE000))%N then Some 0xFFFD%N
  else None.

Definition is_separator : st reader bool :=
  p ← prefix 3;
  c ← peek 3;
  mret ((bool_decide (p = ch #"---") || bool_decide (p = ch #"...")) && has BLANKZ_TAB c).
Fixpoint flow_breaks_loop (fuel : nat) (chunks : list char) : st reader (list char) :=
  match fuel with
  | O => stop Spent
  | S fuel =>
      sep ← is_separator;
      if sep : bool then m ← mark; err IN_QUOTED #"found unexpected document separator" m
      else
        skip is_blank_tab;;
        c ← peek 0;
        if has BREAK c then b ← scan_line_break; flow_breaks_loop fuel (chunks ++ b) else mret chunks
  end.
Definition scan_flow_scalar_breaks : st reader (list char) := fuel_for (fun fuel => flow_breaks_loop fuel []).

Definition scan_flow_scalar_spaces : st reader (list char) :=
  n ← run is_blank_tab;
  whitespaces ← word_of n;
  c ← peek 0;
  if (c =? NUL)%N then m ← mark; err IN_QUOTED #"found unexpected end of stream" m
  else if has BREAK c then
    line_break ← scan_line_break;
    breaks ← scan_flow_scalar_breaks;
    mret ((if is_break line_break then (if bool_decide (breaks = []) then ch #" " else []) else line_break) ++ breaks)
  else mret whitespaces.

(** What follows a backslash in double quotes. *)
Definition scan_escape (start : Mark) : st reader (list char) :=
  forward 1;;
  c ← peek 0;
  match replacement c, code_length c with
  | Some r, _ => forward 1;; mret [r]
  | None, Some n =>
      forward 1;;
      bad ← not_hex n;
      match bad with
      | Some c =>
          m ← mark;
          found IN_DOUBLE (#"expected escape sequence of " ++ dec (N.of_nat n) ++ #" hexadecimal numbers") c m
      | None =>
          s ← prefix n;
          let code := default U32_MAX (hex_code U32_MAX s) in
          match escaped_char code with
          | Some c => forward n;; mret [c]
          | None => err IN_DOUBLE (#"chr() arg not in range(0x110000): " ++ hex code) start
          end
      end
  | None, None =>
      if has BREAK c then scan_line_break;; scan_flow_scalar_breaks
      else m ← mark; err IN_DOUBLE (#"found unknown escape character " ++ debug_char c) m
  end.

Fixpoint non_spaces_loop (fuel : nat) (double : bool) (start : Mark) (chunks : list char) : st reader (list char) :=
  match fuel with
  | O => stop Spent
  | S fuel =>
      n ← run (fun c => negb (has QUOTED_STOP c));
      s ← word_of n;
      let chunks := chunks ++ s in
      c ← peek 0;
      d ← peek 1;
      if negb double && (c =? SINGLE_QUOTE)%N && (d =? SINGLE_QUOTE)%N then
        forward 2;; non_spaces_loop fuel double start (chunks ++ [SINGLE_QUOTE])
      else if (double && (c =? SINGLE_QUOTE) || negb double && ((c =? DOUBLE_QUOTE) || (c =? BACKSLASH)))%N then
        forward 1;; non_spaces_loop fuel double start (chunks ++ [c])
      else if double && (c =? BACKSLASH)%N then
        more ← scan_escape start;
        non_spaces_loop fuel double start (chunks ++ more)
      else mret chunks
  end.
Definition scan_flow_scalar_non_spaces (double : bool) (start : Mark) : st reader (list char) :=
  fuel_for (fun fuel => non_spaces_loop fuel double start []).

Fixpoint flow_scalar_loop (fuel : nat) (double : bool) (quote : char) (start : Mark) (chunks : list char) : st reader (list char) :=
  match fuel with
  | O => stop Spent
  | S fuel =>
      c ← peek 0;
      if (c =? quote)%N then mret chunks
      else
        spaces ← scan_flow_scalar_spaces;
        more ← scan_flow_scalar_non_spaces double start;
        flow_scalar_loop fuel double quote start (chunks ++ spaces ++ more)
  end.
Definition scan_flow_scalar (double : bool) : st reader bytes :=
  start ← mark;
  quote ← peek 0;
  forward 1;;
  first ← scan_flow_scalar_non_spaces double start;
  chunks ← fuel_for (fun fuel => flow_scalar_loop fuel double quote start first);
  forward 1;;
  mret (utf8_encode chunks).

End Reader.

(** ** scanner.py *)

#[global] Instance Z_ord : Ord Z := Z.compare.
#[global] Instance Z_ord_laws : OrdLaws Z.
Proof.
  split; unfold cmp, Z_ord; intros.
  - apply Z.compare_eq_iff.
  - apply Z.compare_antisym.
  - rewrite Z.compare_lt_iff in *. lia.
Qed.

Record scanner := mk_scanner {
  s_reader : reader;
  s_done : bool;
  s_flow_level : Z;
  s_tokens : list Token;
  s_tokens_taken : nat;
  s_indent : Z;
  (** The stack of outer indents, the last pushed first. *)
  s_indents : list Z;
  s_allow_simple_key : bool;
  s_possible_simple_keys : gmap Z SimpleKey
}.

Definition set_reader (r : reader) (s : scanner) : scanner :=
  mk_scanner r (s_done s) (s_flow_level s) (s_tokens s) (s_tokens_taken s) (s_indent s) (s_indents s) (s_allow_simple_key s) (s_possible_simple_keys s).
Definition set_done (b : bool) (s : scanner) : scanner :=
  mk_scanner (s_reader s) b (s_flow_level s) (s_tokens s) (s_tokens_taken s) (s_indent s) (s_indents s) (s_allow_simple_key s) (s_possible_simple_keys s).
Definition set_flow_level (z : Z) (s : scanner) : scanner :=
  mk_scanner (s_reader s) (s_done s) z (s_tokens s) (s_tokens_taken s) (s_indent s) (s_indents s) (s_allow_simple_key s) (s_possible_simple_keys s).
Definition set_tokens (l : list Token) (s : scanner) : scanner :=
  mk_scanner (s_reader s) (s_done s) (s_flow_level s) l (s_tokens_taken s) (s_indent s) (s_indents s) (s_allow_simple_key s) (s_possible_simple_keys s).
Definition set_tokens_taken (n : nat) (s : scanner) : scanner :=
  mk_scanner (s_reader s) (s_done s) (s_flow_level s) (s_tokens s) n (s_indent s) (s_indents s) (s_allow_simple_key s) (s_possible_simple_keys s).
Definition set_indents (z : Z) (l : list Z) (s : scanner) : scanner :=
  mk_scanner (s_reader s) (s_done s) (s_flow_level s) (s_tokens s) (s_tokens_taken s) z l (s_allow_simple_key s) (s_possible_simple_keys s).
Definition set_allow (b : bool) (s : scanner) : scanner :=
  mk_scanner (s_reader s) (s_done s) (s_flow_level s) (s_tokens s) (s_tokens_taken s) (s_indent s) (s_indents s) b (s_possible_simple_keys s).
Definition set_keys (m : gmap Z SimpleKey) (s : scanner) : scanner :=
  mk_scanner (s_reader s) (s_done s) (s_flow_level s) (s_tokens s) (s_tokens_taken s) (s_indent s) (s_indents s) (s_allow_simple_key s) m.

Definition read {A} : st reader A -> st scanner A := zoom s_reader set_reader.
Definition flow_level : st scanner Z := ask s_flow_level.
Definition in_block : st scanner bool := ask (fun s => bool_decide (s_flow_level s = 0%Z)).
Definition here : st scanner Mark := read mark.
Definition column_z (s : scanner) : Z := Z.of_nat (r_column (s_reader s)).

Definition push (t : Tok) (m : Mark) : st scanner unit := modify (fun s => set_tokens (s_tokens s ++ [mk_token t m]) s).
Definition allow (b : bool) : st scanner unit := modify (set_allow b).
(** [a - b] of [usize]: below zero, a panic. *)
Definition usize_sub {S} (a b : nat) : st S nat := if b <=? a then mret (a - b) else stop Panicked.
(** [tokens.insert(at, t)]: past the end, a panic. *)
Definition insert_token (at_ : nat) (t : Token) : st scanner unit := fun s =>
  if at_ <=? length (s_tokens s)
  then Ok (tt, set_tokens (take at_ (s_tokens s) ++ t :: drop at_ (s_tokens s)) s)
  else Err Panicked.

Definition printable (c : char) : bool :=
  (c =? 0x09)%N || (c =? 0x0A)%N || (c =? 0x0D)%N || char_in 0x20 0x7E c || (c =? 0x85)%N
  || char_in 0xA0 0xD7FF c || char_in 0xE000 0xFFFD c || (0x10000 <=? c)%N.

Definition scanner_of (cs : list char) : scanner :=
  mk_scanner (mk_reader cs 0 0 0) false 0%Z [mk_token TStreamStart no_mark] 0 (-1)%Z [] true ∅.
Definition new_scanner (text : bytes) : result fault scanner :=
  let cs := chars text in
  match position (fun c => negb (printable c)) cs with
  | Some i => Err (Raised (#"special characters are not allowed: " ++ hex (peek_in cs i) ++ #" at position " ++ dec (N.of_nat i)))
  | None => Ok (scanner_of (cs ++ [NUL]))
  end.

Section Scanner.
Context `{Debug}.

(** *** Simple keys *)

Definition IN_KEY : bytes := #"while scanning a simple key".
Definition no_colon {A} : st scanner A := m ← here; err IN_KEY #"could not find expected ':'" m.

Definition next_possible_simple_key (s : scanner) : option nat :=
  match k_token_number <$> btree_values (s_possible_simple_keys s) with
  | [] => None
  | n :: ns => Some (foldl Nat.min n ns)
  end.

Fixpoint stale_loop (keys : list (Z * SimpleKey)) : st scanner unit :=
  match keys with
  | [] => mret tt
  | (level, key) :: keys =>
      r ← ask s_reader;
      stale ← (if bool_decide (k_line key = r_line r) then n ← usize_sub (r_pointer r) (k_index key); mret (1024 <? n) else mret true);
      if stale : bool then
        if k_required key then no_colon
        else modify (fun s => set_keys (delete level (s_possible_simple_keys s)) s);; stale_loop keys
      else stale_loop keys
  end.
Definition stale_possible_simple_keys : st scanner unit :=
  keys ← ask (fun s => btree_to_list (s_possible_simple_keys s)); stale_loop keys.

Definition remove_possible_simple_key : st scanner unit :=
  s ← ask id;
  match s_possible_simple_keys s !! s_flow_level s with
  | Some key =>
      modify (set_keys (delete (s_flow_level s) (s_possible_simple_keys s)));;
      if k_required key then no_colon else mret tt
  | None => mret tt
  end.

Definition save_possible_simple_key : st scanner unit :=
  s ← ask id;
  let required := bool_decide (s_flow_level s = 0%Z) && bool_decide (s_indent s = column_z s) in
  if s_allow_simple_key s then
    remove_possible_simple_key;;
    let r := s_reader s in
    let key := mk_simple_key (s_tokens_taken s + length (s_tokens s)) required (r_pointer r) (r_line r) (r_column r) (mark_of r) in
    modify (fun s => set_keys (<[s_flow_level s := key]> (s_possible_simple_keys s)) s)
  else mret tt.

(** *** Indentation *)

(** The outer indents still above [column], each popped with a [BlockEnd]. *)
Fixpoint unwind_stack (column indent : Z) (indents : list Z) : nat * Z * list Z :=
  if (column <? indent)%Z then
    match indents with
    | [] => (1, (-1)%Z, [])
    | i :: indents => let '(n, indent, indents) := unwind_stack column i indents in (S n, indent, indents)
    end
  else (0, indent, indents).
Definition unwind_indent (column : Z) : st scanner unit :=
  modify (fun s =>
    if bool_decide (s_flow_level s = 0%Z) then
      let '(n, indent, indents) := unwind_stack column (s_indent s) (s_indents s) in
      set_tokens (s_tokens s ++ replicate n (mk_token TBlockEnd (mark_of (s_reader s)))) (set_indents indent indents s)
    else s).

Definition add_indent (column : Z) : st scanner bool := fun s =>
  if (s_indent s <? column)%Z then Ok (true, set_indents column (s_indent s :: s_indents s) s) else Ok (false, s).

(** *** Fetchers *)

Definition fetch_stream_end : st scanner unit :=
  unwind_indent (-1);;
  remove_possible_simple_key;;
  allow false;;
  modify (set_keys ∅);;
  m ← here;
  push TStreamEnd m;;
  modify (set_done true).

Definition fetch_directive : st scanner unit :=
  unwind_indent (-1);;
  remove_possible_simple_key;;
  allow false;;
  m ← here;
  d ← read scan_directive;
  push (TDirective d) m.

Definition check_document_indicator (s : scanner) (indicator : bytes) : bool :=
  let r := s_reader s in
  bool_decide (r_column r = 0) && bool_decide (take 3 (r_rest r) = ch indicator) && has BLANKZ_TAB (peek_in (r_rest r) 3).

Definition fetch_document_indicator (t : Tok) : st scanner unit :=
  unwind_indent (-1);;
  remove_possible_simple_key;;
  allow false;;
  m ← here;
  read (forward 3);;
  push t m.

(** A token of one character. *)
Definition fetch_char (t : Tok) : st scanner unit := m ← here; read (forward 1);; push t m.

Definition fetch_flow_collection_start (t : Tok) : st scanner unit :=
  save_possible_simple_key;;
  modify (fun s => set_flow_level (s_flow_level s + 1)%Z s);;
  allow true;;
  fetch_char t.

Definition fetch_flow_collection_end (t : Tok) : st scanner unit :=
  remove_possible_simple_key;;
  modify (fun s => set_flow_level (s_flow_level s - 1)%Z s);;
  allow false;;
  fetch_char t.

Definition fetch_flow_entry : st scanner unit :=
  allow true;; remove_possible_simple_key;; fetch_char TFlowEntry.

(** What a block entry, key or value does where no flow collection is open. *)
Definition open_block (problem : bytes) (start : Tok) : st scanner unit :=
  s ← ask id;
  if s_allow_simple_key s then
    added ← add_indent (column_z s);
    when added (m ← here; push start m)
  else m ← here; err [] problem m.

Definition fetch_block_entry : st scanner unit :=
  block ← in_block;
  when block (open_block #"sequence entries are not allowed here" TBlockSequenceStart);;
  allow true;;
  remove_possible_simple_key;;
  fetch_char TBlockEntry.

Definition fetch_key : st scanner unit :=
  block ← in_block;
  when block (open_block #"mapping keys are not allowed here" TBlockMappingStart);;
  allow block;;
  remove_possible_simple_key;;
  fetch_char TKey.

Definition fetch_value : st scanner unit :=
  s ← ask id;
  block ← in_block;
  match s_possible_simple_keys s !! s_flow_level s with
  | Some key =>
      modify (set_keys (delete (s_flow_level s) (s_possible_simple_keys s)));;
      at_ ← usize_sub (k_token_number key) (s_tokens_taken s);
      insert_token at_ (mk_token TKey (k_mark key));;
      added ← (if block : bool then add_indent (Z.of_nat (k_column key)) else mret false);
      when added (insert_token at_ (mk_token TBlockMappingStart (k_mark key)));;
      allow false
  | None =>
      when block (open_block #"mapping values are not allowed here" TBlockMappingStart);;
      allow block;;
      remove_possible_simple_key
  end;;
  fetch_char TValue.

Definition fetch_anchor (alias : bool) : st scanner unit :=
  save_possible_simple_key;;
  allow false;;
  m ← here;
  name ← read (scan_anchor alias);
  push (if alias then TAlias name else TAnchor name) m.

Definition fetch_tag : st scanner unit :=
  save_possible_simple_key;;
  allow false;;
  m ← here;
  tag ← read scan_tag;
  push (TTag (fst tag) (snd tag)) m.

Definition fetch_block_scalar (folded : bool) : st scanner unit :=
  allow true;;
  remove_possible_simple_key;;
  m ← here;
  indent ← ask s_indent;
  value ← read (scan_block_scalar indent folded);
  push (TScalar value false) m.

Definition fetch_flow_scalar (double : bool) : st scanner unit :=
  save_possible_simple_key;;
  allow false;;
  m ← here;
  value ← read (scan_flow_scalar double);
  push (TScalar value false) m.

(** *** Plain scalars *)

Definition check_plain (s : scanner) : bool :=
  let c := peek_in (r_rest (s_reader s)) 0 in
  let d := peek_in (r_rest (s_reader s)) 1 in
  negb (has (BLANKZ_TAB ++ ch #"-?:,[]{}#&*!|>'" ++ [DOUBLE_QUOTE] ++ ch #"%@`") c)
  || negb (has BLANKZ_TAB d) && (is_char "-" c || bool_decide (s_flow_level s = 0%Z) && has (ch #"?:") c).

(** How far a line of the scalar goes: to a blank, a colon that ends a key, or
    in a flow collection one of its indicators. *)
Definition plain_stop (flow : bool) (c after : char) : bool :=
  has BLANKZ_TAB c
  || is_char ":" c && (has BLANKZ_TAB after || flow && has (ch #",[]{}") after)
  || flow && has (ch #",?[]{}") c.
Fixpoint plain_run (flow : bool) (l : list char) : nat :=
  match l with
  | [] => 0
  | c :: rest => if plain_stop flow c (peek_in rest 0) then 0 else S (plain_run flow rest)
  end.

(** The breaks after the first; [None] where a document separator follows. *)
Fixpoint plain_breaks_loop (fuel : nat) (breaks : list char) : st reader (option (list char)) :=
  match fuel with
  | O => stop Spent
  | S fuel =>
      c ← peek 0;
      if is_char " " c then forward 1;; plain_breaks_loop fuel breaks
      else if has BREAK c then
        b ← scan_line_break;
        sep ← is_separator;
        if sep : bool then mret None else plain_breaks_loop fuel (breaks ++ b)
      else mret (Some breaks)
  end.
Definition scan_plain_spaces : st scanner (option (list char)) :=
  n ← read (run (is_char " "));
  whitespaces ← read (word_of n);
  c ← read (peek 0);
  if has BREAK c then
    line_break ← read scan_line_break;
    allow true;;
    sep ← read is_separator;
    if sep : bool then mret None
    else
      breaks ← read (fuel_for (fun fuel => plain_breaks_loop fuel []));
      mret ((fun breaks => (if is_break line_break then (if bool_decide (breaks = []) then ch #" " else []) else line_break) ++ breaks) <$> breaks)
  else mret (Some whitespaces).

Fixpoint plain_loop (fuel : nat) (indent : Z) (chunks spaces : list char) : st scanner (list char) :=
  match fuel with
  | O => stop Spent
  | S fuel =>
      s ← ask id;
      let rest := r_rest (s_reader s) in
      let n := plain_run (negb (bool_decide (s_flow_level s = 0%Z))) rest in
      if is_char "#" (peek_in rest 0) || bool_decide (n = 0) then mret chunks
      else
        allow false;;
        w ← read (word_of n);
        let chunks := chunks ++ spaces ++ w in
        spaces ← scan_plain_spaces;
        match spaces with
        | None => mret chunks
        | Some spaces =>
            s ← ask id;
            if bool_decide (spaces = []) || is_char "#" (peek_in (r_rest (s_reader s)) 0)
               || bool_decide (s_flow_level s = 0%Z) && (column_z s <? indent)%Z
            then mret chunks
            else plain_loop fuel indent chunks spaces
        end
  end.
Definition scan_plain : st scanner bytes :=
  s ← ask id;
  chunks ← plain_loop (S (length (r_rest (s_reader s)))) (s_indent s + 1) [] [];
  mret (utf8_encode chunks).

Definition fetch_plain : st scanner unit :=
  save_possible_simple_key;;
  allow false;;
  m ← here;
  value ← scan_plain;
  push (TScalar value true) m.

(** *** Tokens *)

Fixpoint next_token_loop (fuel : nat) : st scanner unit :=
  match fuel with
  | O => stop Spent
  | S fuel =>
      b ← read (skip (is_char " ");;
                c ← peek 0;
                when (is_char "#" c) (skip (fun c => negb (has BREAKZ c)));;
                scan_line_break);
      if bool_decide (b = []) then mret tt
      else
        block ← in_block;
        when block (allow true);;
        next_token_loop fuel
  end.
Definition scan_to_next_token : st scanner unit :=
  r ← ask s_reader;
  when (bool_decide (r_pointer r = 0) && (peek_in (r_rest r) 0 =? 0xFEFF)%N) (read (forward 1));;
  r ← ask s_reader;
  next_token_loop (S (length (r_rest r))).

(** The token the character at the reader begins. *)
Definition fetch_for (s : scanner) : st scanner unit :=
  let c := peek_in (r_rest (s_reader s)) 0 in
  let stands := has BLANKZ_TAB (peek_in (r_rest (s_reader s)) 1) in
  let flow := negb (bool_decide (s_flow_level s = 0%Z)) in
  if (c =? NUL)%N then fetch_stream_end
  else if is_char "%" c && bool_decide (r_column (s_reader s) = 0) then fetch_directive
  else if is_char "-" c && check_document_indicator s #"---" then fetch_document_indicator TDocumentStart
  else if is_char "." c && check_document_indicator s #"..." then fetch_document_indicator TDocumentEnd
  else if is_char "[" c then fetch_flow_collection_start TFlowSequenceStart
  else if is_char "{" c then fetch_flow_collection_start TFlowMappingStart
  else if is_char "]" c then fetch_flow_collection_end TFlowSequenceEnd
  else if is_char "}" c then fetch_flow_collection_end TFlowMappingEnd
  else if is_char "," c then fetch_flow_entry
  else if is_char "-" c && stands then fetch_block_entry
  else if is_char "?" c && (flow || stands) then fetch_key
  else if is_char ":" c && (flow || stands) then fetch_value
  else if is_char "*" c then fetch_anchor true
  else if is_char "&" c then fetch_anchor false
  else if is_char "!" c then fetch_tag
  else if (is_char "|" c || is_char ">" c) && negb flow then fetch_block_scalar (is_char ">" c)
  else if ((c =? SINGLE_QUOTE) || (c =? DOUBLE_QUOTE))%N then fetch_flow_scalar (c =? DOUBLE_QUOTE)%N
  else if check_plain s then fetch_plain
  else
    m ← here;
    err #"while scanning for the next token" (#"found character " ++ debug_char c ++ #" that cannot start any token") m.

Definition fetch_more_tokens : st scanner unit :=
  scan_to_next_token;;
  stale_possible_simple_keys;;
  s ← ask id;
  unwind_indent (column_z s);;
  s ← ask id;
  fetch_for s.

Definition need_more_tokens : st scanner bool :=
  s ← ask id;
  if s_done s then mret false
  else if bool_decide (s_tokens s = []) then mret true
  else
    stale_possible_simple_keys;;
    s ← ask id;
    mret (bool_decide (next_possible_simple_key s = Some (s_tokens_taken s))).

(** [while self.need_more_tokens()? { self.fetch_more_tokens()? }]: each round
    passes over a character or ends the stream. *)
Fixpoint fill (fuel : nat) : st scanner unit :=
  match fuel with
  | O => stop Spent
  | S fuel =>
      more ← need_more_tokens;
      if more : bool then fetch_more_tokens;; fill fuel else mret tt
  end.
Definition filled : st scanner unit := s ← ask id; fill (S (S (length (r_rest (s_reader s))))).

Definition peek_token : st scanner (option Token) := filled;; ask (fun s => head (s_tokens s)).
Definition get_token : st scanner Token :=
  filled;;
  s ← ask id;
  match s_tokens s with
  | [] => stop (Raised #"no more tokens")
  | t :: tokens => modify (fun s => set_tokens_taken (S (s_tokens_taken s)) (set_tokens tokens s));; mret t
  end.

End Scanner.

(** ** parser.py *)

Inductive State :=
| SStreamStart
| SImplicitDocumentStart
| SDocumentStart
| SDocumentEnd
| SDocumentContent
| SBlockNode
| SBlockSequenceFirstEntry
| SBlockSequenceEntry
| SIndentlessSequenceEntry
| SBlockMappingFirstKey
| SBlockMappingKey
| SBlockMappingValue
| SFlowSequenceFirstEntry
| SFlowSequenceEntry
| SFlowSequenceEntryMappingKey
| SFlowSequenceEntryMappingValue
| SFlowSequenceEntryMappingEnd
| SFlowMappingFirstKey
| SFlowMappingKey
| SFlowMappingValue
| SFlowMappingEmptyValue.

Definition kind_name (t : Tok) : bytes :=
  match t with
  | TStreamStart => #"stream-start"
  | TStreamEnd => #"stream-end"
  | TDirective _ => #"directive"
  | TDocumentStart => #"document-start"
  | TDocumentEnd => #"document-end"
  | TBlockSequenceStart => #"block-sequence-start"
  | TBlockMappingStart => #"block-mapping-start"
  | TBlockEnd => #"block-end"
  | TFlowSequenceStart => #"flow-sequence-start"
  | TFlowMappingStart => #"flow-mapping-start"
  | TFlowSequenceEnd => #"flow-sequence-end"
  | TFlowMappingEnd => #"flow-mapping-end"
  | TKey => #"key"
  | TValue => #"value"
  | TBlockEntry => #"block-entry"
  | TFlowEntry => #"flow-entry"
  | TAlias _ => #"alias"
  | TAnchor _ => #"anchor"
  | TTag _ _ => #"tag"
  | TScalar _ _ => #"scalar"
  end.
Definition is_kind (t : Tok) (kinds : bytes) : bool := mem (kind_name t) (split_on (is_byte " ") kinds).

(** The parser: its scanner, the state to come, the states to return to (the
    last pushed first) and the tag handles in force. *)
Record parser := mk_parser {
  p_scanner : scanner;
  p_state : option State;
  p_states : list State;
  p_tag_handles : gmap bytes bytes
}.
Definition set_scanner (s : scanner) (p : parser) : parser := mk_parser s (p_state p) (p_states p) (p_tag_handles p).
Definition set_state (x : option State) (p : parser) : parser := mk_parser (p_scanner p) x (p_states p) (p_tag_handles p).
Definition set_states (l : list State) (p : parser) : parser := mk_parser (p_scanner p) (p_state p) l (p_tag_handles p).
Definition set_handles (m : gmap bytes bytes) (p : parser) : parser := mk_parser (p_scanner p) (p_state p) (p_states p) m.

Definition DEFAULT_TAGS : list (bytes * bytes) := [( #"!", #"!"); ( #"!!", #"tag:yaml.org,2002:")].
Definition new_parser (text : bytes) : result fault parser :=
  s ← new_scanner text; mret (mk_parser s (Some SStreamStart) [] ∅).

Definition goto (x : State) : st parser unit := modify (set_state (Some x)).
Definition push_state (x : State) : st parser unit := modify (fun p => set_states (x :: p_states p) p).
Definition pop_state : st parser unit := fun p =>
  match p_states p with
  | [] => Err (Raised #"pop from empty list")
  | x :: states => Ok (tt, set_state (Some x) (set_states states p))
  end.
Definition empty_scalar : Event := Scalar None None true [].

Section Parser.
Context `{Debug}.

(** *** [{:?}] of a token *)

Definition debug_option (o : option bytes) : bytes :=
  match o with Some s => #"Some(" ++ debug_str s ++ #")" | None => #"None" end.
Definition debug_bool (b : bool) : bytes := if b then #"true" else #"false".
Definition debug_directive (d : Directive) : bytes :=
  match d with
  | Yaml b => #"Yaml(" ++ debug_bool b ++ #")"
  | TagHandle h p => #"Tag(" ++ debug_str h ++ #", " ++ debug_str p ++ #")"
  | Other => #"Other"
  end.
Definition debug_tok (t : Tok) : bytes :=
  match t with
  | TStreamStart => #"StreamStart"
  | TStreamEnd => #"StreamEnd"
  | TDirective d => #"Directive(" ++ debug_directive d ++ #")"
  | TDocumentStart => #"DocumentStart"
  | TDocumentEnd => #"DocumentEnd"
  | TBlockSequenceStart => #"BlockSequenceStart"
  | TBlockMappingStart => #"BlockMappingStart"
  | TBlockEnd => #"BlockEnd"
  | TFlowSequenceStart => #"FlowSequenceStart"
  | TFlowMappingStart => #"FlowMappingStart"
  | TFlowSequenceEnd => #"FlowSequenceEnd"
  | TFlowMappingEnd => #"FlowMappingEnd"
  | TKey => #"Key"
  | TValue => #"Value"
  | TBlockEntry => #"BlockEntry"
  | TFlowEntry => #"FlowEntry"
  | TAlias name => #"Alias(" ++ debug_str name ++ #")"
  | TAnchor name => #"Anchor(" ++ debug_str name ++ #")"
  | TTag h s => #"Tag(" ++ debug_option h ++ #", " ++ debug_str s ++ #")"
  | TScalar v plain => #"Scalar { value: " ++ debug_str v ++ #", plain: " ++ debug_bool plain ++ #" }"
  end.

(** *** What the next token is *)

Definition scan {A} : st scanner A -> st parser A := zoom p_scanner set_scanner.
Definition check (kinds : bytes) : st parser bool :=
  t ← scan peek_token;
  mret (match t with Some t => is_kind (t_tok t) kinds | None => false end).
Definition take_token : st parser Token := scan get_token.
Definition peek_mark : st parser Mark := t ← scan peek_token; mret (default no_mark (t_mark <$> t)).
Definition peek_kind : st parser bytes := t ← scan peek_token; mret (default [] (debug_tok ∘ t_tok <$> t)).
(** An error that names the token found. *)
Definition unexpected {A} (context expected : bytes) : st parser A :=
  kind ← peek_kind; m ← peek_mark; err context (expected ++ kind) m.

(** *** Directives *)

(** Fuel for a loop each round of which takes a token: more than the tokens
    the scanner has and those it can still make. *)
Definition tokens_left (s : scanner) : nat :=
  4 * length (r_rest (s_reader s)) + length (s_indents s) + length (s_tokens s) + (if s_done s then 0 else 1).
Definition token_fuel : st parser nat := ask (fun p => S (tokens_left (p_scanner p))).

Definition handle_directive (t : Token) (version : bool) : st parser bool :=
  match t_tok t with
  | TDirective (Yaml major_is_one) =>
      if version then err [] #"found duplicate YAML directive" (t_mark t)
      else if negb major_is_one then err [] #"found incompatible YAML document (version 1.* is required)" (t_mark t)
      else mret true
  | TDirective (TagHandle handle tag_prefix) =>
      handles ← ask p_tag_handles;
      if bool_decide (is_Some (handles !! handle)) then err [] (#"duplicate tag handle " ++ debug_str handle) (t_mark t)
      else modify (set_handles (<[handle := tag_prefix]> handles));; mret version
  | _ => mret version
  end.
Fixpoint directives_loop (fuel : nat) (version : bool) : st parser unit :=
  match fuel with
  | O => stop Spent
  | S fuel =>
      more ← check #"directive";
      if more : bool then
        t ← take_token;
        version ← handle_directive t version;
        directives_loop fuel version
      else mret tt
  end.
Definition add_default (handles : gmap bytes bytes) (kv : bytes * bytes) : gmap bytes bytes :=
  if bool_decide (is_Some (handles !! fst kv)) then handles else <[fst kv := snd kv]> handles.
Definition process_directives : st parser unit :=
  modify (set_handles ∅);;
  fuel ← token_fuel;
  directives_loop fuel false;;
  modify (fun p => set_handles (foldl add_default (p_tag_handles p) DEFAULT_TAGS) p).

(** *** Nodes *)

Definition take_anchor : st parser (option bytes) :=
  t ← take_token; mret (match t_tok t with TAnchor a => Some a | _ => None end).
Definition take_tag : st parser (option (option bytes * bytes)) :=
  t ← take_token; mret (match t_tok t with TTag h s => Some (h, s) | _ => None end).

(** The anchor and the tag before a node, in either order, and where the first
    stands. *)
Definition properties : st parser (option bytes * option (option bytes * bytes) * option Mark) :=
  anchored ← check #"anchor";
  if anchored : bool then
    m ← peek_mark;
    anchor ← take_anchor;
    tagged ← check #"tag";
    tag ← (if tagged : bool then take_tag else mret None);
    mret (anchor, tag, Some m)
  else
    tagged ← check #"tag";
    if tagged : bool then
      m ← peek_mark;
      tag ← take_tag;
      anchored ← check #"anchor";
      anchor ← (if anchored : bool then take_anchor else mret None);
      mret (anchor, tag, Some m)
    else mret (None, None, None).

Definition resolve_tag (tag : option (option bytes * bytes)) (start : option Mark) : st parser (option bytes) :=
  match tag with
  | Some (Some handle, suffix) =>
      handles ← ask p_tag_handles;
      match handles !! handle with
      | Some tag_prefix => mret (Some (tag_prefix ++ suffix))
      | None => err #"while parsing a node" (#"found undefined tag handle " ++ debug_str handle) (default no_mark start)
      end
  | Some (None, suffix) => mret (Some suffix)
  | None => mret None
  end.
Definition non_specific (tag : option bytes) : bool := bool_decide (tag = Some #"!").

(** What a node's first token begins, the properties being read. *)
Definition parse_content (block indentless_sequence : bool) (anchor tag : option bytes) : st parser Event :=
  entry ← (if indentless_sequence then check #"block-entry" else mret false);
  if entry : bool then goto SIndentlessSequenceEntry;; mret (SequenceStart anchor tag) else
  scalar ← check #"scalar";
  if scalar : bool then
    t ← take_token;
    match t_tok t with
    | TScalar value plain =>
        pop_state;; mret (Scalar anchor tag (plain && bool_decide (tag = None) || non_specific tag) value)
    | _ => stop Panicked
    end else
  flow_seq ← check #"flow-sequence-start";
  if flow_seq : bool then goto SFlowSequenceFirstEntry;; mret (SequenceStart anchor tag) else
  flow_map ← check #"flow-mapping-start";
  if flow_map : bool then goto SFlowMappingFirstKey;; mret (MappingStart anchor tag) else
  block_seq ← (if block then check #"block-sequence-start" else mret false);
  if block_seq : bool then goto SBlockSequenceFirstEntry;; mret (SequenceStart anchor tag) else
  block_map ← (if block then check #"block-mapping-start" else mret false);
  if block_map : bool then goto SBlockMappingFirstKey;; mret (MappingStart anchor tag) else
  if bool_decide (is_Some anchor) || bool_decide (is_Some tag) then
    pop_state;; mret (Scalar anchor tag (bool_decide (tag = None) || non_specific tag) [])
  else
    unexpected (#"while parsing a " ++ (if block then #"block" else #"flow") ++ #" node") #"expected the node content, but found ".

Definition parse_node (block indentless_sequence : bool) : st parser Event :=
  alias ← check #"alias";
  if alias : bool then
    t ← take_token;
    match t_tok t with
    | TAlias anchor => pop_state;; mret (Alias anchor)
    | _ => stop Panicked
    end
  else
    props ← properties;
    let '(anchor, tag, start) := props in
    tag ← resolve_tag tag start;
    parse_content block indentless_sequence anchor tag.

(** [Ok(empty_scalar())], on to [next]. *)
Definition nothing (next : State) : st parser Event := goto next;; mret empty_scalar.
(** A node, with [next] to return to; where one of [ends] comes instead there
    is none, and the parser goes on at [otherwise]. *)
Definition node_or (ends : bytes) (next otherwise : State) (block indentless_sequence : bool) : st parser Event :=
  ended ← check ends;
  if ended : bool then nothing otherwise else push_state next;; parse_node block indentless_sequence.
(** The token that ends a collection, and its event. *)
Definition end_collection (ev : Event) : st parser Event := take_token;; pop_state;; mret ev.
(** [,] between the entries of a flow collection. *)
Definition separator (first : bool) (context expected : bytes) : st parser unit :=
  if first then mret tt
  else
    comma ← check #"flow-entry";
    if comma : bool then take_token;; mret tt else unexpected context expected.

Definition flow_sequence_entry (first : bool) : st parser Event :=
  over ← check #"flow-sequence-end";
  if over : bool then end_collection SequenceEnd
  else
    separator first #"while parsing a flow sequence" #"expected ',' or ']', but got ";;
    key ← check #"key";
    if key : bool then goto SFlowSequenceEntryMappingKey;; mret (MappingStart None None)
    else
      over ← check #"flow-sequence-end";
      if over : bool then end_collection SequenceEnd
      else push_state SFlowSequenceEntry;; parse_node false false.

Definition flow_mapping_key (first : bool) : st parser Event :=
  over ← check #"flow-mapping-end";
  if over : bool then end_collection MappingEnd
  else
    separator first #"while parsing a flow mapping" #"expected ',' or '}', but got ";;
    key ← check #"key";
    if key : bool then
      take_token;; node_or #"value flow-entry flow-mapping-end" SFlowMappingValue SFlowMappingValue false false
    else
      over ← check #"flow-mapping-end";
      if over : bool then end_collection MappingEnd
      else push_state SFlowMappingEmptyValue;; parse_node false false.

(** *** States *)

Fixpoint document_ends (fuel : nat) : st parser unit :=
  match fuel with
  | O => stop Spent
  | S fuel =>
      more ← check #"document-end";
      if more : bool then take_token;; document_ends fuel else mret tt
  end.
Definition document_start : st parser Event :=
  fuel ← token_fuel;
  document_ends fuel;;
  over ← check #"stream-end";
  if over : bool then take_token;; modify (set_state None);; mret StreamEnd
  else
    process_directives;;
    start ← check #"document-start";
    if start : bool then take_token;; push_state SDocumentEnd;; goto SDocumentContent;; mret DocumentStart
    else unexpected [] #"expected '<document start>', but found ".

Definition block_sequence_entry : st parser Event :=
  entry ← check #"block-entry";
  if entry : bool then
    take_token;; node_or #"block-entry block-end" SBlockSequenceEntry SBlockSequenceEntry true false
  else
    over ← check #"block-end";
    if over : bool then end_collection SequenceEnd
    else unexpected #"while parsing a block collection" #"expected <block end>, but found ".

Definition block_mapping_key : st parser Event :=
  key ← check #"key";
  if key : bool then
    take_token;; node_or #"key value block-end" SBlockMappingValue SBlockMappingValue true true
  else
    over ← check #"block-end";
    if over : bool then end_collection MappingEnd
    else unexpected #"while parsing a block mapping" #"expected <block end>, but found ".

(** The value of a pair, where there is one. *)
Definition value_or (ends : bytes) (next : State) (block indentless_sequence : bool) : st parser Event :=
  value ← check #"value";
  if value : bool then take_token;; node_or ends next next block indentless_sequence else nothing next.

Definition step (state : State) : st parser Event :=
  match state with
  | SStreamStart => take_token;; goto SImplicitDocumentStart;; mret StreamStart
  | SImplicitDocumentStart =>
      explicit ← check #"directive document-start stream-end";
      if explicit : bool then document_start
      else
        modify (set_handles (list_to_map DEFAULT_TAGS));;
        push_state SDocumentEnd;;
        goto SBlockNode;;
        mret DocumentStart
  | SDocumentStart => document_start
  | SDocumentEnd =>
      explicit ← check #"document-end";
      (if explicit : bool then take_token;; mret tt else mret tt);;
      goto SDocumentStart;;
      mret DocumentEnd
  | SDocumentContent =>
      empty ← check #"directive document-start document-end stream-end";
      if empty : bool then pop_state;; mret empty_scalar else parse_node true false
  | SBlockNode => parse_node true false
  | SBlockSequenceFirstEntry => take_token;; block_sequence_entry
  | SBlockSequenceEntry => block_sequence_entry
  | SIndentlessSequenceEntry =>
      entry ← check #"block-entry";
      if entry : bool then
        take_token;;
        node_or #"block-entry key value block-end" SIndentlessSequenceEntry SIndentlessSequenceEntry true false
      else pop_state;; mret SequenceEnd
  | SBlockMappingFirstKey => take_token;; block_mapping_key
  | SBlockMappingKey => block_mapping_key
  | SBlockMappingValue => value_or #"key value block-end" SBlockMappingKey true true
  | SFlowSequenceFirstEntry => take_token;; flow_sequence_entry true
  | SFlowSequenceEntry => flow_sequence_entry false
  | SFlowSequenceEntryMappingKey =>
      take_token;;
      node_or #"value flow-entry flow-sequence-end" SFlowSequenceEntryMappingValue SFlowSequenceEntryMappingValue false false
  | SFlowSequenceEntryMappingValue => value_or #"flow-entry flow-sequence-end" SFlowSequenceEntryMappingEnd false false
  | SFlowSequenceEntryMappingEnd => goto SFlowSequenceEntry;; mret MappingEnd
  | SFlowMappingFirstKey => take_token;; flow_mapping_key true
  | SFlowMappingKey => flow_mapping_key false
  | SFlowMappingValue => value_or #"flow-entry flow-mapping-end" SFlowMappingKey false false
  | SFlowMappingEmptyValue => nothing SFlowMappingKey
  end.

(** [Iterator::next]: [None] once there is no state. An error leaves none. *)
Definition next_event (p : parser) : option (result fault (Event * parser)) :=
  state ← p_state p; Some (step state (set_state None p)).

End Parser.

(** Fuel for the events of a text; enough by [parser_returns]. *)
Definition events_fuel (text : bytes) : nat := 32 * length (chars text) + 60.
