(* ===== verification/PyyamlLaws.v ===== *)
(** [src/pyyaml.rs]: the laws of the reader and the scanner. No input makes
    them panic or loop, and each token fetched costs the text a character. *)

From S2P Require Import Prelude Slices Order Num Utf8 Pyyaml.

(** ** What a program ends in *)

(** [m] neither panics nor spends its fuel, and where it returns, [Q] holds. *)
Definition wp {S A} (m : st S A) (Q : A -> S -> Prop) (s : S) : Prop :=
  match m s with
  | Ok (a, s') => Q a s'
  | Err (Raised _) => True
  | Err _ => False
  end.

Section rules.
Context {S : Type}.

Lemma wp_ret {A} (a : A) (Q : A -> S -> Prop) s : Q a s -> wp (mret a) Q s.
Proof. done. Qed.
Lemma wp_bind {A B} (m : st S A) (f : A -> st S B) Q s : wp m (fun a s' => wp (f a) Q s') s -> wp (m ≫= f) Q s.
Proof. unfold wp, mbind, st_bind. destruct (m s) as [[a s']|[]]; done. Qed.
Lemma wp_mono {A} (m : st S A) (P Q : A -> S -> Prop) s : wp m P s -> (forall a s', P a s' -> Q a s') -> wp m Q s.
Proof. unfold wp. destruct (m s) as [[a s']|[]]; naive_solver. Qed.
Lemma wp_and {A} (m : st S A) (P Q : A -> S -> Prop) s : wp m P s -> wp m Q s -> wp m (fun a s' => P a s' /\ Q a s') s.
Proof. unfold wp. destruct (m s) as [[a s']|[]]; naive_solver. Qed.
Lemma wp_ask {A} (f : S -> A) Q s : Q (f s) s -> wp (ask f) Q s.
Proof. done. Qed.
Lemma wp_modify f (Q : unit -> S -> Prop) s : Q tt (f s) -> wp (modify f) Q s.
Proof. done. Qed.
Lemma wp_raised {A} w (Q : A -> S -> Prop) s : wp (stop (Raised w)) Q s.
Proof. done. Qed.
Lemma wp_err {A} c p m (Q : A -> S -> Prop) s : wp (err c p m) Q s.
Proof. done. Qed.
Lemma wp_when b m (Q : unit -> S -> Prop) s : (b = true -> wp m Q s) -> (b = false -> Q tt s) -> wp (when b m) Q s.
Proof. destruct b; naive_solver. Qed.
Lemma wp_zoom {T A} (get : T -> S) set (m : st S A) (Q : A -> T -> Prop) t :
  wp m (fun a s' => Q a (set s' t)) (get t) -> wp (zoom get set m) Q t.
Proof. unfold wp, zoom. by destruct (m (get t)) as [[a s']|[]]. Qed.
Lemma wp_usize_sub a b (Q : nat -> S -> Prop) s : b <= a -> Q (a - b) s -> wp (usize_sub a b) Q s.
Proof. intros Hb. unfold usize_sub. by rewrite (proj2 (Nat.leb_le b a) Hb). Qed.
End rules.

(** ** The reader *)

Definition len (r : reader) : nat := length (r_rest r).

(** [r'] is [r] after [n] characters. *)
Record moved (n : nat) (r r' : reader) : Prop := mk_moved {
  mv_rest : r_rest r' = drop n (r_rest r);
  mv_pointer : r_pointer r' = r_pointer r + Nat.min n (len r)
}.
(** [r'] is [r] or further on. *)
Definition ahead (r r' : reader) : Prop := len r' <= len r /\ r_pointer r' + len r' = r_pointer r + len r.

#[export] Instance ahead_preorder : PreOrder ahead.
Proof. split; [done|]. intros r1 r2 r3 [? ?] [? ?]. split; lia. Qed.

Lemma moved_ahead n r r' : moved n r r' -> ahead r r' /\ len r' = len r - n.
Proof. intros [H1 H2]. unfold ahead, len in *. rewrite H1, length_drop. split; [split; lia|done]. Qed.

Lemma forwarded_moved n r : moved n r (forwarded n r).
Proof.
  induction n as [|n [H1 H2]]; [by split; [|unfold forwarded, len; cbn; lia]|].
  unfold forwarded in *. rewrite Nat.iter_succ. set (q := Nat.iter n forward1 r) in *. clearbody q.
  assert (H : r_rest (forward1 q) = drop 1 (r_rest q) /\ r_pointer (forward1 q) = r_pointer q + Nat.min 1 (len q)).
  { unfold forward1, len. destruct (r_rest q) as [|c rest] eqn:E; [by rewrite E; split; [|cbn; lia]|].
    case_match; (split; [done|cbn; lia]). }
  destruct H as [H3 H4]. split; [by rewrite H3, H1, drop_drop, Nat.add_1_r|].
  rewrite H4, H2. unfold len. rewrite H1, length_drop. lia.
Qed.

Lemma wp_forward n (Q : unit -> reader -> Prop) r : (forall r', moved n r r' -> Q tt r') -> wp (forward n) Q r.
Proof. intros H. apply H, forwarded_moved. Qed.

Lemma peek_in_some (l : list char) i : peek_in l i <> NUL -> i < length l.
Proof. intros H. apply lookup_lt_is_Some. unfold peek_in in H. destruct (l !! i); [by eexists|done]. Qed.

Lemma has_true l c : has l c = true <-> c ∈ l.
Proof. apply bool_decide_eq_true. Qed.
Lemma take_while_pos (f : char -> bool) l : f (peek_in l 0) = true -> l <> [] -> 0 < length (take_while f l).
Proof. destruct l as [|c l]; [done|]. cbn. intros -> _. cbn. lia. Qed.

(** A character that is not NUL is one still to read. *)
Lemma char_left (P : char -> bool) r i : P (peek_in (r_rest r) i) = true -> P NUL = false -> i < len r.
Proof. intros H H0. apply peek_in_some. intros E. by rewrite E, H0 in H. Qed.
Lemma run_pos (f : char -> bool) r : f (peek_in (r_rest r) 0) = true -> 0 < len r -> 0 < length (take_while f (r_rest r)).
Proof. intros H Hl. apply take_while_pos; [done|]. intros E. unfold len in Hl. rewrite E in Hl. cbn in Hl. lia. Qed.

(** *** Programs that only read on *)

Definition safe {A} (m : st reader A) : Prop := forall r, wp m (fun _ r' => ahead r r') r.

Create HintDb reads.
Lemma safe_wp {A} (m : st reader A) (Q : A -> reader -> Prop) r :
  safe m -> (forall a r', ahead r r' -> Q a r') -> wp m Q r.
Proof. intros H HQ. eapply wp_mono; [apply H|done]. Qed.

Lemma wp_line_break (Q : list char -> reader -> Prop) r :
  (forall b r', ahead r r' -> (b <> [] -> len r' < len r) -> (has BREAK (peek_in (r_rest r) 0) = true -> b <> []) -> Q b r') ->
  wp scan_line_break Q r.
Proof.
  intros HQ. unfold scan_line_break. apply wp_bind, wp_ask.
  assert (Hl : forall l : list char, NUL ∉ l -> has l (peek_in (r_rest r) 0) = true -> 0 < len r).
  { intros l Hl E. apply (char_left (has l) r 0 E). by apply bool_decide_eq_false. }
  destruct (has [0x0D; 0x0A; 0x85]%N _) eqn:E1; [|destruct (has [0x2028; 0x2029]%N _) eqn:E2].
  - apply Hl in E1; [|set_solver]. apply wp_bind, wp_ask, wp_bind, wp_forward. intros r' [Ha He]%moved_ahead.
    apply wp_ret, HQ; [done| |done]. case_bool_decide; lia.
  - apply Hl in E2; [|set_solver]. apply wp_bind, wp_forward. intros r' [Ha He]%moved_ahead. apply wp_ret, HQ; [done| |done]. lia.
  - apply wp_ret, HQ; [done..|]. intros H. exfalso. unfold has, mem, BREAK in *. rewrite bool_decide_eq_true in H.
    rewrite !bool_decide_eq_false in *. set_solver.
Qed.
Lemma wp_fuel_for {A} (loop : nat -> st reader A) Q r : wp (loop (S (len r))) Q r -> wp (fuel_for loop) Q r.
Proof. done. Qed.

Ltac arith := unfold ahead, len in *; lia.
(** One step of a program read from its front: the rule its head calls for, the
    [safe] lemma of a named operation otherwise. *)
Ltac forward_step lem :=
  let r' := fresh "r" in let H := fresh "M" in let K := fresh "K" in
  apply lem; intros r' H; pose proof (moved_ahead _ _ _ H) as [? K].
Ltac step1 :=
  match goal with
  | |- wp (mbind _ _) _ _ => apply wp_bind
  | |- wp (mret _) _ _ => apply wp_ret
  | |- wp (ask _) _ _ => apply wp_ask
  | |- wp (peek _) _ _ => apply wp_ask
  | |- wp (prefix _) _ _ => apply wp_ask
  | |- wp (run _) _ _ => apply wp_ask
  | |- wp mark _ _ => apply wp_ask
  | |- wp (not_hex _) _ _ => apply wp_ask
  | |- wp (err _ _ _) _ _ => exact I
  | |- wp (found _ _ _ _) _ _ => exact I
  | |- wp (stop (Raised _)) _ _ => exact I
  | |- wp (found_here _ _) _ _ => exact I
  | |- wp (found_from _ _ _) _ _ => exact I
  | |- wp (zero_indicator _) _ _ => exact I
  | |- wp (word_of _) _ _ => unfold word_of
  | |- wp (skip _) _ _ => unfold skip
  | |- wp (when ?b _) _ _ => apply wp_when; intros ?
  | |- wp (forward _) _ _ => forward_step wp_forward
  | |- wp scan_line_break _ _ =>
      let b := fresh "b" in let r' := fresh "r" in let M := fresh "M" in
      apply wp_line_break; intros b r' M ? ?
  | |- wp (if ?b then _ else _) _ _ => let E := fresh "E" in destruct b eqn:E
  | |- wp (match ?x with _ => _ end) _ _ => let E := fresh "E" in destruct x eqn:E
  | |- wp _ _ _ => eapply safe_wp; [solve [auto with reads]|let a := fresh "a" in let r' := fresh "r" in let H := fresh "M" in intros a r' H]
  end.
Ltac steps := repeat (step1; cbv beta zeta).
Ltac solve_safe := intros ?; steps; try arith.
(** The step of a loop: its body, and the rounds left by [IH]. *)
Ltac loop_step IH := cbv beta iota zeta; steps; try (eapply wp_mono; [apply IH|intros]); try arith.
Ltac char_here E :=
  match type of E with
  | ?P (peek_in (r_rest ?r) ?i) = true => assert (i < len r) by (by apply (char_left P r i))
  | context [has ?l (peek_in (r_rest ?r) ?i)] => assert (i < len r) by (by apply (char_left (has l) r i))
  end.

Section Reads.
Context `{Debug}.

Lemma safe_ignored_line c : safe (scan_ignored_line c).
Proof. unfold scan_ignored_line. solve_safe. Qed.
Lemma safe_directive_name m : safe (scan_directive_name m).
Proof. unfold scan_directive_name. solve_safe. Qed.
Lemma safe_directive_number m : safe (scan_yaml_directive_number m).
Proof. unfold scan_yaml_directive_number. solve_safe. Qed.
Hint Resolve safe_ignored_line safe_directive_name safe_directive_number : reads.
Lemma safe_directive_value m : safe (scan_yaml_directive_value m).
Proof. unfold scan_yaml_directive_value. solve_safe. Qed.
Lemma safe_tag_handle n m : safe (scan_tag_handle n m).
Proof. unfold scan_tag_handle. solve_safe. Qed.
Hint Resolve safe_directive_value safe_tag_handle : reads.

Lemma uri_escapes_loop_safe fuel name codes r :
  len r < fuel -> wp (uri_escapes_loop fuel name codes) (fun _ r' => ahead r r' /\ (is_char "%" (peek_in (r_rest r) 0) = true -> len r' < len r)) r.
Proof.
  revert codes r. induction fuel as [|fuel IH]; intros codes r Hf; [lia|].
  cbn [uri_escapes_loop]. do 3 step1; [char_here E|]; loop_step IH; naive_solver arith.
Qed.
Lemma safe_uri_escapes n m : safe (scan_uri_escapes n m).
Proof.
  intros r. unfold scan_uri_escapes. apply wp_bind, wp_fuel_for.
  eapply wp_mono; [apply uri_escapes_loop_safe; lia|]. intros codes r' [? _]. cbv beta. steps; done.
Qed.
Lemma uri_escapes_past n m r : is_char "%" (peek_in (r_rest r) 0) = true ->
  wp (scan_uri_escapes n m) (fun _ r' => ahead r r' /\ len r' < len r) r.
Proof.
  intros E. unfold scan_uri_escapes. apply wp_bind, wp_fuel_for.
  eapply wp_mono; [apply uri_escapes_loop_safe; lia|]. intros codes r' [? H']. cbv beta. specialize (H' E). steps; done.
Qed.

Lemma tag_uri_loop_safe fuel name m chunks r :
  len r < fuel -> wp (tag_uri_loop fuel name m chunks) (fun _ r' => ahead r r') r.
Proof.
  revert chunks r. induction fuel as [|fuel IH]; intros chunks r Hf; [lia|].
  cbn [tag_uri_loop]. steps; [|arith].
  eapply wp_mono; [by apply uri_escapes_past|]. intros ? r1 [? ?]. cbv beta. loop_step IH.
Qed.
Lemma safe_tag_uri n m : safe (scan_tag_uri n m).
Proof.
  intros r. unfold scan_tag_uri. apply wp_bind, wp_fuel_for.
  eapply wp_mono; [apply tag_uri_loop_safe; lia|]. intros chunks r' ?. cbv beta. steps; arith.
Qed.
Hint Resolve safe_uri_escapes safe_tag_uri : reads.
Lemma safe_tag_directive m : safe (scan_tag_directive_value m).
Proof. unfold scan_tag_directive_value. solve_safe. Qed.
Hint Resolve safe_tag_directive : reads.

(** Operations that begin with a character of their own pass it over. *)
Definition past {A} (m : st reader A) : Prop := forall r, 0 < len r -> wp m (fun _ r' => ahead r r' /\ len r' < len r) r.

Lemma past_directive : past scan_directive.
Proof. intros r Hr. unfold scan_directive. steps; arith. Qed.
Lemma past_anchor b : past (scan_anchor b).
Proof. intros r Hr. unfold scan_anchor. steps; arith. Qed.
Lemma tag_handle_past n m r : wp (scan_tag_handle n m) (fun _ r' => ahead r r' /\ len r' < len r) r.
Proof.
  unfold scan_tag_handle. cbv zeta. do 3 step1; [char_here E|exact I].
  steps; arith.
Qed.
Lemma past_tag : past scan_tag.
Proof.
  intros r Hr. unfold scan_tag. do 4 step1; cbv beta. step1; cbv beta.
  step1; [steps; arith|]. step1; [steps; arith|]. do 4 step1; cbv beta.
  - eapply wp_mono; [apply tag_handle_past|]. intros ? r1 [? ?]. cbv beta. steps; arith.
  - steps; arith.
Qed.

(** *** Block scalars *)

Lemma safe_indicators m : safe (scan_block_scalar_indicators m).
Proof. unfold scan_block_scalar_indicators. solve_safe. Qed.

Lemma break_not_nul : has BREAK NUL = false.
Proof. done. Qed.
Lemma blank_not_nul : is_char " " NUL = false.
Proof. done. Qed.

Lemma indentation_loop_safe fuel chunks n r :
  len r < fuel -> wp (indentation_loop fuel chunks n) (fun _ r' => ahead r r') r.
Proof.
  revert chunks n r. induction fuel as [|fuel IH]; intros chunks n r Hf; [lia|].
  cbn [indentation_loop]. do 3 step1; [char_here E|]; loop_step IH. naive_solver arith.
Qed.
Lemma safe_indentation : safe scan_block_scalar_indentation.
Proof. intros r. apply wp_fuel_for, indentation_loop_safe. lia. Qed.

Lemma safe_skip_to n : safe (skip_to n).
Proof. unfold skip_to. solve_safe. Qed.
Hint Resolve safe_indicators safe_indentation safe_skip_to : reads.
Lemma breaks_loop_safe fuel indent chunks r :
  len r < fuel -> wp (breaks_loop fuel indent chunks) (fun _ r' => ahead r r') r.
Proof.
  revert chunks r. induction fuel as [|fuel IH]; intros chunks r Hf; [lia|].
  cbn [breaks_loop]. loop_step IH. naive_solver arith.
Qed.
Lemma safe_breaks n : safe (scan_block_scalar_breaks n).
Proof.
  intros r. unfold scan_block_scalar_breaks. steps. apply wp_fuel_for.
  eapply wp_mono; [apply breaks_loop_safe; lia|]. intros; arith.
Qed.
Lemma safe_at_line n : safe (at_line n).
Proof. unfold at_line. solve_safe. Qed.
Hint Resolve safe_breaks safe_at_line : reads.

(** A line that is not at the end of the buffer has a character or a break. *)
Lemma line_past r : peek_in (r_rest r) 0 <> NUL ->
  0 < length (take_while (fun c => negb (has BREAKZ c)) (r_rest r)) \/ has BREAK (peek_in (r_rest r) 0) = true.
Proof.
  intros Hn. destruct (has BREAK _) eqn:E; [by right|]. left. apply run_pos; [|by apply peek_in_some].
  unfold has, mem, BREAKZ in *. apply bool_decide_eq_false in E. rewrite bool_decide_false; [done|]. set_solver.
Qed.
Lemma wp_at_line n (Q : bool -> reader -> Prop) r :
  (forall b, (b = true -> peek_in (r_rest r) 0 <> NUL) -> Q b r) -> wp (at_line n) Q r.
Proof.
  intros HQ. unfold at_line. do 4 step1. apply HQ. cbv beta. intros [_ E%negb_true_iff]%andb_true_iff.
  by apply N.eqb_neq in E.
Qed.
Lemma block_scalar_loop_safe fuel folded indent chunks breaks line r :
  len r < fuel -> wp (block_scalar_loop fuel folded indent chunks breaks line) (fun _ r' => ahead r r') r.
Proof.
  revert chunks breaks line r. induction fuel as [|fuel IH]; intros chunks breaks line r Hf; [lia|].
  cbn [block_scalar_loop]. apply wp_bind, wp_at_line. intros [|] Hn; [|by apply wp_ret]. specialize (Hn eq_refl).
  pose proof (line_past r Hn) as Hp. apply peek_in_some in Hn. loop_step IH.
  destruct (decide (len r0 < len r)); [arith|]. destruct Hp as [?|Hb]; [arith|].
  destruct M as [Mr _]. replace (length _) with 0 in Mr by arith. rewrite drop_0 in Mr. rewrite Mr in *. naive_solver arith.
Qed.
Lemma past_block_scalar i b : past (scan_block_scalar i b).
Proof.
  intros r Hr. unfold scan_block_scalar. steps; apply wp_fuel_for;
    (eapply wp_mono; [apply block_scalar_loop_safe; lia|]); intros [[chunks breaks] line] r' M'; cbv beta iota; steps; arith.
Qed.

(** *** Quoted scalars *)

Lemma safe_is_separator : safe is_separator.
Proof. unfold is_separator. solve_safe. Qed.
Hint Resolve safe_is_separator : reads.
Lemma flow_breaks_loop_safe fuel chunks r :
  len r < fuel -> wp (flow_breaks_loop fuel chunks) (fun _ r' => ahead r r') r.
Proof.
  revert chunks r. induction fuel as [|fuel IH]; intros chunks r Hf; [lia|].
  cbn [flow_breaks_loop]. loop_step IH. naive_solver arith.
Qed.
Lemma safe_flow_breaks : safe scan_flow_scalar_breaks.
Proof. intros r. apply wp_fuel_for, flow_breaks_loop_safe. lia. Qed.
Hint Resolve safe_flow_breaks : reads.

Lemma quoted_stop_true c : has QUOTED_STOP c = true ->
  c = SINGLE_QUOTE \/ c = DOUBLE_QUOTE \/ c = BACKSLASH \/ c = NUL \/ is_blank_tab c = true \/ has BREAK c = true.
Proof. unfold QUOTED_STOP, is_blank_tab, has, mem. rewrite !bool_decide_eq_true. set_solver. Qed.
Definition space_like (c : char) : Prop := c = NUL \/ is_blank_tab c = true \/ has BREAK c = true.
Lemma flow_spaces_past r : space_like (peek_in (r_rest r) 0) ->
  wp scan_flow_scalar_spaces (fun _ r' => ahead r r' /\ len r' < len r) r.
Proof.
  intros Hc. unfold scan_flow_scalar_spaces, word_of.
  apply wp_bind, wp_ask, wp_bind, wp_bind, wp_ask, wp_bind. forward_step wp_forward. apply wp_ret, wp_bind, wp_ask.
  assert (Hl : len r0 < len r \/ peek_in (r_rest r0) 0 = NUL \/ has BREAK (peek_in (r_rest r0) 0) = true).
  { destruct M as [Mr _]. destruct (length (take_while _ _)) as [|n] eqn:En.
    - rewrite drop_0 in Mr. rewrite Mr. destruct Hc as [|[Hb|]]; [by right; left| |by right; right].
      pose proof (char_left is_blank_tab r 0 Hb ltac:(done)) as Hl. pose proof (run_pos _ _ Hb Hl). lia.
    - left. destruct (decide (0 < len r)) as [|Hz]; [lia|]. assert (r_rest r = []) as E by (apply nil_length_inv; arith).
      by rewrite E in En. }
  cbv beta. step1; [exact I|]. apply N.eqb_neq in E. step1.
  - steps; naive_solver arith.
  - step1. naive_solver arith.
Qed.

Lemma safe_escape m : safe (scan_escape m).
Proof. unfold scan_escape. solve_safe. Qed.
Lemma after_run f l : f NUL = false -> f (peek_in (drop (length (take_while f l)) l) 0) = false.
Proof. intros H0. induction l as [|c l IH]; [done|]. cbn. destruct (f c) eqn:E; [apply IH|exact E]. Qed.

(** Where the run of a quoted scalar ends. *)
Definition quote_of (double : bool) : char := if double then DOUBLE_QUOTE else SINGLE_QUOTE.
Definition unquoted_end (double : bool) (r : reader) : Prop :=
  peek_in (r_rest r) 0 = quote_of double \/ space_like (peek_in (r_rest r) 0).

Lemma non_spaces_end double c d :
  has QUOTED_STOP c = true ->
  negb double && (c =? SINGLE_QUOTE)%N && (d =? SINGLE_QUOTE)%N = false ->
  (double && (c =? SINGLE_QUOTE) || negb double && ((c =? DOUBLE_QUOTE) || (c =? BACKSLASH)))%N = false ->
  double && (c =? BACKSLASH)%N = false -> c = quote_of double \/ space_like c.
Proof.
  intros [->|[->|[->|[->|Hb]]]]%quoted_stop_true; destruct double; cbn; intros H1 H2 H3; try done;
    solve [by left|right; by left|right; by right].
Qed.

Hint Resolve safe_escape : reads.
Lemma past_escape m : past (scan_escape m).
Proof.
  intros r Hr. unfold scan_escape. step1. forward_step wp_forward. do 3 step1; cbv beta; steps; try arith.
Qed.

Lemma non_spaces_loop_safe fuel double m chunks r :
  len r < fuel -> wp (non_spaces_loop fuel double m chunks) (fun _ r' => ahead r r' /\ unquoted_end double r') r.
Proof.
  revert chunks r. induction fuel as [|fuel IH]; intros chunks r Hf; [lia|].
  cbn [non_spaces_loop]. unfold word_of.
  apply wp_bind, wp_ask, wp_bind, wp_bind, wp_ask, wp_bind. forward_step wp_forward. apply wp_ret. cbv zeta.
  apply wp_bind, wp_ask, wp_bind, wp_ask. cbv beta.
  assert (Hs : has QUOTED_STOP (peek_in (r_rest r0) 0) = true).
  { rewrite (mv_rest _ _ _ M). apply negb_false_iff.
    by apply (after_run (fun c => negb (has QUOTED_STOP c)) (r_rest r)). }
  assert (Hl : forall c, (peek_in (r_rest r0) 0 =? c)%N = true -> c <> NUL -> 0 < len r0).
  { intros c Ec%N.eqb_eq Hc. apply peek_in_some. by rewrite Ec. }
  step1; [|step1; [|step1]].
  - apply andb_true_iff in E as [[_ E]%andb_true_iff _]. specialize (Hl _ E ltac:(done)). loop_step IH; naive_solver arith.
  - assert (0 < len r0) as Hp.
    { apply orb_true_iff in E0 as [[_ E0]%andb_true_iff|[_ [E0|E0]%orb_true_iff]%andb_true_iff]; by eapply Hl. }
    loop_step IH; naive_solver arith.
  - apply andb_true_iff in E1 as [_ E1]. specialize (Hl _ E1 ltac:(done)).
    apply wp_bind. eapply wp_mono; [by apply past_escape|]. intros ? r1 [? ?]. cbv beta. loop_step IH; naive_solver arith.
  - apply wp_ret. split; [arith|]. by eapply non_spaces_end.
Qed.
Lemma non_spaces_ends double m r :
  wp (scan_flow_scalar_non_spaces double m) (fun _ r' => ahead r r' /\ unquoted_end double r') r.
Proof. apply wp_fuel_for, non_spaces_loop_safe. lia. Qed.

Lemma flow_scalar_loop_safe fuel double m chunks r :
  len r < fuel -> unquoted_end double r ->
  wp (flow_scalar_loop fuel double (quote_of double) m chunks) (fun _ r' => ahead r r') r.
Proof.
  revert chunks r. induction fuel as [|fuel IH]; intros chunks r Hf Hu; [lia|].
  cbn [flow_scalar_loop]. apply wp_bind, wp_ask. cbv beta. step1; [by apply wp_ret|]. apply N.eqb_neq in E.
  destruct Hu as [?|Hu]; [done|]. apply wp_bind. eapply wp_mono; [by apply flow_spaces_past|]. intros s r1 [? ?]. cbv beta.
  apply wp_bind. eapply wp_mono; [apply non_spaces_ends|]. intros s' r2 [? ?]. cbv beta.
  eapply wp_mono; [apply IH; [arith|done]|intros; arith].
Qed.
Lemma flow_scalar_past double r : peek_in (r_rest r) 0 = quote_of double ->
  wp (scan_flow_scalar double) (fun _ r' => ahead r r' /\ len r' < len r) r.
Proof.
  intros Hq. assert (0 < len r) by (apply peek_in_some; rewrite Hq; by destruct double).
  unfold scan_flow_scalar. do 4 step1. cbv beta. step1. forward_step wp_forward. rewrite Hq.
  apply wp_bind. eapply wp_mono; [apply non_spaces_ends|]. intros s r1 [? ?]. cbv beta.
  apply wp_bind, wp_fuel_for. eapply wp_mono; [apply flow_scalar_loop_safe; [arith|done]|]. intros s' r2 ?. cbv beta.
  steps; arith.
Qed.

(** *** Plain scalars *)

Lemma plain_breaks_loop_safe fuel breaks r :
  len r < fuel -> wp (plain_breaks_loop fuel breaks) (fun _ r' => ahead r r') r.
Proof.
  revert breaks r. induction fuel as [|fuel IH]; intros breaks r Hf; [lia|].
  cbn [plain_breaks_loop]. do 3 step1; [char_here E|]; loop_step IH. naive_solver arith.
Qed.
End Reads.

(** ** The scanner *)

Definition left_ (s : scanner) : nat := len (s_reader s).
(** The tokens made and the collections that will make one more when they end. *)
Definition made (s : scanner) : nat := length (s_indents s) + length (s_tokens s).

(** Every possible simple key is a token that is queued, or the one to come,
    and stands at or before the reader; the outermost indent is none. *)
Record sound (s : scanner) : Prop := mk_sound {
  so_keys : forall level key, s_possible_simple_keys s !! level = Some key ->
    s_tokens_taken s <= k_token_number key <= s_tokens_taken s + length (s_tokens s) /\ k_index key <= r_pointer (s_reader s);
  so_indents : last (s_indent s :: s_indents s) = Some (-1)%Z
}.

(** [s'] is a sound scanner that [s] may come to, no token being taken, at most
    [k] more made and the reader moved as [R] says. *)
Record went (R : reader -> reader -> Prop) (k : nat) (s s' : scanner) : Prop := mk_went {
  w_sound : sound s';
  w_taken : s_tokens_taken s' = s_tokens_taken s;
  w_done : s_done s' = s_done s;
  w_made : made s' <= made s + k;
  w_reader : R (s_reader s) (s_reader s')
}.
Definition further (r r' : reader) : Prop := ahead r r' /\ len r' < len r.

Lemma went_refl R `{!Reflexive R} s : sound s -> went R 0 s s.
Proof. intros. split; try done; lia. Qed.
Lemma went_trans (R1 R2 R3 : reader -> reader -> Prop) a b s1 s2 s3 :
  (forall r1 r2 r3, R1 r1 r2 -> R2 r2 r3 -> R3 r1 r3) -> went R1 a s1 s2 -> went R2 b s2 s3 -> went R3 (a + b) s1 s3.
Proof. intros HR [] []. split; try done; [congruence..|lia|by eapply HR]. Qed.
Lemma went_weaken R k j s s' : went R j s s' -> j <= k -> went R k s s'.
Proof. intros [] ?. split; try done; lia. Qed.

(** Fewer keys, the same elsewhere. *)
Lemma fewer_keys s m : sound s -> m ⊆ s_possible_simple_keys s -> went eq 0 s (set_keys m s).
Proof.
  intros [Hk Hi] Hm. split; try done; try (unfold made, left_; cbn; lia). split; [|done]. cbn. intros l key El. apply (Hk l). by eapply lookup_weaken.
Qed.
Lemma went_allow b s : sound s -> went eq 0 s (set_allow b s).
Proof. intros [Hk Hi]. split; try done; try (unfold made, left_; cbn; lia). Qed.
Lemma went_flow z s : sound s -> went eq 0 s (set_flow_level z s).
Proof. intros [Hk Hi]. split; try done; try (unfold made, left_; cbn; lia). Qed.
Lemma went_tokens l s : sound s -> length (s_tokens s) <= length l ->
  went eq (length l - length (s_tokens s)) s (set_tokens l s).
Proof.
  intros [Hk Hi] Hl. split; try done; try (unfold made, left_; cbn; lia). split; [|done]. cbn. intros lv key El.
  pose proof (Hk lv key El). lia.
Qed.
Lemma went_reader s r : sound s -> ahead (s_reader s) r -> went ahead 0 s (set_reader r s).
Proof.
  intros [Hk Hi] [H1 H2]. split; try done; try (unfold made, left_; cbn; lia). split; [|done]. cbn. intros lv key El.
  pose proof (Hk lv key El). lia.
Qed.

(** What an operation promises that takes no token and moves the reader as [R]
    says. *)
Definition goes {A} (R : reader -> reader -> Prop) (k : nat) (m : st scanner A) : Prop :=
  forall s, sound s -> wp m (fun _ s' => went R k s s') s.
Abbreviation keeps := (goes eq).

Create HintDb scans.
Lemma goes_wp {A} R k (m : st scanner A) (Q : A -> scanner -> Prop) s :
  goes R k m -> sound s -> (forall a s', went R k s s' -> Q a s') -> wp m Q s.
Proof. intros H Hs HQ. eapply wp_mono; [by apply H|done]. Qed.
Lemma wp_read {A} (m : st reader A) (Q : A -> scanner -> Prop) s :
  wp m (fun a r => Q a (set_reader r s)) (s_reader s) -> wp (read m) Q s.
Proof. apply wp_zoom. Qed.
Lemma goes_read {A} (m : st reader A) : safe m -> goes ahead 0 (read m).
Proof. intros Hm s Hs. apply wp_read. eapply safe_wp; [done|]. intros a r' Ha. by apply went_reader. Qed.
Lemma keeps_ret {A} (a : A) : keeps 0 (mret a).
Proof. intros s Hs. by apply went_refl; [apply _|]. Qed.
Lemma keeps_ask {A} (f : scanner -> A) : keeps 0 (ask f).
Proof. intros s Hs. by apply went_refl; [apply _|]. Qed.
Lemma keeps_push t m : keeps 1 (push t m).
Proof.
  intros s Hs. apply wp_modify. pose proof (went_tokens (s_tokens s ++ [mk_token t m]) s Hs) as H.
  rewrite length_app in H. cbn in H. replace (_ + 1 - _) with 1 in H by lia. apply H. lia.
Qed.
Lemma keeps_allow b : keeps 0 (allow b).
Proof. intros s Hs. by apply went_allow. Qed.
Lemma keeps_when k b m : keeps k m -> keeps k (when b m).
Proof. intros Hm. destruct b; [done|]. intros s Hs. apply wp_ret. eapply went_weaken; [by apply went_refl; [apply _|]|lia]. Qed.

Lemma keeps_add_indent z : keeps 1 (add_indent z).
Proof.
  intros s [Hk Hi]. unfold wp, add_indent. destruct (s_indent s <? z)%Z.
  - split; try done; try (unfold made, left_; cbn; lia).
  - split; try done; lia.
Qed.
Lemma keeps_no_colon {A} `{Debug} : keeps 0 (@no_colon A).
Proof. done. Qed.

Section Scans.
Context `{Debug}.

(** A key that may still turn out to be one: on this line, not far back. *)
Definition fresh_key (r : reader) (key : SimpleKey) : Prop := k_line key = r_line r /\ r_pointer r - k_index key <= 1024.
Definition fresh (s : scanner) : Prop :=
  forall level key, s_possible_simple_keys s !! level = Some key -> fresh_key (s_reader s) key.

Lemma set_keys_same s : set_keys (s_possible_simple_keys s) s = s.
Proof. by destruct s. Qed.
Lemma set_keys_set m m' s : set_keys m (set_keys m' s) = set_keys m s.
Proof. done. Qed.

(** Whether a key is stale, as the loop decides it. *)
Lemma wp_staleness key s (Q : bool -> scanner -> Prop) : k_index key <= r_pointer (s_reader s) ->
  (forall b, (b = false <-> fresh_key (s_reader s) key) -> Q b s) ->
  wp (if bool_decide (k_line key = r_line (s_reader s)) then n ← usize_sub (r_pointer (s_reader s)) (k_index key); mret (1024 <? n) else mret true) Q s.
Proof.
  intros Hi HQ. case_bool_decide as El.
  - apply wp_bind, wp_usize_sub; [done|]. apply wp_ret, HQ. unfold fresh_key. rewrite Nat.ltb_ge. naive_solver.
  - apply wp_ret, HQ. unfold fresh_key. naive_solver.
Qed.

Lemma stale_loop_spec ks s : sound s -> NoDup ks.*1 ->
  (forall l key, (l, key) ∈ ks -> s_possible_simple_keys s !! l = Some key) ->
  (forall l key, s_possible_simple_keys s !! l = Some key -> (l, key) ∈ ks \/ fresh_key (s_reader s) key) ->
  wp (stale_loop ks) (fun _ s' => exists m, s' = set_keys m s /\ m ⊆ s_possible_simple_keys s /\ fresh s') s.
Proof.
  revert s. induction ks as [|[l key] ks IH]; intros s Hs Hn Hin Hout; cbn [stale_loop].
  - apply wp_ret. exists (s_possible_simple_keys s). rewrite set_keys_same. split; [done|]. split; [done|].
    intros l key El. destruct (Hout _ _ El) as [?%not_elem_of_nil|]; done.
  - rewrite fmap_cons in Hn. apply NoDup_cons in Hn as [Hl Hn].
    assert (El : s_possible_simple_keys s !! l = Some key) by (apply Hin; by left).
    apply wp_bind, wp_ask, wp_bind, wp_staleness; [apply (so_keys _ Hs _ _ El)|]. intros [|] Hb.
    + step1; [done|]. apply wp_bind, wp_modify. set (s1 := set_keys _ s).
      eapply wp_mono; [apply (IH s1)|].
      * apply fewer_keys; [done|apply delete_subseteq].
      * done.
      * intros l' key' Hk. unfold s1. cbn. rewrite lookup_delete_ne; [apply Hin; by right|].
        intros ->. by apply Hl, (list_elem_of_fmap_2 fst _ (l', key')).
      * unfold s1. cbn. intros l' key' [Hne Hk]%lookup_delete_Some.
        destruct (Hout _ _ Hk) as [[[= -> ->]|?]%elem_of_cons|]; naive_solver.
      * intros _ s' (m & -> & Hm & Hf). exists m. unfold s1 in *. split; [done|]. split; [|done].
        etrans; [exact Hm|apply delete_subseteq].
    + apply IH; [done..|by intros; apply Hin; right|]. intros l' key' Hk.
      destruct (Hout _ _ Hk) as [[[= -> ->]|?]%elem_of_cons|]; naive_solver.
Qed.

Lemma stale_spec s : sound s ->
  wp stale_possible_simple_keys (fun _ s' => exists m, s' = set_keys m s /\ m ⊆ s_possible_simple_keys s /\ fresh s') s.
Proof.
  intros Hs. unfold stale_possible_simple_keys. apply wp_bind, wp_ask. apply stale_loop_spec; [done|apply btree_keys_nodup| |].
  - intros l key. by rewrite elem_of_btree_to_list.
  - intros l key El. left. by rewrite elem_of_btree_to_list.
Qed.
Lemma keeps_stale : keeps 0 stale_possible_simple_keys.
Proof. intros s Hs. eapply wp_mono; [by apply stale_spec|]. intros _ s' (m & -> & Hm & _). by apply fewer_keys. Qed.

(** Where no key is stale, looking for stale ones changes nothing. *)
Lemma stale_loop_none ks s : sound s -> fresh s -> (forall l key, (l, key) ∈ ks -> s_possible_simple_keys s !! l = Some key) ->
  stale_loop ks s = Ok (tt, s).
Proof.
  intros Hs Hf. induction ks as [|[l key] ks IH]; intros Hin; [done|]. cbn [stale_loop].
  assert (El : s_possible_simple_keys s !! l = Some key) by (apply Hin; by left).
  destruct (Hf _ _ El) as [E1 E2]. destruct (so_keys _ Hs _ _ El) as [_ Hi].
  unfold mbind, st_bind, ask, usize_sub, mret, st_ret. cbv beta iota. rewrite bool_decide_true by done.
  rewrite (proj2 (Nat.leb_le _ _) Hi). cbv beta iota. rewrite (proj2 (Nat.ltb_ge _ _) E2).
  apply IH. intros. apply Hin. by right.
Qed.
Lemma stale_none s : sound s -> fresh s -> stale_possible_simple_keys s = Ok (tt, s).
Proof. intros Hs Hf. apply stale_loop_none; [done..|]. intros l key. by rewrite elem_of_btree_to_list. Qed.

Lemma keeps_remove : keeps 0 remove_possible_simple_key.
Proof.
  intros s Hs. unfold remove_possible_simple_key. apply wp_bind, wp_ask. unfold id. step1; [|by apply wp_ret, went_refl; [apply _|]].
  apply wp_bind, wp_modify. step1; [done|]. apply wp_ret, fewer_keys; [done|]. apply delete_subseteq.
Qed.
Lemma keeps_save : keeps 0 save_possible_simple_key.
Proof.
  intros s Hs. unfold save_possible_simple_key. apply wp_bind, wp_ask. cbv zeta. unfold id. step1; [|by apply wp_ret, went_refl; [apply _|]].
  apply wp_bind. eapply wp_mono.
  { instantiate (1 := fun _ s' => exists m, s' = set_keys m s /\ m ⊆ s_possible_simple_keys s).
    unfold remove_possible_simple_key. apply wp_bind, wp_ask. unfold id. step1.
    - apply wp_bind, wp_modify. step1; [done|]. apply wp_ret. eexists. split; [done|]. apply delete_subseteq.
    - apply wp_ret. exists (s_possible_simple_keys s). by rewrite set_keys_same. }
  intros _ s1 (m & -> & Hm). apply wp_modify. destruct Hs as [Hk Hi]. split; try done; [split; [|done]|unfold made; cbn; lia]. cbn.
  intros l key [[_ <-]|[_ Hl]]%lookup_insert_Some; [cbn; lia|]. apply (Hk l). by eapply lookup_weaken.
Qed.

Lemma unwind_stack_spec z i l : (-1 <= z)%Z -> last (i :: l) = Some (-1)%Z ->
  let '(n, i', l') := unwind_stack z i l in length l' + n = length l /\ last (i' :: l') = Some (-1)%Z.
Proof.
  intros Hz. revert i. induction l as [|j l IH]; intros i Hl; cbn [unwind_stack].
  - cbn in Hl. injection Hl as ->. destruct (z <? -1)%Z eqn:E; [lia|]. cbn. split; [lia|done].
  - destruct (z <? i)%Z; [|by split; [lia|]]. specialize (IH j). destruct (unwind_stack z j l) as [[n i'] l'].
    destruct IH as [H1 H2]; [by rewrite last_cons_cons in Hl|]. split; [cbn; lia|done].
Qed.
Lemma keeps_unwind z : (-1 <= z)%Z -> keeps 0 (unwind_indent z).
Proof.
  intros Hz s [Hk Hi]. apply wp_modify. case_bool_decide; [|by apply went_refl; [apply _|]].
  pose proof (unwind_stack_spec z _ _ Hz Hi) as Hu. destruct (unwind_stack _ _ _) as [[n i] l]. destruct Hu as [H1 H2].
  split; try done; [split; [|done]|]; cbn.
  - intros lv key El. pose proof (Hk lv key El). rewrite length_app. lia.
  - unfold made. cbn. rewrite length_app, length_replicate. lia.
Qed.

Lemma keeps_here : keeps 0 here.
Proof. intros s Hs. apply wp_read, wp_ask. destruct s. apply went_refl; [apply _|done]. Qed.
Lemma keeps_in_block : keeps 0 in_block.
Proof. apply keeps_ask. Qed.
Lemma keeps_flow_up : keeps 0 (modify (fun s => set_flow_level (s_flow_level s + 1)%Z s)).
Proof. intros s Hs. by apply wp_modify, went_flow. Qed.
Lemma keeps_flow_down : keeps 0 (modify (fun s => set_flow_level (s_flow_level s - 1)%Z s)).
Proof. intros s Hs. by apply wp_modify, went_flow. Qed.
Lemma keeps_err {A} c p m : keeps 0 (@err scanner A c p m).
Proof. done. Qed.

Lemma goes_bind {A B} R j k (m : st scanner A) (f : A -> st scanner B) :
  keeps j m -> (forall a, goes R k (f a)) -> goes R (j + k) (m ≫= f).
Proof.
  intros Hm Hf s Hs. apply wp_bind. eapply goes_wp; [done..|]. intros a s1 W1.
  eapply wp_mono; [apply Hf, W1|]. intros b s2 W2.
  by apply (went_trans eq R R _ _ _ s1); [intros ??? ->| |].
Qed.
Lemma goes_weaken {A} R j k (m : st scanner A) : goes R j m -> j <= k -> goes R k m.
Proof. intros Hm Hj s Hs. eapply wp_mono; [by apply Hm|]. intros a s' W. by apply (went_weaken R k j). Qed.

(** [m], where [P] holds of the reader, passes a character over. *)
Definition begins {A} (P : reader -> Prop) (k : nat) (m : st scanner A) : Prop :=
  forall s, sound s -> P (s_reader s) -> wp m (fun _ s' => went further k s s') s.
Definition some_left (r : reader) : Prop := 0 < len r.

Lemma begins_bind {A B} P j k (m : st scanner A) (f : A -> st scanner B) :
  keeps j m -> (forall a, begins P k (f a)) -> begins P (j + k) (m ≫= f).
Proof.
  intros Hm Hf s Hs HP. apply wp_bind. eapply goes_wp; [done..|]. intros a s1 W1.
  eapply wp_mono; [apply Hf; [apply W1|by rewrite <- (w_reader _ _ _ _ W1)]|]. intros b s2 W2.
  by apply (went_trans eq further further _ _ _ s1); [intros ??? ->| |].
Qed.
Lemma begins_read {A B} P k (m : st reader A) (f : A -> st scanner B) :
  (forall r, P r -> wp m (fun _ r' => further r r') r) -> (forall a, keeps k (f a)) -> begins P k (read m ≫= f).
Proof.
  intros Hm Hf s Hs HP. apply wp_bind, wp_read. eapply wp_mono; [by apply Hm|]. intros a r Hr. cbv beta.
  pose proof (went_reader s r Hs (proj1 Hr)) as W1. eapply wp_mono; [apply Hf, W1|]. intros b s2 W2.
  assert (W1' : went further 0 s (set_reader r s)) by by destruct W1.
  change k with (0 + k). by apply (went_trans further eq further _ _ _ (set_reader r s)); [intros ??? ? <-| |].
Qed.
Lemma begins_weaken {A} P j k (m : st scanner A) : begins P j m -> j <= k -> begins P k m.
Proof. intros Hm Hj s Hs HP. eapply wp_mono; [by apply Hm|]. intros a s' W. by apply (went_weaken further k j). Qed.

Hint Resolve keeps_ret keeps_ask keeps_push keeps_allow keeps_when keeps_add_indent keeps_stale keeps_remove keeps_save
  keeps_here keeps_in_block keeps_flow_up keeps_flow_down keeps_err : scans.
Hint Extern 1 (keeps _ (unwind_indent _)) => apply keeps_unwind; lia : scans.

Ltac begin_steps := repeat first
  [ eapply begins_bind; [solve [eauto with scans]|intros ?]
  | eapply begins_read; [|solve [eauto with scans]] ].
Ltac solve_begins := eapply begins_weaken; [begin_steps|..].

Lemma forward_past n : 0 < n -> forall r, some_left r -> wp (forward n) (fun _ r' => further r r') r.
Proof. intros Hn r Hr. forward_step wp_forward. split; [done|]. unfold some_left in Hr. lia. Qed.
Lemma begins_char t : begins some_left 1 (fetch_char t).
Proof. unfold fetch_char. solve_begins; [apply forward_past; lia|lia]. Qed.
Ltac solve_char := solve_begins; [apply forward_past; lia|lia].

Lemma begins_flow_start t : begins some_left 4 (fetch_flow_collection_start t).
Proof. unfold fetch_flow_collection_start. solve_char. Qed.
Lemma begins_flow_end t : begins some_left 4 (fetch_flow_collection_end t).
Proof. unfold fetch_flow_collection_end. solve_char. Qed.
Lemma begins_flow_entry : begins some_left 4 fetch_flow_entry.
Proof. unfold fetch_flow_entry. solve_char. Qed.
Lemma begins_directive : begins some_left 4 fetch_directive.
Proof. unfold fetch_directive. solve_begins; [apply past_directive|lia]. Qed.
Lemma begins_document t : begins some_left 4 (fetch_document_indicator t).
Proof. unfold fetch_document_indicator. solve_begins; [apply forward_past; lia|lia]. Qed.
Lemma begins_anchor b : begins some_left 4 (fetch_anchor b).
Proof. unfold fetch_anchor. solve_begins; [apply past_anchor|lia]. Qed.
Lemma begins_tag : begins some_left 4 fetch_tag.
Proof. unfold fetch_tag. solve_begins; [apply past_tag|lia]. Qed.
Lemma begins_block_scalar b : begins some_left 4 (fetch_block_scalar b).
Proof. unfold fetch_block_scalar. solve_begins; [apply past_block_scalar|lia]. Qed.
Lemma begins_flow_scalar double : begins (fun r => peek_in (r_rest r) 0 = quote_of double) 4 (fetch_flow_scalar double).
Proof. unfold fetch_flow_scalar. solve_begins; [intros r; apply flow_scalar_past|lia]. Qed.

Lemma keeps_open_block p t : keeps 2 (open_block p t).
Proof.
  apply (goes_bind eq 0 2); [apply keeps_ask|]. intros s. destruct (s_allow_simple_key s).
  - apply (goes_bind eq 1 1); [apply keeps_add_indent|]. intros b. apply keeps_when, (goes_bind eq 0 1); [apply keeps_here|].
    intros m. apply keeps_push.
  - done.
Qed.
Hint Resolve keeps_open_block : scans.
Lemma begins_block_entry : begins some_left 4 fetch_block_entry.
Proof. unfold fetch_block_entry. solve_char. Qed.
Lemma begins_key : begins some_left 4 fetch_key.
Proof. unfold fetch_key. solve_char. Qed.

Lemma wp_insert n t (Q : unit -> scanner -> Prop) s : sound s -> n <= length (s_tokens s) ->
  (forall s', went eq 1 s s' -> length (s_tokens s') = S (length (s_tokens s)) -> Q tt s') -> wp (insert_token n t) Q s.
Proof.
  intros Hs Hn HQ. unfold wp, insert_token. rewrite (proj2 (Nat.leb_le _ _) Hn).
  assert (El : length (take n (s_tokens s) ++ t :: drop n (s_tokens s)) = S (length (s_tokens s))).
  { rewrite length_app. cbn. rewrite length_take, length_drop. lia. }
  apply HQ; [|exact El]. eapply went_weaken; [apply went_tokens; [done|lia]|lia].
Qed.

(** A key found in time: its tokens go before what has been queued since. *)
Lemma insert_key key s : sound s ->
  s_tokens_taken s <= k_token_number key <= s_tokens_taken s + length (s_tokens s) -> forall block,
  wp (at_ ← usize_sub (k_token_number key) (s_tokens_taken s);
      insert_token at_ (mk_token TKey (k_mark key));;
      added ← (if block : bool then add_indent (Z.of_nat (k_column key)) else mret false);
      when added (insert_token at_ (mk_token TBlockMappingStart (k_mark key)));;
      allow false) (fun _ s' => went eq 3 s s') s.
Proof.
  intros Hs Hk block. apply wp_bind, wp_usize_sub; [lia|]. apply wp_bind, wp_insert; [done|lia|]. intros s1 W1 L1.
  apply wp_bind. eapply (wp_mono _ (fun _ s2 => went eq 1 s1 s2 /\ length (s_tokens s2) = length (s_tokens s1))).
  { destruct block; [|by apply wp_ret; split; [eapply went_weaken; [apply went_refl; [apply _|apply W1]|lia]|]].
    eapply wp_mono; [eapply wp_and; [apply keeps_add_indent, W1|]|intros ?? Hw; exact Hw].
    unfold wp, add_indent. by destruct (_ <? _)%Z. }
  intros added s2 [W2 L2]. apply wp_bind.
  eapply (wp_mono _ (fun _ s3 => went eq 1 s2 s3)).
  { apply wp_when; intros _; [|eapply went_weaken; [apply went_refl; [apply _|apply W2]|lia]].
    apply wp_insert; [apply W2|lia|done]. }
  intros ? s3 W3. eapply wp_mono; [apply keeps_allow, W3|]. intros ? s4 W4.
  assert (HT : forall r1 r2 r3 : reader, r1 = r2 -> r2 = r3 -> r1 = r3) by (by congruence).
  pose proof (fun a b s1 s2 s3 => went_trans eq eq eq a b s1 s2 s3 HT) as T.
  exact (T 1 _ _ _ _ W1 (T 1 _ _ _ _ W2 (T 1 _ _ _ _ W3 W4))).
Qed.
Lemma begins_value : begins some_left 4 fetch_value.
Proof.
  unfold fetch_value. apply (begins_weaken _ (0 + (0 + (3 + 1)))); [|lia].
  intros s Hs HP. apply wp_bind, wp_ask, wp_bind, wp_ask. apply wp_bind. cbv beta. unfold id.
  eapply (wp_mono _ (fun _ s' => went eq 3 s s')).
  - destruct (s_possible_simple_keys s !! s_flow_level s) as [key|] eqn:Ek.
    + apply wp_bind, wp_modify.
      assert (W0 : went eq 0 s (set_keys (delete (s_flow_level s) (s_possible_simple_keys s)) s)) by (apply fewer_keys; [done|apply delete_subseteq]).
      eapply wp_mono; [apply (insert_key key (set_keys _ s))|].
      * apply W0.
      * apply (so_keys _ Hs _ _ Ek).
      * intros ? s' W. exact (went_trans eq eq eq 0 3 _ _ _ ltac:(congruence) W0 W).
    + apply (goes_weaken eq (2 + (0 + 0))); [|lia|done]. apply goes_bind; [by auto with scans|intros _].
      apply goes_bind; [apply keeps_allow|intros _; apply keeps_remove].
  - intros ? s1 W1. eapply wp_mono; [apply begins_char; [apply W1|by rewrite <- (w_reader _ _ _ _ W1)]|].
    intros ? s2 W2. exact (went_trans eq further further 3 1 _ _ _ ltac:(by intros ??? ->) W1 W2).
Qed.

(** *** Plain scalars *)

Lemma goes_ahead {A B} j k (m : st scanner A) (f : A -> st scanner B) :
  goes ahead j m -> (forall a, goes ahead k (f a)) -> goes ahead (j + k) (m ≫= f).
Proof.
  intros Hm Hf s Hs. apply wp_bind. eapply goes_wp; [done..|]. intros a s1 W1.
  eapply wp_mono; [apply Hf, W1|]. intros b s2 W2. exact (went_trans ahead ahead ahead j k _ _ _ transitivity W1 W2).
Qed.
Lemma keeps_ahead {A} k (m : st scanner A) : keeps k m -> goes ahead k m.
Proof. intros Hm s Hs. eapply wp_mono; [by apply Hm|]. intros a s' []. split; try done. by rewrite <- w_reader0. Qed.
Lemma safe_plain_breaks : safe (fuel_for (fun fuel => plain_breaks_loop fuel [])).
Proof. intros r. apply wp_fuel_for, plain_breaks_loop_safe. lia. Qed.
Lemma safe_peek i : safe (peek i).
Proof. by intros r; apply wp_ask. Qed.
Lemma safe_run f : safe (run f).
Proof. by intros r; apply wp_ask. Qed.
Lemma safe_word_of n : safe (word_of n).
Proof. solve_safe. Qed.
Lemma safe_line_break : safe scan_line_break.
Proof. intros r. by apply wp_line_break. Qed.

Ltac go_on lem := apply (goes_ahead 0 0); [first [apply goes_read, lem|apply keeps_ahead, lem]|intros ?].
Lemma goes_plain_spaces : goes ahead 0 scan_plain_spaces.
Proof.
  unfold scan_plain_spaces. go_on safe_run. go_on safe_word_of. go_on safe_peek. case_match.
  - go_on safe_line_break. go_on (keeps_allow true). go_on safe_is_separator. case_match; [apply keeps_ahead, keeps_ret|].
    go_on safe_plain_breaks. apply keeps_ahead, keeps_ret.
  - apply keeps_ahead, keeps_ret.
Qed.

Definition plain_here (s : scanner) : Prop :=
  is_char "#" (peek_in (r_rest (s_reader s)) 0) = false /\
  0 < plain_run (negb (bool_decide (s_flow_level s = 0%Z))) (r_rest (s_reader s)).
Lemma plain_run_le flow l : plain_run flow l <= length l.
Proof. induction l as [|c l IH]; [done|]. cbn. case_match; lia. Qed.

Lemma plain_loop_goes fuel indent chunks spaces s : sound s -> left_ s < fuel ->
  wp (plain_loop fuel indent chunks spaces)
    (fun _ s' => went ahead 0 s s' /\ (plain_here s -> further (s_reader s) (s_reader s'))) s.
Proof.
  revert chunks spaces s. induction fuel as [|fuel IH]; intros chunks spaces s Hs Hf; [lia|].
  cbn [plain_loop]. apply wp_bind, wp_ask. cbv zeta. unfold id. step1.
  { apply wp_ret. split; [by apply went_refl; [apply _|]|]. intros [H1 H2]. rewrite H1 in E. apply bool_decide_eq_true in E. lia. }
  apply orb_false_iff in E as [E1 E2%bool_decide_eq_false]. pose proof (plain_run_le (negb (bool_decide (s_flow_level s = 0%Z))) (r_rest (s_reader s))) as Hle.
  apply wp_bind, wp_modify, wp_bind, wp_read. unfold word_of. apply wp_bind, wp_ask, wp_bind. forward_step wp_forward. apply wp_ret.
  set (s1 := set_reader r (set_allow false s)).
  assert (W1 : went ahead 0 s s1).
  { refine (went_trans eq ahead ahead 0 0 _ _ _ ltac:(by intros ??? ->) (went_allow false s Hs) _).
    apply went_reader; [by apply went_allow|done]. }
  assert (F1 : further (s_reader s) (s_reader s1)) by (split; [apply W1|]; unfold s1, left_, len in *; cbn in *; lia).
  apply wp_bind. eapply goes_wp; [apply goes_plain_spaces|apply W1|]. intros sp s2 W2.
  assert (W12 : went ahead 0 s s2) by exact (went_trans ahead ahead ahead 0 0 _ _ _ transitivity W1 W2).
  assert (F2 : further (s_reader s) (s_reader s2)).
  { split; [apply W12|]. pose proof (w_reader _ _ _ _ W2) as [? _]. destruct F1. lia. }
  cbv beta. destruct sp as [sp|]; [|by apply wp_ret]. apply wp_bind, wp_ask. unfold id. step1; [by apply wp_ret|].
  eapply wp_mono; [apply IH; [apply W2|]|].
  - destruct F2. unfold left_ in *. lia.
  - intros ? s3 [W3 _]. split; [exact (went_trans ahead ahead ahead 0 0 _ _ _ transitivity W12 W3)|]. intros _.
    split; [etrans; [apply F2|apply W3]|]. pose proof (w_reader _ _ _ _ W3) as [? _]. destruct F2. lia.
Qed.
Lemma plain_spec s : sound s -> plain_here s -> wp scan_plain (fun _ s' => went further 0 s s') s.
Proof.
  intros Hs Hp. unfold scan_plain. apply wp_bind, wp_ask, wp_bind. unfold id. eapply wp_mono; [apply plain_loop_goes; [done|unfold left_, len; lia]|].
  intros chunks s1 [[] F]. apply wp_ret. split; try done. by apply F.
Qed.

(** What [check_plain] lets through begins a plain scalar. *)
Lemma has_sub l l' c : has l c = false -> forallb (has l) l' = true -> has l' c = false.
Proof.
  intros Hc Hl. rewrite forallb_forall in Hl. apply not_true_is_false. intros Hc'. apply has_true, list_elem_of_In, Hl in Hc'.
  by rewrite Hc in Hc'.
Qed.
Lemma plain_starts flow c d :
  negb (has (BLANKZ_TAB ++ ch #"-?:,[]{}#&*!|>'" ++ [DOUBLE_QUOTE] ++ ch #"%@`") c)
    || negb (has BLANKZ_TAB d) && (is_char "-" c || flow && has (ch #"?:") c) = true ->
  is_char "#" c = false /\ plain_stop (negb flow) c d = false.
Proof.
  intros [Hc%negb_true_iff|[Hd%negb_true_iff Hc]%andb_true_iff]%orb_true_iff.
  - assert (Hi : forall b, has [Byte.to_N b] c = false -> is_char b c = false).
    { intros b Hb. unfold has, mem in Hb. apply bool_decide_eq_false in Hb. apply N.eqb_neq. set_solver. }
    unfold plain_stop. rewrite !Hi by by apply (has_sub _ _ _ Hc).
    rewrite (has_sub _ BLANKZ_TAB _ Hc), (has_sub _ (ch #",?[]{}") _ Hc) by done. by destruct flow.
  - unfold plain_stop. rewrite Hd. apply orb_true_iff in Hc as [Hc|[-> Hc]%andb_true_iff].
    + apply N.eqb_eq in Hc as ->. by destruct flow.
    + unfold has, mem in Hc. apply bool_decide_eq_true in Hc. assert (c = 0x3F \/ c = 0x3A)%N as [-> | ->]; [|done..].
      revert Hc. vm_compute. set_solver.
Qed.
Lemma check_plain_here s : check_plain s = true -> plain_here s.
Proof.
  unfold check_plain, plain_here. cbv zeta. set (flow := bool_decide (s_flow_level s = 0%Z)). set (l := r_rest (s_reader s)).
  intros [H1 H2]%plain_starts. split; [done|]. destruct l as [|c l]; [by destruct flow|].
  cbn [plain_run]. change (peek_in (c :: l) 0) with c in H2. change (peek_in (c :: l) 1) with (peek_in l 0) in H2. rewrite H2. lia.
Qed.

Definition same_flow {A} (m : st scanner A) : Prop := forall s, sound s -> wp m (fun _ s' => s_flow_level s' = s_flow_level s) s.
Lemma save_flow : same_flow save_possible_simple_key.
Proof.
  intros s Hs. unfold save_possible_simple_key, remove_possible_simple_key. apply wp_bind, wp_ask. cbv zeta. unfold id. step1; [|by apply wp_ret].
  apply wp_bind, wp_bind, wp_ask. step1; [apply wp_bind, wp_modify; step1; [done|by apply wp_ret, wp_modify]|by apply wp_ret, wp_modify].
Qed.
Lemma plain_fetched s : sound s -> check_plain s = true -> wp fetch_plain (fun _ s' => went further 1 s s') s.
Proof.
  intros Hs Hc%check_plain_here. unfold fetch_plain. apply wp_bind.
  eapply wp_mono; [apply wp_and; [by apply keeps_save|by apply save_flow]|]. intros ? s1 [W1 F1].
  apply wp_bind, wp_modify, wp_bind. unfold here. apply wp_read, wp_ask.
  set (s2 := set_reader _ _).
  assert (W2 : went eq 0 s s2).
  { refine (went_trans eq eq eq 0 0 _ _ _ ltac:(congruence) W1 _). unfold s2. destruct (set_allow false s1) eqn:E.
    rewrite <- E. destruct (went_allow false s1 (w_sound _ _ _ _ W1)). split; by rewrite ?E in *. }
  apply wp_bind. eapply wp_mono; [apply plain_spec; [apply W2|]|].
  - destruct Hc as [H1 H2]. unfold plain_here, s2. cbn. rewrite <- (w_reader _ _ _ _ W1), F1. by split.
  - intros v s3 W3. eapply wp_mono; [apply keeps_push, W3|]. intros ? s4 W4.
    exact (went_trans eq further further 0 1 _ _ _ ltac:(by intros ??? ->) W2
      (went_trans further eq further 0 1 _ _ _ ltac:(by intros ??? ? <-) W3 W4)).
Qed.

(** *** The next token *)

Lemma next_token_loop_goes fuel s : sound s -> left_ s < fuel -> wp (next_token_loop fuel) (fun _ s' => went ahead 0 s s') s.
Proof.
  revert s. induction fuel as [|fuel IH]; intros s Hs Hf; [lia|]. cbn [next_token_loop]. apply wp_bind, wp_read.
  eapply (wp_mono _ (fun b r => ahead (s_reader s) r /\ (b <> [] -> len r < left_ s))).
  { unfold left_. steps; split; try arith; naive_solver arith. }
  intros b r [Ha Hb]. pose proof (went_reader s r Hs Ha) as W1. step1; [by apply wp_ret|]. apply bool_decide_eq_false in E.
  specialize (Hb E). apply wp_bind. eapply goes_wp; [apply keeps_in_block|apply W1|]. intros blk s2 W2. apply wp_bind.
  eapply goes_wp; [apply (keeps_when 0), keeps_allow|apply W2|]. intros ? s3 W3.
  eapply wp_mono; [apply IH; [apply W3|]|].
  - unfold left_ in *. rewrite <- (w_reader _ _ _ _ W3), <- (w_reader _ _ _ _ W2). cbn. lia.
  - intros ? s4 W4. refine (went_trans ahead ahead ahead 0 0 _ _ _ transitivity W1 _).
    refine (went_trans eq ahead ahead 0 0 _ _ _ ltac:(by intros ??? ->) W2 _).
    exact (went_trans eq ahead ahead 0 0 _ _ _ ltac:(by intros ??? ->) W3 W4).
Qed.
Lemma goes_next_token : goes ahead 0 scan_to_next_token.
Proof.
  unfold scan_to_next_token. intros s Hs. apply wp_bind, wp_ask, wp_bind.
  eapply (wp_mono _ (fun _ s' => went ahead 0 s s')).
  - apply wp_when; intros _; [|by apply went_refl; [apply _|]]. apply goes_read; [solve_safe|done].
  - intros ? s1 W1. apply wp_bind, wp_ask. eapply wp_mono; [apply next_token_loop_goes; [apply W1|unfold left_, len; lia]|].
    intros ? s2 W2. exact (went_trans ahead ahead ahead 0 0 _ _ _ transitivity W1 W2).
Qed.

(** Having fetched, the scanner is further on, or done. *)
Record fetched (s s' : scanner) : Prop := mk_fetched {
  fe_sound : sound s';
  fe_taken : s_tokens_taken s' = s_tokens_taken s;
  fe_on : s_done s' = true /\ s_possible_simple_keys s' = ∅ /\ made s' <= made s + 1 /\ left_ s' <= left_ s
    \/ s_done s' = s_done s /\ made s' <= made s + 4 /\ left_ s' < left_ s
}.

Lemma stream_end_fetched s : sound s -> wp fetch_stream_end (fun _ s' => fetched s s') s.
Proof.
  intros Hs. unfold fetch_stream_end. apply wp_bind. eapply goes_wp; [by apply keeps_unwind|done|]. intros ? s1 W1.
  apply wp_bind. eapply goes_wp; [apply keeps_remove|apply W1|]. intros ? s2 W2.
  apply wp_bind. eapply goes_wp; [apply (keeps_allow false)|apply W2|]. intros ? s3 W3.
  apply wp_bind, wp_modify, wp_bind. unfold here. apply wp_read, wp_ask, wp_bind, wp_modify, wp_modify.
  pose proof (went_trans eq eq eq 0 0 _ _ _ ltac:(congruence) W1 (went_trans eq eq eq 0 0 _ _ _ ltac:(congruence) W2 W3)) as W.
  clear W1 W2 W3. destruct W as [[Hk Hi] Ht Hd Hm Hr]. split; [split; [by cbn; intros ?? ?%lookup_empty_Some|done]|done|].
  left. do 2 (split; [done|]). unfold made, left_ in *. cbn. rewrite length_app, <- Hr. cbn. lia.
Qed.

Lemma went_fetched s s1 s2 k : went ahead 0 s s1 -> went further k s1 s2 -> k <= 4 -> fetched s s2.
Proof.
  intros W1 W2 Hk. pose proof (w_reader _ _ _ _ W1) as [? _]. pose proof (w_reader _ _ _ _ W2) as [_ ?].
  destruct W1, W2. split; [done|congruence|]. right. unfold left_. split; [congruence|]. lia.
Qed.

Lemma fetch_for_fetched s : sound s -> wp (fetch_for s) (fun _ s' => fetched s s') s.
Proof.
  intros Hs. unfold fetch_for. cbv zeta. set (c := peek_in _ 0). assert (Hc : c = peek_in (r_rest (s_reader s)) 0) by done.
  clearbody c. step1; [by apply stream_end_fetched|]. apply N.eqb_neq in E.
  assert (Hp : some_left (s_reader s)) by (apply peek_in_some; by rewrite <- Hc).
  assert (Hb : forall (m : st scanner unit) P k, k <= 4 -> begins P k m -> P (s_reader s) -> wp m (fun _ s' => fetched s s') s).
  { intros m P k Hk Hm HP. eapply wp_mono; [by apply Hm|]. intros a s' W.
    apply (went_fetched s s s' k); [by apply went_refl; [apply _|]|done|done]. }
  assert (Hb4 : forall m : st scanner unit, begins some_left 4 m -> wp m (fun _ s' => fetched s s') s).
  { intros m Hm. by apply (Hb m some_left 4). }
  step1; [apply Hb4, begins_directive|].
  do 2 (step1; [apply Hb4, begins_document|]). do 2 (step1; [apply Hb4, begins_flow_start|]).
  do 2 (step1; [apply Hb4, begins_flow_end|]). step1; [apply Hb4, begins_flow_entry|].
  step1; [apply Hb4, begins_block_entry|]. step1; [apply Hb4, begins_key|]. step1; [apply Hb4, begins_value|].
  do 2 (step1; [apply Hb4, begins_anchor|]). step1; [apply Hb4, begins_tag|]. step1; [apply Hb4, begins_block_scalar|].
  step1.
  { eapply Hb; [|apply begins_flow_scalar|]; [done|]. cbv beta. rewrite <- Hc.
    match goal with Hq : (_ || _)%bool = true |- _ => apply orb_true_iff in Hq as [Hq|Hq]; apply N.eqb_eq in Hq; rewrite Hq end; done. }
  step1; [|exact I]. eapply wp_mono; [by apply plain_fetched|]. intros ? s' W.
  apply (went_fetched s s s' 1); [by apply went_refl; [apply _|]|done|lia].
Qed.

Lemma fetched_after R s s1 s2 : (forall r r', R r r' -> ahead r r') -> went R 0 s s1 -> fetched s1 s2 -> fetched s s2.
Proof.
  intros HR [? ? ? ? Hr] [? ? Ho]. apply HR in Hr as [Hr _]. split; [done|congruence|]. unfold left_ in *.
  destruct Ho as [(? & ? & ?)|(? & ?)]; [left; split_and!; [done..|lia|lia]|right; split; [congruence|lia]].
Qed.
Lemma fetch_more_fetched s : sound s -> wp fetch_more_tokens (fun _ s' => fetched s s') s.
Proof.
  intros Hs. unfold fetch_more_tokens. apply wp_bind. eapply goes_wp; [apply goes_next_token|done|]. intros ? s1 W1.
  apply wp_bind. eapply goes_wp; [apply keeps_stale|apply W1|]. intros ? s2 W2. apply wp_bind, wp_ask, wp_bind.
  eapply goes_wp; [apply keeps_unwind; unfold column_z; lia|apply W2|]. intros ? s3 W3.
  apply wp_bind, wp_ask. unfold id. eapply wp_mono; [apply fetch_for_fetched, W3|]. intros ? s4 F.
  assert (Heq : forall r r', r = r' -> ahead r r') by by intros ?? ->.
  exact (fetched_after ahead _ _ _ (fun _ _ h => h) W1 (fetched_after eq _ _ _ Heq W2 (fetched_after eq _ _ _ Heq W3 F))).
Qed.

(** *** Filling the queue *)

Definition well (s : scanner) : Prop := sound s /\ (s_done s = true -> s_possible_simple_keys s = ∅).
(** The first token is there and will not change. *)
Definition settled (s : scanner) : Prop :=
  well s /\ (s_done s = false -> s_tokens s <> [] /\ fresh s /\ next_possible_simple_key s <> Some (s_tokens_taken s)).

Lemma fewer_well s m : well s -> m ⊆ s_possible_simple_keys s -> well (set_keys m s).
Proof.
  intros [Hs Hd] Hm. split; [apply (fewer_keys s m Hs Hm)|]. cbn. intros Hx. apply Hd in Hx. rewrite Hx in Hm.
  apply map_empty. intros i. destruct (m !! i) eqn:E; [|done]. by apply (lookup_weaken _ _ _ _ E) in Hm.
Qed.

Lemma need_more_spec s : well s ->
  wp need_more_tokens (fun b s' => exists m, s' = set_keys m s /\ well s' /\ (if b : bool then s_done s = false else settled s')) s.
Proof.
  intros Hs. unfold need_more_tokens. apply wp_bind, wp_ask. unfold id.
  assert (Hsame : exists m, s = set_keys m s /\ well s) by by exists (s_possible_simple_keys s); rewrite set_keys_same.
  destruct Hsame as (m0 & E0 & Hw).
  step1; [apply wp_ret; exists m0; split; [done|]; split; [done|]; split; [done|]; by rewrite E|].
  step1; [apply wp_ret; by exists m0|]. apply bool_decide_eq_false in E1. apply wp_bind.
  eapply wp_mono; [apply stale_spec, Hs|]. intros ? s' (m & -> & Hm & Hf). cbv beta. apply wp_bind, wp_ask, wp_ret.
  exists m. split; [done|]. pose proof (fewer_well s m Hs Hm) as Hw'. split; [done|].
  case_bool_decide as Hn; [done|]. split; [done|]. cbn. intros _. done.
Qed.

(** The need for more is no more once there is none. *)
Lemma settled_no_more s : settled s -> need_more_tokens s = Ok (false, s).
Proof.
  intros [[Hs Hk] Hn]. unfold need_more_tokens, mbind, st_bind, ask, id. destruct (s_done s); [done|].
  destruct (Hn eq_refl) as (Ht & Hf & Hp). rewrite bool_decide_false by done. rewrite stale_none by done.
  unfold mret, st_ret. by rewrite bool_decide_false.
Qed.
Lemma settled_fill n s : settled s -> fill (S n) s = Ok (tt, s).
Proof. intros Hs. cbn [fill]. unfold mbind, st_bind. by rewrite settled_no_more. Qed.

Lemma tokens_left_made s : tokens_left s = 4 * left_ s + made s + (if s_done s then 0 else 1).
Proof. unfold tokens_left, left_, made, len. lia. Qed.
Lemma fetched_left s s' : fetched s s' -> s_done s = false -> tokens_left s' <= tokens_left s.
Proof.
  intros [_ _ Ho] Hd. rewrite !tokens_left_made, Hd. destruct Ho as [(-> & _ & ? & ?)|(-> & ? & ?)]; [lia|]. rewrite Hd. lia.
Qed.
Lemma fetched_well s s' : fetched s s' -> s_done s = false -> well s'.
Proof. intros [Hs _ Ho] Hd. split; [done|]. intros Hd'. destruct Ho as [(_ & ? & _)|(E & _)]; [done|congruence]. Qed.

Lemma fill_spec fuel s : well s -> (if s_done s then 0 else S (left_ s)) < fuel ->
  wp (fill fuel) (fun _ s' => settled s' /\ s_tokens_taken s' = s_tokens_taken s /\ tokens_left s' <= tokens_left s) s.
Proof.
  revert s. induction fuel as [|fuel IH]; intros s Hs Hf; [lia|]. cbn [fill]. apply wp_bind.
  eapply wp_mono; [by apply need_more_spec|]. intros [|] s1 (m & -> & Hw & Hb); cbv beta; [|by apply wp_ret].
  apply wp_bind. eapply wp_mono; [apply fetch_more_fetched, Hw|]. intros ? s2 F. cbv beta.
  pose proof (fetched_left _ _ F Hb) as Hl. pose proof (fetched_well _ _ F Hb) as Hw2.
  rewrite Hb in Hf. eapply wp_mono; [apply IH; [done|]|].
  - destruct F as [_ _ [(-> & _)|(E & _ & ?)]]; [lia|]. rewrite E. cbn. rewrite Hb. unfold left_ in *. cbn in *. lia.
  - intros ? s3 (? & E3 & ?). split; [done|]. rewrite E3. split; [apply F|]. etrans; [done|]. exact Hl.
Qed.
Lemma filled_spec s : well s ->
  wp filled (fun _ s' => settled s' /\ s_tokens_taken s' = s_tokens_taken s /\ tokens_left s' <= tokens_left s) s.
Proof.
  intros Hs. unfold filled. apply wp_bind, wp_ask. unfold id. apply fill_spec; [done|]. unfold left_, len. destruct (s_done s); lia.
Qed.

(** A settled scanner gives its first token up. *)
Lemma foldl_min_le n l : foldl Nat.min n l <= n /\ Forall (fun x => foldl Nat.min n l <= x) l.
Proof.
  revert n. induction l as [|x l IH]; intros n; [done|]. cbn [foldl]. destruct (IH (Nat.min n x)) as [H1 H2].
  split; [lia|]. apply Forall_cons. split; [lia|done].
Qed.
Lemma foldl_min_in n l : foldl Nat.min n l ∈ n :: l.
Proof.
  revert n. induction l as [|x l IH]; intros n; [by left|]. cbn [foldl]. specialize (IH (Nat.min n x)).
  apply elem_of_cons in IH as [->|]; [destruct (Nat.min_spec n x) as [[_ ->]|[_ ->]]; set_solver|set_solver].
Qed.
Lemma later_keys s : sound s -> next_possible_simple_key s <> Some (s_tokens_taken s) ->
  forall l key, s_possible_simple_keys s !! l = Some key -> s_tokens_taken s < k_token_number key.
Proof.
  intros [Hk _] Hn l key El. unfold next_possible_simple_key in Hn.
  assert (Hin : forall x, x ∈ k_token_number <$> btree_values (s_possible_simple_keys s) -> s_tokens_taken s <= x).
  { intros x (key' & -> & ([l' key''] & -> & Hx)%list_elem_of_fmap)%list_elem_of_fmap. apply elem_of_btree_to_list in Hx.
    by apply (Hk l'). }
  assert (Hkey : k_token_number key ∈ k_token_number <$> btree_values (s_possible_simple_keys s)).
  { apply list_elem_of_fmap_2, (list_elem_of_fmap_2 snd _ (l, key)), elem_of_btree_to_list, El. }
  destruct (_ <$> _) as [|n ns]; [by apply not_elem_of_nil in Hkey|].
  destruct (foldl_min_le n ns) as [H1 H2]. pose proof (foldl_min_in n ns) as H3. apply Hin in H3.
  assert (foldl Nat.min n ns <= k_token_number key) by (apply elem_of_cons in Hkey as [->|Hkey]; [done|by eapply Forall_forall in H2]).
  assert (foldl Nat.min n ns <> s_tokens_taken s) by congruence. lia.
Qed.
Lemma settled_get s t ts : settled s -> s_tokens s = t :: ts ->
  well (set_tokens_taken (S (s_tokens_taken s)) (set_tokens ts s)) /\
  tokens_left (set_tokens_taken (S (s_tokens_taken s)) (set_tokens ts s)) + 1 = tokens_left s.
Proof.
  intros [[[Hk Hi] Hd] Hn] Et. split.
  - split; [split; [|done]|done]. cbn. intros l key El. pose proof (Hk _ _ El) as Hr. rewrite Et in Hr. cbn in Hr.
    destruct (s_done s) eqn:Ed; [by rewrite Hd in El|]. destruct (Hn eq_refl) as (_ & _ & Hp).
    pose proof (later_keys s (mk_sound _ Hk Hi) Hp _ _ El). lia.
  - unfold tokens_left. cbn. rewrite Et. cbn. lia.
Qed.

Lemma peek_token_spec s : well s ->
  wp peek_token (fun t s' => settled s' /\ tokens_left s' <= tokens_left s /\ t = head (s_tokens s')) s.
Proof.
  intros Hs. unfold peek_token. apply wp_bind. eapply wp_mono; [by apply filled_spec|]. intros ? s' (? & _ & ?). by apply wp_ask.
Qed.
Lemma get_token_settled s t ts : settled s -> s_tokens s = t :: ts ->
  get_token s = Ok (t, set_tokens_taken (S (s_tokens_taken s)) (set_tokens ts s)).
Proof.
  intros Hs Et. unfold get_token, filled, mbind, st_bind, ask, id. rewrite settled_fill by done. by rewrite Et.
Qed.
Lemma get_token_spec s : well s -> wp get_token (fun _ s' => well s' /\ tokens_left s' + 1 <= tokens_left s) s.
Proof.
  intros Hs. unfold get_token. apply wp_bind. eapply wp_mono; [by apply filled_spec|]. intros ? s1 (H1 & _ & H2).
  cbv beta. apply wp_bind, wp_ask. unfold id. destruct (s_tokens s1) as [|t ts] eqn:Et; [done|].
  apply wp_bind, wp_modify, wp_ret. destruct (settled_get _ _ _ H1 Et). split; [done|lia].
Qed.
End Scans.
