(* ===== verification/PyyamlEvents.v ===== *)
(** [src/pyyaml.rs]: the laws of the parser. Its events are nested as their
    reader needs, and there are no more of them than a multiple of the text. *)

From S2P Require Import Prelude Slices Order Num Utf8 Pyyaml PyyamlLaws.

Section Events.
Context `{Debug}.

(** ** Nesting

    What is open while events are read: a sequence, a mapping that wants a key
    or a value, a document before or after its node. *)
Inductive frame := FStart | FStream | FOpen | FClosed | FSeq | FKey | FValue.

(** A node, in what is open. *)
Definition node (fs : list frame) : option (list frame) :=
  match fs with
  | FOpen :: r => Some (FClosed :: r)
  | FSeq :: r => Some (FSeq :: r)
  | FKey :: r => Some (FValue :: r)
  | FValue :: r => Some (FKey :: r)
  | _ => None
  end.
Definition accept (fs : list frame) (ev : Event) : option (list frame) :=
  match ev, fs with
  | StreamStart, [FStart] => Some [FStream]
  | StreamEnd, [FStream] => Some []
  | DocumentStart, [FStream] => Some [FOpen; FStream]
  | DocumentEnd, [FClosed; FStream] => Some [FStream]
  | Alias _, _ | Scalar _ _ _ _, _ => node fs
  | SequenceStart _ _, _ => cons FSeq <$> node fs
  | MappingStart _ _, _ => cons FKey <$> node fs
  | SequenceEnd, FSeq :: r => Some r
  | MappingEnd, FKey :: r => Some r
  | _, _ => None
  end.
Fixpoint accepts (fs : list frame) (evs : list Event) : option (list frame) :=
  match evs with [] => Some fs | ev :: evs => fs ← accept fs ev; accepts fs evs end.
(** A whole stream: its start, its documents of one node each, its end. *)
Definition nested (evs : list Event) : Prop := accepts [FStart] evs = Some [].

(** What is open in a state, over what the states to return to have open. *)
Definition opened (x : State) : list frame :=
  match x with
  | SStreamStart => [FStart]
  | SImplicitDocumentStart | SDocumentStart => [FStream]
  | SDocumentEnd => [FClosed; FStream]
  | SDocumentContent | SBlockNode => []
  | SBlockSequenceFirstEntry | SBlockSequenceEntry | SIndentlessSequenceEntry
  | SFlowSequenceFirstEntry | SFlowSequenceEntry => [FSeq]
  | SBlockMappingFirstKey | SBlockMappingKey | SFlowMappingFirstKey | SFlowMappingKey => [FKey]
  | SBlockMappingValue | SFlowMappingValue | SFlowMappingEmptyValue => [FValue]
  | SFlowSequenceEntryMappingKey | SFlowSequenceEntryMappingEnd => [FKey; FSeq]
  | SFlowSequenceEntryMappingValue => [FValue; FSeq]
  end.
Definition frames (states : list State) : list frame := states ≫= opened.
Inductive place := Outside | Pending | Inside.
Definition place_of (x : State) : place :=
  match x with
  | SStreamStart | SImplicitDocumentStart | SDocumentStart | SDocumentEnd => Outside
  | SDocumentContent | SBlockNode => Pending
  | _ => Inside
  end.
(** The states to return to within a document, which ends the last. *)
Definition returns (states : list State) : Prop :=
  exists l, states = l ++ [SDocumentEnd] /\ Forall (fun x => place_of x = Inside) l.
(** The parser stands where [fs] is open. *)
Definition stands (p : parser) (fs : list frame) : Prop :=
  match p_state p with
  | None => fs = []
  | Some x => match place_of x with
    | Outside => p_states p = [] /\ fs = opened x
    | Pending => returns (p_states p) /\ node fs = Some (frames (p_states p))
    | Inside => returns (p_states p) /\ fs = opened x ++ frames (p_states p)
    end
  end.

(** ** The measure of a parser *)

Definition weight (x : State) : nat :=
  match x with
  | SImplicitDocumentStart => 5
  | SFlowSequenceEntryMappingValue => 3
  | SDocumentEnd | SDocumentContent | SBlockNode | SBlockMappingValue | SFlowSequenceEntryMappingEnd
  | SFlowMappingValue | SFlowMappingEmptyValue => 2
  | _ => 1
  end.
Definition base (p : parser) : nat := 8 * tokens_left (p_scanner p) + sum_list (weight <$> p_states p).
(** More than the events still to come. *)
Definition measure (p : parser) : nat := base p + match p_state p with Some x => weight x | None => 0 end.

(** What an operation promises that touches neither the state nor the states to
    return to: [n] tokens are gone. *)
Record calm (n : nat) (p p' : parser) : Prop := mk_calm {
  ca_well : well (p_scanner p');
  ca_tokens : tokens_left (p_scanner p') + n <= tokens_left (p_scanner p);
  ca_states : p_states p' = p_states p;
  ca_state : p_state p' = p_state p
}.
Lemma calm_refl p : well (p_scanner p) -> calm 0 p p.
Proof. intros. split; try done; lia. Qed.
Lemma calm_trans a b p1 p2 p3 : calm a p1 p2 -> calm b p2 p3 -> calm (a + b) p1 p3.
Proof. intros [] []. split; try done; [lia|congruence..]. Qed.
Lemma calm_le a b p p' : calm a p p' -> b <= a -> calm b p p'.
Proof. intros [] ?. split; try done; lia. Qed.
Lemma calm_set_scanner p s : well s -> tokens_left s <= tokens_left (p_scanner p) -> calm 0 p (set_scanner s p).
Proof. intros Hw Hl. split; [done| |done..]. by rewrite Nat.add_0_r. Qed.

Definition head_is (kinds : bytes) (s : scanner) : bool :=
  match head (s_tokens s) with Some t => is_kind (t_tok t) kinds | None => false end.
Lemma check_spec kinds p (Q : bool -> parser -> Prop) : well (p_scanner p) ->
  (forall p', calm 0 p p' -> settled (p_scanner p') -> Q (head_is kinds (p_scanner p')) p') -> wp (check kinds) Q p.
Proof.
  intros Hw HQ. unfold check. apply wp_bind, wp_zoom. eapply wp_mono; [by apply peek_token_spec|].
  intros t s' (H1 & H2 & ->). cbv beta. apply wp_ret. apply (HQ (set_scanner s' p)); [|done].
  apply calm_set_scanner; [apply H1|done].
Qed.
Lemma take_token_spec p (Q : Token -> parser -> Prop) : well (p_scanner p) ->
  (forall t p', calm 1 p p' -> Q t p') -> wp take_token Q p.
Proof.
  intros Hw HQ. apply wp_zoom. eapply wp_mono; [by apply get_token_spec|]. intros t s' [H1 H2]. cbv beta. apply HQ. by split.
Qed.
(** The token taken after a check is the one checked. *)
Lemma take_checked kinds p (Q : Token -> parser -> Prop) : settled (p_scanner p) -> head_is kinds (p_scanner p) = true ->
  (forall t p', is_kind (t_tok t) kinds = true -> calm 1 p p' -> Q t p') -> wp take_token Q p.
Proof.
  intros Hs Hh HQ. unfold take_token, scan. apply wp_zoom. unfold head_is in Hh. destruct (s_tokens (p_scanner p)) as [|t ts] eqn:Et; [done|].
  unfold wp. rewrite (get_token_settled _ t ts) by done. cbn in Hh. apply HQ; [done|].
  destruct (settled_get _ _ _ Hs Et) as [? Hl]. split; [done| |done..]. by apply Nat.eq_le_incl.
Qed.
Lemma peek_mark_spec p (Q : Mark -> parser -> Prop) : well (p_scanner p) ->
  (forall m p', calm 0 p p' -> Q m p') -> wp peek_mark Q p.
Proof.
  intros Hw HQ. unfold peek_mark. apply wp_bind, wp_zoom. eapply wp_mono; [by apply peek_token_spec|].
  intros t s' (H1 & H2 & _). cbv beta. apply wp_ret, HQ, calm_set_scanner; [apply H1|done].
Qed.
Lemma unexpected_spec {A} c e p (Q : A -> parser -> Prop) : well (p_scanner p) -> wp (unexpected c e) Q p.
Proof.
  intros Hw. unfold unexpected, peek_kind. apply wp_bind, wp_bind, wp_zoom. eapply wp_mono; [by apply peek_token_spec|].
  intros t s' (H1 & H2 & _). cbv beta. apply wp_ret, wp_bind, peek_mark_spec; [apply H1|done].
Qed.

Lemma calm_handles p m : well (p_scanner p) -> calm 0 p (set_handles m p).
Proof. intros. split; [done| |done..]. by rewrite Nat.add_0_r. Qed.

(** The parser's tokens, followed from [p0] as [calm] counts them. *)
Ltac merge C :=
  match type of C with
  | calm ?b ?p ?p' =>
      match goal with
      | C0 : calm ?a ?p0 p |- _ => let X := fresh "C" in pose proof (calm_trans a b p0 p p' C0 C) as X; clear C; clear C0; cbn [Nat.add] in X
      end
  end.
Ltac is_well := match goal with C : calm _ _ ?p |- well (p_scanner ?p) => exact (ca_well _ _ _ C) end.
Ltac pstep :=
  match goal with
  | |- wp (mbind _ _) _ _ => apply wp_bind
  | |- wp (mret _) _ _ => apply wp_ret
  | |- wp (ask _) _ _ => apply wp_ask
  | |- wp (err _ _ _) _ _ => exact I
  | |- wp (stop (Raised _)) _ _ => exact I
  | |- wp (check _) _ _ => let p := fresh "p" in let C := fresh "C" in let T := fresh "T" in
      apply check_spec; [is_well|intros p C T; merge C]
  | |- wp take_token _ _ => let p := fresh "p" in let C := fresh "C" in let t := fresh "t" in
      apply take_token_spec; [is_well|intros t p C; merge C]
  | |- wp peek_mark _ _ => let p := fresh "p" in let C := fresh "C" in let m := fresh "m" in
      apply peek_mark_spec; [is_well|intros m p C; merge C]
  | |- wp (modify (set_handles ?m)) _ ?p => apply wp_modify;
      let X := fresh "C" in assert (X : calm 0 p (set_handles m p)) by (apply calm_handles; is_well); merge X;
      generalize dependent (set_handles m p); let q := fresh "p" in intros q ?
  | |- wp (unexpected _ _) _ _ => apply unexpected_spec; is_well
  | |- wp (if ?b then _ else _) _ _ => let E := fresh "E" in destruct b eqn:E
  | |- wp (match ?x with _ => _ end) _ _ => let E := fresh "E" in destruct x eqn:E
  end.
Ltac psteps := repeat (pstep; cbv beta iota zeta).
Ltac count_tokens := match goal with C : calm _ _ ?p |- context [tokens_left (p_scanner ?p)] => pose proof (ca_tokens _ _ _ C); lia end.
(** From a call of [m] at [p]: what it promises there is [calm]. *)
Ltac call lem := eapply wp_mono; [apply lem|]; [..|let a := fresh "a" in let p := fresh "p" in let C := fresh "C" in intros a p C; cbv beta in C; merge C].

Lemma handle_directive_calm t v p : well (p_scanner p) -> wp (handle_directive t v) (fun _ p' => calm 0 p p') p.
Proof. intros Hw%calm_refl. unfold handle_directive. psteps; done. Qed.
Lemma directives_loop_calm fuel v p : well (p_scanner p) -> tokens_left (p_scanner p) < fuel ->
  wp (directives_loop fuel v) (fun _ p' => calm 0 p p') p.
Proof.
  revert v p. induction fuel as [|fuel IH]; intros v p Hw%calm_refl Hf; [lia|]. cbn [directives_loop]. psteps; [|done].
  call handle_directive_calm; [is_well|].
  eapply wp_mono; [apply IH; [is_well|count_tokens]|].
  intros ? p3 C'. cbv beta in C'. merge C'. eapply calm_le; [done|lia].
Qed.
Lemma document_ends_calm fuel p : well (p_scanner p) -> tokens_left (p_scanner p) < fuel ->
  wp (document_ends fuel) (fun _ p' => calm 0 p p') p.
Proof.
  revert p. induction fuel as [|fuel IH]; intros p Hw%calm_refl Hf; [lia|]. cbn [document_ends]. psteps; [|done].
  eapply wp_mono; [apply IH; [is_well|count_tokens]|].
  intros ? p3 C'. cbv beta in C'. merge C'. eapply calm_le; [done|lia].
Qed.
Lemma process_directives_calm p : well (p_scanner p) -> wp process_directives (fun _ p' => calm 0 p p') p.
Proof.
  intros Hw%calm_refl. unfold process_directives, token_fuel. psteps.
  call directives_loop_calm; [is_well|lia|].
  apply wp_modify. match goal with |- calm 0 _ (set_handles ?m ?q) => assert (X : calm 0 q (set_handles m q)) by (apply calm_handles; is_well) end.
  by merge X.
Qed.

Lemma properties_calm p : well (p_scanner p) -> wp properties (fun _ p' => calm 0 p p') p.
Proof. intros Hw%calm_refl. unfold properties, take_anchor, take_tag. psteps; (eapply calm_le; [done|lia]). Qed.
Lemma resolve_tag_calm t m p : well (p_scanner p) -> wp (resolve_tag t m) (fun _ p' => calm 0 p p') p.
Proof. intros Hw%calm_refl. unfold resolve_tag. psteps; done. Qed.

(** *** Nodes *)

(** [p'] has given [ev], [fs] being open, at a cost of all but [k]. *)
Record read_on (k : nat) (p : parser) (fs : list frame) (ev : Event) (p' : parser) : Prop := mk_read_on {
  nr_well : well (p_scanner p');
  nr_measure : measure p' <= base p + k;
  nr_stands : exists fs', accept fs ev = Some fs' /\ stands p' fs'
}.
Abbreviation node_read := (read_on 1).

Lemma calm_base n p p' : calm n p p' -> base p' + 8 * n <= base p.
Proof. intros [_ Ht Es _]. unfold base. rewrite Es. lia. Qed.
Lemma returns_cons x l : returns (x :: l) -> x = SDocumentEnd /\ l = [] \/ place_of x = Inside /\ returns l.
Proof.
  intros ([|y l'] & E & Hf); injection E as -> ->; [by left|]. apply Forall_cons in Hf as [? ?]. right. split; [done|by exists l'].
Qed.
Lemma returns_push x l : place_of x = Inside -> returns l -> returns (x :: l).
Proof. intros Hx (l' & -> & Hf). exists (x :: l'). split; [done|]. by constructor. Qed.

(** Back to the last state pushed. *)
Lemma pop_spec fs p (Q : unit -> parser -> Prop) : well (p_scanner p) -> returns (p_states p) -> fs = frames (p_states p) ->
  (forall p', well (p_scanner p') -> measure p' <= base p -> stands p' fs -> Q tt p') -> wp pop_state Q p.
Proof.
  intros Hw Hr -> HQ. unfold wp, pop_state. destruct (p_states p) as [|x l] eqn:El; [by destruct Hr as ([] & [=] & _)|].
  apply HQ; [done|unfold measure, base; cbn; rewrite El; cbn; lia|]. unfold stands. cbn.
  destruct (returns_cons x l Hr) as [[-> ->]|[-> Hl]]; [done|]. by split.
Qed.
(** On to the first entry of a collection. *)
Lemma goto_start x f fs p (ev : Event) : place_of x = Inside -> opened x = [f] -> weight x = 1 ->
  accept fs ev = cons f <$> node fs ->
  well (p_scanner p) -> returns (p_states p) -> node fs = Some (frames (p_states p)) ->
  node_read p fs ev (set_state (Some x) p).
Proof.
  intros Hx Ho Hk Ha Hw Hr Hn. split; [done|unfold measure, base; cbn; lia|]. eexists. rewrite Ha, Hn. split; [done|].
  unfold stands. cbn. rewrite Hx, Ho. by split.
Qed.
Lemma read_on_calm n k j p p' fs ev q : calm n p p' -> k <= j + 8 * n -> read_on k p' fs ev q -> read_on j p fs ev q.
Proof. intros C%calm_base ? [Hw Hm Hs]. split; [done|lia|done]. Qed.
Lemma node_read_calm n p p' fs ev q : calm n p p' -> node_read p' fs ev q -> node_read p fs ev q.
Proof. intros C. apply (read_on_calm n); [done|lia]. Qed.

Lemma kind_scalar t : is_kind t #"scalar" = true -> exists v b, t = TScalar v b.
Proof. destruct t; try (vm_compute; discriminate). by eexists _, _. Qed.
Lemma kind_alias t : is_kind t #"alias" = true -> exists a, t = TAlias a.
Proof. destruct t; try (vm_compute; discriminate). by eexists. Qed.

Ltac count_base := match goal with C : calm _ _ ?p |- _ => pose proof (calm_base _ _ _ C) end.
Lemma wp_if_check (b : bool) kinds p (Q : bool -> parser -> Prop) : well (p_scanner p) ->
  (forall c p', calm 0 p p' -> Q c p') -> wp (if b then check kinds else mret false) Q p.
Proof. intros Hw HQ. destruct b; [apply check_spec; [done|]; intros; by apply HQ|by apply wp_ret, HQ, calm_refl]. Qed.

Lemma parse_content_spec b i a t fs p : well (p_scanner p) -> returns (p_states p) -> node fs = Some (frames (p_states p)) ->
  wp (parse_content b i a t) (node_read p fs) p.
Proof.
  intros Hw Hr Hn. unfold parse_content.
  assert (Hstart : forall n q x f ev, calm n p q -> place_of x = Inside -> opened x = [f] -> weight x = 1 ->
    accept fs ev = cons f <$> node fs -> wp (goto x;; mret ev) (node_read p fs) q).
  { intros n q x f ev C Hx Ho Hk Ha. apply wp_bind, wp_modify, wp_ret, (node_read_calm n p q); [done|].
    apply (goto_start x f); try done; [apply (ca_well _ _ _ C)|by rewrite (ca_states _ _ _ C)..]. }
  assert (Hscalar : forall n q im v, calm n p q -> wp (pop_state;; mret (Scalar a t im v)) (node_read p fs) q).
  { intros n q im v C. apply wp_bind, (pop_spec (frames (p_states q))); [apply (ca_well _ _ _ C)|by rewrite (ca_states _ _ _ C)|done|].
    intros p' Hw' Hm Hs. apply wp_ret. pose proof (calm_base _ _ _ C). split; [done|lia|]. eexists. split; [exact Hn|].
    by rewrite <- (ca_states _ _ _ C). }
  assert (C := calm_refl p Hw). apply wp_bind, wp_if_check; [done|]. intros entry p1 K1. merge K1. cbv beta. pstep; [by eapply Hstart|].
  do 2 pstep. pstep.
  { apply wp_bind, (take_checked #"scalar"); [done..|]. intros tok p3 (v & plain & Et)%kind_scalar K3. merge K3. rewrite Et. by eapply Hscalar. }
  do 2 pstep. pstep; [by eapply Hstart|]. do 2 pstep. pstep; [by eapply Hstart|].
  apply wp_bind, wp_if_check; [is_well|]. intros bs p4 K4. merge K4. cbv beta. pstep; [by eapply Hstart|].
  apply wp_bind, wp_if_check; [is_well|]. intros bm p5 K5. merge K5. cbv beta. pstep; [by eapply Hstart|].
  pstep; [by eapply Hscalar|]. pstep.
Qed.
Lemma parse_node_spec b i fs p : well (p_scanner p) -> returns (p_states p) -> node fs = Some (frames (p_states p)) ->
  wp (parse_node b i) (node_read p fs) p.
Proof.
  intros Hw Hr Hn. unfold parse_node. assert (C := calm_refl p Hw). do 2 pstep. pstep.
  - apply wp_bind, (take_checked #"alias"); [done..|]. intros t p1 (a & Et)%kind_alias K1. merge K1. rewrite Et.
    apply wp_bind, (pop_spec (frames (p_states p1))); [is_well|by erewrite ca_states by done|done|].
    intros p' Hw' Hm Hs. apply wp_ret. count_base. split; [done|lia|]. eexists. split; [exact Hn|].
    by erewrite <- ca_states by done.
  - pstep. call properties_calm; [is_well|]. destruct a as [[anchor tag] start]. pstep. call resolve_tag_calm; [is_well|].
    eapply wp_mono; [apply parse_content_spec; [is_well|by erewrite ca_states by done..]|]. intros ev q Hq. by eapply node_read_calm.
Qed.

(** *** States *)

Definition stands_at (x : State) (states : list State) (fs : list frame) : Prop :=
  match place_of x with
  | Outside => states = [] /\ fs = opened x
  | Pending => returns states /\ node fs = Some (frames states)
  | Inside => returns states /\ fs = opened x ++ frames states
  end.
Lemma stands_here x p fs : stands_at x (p_states p) fs -> stands (set_state (Some x) p) fs.
Proof. done. Qed.

Lemma push_base x p : base (set_states (x :: p_states p) p) = base p + weight x.
Proof. unfold base. cbn. lia. Qed.
(** An empty node, on to [next]. *)
Lemma nothing_spec next fs p : well (p_scanner p) -> returns (p_states p) -> place_of next = Inside ->
  node fs = Some (opened next ++ frames (p_states p)) -> wp (nothing next) (read_on (weight next) p fs) p.
Proof.
  intros Hw Hr Hp Hn. apply wp_bind, wp_modify, wp_ret. split; [done|done|]. eexists. split; [exact Hn|].
  apply stands_here. unfold stands_at. by rewrite Hp.
Qed.
Lemma pushed_node next b i fs p : well (p_scanner p) -> returns (p_states p) -> place_of next = Inside ->
  node fs = Some (opened next ++ frames (p_states p)) ->
  wp (push_state next;; parse_node b i) (read_on (S (weight next)) p fs) p.
Proof.
  intros Hw Hr Hp Hn. apply wp_bind, wp_modify. set (q := set_states _ p).
  eapply wp_mono; [apply (parse_node_spec b i fs q); [done|by apply returns_push|done]|].
  intros ev p' [H1 H2 H3]. split; [done| |done]. unfold q in H2. rewrite push_base in H2. lia.
Qed.
Lemma node_or_spec ends next otherwise b i fs p : well (p_scanner p) -> returns (p_states p) ->
  place_of next = Inside -> place_of otherwise = Inside -> opened otherwise = opened next -> weight otherwise <= S (weight next) ->
  node fs = Some (opened next ++ frames (p_states p)) ->
  wp (node_or ends next otherwise b i) (read_on (S (weight next)) p fs) p.
Proof.
  intros Hw Hr Hp Hq Ho Hk Hn. unfold node_or. assert (C := calm_refl p Hw). do 2 pstep. pstep.
  - eapply wp_mono; [apply nothing_spec; [is_well|by erewrite ca_states by done|done|by erewrite Ho, ca_states by done]|].
    intros ev q. by apply (read_on_calm 0); [|lia].
  - eapply wp_mono; [apply pushed_node; [is_well|by erewrite ca_states by done|done|by erewrite ca_states by done]|].
    intros ev q. by apply (read_on_calm 0); [|lia].
Qed.
Lemma end_spec ev fs fs' p : well (p_scanner p) -> returns (p_states p) -> accept fs ev = Some fs' -> fs' = frames (p_states p) ->
  wp (end_collection ev) (read_on 0 p fs) p.
Proof.
  intros Hw Hr Ha Hf. unfold end_collection. assert (C := calm_refl p Hw). do 2 pstep.
  apply wp_bind, (pop_spec fs'); [is_well|by erewrite ca_states by done|by erewrite ca_states by done|].
  intros p' H1 H2 H3. apply wp_ret. count_base. split; [done|lia|]. by eexists.
Qed.

Ltac well_of := match goal with C : calm _ _ _ |- _ => exact (ca_well _ _ _ C) end.
Ltac states_of := solve [is_well | match goal with C : calm _ _ ?p |- context [p_states ?p] => by rewrite (ca_states _ _ _ C) end | done].
(** The rest of a step, from where its tokens have been taken. *)
Lemma read_on_after n k j m p q fs : calm n p q -> wp m (read_on k q fs) q -> k <= j + 8 * n -> wp m (read_on j p fs) q.
Proof. intros C Hm Hk. eapply wp_mono; [exact Hm|]. intros ev r. by apply (read_on_calm n). Qed.
Ltac rest_by lem := eapply read_on_after; [done|eapply lem; first [states_of|cbn; lia]|repeat case_match; cbn; lia].

Lemma value_or_spec ends next b i fs p : well (p_scanner p) -> returns (p_states p) -> place_of next = Inside ->
  node fs = Some (opened next ++ frames (p_states p)) -> wp (value_or ends next b i) (read_on (weight next) p fs) p.
Proof.
  intros Hw Hr Hp Hn. unfold value_or. assert (C := calm_refl p Hw). do 2 pstep. pstep.
  - do 2 pstep. rest_by node_or_spec.
  - rest_by nothing_spec.
Qed.
Lemma block_sequence_entry_spec fs p : well (p_scanner p) -> returns (p_states p) -> fs = FSeq :: frames (p_states p) ->
  wp block_sequence_entry (read_on 0 p fs) p.
Proof.
  intros Hw Hr ->. unfold block_sequence_entry. assert (C := calm_refl p Hw). do 2 pstep. pstep.
  - do 2 pstep. rest_by node_or_spec.
  - do 2 pstep. pstep; [rest_by end_spec|pstep].
Qed.
Lemma block_mapping_key_spec fs p : well (p_scanner p) -> returns (p_states p) -> fs = FKey :: frames (p_states p) ->
  wp block_mapping_key (read_on 0 p fs) p.
Proof.
  intros Hw Hr ->. unfold block_mapping_key. assert (C := calm_refl p Hw). do 2 pstep. pstep.
  - do 2 pstep. rest_by node_or_spec.
  - do 2 pstep. pstep; [rest_by end_spec|pstep].
Qed.

Lemma separator_spec first c e p : well (p_scanner p) -> wp (separator first c e) (fun _ p' => calm (if first then 0 else 1) p p') p.
Proof. intros Hw%calm_refl. unfold separator. destruct first; psteps; done. Qed.
Lemma goto_inside x k fs ev fs' p : well (p_scanner p) -> returns (p_states p) -> place_of x = Inside -> weight x <= k ->
  accept fs ev = Some fs' -> fs' = opened x ++ frames (p_states p) -> wp (goto x;; mret ev) (read_on k p fs) p.
Proof.
  intros Hw Hr Hp Hk Ha Hf. apply wp_bind, wp_modify, wp_ret. split; [done|unfold measure, base; cbn; lia|].
  eexists. split; [done|]. apply stands_here. unfold stands_at. by rewrite Hp.
Qed.
Lemma flow_sequence_entry_spec first fs p : well (p_scanner p) -> returns (p_states p) -> fs = FSeq :: frames (p_states p) ->
  wp (flow_sequence_entry first) (read_on (if first then 2 else 0) p fs) p.
Proof.
  intros Hw Hr ->. unfold flow_sequence_entry. assert (C := calm_refl p Hw). do 2 pstep. pstep; [rest_by end_spec|].
  pstep. call separator_spec; [is_well|]. do 2 pstep. pstep.
  - rest_by goto_inside.
  - do 2 pstep. pstep.
    + rest_by end_spec.
    + rest_by pushed_node.
Qed.
Lemma flow_mapping_key_spec first fs p : well (p_scanner p) -> returns (p_states p) -> fs = FKey :: frames (p_states p) ->
  wp (flow_mapping_key first) (read_on (if first then 3 else 0) p fs) p.
Proof.
  intros Hw Hr ->. unfold flow_mapping_key. assert (C := calm_refl p Hw). do 2 pstep. pstep; [rest_by end_spec|].
  pstep. call separator_spec; [is_well|]. do 2 pstep. pstep.
  - do 2 pstep. rest_by node_or_spec.
  - do 2 pstep. pstep.
    + rest_by end_spec.
    + rest_by pushed_node.
Qed.

Lemma document_start_spec p : well (p_scanner p) -> p_states p = [] -> wp document_start (read_on 0 p [FStream]) p.
Proof.
  intros Hw Hs. unfold document_start, token_fuel. assert (C := calm_refl p Hw). do 3 pstep.
  call document_ends_calm; [is_well|lia|]. do 2 pstep. pstep.
  - do 3 pstep. apply wp_modify, wp_ret. count_base.
    assert (Hp : forall q, p_states (set_state None q) = p_states q) by done.
    split; [well_of|unfold measure, base in *; cbn in *; lia|by exists []].
  - pstep. call process_directives_calm; [is_well|]. do 2 pstep. pstep; [|pstep].
    do 2 pstep. apply wp_bind, wp_modify, wp_bind, wp_modify, wp_ret. count_base.
    assert (Es : forall n q, calm n p q -> p_states q = []) by by intros n q Cq; rewrite (ca_states _ _ _ Cq).
    split; [well_of|unfold measure, base in *; cbn in *; lia|]. eexists. split; [done|].
    unfold stands. cbn. erewrite Es by done. split; [by exists []|done].
Qed.

#[local] Arguments tokens_left : simpl never.
#[local] Arguments base : simpl never.
#[local] Arguments measure : simpl never.

Lemma step_outside x fs p : well (p_scanner p) -> place_of x = Outside -> p_states p = [] -> fs = opened x ->
  wp (step x) (read_on (weight x - 1) p fs) p.
Proof.
  intros Hw Hp Hs ->. assert (C := calm_refl p Hw).
  assert (Es : forall n q, calm n p q -> p_states q = []) by (by intros n q Cq; rewrite (ca_states _ _ _ Cq)).
  destruct x; try done; cbn [step opened].
  - do 2 pstep. apply wp_bind, wp_modify, wp_ret. count_base. split; [well_of|unfold measure, base in *; cbn in *; lia|].
    eexists. split; [done|]. unfold stands. cbn. by erewrite Es by done.
  - do 2 pstep. pstep; [rest_by document_start_spec|]. do 2 pstep.
    apply wp_bind, wp_modify, wp_bind, wp_modify, wp_ret. count_base. split; [well_of|unfold measure, base in *; cbn in *; lia|].
    eexists. split; [done|]. unfold stands. cbn. erewrite Es by done. split; [by exists []|done].
  - rest_by document_start_spec.
  - do 2 pstep. apply wp_bind. eapply (wp_mono _ (fun _ q => calm 0 p q)).
    { psteps; [eapply calm_le; [done|lia]|done]. }
    intros ? q Cq. cbv beta in *. apply wp_bind, wp_modify, wp_ret. pose proof (calm_base _ _ _ Cq).
    split; [apply Cq|unfold measure, base in *; cbn in *; lia|]. eexists. split; [done|]. unfold stands. cbn. by rewrite (Es _ _ Cq).
Qed.
Lemma step_pending x fs p : well (p_scanner p) -> place_of x = Pending -> returns (p_states p) -> node fs = Some (frames (p_states p)) ->
  wp (step x) (read_on (weight x - 1) p fs) p.
Proof.
  intros Hw Hp Hr Hn. destruct x; try done; cbn [step]; [|by apply parse_node_spec].
  assert (C := calm_refl p Hw). do 2 pstep. pstep; [|rest_by parse_node_spec].
  apply wp_bind, (pop_spec (frames (p_states p))); [is_well|states_of|states_of|].
  intros q H1 H2 H3. apply wp_ret. count_base. split; [done|cbn; lia|]. by eexists.
Qed.
Lemma step_inside x fs p : well (p_scanner p) -> place_of x = Inside -> returns (p_states p) -> fs = opened x ++ frames (p_states p) ->
  wp (step x) (read_on (weight x - 1) p fs) p.
Proof.
  intros Hw Hp Hr ->. assert (C := calm_refl p Hw). destruct x; try done; cbn [step].
  - do 2 pstep. rest_by block_sequence_entry_spec.
  - rest_by block_sequence_entry_spec.
  - do 2 pstep. pstep; [do 2 pstep; rest_by node_or_spec|].
    apply wp_bind, (pop_spec (frames (p_states p))); [is_well|states_of|states_of|].
    intros q H1 H2 H3. apply wp_ret. count_base. split; [done|cbn; lia|]. by eexists.
  - do 2 pstep. rest_by block_mapping_key_spec.
  - rest_by block_mapping_key_spec.
  - rest_by value_or_spec.
  - do 2 pstep. rest_by flow_sequence_entry_spec.
  - rest_by flow_sequence_entry_spec.
  - do 2 pstep. rest_by node_or_spec.
  - rest_by value_or_spec.
  - rest_by goto_inside.
  - do 2 pstep. rest_by flow_mapping_key_spec.
  - rest_by flow_mapping_key_spec.
  - rest_by value_or_spec.
  - rest_by nothing_spec.
Qed.
Lemma step_spec x fs p : well (p_scanner p) -> stands_at x (p_states p) fs -> wp (step x) (read_on (weight x - 1) p fs) p.
Proof.
  unfold stands_at. destruct (place_of x) eqn:Hp; intros Hw [H1 H2]; [by apply step_outside|by apply step_pending|by apply step_inside].
Qed.

(** One event: the parser stays sound, its measure falls, the event is one that
    may come where [fs] is open. *)
Lemma next_event_spec p fs : well (p_scanner p) -> stands p fs ->
  match next_event p with
  | None => fs = []
  | Some (Ok (ev, p')) => well (p_scanner p') /\ measure p' < measure p /\ exists fs', accept fs ev = Some fs' /\ stands p' fs'
  | Some (Err (Raised _)) => True
  | Some (Err _) => False
  end.
Proof.
  intros Hw Hs. unfold next_event, stands in *. destruct (p_state p) as [x|] eqn:Ex; [|done]. cbn [mbind option_bind].
  pose proof (step_spec x fs (set_state None p) Hw Hs) as Hx. unfold wp in Hx.
  destruct (step x (set_state None p)) as [[ev p']|[]]; [|done..]. destruct Hx as [H1 H2 H3].
  split; [done|]. split; [|done]. unfold measure at 2. rewrite Ex. change (base (set_state None p)) with (base p) in H2.
  assert (0 < weight x) by (destruct x; cbn; lia). lia.
Qed.

(** Every event the parser gives, as an iterator is drained. *)
Fixpoint drain (fuel : nat) (p : parser) : result fault (list Event) :=
  match fuel with
  | O => Err Spent
  | S fuel =>
      match next_event p with
      | None => Ok []
      | Some (Err e) => Err e
      | Some (Ok (ev, p)) => evs ← drain fuel p; Ok (ev :: evs)
      end
  end.
Lemma drain_spec fuel p fs : well (p_scanner p) -> stands p fs -> measure p < fuel ->
  match drain fuel p with
  | Ok evs => accepts fs evs = Some [] /\ length evs <= measure p
  | Err (Raised _) => True
  | Err _ => False
  end.
Proof.
  revert p fs. induction fuel as [|fuel IH]; intros p fs Hw Hs Hf; [lia|]. cbn [drain].
  pose proof (next_event_spec p fs Hw Hs) as Hn. destruct (next_event p) as [[[ev p']|[]]|]; [|done..|subst fs; split; [done|cbn; lia]].
  destruct Hn as (Hw' & Hm & fs' & Ha & Hs'). specialize (IH p' fs' Hw' Hs' ltac:(lia)). cbn [mbind result_bind].
  destruct (drain fuel p') as [evs|[]]; [|done..]. destruct IH as [IH1 IH2]. split; [|cbn; lia]. cbn [accepts]. rewrite Ha. exact IH1.
Qed.

(** The parser a text begins with. *)
Lemma new_parser_spec text : 
  match new_parser text with
  | Ok p => well (p_scanner p) /\ stands p [FStart] /\ measure p < events_fuel text
  | Err (Raised _) => True
  | Err _ => False
  end.
Proof.
  unfold new_parser, new_scanner. cbv zeta. destruct (position _ _); [done|]. cbn [mbind result_bind mret].
  split; [|split; [done|]].
  - split; [|done]. split; [|done]. cbn. by intros ?? ?%lookup_empty_Some.
  - unfold measure, base, tokens_left, events_fuel. cbn. rewrite length_app. cbn. lia.
Qed.
End Events.

(** C9. Whatever text it is given, PyYAML's port neither panics nor runs for
    ever. It ends with a message, or with a whole stream of events nested as
    their reader needs: each document one node, each sequence and mapping
    closed, each key followed by a value. There are at most 32 events for a
    character and 60 more, and the fuel that allows is always enough. *)
Theorem parser_returns `{Debug} (text : bytes) :
  match p ← new_parser text; drain (events_fuel text) p with
  | Ok evs => nested evs /\ length evs < events_fuel text
  | Err (Raised _) => True
  | Err _ => False
  end.
Proof.
  pose proof (new_parser_spec text) as Hn. destruct (new_parser text) as [p|[]]; [|done..]. destruct Hn as (Hw & Hs & Hm).
  cbn [mbind result_bind]. pose proof (drain_spec (events_fuel text) p [FStart] Hw Hs Hm) as Hd.
  destruct (drain _ _) as [evs|[]]; [|done..]. destruct Hd. split; [done|lia].
Qed.
