(* ===== verification/Yaml.v ===== *)
(** [src/yaml.rs]: the tree PyYAML's [safe_load] makes of the events, and what
    a scalar is. A [Value] is built on explicit frames, and what it may cost is
    counted as it grows. *)

From Stdlib Require Import Floats.SpecFloat.
From S2P Require Import Prelude Slices Order Num Utf8 Query Root Pyyaml.

Definition MAX_DEPTH : nat := 512.
Definition MAX_NODES : N := READ_CAP + 16.

Inductive Value :=
| Null
| VBool (b : bool)
| VInt (z : Z)
| VOther (s : bytes)
| VStr (s : bytes)
| VSeq (l : list Value)
| VMap (m : list (Value * Value)).

Definition is_key (k : bytes) (v : Value) : bool := match v with VStr s => bool_decide (s = k) | _ => false end.
Definition get (v : Value) (k : bytes) : option Value :=
  match v with VMap m => snd <$> find (fun kv => is_key k (fst kv)) m | _ => None end.
Definition as_str (v : Value) : option bytes := match v with VStr s => Some s | _ => None end.
(** [i128::to_string]. *)
Definition show_int (z : Z) : bytes := (if (z <? 0)%Z then #"-" else []) ++ dec (Z.abs_N z).
Definition python_str (v : Value) : option bytes :=
  match v with
  | Null => Some #"None"
  | VBool true => Some #"True"
  | VBool false => Some #"False"
  | VInt n => Some (show_int n)
  | VOther s | VStr s => Some s
  | _ => None
  end.

(** ** What a value costs *)

Fixpoint depth (v : Value) : nat :=
  match v with
  | VSeq s => 1 + foldr (fun v n => Nat.max (depth v) n) 0 s
  | VMap m => 1 + foldr (fun '(k, v) n => Nat.max (Nat.max (depth k) (depth v)) n) 0 m
  | _ => 0
  end.
(** [usize::saturating_add]. *)
Definition usize_add (a b : N) : N := N.min (a + b) U64_MAX.
Fixpoint size (v : Value) : N :=
  match v with
  | VSeq s => foldl (fun n v => usize_add n (size v)) 1%N s
  | VMap m => foldl (fun n '(k, v) => usize_add (usize_add n (size k)) (size v)) 1%N m
  | VStr s | VOther s => 1 + N.of_nat (length s) / 64
  | _ => 1
  end.

(** ** Numbers *)

Definition I128_MAX : Z := 2 ^ 127 - 1.
Definition I128_MIN : Z := - 2 ^ 127.
(** [i128]'s checked operations: [None] out of range. *)
Definition checked_i128 (z : Z) : option Z := if ((I128_MIN <=? z) && (z <=? I128_MAX))%Z then Some z else None.

Definition minus : byte := "-".
Definition plus : byte := "+".
Definition colon_ : byte := ":".
Definition underscore : byte := "_".
Definition dot_ : byte := ".".
(** [strip_prefix(['-', '+']).unwrap_or(t)]. *)
Definition unsigned_ (t : bytes) : bytes :=
  match t with c :: r => if bool_decide (c = minus) || bool_decide (c = plus) then r else t | [] => t end.
Definition first_is (f : byte -> bool) (t : bytes) : bool := match t with c :: _ => f c | [] => false end.
Definition no_underscores (t : bytes) : bytes := filter (fun c => c <> underscore) t.

Definition all_of (f : byte -> bool) (s : bytes) : bool :=
  negb (bool_decide (s = [])) && forallb (fun c => is_byte underscore c || f c) s.
Definition base60_part (p : bytes) : bool :=
  match p with
  | [d] => is_ascii_digit d
  | [a; d] => byte_in "0" "5" a && is_ascii_digit d
  | _ => false
  end.
Definition int_syntax (t : bytes) : bool :=
  let body := unsigned_ t in
  match strip_prefix #"0b" body, strip_prefix #"0x" body with
  | Some b, _ => all_of (byte_in "0" "1") b
  | None, Some h => all_of (fun c => bool_decide (is_Some (to_digit 16 c))) h
  | None, None =>
      if bool_decide (body = #"0") then true
      else match strip_prefix #"0" body with
      | Some o => all_of (byte_in "0" "7") o
      | None =>
          if negb (first_is (byte_in "1" "9") body) then false
          else match split_on (is_byte colon_) body with
          | [] => false
          | head :: parts => all_of is_ascii_digit head && forallb base60_part parts
          end
      end
  end.

(** [int(s, radix)]: whether it converts, and the value where it fits. *)
Definition radix_prefix (radix : N) : option bytes :=
  if (radix =? 2)%N then Some #"0b" else if (radix =? 8)%N then Some #"0o" else if (radix =? 16)%N then Some #"0x" else None.
Definition python_int (s : bytes) (radix : N) : option (option Z) :=
  let s := trim s in
  match s with
  | [] => None
  | c :: r =>
      let neg := bool_decide (c = minus) in
      let body := if neg || bool_decide (c = plus) then r else s in
      let digits := match radix_prefix radix with
        | Some p => if (2 <? length body) && eq_ignore_ascii_case (take 2 body) p then drop 2 body else body
        | None => body
        end in
      if bool_decide (digits = []) || negb (forallb (fun d => bool_decide (is_Some (to_digit radix d))) digits) then None
      else Some ((fun n => if neg then (- Z.of_N n)%Z else Z.of_N n) <$> from_str_radix radix (Z.to_N I128_MAX) digits)
  end.

Definition not_int {A} (t : bytes) : result bytes A := Err (#"not an int: " ++ t).
Definition base60_step (t : bytes) (n : result bytes (option Z)) (p : bytes) : result bytes (option Z) :=
  n ← n;
  match python_int p 10 with
  | None => not_int t
  | Some d => Ok (m ← (n : option Z); m ← checked_i128 (m * 60); d ← d; checked_i128 (m + d))
  end.
Definition convert (t s : bytes) (radix : N) : result bytes (option Z) :=
  match python_int s radix with Some n => Ok n | None => not_int t end.
Definition int_value (t body : bytes) : result bytes (option Z) :=
  if bool_decide (body = #"0") then Ok (Some 0%Z)
  else match strip_prefix #"0b" body, strip_prefix #"0x" body with
  | Some b, _ => convert t b 2
  | None, Some h => convert t h 16
  | None, None =>
      if first_is (is_byte "0") body then convert t body 8
      else if mem colon_ body then foldl (base60_step t) (Ok (Some 0%Z)) (split_on (is_byte colon_) body)
      else convert t body 10
  end.
Definition construct_int (t : bytes) : result bytes Value :=
  let v := no_underscores t in
  match v with
  | [] => not_int t
  | c :: r =>
      let neg := bool_decide (c = minus) in
      n ← int_value t (if neg || bool_decide (c = plus) then r else v);
      Ok match (if neg then n ≫= (fun n => checked_i128 (- n)) else n) with
         | Some n => VInt n
         | None => VOther t
         end
  end.

(** *** Floats *)

Definition digits_ (s : bytes) : bool := forallb is_ascii_digit s.
Definition python_float (s : bytes) : bool :=
  let body := unsigned_ (trim s) in
  if mem body [ #"inf"; #"infinity"; #"nan"] then true
  else
    let '(mantissa, exp) := match split_once #"e" body with Some (m, e) => (m, Some e) | None => (body, None) end in
    let '(whole, frac) := match split_once #"." mantissa with Some wf => wf | None => (mantissa, []) end in
    let mantissa_ok := digits_ whole && digits_ frac && negb (bool_decide (whole = []) && bool_decide (frac = [])) in
    let exp_ok := match exp with
      | None => true
      | Some e => let e := unsigned_ e in negb (bool_decide (e = [])) && digits_ e
      end in
    mantissa_ok && exp_ok.

Definition digits_or_underscores (s : bytes) : bool := forallb (fun c => is_ascii_digit c || is_byte underscore c) s.
Definition base60_frac_part (p : bytes) : bool :=
  match p with
  | [d] => is_ascii_digit d
  | [a; d] => is_ascii_digit a && is_ascii_digit d && (Byte.to_N a <=? Byte.to_N "5")%N
  | _ => false
  end.
Definition exp_syntax (e : bytes) : bool :=
  match e with c :: r => (bool_decide (c = minus) || bool_decide (c = plus)) && negb (bool_decide (r = [])) && digits_ r | [] => false end.
Definition is_float (t : bytes) : bool :=
  let body := unsigned_ t in
  if mem body [ #".inf"; #".Inf"; #".INF"] || mem t [ #".nan"; #".NaN"; #".NAN"] then true
  else match split_once #"." body with
  | None => false
  | Some (int_part, rest) =>
      let '(frac, exp) := match position (fun c => is_byte "e" c || is_byte "E" c) rest with
        | Some i => (take i rest, Some (drop (S i) rest))
        | None => (rest, None)
        end in
      if negb (digits_or_underscores frac) || negb (match exp with None => true | Some e => exp_syntax e end) then false
      else if bool_decide (int_part = []) then
        bool_decide (body = t) && negb (bool_decide (frac = [])) && negb (first_is (is_byte underscore) frac)
      else if mem colon_ int_part then
        match split_on (is_byte colon_) int_part with
        | [] => false
        | head :: parts =>
            bool_decide (exp = None) && first_is is_ascii_digit head && digits_or_underscores head && forallb base60_frac_part parts
        end
      else first_is is_ascii_digit int_part && digits_or_underscores int_part
  end.

(** [f64]: IEEE double precision, as the standard library specifies it.
    [decimal m e] is the double nearest to [m * 10^e], ties to even. *)
Definition prec : Z := 53.
Definition emax : Z := 1024.
Definition f64_of_Z (z : Z) : spec_float := binary_normalize prec emax z 0 false.
Definition decimal (m : N) (e : Z) : spec_float :=
  match m with
  | N0 => S754_zero false
  | Npos p =>
      if (0 <=? e)%Z then f64_of_Z (Z.pos p * 10 ^ e)
      else let '(q, e', l) := SFdiv_core_binary prec emax (Z.pos p) 0 (10 ^ (- e)) 0 in binary_round_aux prec emax false q e' l
  end.
(** [str::parse::<f64>]. *)
Definition parse_f64 (s : bytes) : option spec_float :=
  let neg := first_is (is_byte minus) s in
  let body := unsigned_ s in
  let low := to_ascii_lowercase body in
  let signed f := if neg then SFopp f else f in
  if mem low [ #"inf"; #"infinity"] then Some (signed (S754_infinity false))
  else if bool_decide (low = #"nan") then Some S754_nan
  else
    let '(mantissa, exp) := match split_once #"e" low with Some (m, e) => (m, Some e) | None => (low, None) end in
    let '(whole, frac) := match split_once #"." mantissa with Some wf => wf | None => (mantissa, []) end in
    if negb (digits_ whole && digits_ frac) || bool_decide (whole = []) && bool_decide (frac = []) then None
    else match exp with
    | None => Some (signed (decimal (digits_value 0 (whole ++ frac)) (- Z.of_nat (length frac))))
    | Some e =>
        let d := unsigned_ e in
        if bool_decide (d = []) || negb (digits_ d) then None
        else
          let n := Z.of_N (digits_value 0 d) in
          let n := if first_is (is_byte minus) e then (- n)%Z else n in
          Some (signed (decimal (digits_value 0 (whole ++ frac)) (n - Z.of_nat (length frac))))
    end.

(** A key's numeric value. *)
Definition SIXTY : spec_float := f64_of_Z 60.
Definition base60_float (n : option spec_float) (p : bytes) : option spec_float :=
  n ← n; x ← parse_f64 p; Some (SFadd prec emax (SFmul prec emax n SIXTY) x).
Definition number (v : Value) : option spec_float :=
  match v with
  | VBool b => Some (f64_of_Z (if b then 1 else 0))
  | VInt i => Some (f64_of_Z i)
  | VOther t =>
      let t := to_ascii_lowercase (no_underscores t) in
      let '(neg, body) := match strip_prefix #"-" t with
        | Some b => (true, b)
        | None => (false, default t (strip_prefix #"+" t))
        end in
      n ← (if bool_decide (body = #".inf") then Some (S754_infinity false)
           else if bool_decide (body = #".nan") then Some S754_nan
           else if mem colon_ body then foldl base60_float (Some (S754_zero false)) (split_on (is_byte colon_) body)
           else parse_f64 body);
      Some (if neg : bool then SFopp n else n)
  | _ => None
  end.

(** [n.fract() == 0.0], and the integer it then is. *)
Definition integral (n : spec_float) : option Z :=
  match n with
  | S754_zero _ => Some 0%Z
  | S754_finite s m e =>
      let z := if (0 <=? e)%Z then Some (Z.pos m * 2 ^ e)%Z
               else if (Z.pos m mod 2 ^ (- e) =? 0)%Z then Some (Z.pos m / 2 ^ (- e))%Z else None in
      (fun z => if s : bool then (- z)%Z else z) <$> z
  | _ => None
  end.

Inductive Key :=
| KNull
| KInt (z : Z)
| KFloat (f : spec_float)
| KNan
| KStr (s : bytes)
| KOther (s : bytes).
#[global] Instance spec_float_eq_dec : EqDecision spec_float.
Proof. solve_decision. Defined.
#[global] Instance Key_eq_dec : EqDecision Key.
Proof. solve_decision. Defined.

Definition key_of (v : Value) : option Key :=
  match v with
  | Null => Some KNull
  | VInt i => Some (KInt i)
  | VStr s => Some (KStr s)
  | VSeq _ | VMap _ => None
  | _ =>
      Some match number v with
      | Some n =>
          if bool_decide (n = S754_nan) then KNan
          else match integral n with
          | Some z => if SFltb (SFabs n) (f64_of_Z (10 ^ 36)) then KInt z else KFloat n
          | None => KFloat n
          end
      | None => KOther (default [] (python_str v))
      end
  end.

(** ** Timestamps *)

Record Timestamp := mk_timestamp {
  ts_date : N * N * N; ts_time : option (N * N * N); ts_zone : option (N * N)
}.

(** What is read, and the rest. *)
Definition digits (min max : nat) (b : bytes) : option (N * bytes) :=
  let d := take max (take_while is_ascii_digit b) in
  if length d <? min then None else Some (digits_value 0 d, drop (length d) b).
Definition literal (c : byte) (b : bytes) : option bytes :=
  match b with x :: r => if bool_decide (x = c) then Some r else None | [] => None end.
Definition is_blank_byte (c : byte) : bool := is_byte " " c || is_byte x09 c.
Definition read_zone (b : bytes) : option (option (N * N) * bytes) :=
  match drop_while is_blank_byte b with
  | c :: r =>
      if bool_decide (c = "Z"%byte) then Some (Some (0%N, 0%N), r)
      else if bool_decide (c = minus) || bool_decide (c = plus) then
        '(h, r) ← digits 1 2 r;
        match literal colon_ r with
        | Some r => '(m, r) ← digits 2 2 r; Some (Some (h, m), r)
        | None => Some (Some (h, 0%N), r)
        end
      else Some (None, b)
  | [] => Some (None, b)
  end.
Definition timestamp (t : bytes) (short : bool) : option Timestamp :=
  '(year, b) ← digits 4 4 t;
  b ← literal minus b;
  '(month, b) ← digits 1 2 b;
  b ← literal minus b;
  '(day, b) ← digits 1 2 b;
  let date := (year, month, day) in
  match b with
  | [] => if negb short || bool_decide (length t = 10) then Some (mk_timestamp date None None) else None
  | c :: r =>
      b ← (if bool_decide (c = "T"%byte) || bool_decide (c = "t"%byte) then Some r
           else if is_blank_byte c then Some (drop_while is_blank_byte b) else None);
      '(hour, b) ← digits 1 2 b;
      b ← literal colon_ b;
      '(minute, b) ← digits 2 2 b;
      b ← literal colon_ b;
      '(second, b) ← digits 2 2 b;
      let b := match literal dot_ b with Some r => drop_while is_ascii_digit r | None => b end in
      '(zone, b) ← read_zone b;
      if bool_decide (b = []) then Some (mk_timestamp date (Some (hour, minute, second)) zone) else None
  end.

Definition days_in (y m : N) : option N :=
  let leap := ((y mod 4 =? 0) && (negb (y mod 100 =? 0) || (y mod 400 =? 0)))%N in
  (if mem m [1; 3; 5; 7; 8; 10; 12] then Some 31
   else if mem m [4; 6; 9; 11] then Some 30
   else if m =? 2 then Some (if leap then 29 else 28) else None)%N.
Definition timestamp_valid (ts : Timestamp) : bool :=
  let '(y, m, d) := ts_date ts in
  match days_in y m with
  | None => false
  | Some days =>
      negb ((y =? 0) || (d =? 0) || (days <? d))%N
      && negb (match ts_time ts with Some (h, mi, s) => (23 <? h) || (59 <? mi) || (59 <? s) | None => false end)%N
      && (match ts_zone ts with Some (h, m) => h * 60 + m <? 24 * 60 | None => true end)%N
  end.

(** ** Scalars *)

Definition TAG : bytes := #"tag:yaml.org,2002:".
Definition NULL : list bytes := [ []; #"~"; #"null"; #"Null"; #"NULL"].
Definition BOOL : list bytes :=
  [ #"yes"; #"Yes"; #"YES"; #"no"; #"No"; #"NO"; #"true"; #"True"; #"TRUE"; #"false"; #"False"; #"FALSE"; #"on"; #"On"; #"ON"; #"off"; #"Off"; #"OFF"].
Definition resolve (t : bytes) : bytes :=
  if mem t NULL then #"null"
  else if mem t BOOL then #"bool"
  else if int_syntax t then #"int"
  else if is_float t then #"float"
  else if bool_decide (is_Some (timestamp t true)) then #"timestamp"
  else #"str".

(** [binascii.a2b_base64]: where in a group of four, and the padding seen. *)
Fixpoint binary_loop (quad pads : N) (cs : bytes) : N :=
  match cs with
  | [] => quad
  | c :: cs =>
      if bool_decide (c = "="%byte) then
        if (2 <=? quad)%N then
          if (4 <=? quad + (pads + 1))%N then 0%N else binary_loop quad (pads + 1) cs
        else binary_loop quad pads cs
      else if negb (is_ascii_alphanumeric c || is_byte plus c || is_byte "/" c) then binary_loop quad pads cs
      else binary_loop ((quad + 1) mod 4) 0 cs
  end.
Definition binary (t : bytes) : result bytes Value :=
  if negb (forallb is_ascii t) then Err #"!!binary holds a non-ASCII character"
  else match binary_loop 0 0 t with
  | 0%N => Ok (VOther #"binary")
  | 1%N => Err #"!!binary: a base64 length one more than a multiple of four"
  | _ => Err #"!!binary: incorrect padding"
  end.

Section Scalars.
Context `{Lowercase}.

Definition construct_float (t : bytes) : result bytes Value :=
  let v := to_lowercase (no_underscores t) in
  let body := unsigned_ v in
  let fail := Err (#"not a float: " ++ t) in
  if bool_decide (v = []) then fail
  else if mem body [ #".inf"; #".nan"]
          || (if mem colon_ body then forallb python_float (split_on (is_byte colon_) body) else python_float body)
  then Ok (VOther t) else fail.
Definition construct_bool (t : bytes) : result bytes Value :=
  let v := to_lowercase t in
  if mem v [ #"yes"; #"true"; #"on"] then Ok (VBool true)
  else if mem v [ #"no"; #"false"; #"off"] then Ok (VBool false)
  else Err (#"not a bool: " ++ t).
Definition construct_timestamp (t : bytes) : result bytes Value :=
  match timestamp t false with
  | Some ts => if timestamp_valid ts then Ok (VOther t) else Err (#"not a timestamp datetime accepts: " ++ t)
  | None => Err (#"not a timestamp datetime accepts: " ++ t)
  end.
Definition construct (kind t : bytes) : result bytes Value :=
  if bool_decide (kind = #"null") then Ok Null
  else if bool_decide (kind = #"bool") then construct_bool t
  else if bool_decide (kind = #"int") then construct_int t
  else if bool_decide (kind = #"timestamp") then construct_timestamp t
  else if bool_decide (kind = #"float") then construct_float t
  else Ok (VStr t).
Definition scalar (t : bytes) (plain : bool) (tag : option bytes) : result bytes Value :=
  match tag with
  | None => construct (if plain then resolve t else #"str") t
  | Some g =>
      if bool_decide (g = #"!") then construct (resolve t) t
      else match strip_prefix TAG g with
      | Some k =>
          if mem k [ #"str"; #"null"; #"bool"; #"int"; #"float"; #"timestamp"] then construct k t
          else if bool_decide (k = #"binary") then binary t
          else Err (#"no constructor for tag " ++ g)
      | None => Err (#"no constructor for tag " ++ g)
      end
  end.
End Scalars.

(** ** The tree *)

Inductive Shape := Plain | SetShape | Pairs.
Inductive Item :=
| IValue (v : Value)
| IMerge
| IEquals.
Inductive Frame :=
| FrSeq (items : list Value) (shape : Shape)
| FrMap (pairs : list (Item * Value)) (key : option Item) (shape : Shape).

(** The builder: its open frames, the last opened first, each with the id of its
    anchor; each anchored value and its depth; the ids of the names. *)
Record Builder := mk_builder {
  b_stack : list (Frame * nat);
  b_anchors : gmap nat (Value * nat);
  b_names : gmap bytes nat;
  b_nodes : N;
  b_done : option Value
}.
Definition new_builder : Builder := mk_builder [] ∅ ∅ 0 None.
Definition set_stack (l : list (Frame * nat)) (b : Builder) : Builder := mk_builder l (b_anchors b) (b_names b) (b_nodes b) (b_done b).
Definition set_anchors (m : gmap nat (Value * nat)) (b : Builder) : Builder := mk_builder (b_stack b) m (b_names b) (b_nodes b) (b_done b).
Definition set_names (m : gmap bytes nat) (b : Builder) : Builder := mk_builder (b_stack b) (b_anchors b) m (b_nodes b) (b_done b).
Definition set_nodes (n : N) (b : Builder) : Builder := mk_builder (b_stack b) (b_anchors b) (b_names b) n (b_done b).
Definition set_result (v : Value) (b : Builder) : Builder := mk_builder (b_stack b) (b_anchors b) (b_names b) (b_nodes b) (Some v).

Definition raise {S A} (why : bytes) : st S A := stop (Raised why).
Definition lift {S A} (r : result bytes A) : st S A := match r with Ok a => mret a | Err e => raise e end.

Definition shape (tag : option bytes) (mapping : bool) : result bytes Shape :=
  match tag with
  | None => Ok Plain
  | Some t =>
      if bool_decide (t = #"!") then Ok Plain
      else
        let kind := default t (strip_prefix TAG t) in
        if bool_decide (kind = (if mapping then #"map" else #"seq")) then Ok Plain
        else if bool_decide (kind = #"set") && mapping then Ok SetShape
        else if mem kind [ #"omap"; #"pairs"] && negb mapping then Ok Pairs
        else if mem kind [ #"map"; #"set"] && negb mapping then Err (#"expected a mapping node for " ++ t)
        else if mem kind [ #"seq"; #"omap"; #"pairs"] && mapping then Err (#"expected a sequence node for " ++ t)
        else Err (#"no constructor for tag " ++ t)
  end.

(** *** Mappings *)

(** The mappings a [<<] names, the first of a list winning by coming last. *)
Definition merge_one (merged : result bytes (list (Value * Value))) (m : Value) : result bytes (list (Value * Value)) :=
  merged ← merged;
  match m with VMap m => Ok (merged ++ m) | _ => Err #"merge of a list holding a non-mapping" end.
Definition merge (merged : list (Value * Value)) (v : Value) : result bytes (list (Value * Value)) :=
  match v with
  | VMap m => Ok (merged ++ m)
  | VSeq maps => foldl merge_one (Ok merged) (reverse maps)
  | _ => Err #"merge of a non-mapping"
  end.
Fixpoint split_pairs (merged own : list (Value * Value)) (pairs : list (Item * Value)) :
    result fault (list (Value * Value) * list (Value * Value)) :=
  match pairs with
  | [] => Ok (merged, own)
  | (IEquals, _) :: _ => Err Panicked
  | (IMerge, v) :: pairs =>
      match merge merged v with Ok merged => split_pairs merged own pairs | Err e => Err (Raised e) end
  | (IValue k, v) :: pairs => split_pairs merged (own ++ [(k, v)]) pairs
  end.
(** A pair put in: the value of the same key replaced where it stands. [index],
    from a key to its place, is kept beside each pair. *)
Definition put_pair (out : list (Key * (Value * Value))) (key : Key) (kv : Value * Value) : list (Key * (Value * Value)) :=
  match position (fun p => bool_decide (fst p = key)) out with
  | Some i => alter (fun p => (fst p, (fst (snd p), snd kv))) i out
  | None => out ++ [(key, kv)]
  end.
Definition put_step (out : result fault (list (Key * (Value * Value)))) (kv : Value * Value) : result fault (list (Key * (Value * Value))) :=
  out ← out;
  match key_of (fst kv) with
  | Some key => Ok (put_pair out key kv)
  | None => Err (Raised #"unhashable key")
  end.
Definition flatten (pairs : list (Item * Value)) : result fault (list (Value * Value)) :=
  match split_pairs [] [] pairs with
  | Ok (merged, own) =>
      match foldl put_step (Ok []) (merged ++ own) with Ok out => Ok (snd <$> out) | Err e => Err e end
  | Err e => Err e
  end.

(** *** The builder *)

Definition count (n : N) : st Builder unit := fun b =>
  let nodes := usize_add (b_nodes b) n in
  if (MAX_NODES <? nodes)%N then Err (Raised (#"more than " ++ dec MAX_NODES ++ #" nodes")) else Ok (tt, set_nodes nodes b).
Definition too_deep {A} : st Builder A := raise (#"nested deeper than " ++ dec (N.of_nat MAX_DEPTH)).
Definition open_frame (f : Frame) (anchor : nat) : st Builder unit :=
  b ← ask id;
  if MAX_DEPTH <=? length (b_stack b) then too_deep
  else count 1;; modify (fun b => set_stack ((f, anchor) :: b_stack b) b).

Definition plain_item (item : Item) : result bytes Value :=
  match item with
  | IValue v => Ok v
  | IMerge => Err #"<< outside a mapping key"
  | IEquals => Err #"= outside a mapping key"
  end.
Definition keep_anchor (item : Item) (anchor : nat) : st Builder unit :=
  match item with
  | IValue v =>
      if bool_decide (anchor = 0) then mret tt
      else count (size v);; modify (fun b => set_anchors (<[anchor := (v, depth v)]> (b_anchors b)) b)
  | _ => mret tt
  end.
(** What a frame becomes when [item] is put in it. *)
Definition fill_frame (f : Frame) (item : Item) : result bytes Frame :=
  match f with
  | FrSeq items sh => v ← plain_item item; Ok (FrSeq (items ++ [v]) sh)
  | FrMap pairs None sh => Ok (FrMap pairs (Some match item with IEquals => IValue (VStr #"=") | _ => item end) sh)
  | FrMap pairs (Some k) sh => v ← plain_item item; Ok (FrMap (pairs ++ [(k, v)]) None sh)
  end.
Definition push_item (item : Item) (anchor : nat) : st Builder unit :=
  keep_anchor item anchor;;
  b ← ask id;
  match b_stack b with
  | [] => v ← lift (plain_item item); modify (set_result v)
  | (f, a) :: stack => f ← lift (fill_frame f item); modify (set_stack ((f, a) :: stack))
  end.

(** An ordered map's item: the one pair of a mapping, as a list of two. *)
Definition pair_item (v : Value) : result bytes Value :=
  match v with
  | VMap [(k, v)] => Ok (VSeq [k; v])
  | _ => Err #"an ordered map holds a mapping of one pair per item"
  end.
Definition pair_items (items : list Value) : result bytes (list Value) :=
  foldr (fun v out => v ← pair_item v; out ← out; Ok (v :: out)) (Ok []) items.
Definition raised {A} (r : result bytes A) : result fault A := match r with Ok a => Ok a | Err e => Err (Raised e) end.
Definition close_frame (f : Frame) : result fault Value :=
  match f with
  | FrSeq items Pairs => VSeq <$> raised (pair_items items)
  | FrSeq items _ => Ok (VSeq items)
  | FrMap pairs None SetShape => (fun m => VMap ((fun kv => (fst kv, Null)) <$> m)) <$> flatten pairs
  | FrMap pairs None _ => VMap <$> flatten pairs
  | FrMap _ (Some _) _ => Err (Raised #"mapping ended after a key")
  end.
Definition close : st Builder unit :=
  b ← ask id;
  match b_stack b with
  | [] => raise #"unbalanced end"
  | (f, anchor) :: stack =>
      modify (set_stack stack);;
      v ← (fun b => match close_frame f with Ok v => Ok (v, b) | Err e => Err e end);
      push_item (IValue v) anchor
  end.

Section Parse.
Context `{Debug, Lowercase}.

Definition anchor_id (name : option bytes) : st Builder nat :=
  match name with
  | None => mret 0
  | Some name =>
      b ← ask id;
      if bool_decide (is_Some (b_names b !! name)) then raise (#"found duplicate anchor " ++ debug_str name)
      else
        let id_ := S (base.size (b_names b)) in
        modify (set_names (<[name := id_]> (b_names b)));; mret id_
  end.

Definition undefined_anchor {A} : st Builder A := raise #"alias to an undefined anchor".
Definition paste (anchor : bytes) : st Builder unit :=
  b ← ask id;
  match b_names b !! anchor ≫= (fun i => b_anchors b !! i) with
  | None => undefined_anchor
  | Some (v, d) =>
      if MAX_DEPTH <? length (b_stack b) + d then too_deep
      else count (size v);; push_item (IValue v) 0
  end.

(** What [parse] does with an event, after [docs] documents. *)
Definition on_event (ev : Event) (docs : nat) : st Builder nat :=
  match ev with
  | DocumentStart => if 1 <? S docs then raise #"more than one document" else mret (S docs)
  | SequenceStart anchor tag =>
      anchor ← anchor_id anchor;
      sh ← lift (shape tag false);
      open_frame (FrSeq [] sh) anchor;; mret docs
  | MappingStart anchor tag =>
      anchor ← anchor_id anchor;
      sh ← lift (shape tag true);
      open_frame (FrMap [] None sh) anchor;; mret docs
  | SequenceEnd | MappingEnd => close;; mret docs
  | Scalar anchor tag implicit value =>
      anchor ← anchor_id anchor;
      count 1;;
      item ← (if bool_decide (value = #"<<") && implicit then mret IMerge
              else if bool_decide (value = #"=") && implicit then mret IEquals
              else v ← lift (scalar value implicit tag); mret (IValue v));
      push_item item anchor;; mret docs
  | Alias anchor => paste anchor;; mret docs
  | StreamStart | StreamEnd | DocumentEnd => mret docs
  end.

Fixpoint parse_loop (fuel : nat) (p : parser) (b : Builder) (docs : nat) : result fault (option Value) :=
  match fuel with
  | O => Err Spent
  | S fuel =>
      match next_event p with
      | None => Ok (b_done b)
      | Some (Err e) => Err e
      | Some (Ok (ev, p)) =>
          match on_event ev docs b with
          | Ok (docs, b) => parse_loop fuel p b docs
          | Err e => Err e
          end
      end
  end.
(** The fuel is enough by [yaml_bounded]. *)
Definition parse (text : bytes) : result fault (option Value) :=
  match new_parser text with Ok p => parse_loop (events_fuel text) p new_builder 0 | Err e => Err e end.
End Parse.
