(* ===== verification/YamlLaws.v ===== *)
(** [src/yaml.rs]: the laws of the tree. Building one never panics and never
    meets an end it did not open; what it holds is bounded however the text
    aliases; a mapping holds what PyYAML's does. *)

From S2P Require Import Prelude Slices Order Num Utf8 Query Root Pyyaml PyyamlLaws PyyamlEvents Yaml.

(** ** Values *)

Section value_ind.
Context (P : Value -> Prop).
Context (HNull : P Null) (HBool : forall b, P (VBool b)) (HInt : forall z, P (VInt z)) (HOther : forall s, P (VOther s))
  (HStr : forall s, P (VStr s)) (HSeq : forall l, Forall P l -> P (VSeq l))
  (HMap : forall m, Forall (fun kv => P (fst kv) /\ P (snd kv)) m -> P (VMap m)).
Fixpoint value_ind' (v : Value) : P v :=
  match v with
  | Null => HNull
  | VBool b => HBool b
  | VInt z => HInt z
  | VOther s => HOther s
  | VStr s => HStr s
  | VSeq l => HSeq l ((fix go l : Forall P l := match l with [] => List.Forall_nil _ | v :: l => List.Forall_cons _ _ _ (value_ind' v) (go l) end) l)
  | VMap m => HMap m ((fix go m : Forall (fun kv => P (fst kv) /\ P (snd kv)) m :=
      match m with
      | [] => List.Forall_nil _
      | (k, v) :: m => List.Forall_cons _ (k, v) m (conj (value_ind' k) (value_ind' v)) (go m)
      end) m)
  end.
End value_ind.

(** ** Costs *)

(** What a value holds where a text costs [w] beside its node, as a number that
    does not saturate. *)
Section cost.
Context (w : bytes -> N).
Definition sum_N {A} (f : A -> N) (l : list A) : N := foldr (fun x n => (f x + n)%N) 0%N l.
Fixpoint cost (v : Value) : N :=
  match v with
  | VSeq s => 1 + foldr (fun v n => cost v + n) 0 s
  | VMap m => 1 + foldr (fun '(k, v) n => cost k + cost v + n) 0 m
  | VStr s | VOther s => 1 + w s
  | _ => 1
  end%N.
Definition pair_cost (kv : Value * Value) : N := (cost (fst kv) + cost (snd kv))%N.
Lemma cost_seq l : cost (VSeq l) = (1 + sum_N cost l)%N.
Proof. done. Qed.
Lemma cost_map m : cost (VMap m) = (1 + sum_N pair_cost m)%N.
Proof. cbn [cost]. f_equal. induction m as [|[k v] m IH]; [done|]. cbn. by rewrite IH. Qed.
Lemma cost_pos v : (1 <= cost v)%N.
Proof. destruct v; cbn; lia. Qed.
End cost.
#[local] Arguments sum_N : simpl never.
Lemma sum_N_cons {A} (f : A -> N) x l : sum_N f (x :: l) = (f x + sum_N f l)%N.
Proof. done. Qed.
Lemma sum_N_nil {A} (f : A -> N) : sum_N f [] = 0%N.
Proof. done. Qed.
Lemma sum_N_app {A} (f : A -> N) l r : sum_N f (l ++ r) = (sum_N f l + sum_N f r)%N.
Proof. induction l as [|x l IH]; [done|]. rewrite <- app_comm_cons, !sum_N_cons, IH. lia. Qed.
Lemma sum_N_le {A} (f g : A -> N) l : Forall (fun x => (f x <= g x)%N) l -> (sum_N f l <= sum_N g l)%N.
Proof. induction 1; rewrite ?sum_N_cons; [done|lia]. Qed.
Lemma sum_N_reverse {A} (f : A -> N) l : sum_N f (reverse l) = sum_N f l.
Proof. induction l as [|x l IH]; [done|]. rewrite reverse_cons, sum_N_app, IH, !sum_N_cons, sum_N_nil. lia. Qed.
Lemma sum_N_alter {A} (f : A -> N) g i l x : l !! i = Some x -> (sum_N f (alter g i l) + f x = sum_N f l + f (g x))%N.
Proof.
  revert i. induction l as [|y l IH]; intros [|i]; cbn [lookup list_lookup]; [done..|intros [= ->]|intros Hi; specialize (IH i Hi)].
  - change (alter g 0 (x :: l)) with (g x :: l). rewrite !sum_N_cons. lia.
  - change (alter g (S i) (y :: l)) with (y :: alter g i l). rewrite !sum_N_cons. lia.
Qed.

(** Each text costs as much as [size] charges for it, or less. *)
Definition charged (w : bytes -> N) : Prop := forall s, (w s <= N.of_nat (length s) / 64)%N.

Lemma fold_usize {A} (f : A -> N) n l : (foldl (fun n x => usize_add n (f x)) n l < U64_MAX)%N ->
  foldl (fun n x => usize_add n (f x)) n l = (n + sum_N f l)%N /\ Forall (fun x => (f x < U64_MAX)%N) l.
Proof.
  revert n. induction l as [|x l IH]; intros n; cbn [foldl]; [rewrite sum_N_nil; split; [lia|done]|]. intros Hl. rewrite sum_N_cons.
  destruct (IH _ Hl) as [E Hf]. rewrite E in *. unfold usize_add in *. split; [lia|].
  apply Forall_cons. split; [lia|done].
Qed.
(** [size] is the cost where a text costs a node for each 64 bytes, as long as
    it does not saturate. *)
Definition text_cost (s : bytes) : N := (N.of_nat (length s) / 64)%N.
Lemma size_cost v : (size v < U64_MAX)%N -> cost text_cost v = size v.
Proof.
  induction v as [| | | | |l IH|m IH] using value_ind'; try done.
  - cbn [size]. intros [E Hf]%fold_usize. rewrite E, cost_seq. f_equal. clear E.
    induction l as [|x l IHl]; [done|]. apply Forall_cons in IH as [Hx IH]. apply Forall_cons in Hf as [Hs Hf].
    by rewrite !sum_N_cons, (Hx Hs), (IHl IH Hf).
  - intros Hl. assert (Hm : size (VMap m) = foldl (fun n x => usize_add n x) 1%N (m ≫= (fun kv => [size (fst kv); size (snd kv)]))).
    { cbn [size]. generalize 1%N. clear. induction m as [|[k v] m IH]; intros n; [done|]. cbn. by rewrite IH. }
    rewrite Hm in *. apply (fold_usize id) in Hl as [E Hf]. unfold id in *. rewrite E, cost_map. f_equal. clear E Hm.
    induction m as [|[k v] m IHm]; [done|]. apply Forall_cons in IH as [[Hk Hv] IH]. cbn in Hf, Hk, Hv.
    apply Forall_cons in Hf as [Hs Hf]. apply Forall_cons in Hf as [Hs' Hf]. rewrite sum_N_cons, (IHm IH Hf).
    unfold pair_cost. cbn. rewrite (Hk Hs), (Hv Hs'), !sum_N_cons. lia.
Qed.
Lemma cost_le w v : charged w -> (cost w v <= cost text_cost v)%N.
Proof.
  intros Hw. induction v as [| | |s|s|l IH|m IH] using value_ind'; try done; [cbn; pose proof (Hw s); unfold text_cost; lia..| |].
  - rewrite !cost_seq. pose proof (sum_N_le _ _ _ IH). lia.
  - rewrite !cost_map. assert (Hm : Forall (fun kv => (pair_cost w kv <= pair_cost text_cost kv)%N) m).
    { eapply Forall_impl; [exact IH|]. intros [k v] [? ?]. unfold pair_cost. cbn in *. lia. }
    pose proof (sum_N_le _ _ _ Hm). lia.
Qed.

(** ** Depths *)

Lemma depth_seq n l : depth (VSeq l) <= S n <-> Forall (fun v => depth v <= n) l.
Proof.
  cbn [depth]. rewrite <- Nat.succ_le_mono. induction l as [|x l IH]; cbn [foldr]; [split; [by constructor|lia]|].
  rewrite Forall_cons, <- IH. lia.
Qed.
Definition pair_le (n : nat) (kv : Value * Value) : Prop := depth (fst kv) <= n /\ depth (snd kv) <= n.
Lemma depth_map n m : depth (VMap m) <= S n <-> Forall (pair_le n) m.
Proof.
  cbn [depth]. rewrite <- Nat.succ_le_mono. induction m as [|[k v] m IH]; cbn [foldr]; [split; [by constructor|lia]|].
  rewrite Forall_cons, <- IH. unfold pair_le. cbn. lia.
Qed.
Lemma depth_map_le n m : depth (VMap m) <= n -> Forall (pair_le n) m.
Proof.
  destruct n as [|n]; [cbn; lia|]. intros H%depth_map. eapply Forall_impl; [exact H|]. intros kv [? ?]. split; lia.
Qed.
Lemma depth_seq_le n l : depth (VSeq l) <= n -> Forall (fun v => depth v <= n) l.
Proof. destruct n as [|n]; [cbn; lia|]. intros H%depth_seq. eapply Forall_impl; [exact H|]. cbn. lia. Qed.

(** ** Mappings *)

Section mappings.
Context (w : bytes -> N).

Lemma merge_fold_bad (maps : list Value) e : foldl merge_one (Err e) maps = Err e.
Proof. by induction maps. Qed.
Lemma merge_fold_spec n maps merged out : foldl merge_one (Ok merged) maps = Ok out ->
  (sum_N (pair_cost w) out <= sum_N (pair_cost w) merged + sum_N (cost w) maps)%N /\
  (Forall (pair_le n) merged -> Forall (fun v => depth v <= n) maps -> Forall (pair_le n) out).
Proof.
  revert merged. induction maps as [|m maps IH]; intros merged; cbn [foldl].
  - intros [= ->]. rewrite sum_N_nil. split; [lia|done].
  - cbn [merge_one mbind result_bind]. destruct m as [| | | | | |m]; try (rewrite merge_fold_bad; discriminate).
    intros [H1 H2]%IH. rewrite sum_N_app in H1. rewrite sum_N_cons, cost_map. split; [lia|].
    intros Hm [Hd Hs]%Forall_cons. apply H2; [|done]. apply Forall_app. split; [done|by apply depth_map_le].
Qed.
Lemma merge_spec n merged v out : merge merged v = Ok out ->
  (sum_N (pair_cost w) out <= sum_N (pair_cost w) merged + cost w v)%N /\
  (Forall (pair_le n) merged -> depth v <= n -> Forall (pair_le n) out).
Proof.
  destruct v as [| | | | |l|m]; try discriminate; cbn [merge].
  - intros [H1 H2]%(merge_fold_spec n). rewrite sum_N_reverse in H1. rewrite cost_seq. split; [lia|].
    intros Hm Hd%depth_seq_le. apply H2; [done|by apply Forall_reverse].
  - intros [= <-]. rewrite sum_N_app, cost_map. split; [lia|]. intros Hm Hd. apply Forall_app. split; [done|by apply depth_map_le].
Qed.

Definition item_cost (i : Item) : N := match i with IValue v => cost w v | _ => 0 end.
Definition entry_cost (kv : Item * Value) : N := (item_cost (fst kv) + cost w (snd kv))%N.
Definition item_le (n : nat) (i : Item) : Prop := match i with IValue v => depth v <= n | IMerge => True | IEquals => False end.
Definition entry_le (n : nat) (kv : Item * Value) : Prop := item_le n (fst kv) /\ depth (snd kv) <= n.

Lemma split_pairs_spec n pairs merged own : Forall (entry_le n) pairs -> Forall (pair_le n) merged -> Forall (pair_le n) own ->
  match split_pairs merged own pairs with
  | Ok (m, o) =>
      (sum_N (pair_cost w) m + sum_N (pair_cost w) o
        <= sum_N (pair_cost w) merged + sum_N (pair_cost w) own + sum_N entry_cost pairs)%N /\
      Forall (pair_le n) m /\ Forall (pair_le n) o
  | Err (Raised _) => True
  | Err _ => False
  end.
Proof.
  revert merged own. induction pairs as [|[[k| |] v] pairs IH]; intros merged own; cbn [split_pairs].
  - rewrite sum_N_nil. intros. split; [lia|done].
  - intros [[Hk Hv] Hp]%Forall_cons Hm Ho. specialize (IH merged (own ++ [(k, v)]) Hp Hm).
    assert (Ho' : Forall (pair_le n) (own ++ [(k, v)])) by (apply Forall_app; split; [done|by repeat constructor]).
    specialize (IH Ho'). destruct (split_pairs _ _ _) as [[m o]|]; [|done].
    rewrite sum_N_app, !sum_N_cons, sum_N_nil in *. unfold entry_cost, pair_cost in *. cbn [fst snd item_cost] in *. split; [lia|apply IH].
  - intros [[_ Hv] Hp]%Forall_cons Hm Ho. destruct (merge merged v) as [merged'|] eqn:Em; [|done].
    apply (merge_spec n) in Em as [H1 H2]. specialize (IH merged' own Hp (H2 Hm Hv) Ho).
    destruct (split_pairs _ _ _) as [[m o]|]; [|done].
    rewrite !sum_N_cons. unfold entry_cost at 1. cbn [fst snd item_cost]. split; [lia|apply IH].
  - by intros [[[] _] _]%Forall_cons.
Qed.

Definition kept_cost (p : Key * (Value * Value)) : N := pair_cost w (snd p).
Definition kept_le (n : nat) (p : Key * (Value * Value)) : Prop := pair_le n (snd p).
Lemma put_pair_cost out key kv : (sum_N kept_cost (put_pair out key kv) <= sum_N kept_cost out + pair_cost w kv)%N.
Proof.
  unfold put_pair. destruct (position _ out) as [i|] eqn:Ei.
  - apply position_Some in Ei as [Hi _]. apply lookup_lt_is_Some in Hi as [x Hx]. pose proof (sum_N_alter kept_cost (fun p => (fst p, (fst (snd p), snd kv))) i out x Hx) as E.
    unfold kept_cost, pair_cost in *. cbn in *. lia.
  - rewrite sum_N_app, sum_N_cons, sum_N_nil. unfold kept_cost at 2. cbn. lia.
Qed.
Lemma put_pair_le n out key kv : Forall (kept_le n) out -> pair_le n kv -> Forall (kept_le n) (put_pair out key kv).
Proof.
  intros Ho [Hk Hv]. unfold put_pair. destruct (position _ out) as [i|].
  - apply Forall_alter; [done|]. intros x _ [? ?]. by split.
  - apply Forall_app. split; [done|by repeat constructor].
Qed.
Lemma put_fold_bad l e : foldl put_step (Err e) l = Err e.
Proof. by induction l. Qed.
Lemma put_fold_spec n l out : Forall (pair_le n) l -> Forall (kept_le n) out ->
  match foldl put_step (Ok out) l with
  | Ok out' => (sum_N kept_cost out' <= sum_N kept_cost out + sum_N (pair_cost w) l)%N /\ Forall (kept_le n) out'
  | Err (Raised _) => True
  | Err _ => False
  end.
Proof.
  revert out. induction l as [|kv l IH]; intros out; cbn [foldl].
  - rewrite sum_N_nil. intros. split; [lia|done].
  - intros [Hkv Hl]%Forall_cons Ho. unfold put_step at 2. cbn [mbind result_bind]. destruct (key_of (fst kv)) as [key|]; [|by rewrite put_fold_bad].
    specialize (IH (put_pair out key kv) Hl (put_pair_le n _ _ _ Ho Hkv)). destruct (foldl _ _ l) as [out'|]; [|done].
    pose proof (put_pair_cost out key kv). rewrite sum_N_cons. split; [lia|apply IH].
Qed.
Lemma sum_kept out : sum_N kept_cost out = sum_N (pair_cost w) (snd <$> out).
Proof. induction out as [|p out IH]; [done|]. by rewrite fmap_cons, !sum_N_cons, IH. Qed.

Lemma flatten_spec n pairs : Forall (entry_le n) pairs ->
  match flatten pairs with
  | Ok m => (sum_N (pair_cost w) m <= sum_N entry_cost pairs)%N /\ Forall (pair_le n) m
  | Err (Raised _) => True
  | Err _ => False
  end.
Proof.
  intros Hp. unfold flatten. pose proof (split_pairs_spec n pairs [] [] Hp (Forall_nil_2 _) (Forall_nil_2 _)) as Hs.
  destruct (split_pairs [] [] pairs) as [[m o]|]; [|done]. destruct Hs as (Hc & Hm & Ho).
  pose proof (put_fold_spec n (m ++ o) [] (proj2 (Forall_app _ _ _) (conj Hm Ho)) (Forall_nil_2 _)) as Hf.
  destruct (foldl _ _ _) as [out|]; [|done]. destruct Hf as [Hk Hl]. rewrite sum_kept, sum_N_nil, sum_N_app in *.
  split; [rewrite sum_N_nil in Hc; lia|]. apply Forall_fmap. exact Hl.
Qed.

(** ** Frames *)

Definition frame_cost (f : Frame) : N :=
  match f with
  | FrSeq items _ => sum_N (cost w) items
  | FrMap pairs key _ => sum_N entry_cost pairs + match key with Some k => item_cost k | None => 0 end
  end%N.
Definition frame_le (n : nat) (f : Frame) : Prop :=
  match f with
  | FrSeq items _ => Forall (fun v => depth v <= n) items
  | FrMap pairs key _ => Forall (entry_le n) pairs /\ match key with Some k => item_le n k | None => True end
  end.

Lemma fill_frame_spec n f item f' : fill_frame f item = Ok f' -> (match item with IValue v => depth v <= n | _ => True end) ->
  frame_le n f -> (frame_cost f' <= frame_cost f + match item with IEquals => 1 + w #"=" | _ => item_cost item end)%N /\ frame_le n f'.
Proof.
  intros Hf Hi Hl. destruct f as [items sh|pairs [k|] sh]; cbn [fill_frame mbind result_bind] in Hf.
  - destruct item as [v| |]; try discriminate Hf; injection Hf as <-. cbn. rewrite sum_N_app, sum_N_cons, sum_N_nil. split; [lia|].
    apply Forall_app. split; [done|by repeat constructor].
  - destruct item as [v| |]; try discriminate Hf; injection Hf as <-. destruct Hl as [Hp Hk]. cbn. rewrite sum_N_app, sum_N_cons, sum_N_nil.
    unfold entry_cost at 2. cbn. split; [lia|]. split; [|done]. apply Forall_app. split; [done|]. repeat constructor; done.
  - injection Hf as <-. destruct Hl as [Hp _]. destruct item as [v| |]; cbn; (split; [lia|split; [done|cbn; lia || done]]).
Qed.

Lemma pair_items_spec n items items' : pair_items items = Ok items' ->
  sum_N (cost w) items' = sum_N (cost w) items /\ (Forall (fun v => depth v <= n) items -> Forall (fun v => depth v <= n) items').
Proof.
  revert items'. induction items as [|v items IH]; intros items' E; [by injection E as <-|]. unfold pair_items in E. cbn [foldr] in E.
  fold (pair_items items) in E. destruct (pair_item v) as [v'|] eqn:Ev; [|done]. destruct (pair_items items) as [l|]; [|done].
  injection E as <-. destruct (IH l eq_refl) as [H1 H2].
  destruct v as [| | | | | |[|[k x] [|]]]; try discriminate. injection Ev as <-.
  rewrite !sum_N_cons, H1, cost_map, cost_seq, !sum_N_cons, !sum_N_nil. unfold pair_cost. cbn [fst snd]. split; [lia|].
  intros [Hv Hi]%Forall_cons. constructor; [|by apply H2]. destruct n as [|n]; [cbn in Hv; lia|].
  apply depth_map, Forall_cons in Hv as [[? ?] _]. apply depth_seq. by repeat constructor.
Qed.
Lemma close_frame_spec n f : frame_le n f ->
  match close_frame f with
  | Ok v => (cost w v <= 1 + frame_cost f)%N /\ depth v <= S n
  | Err (Raised _) => True
  | Err _ => False
  end.
Proof.
  intros Hl. destruct f as [items sh|pairs [k|] sh]; [|done|].
  - assert (Hs : forall items', sum_N (cost w) items' = sum_N (cost w) items -> Forall (fun v => depth v <= n) items' ->
      (cost w (VSeq items') <= 1 + frame_cost (FrSeq items sh))%N /\ depth (VSeq items') <= S n).
    { intros items' E Hd. rewrite cost_seq. cbn [frame_cost]. split; [lia|by apply depth_seq]. }
    destruct sh; cbn [close_frame]; [by apply Hs..|]. destruct (pair_items items) as [l|] eqn:El; [|done]. cbn.
    apply (pair_items_spec n) in El as [H1 H2]. apply Hs; [done|by apply H2].
  - destruct Hl as [Hp _]. pose proof (flatten_spec n pairs Hp) as Hf.
    assert (Hm : forall m, (sum_N (pair_cost w) m <= sum_N entry_cost pairs)%N -> Forall (pair_le n) m ->
      (cost w (VMap m) <= 1 + frame_cost (FrMap pairs None sh))%N /\ depth (VMap m) <= S n).
    { intros m E Hd. rewrite cost_map. cbn [frame_cost]. split; [lia|by apply depth_map]. }
    cbn [close_frame]. destruct (flatten pairs) as [m|e]; [|by destruct sh]. destruct Hf as [H1 H2].
    destruct sh; cbn [fmap result_fmap]; [by apply Hm| |by apply Hm]. apply Hm.
    + etrans; [|exact H1]. clear. induction m as [|kv m IH]; [done|]. rewrite fmap_cons, !sum_N_cons.
      pose proof (cost_pos w (snd kv)). unfold pair_cost in *. cbn [fst snd cost] in *. lia.
    + apply Forall_fmap. eapply Forall_impl; [exact H2|]. intros kv [? ?]. split; [done|cbn; lia].
Qed.

(** ** The builder *)

Context (Hw : charged w).

Definition anchors_cost (m : gmap nat (Value * nat)) : N := sum_N (fun kv => cost w (fst (snd kv))) (map_to_list m).
Definition stack_cost (l : list (Frame * nat)) : N := sum_N (fun fa => 1 + frame_cost (fst fa))%N l.
(** All a builder holds: its open frames, the copies kept for aliases, its result. *)
Definition held (b : Builder) : N :=
  (stack_cost (b_stack b) + anchors_cost (b_anchors b) + match b_done b with Some v => cost w v | None => 0 end)%N.
(** What is inside the frame at height [h] goes no deeper than is left. *)
Fixpoint stack_le (l : list (Frame * nat)) : Prop :=
  match l with
  | [] => True
  | fa :: rest => S (length rest) <= MAX_DEPTH /\ frame_le (MAX_DEPTH - S (length rest)) (fst fa) /\ stack_le rest
  end.
(** [paid] is what the texts of the scalars read so far come to. *)
Record bounded (paid : N) (b : Builder) : Prop := mk_bounded {
  bo_nodes : (b_nodes b <= MAX_NODES)%N;
  bo_held : (held b <= b_nodes b + paid)%N;
  bo_stack : stack_le (b_stack b);
  bo_anchors : forall i v d, b_anchors b !! i = Some (v, d) -> d = depth v;
  bo_done : forall v, b_done b = Some v -> depth v <= MAX_DEPTH
}.

Lemma sum_N_perm {A} (f : A -> N) l r : l ≡ₚ r -> sum_N f l = sum_N f r.
Proof. induction 1; rewrite ?sum_N_cons; lia. Qed.
Lemma anchors_insert i x m : (anchors_cost (<[i := x]> m) <= anchors_cost m + cost w (fst x))%N.
Proof.
  assert (Hf : forall m' : gmap nat (Value * nat), m' !! i = None -> forall y, anchors_cost (<[i := y]> m') = (cost w (fst y) + anchors_cost m')%N).
  { intros m' Hm y. unfold anchors_cost. by rewrite (sum_N_perm _ _ _ (map_to_list_insert m' i y Hm)), sum_N_cons. }
  rewrite <- insert_delete_eq, (Hf _ (lookup_delete_eq _ _)).
  assert (Hd : (anchors_cost (delete i m) <= anchors_cost m)%N); [|lia].
  destruct (m !! i) as [y|] eqn:Ei; [|by rewrite delete_id]. rewrite <- (insert_delete_id m i y Ei) at 2.
  rewrite (Hf _ (lookup_delete_eq _ _)). lia.
Qed.
Lemma count_spec n b (Q : unit -> Builder -> Prop) : (b_nodes b <= MAX_NODES)%N ->
  ((b_nodes b + n <= MAX_NODES)%N -> Q tt (set_nodes (b_nodes b + n) b)) -> wp (count n) Q b.
Proof.
  intros Hb HQ. unfold wp, count. destruct (_ <? _)%N eqn:E; [done|]. apply N.ltb_ge in E. unfold usize_add in *.
  assert (MAX_NODES < U64_MAX)%N by done. rewrite N.min_l in * by lia. by apply HQ.
Qed.

(** [b] with [c] more, counted but not yet put in. *)
Definition ready (c paid : N) (b : Builder) : Prop := bounded paid b /\ (held b + c <= b_nodes b + paid)%N.
Definition full_cost (i : Item) : N := match i with IEquals => 1 + w #"=" | _ => item_cost i end%N.
Definition room (i : Item) (n : nat) : Prop := match i with IValue v => depth v <= n | _ => True end.

Lemma size_charge v : (size v <= MAX_NODES)%N -> (cost w v <= size v)%N.
Proof.
  intros Hs. assert (MAX_NODES < U64_MAX)%N by done. rewrite <- (size_cost v) by lia. by apply cost_le.
Qed.
Lemma keep_anchor_spec c paid item anchor b (Q : unit -> Builder -> Prop) : ready c paid b ->
  (forall b', ready c paid b' -> b_stack b' = b_stack b -> Q tt b') -> wp (keep_anchor item anchor) Q b.
Proof.
  intros [[Hn Hh Hs Ha Hd] Hc] HQ. destruct item as [v| |]; cbn [keep_anchor]; [|by apply wp_ret, HQ..].
  step1; [by apply wp_ret, HQ|]. apply wp_bind, count_spec; [done|]. intros Hm. apply wp_modify, HQ; [|done].
  pose proof (size_charge v ltac:(lia)). pose proof (anchors_insert anchor (v, depth v) (b_anchors b)) as Hi. cbn [fst] in Hi.
  assert (Hh' : (held (set_anchors (<[anchor:=(v, depth v)]> (b_anchors b)) (set_nodes (b_nodes b + size v) b)) <= held b + cost w v)%N).
  { unfold held. cbn. lia. }
  split; [split; try done; cbn; [lia|]|cbn in *; lia].
  intros i x d. rewrite lookup_insert_Some. intros [[_ [= <- <-]]|[_ ?]]; [done|by eapply Ha].
Qed.
Lemma fill_top f a stack item f' : stack_le ((f, a) :: stack) -> room item (MAX_DEPTH - S (length stack)) ->
  fill_frame f item = Ok f' -> stack_le ((f', a) :: stack) /\ (stack_cost ((f', a) :: stack) <= stack_cost ((f, a) :: stack) + full_cost item)%N.
Proof.
  intros (H1 & H2 & H3) Hr Hf. destruct (fill_frame_spec (MAX_DEPTH - S (length stack)) f item f') as [Hc Hl]; [done| |done|].
  { by destruct item. }
  split; [by split|]. unfold stack_cost. rewrite !sum_N_cons. cbn [fst]. unfold full_cost. destruct item; cbn [item_cost] in *; lia.
Qed.
Lemma push_item_spec paid item anchor b : ready (full_cost item) paid b -> room item (MAX_DEPTH - length (b_stack b)) ->
  wp (push_item item anchor) (fun _ b' => bounded paid b') b.
Proof.
  intros Hb Hr. unfold push_item. apply wp_bind. apply (keep_anchor_spec (full_cost item) paid); [done|]. intros b1 [[Hn Hh Hs Ha Hd] Hc] Es.
  rewrite <- Es in Hr. apply wp_bind, wp_ask. unfold id. destruct (b_stack b1) as [|[f a] stack] eqn:Eb.
  - apply wp_bind. destruct item as [v| |]; cbn [plain_item lift]; [|done..]. apply wp_ret, wp_modify. cbn [length room] in Hr. rewrite Nat.sub_0_r in Hr. cbn in Hc.
    split; try done; cbn; [|by rewrite Eb|intros ? [= <-]; lia].
    unfold held in *. cbn in *. rewrite Eb in *. cbn in *. lia.
  - apply wp_bind. destruct (fill_frame f item) as [f'|] eqn:Ef; [|done]. cbn [lift]. apply wp_ret, wp_modify.
    destruct (fill_top f a stack item f' Hs Hr Ef) as [Hl Hk].
    split; try done. unfold held in *. cbn in *. rewrite Eb in Hc. lia.
Qed.

Lemma open_frame_spec paid f anchor b : bounded paid b -> frame_cost f = 0%N -> (forall n, frame_le n f) ->
  wp (open_frame f anchor) (fun _ b' => bounded paid b') b.
Proof.
  intros [Hn Hh Hs Ha Hd] Hf Hl. unfold open_frame. apply wp_bind, wp_ask. unfold id. step1; [done|]. apply Nat.leb_gt in E.
  apply wp_bind, count_spec; [done|]. intros Hm. apply wp_modify. split; try done.
  unfold held, stack_cost in *. cbn. rewrite sum_N_cons. cbn [fst]. lia.
Qed.
Lemma close_spec paid b : bounded paid b -> wp close (fun _ b' => bounded paid b') b.
Proof.
  intros [Hn Hh Hs Ha Hd]. unfold close. apply wp_bind, wp_ask. unfold id. destruct (b_stack b) as [|[f a] stack] eqn:Eb; [done|].
  apply wp_bind, wp_modify, wp_bind. destruct Hs as (H1 & H2 & H3).
  pose proof (close_frame_spec _ f H2) as Hf. unfold wp at 1. destruct (close_frame f) as [v|[]]; [|done..].
  destruct Hf as [Hc Hv]. apply push_item_spec.
  - assert (Hx : (held (set_stack stack b) + (1 + frame_cost f) <= held b)%N).
    { unfold held, stack_cost. cbn. rewrite Eb, sum_N_cons. cbn [fst]. lia. }
    split; [split; try done|]; change (b_nodes (set_stack stack b)) with (b_nodes b); unfold full_cost, item_cost; lia.
  - cbn [room]. change (b_stack (set_stack stack b)) with stack. lia.
Qed.

Section on_event.
Context `{Debug, Lowercase}.

Lemma anchor_id_spec paid name b : bounded paid b -> wp (anchor_id name) (fun _ b' => bounded paid b' /\ b_stack b' = b_stack b) b.
Proof.
  intros Hb. unfold anchor_id. destruct name as [name|]; [|by apply wp_ret]. apply wp_bind, wp_ask. cbv zeta. step1; [done|].
  apply wp_bind, wp_modify, wp_ret. by destruct Hb.
Qed.
Lemma paste_spec paid anchor b : bounded paid b -> wp (paste anchor) (fun _ b' => bounded paid b') b.
Proof.
  intros [Hn Hh Hs Ha Hd]. unfold paste. apply wp_bind, wp_ask. unfold id.
  destruct (b_names b !! anchor) as [i|]; cbn [mbind option_bind]; [|done].
  destruct (b_anchors b !! i) as [[v d]|] eqn:Ei; [|done]. apply Ha in Ei as ->. step1; [done|]. apply Nat.ltb_ge in E.
  apply wp_bind, count_spec; [done|]. intros Hm. pose proof (size_charge v ltac:(lia)).
  apply push_item_spec; [|cbn [room]; change (b_stack (set_nodes (b_nodes b + size v) b)) with (b_stack b); lia].
  split; [split; try done|]; change (held (set_nodes (b_nodes b + size v) b)) with (held b); cbn [full_cost item_cost];
    change (b_nodes (set_nodes (b_nodes b + size v) b)) with (b_nodes b + size v)%N; lia.
Qed.

(** What a scalar of text [t] can be. *)
Inductive of_text (t : bytes) : Value -> Prop :=
| of_null : of_text t Null
| of_bool b : of_text t (VBool b)
| of_int z : of_text t (VInt z)
| of_other : of_text t (VOther t)
| of_binary : of_text t (VOther #"binary")
| of_str : of_text t (VStr t).
Hint Constructors of_text : core.
Lemma construct_text kind t v : construct kind t = Ok v -> of_text t v.
Proof.
  unfold construct. case_bool_decide; [intros [= <-]; constructor|]. case_bool_decide.
  { unfold construct_bool. repeat case_match; intros; simplify_eq; constructor. }
  case_bool_decide.
  { unfold construct_int, not_int. destruct (no_underscores t); [done|]. destruct (int_value _ _) as [n|]; [|done].
    cbn [mbind result_bind]. intros [= <-]. case_match; constructor. }
  case_bool_decide; [unfold construct_timestamp; repeat case_match; intros; simplify_eq; constructor|].
  case_bool_decide; [unfold construct_float; repeat case_match; intros; simplify_eq; constructor|]. intros [= <-]. constructor.
Qed.
Lemma scalar_text t plain tag v : scalar t plain tag = Ok v -> of_text t v.
Proof.
  unfold scalar, binary. intros Hv. repeat case_match; simplify_eq; eauto using construct_text.
Qed.
Lemma of_text_cost t v : of_text t v -> (cost w v <= 1 + w t)%N /\ depth v = 0.
Proof.
  assert (Hb : (w #"binary" <= 0)%N) by (etrans; [apply Hw|done]).
  intros []; (split; [|done]); cbn [cost]; lia.
Qed.

(** The cost of the texts of events. *)
Definition event_text (ev : Event) : N := match ev with Scalar _ _ _ value => w value | _ => 0 end.
Lemma on_event_spec paid ev docs b : bounded paid b ->
  wp (on_event ev docs) (fun _ b' => bounded (paid + event_text ev) b') b.
Proof.
  intros Hb. destruct ev as [| | | |al|anchor tag im value|anchor tag| |anchor tag|]; cbn [on_event event_text]; rewrite ?N.add_0_r; try by apply wp_ret.
  - step1; [done|by apply wp_ret].
  - apply wp_bind. eapply wp_mono; [by apply paste_spec|]. intros ? b' ?. by apply wp_ret.
  - apply wp_bind. eapply wp_mono; [by apply anchor_id_spec|]. intros i b1 [[Hn Hh Hs Ha Hd] Es]. apply wp_bind, count_spec; [done|].
    intros Hm. apply wp_bind. set (b2 := set_nodes (b_nodes b1 + 1) b1).
    eapply (wp_mono _ (fun item b' => b' = b2 /\ (full_cost item <= 1 + w value)%N /\ forall n, room item n)).
    + step1; [apply wp_ret; split_and!; [done| |done]; cbn [full_cost item_cost]; lia|].
      step1; [apply wp_ret; split_and!; [done| |done]; cbn [full_cost]; assert (w #"=" <= 0)%N by (etrans; [apply Hw|done]); lia|].
      apply wp_bind. destruct (scalar value im tag) as [v|] eqn:Ev; [|done]. apply wp_ret, wp_ret.
      apply scalar_text, of_text_cost in Ev as [Hc Hv]. split_and!; [done|done|]. intros n. cbn. lia.
    + intros item ? (-> & Hc & Hr). apply wp_bind. eapply wp_mono; [apply (push_item_spec (paid + w value))|].
      * change (held b2) with (held b1) in *. split; [split; try done|]; change (held b2) with (held b1); change (b_nodes b2) with (b_nodes b1 + 1)%N; lia.
      * apply Hr.
      * intros ? b' ?. by apply wp_ret.
  - apply wp_bind. eapply wp_mono; [by apply anchor_id_spec|]. intros i b1 [Hb1 _]. apply wp_bind.
    destruct (shape tag false) as [sh|]; [|done]. apply wp_ret, wp_bind. eapply wp_mono; [apply open_frame_spec; [done|done|repeat constructor]|]. intros ? b' ?. by apply wp_ret.
  - apply wp_bind. eapply wp_mono; [by apply close_spec|]. intros ? b' ?. by apply wp_ret.
  - apply wp_bind. eapply wp_mono; [by apply anchor_id_spec|]. intros i b1 [Hb1 _]. apply wp_bind.
    destruct (shape tag true) as [sh|]; [|done]. apply wp_ret, wp_bind. eapply wp_mono; [apply open_frame_spec; [done|done|repeat constructor]|]. intros ? b' ?. by apply wp_ret.
  - apply wp_bind. eapply wp_mono; [by apply close_spec|]. intros ? b' ?. by apply wp_ret.
Qed.

(** A list of events, built from [b]. *)
Fixpoint build (evs : list Event) (docs : nat) (b : Builder) : result fault (option Value) :=
  match evs with
  | [] => Ok (b_done b)
  | ev :: evs => match on_event ev docs b with Ok (docs, b) => build evs docs b | Err e => Err e end
  end.
Lemma build_bounded evs docs b paid : bounded paid b ->
  match build evs docs b with
  | Ok (Some v) => (cost w v <= MAX_NODES + paid + sum_N event_text evs)%N /\ depth v <= MAX_DEPTH
  | Ok None | Err (Raised _) => True
  | Err _ => False
  end.
Proof.
  revert docs b paid. induction evs as [|ev evs IH]; intros docs b paid Hb; cbn [build].
  - destruct Hb as [Hn Hh Hs Ha Hd]. destruct (b_done b) as [v|] eqn:Ev; [|done]. rewrite sum_N_nil. split; [|by apply Hd].
    unfold held in Hh. rewrite Ev in Hh. lia.
  - pose proof (on_event_spec paid ev docs b Hb) as Hev. unfold wp in Hev. destruct (on_event ev docs b) as [[docs' b']|]; [|done].
    specialize (IH docs' b' _ Hev). rewrite sum_N_cons, <- !N.add_assoc in *. done.
Qed.
Lemma new_builder_bounded : bounded 0 new_builder.
Proof. split; try done. Qed.
End on_event.
End mappings.

(** ** What is open *)

Definition open_kind (f : Frame) : frame :=
  match f with FrSeq _ _ => FSeq | FrMap _ None _ => FKey | FrMap _ (Some _) _ => FValue end.
(** The builder's frames are what the events have open. A frame takes its value
    when the value is whole, the events count it from its start: [r'] is [r]
    with the node that is still open. *)
Fixpoint agrees (stack : list (Frame * nat)) (fs : list frame) : Prop :=
  match stack with
  | [] => fs ∈ [[FStart]; [FStream]; [FOpen; FStream]; [FClosed; FStream]; []]
  | (f, _) :: rest => exists r r', fs = open_kind f :: r' /\ agrees rest r /\ node r = Some r'
  end.

Lemma agrees_end stack k r' : k = FSeq \/ k = FKey -> agrees stack (k :: r') ->
  exists f a rest r, stack = (f, a) :: rest /\ open_kind f = k /\ agrees rest r /\ node r = Some r'.
Proof.
  intros Hk. destruct stack as [|[f a] rest]; cbn [agrees].
  - intros Hin. exfalso. destruct Hk as [-> | ->]; set_solver.
  - intros (r & r1 & [= Hf ->] & H1 & H2). by exists f, a, rest, r.
Qed.
Lemma fill_agrees f item f' r r' : fill_frame f item = Ok f' -> node (open_kind f :: r) = Some r' -> r' = open_kind f' :: r.
Proof.
  intros Hf Hn. destruct f as [items sh|pairs [k|] sh]; cbn in Hf, Hn; injection Hn as <-.
  - by destruct item; try discriminate; injection Hf as <-.
  - by destruct item; try discriminate; injection Hf as <-.
  - by injection Hf as <-.
Qed.

Lemma keep_anchor_stack item anchor b (Q : unit -> Builder -> Prop) :
  (forall b', b_stack b' = b_stack b -> Q tt b') -> wp (keep_anchor item anchor) Q b.
Proof.
  intros HQ. destruct item; cbn [keep_anchor]; [|by apply wp_ret, HQ..]. step1; [by apply wp_ret, HQ|].
  apply wp_bind. unfold wp, count. destruct (_ <? _)%N; [done|]. by apply wp_modify, HQ.
Qed.
Lemma push_agrees item anchor b r r' : agrees (b_stack b) r -> node r = Some r' ->
  wp (push_item item anchor) (fun _ b' => agrees (b_stack b') r') b.
Proof.
  intros Ha Hn. unfold push_item. apply wp_bind, keep_anchor_stack. intros b1 Es. rewrite <- Es in Ha.
  apply wp_bind, wp_ask. unfold id. destruct (b_stack b1) as [|[f a] stack] eqn:Eb.
  - apply wp_bind. destruct (plain_item item); [|done]. apply wp_ret, wp_modify. cbn. rewrite Eb. cbn in Ha |- *.
    repeat (apply elem_of_cons in Ha as [->|Ha]; [first [discriminate Hn|injection Hn as <-; set_solver]|]). by apply not_elem_of_nil in Ha.
  - apply wp_bind. destruct (fill_frame f item) as [f'|] eqn:Ef; [|done]. apply wp_ret, wp_modify.
    destruct Ha as (q & q' & -> & H1 & H2). cbn. exists q, q'. split; [by eapply fill_agrees|done].
Qed.
Lemma count_stack n b (Q : unit -> Builder -> Prop) : (forall b', b_stack b' = b_stack b -> Q tt b') -> wp (count n) Q b.
Proof. intros HQ. unfold wp, count. destruct (_ <? _)%N; [done|]. by apply HQ. Qed.
Lemma open_agrees f anchor b r r' : agrees (b_stack b) r -> node r = Some r' ->
  wp (open_frame f anchor) (fun _ b' => agrees (b_stack b') (open_kind f :: r')) b.
Proof.
  intros Ha Hn. unfold open_frame. apply wp_bind, wp_ask. unfold id. step1; [done|]. apply wp_bind, count_stack. intros b1 Es.
  apply wp_modify. cbn. rewrite Es. by exists r, r'.
Qed.
Lemma close_agrees b k r' : k = FSeq \/ k = FKey -> agrees (b_stack b) (k :: r') -> (exists n, frame_le n (default (FrSeq [] Plain) (fst <$> head (b_stack b)))) ->
  wp close (fun _ b' => agrees (b_stack b') r') b.
Proof.
  intros Hk (f & a & rest & r & Es & Hf & Hr & Hn)%agrees_end [n Hl]; [|done]. rewrite Es in Hl. cbn in Hl.
  unfold close. apply wp_bind, wp_ask. unfold id. rewrite Es. apply wp_bind, wp_modify, wp_bind. unfold wp at 1.
  pose proof (close_frame_spec (fun _ => 0%N) n f Hl) as Hc. destruct (close_frame f) as [v|[]]; [|done..].
  by apply (push_agrees _ _ _ r).
Qed.

Section ends.
Context `{Debug, Lowercase}.

Lemma anchor_id_stack name b : wp (anchor_id name) (fun _ b' => b_stack b' = b_stack b) b.
Proof.
  unfold anchor_id. destruct name as [name|]; [|by apply wp_ret]. apply wp_bind, wp_ask. cbv zeta. step1; [done|].
  by apply wp_bind, wp_modify, wp_ret.
Qed.
Lemma top_le w paid b : bounded w paid b -> exists n, frame_le n (default (FrSeq [] Plain) (fst <$> head (b_stack b))).
Proof. intros [_ _ Hs _ _]. destruct (b_stack b) as [|fa rest]; [exists 0; constructor|]. destruct Hs as (_ & Hl & _). by eexists. Qed.
Lemma on_event_agrees w paid ev docs b fs fs' : bounded w paid b -> agrees (b_stack b) fs -> accept fs ev = Some fs' ->
  wp (on_event ev docs) (fun _ b' => agrees (b_stack b') fs') b.
Proof.
  intros Hb Ha He.
  assert (Hs : forall k l, fs = k :: l -> k <> FSeq -> k <> FKey -> k <> FValue -> b_stack b = []).
  { intros k l -> H1 H2 H3. destruct (b_stack b) as [|[f a] rest]; [done|]. destruct Ha as (q & q' & [= -> ->] & _). by destruct f as [|? []]. }
  destruct ev as [| | | |al|anchor tag im value|anchor tag| |anchor tag|]; cbn [on_event accept] in *.
  - apply wp_ret. repeat case_match; simplify_eq; rewrite (Hs _ _ eq_refl) by done; cbn; set_solver.
  - apply wp_ret. repeat case_match; simplify_eq; rewrite (Hs _ _ eq_refl) by done; cbn; set_solver.
  - step1; [done|]. apply wp_ret. repeat case_match; simplify_eq; rewrite (Hs _ _ eq_refl) by done; cbn; set_solver.
  - apply wp_ret. repeat case_match; simplify_eq; rewrite (Hs _ _ eq_refl) by done; cbn; set_solver.
  - apply wp_bind. eapply (wp_mono _ (fun _ b' => agrees (b_stack b') fs')); [|intros ? b' ?; by apply wp_ret].
    unfold paste. apply wp_bind, wp_ask. unfold id. destruct (_ ≫= _) as [[v d]|]; [|done]. step1; [done|].
    apply wp_bind, count_stack. intros b1 Es. apply (push_agrees _ _ _ fs); [by rewrite Es|done].
  - apply wp_bind. eapply wp_mono; [by apply anchor_id_stack|]. intros i b1 E1. apply wp_bind, count_stack. intros b2 E2. apply wp_bind.
    eapply (wp_mono _ (fun _ b' => b_stack b' = b_stack b)).
    + do 2 (step1; [apply wp_ret; congruence|]). apply wp_bind. destruct (scalar _ _ _); [|done]. apply wp_ret, wp_ret. congruence.
    + intros item b3 E3. apply wp_bind. eapply wp_mono; [apply (push_agrees _ _ _ fs); [by rewrite E3|done]|]. intros ? b' ?. by apply wp_ret.
  - apply wp_bind. eapply wp_mono; [by apply anchor_id_stack|]. intros i b1 E1. apply wp_bind. destruct (shape tag false) as [sh|]; [|done].
    destruct (node fs) as [r'|] eqn:En; [|done]. injection He as <-.
    apply wp_ret, wp_bind. eapply wp_mono; [apply (open_agrees _ _ _ fs r'); [by rewrite E1|done]|]. intros ? b' ?. by apply wp_ret.
  - destruct fs as [|[] r]; try done. injection He as ->. apply wp_bind. eapply wp_mono; [eapply close_agrees; [by left|done|by eapply top_le]|].
    intros ? b' ?. by apply wp_ret.
  - apply wp_bind. eapply wp_mono; [by apply anchor_id_stack|]. intros i b1 E1. apply wp_bind. destruct (shape tag true) as [sh|]; [|done].
    destruct (node fs) as [r'|] eqn:En; [|done]. injection He as <-.
    apply wp_ret, wp_bind. eapply wp_mono; [apply (open_agrees _ _ _ fs r'); [by rewrite E1|done]|]. intros ? b' ?. by apply wp_ret.
  - destruct fs as [|[] r]; try done. injection He as ->. apply wp_bind. eapply wp_mono; [eapply close_agrees; [by right|done|by eapply top_le]|].
    intros ? b' ?. by apply wp_ret.
Qed.
End ends.

(** ** What a mapping holds *)

(** The value of the last pair under [k]. *)
Definition under (k : Key) (kv : Value * Value) : option Value := if bool_decide (key_of (fst kv) = Some k) then Some (snd kv) else None.
Definition last_under (k : Key) (l : list (Value * Value)) : option Value := last (omap (under k) l).
(** The pairs of a mapping's own, and what its [<<] keys name. *)
Definition own_pairs (pairs : list (Item * Value)) : list (Value * Value) :=
  omap (fun p => match fst p with IValue k => Some (k, snd p) | _ => None end) pairs.
Definition merge_values (pairs : list (Item * Value)) : list Value :=
  omap (fun p => match fst p with IMerge => Some (snd p) | _ => None end) pairs.
(** What a merged value has under [k]: a mapping's own, or that of the first of
    a list of mappings that has it. *)
Definition merge_says (k : Key) (v : Value) : option Value :=
  match v with
  | VMap m => last_under k m
  | VSeq maps => head (omap (fun m => match m with VMap m => last_under k m | _ => None end) maps)
  | _ => None
  end.

Lemma last_app_default {A} (l r : list A) : last (l ++ r) = match last r with Some x => Some x | None => last l end.
Proof.
  destruct r as [|x r _] using rev_ind; [by rewrite app_nil_r|]. by rewrite app_assoc, !last_snoc.
Qed.
Lemma last_under_app k l r : last_under k (l ++ r) = match last_under k r with Some v => Some v | None => last_under k l end.
Proof. unfold last_under. by rewrite omap_app, last_app_default. Qed.

Lemma merge_fold_says k maps merged out : foldl merge_one (Ok merged) maps = Ok out ->
  last_under k out = match last (omap (fun m => match m with VMap m => last_under k m | _ => None end) maps) with
                     | Some v => Some v | None => last_under k merged end.
Proof.
  revert merged. induction maps as [|m maps IH]; intros merged; cbn [foldl]; [by intros [= ->]|].
  cbn [merge_one mbind result_bind]. destruct m as [| | | | | |m]; try (rewrite merge_fold_bad; discriminate).
  intros E%IH. rewrite E, last_under_app. cbn [omap list_omap]. destruct (last_under k m) as [v|]; [|done].
  change (v :: ?l) with ([v] ++ l). rewrite last_app_default. by destruct (last _).
Qed.
Lemma last_reverse {A} (l : list A) : last (reverse l) = head l.
Proof. destruct l as [|x l]; [done|]. by rewrite reverse_cons, last_snoc. Qed.
Lemma omap_reverse {A B} (f : A -> option B) l : omap f (reverse l) = reverse (omap f l).
Proof.
  induction l as [|x l IH]; [done|]. rewrite reverse_cons, omap_app, IH. cbn [omap list_omap]. destruct (f x); [by rewrite reverse_cons|by rewrite app_nil_r].
Qed.
Lemma merge_says_spec k merged v out : merge merged v = Ok out ->
  last_under k out = match merge_says k v with Some x => Some x | None => last_under k merged end.
Proof.
  destruct v as [| | | | |maps|m]; try discriminate; cbn [merge merge_says].
  - intros E%(merge_fold_says k). by rewrite E, omap_reverse, last_reverse.
  - intros [= <-]. by rewrite last_under_app.
Qed.
Lemma split_pairs_says k pairs merged own m o : split_pairs merged own pairs = Ok (m, o) ->
  o = own ++ own_pairs pairs /\
  last_under k m = match last (omap (merge_says k) (merge_values pairs)) with Some x => Some x | None => last_under k merged end.
Proof.
  revert merged own. induction pairs as [|[[x| |] v] pairs IH]; intros merged own; cbn [split_pairs].
  - intros [= <- <-]. by rewrite app_nil_r.
  - intros [-> E]%IH. split; [by rewrite <- app_assoc|done].
  - destruct (merge merged v) as [merged'|] eqn:Em; [|done]. intros [-> E]%IH. split; [done|].
    rewrite E, (merge_says_spec k _ _ _ Em). unfold merge_values. cbn [omap list_omap fst snd]. fold (merge_values pairs).
    destruct (merge_says k v) as [x|]; [|done]. change (x :: ?l) with ([x] ++ l). rewrite last_app_default. by destruct (last _).
  - done.
Qed.

(** The value kept under [k]. *)
Definition kept (k : Key) (out : list (Key * (Value * Value))) : option Value :=
  snd ∘ snd <$> find (fun p => bool_decide (fst p = k)) out.
Definition keyed (out : list (Key * (Value * Value))) : Prop :=
  NoDup out.*1 /\ Forall (fun p => key_of (fst (snd p)) = Some (fst p)) out.
Lemma find_app_none {A} (f : A -> bool) l r : Forall (fun x => f x = false) l -> find f (l ++ r) = find f r.
Proof. induction 1 as [|x l Hx _ IH]; [done|]. cbn. by rewrite Hx. Qed.
Lemma kept_put k out key kv : keyed out -> key_of (fst kv) = Some key ->
  keyed (put_pair out key kv) /\ kept k (put_pair out key kv) = (if bool_decide (key = k) then Some (snd kv) else kept k out).
Proof.
  intros [Hn Hk] Hkey. unfold put_pair. destruct (position _ out) as [i|] eqn:Ei.
  - apply position_Some in Ei as (_ & Hb & x & Hx & Ex). apply bool_decide_eq_true in Ex as <-.
    assert (exists l r, out = l ++ x :: r /\ i = length l /\ Forall (fun p => bool_decide (fst p = fst x) = false) l) as (l & r & -> & -> & Hf).
    { exists (take i out), (drop (S i) out). split; [symmetry; by apply take_drop_middle|].
      split; [rewrite length_take; apply lookup_lt_Some in Hx; lia|done]. }
    rewrite <- (Nat.add_0_r (length l)), alter_app_r. cbn [alter list_alter].
    apply Forall_app in Hk as [Hl [Hx' Hr]%Forall_cons]. split; [split|].
    + rewrite fmap_app, fmap_cons in *. exact Hn.
    + apply Forall_app. split; [done|]. by constructor.
    + unfold kept. case_bool_decide as Ek.
      * subst k. rewrite find_app_none by done. cbn. by rewrite bool_decide_true.
      * rewrite !find_app. destruct (find _ l); [done|]. cbn. by rewrite !bool_decide_false.
  - apply position_None in Ei. split; [split|].
    + rewrite fmap_app. apply NoDup_app. split; [done|]. split; [|apply NoDup_singleton].
      intros y (p & -> & Hp)%list_elem_of_fmap Hy%list_elem_of_singleton. eapply Forall_forall in Ei; [|done].
      by apply bool_decide_eq_false in Ei.
    + apply Forall_app. split; [done|]. by repeat constructor.
    + unfold kept. case_bool_decide as Ek.
      * subst k. rewrite find_app_none by done. cbn. by rewrite bool_decide_true.
      * rewrite find_app. destruct (find _ out); [done|]. cbn. by rewrite bool_decide_false.
Qed.
Lemma put_fold_keeps k l out out' : keyed out -> foldl put_step (Ok out) l = Ok out' ->
  keyed out' /\ kept k out' = match last_under k l with Some v => Some v | None => kept k out end.
Proof.
  revert out. induction l as [|kv l IH]; intros out Ho; cbn [foldl]; [by intros [= <-]|].
  unfold put_step at 2. cbn [mbind result_bind]. destruct (key_of (fst kv)) as [key|] eqn:Ek; [|by rewrite put_fold_bad].
  destruct (kept_put k out key kv Ho Ek) as [Ho' E]. intros [Hk E']%IH; [|done]. split; [done|]. rewrite E', E.
  change (kv :: l) with ([kv] ++ l). rewrite last_under_app. destruct (last_under k l); [done|].
  unfold last_under, under. cbn. rewrite Ek. destruct (decide (key = k)) as [->|Hne].
  - by rewrite !bool_decide_true.
  - rewrite !bool_decide_false; [done|congruence|done].
Qed.

Lemma last_under_absent k l : Forall (fun p => key_of (fst (snd p)) = Some (fst p)) l -> k ∉ l.*1 -> last_under k (snd <$> l) = None.
Proof.
  intros Hk Hn. unfold last_under. induction l as [|p l IH]; [done|]. apply Forall_cons in Hk as [Hp Hk]. rewrite fmap_cons in Hn. change (snd <$> p :: l) with ([snd p] ++ (snd <$> l)).
  apply not_elem_of_cons in Hn as [Hne Hn]. rewrite omap_app, last_app_default, (IH Hk Hn). cbn. unfold under. rewrite Hp, bool_decide_false; [done|congruence].
Qed.
Lemma kept_last k out : keyed out -> last_under k (snd <$> out) = kept k out.
Proof.
  intros [Hn Hk]. induction out as [|p out IH]; [done|]. apply NoDup_cons in Hn as [Hp Hn]. apply Forall_cons in Hk as [Ep Hk].
  specialize (IH Hn Hk). change (snd <$> p :: out) with ([snd p] ++ (snd <$> out)). rewrite last_under_app.
  unfold kept. cbn [find]. case_bool_decide as E.
  - subst k. rewrite (last_under_absent _ _ Hk) by done. unfold last_under. cbn. unfold under. by rewrite Ep, bool_decide_true.
  - fold (kept k out). rewrite IH. destruct (kept k out); [done|]. unfold last_under. cbn. unfold under. by rewrite Ep, bool_decide_false by congruence.
Qed.
Lemma keyed_nodup out : keyed out -> NoDup (key_of ∘ fst <$> (snd <$> out)).
Proof.
  intros [Hn Hk]. replace (key_of ∘ fst <$> (snd <$> out)) with (Some <$> out.*1); [by apply NoDup_fmap_2; [apply _|]|].
  clear Hn. induction Hk as [|p out Hp _ IH]; [done|]. rewrite !fmap_cons. cbn. by rewrite Hp, IH.
Qed.


Lemma charged_nothing : charged (fun _ => 0%N).
Proof. intros s. apply N.le_0_l. Qed.
Lemma charged_text : charged text_cost.
Proof. intros s. reflexivity. Qed.
Lemma sum_N_zero evs : sum_N (event_text (fun _ => 0%N)) evs = 0%N.
Proof. induction evs as [|ev evs IH]; [done|]. rewrite sum_N_cons, IH. by destruct ev. Qed.
Section parse.
Context `{Debug, Lowercase}.

(** The events a parser gives first, up to the first that is not given. *)
Lemma parse_loop_total fuel p b docs fs paid : well (p_scanner p) -> stands p fs -> measure p < fuel -> bounded (fun _ => 0%N) paid b ->
  agrees (b_stack b) fs ->
  match parse_loop fuel p b docs with
  | Ok r => exists evs, drain fuel p = Ok evs /\ build evs docs b = Ok r
  | Err (Raised _) => True
  | Err _ => False
  end.
Proof.
  revert p b docs fs paid. induction fuel as [|fuel IH]; intros p b docs fs paid Hp Hs Hm Hb Ha; [lia|]. cbn [parse_loop drain].
  pose proof (next_event_spec p fs Hp Hs) as Hn. destruct (next_event p) as [[[ev p']|[]]|]; [|done..|by exists []].
  destruct Hn as (Hp' & Hm' & fs' & He & Hs').
  pose proof (on_event_spec _ charged_nothing paid ev docs b Hb) as Hev. pose proof (on_event_agrees _ paid ev docs b fs fs' Hb Ha He) as Hag.
  unfold wp in Hev, Hag. destruct (on_event ev docs b) as [[docs' b']|[]] eqn:Eo; [|done..].
  specialize (IH p' b' docs' fs' _ Hp' Hs' ltac:(lia) Hev Hag). destruct (parse_loop fuel p' b' docs') as [r|[]]; [|done..].
  destruct IH as (evs & Ed & Eb). exists (ev :: evs). rewrite Ed. cbn [mbind result_bind build]. by rewrite Eo.
Qed.
Lemma parse_events text :
  match parse text with
  | Ok r => exists evs, (p ← new_parser text; drain (events_fuel text) p) = Ok evs /\ build evs 0 new_builder = Ok r
  | Err (Raised _) => True
  | Err _ => False
  end.
Proof.
  unfold parse. pose proof (new_parser_spec text) as Hn. destruct (new_parser text) as [p|[]]; [|done..]. destruct Hn as (Hp & Hs & Hm).
  cbn [mbind result_bind]. eapply parse_loop_total; [done..| |].
  - apply (new_builder_bounded (fun _ => 0%N)).
  - cbn. set_solver.
Qed.
End parse.

(** C10. Whatever text it is given, [parse] neither panics nor runs for ever, and
    what it gives is bounded however the text aliases: no deeper than
    [MAX_DEPTH] and of no more than [MAX_NODES] nodes, while the bytes of its
    texts are at most 64 for each node allowed and 64 for each 64 of the text
    the events themselves carry. *)
Theorem yaml_bounded `{Debug, Lowercase} (text : bytes) :
  match parse text with
  | Ok (Some v) =>
      depth v <= MAX_DEPTH /\ (cost (fun _ => 0) v <= MAX_NODES)%N /\
      exists evs, (p ← new_parser text; drain (events_fuel text) p) = Ok evs /\ nested evs /\
        (cost text_cost v <= MAX_NODES + sum_N (event_text text_cost) evs)%N
  | Ok None | Err (Raised _) => True
  | Err _ => False
  end.
Proof.
  pose proof (parse_events text) as Hp. destruct (parse text) as [[v|]|[]]; [|done..]. destruct Hp as (evs & Ed & Eb).
  pose proof (build_bounded (fun _ => 0%N) charged_nothing evs 0 new_builder 0 (new_builder_bounded _)) as H1.
  pose proof (build_bounded text_cost charged_text evs 0 new_builder 0 (new_builder_bounded _)) as H2.
  rewrite Eb in H1, H2. rewrite sum_N_zero in H1. destruct H1 as [H1 Hd]. destruct H2 as [H2 _]. split; [done|]. split; [lia|].
  exists evs. split; [done|]. split; [|lia]. pose proof (new_parser_spec text) as Hn.
  destruct (new_parser text) as [p|]; [|done]. destruct Hn as (Hw & Hs & Hm). cbn [mbind result_bind] in Ed.
  pose proof (drain_spec (events_fuel text) p [FStart] Hw Hs Hm) as He. rewrite Ed in He. apply He.
Qed.

(** A text with an anchor, a merge and a tag. *)
Module YamlDemo.
#[local] Instance plain_debug : Debug := {| debug_char c := #"A"; debug_str s := s |}.
#[local] Instance ascii_lower : Lowercase := fun s => s.
Definition text (ls : list bytes) : bytes := ls ≫= fun l => l ++ [x0a].
Definition value : result fault (option Value) :=
  parse (text [ #"base: &b {x: 1, y: 2}"; #"run:"; #"  - <<: *b"; #"    y: !!str 3"; #"  - 'it''s'"]).
End YamlDemo.

Example yaml_reads : YamlDemo.value = Ok (Some (VMap [
  (VStr #"base", VMap [(VStr #"x", VInt 1); (VStr #"y", VInt 2)]);
  (VStr #"run", VSeq [VMap [(VStr #"x", VInt 1); (VStr #"y", VStr #"3")]; VStr #"it's"])])).
Proof. vm_compute. reflexivity. Qed.
