(* ===== verification/Inetd.v ===== *)
(** [src/collect/inetd.rs]: the programs xinetd and inetd start for a
    connection, and the commands of hosts.allow and hosts.deny. *)

From S2P Require Import Prelude Slices Order Utf8 Paths PathMap Kinds Entry Sys Root Tree Users Scan Collect.

Definition XINETD : path := #"usr/sbin/xinetd".
Definition XINETD_CONF : path := #"etc/xinetd.conf".
Definition INETD : list path := [ #"usr/sbin/inetd"; #"usr/sbin/inetutils-inetd"].
Definition INETD_CONF : path := #"etc/inetd.conf".
Definition FILE_CAP : N := 256 * 1024.
Definition MAX_DEPTH : nat := 8.

(** ** xinetd's files *)

Record Service := mk_service { sv_rel : path; sv_name : bytes; sv_attrs : gmap bytes bytes }.
Record Xinetd := mk_xinetd {
  x_services : list Service; x_enabled : option (list bytes); x_disabled : list bytes; x_read : pset
}.
Definition no_xinetd : Xinetd := mk_xinetd [] None [] pm_empty.
Definition set_services (l : list Service) (c : Xinetd) : Xinetd := mk_xinetd l (x_enabled c) (x_disabled c) (x_read c).
Definition set_read (s : pset) (c : Xinetd) : Xinetd := mk_xinetd (x_services c) (x_enabled c) (x_disabled c) s.

(** An open block: its name, [None] for [defaults], and its attributes. *)
Definition block : Type := option bytes * gmap bytes bytes.

Definition defaults (attrs : gmap bytes bytes) (c : Xinetd) : Xinetd :=
  mk_xinetd (x_services c)
    (match attrs !! #"enabled" with Some v => Some (split_whitespace v) | None => x_enabled c end)
    (match attrs !! #"disabled" with Some v => x_disabled c ++ split_whitespace v | None => x_disabled c end)
    (x_read c).
Definition include_path (p : bytes) : path := drop_while (is_byte slash) (from_utf8_lossy p).

Definition is_list (key : bytes) : bool := bool_decide (key = #"enabled") || bool_decide (key = #"disabled").
Definition assign (key op value : bytes) (attrs : gmap bytes bytes) : gmap bytes bytes :=
  if bool_decide (op = #"=") then <[key := value]> attrs
  else if bool_decide (op = #"+=") && is_list key then
    <[key := match attrs !! key with Some v => v ++ #" " ++ value | None => value end]> attrs
  else if bool_decide (op = #"-=") && is_list key then
    let kept := match attrs !! key with
                | Some v => List.filter (fun w => negb (mem w (split_whitespace value))) (split_whitespace v)
                | None => []
                end in
    <[key := join #" " kept]> attrs
  else attrs.

(** What a line asks for. *)
Inductive xline :=
| XOpen (b : block)
| XInclude (file : path)
| XIncludeDir (d : path)
| XClose (b : block)
| XAttrs (b : block)
| XNothing.
Definition outside (words : list bytes) : xline :=
  match words with
  | [k; a] =>
      if bool_decide (k = #"service") then XOpen (Some (from_utf8_lossy a), ∅)
      else if bool_decide (k = #"defaults") && bool_decide (a = #"{") then XOpen (None, ∅)
      else if bool_decide (k = #"includedir") then XIncludeDir (include_path a)
      else if bool_decide (k = #"include") then XInclude (include_path a)
      else XNothing
  | [k] => if bool_decide (k = #"defaults") then XOpen (None, ∅) else XNothing
  | [k; a; b] =>
      if bool_decide (k = #"service") && bool_decide (b = #"{") then XOpen (Some (from_utf8_lossy a), ∅) else XNothing
  | _ => XNothing
  end.
Definition inside (b : block) (words : list bytes) : xline :=
  match words with
  | [w] => if bool_decide (w = #"}") then XClose b else XNothing
  | key :: op :: rest =>
      XAttrs (fst b, assign (from_utf8_lossy key) op (from_utf8_lossy (join #" " rest)) (snd b))
  | [] => XNothing
  end.
Definition read_line (b : option block) (raw : bytes) : xline :=
  let words := words_by is_ascii_whitespace (trim_ascii (before "#" raw)) in
  match b with None => outside words | Some b => inside b words end.
Definition loads (ent : dir_ent) : bool :=
  negb (de_is_dir ent) && negb (bool_decide (de_name ent = [])) && negb (existsb (is_byte ".") (de_name ent))
    && negb (ends_with #"~" (de_name ent)).
Definition close_block (p : path) (b : block) (c : Xinetd) : Xinetd :=
  match fst b with
  | Some name => set_services (x_services c ++ [mk_service p name (snd b)]) c
  | None => defaults (snd b) c
  end.

(** ** A service *)

Definition attr (s : Service) (k : bytes) : option bytes := sv_attrs s !! k.
Definition service_id (s : Service) : bytes := default (sv_name s) (attr s #"id").
Definition service_name (s : Service) : bytes :=
  if bool_decide (service_id s = sv_name s) then sv_name s else sv_name s ++ #" (" ++ service_id s ++ #")".
Definition switched_off (c : Xinetd) (s : Service) : bool :=
  match attr s #"disable" with Some v => eq_ignore_ascii_case v #"yes" | None => false end
  || mem (service_id s) (x_disabled c)
  || match x_enabled c with Some only => negb (mem (service_id s) only) | None => false end.
Definition SHOWN_ATTRS : list bytes := [ #"id"; #"port"; #"socket_type"; #"protocol"; #"type"; #"redirect"; #"server_args"].
Definition note_attr (s : Service) (e : Entry.entry) (k : bytes) : Entry.entry :=
  match attr s k with Some v => Entry.note e k v | None => e end.
Definition internal (s : Service) : bool :=
  match attr s #"type" with Some t => mem #"INTERNAL" (split_whitespace t) | None => false end.
Definition service_facts (c : Xinetd) (s : Service) (e : Entry.entry) : Entry.entry :=
  let e := Entry.note (set_trigger e Trigger.NetworkEvent) key.DAEMON #"xinetd" in
  let e := set_enabled e (if switched_off c s then Enablement.Disabled else Enablement.Enabled) in
  let e := set_principal e (attr s #"user") in
  let e := foldl (note_attr s) e SHOWN_ATTRS in
  match internal s, attr s #"server" with
  | false, Some server =>
      let args := match attr s #"server_args" with Some a => #" " ++ a | None => [] end in
      set_target_path (with_command e (Some (server ++ args))) (Some server)
  | _, _ => e
  end.

(** ** inetd *)

Definition is_account_end (b : byte) : bool := is_byte "." b || is_byte ":" b.
Record inetd_line := mk_inetd_line {
  il_service : bytes; il_socket : bytes; il_protocol : bytes; il_wait : bytes; il_user : bytes; il_server : bytes; il_argv : list bytes
}.
Definition read_inetd_line (raw : bytes) : option inetd_line :=
  let line := trim_ascii raw in
  if bool_decide (line = []) || starts_with #"#" line then None
  else match words_by is_ascii_whitespace line with
  | service :: socket :: protocol :: wait :: user :: server :: argv => Some (mk_inetd_line service socket protocol wait user server argv)
  | _ => None
  end.
Definition inetd_name (l : inetd_line) : bytes := from_utf8_lossy (il_service l) ++ #"/" ++ from_utf8_lossy (il_protocol l).
Definition inetd_facts (raw : bytes) (l : inetd_line) (e : Entry.entry) : Entry.entry :=
  let e := set_enabled (set_trigger e Trigger.NetworkEvent) Enablement.Enabled in
  let e := Entry.note e key.DAEMON #"inetd" in
  let e := Entry.note (Entry.note e #"socket_type" (from_utf8_lossy (il_socket l))) #"wait" (from_utf8_lossy (il_wait l)) in
  let e := set_principal e (Some (from_utf8_lossy (default [] (head (split_on is_account_end (il_user l)))))) in
  let e := if bool_decide (il_server l = #"internal") then e
           else set_target_path (with_command e (Some (join #" " (il_server l :: il_argv l)))) (Some (from_utf8_lossy (il_server l))) in
  flag_if (negb (is_utf8 (trim_ascii raw))) e Flag.EncodingAnomaly.

(** ** TCP wrappers *)

Definition backslash : byte := x5c.
Definition open_bracket : byte := "[".
Definition close_bracket : byte := "]".
Definition colon : byte := ":".
(** The fields before the one being read, that one, and whether the next byte is
    escaped or stands in brackets. *)
Record fields := mk_fields { fi_done : list bytes; fi_last : bytes; fi_escaped : bool; fi_bracket : bool }.
Definition field_step (f : fields) (b : byte) : fields :=
  let put esc br := mk_fields (fi_done f) (fi_last f ++ [b]) esc br in
  if fi_escaped f then put false (fi_bracket f)
  else if bool_decide (b = backslash) then mk_fields (fi_done f) (fi_last f) true (fi_bracket f)
  else if bool_decide (b = open_bracket) then put false true
  else if bool_decide (b = close_bracket) then put false false
  else if bool_decide (b = colon) && negb (fi_bracket f) then mk_fields (fi_done f ++ [fi_last f]) [] false false
  else put false (fi_bracket f).
Definition wrapper_fields (line : bytes) : list bytes :=
  let f := foldl field_step (mk_fields [] [] false false) line in trim_ascii <$> fi_done f ++ [fi_last f].

(** The keyword of an option and what follows it. *)
Definition option_of (opt : bytes) : bytes * bytes :=
  let n := default (length opt) (position (fun b => is_ascii_whitespace b || is_byte "=" b) opt) in
  let value := trim_ascii_start (drop n opt) in
  (to_ascii_lowercase (from_utf8_lossy (take n opt)), trim_ascii (default value (strip_prefix #"=" value))).
Definition runs_something (kv : bytes * bytes) : bool :=
  (bool_decide (fst kv = #"spawn") || bool_decide (fst kv = #"twist")) && negb (bool_decide (snd kv = [])).

(** A backslash at the end of a line joins the next to it. *)
Definition join_line (st : list bytes * bool) (raw : bytes) : list bytes * bool :=
  let '(out, open_) := st in
  let '(body, joined) := match strip_suffix [backslash] raw with Some b => (b, true) | None => (raw, false) end in
  (if open_ && negb (bool_decide (out = [])) then alter (fun l => l ++ body) (length out - 1) out else out ++ [body], joined).
Definition logical_lines (b : bytes) : list bytes := fst (foldl join_line ([], false) (split_on (is_byte newline) b)).

(** The daemons, the clients and the options of a rule that run something. *)
Definition read_rule (line : bytes) : option (bytes * bytes * list (bytes * bytes)) :=
  let t := trim_ascii line in
  if bool_decide (t = []) || starts_with #"#" t then None
  else match wrapper_fields t with
  | daemons :: clients :: ((_ :: _) as opts) => Some (from_utf8_lossy daemons, from_utf8_lossy clients, List.filter runs_something (option_of <$> opts))
  | _ => None
  end.
Definition wrapper_facts (installed : bool) (line daemons clients keyword value : bytes) (e : Entry.entry) : Entry.entry :=
  let e := set_trigger e Trigger.NetworkEvent in
  let e := if installed then set_enabled e Enablement.Enabled
           else Entry.note (set_enabled e Enablement.Disabled) #"not_run" #"libwrap is not installed" in
  let e := Entry.note (Entry.note (Entry.note e #"option" keyword) #"daemons" daemons) #"clients" clients in
  flag_if (negb (is_utf8 line)) (with_command e (Some value)) Flag.EncodingAnomaly.

(** ** The collector *)

Section inetd.
Context `{Strerror} `{Blake3}.

(** A line of a file, where [inc] reads a file it includes. *)
Definition take_line (inc : Xinetd -> path -> coll Xinetd) (p : path) (st : option block * Xinetd) (raw : bytes)
    : coll (option block * Xinetd) :=
  let '(b, c) := st in
  match read_line b raw with
  | XNothing => mret st
  | XOpen b => mret (Some b, c)
  | XAttrs b => mret (Some b, c)
  | XClose b => mret (None, close_block p b c)
  | XInclude f => c ← inc c f; mret (b, c)
  | XIncludeDir d =>
      ents ← dir d;
      c ← fold_coll (fun c n => inc c (path_join d n)) c (sort_by id (de_name <$> List.filter loads ents));
      mret (b, c)
  end.
(** [n] is nine less the depth. *)
Fixpoint xinetd_file (n : nat) (c : Xinetd) (p : path) : coll Xinetd :=
  match n with
  | O => mret c
  | S n =>
      if pm_mem (x_read c) p then mret c
      else
        let c := set_read (ps_insert p (x_read c)) c in
        b ← read_capped p FILE_CAP;
        match b with
        | None => mret c
        | Some b =>
            st ← fold_coll (take_line (xinetd_file n) p) (None, c) (split_on (is_byte newline) b);
            mret (snd st)
        end
  end.
Definition xinetd_conf : coll Xinetd := xinetd_file (S MAX_DEPTH) no_xinetd XINETD_CONF.
Definition xinetd : coll (list Entry.entry) :=
  c ← xinetd_conf;
  map_coll (fun s => e ← entry Kind.InetdService (sv_rel s) (service_name s); mret (service_facts c s e)) (x_services c).

Definition inetd : coll (list Entry.entry) :=
  b ← read_capped INETD_CONF FILE_CAP;
  match b with
  | None => mret []
  | Some b =>
      map_coll (fun x => e ← entry Kind.InetdService INETD_CONF (inetd_name (snd x)); mret (inetd_facts (fst x) (snd x) e))
        (omap (fun raw => pair raw <$> read_inetd_line raw) (split_on (is_byte newline) b))
  end.

Definition LIBWRAP : bytes := #"libwrap.so.0".
Definition multiarch (base : path) : coll (list path) :=
  ents ← dir base;
  mret (path_join base ∘ de_name <$> List.filter (fun ent => de_is_dir ent && ends_with #"-linux-gnu" (de_name ent)) ents).
Definition libwrap : coll bool :=
  a ← multiarch #"usr/lib";
  b ← multiarch #"lib";
  any_there ((fun d => path_join d LIBWRAP) <$> [ #"usr/lib64"; #"lib64"; #"usr/lib"; #"lib"] ++ a ++ b).

Definition rule_entries (installed : bool) (p : path) (line : bytes) : coll (list Entry.entry) :=
  match read_rule line with
  | None => mret []
  | Some (daemons, clients, opts) =>
      map_coll (fun kv =>
        e ← entry Kind.TcpWrapper p (daemons ++ #":" ++ fst kv);
        mret (wrapper_facts installed line daemons clients (fst kv) (snd kv) e)) opts
  end.
Definition wrapper_file (installed : bool) (out : list Entry.entry) (p : path) : coll (list Entry.entry) :=
  b ← read_capped p FILE_CAP;
  match b with
  | None => mret out
  | Some b => es ← map_coll (rule_entries installed p) (logical_lines b); mret (out ++ mjoin es)
  end.
Definition tcp_wrappers : coll (list Entry.entry) :=
  installed ← libwrap;
  fold_coll (wrapper_file installed) [] [ #"etc/hosts.allow"; #"etc/hosts.deny"].

Definition collect : coll (list Entry.entry) :=
  x ← there XINETD;
  a ← (if x : bool then xinetd else mret []);
  i ← any_there INETD;
  b ← (if i : bool then inetd else mret []);
  c ← tcp_wrappers;
  mret (a ++ b ++ c).
End inetd.
