(* ===== verification/InetdLaws.v ===== *)
(** [src/collect/inetd.rs]: the laws of the collector. Only a daemon that is
    installed starts what its file names; a service is on unless something says
    it is off; a rule's fields are told apart whatever they hold. *)

From S2P Require Import Prelude Slices Order Utf8 Paths PathMap Kinds Entry Sys Root Tree Users Scan Collect Inetd.

(** ** The fields of a rule *)

(** A field as a rule writes it: what ends or brackets one behind a backslash. *)
Definition escape_byte (b : byte) : bytes :=
  if bool_decide (b ∈ [backslash; colon; open_bracket]) then [backslash; b] else [b].
Definition escape (f : bytes) : bytes := f ≫= escape_byte.

Lemma field_escaped done l b : foldl field_step (mk_fields done l false false) (escape_byte b) = mk_fields done (l ++ [b]) false false.
Proof.
  unfold escape_byte. case_bool_decide as E.
  - cbn [foldl]. unfold field_step at 2. cbn [fi_escaped]. rewrite bool_decide_true by done. done.
  - cbn [foldl]. unfold field_step. cbn [fi_escaped fi_done fi_last fi_bracket negb].
    rewrite !not_elem_of_cons in E. destruct E as (E1 & E2 & E3 & _). rewrite (bool_decide_false (b = backslash)), (bool_decide_false (b = open_bracket)), (bool_decide_false (b = colon)) by done.
    by case_bool_decide.
Qed.
Lemma fields_escaped done l f : foldl field_step (mk_fields done l false false) (escape f) = mk_fields done (l ++ f) false false.
Proof.
  revert l. induction f as [|b f IH]; intros l; [by rewrite app_nil_r|]. unfold escape. rewrite bind_cons, foldl_app, field_escaped.
  fold (escape f). by rewrite IH, <- app_assoc.
Qed.
Lemma fields_joined done f fs :
  foldl field_step (mk_fields done [] false false) (join [colon] (escape <$> f :: fs)) =
    mk_fields (done ++ removelast (f :: fs)) (List.last (f :: fs) []) false false.
Proof.
  revert done f. induction fs as [|g fs IH]; intros done f; [cbn [fmap list_fmap join]; by rewrite fields_escaped, app_nil_r|].
  replace (join [colon] (escape <$> f :: g :: fs)) with (escape f ++ [colon] ++ join [colon] (escape <$> g :: fs)) by done.
  rewrite !foldl_app, fields_escaped. change (foldl field_step ?x [colon]) with (field_step x colon).
  change (field_step (mk_fields done ([] ++ f) false false) colon) with (mk_fields (done ++ [f]) [] false false).
  rewrite IH, <- app_assoc. done.
Qed.

(** C39. The fields of a rule of hosts.allow are the ones that were written: with
    a backslash before each backslash, colon and opening bracket of a field, and a colon
    between two, any fields at all are read back, blanks around them aside. *)
Theorem wrapper_round_trip (f : bytes) (fs : list bytes) :
  wrapper_fields (join [colon] (escape <$> f :: fs)) = trim_ascii <$> f :: fs.
Proof.
  unfold wrapper_fields. rewrite fields_joined. cbn [fi_done fi_last]. rewrite app_nil_l.
  f_equal. symmetry. by apply app_removelast_last.
Qed.

(** ** What each entry shows *)

Section inetd_laws.
Context `{Strerror} `{Blake3}.

(** libwrap is where the loader finds it. *)
Definition farms (h : snapshot) (r : root) (base : path) : list path :=
  path_join base ∘ de_name <$> List.filter (fun ent => de_is_dir ent && ends_with #"-linux-gnu" (de_name ent)) (listing h r base).
Definition has_libwrap (h : snapshot) (r : root) : bool :=
  existsb (holds h r) ((fun d => path_join d LIBWRAP) <$>
    [ #"usr/lib64"; #"lib64"; #"usr/lib"; #"lib"] ++ farms h r #"usr/lib" ++ farms h r #"lib").
Lemma value_libwrap h cx : value h cx libwrap = has_libwrap h (cx_root cx).
Proof.
  unfold libwrap. rewrite value_bind. set (cx1 := after h cx (multiarch #"usr/lib")).
  assert (Hr1 : cx_root cx1 = cx_root cx) by (apply after_root; unfold multiarch; solve_stays).
  rewrite value_bind. set (cx2 := after h cx1 (multiarch #"lib")).
  assert (Hr2 : cx_root cx2 = cx_root cx1) by (apply after_root; unfold multiarch; solve_stays).
  rewrite value_any_there, Hr2, Hr1. unfold multiarch. rewrite !value_bind, !value_dir, Hr1. done.
Qed.

(** Which daemon an entry is started by, and what it starts. *)
Definition by_daemon (daemon : bytes) (ps : list path) (h : snapshot) (r : root) (e : Entry.entry) : Prop :=
  e_kind e = Kind.InetdService /\ e_raw e !! key.DAEMON = Some daemon /\ existsb (holds h r) ps = true.
Inductive served (h : snapshot) (r : root) (e : Entry.entry) : Prop :=
| served_xinetd : by_daemon #"xinetd" [XINETD] h r e -> e_enabled e ∈ [Enablement.Enabled; Enablement.Disabled] -> served h r e
| served_inetd : by_daemon #"inetd" INETD h r e -> e_enabled e = Enablement.Enabled -> served h r e
| served_libwrap c : e_kind e = Kind.TcpWrapper -> e_command e = Some c -> c <> [] ->
    e_enabled e = (if has_libwrap h r then Enablement.Enabled else Enablement.Disabled) -> served h r e.

Lemma note_attrs s ks e : key.DAEMON ∉ ks ->
  let e' := foldl (note_attr s) e ks in
  e_kind e' = e_kind e /\ e_enabled e' = e_enabled e /\ e_trigger e' = e_trigger e /\ e_principal e' = e_principal e /\
  e_raw e' !! key.DAEMON = e_raw e !! key.DAEMON.
Proof.
  cbv zeta. revert e. induction ks as [|k ks IH]; intros e; [done|]. intros [Hk Hks]%not_elem_of_cons. cbn [foldl].
  destruct (IH (note_attr s e k) Hks) as (-> & -> & -> & -> & ->). unfold note_attr. destruct (attr s k); [|done].
  split_and!; try done. cbn. by rewrite lookup_insert_ne.
Qed.
Record service_shown (c : Xinetd) (s : Service) (e : Entry.entry) : Prop := mk_service_shown {
  ss_kind : e_kind e = Kind.InetdService;
  ss_trigger : e_trigger e = Trigger.NetworkEvent;
  ss_daemon : e_raw e !! key.DAEMON = Some #"xinetd";
  ss_user : e_principal e = attr s #"user";
  ss_enabled : e_enabled e = if switched_off c s then Enablement.Disabled else Enablement.Enabled
}.
Lemma service_facts_shown c s name e : made Kind.InetdService name e -> service_shown c s (service_facts c s e).
Proof.
  intros Hm. unfold service_facts. cbv zeta. set (e0 := set_principal _ _).
  destruct (note_attrs s SHOWN_ATTRS e0) as (H1 & H2 & H3 & H4 & H5); [by apply (bool_decide_eq_true_1 _)|].
  set (e1 := foldl _ e0 _) in *. clearbody e1.
  assert (Hs : service_shown c s e1).
  { split; [by rewrite H1; apply Hm|by rewrite H3| |by rewrite H4|by rewrite H2]. rewrite H5. cbn. by simplify_map_eq. }
  destruct (internal s); [done|]. destruct (attr s #"server"); [|done]. by destruct Hs.
Qed.
Lemma inetd_facts_shown raw l name e : made Kind.InetdService name e ->
  let e' := inetd_facts raw l e in
  e_kind e' = Kind.InetdService /\ e_trigger e' = Trigger.NetworkEvent /\ e_raw e' !! key.DAEMON = Some #"inetd" /\ e_enabled e' = Enablement.Enabled.
Proof.
  intros Hm. cbv zeta. unfold inetd_facts, flag_if, Entry.flag.
  assert (Hd : forall e, e_raw (Entry.note (Entry.note (Entry.note e key.DAEMON #"inetd") #"socket_type" (from_utf8_lossy (il_socket l))) #"wait"
    (from_utf8_lossy (il_wait l))) !! key.DAEMON = Some #"inetd") by (intros x; cbn; by simplify_map_eq).
  pose proof (md_kind _ _ _ Hm). destruct (negb _), (bool_decide (il_server l = _)); repeat case_match; split_and!; try done; apply Hd.
Qed.
Lemma wrapper_facts_shown b line d c k v name e : made Kind.TcpWrapper name e ->
  let e' := wrapper_facts b line d c k v e in
  e_kind e' = Kind.TcpWrapper /\ e_trigger e' = Trigger.NetworkEvent /\ e_command e' = Some v /\
  e_enabled e' = if b then Enablement.Enabled else Enablement.Disabled.
Proof.
  intros Hm. pose proof (md_kind _ _ _ Hm). cbv zeta. unfold wrapper_facts, flag_if, Entry.flag.
  by destruct b, (negb _); repeat case_match.
Qed.
End inetd_laws.

Section collecting.
Context `{Strerror} `{Blake3}.

Lemma stays_take_line inc p st raw : (forall c f, stays (inc c f)) -> stays (take_line inc p st raw).
Proof. intros Hi. unfold take_line. destruct st as [b c]. destruct (read_line b raw); solve_stays; done. Qed.
Lemma stays_xinetd_file n c p : stays (xinetd_file n c p).
Proof.
  revert c p. induction n as [|n IH]; intros c p; cbn [xinetd_file]; [apply stays_ret|]. destruct (pm_mem _ p); [apply stays_ret|].
  cbv zeta. apply stays_bind; [apply stays_read_capped|]. intros [b|]; [|apply stays_ret]. apply stays_bind; [|intros; apply stays_ret].
  apply stays_fold. intros. by apply stays_take_line.
Qed.
Lemma stays_xinetd : stays xinetd.
Proof. unfold xinetd, xinetd_conf. apply stays_bind; [apply stays_xinetd_file|]. intros c. solve_stays. Qed.
Lemma stays_inetd : stays inetd.
Proof. unfold inetd. solve_stays. Qed.

Lemma xinetd_shown c : yields (Forall2 (service_shown c) (x_services c))
  (map_coll (fun s => e ← entry Kind.InetdService (sv_rel s) (service_name s); mret (service_facts c s e)) (x_services c)).
Proof. apply yields_map2. intros s. eapply yields_bind; [apply entry_made|]. intros e He. by eapply yields_ret, service_facts_shown. Qed.

Definition shown_by (h : snapshot) (r : root) (e : Entry.entry) : Prop := e_trigger e = Trigger.NetworkEvent /\ served h r e.
Lemma xinetd_served h r : holds h r XINETD = true -> yields (Forall (shown_by h r)) xinetd.
Proof.
  intros Hh. unfold xinetd. apply yields_bind_any. intros c. eapply yields_mono; [|apply xinetd_shown]. intros es He.
  apply Forall_forall. intros e (i & Hi)%list_elem_of_lookup. destruct (Forall2_lookup_r _ _ _ _ _ He Hi) as (s & _ & Hs).
  split; [apply Hs|]. apply served_xinetd; [split_and!; [apply Hs..|]|].
  - cbn [existsb]. by rewrite Hh.
  - rewrite (ss_enabled _ _ _ Hs). destruct (switched_off c s); set_solver.
Qed.
Lemma inetd_served h r : existsb (holds h r) INETD = true -> yields (Forall (shown_by h r)) inetd.
Proof.
  intros Hh. unfold inetd. apply yields_bind_any. intros [b|]; [|by apply yields_ret]. apply yields_map. intros [raw l] _.
  eapply yields_bind; [apply entry_made|]. intros e He. destruct (inetd_facts_shown raw l _ e He) as (H1 & H2 & H3 & H4).
  apply yields_ret. split; [done|]. by apply served_inetd.
Qed.
Lemma read_rule_runs line d c opts : read_rule line = Some (d, c, opts) -> Forall (fun kv => snd kv <> []) opts.
Proof.
  unfold read_rule. cbv zeta. destruct (_ || _); [done|]. destruct (wrapper_fields _) as [|? [|? [|o os]]]; try done. intros E.
  assert (opts = List.filter runs_something (option_of <$> o :: os)) as -> by congruence.
  apply Forall_forall. intros kv [_ Hr]%list_elem_of_In%List.filter_In. apply andb_true_iff in Hr as [_ Hr].
  apply negb_true_iff, bool_decide_eq_false in Hr. done.
Qed.
Lemma wrappers_served h r out p : Forall (shown_by h r) out -> yields (Forall (shown_by h r)) (wrapper_file (has_libwrap h r) out p).
Proof.
  intros Ho. unfold wrapper_file. apply yields_bind_any. intros [b|]; [|by apply yields_ret].
  eapply yields_bind; [apply (yields_map (Forall (shown_by h r)))|].
  - intros line _. unfold rule_entries. destruct (read_rule line) as [[[d c] opts]|] eqn:Er; [|by apply yields_ret].
    apply read_rule_runs in Er. apply yields_map. intros [k v] Hkv. eapply yields_bind; [apply entry_made|]. intros e He.
    destruct (wrapper_facts_shown (has_libwrap h r) line d c k v _ e He) as (H1 & H2 & H3 & H4). apply yields_ret. split; [done|].
    apply (served_libwrap _ _ _ v); [done|done| |done]. exact (proj1 (Forall_forall _ _) Er (k, v) Hkv).
  - intros es He. apply yields_ret, Forall_app. split; [done|]. by apply Forall_join.
Qed.
End collecting.


(** Every block [service] that xinetd's files hold, as far as the includes
    go, gives one entry of its own, in their order, run as the user it names;
    it is disabled exactly when its own [disable] says yes, when [defaults] names
    its id among the disabled, or when [defaults] says which are enabled and
    does not name it. *)
Theorem services_switched `{Strerror} `{Blake3} h cx :
  let c := value h cx xinetd_conf in Forall2 (service_shown c) (x_services c) (value h cx xinetd).
Proof. cbv zeta. unfold xinetd. rewrite value_bind. apply (yields_run (Forall2 _ _)), xinetd_shown. Qed.

(** A host with xinetd, whose directory of services includes itself, and with
    libwrap. *)
Module InetdDemo.
#[local] Instance demo_blake3 : Blake3 := fun x => x.
#[local] Instance demo_strerror : Strerror := fun _ => #"error".
Definition text (ls : list bytes) : bytes := join [newline] ls ++ [newline].
Definition conf : bytes :=
  text [ #"defaults"; #"{"; #"  disabled = b"; #"  disabled += c # more"; #"}"; #"includedir /etc/xinetd.d"].
Definition services : bytes :=
  text [ #"includedir /etc/xinetd.d"; #"service a"; #"{"; #"  server = /bin/a"; #"  server_args = -x"; #"  user = nobody"; #"}";
         #"service b {"; #"  server = /bin/b"; #"}"; #"service d"; #"{"; #"  disable = YES"; #"}"].
Definition tree : Tree.tree :=
  [( #"usr", Tree.Dir 0 0x1ED); ( #"usr/sbin", Tree.Dir 0 0x1ED); ( #"usr/sbin/xinetd", Tree.File 0 0x1ED #"x");
   ( #"usr/lib", Tree.Dir 0 0x1ED); ( #"usr/lib/x86_64-linux-gnu", Tree.Dir 0 0x1ED);
   ( #"usr/lib/x86_64-linux-gnu/libwrap.so.0", Tree.File 0 0x1A4 #"x");
   ( #"etc", Tree.Dir 0 0x1ED); ( #"etc/xinetd.conf", Tree.File 0 0x1A4 conf); ( #"etc/xinetd.d", Tree.Dir 0 0x1ED);
   ( #"etc/xinetd.d/all", Tree.File 0 0x1A4 services); ( #"etc/xinetd.d/old.bak", Tree.File 0 0x1A4 services);
   ( #"etc/inetd.conf", Tree.File 0 0x1A4 (text [ #"ftp stream tcp nowait root /bin/ftp ftp"]));
   ( #"etc/hosts.allow", Tree.File 0 0x1A4 (text [ #"# spawn"; #"sshd : [::1]:\"; #" spawn /bin/log %a\:%d : allow"]))].
Definition seen : list (bytes * enablement * option bytes) :=
  (fun e => (e_name e, e_enabled e, e_command e)) <$>
    value (Tree.kernel tree) (mk_ctx Tree.offline [] [] [] []) collect.
End InetdDemo.

Example inetd_host :
  InetdDemo.seen =
    [( #"a", Enablement.Enabled, Some #"/bin/a -x"); ( #"b", Enablement.Disabled, Some #"/bin/b"); ( #"d", Enablement.Disabled, None);
     ( #"sshd:spawn", Enablement.Enabled, Some #"/bin/log %a:%d")].
Proof. by vm_compute. Qed.
