(* ===== verification/Logrotate.v ===== *)
(** [src/collect/logrotate.rs]: the scripts of the daily rotation. *)

From S2P Require Import Prelude Slices Order Utf8 Paths PathMap Kinds Entry Sys Root Tree Users Scan Collect.

Definition CAP : N := 256 * 1024.
Definition MAX_DEPTH : nat := 8.
Definition SCRIPTS : list bytes := [ #"prerotate"; #"postrotate"; #"firstaction"; #"lastaction"; #"preremove"].
Definition TABOO : list bytes :=
  [ #",v"; #".bak"; #".cfsaved"; #".disabled"; #".dpkg-bak"; #".dpkg-del"; #".dpkg-dist"; #".dpkg-new"; #".dpkg-old"; #".dpkg-tmp";
    #".rpmnew"; #".rpmorig"; #".rpmsave"; #".swp"; #".ucf-dist"; #".ucf-new"; #".ucf-old"; #"~"].
Definition taboo (name : bytes) : bool := contains_sub #".rhn-cfg-tmp-" name || existsb (fun t => ends_with t name) TABOO.

(** ** Lines *)

(** What is known within a file: the log names in force, those pending a brace,
    and the script being read with its lines. *)
Record state := mk_state { st_logs : option bytes; st_pending : list bytes; st_script : option (bytes * list bytes) }.
Definition no_state : state := mk_state None [] None.
(** What a line brings about. *)
Inductive action := Nothing | Include (target : path) | Script (logs keyword body : bytes).

Definition first_word (t : bytes) : bytes := take_while (fun b => negb (is_ascii_whitespace b)) t.
Definition open_brace : bytes := #"{".
Definition begins_log (t : bytes) : bool := match t with c :: _ => is_byte slash c || is_byte x22 c || is_byte "~" c | [] => false end.
Definition include_target (t : bytes) : path :=
  let arg := trim_ascii (drop (length (first_word t)) t) in default arg (strip_prefix [slash] arg).
Definition log_names (st : state) (t : bytes) : bytes :=
  from_utf8_lossy (join #" " (List.filter (fun p => negb (bool_decide (p = [])))
    (st_pending st ++ [trim_ascii (take (length t - 1) t)]))).
Definition read_line (st : state) (line : bytes) : state * action :=
  let t := trim_ascii line in
  let first := first_word t in
  match st_script st with
  | Some (kw, ls) =>
      if bool_decide (first = #"endscript") then
        (mk_state (st_logs st) (st_pending st) None, Script (default #"(global)" (st_logs st)) kw (join [newline] ls))
      else (mk_state (st_logs st) (st_pending st) (Some (kw, ls ++ [line])), Nothing)
  | None =>
      if bool_decide (t = []) || starts_with #"#" t then (st, Nothing)
      else if bool_decide (first ∈ SCRIPTS) then (mk_state (st_logs st) (st_pending st) (Some (first, [])), Nothing)
      else if bool_decide (first = #"include") then (st, Include (include_target t))
      else if ends_with open_brace t then (mk_state (Some (log_names st t)) [] None, Nothing)
      else if bool_decide (t = #"}") then (mk_state None (st_pending st) None, Nothing)
      else if bool_decide (st_logs st = None) && begins_log t then (mk_state None (st_pending st ++ [t]) None, Nothing)
      else (st, Nothing)
  end.

(** ** Entries *)

Definition first_log (logs : bytes) : bytes := default logs (head (split_whitespace logs)).
Definition script_facts (logs kw body : bytes) (e : Entry.entry) : Entry.entry :=
  let e := set_principal (set_trigger e Trigger.Schedule) (Some #"root") in
  let e := Entry.note (Entry.note (set_enabled e Enablement.Enabled) #"script" kw) #"logs" logs in
  with_command (flag_if (negb (is_utf8 body)) e Flag.EncodingAnomaly) (Some body).

Section logrotate.
Context `{Strerror} `{Blake3}.

Definition push (p : path) (logs kw body : bytes) : coll Entry.entry :=
  e ← entry Kind.Logrotate p (first_log logs ++ #":" ++ kw); mret (script_facts logs kw body e).

Definition reading : Type := pset * list Entry.entry.
(** What an [include] names: a file, or the files of a directory. *)
Definition include (read : reading -> path -> coll reading) (st : reading) (p : path) : coll reading :=
  m ← lift (fun r => stat_follow r p);
  match m with
  | Ok m =>
      if m_is_dir m then
        ents ← dir p;
        fold_coll (fun st n => read st (path_join p n)) st
          (de_name <$> List.filter (fun ent => negb (de_is_dir ent) && negb (taboo (de_name ent))) ents)
      else read st p
  | Err _ => mret st
  end.
Definition take_line (read : reading -> path -> coll reading) (p : path) (st : state * reading) (line : bytes) : coll (state * reading) :=
  let '(s, (seen, out)) := st in
  let '(s, act) := read_line s line in
  match act with
  | Nothing => mret (s, (seen, out))
  | Include target => rd ← include read (seen, out) target; mret (s, rd)
  | Script logs kw body => e ← push p logs kw body; mret (s, (seen, out ++ [e]))
  end.
(** [n] is nine less the depth. *)
Fixpoint read (n : nat) (st : reading) (p : path) : coll reading :=
  match n with
  | O => mret st
  | S n =>
      let '(seen, out) := st in
      if pm_mem seen p then mret st
      else
        let seen := ps_insert p seen in
        b ← read_capped p CAP;
        match b with
        | None => mret (seen, out)
        | Some b => st ← fold_coll (take_line (read n) p) (no_state, (seen, out)) (split_on (is_byte newline) b); mret (snd st)
        end
  end.
Definition collect : coll (list Entry.entry) :=
  installed ← any_there [ #"usr/sbin/logrotate"; #"sbin/logrotate"];
  st ← read (S MAX_DEPTH) (pm_empty, []) #"etc/logrotate.conf";
  mret (off_unless installed #"logrotate is not installed" <$> snd st).
End logrotate.

(** ** Scripts *)

(** What the lines of a file bring about, from a state on. *)
Fixpoint read_lines (st : state) (ls : list bytes) : state * list action :=
  match ls with
  | [] => (st, [])
  | l :: ls => let '(st, a) := read_line st l in let '(st, acts) := read_lines st ls in (st, a :: acts)
  end.
Definition word_of (line : bytes) : bytes := first_word (trim_ascii line).
(** The scripts run, of the actions of a file. *)
Definition scripts (acts : list action) : list (bytes * bytes * bytes) :=
  omap (fun a => match a with Script logs kw body => Some (logs, kw, body) | _ => None end) acts.

Lemma read_lines_app st l m :
  read_lines st (l ++ m) = ((read_lines (read_lines st l).1 m).1, (read_lines st l).2 ++ (read_lines (read_lines st l).1 m).2).
Proof.
  revert st. induction l as [|x l IH]; intros st; cbn [app read_lines fst snd]; [by destruct (read_lines st m)|].
  destruct (read_line st x) as [st' a]. rewrite IH. by destruct (read_lines st' l).
Qed.
Lemma body_read st kw ls body :
  Forall (fun l => word_of l <> #"endscript") body ->
  read_lines (mk_state (st_logs st) (st_pending st) (Some (kw, ls))) body =
    (mk_state (st_logs st) (st_pending st) (Some (kw, ls ++ body)), replicate (length body) Nothing).
Proof.
  intros Hb. revert ls. induction Hb as [|l body Hl _ IH]; intros ls; cbn [read_lines]; [by rewrite app_nil_r|].
  unfold read_line at 1. cbv zeta. cbn [st_script st_logs st_pending]. fold (word_of l). rewrite bool_decide_false by done.
  rewrite IH, <- app_assoc. done.
Qed.

(** A script is read as it was written: outside of one, a line of a script's
    keyword and the lines after it, whatever they hold, up to one that begins
    with [endscript], give that one script, of the logs in force, and leave the reading
    of the file as it was. *)
Theorem script_kept st first body end_ :
  st_script st = None -> word_of first ∈ SCRIPTS -> Forall (fun l => word_of l <> #"endscript") body -> word_of end_ = #"endscript" ->
  (read_lines st (first :: body ++ [end_])).1 = st /\
  scripts (read_lines st (first :: body ++ [end_])).2 = [(default #"(global)" (st_logs st), word_of first, join [newline] body)].
Proof.
  intros Hs Hf Hb He. destruct st as [logs pending script]. cbn in Hs. subst script. cbn [read_lines].
  assert (Hw : forall w, w ∈ SCRIPTS -> w <> [] /\ starts_with #"#" w = false).
  { apply (Forall_forall (fun w => w <> [] /\ starts_with #"#" w = false)). by repeat (constructor; [done|]). }
  unfold read_line at 1 2. cbv zeta. cbn [st_script st_logs st_pending]. fold (word_of first).
  assert (Hn : bool_decide (trim_ascii first = []) || starts_with #"#" (trim_ascii first) = false).
  { destruct (Hw _ Hf) as [Hne Hh]. unfold word_of, first_word in *. destruct (trim_ascii first) as [|c t]; [done|].
    cbn [take_while] in *. destruct (negb (is_ascii_whitespace c)); [|done]. rewrite bool_decide_false by done. revert Hh. unfold starts_with. cbn. by repeat case_match. }
  rewrite Hn, bool_decide_true by done. pose proof (body_read (mk_state logs pending None) (word_of first) [] body Hb) as Hr.
  cbn [st_logs st_pending app] in Hr. rewrite read_lines_app, Hr. cbn [fst snd read_lines].
  unfold read_line at 1 2. cbv zeta. cbn [st_script st_logs st_pending]. fold (word_of end_). rewrite bool_decide_true by done.
  cbn [fst snd]. split; [done|]. unfold scripts. cbn [omap list_omap]. rewrite omap_app.
  clear Hr. by induction (length body) as [|n IH]; [|exact IH].
Qed.

(** ** What is shown *)

Section logrotate_laws.
Context `{Strerror} `{Blake3}.

Record script_shown (e : Entry.entry) : Prop := mk_script_shown {
  sc_kind : e_kind e = Kind.Logrotate;
  sc_trigger : e_trigger e = Trigger.Schedule;
  sc_principal : e_principal e = Some #"root";
  sc_enabled : e_enabled e = Enablement.Enabled;
  sc_command : exists logs kw body, kw ∈ SCRIPTS /\ e_name e = first_log logs ++ #":" ++ kw /\ e_command e = Some body
}.
(** A script that is being read is of one of the keywords. *)
Definition reading_script (st : state) : Prop := match st_script st with Some (kw, _) => kw ∈ SCRIPTS | None => True end.
Lemma read_line_script st line : reading_script st ->
  let '(st', a) := read_line st line in reading_script st' /\ match a with Script _ kw _ => kw ∈ SCRIPTS | _ => True end.
Proof.
  intros Hs. unfold read_line, reading_script in *. cbv zeta. destruct (st_script st) as [[kw ls]|] eqn:E.
  - by case_bool_decide.
  - destruct (_ || _); [by rewrite E|]. case_bool_decide; [by split|]. case_bool_decide; [by rewrite E|].
    destruct (ends_with _ _); [done|]. case_bool_decide; [done|]. destruct (_ && _); [done|by rewrite E].
Qed.
Lemma push_shown p logs kw body : kw ∈ SCRIPTS -> yields script_shown (push p logs kw body).
Proof.
  intros Hk. unfold push. eapply yields_bind; [apply entry_made|]. intros e [Hkind Hn]. apply yields_ret.
  unfold script_facts. cbv zeta. unfold flag_if, Entry.flag. repeat case_match; split; try done; exists logs, kw, body; by rewrite <- Hn.
Qed.
Definition shown_so_far (rd : reading) : Prop := Forall script_shown (snd rd).
Lemma read_shown n st p : shown_so_far st -> yields shown_so_far (read n st p).
Proof.
  revert st p. induction n as [|n IH]; intros [seen out] p Hs; cbn [read]; [by apply yields_ret|].
  destruct (pm_mem seen p); [by apply yields_ret|]. apply yields_bind_any. intros [b|]; [|by apply yields_ret].
  eapply (yields_bind (fun x : state * reading => reading_script (fst x) /\ shown_so_far (snd x))); [|intros [s rd] [_ Hrd]; by apply yields_ret].
  apply yields_fold; [by split|]. intros [s [seen' out']] line _ [Hr Ho]. unfold take_line.
  pose proof (read_line_script s line Hr) as Hl. destruct (read_line s line) as [s' a]. destruct Hl as [Hr' Ha].
  destruct a as [|target|logs kw body]; [by apply yields_ret|..].
  - eapply (yields_bind shown_so_far); [|intros rd Hrd; by apply yields_ret]. unfold include. apply yields_bind_any.
    intros [m|]; [|by apply yields_ret]. destruct (m_is_dir m); [|by apply IH]. apply yields_bind_any. intros ents.
    apply yields_fold; [done|]. intros st x _ Hst. by apply IH.
  - eapply yields_bind; [by apply push_shown|]. intros e He. apply yields_ret. split; [done|]. apply Forall_app. by split; [|constructor].
Qed.
End logrotate_laws.

(** Each entry is a script of one of the keywords, run as root on a schedule, and
    is on exactly where logrotate is installed. *)
Theorem rotation_scripts `{Strerror} `{Blake3} h cx :
  let installed := existsb (holds h (cx_root cx)) [ #"usr/sbin/logrotate"; #"sbin/logrotate"] in
  Forall (fun e => exists e', script_shown e' /\ e = off_unless installed #"logrotate is not installed" e') (value h cx collect).
Proof.
  cbv zeta. unfold collect. rewrite value_bind, value_any_there, after_any_there. set (installed := existsb _ _).
  apply (yields_run (Forall _) _ h cx). eapply yields_bind; [apply read_shown; constructor|]. intros [seen es] Hs.
  apply yields_ret, Forall_fmap. eapply Forall_impl; [exact Hs|]. intros e He. by exists e.
Qed.

(** A rotation of two logs, whose directory of more holds a backup copy and a
    file that includes the first again. *)
Module LogrotateDemo.
#[local] Instance demo_blake3 : Blake3 := fun x => x.
#[local] Instance demo_strerror : Strerror := fun _ => #"error".
Definition text (ls : list bytes) : bytes := join [newline] ls ++ [newline].
Definition script : list bytes := [ #"  echo {"; #"  # endscript"; #"}"].
Definition tree : Tree.tree :=
  [( #"usr", Tree.Dir 0 0x1ED); ( #"usr/sbin", Tree.Dir 0 0x1ED); ( #"usr/sbin/logrotate", Tree.File 0 0x1ED #"x");
   ( #"etc", Tree.Dir 0 0x1ED); ( #"etc/logrotate.d", Tree.Dir 0 0x1ED);
   ( #"etc/logrotate.conf", Tree.File 0 0x1A4
       (text ([ #"weekly"; #"include /etc/logrotate.d"; #"/var/log/a"; #"/var/log/b {"; #" postrotate"] ++ script ++ [ #" endscript x"; #"}"])));
   ( #"etc/logrotate.d/x", Tree.File 0 0x1A4 (text [ #"include /etc/logrotate.conf"; #"firstaction"; #"  /bin/first"; #"endscript"]));
   ( #"etc/logrotate.d/x.bak", Tree.File 0 0x1A4 (text [ #"lastaction"; #"  /bin/old"; #"endscript"]))].
Definition seen : list (bytes * enablement * option bytes) :=
  (fun e => (e_name e, e_enabled e, e_command e)) <$> value (Tree.kernel tree) (mk_ctx Tree.offline [] [] [] []) collect.
End LogrotateDemo.

Example logrotate_host :
  LogrotateDemo.seen =
    [( #"(global):firstaction", Enablement.Enabled, Some #"  /bin/first");
     ( #"/var/log/a:postrotate", Enablement.Enabled, Some (join [newline] LogrotateDemo.script))].
Proof. by vm_compute. Qed.

Lemma script_kept_witness :
  scripts (read_lines (mk_state (Some #"/var/log/a") [] None) ( #"postrotate" :: LogrotateDemo.script ++ [ #"endscript"])).2 =
    [( #"/var/log/a", #"postrotate", join [newline] LogrotateDemo.script)].
Proof.
  apply (script_kept (mk_state (Some #"/var/log/a") [] None) #"postrotate" LogrotateDemo.script #"endscript"); [done| |..|done].
  - by apply (bool_decide_eq_true_1 _).
  - by apply (bool_decide_eq_true_1 _).
Defined.
