(* ===== verification/Vcs.v ===== *)
(** [src/collect/vcs.rs]: Mercurial's hooks. *)

From S2P Require Import Prelude Slices Order Utf8 Paths Kinds Entry Sys Root Tree Users Scan Collect.

Definition CAP : N := 256 * 1024.
Definition HGRC : path := #"etc/mercurial/hgrc".
Definition HGRC_D : path := #"etc/mercurial/hgrc.d".

(** ** The hooks section *)

Definition trim_end (s : bytes) : bytes := utf8_encode (drop_while_end is_whitespace (chars s)).
Definition is_blank (b : byte) : bool := is_byte " " b || is_byte x09 b.
Definition is_sign (b : byte) : bool := is_byte "=" b || is_byte ":" b.
Definition section_name (t : bytes) : option bytes := r ← strip_prefix #"[" t; strip_suffix #"]" r.
(** A later value takes the place of the one its key had. *)
Definition put (out : list (bytes * bytes)) (k v : bytes) : list (bytes * bytes) :=
  match position (fun kv => bool_decide (fst kv = k)) out with
  | Some i => alter (fun kv => (fst kv, v)) i out
  | None => out ++ [(k, v)]
  end.
Definition hook_line (st : bool * list (bytes * bytes)) (line : bytes) : bool * list (bytes * bytes) :=
  let '(in_hooks, out) := st in
  let t := trim_end line in
  let bare := trim t in
  if starts_with #"#" bare || starts_with #";" bare || bool_decide (bare = []) then st
  else match section_name bare with
  | Some name => (bool_decide (trim name = #"hooks"), out)
  | None =>
      if negb in_hooks then st
      else if match t with c :: _ => is_blank c | [] => false end then
        (in_hooks, alter (fun kv => (fst kv, snd kv ++ #" " ++ bare)) (length out - 1) out)
      else match position is_sign t with
      | Some i => (in_hooks, put out (trim (take i t)) (trim (drop (S i) t)))
      | None => st
      end
  end.
Definition hooks_section (text : bytes) : list (bytes * bytes) := snd (foldl hook_line (false, []) (lines text)).

(** ** Entries *)

Definition PYTHON : bytes := #"python:".
Definition hook_facts (installed : bool) (principal : option bytes) (key_ value : bytes) (e : Entry.entry) : Entry.entry :=
  let e := set_principal (set_enabled (set_trigger e Trigger.Always) Enablement.Enabled) principal in
  let e := Entry.note e #"event" (before "." key_) in
  let e := match strip_prefix PYTHON value with
           | Some py =>
               Entry.note (Entry.note e #"python" (trim py)) key.TARGET_UNVERIFIABLE #"a Python function loaded into hg"
           | None =>
               let e := with_command e (Some value) in
               match leading_path value with Some w => set_target_path e (Some w) | None => e end
           end in
  off_unless installed #"hg is not installed" e.

Section vcs.
Context `{Strerror} `{Blake3}.

Definition is_rc (ent : dir_ent) : bool := negb (de_is_dir ent) && ends_with #".rc" (from_utf8_lossy (de_name ent)).
Definition files : coll (list (path * option bytes)) :=
  ents ← dir HGRC_D;
  let rcs := sort_by components (path_join HGRC_D ∘ de_name <$> List.filter is_rc ents) in
  us ← the_users;
  mret (((fun p => (p, None)) <$> HGRC :: rcs) ++ ((fun u => (User.in_home u #".hgrc", Some (u_name u))) <$> one_per_home us)).
Definition file_entries (installed : bool) (f : path * option bytes) : coll (list Entry.entry) :=
  b ← read_capped (fst f) CAP;
  match b with
  | None => mret []
  | Some b =>
      map_coll (fun kv =>
        e ← entry Kind.MercurialHook (fst f) (#"hg:" ++ fst kv);
        mret (hook_facts installed (snd f) (fst kv) (snd kv) e)) (hooks_section (from_utf8_lossy b))
  end.
Definition collect : coll (list Entry.entry) :=
  installed ← there #"usr/bin/hg";
  fs ← files;
  es ← map_coll (file_entries installed) fs;
  mret (mjoin es).
End vcs.

(** ** A hook as a file writes it *)

(** A text with no blank at either end. *)
Definition bare (s : bytes) : Prop := is_utf8 s = true /\ trimmed is_whitespace (chars s).
Definition opens_line (c : byte) : bool := negb (bool_decide (c ∈ [x09; "#"; ";"; "["; " "]%byte)).
Definition hook_ok (kv : bytes * bytes) : Prop :=
  bare (fst kv) /\ bare (snd kv) /\ Forall (fun b => is_sign b = false) (fst kv) /\
  match fst kv with c :: _ => opens_line c = true | [] => False end.
Definition hook_text (kv : bytes * bytes) : bytes := fst kv ++ "="%byte :: snd kv.

Lemma bare_trim s : bare s -> trim s = s /\ trim_end s = s.
Proof.
  intros [Hu Ht]. unfold trim, trim_end. rewrite trim_by_id by done. split; [by apply encode_chars|].
  replace (drop_while_end is_whitespace (chars s)) with (chars s); [by apply encode_chars|].
  unfold drop_while_end. destruct Ht as [_ Hl]. rewrite <- head_reverse in Hl. rewrite <- (reverse_involutive (chars s)) at 1. f_equal.
  destruct (reverse (chars s)) as [|c cs]; [done|]. cbn [drop_while]. by rewrite Hl.
Qed.
Lemma hook_text_bare kv : hook_ok kv -> bare (hook_text kv).
Proof.
  intros ([Hk Htk] & [Hv Htv] & Hs & Hh). unfold hook_text. destruct kv as [k v]. cbn [fst snd] in *.
  change ("="%byte :: v) with (#"=" ++ v). split; [rewrite !is_utf8_app by done; done|]. rewrite !chars_app by done.
  change (chars #"=") with [(61 : char)%N]. destruct Htk as [Hk1 Hk2], Htv as [Hv1 Hv2]. split; intros c.
  - destruct (chars k) as [|c' cs] eqn:E; [|by apply Hk1]. cbn. intros E1; injection E1 as <-; done.
  - rewrite app_assoc, last_app. destruct (last (chars v)) as [c'|]; [by apply Hv2|]. rewrite last_snoc. intros E; injection E as <-; done.
Qed.
Lemma hook_line_text out kv : hook_ok kv -> hook_line (true, out) (hook_text kv) = (true, put out (fst kv) (snd kv)).
Proof.
  intros Hok. destruct (bare_trim _ (hook_text_bare kv Hok)) as [E1 E2]. unfold hook_line. rewrite E2, E1.
  destruct Hok as (Hk & Hv & Hs & Hh). destruct kv as [k v]. cbn [fst snd] in *.
  destruct (bare_trim k Hk) as [Ek _], (bare_trim v Hv) as [Ev _].
  destruct k as [|c k]; [done|]. unfold opens_line in Hh. apply negb_true_iff, bool_decide_eq_false in Hh.
  rewrite !not_elem_of_cons in Hh. destruct Hh as (Ht & Hc1 & Hc2 & Hc3 & Hc4 & _).
  assert (Hst : forall b l, c <> b -> strip_prefix [b] (c :: l) = None) by (intros b l Hne; cbn; by case_decide).
  unfold hook_text. cbn [fst snd]. change ((c :: k) ++ "="%byte :: v) with (c :: k ++ "="%byte :: v).
  unfold starts_with, section_name. change ( #"#") with ["#"%byte]. change ( #";") with [";"%byte]. change ( #"[") with ["["%byte]. rewrite !Hst by done. rewrite bool_decide_false by done. cbn [orb mbind option_bind negb].
  unfold is_blank, is_byte. rewrite !bool_decide_false by done. cbn [orb].
  change (c :: k ++ "="%byte :: v) with ((c :: k) ++ "="%byte :: v). rewrite position_app by done.
  rewrite take_app_length, Ek. replace (S (length (c :: k))) with (length ((c :: k) ++ [("="%byte)])) by (rewrite length_app; cbn; lia).
  change ((c :: k) ++ "="%byte :: v) with ((c :: k) ++ [("="%byte)] ++ v). by rewrite app_assoc, drop_app_length, Ev.
Qed.
Lemma put_new out k v : k ∉ fst <$> out -> put out k v = out ++ [(k, v)].
Proof.
  intros Hk. unfold put. replace (position _ out) with (@None nat); [done|]. symmetry. apply position_None, Forall_forall.
  intros [k' v'] Hin. cbn. apply bool_decide_eq_false. intros ->. apply Hk. apply list_elem_of_fmap. by exists (k, v').
Qed.

(** The hooks of a section are the ones it was written with: hooks of different
    names, whatever their commands, are read back each with its command, in their order. *)
Theorem hooks_read (hs : list (bytes * bytes)) :
  Forall hook_ok hs -> NoDup (fst <$> hs) -> snd (foldl hook_line (false, []) (#"[hooks]" :: (hook_text <$> hs))) = hs.
Proof.
  intros Hok Hn. cbn [foldl]. change (hook_line (false, []) #"[hooks]") with (true, @nil (bytes * bytes)).
  enough (G : forall out, NoDup (fst <$> out ++ hs) -> foldl hook_line (true, out) (hook_text <$> hs) = (true, out ++ hs)) by by rewrite G.
  clear Hn. induction Hok as [|kv hs Hkv _ IH]; intros out Hn; [by rewrite app_nil_r|]. cbn [fmap list_fmap foldl].
  rewrite hook_line_text by done. rewrite put_new.
  - rewrite <- surjective_pairing, IH, <- app_assoc; [done|]. by rewrite <- app_assoc.
  - rewrite fmap_app, NoDup_app in Hn. destruct Hn as (_ & Hd & _). intros Hin. apply (Hd _ Hin). by left.
Qed.
Lemma hooks_read_witness :
  let hs := [( #"commit", #"/bin/notify = x"); ( #"incoming.a", [])] in
  snd (foldl hook_line (false, []) (#"[hooks]" :: (hook_text <$> hs))) = hs.
Proof.
  apply (hooks_read [( #"commit", #"/bin/notify = x"); ( #"incoming.a", [])]).
  - repeat (constructor; [split_and!; try (by split; [done|by split; vm_compute; intros c [= <-]]); [by repeat constructor|done]|]). constructor.
  - apply (bool_decide_eq_true_1 _). by vm_compute.
Defined.

(** ** What is shown *)

Record hook_shown (installed : bool) (e : Entry.entry) : Prop := mk_hook_shown {
  hk_kind : e_kind e = Kind.MercurialHook;
  hk_name : starts_with #"hg:" (e_name e) = true;
  hk_trigger : e_trigger e = Trigger.Always;
  hk_enabled : e_enabled e = if installed then Enablement.Enabled else Enablement.Disabled
}.
Lemma hook_facts_shown installed user k v e :
  e_kind e = Kind.MercurialHook -> starts_with #"hg:" (e_name e) = true -> hook_shown installed (hook_facts installed user k v e).
Proof.
  intros Hk Hn. unfold hook_facts, off_unless. cbv zeta. destruct (strip_prefix PYTHON v); [by destruct installed; split|].
  destruct (leading_path v); by destruct installed; split.
Qed.

(** Each entry is a hook of Mercurial's that is on exactly where Mercurial is
    installed. *)
Theorem hg_hooks `{Strerror} `{Blake3} h cx : Forall (hook_shown (holds h (cx_root cx) #"usr/bin/hg")) (value h cx collect).
Proof.
  unfold collect. rewrite value_bind, value_there, after_there. set (installed := holds _ _ _).
  apply (yields_run (Forall _) _ h cx). apply yields_bind_any. intros fs.
  apply yields_join. intros [p user]. unfold file_entries. apply yields_bind_any. intros [b|]; [|by apply yields_ret]. apply yields_map. intros [k v] _.
  eapply yields_bind; [apply entry_made|]. intros e [Hk Hn]. apply yields_ret, hook_facts_shown; [done|].
  rewrite Hn. apply starts_with_true. by eexists.
Qed.

(** A line that goes on with a hook set again goes to the hook that is last in
    the list instead. *)
Example continued_elsewhere :
  hooks_section (join [x0a] [ #"[hooks]"; #"commit = a"; #"update = b"; #"commit = c"; #"  && d"]) = [( #"commit", #"c"); ( #"update", #"b && d")].
Proof. by vm_compute. Qed.

(** A host's hooks: a later line replaces the first's command; a continued one adds
    to it; a file that is not an rc is not read. *)
Module VcsDemo.
#[local] Instance demo_blake3 : Blake3 := fun x => x.
#[local] Instance demo_strerror : Strerror := fun _ => #"error".
Definition text (ls : list bytes) : bytes := join [x0a] ls ++ [x0a].
Definition tree : Tree.tree :=
  [( #"usr", Tree.Dir 0 0x1ED); ( #"usr/bin", Tree.Dir 0 0x1ED); ( #"usr/bin/hg", Tree.File 0 0x1ED #"x");
   ( #"etc", Tree.Dir 0 0x1ED); ( #"etc/mercurial", Tree.Dir 0 0x1ED); ( #"etc/mercurial/hgrc.d", Tree.Dir 0 0x1ED);
   ( #"etc/mercurial/hgrc", Tree.File 0 0x1A4 (text [ #"[hooks]"; #"update.x: python:mod.f"; #"commit = /bin/a"; #"commit = /bin/b"; #"   -v # all"]));
   ( #"etc/mercurial/hgrc.d/a.rc", Tree.File 0 0x1A4 (text [ #"incoming = no"; #"[ hooks ]"; #"; x = y"; #"incoming = sync"; #"[ui]"; #"x = y"]));
   ( #"etc/mercurial/hgrc.d/b.old", Tree.File 0 0x1A4 (text [ #"[hooks]"; #"pull = /bin/p"]))].
Definition seen : list (bytes * option bytes * option path) :=
  (fun e => (e_name e, e_command e, e_target_path e)) <$> value (Tree.kernel tree) (mk_ctx Tree.offline [] [] [] []) collect.
End VcsDemo.

Example hg_host :
  VcsDemo.seen =
    [( #"hg:update.x", None, None); ( #"hg:commit", Some #"/bin/b -v # all", Some #"/bin/b"); ( #"hg:incoming", Some #"sync", None)].
Proof. by vm_compute. Qed.
