(* ===== verification/PythonSite.v ===== *)
(** [src/collect/python.rs]: code every Python process runs before its own. *)

From S2P Require Import Prelude Slices Order Num Utf8 Paths Kinds Entry Sys Root Tree Users Scan Collect.

Definition CAP : N := 256 * 1024.

(** ** A .pth file *)

Definition line_end (b : byte) : bool := is_byte newline b || is_byte x0d b.
Definition says_nothing (line : bytes) : bool := starts_with #"#" line || forallb is_ascii_whitespace line.
Definition is_import (line : bytes) : bool := starts_with #"import " line || starts_with (#"import" ++ [x09]) line.
(** The lines Python executes, and how many others add a directory. *)
Definition pth_lines (b : bytes) : list bytes * nat :=
  let ls := List.filter (fun l => negb (says_nothing l)) (split_on line_end b) in
  (List.filter is_import ls, length (List.filter (fun l => negb (is_import l)) ls)).

(** ** Directories *)

Definition is_version (ent : dir_ent) : bool :=
  let minor := default [] (strip_prefix #"python3." (de_name ent)) in
  is_utf8 (de_name ent) && de_is_dir ent && negb (bool_decide (minor = [])) && forallb is_ascii_digit minor.
(** Where the distribution keeps its packages, and the standard library. *)
Definition site_dirs (debian : bool) (v : bytes) : list path * list path :=
  if debian then
    ([ #"usr/local/lib/" ++ v ++ #"/dist-packages"; #"usr/lib/python3/dist-packages"; #"usr/lib/" ++ v ++ #"/dist-packages"],
     [ #"usr/lib/" ++ v])
  else
    ([ #"usr/local/lib64/" ++ v ++ #"/site-packages"; #"usr/local/lib/" ++ v ++ #"/site-packages";
       #"usr/lib64/" ++ v ++ #"/site-packages"; #"usr/lib/" ++ v ++ #"/site-packages"],
     [ #"usr/lib64/" ++ v; #"usr/lib/" ++ v]).

Definition startup (user : option bytes) (e : Entry.entry) : Entry.entry :=
  set_principal (set_enabled (set_trigger e Trigger.Always) Enablement.Enabled) user.
Definition pth_facts (user : option bytes) (b : bytes) (imports : list bytes) (paths : nat) (e : Entry.entry) : Entry.entry :=
  let e := Entry.note (startup user e) #"hook" #"pth" in
  let e := Entry.note e #"import_lines" (dec (N.of_nat (length imports))) in
  let e := if 0 <? paths then Entry.note e #"path_lines" (dec (N.of_nat paths)) else e in
  let e := with_command e (Some (join [newline] imports)) in
  let e := Entry.note e key.TARGET_UNVERIFIABLE #"Python code run inside the interpreter" in
  flag_if (negb (is_utf8 b)) e Flag.EncodingAnomaly.
Definition CUSTOMIZE : list bytes := [ #"sitecustomize.py"; #"usercustomize.py"].
Definition module_name (n : bytes) : bytes := default n (strip_suffix #".py" n).
Definition module_facts (r : root) (user : option bytes) (p : path) (module : bytes) (e : Entry.entry) : Entry.entry :=
  Entry.note (set_target_path (startup user e) (Some (abs r p))) #"hook" module.

Section python.
Context `{Strerror} `{Blake3}.

Definition versions_in (d : path) : coll (list bytes) := ents ← dir d; mret (de_name <$> List.filter is_version ents).
Definition versions : coll (list bytes) :=
  ls ← map_coll versions_in [ #"usr/lib"; #"usr/lib64"]; mret (bset_to_list (list_to_set (mjoin ls))).

Definition pth (p : path) (user : option bytes) : coll (list Entry.entry) :=
  b ← read_capped p CAP;
  match b with
  | None => mret []
  | Some b =>
      let '(imports, paths) := pth_lines b in
      if bool_decide (imports = []) then mret []
      else
        e ← entry Kind.PythonStartup p (from_utf8_lossy (default [] (file_name p)));
        mret [pth_facts user b imports paths e]
  end.
Definition site_file (d : path) (user : option bytes) (site : bool) (n : bytes) : coll (list Entry.entry) :=
  let p := path_join d n in
  if negb (is_utf8 n) then mret []
  else if site && ends_with #".pth" n && negb (starts_with #"." n) then pth p user
  else if bool_decide (n ∈ CUSTOMIZE) then
    r ← the_root;
    e ← entry Kind.PythonStartup p (module_name n);
    mret [module_facts r user p (module_name n) e]
  else mret [].
Definition site_dir (d : path) (user : option bytes) (site : bool) : coll (list Entry.entry) :=
  ents ← dir d;
  es ← map_coll (site_file d user site) (de_name <$> List.filter (fun ent => negb (de_is_dir ent)) ents);
  mret (mjoin es).
(** A directory not read before, under any name. *)
Definition visit (site : bool) (user : option bytes) (st : gset (N * N) * list Entry.entry) (d : path) : coll (gset (N * N) * list Entry.entry) :=
  x ← first_visit d (fst st);
  let '(id, seen) := x : option (N * N) * gset (N * N) in
  match id with
  | None => mret (seen, snd st)
  | Some _ => es ← site_dir d user site; mret (seen, snd st ++ es)
  end.
Definition system_dirs (debian : bool) (st : gset (N * N) * list Entry.entry) (v : bytes) : coll (gset (N * N) * list Entry.entry) :=
  let '(dirs, stdlib) := site_dirs debian v in
  fold_coll (fun st d => visit (ends_with #"-packages" d) None st d) st (stdlib ++ dirs).
Definition user_dirs (vs : list bytes) (st : gset (N * N) * list Entry.entry) (u : user) : coll (gset (N * N) * list Entry.entry) :=
  fold_coll (fun st v => visit true (Some (u_name u)) st (User.in_home u (#".local/lib/" ++ v ++ #"/site-packages"))) st vs.
Definition collect : coll (list Entry.entry) :=
  vs ← versions;
  debian ← there #"usr/lib/python3/dist-packages";
  st ← fold_coll (system_dirs debian) (∅, []) vs;
  us ← the_users;
  st ← fold_coll (user_dirs vs) st (one_per_home us);
  mret (snd st).
End python.

(** ** What is shown *)

Section python_laws.
Context `{Strerror} `{Blake3}.

(** Code that every interpreter runs, of the system or of a user: a module it
    imports, or lines of a .pth file that begin with [import]. *)
Record startup_shown (e : Entry.entry) : Prop := mk_startup_shown {
  su_kind : e_kind e = Kind.PythonStartup;
  su_trigger : e_trigger e = Trigger.Always;
  su_enabled : e_enabled e = Enablement.Enabled;
  su_code : (exists ls, ls <> [] /\ Forall (fun l => is_import l = true) ls /\ e_command e = Some (join [newline] ls)) \/
    (e_command e = None /\ e_name e ∈ [ #"sitecustomize"; #"usercustomize"] /\ is_Some (e_target_path e))
}.
(** Whose code a directory holds. *)
Definition run_as (user : option bytes) (e : Entry.entry) : Prop := startup_shown e /\ e_principal e = user.

Lemma pth_shown p user : yields (Forall (run_as user)) (pth p user).
Proof.
  unfold pth. apply yields_bind_any. intros [b|]; [|by apply yields_ret]. destruct (pth_lines b) as [imports paths] eqn:E.
  case_bool_decide as Hne; [by apply yields_ret|]. eapply yields_bind; [apply entry_made|]. intros e [Hk _]. apply yields_ret, Forall_singleton.
  assert (Hi : Forall (fun l => is_import l = true) imports).
  { unfold pth_lines in E. injection E as <- _. apply Forall_forall. by intros l [_ Hl]%list_elem_of_In%List.filter_In. }
  assert (Hx : run_as user (pth_facts user b imports paths e)); [|done].
  unfold pth_facts, flag_if, Entry.flag. cbv zeta. repeat case_match; (split; [split; try done; left; by exists imports|done]).
Qed.
Lemma site_file_shown d user site n : yields (Forall (run_as user)) (site_file d user site n).
Proof.
  unfold site_file. cbv zeta. destruct (negb _); [by apply yields_ret|]. destruct (_ && _); [apply pth_shown|].
  case_bool_decide as Hn; [|by apply yields_ret]. apply yields_bind_any. intros r. eapply yields_bind; [apply entry_made|].
  intros e [Hk Hname _ Hc]. apply yields_ret, Forall_singleton. split; [|done]. split; try done. right. split_and!; [done| |by eexists].
  change (e_name e ∈ [ #"sitecustomize"; #"usercustomize"]). rewrite Hname. unfold CUSTOMIZE in Hn.
  rewrite !elem_of_cons in Hn. destruct Hn as [->|[->|?%elem_of_nil]]; [by left|right; by left|done].
Qed.
Lemma site_dir_shown d user site : yields (Forall (run_as user)) (site_dir d user site).
Proof.
  unfold site_dir. apply yields_bind_any. intros ents.
  apply yields_join. intros n. apply site_file_shown.
Qed.

(** The entries so far, each of the system's code or of a user's. *)
Definition of_users (us : list (option bytes)) (st : gset (N * N) * list Entry.entry) : Prop :=
  Forall (fun e => startup_shown e /\ e_principal e ∈ us) (snd st).
Lemma visit_shown us site user st d : user ∈ us -> of_users us st -> yields (of_users us) (visit site user st d).
Proof.
  intros Hu Hs. unfold visit. apply yields_bind_any. intros [[id|] seen]; [|by apply yields_ret].
  eapply yields_bind; [apply site_dir_shown|]. intros es He. apply yields_ret. apply Forall_app. split; [done|].
  eapply Forall_impl; [exact He|]. intros e [H1 ->]. by split.
Qed.
Lemma stays_versions : stays versions.
Proof. unfold versions, versions_in. solve_stays. Qed.
Lemma stays_visit site user st d : stays (visit site user st d).
Proof. unfold visit, site_dir, site_file, pth. solve_stays. Qed.
End python_laws.

(** Each entry is code that every Python of its user runs before its own: the
    lines of a .pth file that begin with [import], of which there is one, or a
    customize module; the system's, or that of a user whose home is read. *)
Theorem python_startup `{Strerror} `{Blake3} h cx :
  Forall (fun e => startup_shown e /\ e_principal e ∈ None :: (Some ∘ u_name <$> one_per_home (cx_users cx))) (value h cx collect).
Proof.
  set (us := None :: _). unfold collect. rewrite value_bind. set (vs := value h cx versions).
  pose proof (after_same h cx versions stays_versions) as H1. set (cx1 := after h cx versions) in *.
  rewrite value_bind, value_there, after_there, value_bind. set (m := fold_coll _ _ _). set (debian := holds _ _ _) in *.
  assert (Hm : of_users us (value h cx1 m)).
  { apply (yields_run (of_users us)). apply yields_fold; [constructor|]. intros st v _ Hst. unfold system_dirs. destruct (site_dirs debian v) as [ds std].
    apply yields_fold; [done|]. intros st' d _ Hst'. apply visit_shown; [by left|done]. }
  assert (H2 : same_place cx1 (after h cx1 m)).
  { apply after_same. apply stays_fold. intros. unfold system_dirs. destruct (site_dirs debian _). apply stays_fold. intros. apply stays_visit. }
  set (st := value h cx1 m) in *. set (cx2 := after h cx1 m) in *. clearbody st cx2. rewrite value_bind.
  change (value h cx2 the_users) with (cx_users cx2). destruct H1 as [_ U1], H2 as [_ U2]. rewrite U2, U1.
  apply (yields_run (Forall _) _ h). eapply (yields_bind (of_users us)); [|intros x Hx; by apply yields_ret].
  apply yields_fold; [done|]. intros s u Hin Hs. unfold user_dirs. apply yields_fold; [done|]. intros s' v _ Hs'. apply visit_shown; [|done].
  right. apply list_elem_of_fmap. by exists u.
Qed.

(** A host with two Pythons, of which the one's directory is reached under
    another name too, and a user with code of its own. *)
Module PythonDemo.
#[local] Instance demo_blake3 : Blake3 := fun x => x.
#[local] Instance demo_strerror : Strerror := fun _ => #"error".
Definition text (ls : list bytes) : bytes := join [newline] ls ++ [newline].
Definition site : path := #"usr/lib/python3.11/site-packages".
Definition tree : Tree.tree :=
  [( #"usr", Tree.Dir 0 0x1ED); ( #"usr/lib", Tree.Dir 0 0x1ED); ( #"usr/lib64", Tree.Link 0 #"lib");
   ( #"usr/lib/python3.11", Tree.Dir 0 0x1ED); ( #"usr/lib/python3.x", Tree.Dir 0 0x1ED); ( #"usr/lib/python3.11/usercustomize.py", Tree.File 0 0x1A4 #"x");
   (site, Tree.Dir 0 0x1ED); (path_join site #"a.pth", Tree.File 0 0x1A4 (text [ #"# import no"; #"import os; os.x()"; #"./dir"; #" import no"]));
   (path_join site #".b.pth", Tree.File 0 0x1A4 (text [ #"import no"])); (path_join site #"c.pth", Tree.File 0 0x1A4 (text [ #"./dir"]));
   ( #"home", Tree.Dir 0 0x1ED); ( #"home/u", Tree.Dir 7 0x1ED); ( #"home/u/.local", Tree.Dir 7 0x1ED); ( #"home/u/.local/lib", Tree.Dir 7 0x1ED);
   ( #"home/u/.local/lib/python3.11", Tree.Dir 7 0x1ED); ( #"home/u/.local/lib/python3.11/site-packages", Tree.Dir 7 0x1ED);
   ( #"home/u/.local/lib/python3.11/site-packages/sitecustomize.py", Tree.File 7 0x1A4 #"x")].
Definition user : user := mk_user #"u" (Some 7%N) #"/home/u" None #"etc/passwd".
Definition seen : list (bytes * option bytes * option bytes) :=
  (fun e => (e_name e, e_principal e, e_command e)) <$> value (Tree.kernel tree) (mk_ctx Tree.offline [user] [] [] []) collect.
End PythonDemo.

Example python_host :
  PythonDemo.seen =
    [( #"usercustomize", None, None); ( #"a.pth", None, Some #"import os; os.x()"); ( #"sitecustomize", Some #"u", None)].
Proof. by vm_compute. Qed.
