(* ===== verification/DisplayManager.v ===== *)
(** [src/collect/dm.rs]: the scripts GDM, LightDM and SDDM run. *)

From S2P Require Import Prelude Slices Order Utf8 Paths Text Kinds Entry Sys Root Tree Users Scan Collect.

Definition CAP : N := 256 * 1024.

(** ** The display manager there is *)

Definition active_link : path := #"etc/systemd/system/display-manager.service".
Definition unit_of (link : path) : option bytes :=
  n ← file_name link; if is_utf8 n then Some (default n (strip_suffix #".service" n)) else None.
Definition active : coll (option bytes) :=
  link ← lift (fun r => read_link r active_link);
  mret (match link with Ok l => unit_of l | Err _ => None end).

(** What stands in the way of a hook of one of [dm]. *)
Definition gate (dm : list bytes) (now : option bytes) (e : Entry.entry) : Entry.entry :=
  match now with
  | Some a =>
      if bool_decide (a ∈ dm) then e
      else Entry.note (set_enabled e Enablement.Disabled) #"inactive" (#"the display manager is " ++ a)
  | None =>
      let e := if bool_decide (e_enabled e = Enablement.Enabled) then set_enabled e Enablement.Unknown else e in
      Entry.note e #"depends_on" #"being the display manager; display-manager.service names none"
  end.
Definition started (t : trigger) (user : option bytes) (e : Entry.entry) : Entry.entry :=
  set_principal (set_enabled (set_trigger e t) Enablement.Enabled) user.

(** ** GDM *)

Definition GDM_CONFS : list path := [ #"etc/gdm3"; #"etc/gdm"].
Definition GDM_DIRS : list (bytes * trigger) :=
  [( #"Init", Trigger.Boot); ( #"PostLogin", Trigger.Login); ( #"PreSession", Trigger.Login); ( #"PostSession", Trigger.Login);
   ( #"Prime", Trigger.Boot); ( #"PrimeOff", Trigger.Boot)].
Definition GDM : list bytes := [ #"gdm3"; #"gdm"].
Definition gdm_facts (r : root) (now : option bytes) (d : bytes) (t : trigger) (p : path) (name : bytes) (m : meta) (e : Entry.entry) : Entry.entry :=
  let e := Entry.note (set_target_path (started t (Some #"root") e) (Some (abs r p))) #"hook" d in
  let e := if bool_decide (N.land (m_mode m) 0x49 = 0%N) then Entry.note (set_enabled e Enablement.Disabled) #"not_run" #"not executable"
           else if negb (bool_decide (name = #"Default")) then
             Entry.note e #"runs_for" (#"the display or host named " ++ name ++ #", before Default")
           else e in
  let e := if bool_decide (d ∈ [ #"Prime"; #"PrimeOff"]) then Entry.note e #"added_by" #"Ubuntu's gdm3" else e in
  gate GDM now e.

(** ** Configuration files *)

(** A value by its section and key, and the file that set it. *)
Definition settings : Type := gmap (bytes * bytes) (bytes * path).
Definition set_line (wanted : bytes -> bool) (f : path) (out : settings) (l : IniLine) : settings :=
  if wanted (ini_section l) then <[(ini_section l, ini_key l) := (lossy (ini_value l), f)]> out else out.
Definition merge_file (wanted : bytes -> bool) (out : settings) (f : path * bytes) : settings :=
  foldl (set_line wanted (fst f)) out (ini (snd f)).
Definition is_conf (ent : dir_ent) : bool := negb (de_is_dir ent) && ends_with #".conf" (de_name ent).

Definition command_facts (k value : bytes) (t : trigger) (user : option bytes) (e : Entry.entry) : Entry.entry :=
  let e := with_command (Entry.note (started t user e) #"key" k) (Some value) in
  match leading_path value with Some w => set_target_path e (Some w) | None => e end.

(** ** LightDM and SDDM *)

Definition LIGHTDM_KEYS : list (bytes * trigger * option bytes) :=
  [( #"display-setup-script", Trigger.Boot, Some #"root"); ( #"display-stopped-script", Trigger.Boot, Some #"root");
   ( #"greeter-setup-script", Trigger.Boot, Some #"root"); ( #"session-setup-script", Trigger.Login, Some #"root");
   ( #"session-cleanup-script", Trigger.Login, Some #"root"); ( #"session-wrapper", Trigger.Login, None);
   ( #"greeter-wrapper", Trigger.Boot, Some #"lightdm"); ( #"guest-wrapper", Trigger.Login, None)].
Definition LIGHTDM_DIRS : list path :=
  [ #"usr/share/lightdm/lightdm.conf.d"; #"usr/local/share/lightdm/lightdm.conf.d"; #"etc/xdg/lightdm/lightdm.conf.d";
    #"etc/lightdm/lightdm.conf.d"].
Definition all_seats (s : bytes) : bool := bool_decide (s ∈ [ #"Seat:*"; #"SeatDefaults"]).
Definition lightdm_wanted (s : bytes) : bool := all_seats s || starts_with #"Seat:" s.
Fixpoint trim_starts (n : nat) (pre s : bytes) : bytes :=
  match n, strip_prefix pre s with S n, Some s' => trim_starts n pre s' | _, _ => s end.
Definition seat_of (section : bytes) : bytes := trim_starts (length section) #"Seat:" section.
Definition LIGHTDM : list bytes := [ #"lightdm"].
Definition lightdm_facts (now : option bytes) (section k value : bytes) (t : trigger) (user : option bytes) (e : Entry.entry) : Entry.entry :=
  let e := command_facts k value t user e in
  gate LIGHTDM now (if all_seats section then e else Entry.note e #"seat" (seat_of section)).

Record sddm_key := mk_sddm_key { sk_section : bytes; sk_key : bytes; sk_default : path; sk_trigger : trigger; sk_user : option bytes }.
Definition SDDM_KEYS : list sddm_key :=
  [mk_sddm_key #"X11" #"DisplayCommand" #"usr/share/sddm/scripts/Xsetup" Trigger.Boot (Some #"root");
   mk_sddm_key #"X11" #"DisplayStopCommand" #"usr/share/sddm/scripts/Xstop" Trigger.Boot (Some #"root");
   mk_sddm_key #"X11" #"SessionCommand" #"etc/sddm/Xsession" Trigger.Login None;
   mk_sddm_key #"Wayland" #"SessionCommand" #"etc/sddm/wayland-session" Trigger.Login None].
Definition sddm_wanted (s : bytes) : bool := bool_decide (s ∈ [ #"X11"; #"Wayland"]).
Definition SDDM : list bytes := [ #"sddm"].

Section display.
Context `{Strerror} `{Blake3}.

Definition gdm_file (now : option bytes) (d : bytes) (t : trigger) (at_ : path) (ent : dir_ent) : coll (list Entry.entry) :=
  let p := path_join at_ (de_name ent) in
  m ← lift (fun r => stat_follow r p);
  match m with
  | Ok m =>
      if negb (m_is_file m) then mret []
      else
        let name := from_utf8_lossy (de_name ent) in
        e ← entry Kind.DisplayManager p (#"gdm:" ++ d ++ #"/" ++ name);
        r ← the_root;
        mret [gdm_facts r now d t p name m e]
  | Err _ => mret []
  end.
Definition gdm_dir (now : option bytes) (conf : path) (dt : bytes * trigger) : coll (list Entry.entry) :=
  let at_ := path_join conf (fst dt) in
  ents ← dir at_;
  es ← map_coll (gdm_file now (fst dt) (snd dt) at_) ents; mret (mjoin es).
Definition gdm (now : option bytes) : coll (list Entry.entry) :=
  es ← map_coll (fun conf => es ← map_coll (gdm_dir now conf) GDM_DIRS; mret (mjoin es)) GDM_CONFS; mret (mjoin es).

Definition conf_dir (d : path) : coll (list path) :=
  ents ← dir d; mret (path_join d ∘ de_name <$> List.filter is_conf ents).
Definition merged (files : list path) (wanted : bytes -> bool) : coll settings :=
  fold_coll (fun out f =>
    b ← read_capped f CAP; mret (match b with Some b => merge_file wanted out (f, b) | None => out end)) ∅ files.

Definition lightdm_entry (now : option bytes) (kv : (bytes * bytes) * (bytes * path)) : coll (list Entry.entry) :=
  let '((section, k), (value, p)) := kv in
  match find (fun x => bool_decide (fst (fst x) = k)) LIGHTDM_KEYS with
  | None => mret []
  | Some (_, t, user) =>
      if bool_decide (value = []) then mret []
      else
        e ← entry Kind.DisplayManager p (#"lightdm:" ++ k);
        mret [lightdm_facts now section k value t user e]
  end.
Definition lightdm (now : option bytes) : coll (list Entry.entry) :=
  fs ← map_coll conf_dir LIGHTDM_DIRS;
  values ← merged (mjoin fs ++ [ #"etc/lightdm/lightdm.conf"]) lightdm_wanted;
  es ← map_coll (lightdm_entry now) (btree_to_list values); mret (mjoin es).

Definition sddm_value (values : settings) (x : sddm_key) : coll (option (bytes * path)) :=
  match values !! (sk_section x, sk_key x) with
  | Some v => mret (Some v)
  | None => here ← there (sk_default x); mret (if here : bool then Some (slash :: sk_default x, sk_default x) else None)
  end.
Definition sddm_entry (now : option bytes) (values : settings) (x : sddm_key) : coll (list Entry.entry) :=
  v ← sddm_value values x;
  match v with
  | None => mret []
  | Some (value, p) =>
      if bool_decide (value = []) then mret []
      else
        let k := sk_section x ++ #"/" ++ sk_key x in
        e ← entry Kind.DisplayManager p (#"sddm:" ++ k);
        mret [gate SDDM now (command_facts k value (sk_trigger x) (sk_user x) e)]
  end.
Definition sddm (now : option bytes) : coll (list Entry.entry) :=
  here ← any_there [ #"usr/bin/sddm"; #"usr/sbin/sddm"];
  if negb here then mret []
  else
    a ← conf_dir #"usr/lib/sddm/sddm.conf.d";
    b ← conf_dir #"etc/sddm.conf.d";
    values ← merged (a ++ b ++ [ #"etc/sddm.conf"]) sddm_wanted;
    es ← map_coll (sddm_entry now values) SDDM_KEYS; mret (mjoin es).

Definition collect : coll (list Entry.entry) :=
  now ← active;
  a ← gdm now; b ← lightdm now; c ← sddm now; mret (a ++ b ++ c).
End display.

(** ** What is shown *)

Section display_laws.
Context `{Strerror} `{Blake3}.

(** A hook, by the name its manager has in it: it is on only where that manager
    is the display manager, and not known to be on where none is named. *)
Record hook_of (now : option bytes) (tag : bytes) (dms : list bytes) (e : Entry.entry) : Prop := mk_hook_of {
  ho_kind : e_kind e = Kind.DisplayManager;
  ho_name : starts_with tag (e_name e) = true;
  ho_enabled : e_enabled e = Enablement.Enabled -> exists a, now = Some a /\ a ∈ dms;
  ho_other : (exists a, now = Some a /\ a ∉ dms) -> e_enabled e = Enablement.Disabled
}.
Definition MANAGERS : list (bytes * list bytes) := [( #"gdm:", GDM); ( #"lightdm:", LIGHTDM); ( #"sddm:", SDDM)].
Definition display_hook (now : option bytes) (e : Entry.entry) : Prop := Exists (fun m => hook_of now (fst m) (snd m) e) MANAGERS.

Lemma gate_hook now tag dms e :
  e_kind e = Kind.DisplayManager -> starts_with tag (e_name e) = true -> hook_of now tag dms (gate dms now e).
Proof.
  intros Hk Hn. unfold gate. destruct now as [a|].
  - case_bool_decide as Ha; split; cbn; naive_solver.
  - case_bool_decide as He; split; cbn; naive_solver.
Qed.
Lemma command_facts_same k v t user e : let e' := command_facts k v t user e in e_kind e' = e_kind e /\ e_name e' = e_name e.
Proof. cbv zeta. unfold command_facts. by destruct (leading_path v). Qed.
Lemma gdm_facts_hook r now d t p name m e :
  e_kind e = Kind.DisplayManager -> starts_with #"gdm:" (e_name e) = true -> hook_of now #"gdm:" GDM (gdm_facts r now d t p name m e).
Proof.
  intros Hk Hn. unfold gdm_facts. cbv zeta.
  match goal with |- hook_of _ _ _ (gate _ _ (if _ then Entry.note ?x _ _ else _)) => set (y := x) end.
  assert (Hy : e_kind y = e_kind e /\ e_name y = e_name e) by (unfold y; by repeat case_match). clearbody y.
  destruct Hy as [E1 E2]. apply gate_hook; case_match; first [exact (eq_trans E1 Hk)|exact (eq_trans (f_equal (starts_with _) E2) Hn)].
Qed.

Lemma gdm_shown now : yields (Forall (hook_of now #"gdm:" GDM)) (gdm now).
Proof.
  unfold gdm. apply yields_join. intros conf. apply yields_join. intros [d t]. unfold gdm_dir. apply yields_bind_any. intros ents.
  apply yields_join. intros ent.
  unfold gdm_file. apply yields_bind_any. intros [m|]; [|by apply yields_ret]. destruct (negb _); [by apply yields_ret|].
  eapply yields_bind; [apply entry_made|]. intros e [Hk Hn]. apply yields_bind_any. intros r. apply yields_ret, Forall_singleton.
  apply gdm_facts_hook; [done|]. rewrite Hn. apply starts_with_true. by eexists.
Qed.
Lemma lightdm_shown now : yields (Forall (hook_of now #"lightdm:" LIGHTDM)) (lightdm now).
Proof.
  unfold lightdm. apply yields_bind_any. intros fs. apply yields_bind_any. intros values. apply yields_join. intros [[section k] [v p]].
  unfold lightdm_entry. destruct (find _ _) as [[[? t] user]|]; [|by apply yields_ret]. case_bool_decide; [by apply yields_ret|].
  eapply yields_bind; [apply entry_made|]. intros e [Hk Hn]. apply yields_ret, Forall_singleton. unfold lightdm_facts. cbv zeta.
  destruct (command_facts_same k v t user e) as [E1 E2]. set (y := command_facts _ _ _ _ _) in *. clearbody y.
  assert (Hs : starts_with #"lightdm:" (e_name y) = true) by (rewrite E2, Hn; apply starts_with_true; by eexists).
  destruct (all_seats section); (apply gate_hook; [exact (eq_trans E1 Hk)|exact Hs]).
Qed.
Lemma sddm_shown now : yields (Forall (hook_of now #"sddm:" SDDM)) (sddm now).
Proof.
  unfold sddm. apply yields_bind_any. intros []; [|by apply yields_ret]. apply yields_bind_any. intros a. apply yields_bind_any. intros b.
  apply yields_bind_any. intros values. apply yields_join. intros x. unfold sddm_entry. apply yields_bind_any. intros [[v p]|]; [|by apply yields_ret].
  case_bool_decide; [by apply yields_ret|]. cbv zeta. eapply yields_bind; [apply entry_made|]. intros e [Hk Hn].
  apply yields_ret, Forall_singleton. destruct (command_facts_same (sk_section x ++ #"/" ++ sk_key x) v (sk_trigger x) (sk_user x) e) as [E1 E2].
  apply gate_hook; [exact (eq_trans E1 Hk)|]. rewrite E2, Hn. apply starts_with_true. by eexists.
Qed.
End display_laws.

(** Only the display manager's own hooks are on: each entry is a hook of GDM,
    LightDM or SDDM; it is on only where the link that systemd follows names that
    one, and off where it names another. *)
Theorem display_exclusive `{Strerror} `{Blake3} h cx :
  Forall (display_hook (value h cx active)) (value h cx collect).
Proof.
  unfold collect. rewrite value_bind. set (now := value h cx active). set (cx' := after h cx active).
  apply (yields_run (Forall (display_hook now)) _ h cx').
  eapply yields_bind; [apply gdm_shown|]. intros a Ha. eapply yields_bind; [apply lightdm_shown|]. intros b Hb.
  eapply yields_bind; [apply sddm_shown|]. intros c Hc. apply yields_ret. rewrite !Forall_app.
  split_and!; (eapply Forall_impl; [eassumption|]); intros e He; unfold display_hook, MANAGERS; rewrite !Exists_cons; tauto.
Qed.

(** ** What a setting comes to *)

(** What the files that could be read set a key to, in the order they are read. *)
Definition readable `{Strerror} (h : snapshot) (cx : ctx) (files : list path) : list (path * bytes) :=
  omap (fun f => b ← value h cx (read_capped f CAP); Some (f, b)) files.
Definition line_sets (wanted : bytes -> bool) (s k : bytes) (fl : path * IniLine) : option (bytes * path) :=
  if wanted s && bool_decide (ini_section (snd fl) = s) && bool_decide (ini_key (snd fl) = k) then Some (lossy (ini_value (snd fl)), fst fl) else None.
Definition settings_of (wanted : bytes -> bool) (s k : bytes) (fs : list (path * bytes)) : list (bytes * path) :=
  omap (line_sets wanted s k) (fs ≫= fun f => pair (fst f) <$> ini (snd f)).

Lemma set_line_lookup wanted f out l s k :
  set_line wanted f out l !! (s, k) = match line_sets wanted s k (f, l) with Some v => Some v | None => out !! (s, k) end.
Proof.
  unfold set_line, line_sets. cbn [fst snd]. destruct (decide ((ini_section l, ini_key l) = (s, k))) as [[= <- <-]|Hne].
  - rewrite !bool_decide_true, !andb_true_r by done. destruct (wanted _); [|done]. apply lookup_insert_eq.
  - rewrite <- andb_assoc, <- bool_decide_and, bool_decide_false, andb_false_r by (intros [E1 E2]; by rewrite E1, E2 in Hne).
    destruct (wanted _); [|done]. by apply lookup_insert_ne.
Qed.
Lemma merge_lines wanted fs out :
  foldl (merge_file wanted) out fs = foldl (fun out fl => set_line wanted (fst fl) out (snd fl)) out (fs ≫= fun f => pair (fst f) <$> ini (snd f)).
Proof.
  revert out. induction fs as [|f fs IH]; intros out; [done|]. cbn [foldl]. rewrite IH, bind_cons, foldl_app. f_equal.
  unfold merge_file. generalize (ini (snd f)). intros ls. revert out. induction ls as [|l ls IHl]; intros out; [done|apply IHl].
Qed.
Lemma merge_lookup wanted fs s k : foldl (merge_file wanted) ∅ fs !! (s, k) = last (settings_of wanted s k fs).
Proof.
  rewrite merge_lines. unfold settings_of. induction (fs ≫= _) as [|[f l] fls IH] using rev_ind; [done|].
  rewrite foldl_snoc, omap_app, last_app. cbn [fst snd]. rewrite set_line_lookup, IH. cbn [omap list_omap].
  by destruct (line_sets wanted s k (f, l)).
Qed.
Lemma value_merged `{Strerror} h cx files wanted out :
  value h cx (fold_coll (fun out f => b ← read_capped f CAP; mret (match b with Some b => merge_file wanted out (f, b) | None => out end)) out files) =
    foldl (merge_file wanted) out (readable h cx files).
Proof.
  enough (He : forall cx', same_place cx' cx -> forall out,
    value h cx' (fold_coll (fun out f => b ← read_capped f CAP; mret (match b with Some b => merge_file wanted out (f, b) | None => out end)) out files) =
      foldl (merge_file wanted) out (readable h cx files)) by by apply He.
  clear out. induction files as [|f files IH]; intros cx' Hc out; [done|]. cbn [fold_coll]. rewrite value_bind, value_bind.
  unfold readable. cbn [omap list_omap]. rewrite (proj2 (steady_read_capped f CAP) h cx' cx Hc).
  assert (Hs : same_place (after h cx' (b ← read_capped f CAP; mret (match b with Some b => merge_file wanted out (f, b) | None => out end))) cx).
  { apply after_place; [|done]. apply stays_bind; [apply stays_read_capped|intros; apply stays_ret]. }
  rewrite (IH _ Hs). by destruct (value h cx (read_capped f CAP)) as [b|].
Qed.

(** A key of a display manager's configuration has the value that the last line to set
    it gives, in the order the files are read, with the file of that line: a file
    that is not there or cannot be read sets nothing, and neither does a section
    that is not looked at. *)
Theorem setting_wins `{Strerror} h cx files wanted s k :
  value h cx (merged files wanted) !! (s, k) = last (settings_of wanted s k (readable h cx files)).
Proof. unfold merged. by rewrite value_merged, merge_lookup. Qed.

(** A host whose display manager is LightDM, with a hook of GDM's left behind. *)
Module DisplayDemo.
#[local] Instance demo_blake3 : Blake3 := fun x => x.
#[local] Instance demo_strerror : Strerror := fun _ => #"error".
Definition text (ls : list bytes) : bytes := join [x0a] ls ++ [x0a].
Definition tree : Tree.tree :=
  [( #"etc", Tree.Dir 0 0x1ED); ( #"etc/systemd", Tree.Dir 0 0x1ED); ( #"etc/systemd/system", Tree.Dir 0 0x1ED);
   ( #"etc/systemd/system/display-manager.service", Tree.Link 0 #"/usr/lib/systemd/system/lightdm.service");
   ( #"etc/gdm3", Tree.Dir 0 0x1ED); ( #"etc/gdm3/Init", Tree.Dir 0 0x1ED); ( #"etc/gdm3/Init/Default", Tree.File 0 0x1ED #"x");
   ( #"etc/lightdm", Tree.Dir 0 0x1ED); ( #"etc/lightdm/lightdm.conf.d", Tree.Dir 0 0x1ED);
   ( #"etc/lightdm/lightdm.conf.d/50.conf", Tree.File 0 0x1A4
       (text [ #"[Seat:*]"; #"display-setup-script=/bin/old"; #"session-wrapper=/bin/w %s"; #"[Other]"; #"guest-wrapper=/bin/g"]));
   ( #"etc/lightdm/lightdm.conf", Tree.File 0 0x1A4
       (text [ #"[Seat:*]"; #"display-setup-script=/bin/new -x"; #"[Seat:0]"; #"session-wrapper="; #"greeter-wrapper=run"]))].
Definition context : ctx := mk_ctx Tree.offline [] [] [] [].
Definition now : option bytes := value (Tree.kernel tree) context active.
Definition seen : list (bytes * enablement * option bytes) :=
  (fun e => (e_name e, e_enabled e, e_command e)) <$> value (Tree.kernel tree) context collect.
End DisplayDemo.

Example display_host :
  DisplayDemo.now = Some #"lightdm" /\
  DisplayDemo.seen =
    [( #"gdm:Init/Default", Enablement.Disabled, None);
     ( #"lightdm:display-setup-script", Enablement.Enabled, Some #"/bin/new -x");
     ( #"lightdm:session-wrapper", Enablement.Enabled, Some #"/bin/w %s");
     ( #"lightdm:greeter-wrapper", Enablement.Enabled, Some #"run")].
Proof. by vm_compute. Qed.
