(* ===== verification/Polkit.v ===== *)
(** [src/collect/polkit.rs]: the rules, authorities and actions that decide who
    may do what without a password. *)

From S2P Require Import Prelude Slices Order Utf8 Paths Text Kinds Entry Sys Root Tree Users Scan Collect.

Definition DAEMONS : list path := [ #"usr/lib/polkit-1/polkitd"; #"usr/libexec/polkitd"; #"usr/lib/policykit-1/polkitd"].
Definition DAEMON_CAP : N := 8 * 1024 * 1024.
Definition FILE_CAP : N := 256 * 1024.
Definition RULES_DIRS : list path :=
  [ #"etc/polkit-1/rules.d"; #"run/polkit-1/rules.d"; #"usr/local/share/polkit-1/rules.d"; #"usr/share/polkit-1/rules.d"].
Definition ACTION_DIRS : list path :=
  [ #"etc/polkit-1/actions"; #"run/polkit-1/actions"; #"usr/local/share/polkit-1/actions"; #"usr/share/polkit-1/actions"].
Definition PKLA_DIRS : list path := [ #"etc/polkit-1/localauthority"; #"var/lib/polkit-1/localauthority"].
Definition AUTHORITY_CONF : path := #"etc/polkit-1/localauthority.conf.d".

Inductive Engine := Js | LocalAuthority.
(** A daemon that says neither is taken for the current engine. *)
Definition engine_of (b : bytes) : Engine :=
  if negb (contains_sub #"polkit._runRules" b) && contains_sub #"polkitbackendlocalauthority" b then LocalAuthority else Js.
Definition authorizes (e : Entry.entry) : Entry.entry := set_enabled (set_trigger e Trigger.Auth) Enablement.Enabled.
Definition shadowed (r : root) (by_ : option path) (e : Entry.entry) : Entry.entry :=
  match by_ with
  | Some p => Entry.note (set_enabled e Enablement.Disabled) key.SHADOWED_BY (display_path (abs r p))
  | None => e
  end.

(** ** What is read of a rule's JavaScript *)

Definition quote_byte (b : byte) : bool := is_byte x22 b || is_byte x27 b.
(** How long a literal's text is, to its closing quote or to the end; [None]
    where an escape has nothing after it. *)
Fixpoint literal_length (q : byte) (s : bytes) : option nat :=
  match s with
  | [] => Some 0
  | b :: s =>
      if bool_decide (b = q) then Some 0
      else if bool_decide (b = x5c) then match s with [] => None | _ :: s => n ← literal_length q s; Some (2 + n) end
      else n ← literal_length q s; Some (1 + n)
  end.
(** The literal a text begins with, and what is after it. *)
Definition literal (s : bytes) : option (bytes * bytes) :=
  match trim_ascii_start s with
  | q :: s => if quote_byte q then n ← literal_length q s; Some (lossy (take n s), drop (S n) s) else None
  | [] => None
  end.
Definition push_new (out : list bytes) (text : bytes) : list bytes := if bool_decide (text ∈ out) then out else out ++ [text].
Fixpoint literals_from (fuel : nat) (needle rest : bytes) (out : list bytes) : list bytes :=
  match fuel with
  | O => out
  | S fuel =>
      match split_once needle rest with
      | None => out
      | Some (_, rest) =>
          literals_from fuel needle rest (match literal rest with Some (text, _) => push_new out text | None => out end)
      end
  end.
Definition literals_after (b : bytes) (needles : list bytes) : list bytes :=
  foldl (fun out needle => literals_from (S (length b)) needle b out) [] needles.
Fixpoint argv_from (fuel : nat) (rest : bytes) : list bytes :=
  match fuel with
  | O => []
  | S fuel =>
      match literal rest with
      | None => []
      | Some (word, after_) =>
          word :: match strip_prefix #"," (trim_ascii_start after_) with Some next => argv_from fuel next | None => [] end
      end
  end.
Definition spawn_argv (b : bytes) : option (list bytes) :=
  '(_, after_) ← split_once #"polkit.spawn(" b;
  rest ← strip_prefix #"[" (trim_ascii_start after_);
  let argv := argv_from (S (length rest)) rest in
  if bool_decide (argv = []) then None else Some argv.

Definition USER_TESTS : list bytes := [ #".user =="; #".user=="; #".user ==="; #".user==="].
Definition note_names (key_ : bytes) (names : list bytes) (e : Entry.entry) : Entry.entry :=
  if bool_decide (names = []) then e else Entry.note e key_ (join #", " names).
Definition rule_facts (r : root) (by_ : option path) (b : bytes) (e : Entry.entry) : Entry.entry :=
  let e := shadowed r by_ (authorizes e) in
  let e := if contains_sub #"polkit.Result.YES" b then Entry.note e #"returns_yes" #"true" else e in
  let e := note_names #"users" (literals_after b USER_TESTS) (note_names #"groups" (literals_after b [ #"isInGroup("]) e) in
  let e := match spawn_argv b with
           | Some argv =>
               let e := set_target_path (set_principal e (Some #"polkitd"))
                          (match head argv with Some p => if starts_with [slash] p then Some p else None | None => None end) in
               with_command e (Some (join #" " argv))
           | None => e
           end in
  flag_if (negb (is_utf8 b)) e Flag.EncodingAnomaly.

(** ** The local authority *)

(** The blocks of a file that hold a setting, in order: two headers of one name are
    two blocks, and what is before the first is in none. *)
Definition pkla_line (st : nat * list (bytes * list (bytes * bytes))) (l : IniLine) : nat * list (bytes * list (bytes * bytes)) :=
  let '(block, out) := st in
  if bool_decide (ini_block l = 0) then st
  else
    let kv := (ini_key l, lossy (ini_value l)) in
    if bool_decide (ini_block l = block) then (block, alter (fun sk => (fst sk, snd sk ++ [kv])) (length out - 1) out)
    else (ini_block l, out ++ [(ini_section l, [kv])]).
Definition ini_blocks (b : bytes) : list (bytes * list (bytes * bytes)) := snd (foldl pkla_line (0, []) (ini b)).
Definition get (keys : list (bytes * bytes)) (k : bytes) : option bytes := snd <$> find (fun kv => bool_decide (fst kv = k)) keys.
Definition semicolon : byte := ";".
Definition pkla_principal (identity : bytes) : option bytes :=
  match List.filter (fun s => negb (bool_decide (s = []))) (split_on (is_byte semicolon) identity) with
  | [one] => strip_prefix #"unix-user:" one
  | _ => None
  end.
Definition PKLA_KEYS : list bytes := [ #"Action"; #"ResultAny"; #"ResultInactive"; #"ResultActive"].
Definition note_result (keys : list (bytes * bytes)) (e : Entry.entry) (k : bytes) : Entry.entry :=
  match get keys k with
  | Some v =>
      let e := if bool_decide (v = #"yes") then Entry.note e #"returns_yes" #"true" else e in
      Entry.note e (to_ascii_lowercase k) v
  | None => e
  end.
Definition pkla_facts (b : bytes) (keys : list (bytes * bytes)) (e : Entry.entry) : Entry.entry :=
  let identity := default [] (get keys #"Identity") in
  let e := Entry.note (set_principal (authorizes e) (pkla_principal identity)) #"identity" identity in
  flag_if (negb (is_utf8 b)) (foldl (note_result keys) e PKLA_KEYS) Flag.EncodingAnomaly.

(** ** Action definitions *)

(** Each span from [open] to the next [close], or to the end. *)
Fixpoint elements_from (fuel : nat) (open_ close_ rest : bytes) : list bytes :=
  match fuel with
  | O => []
  | S fuel =>
      match split_once open_ rest with
      | None => []
      | Some (before_, _) =>
          let span := drop (length before_) rest in
          match split_once close_ span with
          | None => [span]
          | Some (body, rest) => (body ++ close_) :: elements_from fuel open_ close_ rest
          end
      end
  end.
Definition elements (b open_ close_ : bytes) : list bytes := elements_from (S (length b)) open_ close_ b.
Definition gt : byte := ">".
Definition lt : byte := "<".
Definition attr (element name : bytes) : option bytes :=
  '(_, after_) ← split_once name (before gt element); fst <$> literal after_.
Definition text_of (element tag : bytes) : option bytes :=
  '(_, after_) ← split_once (#"<" ++ tag ++ #">") element; Some (lossy (trim_ascii (before lt after_))).
Definition ALLOWS : list bytes := [ #"allow_any"; #"allow_inactive"; #"allow_active"].
Definition action_id (action : bytes) : bytes := default [] (attr action #"id=").
(** The answers of an action that ask for no password. *)
Definition allowed (action : bytes) : list bytes :=
  List.filter (fun k => bool_decide (text_of action k = Some #"yes")) ALLOWS.
Definition no_auth (action : bytes) : option bytes :=
  let yes := allowed action in
  if bool_decide (yes = []) then None else Some (action_id action ++ #" (" ++ join #", " yes ++ #")").
Definition exec_path (action a : bytes) : option bytes :=
  if bool_decide (attr a #"key=" = Some #"org.freedesktop.policykit.exec.path") then
    match position (is_byte gt) a with
    | Some i => Some (action_id action ++ #": " ++ lossy (trim_ascii (before lt (drop (S i) a))))
    | None => None
    end
  else None.
Definition action_facts (r : root) (by_ : option path) (b : bytes) (e : Entry.entry) : Entry.entry :=
  let acts := elements b #"<action" #"</action>" in
  let no_auth := omap no_auth acts in
  let exec := acts ≫= fun a => omap (exec_path a) (elements a #"<annotate" #"</annotate>") in
  let e := shadowed r by_ (authorizes e) in
  let e := if bool_decide (no_auth = []) then e else Entry.note e #"no_auth_actions" (join #"; " no_auth) in
  if bool_decide (exec = []) then e else Entry.note e #"exec_paths" (join #"; " exec).

(** ** The collector *)

Section polkit.
Context `{Strerror} `{Blake3}.

Fixpoint daemon (ds : list path) : coll (option path) :=
  match ds with [] => mret None | d :: ds => here ← there d; if here : bool then mret (Some d) else daemon ds end.
Definition engine : coll (option Engine) :=
  d ← daemon DAEMONS;
  match d with
  | None => mret None
  | Some d => b ← read_capped d DAEMON_CAP; mret (engine_of <$> b)
  end.

(** A file of rules or actions that is read. *)
Definition replaced_entry (k : kind) (facts : root -> option path -> bytes -> Entry.entry -> Entry.entry) (f : path * option path)
    : coll (list Entry.entry) :=
  b ← read_capped (fst f) FILE_CAP;
  match b with
  | None => mret []
  | Some b =>
      r ← the_root;
      e ← entry k (fst f) (from_utf8_lossy (default [] (file_name (fst f))));
      mret [facts r (snd f) b e]
  end.
Definition rules : coll (list Entry.entry) :=
  fs ← replaceable RULES_DIRS #".rules"; es ← map_coll (replaced_entry Kind.PolkitRule rule_facts) fs; mret (mjoin es).
Definition actions : coll (list Entry.entry) :=
  fs ← replaceable ACTION_DIRS #".policy"; es ← map_coll (replaced_entry Kind.PolkitAction action_facts) fs; mret (mjoin es).

(** The names in a directory that are or are not directories and end in [suffix]. *)
Definition named (dirs : bool) (suffix : bytes) (d : path) : coll (list bytes) :=
  ents ← dir d;
  mret (sort_by (fun n => n) (de_name <$> List.filter (fun ent => eqb (de_is_dir ent) dirs && ends_with suffix (de_name ent)) ents)).
Definition pkla_file (p : path) : coll (list Entry.entry) :=
  b ← read_capped p FILE_CAP;
  match b with
  | None => mret []
  | Some b => map_coll (fun sk => e ← entry Kind.PolkitRule p (fst sk); mret (pkla_facts b (snd sk) e)) (ini_blocks b)
  end.
Definition pkla_dir (d : path) : coll (list Entry.entry) :=
  fs ← named false #".pkla" d; es ← map_coll (fun f => pkla_file (path_join d f)) fs; mret (mjoin es).
Definition pkla_top (top : path) : coll (list Entry.entry) :=
  ds ← named true [] top; es ← map_coll (fun d => pkla_dir (path_join top d)) ds; mret (mjoin es).
Definition pkla : coll (list Entry.entry) := es ← map_coll pkla_top PKLA_DIRS; mret (mjoin es).

Definition identities (b : bytes) : list bytes :=
  ini_blocks b ≫= fun sk => snd <$> List.filter (fun kv => bool_decide (fst kv = #"AdminIdentities")) (snd sk).
Definition authority_file (p : path) : coll (list Entry.entry) :=
  b ← read_capped p FILE_CAP;
  match b with
  | None => mret []
  | Some b =>
      map_coll (fun v => e ← entry Kind.PolkitRule p #"AdminIdentities"; mret (Entry.note (authorizes e) #"identity" v)) (identities b)
  end.
Definition admin_identities : coll (list Entry.entry) :=
  fs ← named false #".conf" AUTHORITY_CONF; es ← map_coll (fun f => authority_file (path_join AUTHORITY_CONF f)) fs; mret (mjoin es).

Definition collect : coll (list Entry.entry) :=
  e ← engine;
  match e with
  | None => mret []
  | Some Js => rs ← rules; acts ← actions; mret (rs ++ acts)
  | Some LocalAuthority => ps ← pkla; ids ← admin_identities; acts ← actions; mret (ps ++ ids ++ acts)
  end.
End polkit.

(** ** What a rule tests *)

(** A text that overlaps itself nowhere. *)
Definition unbordered (needle : bytes) : bool :=
  forallb (fun k => negb (starts_with (drop k needle) needle)) (seq 1 (length needle - 1)).
Lemma occurrences_apart needle l r a tail :
  unbordered needle = true -> l ++ needle ++ r = a ++ needle ++ tail -> length l < length a -> exists a', r = a' ++ needle ++ tail.
Proof.
  intros Hu E Hl. destruct (decide (length l + length needle <= length a)) as [Hle|Hgt].
  - exists (drop (length l + length needle) a). apply (f_equal (drop (length l + length needle))) in E.
    rewrite app_assoc, drop_app_ge in E by (rewrite length_app; lia). rewrite length_app in E.
    replace (length l + length needle - (length l + length needle)) with 0 in E by lia. rewrite drop_0 in E. rewrite E. by apply drop_app_le.
  - exfalso. set (k := length a - length l). unfold unbordered in Hu. rewrite forallb_forall in Hu.
    assert (Hk : In k (seq 1 (length needle - 1))) by (apply in_seq; lia). specialize (Hu _ Hk). apply negb_true_iff in Hu.
    apply not_true_iff_false in Hu. apply Hu, starts_with_true. exists (drop (length needle - k) needle).
    apply (f_equal (drop (length a))) in E. rewrite drop_app_length in E.
    rewrite drop_app_ge in E by lia. fold k in E. rewrite drop_app_le in E by lia.
    apply (f_equal (take (length needle - k))) in E. rewrite take_app_le in E by (rewrite length_drop; lia).
    rewrite take_ge in E by (rewrite length_drop; lia). rewrite take_app_le in E by lia. rewrite E. by rewrite take_drop.
Qed.
Lemma literal_length_plain q text rest :
  Forall (fun b => b <> q /\ b <> x5c) text -> literal_length q (text ++ q :: rest) = Some (length text).
Proof.
  induction 1 as [|b text [Hq Hx] _ IH]; cbn [app literal_length].
  - by rewrite bool_decide_true.
  - by rewrite !bool_decide_false, IH by done.
Qed.
Lemma literal_plain ws q text rest :
  Forall (fun b => is_ascii_whitespace b = true) ws -> quote_byte q = true -> Forall (fun b => b <> q /\ b <> x5c) text ->
  literal (ws ++ q :: text ++ q :: rest) = Some (lossy text, rest).
Proof.
  intros Hws Hq Ht. unfold literal. assert (E : trim_ascii_start (ws ++ q :: text ++ q :: rest) = q :: text ++ q :: rest).
  { induction Hws as [|w ws Hw _ IH]; cbn [app]; unfold trim_ascii_start in *; cbn [drop_while].
    - unfold quote_byte in Hq. apply orb_true_iff in Hq as [E|E]; apply bool_decide_eq_true in E as ->; done.
    - by rewrite Hw. }
  rewrite E, Hq, literal_length_plain by done. cbn [mbind option_bind]. rewrite take_app_length.
  replace (S (length text)) with (length (text ++ [q])) by (rewrite length_app; cbn; lia).
  change (q :: rest) with ([q] ++ rest). by rewrite app_assoc, drop_app_length.
Qed.
Lemma push_new_keeps out x y : y ∈ out -> y ∈ push_new out x.
Proof. intros Hy. unfold push_new. case_bool_decide; [done|]. apply elem_of_app. by left. Qed.
Lemma push_new_has out x : x ∈ push_new out x.
Proof. unfold push_new. case_bool_decide; [done|]. apply elem_of_app. right. by left. Qed.
Lemma literals_from_keeps n needle rest out x : x ∈ out -> x ∈ literals_from n needle rest out.
Proof.
  revert rest out. induction n as [|n IH]; intros rest out Hx; cbn [literals_from]; [done|].
  destruct (split_once needle rest) as [[l r]|]; [|done]. apply IH. destruct (literal r) as [[t r']|]; [by apply push_new_keeps|done].
Qed.
Lemma literals_from_finds n needle b out a ws q text rest :
  unbordered needle = true -> needle <> [] -> Forall (fun b => is_ascii_whitespace b = true) ws -> quote_byte q = true ->
  Forall (fun b => b <> q /\ b <> x5c) text -> length b < n -> b = a ++ needle ++ ws ++ q :: text ++ q :: rest ->
  lossy text ∈ literals_from n needle b out.
Proof.
  intros Hu Hne Hws Hq Ht. revert b a out. induction n as [|n IH]; intros b a out Hn E; [lia|]. cbn [literals_from].
  destruct (split_once needle b) as [[l r]|] eqn:Es; [|by eapply split_once_None_app in Es].
  pose proof (split_once_first _ _ _ _ _ _ Es E) as Hl. apply split_once_Some in Es.
  destruct (decide (length l = length a)) as [El|Hlt].
  - rewrite E in Es. apply app_inj_1 in Es as [_ Es]; [|done]. apply app_inv_head in Es as <-.
    apply literals_from_keeps. rewrite literal_plain by done. apply push_new_has.
  - destruct (occurrences_apart needle l r a (ws ++ q :: text ++ q :: rest)) as [a' Er]; [done|by rewrite <- Es|lia|].
    apply (IH r a'); [|done]. apply (f_equal length) in Es. rewrite !length_app in Es. destruct needle; [done|]. cbn in Es. lia.
Qed.

(** C0. No group that a rule tests for by name is missed: wherever the file has
    [isInGroup(] before a string literal without an escape, the name is among those found. *)
Theorem groups_found b a ws q text rest :
  Forall (fun b => is_ascii_whitespace b = true) ws -> quote_byte q = true -> Forall (fun b => b <> q /\ b <> x5c) text ->
  b = a ++ #"isInGroup(" ++ ws ++ q :: text ++ q :: rest -> lossy text ∈ literals_after b [ #"isInGroup("].
Proof. intros Hws Hq Ht E. unfold literals_after. cbn [foldl]. eapply literals_from_finds; try done. lia. Qed.

(** ** What is shown *)

Section polkit_laws.
Context `{Strerror} `{Blake3}.

(** An entry that grants something, on unless a file replaces its own. *)
Record grant_shown (k : kind) (replaced : bool) (e : Entry.entry) : Prop := mk_grant_shown {
  gr_kind : e_kind e = k;
  gr_trigger : e_trigger e = Trigger.Auth;
  gr_enabled : e_enabled e = if replaced then Enablement.Disabled else Enablement.Enabled
}.
Definition is_replaced (by_ : option path) : bool := match by_ with Some _ => true | None => false end.
Lemma shadowed_shown k r by_ e : e_kind e = k -> grant_shown k (is_replaced by_) (shadowed r by_ (authorizes e)).
Proof. intros Hk. by destruct by_. Qed.
Lemma grant_note k b e key v : grant_shown k b e -> grant_shown k b (Entry.note e key v).
Proof. by intros []. Qed.
Lemma grant_flag_if k b e c f : grant_shown k b e -> grant_shown k b (flag_if c e f).
Proof. intros []. unfold flag_if, Entry.flag. destruct c; [|done]. by destruct (mem f (e_flags e)). Qed.
Lemma grant_names k b e key names : grant_shown k b e -> grant_shown k b (note_names key names e).
Proof. intros Hg. unfold note_names. case_bool_decide; [done|by apply grant_note]. Qed.
Lemma rule_facts_shown r by_ b e : e_kind e = Kind.PolkitRule -> grant_shown Kind.PolkitRule (is_replaced by_) (rule_facts r by_ b e).
Proof.
  intros Hk. unfold rule_facts. cbv zeta. apply grant_flag_if.
  match goal with |- grant_shown _ _ (match _ with Some _ => _ | None => ?x end) => assert (Hx : grant_shown Kind.PolkitRule (is_replaced by_) x) end.
  { apply grant_names, grant_names. case_match; [apply grant_note|]; by apply shadowed_shown. }
  destruct (spawn_argv b); [by destruct Hx|done].
Qed.
Lemma action_facts_shown r by_ b e : e_kind e = Kind.PolkitAction -> grant_shown Kind.PolkitAction (is_replaced by_) (action_facts r by_ b e).
Proof.
  intros Hk. unfold action_facts. cbv zeta. pose proof (shadowed_shown _ r by_ e Hk) as Hs.
  repeat case_bool_decide; repeat apply grant_note; done.
Qed.
Lemma pkla_facts_shown b keys e : e_kind e = Kind.PolkitRule -> grant_shown Kind.PolkitRule false (pkla_facts b keys e).
Proof.
  intros Hk. unfold pkla_facts. cbv zeta. apply grant_flag_if.
  assert (Hf : forall ks e, grant_shown Kind.PolkitRule false e -> grant_shown Kind.PolkitRule false (foldl (note_result keys) e ks)).
  { induction ks as [|k ks IH]; intros x Hx; [done|]. apply IH. unfold note_result. destruct (get keys k); [|done].
    apply grant_note. case_bool_decide; [by apply grant_note|done]. }
  apply Hf, grant_note. by split.
Qed.

Lemma replaced_shown k facts fs :
  (forall r by_ b e, e_kind e = k -> grant_shown k (is_replaced by_) (facts r by_ b e)) ->
  yields (Forall2 (fun f es => Forall (grant_shown k (is_replaced (snd f))) es) fs) (map_coll (replaced_entry k facts) fs).
Proof.
  intros Hf. apply yields_map2. intros f. unfold replaced_entry. apply yields_bind_any. intros [b|]; [|by apply yields_ret].
  apply yields_bind_any. intros r. eapply yields_bind; [apply entry_made|]. intros e [Hk _]. by apply yields_ret, Forall_singleton, Hf.
Qed.

(** Each entry is a rule or an action, of an authorisation. *)
Definition grants (e : Entry.entry) : Prop := exists k b, k ∈ [Kind.PolkitRule; Kind.PolkitAction] /\ grant_shown k b e.
Lemma replaced_grants k facts dirs suffix :
  k ∈ [Kind.PolkitRule; Kind.PolkitAction] -> (forall r by_ b e, e_kind e = k -> grant_shown k (is_replaced by_) (facts r by_ b e)) ->
  yields (Forall grants) (fs ← replaceable dirs suffix; es ← map_coll (replaced_entry k facts) fs; mret (mjoin es)).
Proof.
  intros Hk Hf. apply yields_bind_any. intros fs. eapply yields_bind; [by apply replaced_shown|]. intros es He. apply yields_ret, Forall_join.
  induction He as [|f l fs es Hl _ IH]; constructor; [|done]. eapply Forall_impl; [exact Hl|]. intros e Hg. by exists k, (is_replaced (snd f)).
Qed.
Lemma rule_grants e : grant_shown Kind.PolkitRule false e -> grants e.
Proof. intros Hg. exists Kind.PolkitRule, false. split; [by left|done]. Qed.
End polkit_laws.

(** Nothing is shown where no daemon is installed; where one is, each entry is a
    rule or an action of its, asked for by an authorisation, and is on unless another
    file replaces its own. *)
Theorem polkit_grants `{Strerror} `{Blake3} h cx :
  Forall grants (value h cx collect) /\
  (existsb (holds h (cx_root cx)) DAEMONS = false -> value h cx collect = []).
Proof.
  split.
  - apply (yields_run (Forall grants) _ h cx). unfold collect. apply yields_bind_any. intros [[]|]; [..|by apply yields_ret].
    + eapply yields_bind; [apply replaced_grants; [by left|intros; by apply rule_facts_shown]|]. intros rs Hr.
      eapply yields_bind; [apply replaced_grants; [right; by left|intros; by apply action_facts_shown]|]. intros acts Ha.
      apply yields_ret, Forall_app. by split.
    + eapply (yields_bind (Forall grants)).
      { unfold pkla. apply yields_join. intros top. unfold pkla_top. apply yields_bind_any. intros ds. apply yields_join. intros d.
        unfold pkla_dir. apply yields_bind_any. intros fs. apply yields_join. intros f. unfold pkla_file. apply yields_bind_any.
        intros [b|]; [|by apply yields_ret]. apply yields_map. intros sk _. eapply yields_bind; [apply entry_made|]. intros e [Hk _].
        by apply yields_ret, rule_grants, pkla_facts_shown. }
      intros ps Hp. eapply (yields_bind (Forall grants)).
      { unfold admin_identities. apply yields_bind_any. intros fs. apply yields_join. intros f. unfold authority_file. apply yields_bind_any.
        intros [b|]; [|by apply yields_ret]. apply yields_map. intros v _. eapply yields_bind; [apply entry_made|]. intros e [Hk _].
        apply yields_ret, rule_grants, grant_note. by split. }
      intros ids Hi. eapply yields_bind; [apply replaced_grants; [right; by left|intros; by apply action_facts_shown]|]. intros acts Ha.
      apply yields_ret. rewrite !Forall_app. by split_and!.
  - intros Hd. unfold collect, engine. rewrite !value_bind. assert (E : value h cx (daemon DAEMONS) = None).
    { revert Hd. generalize DAEMONS. induction l as [|d ds IH]; [done|]. cbn [existsb daemon]. intros [H1 H2]%orb_false_iff.
      rewrite value_bind, value_there, after_there, H1. by apply IH. }
    by rewrite E.
Qed.

(** A host of each engine. *)
Module PolkitDemo.
#[local] Instance demo_blake3 : Blake3 := fun x => x.
#[local] Instance demo_strerror : Strerror := fun _ => #"error".
Definition text (ls : list bytes) : bytes := join [x0a] ls ++ [x0a].
Definition dirs : Tree.tree :=
  [( #"usr", Tree.Dir 0 0x1ED); ( #"usr/lib", Tree.Dir 0 0x1ED); ( #"usr/lib/polkit-1", Tree.Dir 0 0x1ED); ( #"etc", Tree.Dir 0 0x1ED);
   ( #"usr/share", Tree.Dir 0 0x1ED); ( #"usr/share/polkit-1", Tree.Dir 0 0x1ED); ( #"usr/share/polkit-1/rules.d", Tree.Dir 0 0x1ED);
   ( #"usr/share/polkit-1/actions", Tree.Dir 0 0x1ED); ( #"etc/polkit-1", Tree.Dir 0 0x1ED); ( #"etc/polkit-1/rules.d", Tree.Dir 0 0x1ED);
   ( #"etc/polkit-1/localauthority", Tree.Dir 0 0x1ED); ( #"etc/polkit-1/localauthority/50.d", Tree.Dir 0 0x1ED);
   ( #"etc/polkit-1/rules.d/10.rules", Tree.File 0 0x1A4
       (text [ #"if (s.isInGroup('wheel') && s.user == 'bob') {"; #"  polkit.spawn(['/bin/log', 'x']); return polkit.Result.YES; }"]));
   ( #"usr/share/polkit-1/rules.d/10.rules", Tree.File 0 0x1A4 (text [ #"x"]));
   ( #"usr/share/polkit-1/actions/a.policy", Tree.File 0 0x1A4
       (text [ #"<action id='mount'><defaults><allow_any>no</allow_any><allow_active> yes </allow_active></defaults>";
               #"<annotate key='org.freedesktop.policykit.exec.path'>/bin/mnt</annotate></action>"]));
   ( #"etc/polkit-1/localauthority/50.d/u.pkla", Tree.File 0 0x1A4
       (text [ #"[Users]"; #"Identity=unix-user:bob;"; #"Action=*"; #"ResultAny=yes"]))].
Definition host (daemon : bytes) : Tree.tree := ( #"usr/lib/polkit-1/polkitd", Tree.File 0 0x1ED daemon) :: dirs.
Definition noted (e : Entry.entry) : list bytes :=
  omap (fun k => e_raw e !! k) [ #"returns_yes"; #"groups"; #"users"; #"no_auth_actions"; #"exec_paths"].
Definition seen (daemon : bytes) : list (bytes * enablement * option bytes * list bytes) :=
  (fun e => (e_name e, e_enabled e, e_principal e, noted e)) <$> value (Tree.kernel (host daemon)) (mk_ctx Tree.offline [] [] [] []) collect.
Definition policy : bytes * enablement * option bytes * list bytes :=
  ( #"a.policy", Enablement.Enabled, None, [ #"mount (allow_active)"; #"mount: /bin/mnt"]).
End PolkitDemo.

Example polkit_host :
  PolkitDemo.seen #"polkit._runRules" =
    [( #"10.rules", Enablement.Enabled, Some #"polkitd", [ #"true"; #"wheel"; #"bob"]); ( #"10.rules", Enablement.Disabled, None, []);
     PolkitDemo.policy] /\
  PolkitDemo.seen #"polkitbackendlocalauthority" =
    [( #"Users", Enablement.Enabled, Some #"bob", [ #"true"]); PolkitDemo.policy].
Proof. by vm_compute. Qed.

Lemma groups_found_witness : lossy #"wheel" ∈ literals_after #"x.isInGroup( 'wheel') isInGroup(" [ #"isInGroup("].
Proof.
  apply (groups_found _ #"x." #" " "'"%byte #"wheel" #") isInGroup("); [by repeat constructor|done| |done].
  by repeat (constructor; [by split; apply (bool_decide_eq_true_1 _)|]).
Defined.
