(* ===== verification/Editors.v ===== *)
(** [src/collect/editors.rs]: the code that editors, tmux and screen load for
    every account. *)

From S2P Require Import Prelude Slices Order Num Utf8 Paths Kinds Entry Sys Root Tree Users Scan Collect.

Definition CAP : N := 1024 * 1024.
Definition MAX_DEPTH : nat := 4.

(** ** Words *)

Definition char_is (b : byte) (c : char) : bool := (c =? Byte.to_N b)%N.
Definition flush (out : list bytes) (cur : list char) : list bytes := out ++ [utf8_encode cur].
(** A word is there when it holds a character or was quoted. *)
Definition word_there (cur : list char) (had : bool) : bool := had || negb (bool_decide (cur = [])).
Definition ended (out : list bytes) (cur : list char) (had : bool) : list bytes := if word_there cur had then flush out cur else out.
Fixpoint words_from (cs : list char) (out : list bytes) (cur : list char) (quote : option char) (had : bool) : list bytes :=
  match cs with
  | [] => ended out cur had
  | c :: cs =>
      match quote with
      | Some q =>
          if (c =? q)%N then words_from cs out cur None had
          else if char_is x22 q && char_is x5c c then
            match cs with [] => ended out cur had | n :: cs => words_from cs out (cur ++ [n]) quote had end
          else words_from cs out (cur ++ [c]) quote had
      | None =>
          if char_is x22 c || char_is x27 c then words_from cs out cur (Some c) true
          else if char_is x5c c then
            match cs with [] => ended out cur had | n :: cs => words_from cs out (cur ++ [n]) None true end
          else if is_whitespace c then
            if word_there cur had then words_from cs (flush out cur) [] None false else words_from cs out cur None had
          else if char_is "#" c && negb (word_there cur had) then ended out cur had
          else words_from cs out (cur ++ [c]) None true
      end
  end.
Definition words (line : bytes) : list bytes := words_from (chars line) [] [] None false.

Definition join_line (st : list bytes * bytes) (line : bytes) : list bytes * bytes :=
  match strip_suffix [x5c] line with
  | Some head => (fst st, snd st ++ head ++ #" ")
  | None => (fst st ++ [snd st ++ line], [])
  end.
Definition logical_lines (text : bytes) : list bytes :=
  let '(out, cur) := foldl join_line ([], []) (lines text) in if bool_decide (cur = []) then out else out ++ [cur].

Definition is_option (a : bytes) : bool := (1 <? length a) && starts_with #"-" a && negb (starts_with #"--" a).
Definition last_letter (a : bytes) : bytes := #"-" ++ utf8_encode (option_list (last (chars a))).
(** The words that are not options or the value of one. *)
Fixpoint positionals (valued : list bytes) (args : list bytes) : list bytes :=
  match args with
  | [] => []
  | a :: rest =>
      if is_option a then
        if bool_decide (last_letter a ∈ valued) then match rest with [] => [] | _ :: rest => positionals valued rest end
        else positionals valued rest
      else a :: positionals valued rest
  end.

(** ** tmux and screen *)

Inductive pick := Nth (n : nat) | Last.
Definition TMUX : list (list bytes * (list bytes * pick)) :=
  [([ #"run-shell"; #"run"], ([ #"-c"; #"-d"; #"-t"], Nth 0)); ([ #"if-shell"; #"if"], ([ #"-t"], Nth 0)); ([ #"set-hook"], ([ #"-t"], Nth 1));
   ([ #"new-session"; #"new"], ([ #"-c"; #"-e"; #"-f"; #"-F"; #"-n"; #"-s"; #"-t"; #"-x"; #"-y"], Last));
   ([ #"new-window"; #"neww"], ([ #"-c"; #"-e"; #"-F"; #"-n"; #"-t"], Last));
   ([ #"split-window"; #"splitw"], ([ #"-c"; #"-e"; #"-F"; #"-l"; #"-t"], Last)); ([ #"source-file"; #"source"], ([ #"-t"], Nth 0))].
Definition tmux_command (w : list bytes) : option bytes :=
  match w with
  | [] => None
  | verb :: args =>
      match find (fun x => bool_decide (verb ∈ fst x)) TMUX with
      | None => None
      | Some (_, (valued, p)) =>
          let ps := positionals valued args in
          match p with Last => last ps | Nth n => ps !! n end
      end
  end.
(** What a [screen] line starts, after its flags and a number. *)
Fixpoint screen_args (rest : list bytes) : list bytes :=
  match rest with
  | [] => []
  | a :: rest' =>
      match strip_prefix #"-" a with
      | Some f =>
          if bool_decide (f ∈ [ #"t"; #"h"; #"e"]) then match rest' with [] => [] | _ :: rest' => screen_args rest' end
          else screen_args rest'
      | None => if forallb is_ascii_digit a then screen_args rest' else rest
      end
  end.
Definition screen_command (w : list bytes) : option bytes :=
  match w with
  | [] => None
  | verb :: args =>
      if bool_decide (verb ∈ [ #"exec"; #"shell"; #"source"]) then Some (join #" " args)
      else if bool_decide (verb = #"screen") then Some (join #" " (screen_args args))
      else None
  end.
(** The verb and command of each line that has one, by the line's number. *)
Definition line_command (command : list bytes -> option bytes) (n : nat) (line : bytes) : option (nat * bytes * bytes) :=
  let w := words line in
  match head w, command w with
  | Some verb, Some c => if bool_decide (c = []) then None else Some (S n, verb, c)
  | _, _ => None
  end.
Definition line_commands (command : list bytes -> option bytes) (text : bytes) : list (nat * bytes * bytes) :=
  omap id (imap (line_command command) (logical_lines text)).

(** ** Entries *)

Definition loaded (program : bytes) (installed : bool) (e : Entry.entry) : Entry.entry :=
  let e := Entry.note (set_enabled (set_trigger e Trigger.Always) Enablement.Enabled) #"loaded_by" program in
  off_unless installed (program ++ #" is not installed") (Entry.note e #"runs_when" (program ++ #" starts, for every account")).
Definition base_name (p : path) : bytes := default p (last (split_on (is_byte slash) p)).
Definition relative (d p : path) : bytes := display_path (default p (path_strip_prefix d p)).

Definition VIM : list path := [ #"usr/bin/vim"; #"usr/bin/vim.basic"; #"usr/bin/vim.tiny"; #"usr/bin/vi"; #"usr/bin/vimx"].
Definition VIMRC : list path := [ #"etc/vim/vimrc"; #"etc/vim/vimrc.local"; #"etc/vimrc"; #"etc/vimrc.local"].
Definition VIM_DIRS : list path := [ #"var/lib/vim/addons"; #"etc/vim"; #"usr/share/vim/vimfiles"].
Definition is_version_dir (ent : dir_ent) : bool :=
  let n := from_utf8_lossy (de_name ent) in
  de_is_dir ent && starts_with #"vim" n && forallb is_ascii_digit (drop 3 n) && (3 <? length n).
Definition NVIM_DIRS : list path :=
  [ #"etc/xdg/nvim"; #"usr/local/share/nvim/site"; #"usr/share/nvim/site"; #"usr/share/nvim/runtime"; #"usr/lib/nvim"; #"usr/lib64/nvim"].
Definition EMACS : list path := [ #"usr/bin/emacs"; #"usr/bin/emacs-nw"; #"usr/bin/emacs-gtk"].
Definition SITE_FILES : list path :=
  [ #"etc/emacs/site-start.el"; #"usr/share/emacs/site-lisp/site-start.el"; #"usr/share/emacs/site-lisp/default.el"].
Definition fedora (n : bytes) : bool := ends_with #".el" n || ends_with #".elc" n.
Definition debian (n : bytes) : bool :=
  (2 <? length n) && match n with a :: b :: _ => is_ascii_digit a && is_ascii_digit b | _ => false end && fedora n.
Definition SITE_DIRS : list (path * (bytes -> bool)) :=
  [( #"etc/emacs/site-start.d", debian); ( #"usr/share/emacs/site-lisp/site-start.d", fedora)].

Section editors.
Context `{Strerror} `{Blake3}.

Definition startup_entry (p : path) (name program : bytes) (installed : bool) : coll Entry.entry :=
  e ← entry Kind.ProgramStartup p name; mret (loaded program installed e).
Definition file_entry (program : bytes) (installed : bool) (name : bytes) (p : path) : coll (list Entry.entry) :=
  m ← lift (fun r => stat_follow r p);
  if match m with Ok m => m_is_file m | Err _ => false end then
    e ← startup_entry p name program installed;
    r ← the_root;
    mret [set_target_path e (Some (abs r p))]
  else mret [].
(** [n] is five less the depth. *)
Fixpoint tree (n : nat) (exts : list bytes) (d : path) : coll (list path) :=
  match n with
  | O => mret []
  | S n =>
      ents ← dir d;
      ps ← map_coll (fun ent =>
        let p := path_join d (de_name ent) in
        if de_is_dir ent then tree n exts p
        else mret (if existsb (fun x => ends_with x (from_utf8_lossy (de_name ent))) exts then [p] else []))
        (sort_by de_name ents);
      mret (mjoin ps)
  end.
Definition tree_of (exts : list bytes) (d : path) : coll (list path) := tree (S MAX_DEPTH) exts d.
Definition subdirs (d : path) : coll (list bytes) := ents ← dir d; mret (de_name <$> List.filter de_is_dir ents).
Definition files_entries (program : bytes) (installed : bool) (d : path) (fs : list path) : coll (list Entry.entry) :=
  es ← map_coll (fun f => file_entry program installed (program ++ #":" ++ relative d f) f) fs; mret (mjoin es).

Definition vim_packs (d : path) : coll (list path) :=
  packs ← subdirs (path_join d #"pack");
  ls ← map_coll (fun pack =>
    let start := path_join (path_join (path_join d #"pack") pack) #"start" in
    ps ← subdirs start;
    ls ← map_coll (fun p => tree_of [ #".vim"] (path_join (path_join start p) #"plugin")) ps; mret (mjoin ls)) packs;
  mret (mjoin ls).
Definition vim_dir (installed : bool) (d : path) : coll (list Entry.entry) :=
  fs ← tree_of [ #".vim"] (path_join d #"plugin");
  ps ← vim_packs d;
  files_entries #"vim" installed d (fs ++ ps).
Definition vim : coll (list Entry.entry) :=
  installed ← any_there VIM;
  rcs ← map_coll (fun rc => file_entry #"vim" installed (#"vim:" ++ base_name rc) rc) VIMRC;
  ents ← dir #"usr/share/vim";
  let dirs := VIM_DIRS ++ (path_join #"usr/share/vim" ∘ de_name <$> List.filter is_version_dir ents) in
  es ← map_coll (vim_dir installed) (dirs ++ ((fun d => path_join d #"after") <$> dirs));
  mret (mjoin rcs ++ mjoin es).

Definition nvim_dir (installed : bool) (d : path) : coll (list Entry.entry) :=
  fs ← tree_of [ #".vim"; #".lua"] (path_join d #"plugin"); files_entries #"nvim" installed d fs.
Definition neovim : coll (list Entry.entry) :=
  installed ← there #"usr/bin/nvim";
  rc ← file_entry #"nvim" installed #"nvim:sysinit.vim" #"etc/xdg/nvim/sysinit.vim";
  es ← map_coll (nvim_dir installed) (NVIM_DIRS ++ ((fun d => path_join d #"after") <$> take 3 NVIM_DIRS));
  mret (rc ++ mjoin es).

Definition site_dir (installed : bool) (da : path * (bytes -> bool)) : coll (list Entry.entry) :=
  ents ← dir (fst da);
  es ← map_coll (fun n =>
    let name := from_utf8_lossy n in
    if snd da name then file_entry #"emacs" installed (#"emacs:site-start.d/" ++ name) (path_join (fst da) n) else mret [])
    (de_name <$> List.filter (fun ent => negb (de_is_dir ent)) ents);
  mret (mjoin es).
Definition emacs : coll (list Entry.entry) :=
  installed ← any_there EMACS;
  a ← map_coll (fun f => file_entry #"emacs" installed (#"emacs:" ++ base_name f) f) SITE_FILES;
  b ← map_coll (site_dir installed) SITE_DIRS;
  mret (mjoin a ++ mjoin b).

Definition command_entry (p : path) (program : bytes) (installed : bool) (nvc : nat * bytes * bytes) : coll Entry.entry :=
  let '(n, verb, c) := nvc in
  e ← startup_entry p (program ++ #":" ++ verb ++ #":" ++ dec (N.of_nat n)) program installed;
  mret (with_command (Entry.note e #"directive" verb) (Some c)).
Definition commands_of (binary p : path) (program : bytes) (command : list bytes -> option bytes) : coll (list Entry.entry) :=
  installed ← there binary;
  b ← read_capped p CAP;
  match b with
  | None => mret []
  | Some b => map_coll (command_entry p program installed) (line_commands command (from_utf8_lossy b))
  end.
Definition tmux : coll (list Entry.entry) := commands_of #"usr/bin/tmux" #"etc/tmux.conf" #"tmux" tmux_command.
Definition screen : coll (list Entry.entry) := commands_of #"usr/bin/screen" #"etc/screenrc" #"screen" screen_command.

Definition collect : coll (list Entry.entry) :=
  a ← vim; b ← neovim; c ← emacs; d ← tmux; e ← screen; mret (a ++ b ++ c ++ d ++ e).
End editors.

(** ** Words *)

Definition squote : byte := x27.
(** A word in quotes, as a configuration may always write it. *)
Definition quote (w : bytes) : bytes := squote :: w ++ [squote].
Definition quotable (w : bytes) : Prop := is_utf8 w = true /\ Forall (fun c => c <> Byte.to_N squote) (chars w).

Lemma words_quoted cs out cur rest :
  Forall (fun c => c <> Byte.to_N squote) cs ->
  words_from (cs ++ Byte.to_N squote :: rest) out cur (Some (Byte.to_N squote)) true = words_from rest out (cur ++ cs) None true.
Proof.
  intros Hcs. revert cur. induction Hcs as [|c cs Hc _ IH]; intros cur; cbn [app words_from].
  - by rewrite N.eqb_refl, app_nil_r.
  - rewrite (proj2 (N.eqb_neq _ _)) by done. change (char_is x22 (Byte.to_N squote)) with false. cbn [andb].
    by rewrite IH, <- app_assoc.
Qed.
Lemma quote_chars w : quotable w -> chars (quote w) = Byte.to_N squote :: chars w ++ [Byte.to_N squote].
Proof.
  intros [Hu _]. change (quote w) with ([squote] ++ w ++ [squote]). rewrite chars_app by done. rewrite chars_app by done. done.
Qed.
Lemma words_quote w out rest :
  quotable w -> words_from (chars (quote w) ++ rest) out [] None false = words_from rest out (chars w) None true.
Proof.
  intros Hw. rewrite quote_chars by done. cbn [app words_from].
  change (char_is x22 (Byte.to_N squote) || char_is x27 (Byte.to_N squote)) with true. cbn iota.
  rewrite <- app_assoc. cbn [app]. rewrite words_quoted by apply Hw. done.
Qed.
Lemma words_joined w ws out : Forall quotable (w :: ws) ->
  words_from (chars (join #" " (quote <$> w :: ws))) out [] None false = out ++ w :: ws.
Proof.
  intros Hq. revert w out Hq. induction ws as [|w' ws IH]; intros w out Hq.
  - rewrite Forall_singleton in Hq. cbn [fmap list_fmap join]. rewrite <- (app_nil_r (chars (quote w))). rewrite (words_quote w) by exact Hq. cbn [words_from].
    unfold ended, word_there, flush. cbn [orb]. by rewrite encode_chars by apply Hq.
  - apply Forall_cons in Hq as [Hw Hq]. change (join #" " (quote <$> w :: w' :: ws)) with (quote w ++ #" " ++ join #" " (quote <$> w' :: ws)).
    assert (Hu : is_utf8 (quote w) = true) by (change (quote w) with ([squote] ++ w ++ [squote]); destruct Hw as [Hu _]; rewrite is_utf8_app by done; rewrite is_utf8_app by done; done).
    rewrite chars_app by done. rewrite (chars_app #" ") by done. rewrite words_quote by done.
    change (chars #" ") with [32%N]. cbn [app words_from]. change (char_is x22 32 || char_is x27 32) with false. change (char_is x5c 32) with false.
    change (is_whitespace 32) with true. cbn iota. unfold word_there at 1. cbn [orb]. unfold flush. rewrite IH by done.
    rewrite encode_chars by apply Hw. by rewrite <- app_assoc.
Qed.

(** C0. A line's words are the ones it was written with: any words, each in quotes
    and with a blank between two, are read back, the empty ones too. *)
Theorem words_read (ws : list bytes) : Forall quotable ws -> words (join #" " (quote <$> ws)) = ws.
Proof. intros Hq. destruct ws as [|w ws]; [done|]. unfold words. by rewrite words_joined. Qed.
Lemma words_read_witness : words (join #" " (quote <$> [ #"run-shell"; #""; #"echo # \\x"])) = [ #"run-shell"; #""; #"echo # \\x"].
Proof.
  apply (words_read [ #"run-shell"; #""; #"echo # \\x"]).
  assert (Hc : forall w, is_utf8 w = true -> bool_decide (Forall (fun c => c <> Byte.to_N squote) (chars w)) = true -> quotable w)
    by (intros w Hu Hb; split; [done|by apply bool_decide_eq_true_1 in Hb]).
  repeat (apply Forall_cons; split; [apply Hc; by vm_compute|]). constructor.
Defined.

(** ** What is shown *)

Section editors_laws.
Context `{Strerror} `{Blake3}.

(** Code a program loads for every account, on exactly where that is installed. *)
Record loaded_by (program : bytes) (installed : bool) (e : Entry.entry) : Prop := mk_loaded_by {
  lb_kind : e_kind e = Kind.ProgramStartup;
  lb_name : starts_with (program ++ #":") (e_name e) = true;
  lb_trigger : e_trigger e = Trigger.Always;
  lb_enabled : e_enabled e = if installed then Enablement.Enabled else Enablement.Disabled;
  lb_code : is_Some (e_target_path e) <-> e_command e = None
}.
Lemma file_entry_loaded program installed tail p : yields (Forall (loaded_by program installed)) (file_entry program installed (program ++ #":" ++ tail) p).
Proof.
  unfold file_entry, startup_entry. apply yields_bind_any. intros m. destruct (match m with Ok _ => _ | Err _ => _ end); [|by apply yields_ret].
  eapply (yields_bind (fun e => e_kind e = Kind.ProgramStartup /\ e_name e = program ++ #":" ++ tail /\ e_trigger e = Trigger.Always /\
    e_enabled e = (if installed then Enablement.Enabled else Enablement.Disabled) /\ e_command e = None)).
  - eapply yields_bind; [apply entry_made|]. intros e [Hk Hn _ Hc]. apply yields_ret. unfold loaded, off_unless. by destruct installed.
  - intros e (Hk & Hn & Ht & He & Hc). apply yields_bind_any. intros r. apply yields_ret, Forall_singleton. split; try done.
    cbn. rewrite Hn, (app_assoc program). apply starts_with_true. by eexists.
Qed.
Lemma command_entry_loaded p program installed nvc : yields (loaded_by program installed) (command_entry p program installed nvc).
Proof.
  destruct nvc as [[n verb] c]. unfold command_entry, startup_entry.
  eapply (yields_bind (fun e => e_kind e = Kind.ProgramStartup /\ starts_with (program ++ #":") (e_name e) = true /\ e_trigger e = Trigger.Always /\
    e_enabled e = (if installed then Enablement.Enabled else Enablement.Disabled) /\ e_target_path e = None)).
  - eapply yields_bind; [apply entry_made|]. intros e [Hk Hn _ _ Ht]. apply yields_ret.
    assert (Hs : starts_with (program ++ #":") (e_name e) = true) by (rewrite Hn, (app_assoc program); apply starts_with_true; by eexists).
    unfold loaded, off_unless. by destruct installed.
  - intros e (Hk & Hn & Ht & He & Hp). apply yields_ret. split; try done. cbn. rewrite Hp. split; [by intros []|done].
Qed.
End editors_laws.

(** The programs, each with what says that it is installed. *)
Definition PROGRAMS : list (bytes * list path) :=
  [( #"vim", VIM); ( #"nvim", [ #"usr/bin/nvim"]); ( #"emacs", EMACS); ( #"tmux", [ #"usr/bin/tmux"]); ( #"screen", [ #"usr/bin/screen"])].
Definition of_program (h : snapshot) (r : root) (e : Entry.entry) : Prop :=
  exists p, p ∈ PROGRAMS /\ loaded_by (fst p) (existsb (holds h r) (snd p)) e.

Section each_program.
Context `{Strerror} `{Blake3}.

Lemma files_entries_loaded program installed d fs : yields (Forall (loaded_by program installed)) (files_entries program installed d fs).
Proof. unfold files_entries. apply yields_join. intros f. apply file_entry_loaded. Qed.
Lemma vim_loaded installed : yields (Forall (loaded_by #"vim" installed))
  (rcs ← map_coll (fun rc => file_entry #"vim" installed (#"vim:" ++ base_name rc) rc) VIMRC;
   ents ← dir #"usr/share/vim";
   let dirs := VIM_DIRS ++ (path_join #"usr/share/vim" ∘ de_name <$> List.filter is_version_dir ents) in
   es ← map_coll (vim_dir installed) (dirs ++ ((fun d => path_join d #"after") <$> dirs));
   mret (mjoin rcs ++ mjoin es)).
Proof.
  eapply yields_bind; [apply (yields_map (Forall (loaded_by #"vim" installed))); intros rc _; apply (file_entry_loaded #"vim")|].
  intros rcs Hr. apply yields_bind_any. intros ents. cbv zeta.
  eapply yields_bind; [apply (yields_map (Forall (loaded_by #"vim" installed)))|].
  - intros d _. unfold vim_dir. apply yields_bind_any. intros fs. apply yields_bind_any. intros ps. apply files_entries_loaded.
  - intros es He. apply yields_ret, Forall_app. split; by apply Forall_join.
Qed.
Lemma neovim_loaded installed : yields (Forall (loaded_by #"nvim" installed))
  (rc ← file_entry #"nvim" installed #"nvim:sysinit.vim" #"etc/xdg/nvim/sysinit.vim";
   es ← map_coll (nvim_dir installed) (NVIM_DIRS ++ ((fun d => path_join d #"after") <$> take 3 NVIM_DIRS));
   mret (rc ++ mjoin es)).
Proof.
  eapply yields_bind; [apply (file_entry_loaded #"nvim" installed #"sysinit.vim")|]. intros rc Hr.
  eapply yields_bind; [apply (yields_map (Forall (loaded_by #"nvim" installed)))|].
  - intros d _. unfold nvim_dir. apply yields_bind_any. intros fs. apply files_entries_loaded.
  - intros es He. apply yields_ret, Forall_app. split; [done|]. by apply Forall_join.
Qed.
Lemma emacs_loaded installed : yields (Forall (loaded_by #"emacs" installed))
  (a ← map_coll (fun f => file_entry #"emacs" installed (#"emacs:" ++ base_name f) f) SITE_FILES;
   b ← map_coll (site_dir installed) SITE_DIRS;
   mret (mjoin a ++ mjoin b)).
Proof.
  eapply yields_bind; [apply (yields_map (Forall (loaded_by #"emacs" installed))); intros f _; apply (file_entry_loaded #"emacs")|].
  intros a Ha. eapply yields_bind; [apply (yields_map (Forall (loaded_by #"emacs" installed)))|].
  - intros da _. unfold site_dir. apply yields_bind_any. intros ents. apply yields_join. intros n. cbv zeta.
    destruct (snd da _); [|by apply yields_ret]. exact (file_entry_loaded #"emacs" installed (#"site-start.d/" ++ from_utf8_lossy n) _).
  - intros b Hb. apply yields_ret, Forall_app. split; by apply Forall_join.
Qed.
Lemma commands_loaded installed p program command : yields (Forall (loaded_by program installed))
  (b ← read_capped p CAP;
   match b with
   | None => mret []
   | Some b => map_coll (command_entry p program installed) (line_commands command (from_utf8_lossy b))
   end).
Proof. apply yields_bind_any. intros [b|]; [|by apply yields_ret]. apply yields_map. intros x _. apply command_entry_loaded. Qed.
End each_program.

Section whole.
Context `{Strerror} `{Blake3}.

Lemma stays_file_entry program installed name p : stays (file_entry program installed name p).
Proof. unfold file_entry, startup_entry. solve_stays. Qed.
Lemma stays_tree n exts d : stays (tree n exts d).
Proof.
  revert d. induction n as [|n IH]; intros d; cbn [tree]; [apply stays_ret|]. apply stays_bind; [apply stays_dir|]. intros ents.
  apply stays_bind; [|intros; apply stays_ret]. apply stays_map. intros ent. cbv zeta. destruct (de_is_dir ent); [apply IH|apply stays_ret].
Qed.
Lemma stays_files_entries program installed d fs : stays (files_entries program installed d fs).
Proof. unfold files_entries. apply stays_bind; [|intros; apply stays_ret]. apply stays_map. intros. apply stays_file_entry. Qed.
Lemma stays_editors : stays vim /\ stays neovim /\ stays emacs /\ stays tmux.
Proof.
  assert (Hf := stays_file_entry). assert (Ht := stays_tree). assert (Hs := stays_files_entries). split_and!.
  - unfold vim, vim_dir, vim_packs, tree_of, subdirs. repeat (solve_stays; auto).
  - unfold neovim, nvim_dir, tree_of. repeat (solve_stays; auto).
  - unfold emacs, site_dir. repeat (solve_stays; auto).
  - unfold tmux, commands_of, command_entry, startup_entry. repeat (solve_stays; auto).
Qed.

Lemma program_shown h cx program ps (m : bool -> coll (list Entry.entry)) :
  (program, ps) ∈ PROGRAMS -> (forall installed, yields (Forall (loaded_by program installed)) (m installed)) ->
  Forall (of_program h (cx_root cx)) (value h cx (installed ← any_there ps; m installed)).
Proof.
  intros Hin Hm. rewrite value_bind, value_any_there, after_any_there.
  eapply Forall_impl; [exact (yields_run _ _ h cx (Hm _))|]. intros e He. by exists (program, ps).
Qed.
Lemma program_shown_one h cx program p (m : bool -> coll (list Entry.entry)) :
  (program, [p]) ∈ PROGRAMS -> (forall installed, yields (Forall (loaded_by program installed)) (m installed)) ->
  Forall (of_program h (cx_root cx)) (value h cx (installed ← there p; m installed)).
Proof.
  intros Hin Hm. rewrite value_bind, value_there, after_there.
  eapply Forall_impl; [exact (yields_run _ _ h cx (Hm _))|]. intros e He. exists (program, [p]). split; [done|]. cbn. by rewrite orb_false_r.
Qed.

(** Each entry is code that vim, Neovim, Emacs, tmux or screen loads, and is on
    exactly where that program is installed. *)
Theorem editors_installed h cx : Forall (of_program h (cx_root cx)) (value h cx collect).
Proof.
  destruct stays_editors as (S1 & S2 & S3 & S4). unfold collect. rewrite !value_bind.
  pose proof (after_root h cx vim S1) as E1. set (cx1 := after h cx vim) in *.
  pose proof (after_root h cx1 neovim S2) as E2. set (cx2 := after h cx1 neovim) in *.
  pose proof (after_root h cx2 emacs S3) as E3. set (cx3 := after h cx2 emacs) in *.
  pose proof (after_root h cx3 tmux S4) as E4. set (cx4 := after h cx3 tmux) in *. clearbody cx1 cx2 cx3 cx4.
  change (value h ?c (mret ?x)) with x. rewrite !Forall_app. split_and!.
  - apply (program_shown h cx #"vim"); [by left|]. intros installed. apply vim_loaded.
  - rewrite <- E1. apply (program_shown_one h cx1 #"nvim"); [by right; left|]. intros installed. apply neovim_loaded.
  - rewrite <- E1, <- E2. apply (program_shown h cx2 #"emacs"); [by do 2 right; left|]. intros installed. apply emacs_loaded.
  - rewrite <- E1, <- E2, <- E3. apply (program_shown_one h cx3 #"tmux"); [by do 3 right; left|]. intros installed. apply commands_loaded.
  - rewrite <- E1, <- E2, <- E3, <- E4. apply (program_shown_one h cx4 #"screen"); [by do 4 right; left|]. intros installed. apply commands_loaded.
Qed.
End whole.

(** A host's startup files: a plugin directory's tree, a package's, site files by
    Debian's rule, and the commands of tmux and screen. *)
Module EditorsDemo.
#[local] Instance demo_blake3 : Blake3 := fun x => x.
#[local] Instance demo_strerror : Strerror := fun _ => #"error".
Definition text (ls : list bytes) : bytes := join [x0a] ls ++ [x0a].
Definition tree : Tree.tree :=
  [( #"usr", Tree.Dir 0 0x1ED); ( #"usr/bin", Tree.Dir 0 0x1ED); ( #"usr/bin/vi", Tree.File 0 0x1ED #"x"); ( #"usr/bin/tmux", Tree.File 0 0x1ED #"x");
   ( #"etc", Tree.Dir 0 0x1ED); ( #"etc/vim", Tree.Dir 0 0x1ED); ( #"etc/vim/vimrc", Tree.File 0 0x1A4 #"x");
   ( #"etc/vim/plugin", Tree.Dir 0 0x1ED); ( #"etc/vim/plugin/b", Tree.Dir 0 0x1ED); ( #"etc/vim/plugin/b/c.vim", Tree.File 0 0x1A4 #"x");
   ( #"etc/vim/plugin/a.txt", Tree.File 0 0x1A4 #"x"); ( #"etc/emacs", Tree.Dir 0 0x1ED); ( #"etc/emacs/site-start.d", Tree.Dir 0 0x1ED);
   ( #"etc/emacs/site-start.d/50a.el", Tree.File 0 0x1A4 #"x"); ( #"etc/emacs/site-start.d/x.el", Tree.File 0 0x1A4 #"x");
   ( #"etc/tmux.conf", Tree.File 0 0x1A4 (text [ #"set -g x"; #"run-shell -d 1 '/bin/a b' # c"; #"neww -n x \"; #"  -c / /bin/w"; #"if -t '' ''"]));
   ( #"etc/screenrc", Tree.File 0 0x1A4 (text [ #"screen -t title 1 /bin/s -x"; #"exec x 'y'"]))].
Definition seen : list (bytes * enablement * option bytes) :=
  (fun e => (e_name e, e_enabled e, e_command e)) <$> value (Tree.kernel tree) (mk_ctx Tree.offline [] [] [] []) collect.
End EditorsDemo.

Example editors_host :
  EditorsDemo.seen =
    [( #"vim:vimrc", Enablement.Enabled, None); ( #"vim:plugin/b/c.vim", Enablement.Enabled, None);
     ( #"emacs:site-start.d/50a.el", Enablement.Disabled, None);
     ( #"tmux:run-shell:2", Enablement.Enabled, Some #"/bin/a b"); ( #"tmux:neww:3", Enablement.Enabled, Some #"/bin/w");
     ( #"screen:screen:1", Enablement.Disabled, Some #"/bin/s -x"); ( #"screen:exec:2", Enablement.Disabled, Some #"x y")].
Proof. by vm_compute. Qed.
