(* ===== verification/Sources.v ===== *)
(** [src/collect/sources.rs]: the repositories packages come from, and the keys
    that vouch for them. *)

From S2P Require Import Prelude Slices Order Num Utf8 Paths PathMap Text Kinds Entry Sys Root Tree Users Scan Provenance Backend Rpm Collect.

Definition CAP : N := 256 * 1024.
Definition APT_BINARIES : list path := [ #"usr/bin/apt-get"; #"bin/apt-get"].
Definition DNF_BINARIES : list path := [ #"usr/bin/dnf"; #"usr/bin/dnf5"; #"usr/bin/yum"].
Definition APK_BINARIES : list path := [ #"sbin/apk"; #"usr/sbin/apk"; #"usr/bin/apk"].

Definition extend_keys (keys : pset) (ps : list path) : pset := foldl (fun s p => ps_insert p s) keys ps.
Definition abs_list (r : root) (ks : list path) : bytes := join #", " ((fun k => display_path (abs r k)) <$> ks).
Definition sourced (e : Entry.entry) : Entry.entry :=
  set_enabled (set_principal (set_trigger e Trigger.PackageOp) (Some #"root")) Enablement.Enabled.

(** ** apt *)

Definition apt_byte (b : byte) : bool := is_ascii_alphanumeric b || bool_decide (b ∈ ["_"; "-"; ":"; "."]%byte).
Definition apt_reads (exts : list bytes) (ent : dir_ent) : bool :=
  let n := de_name ent in
  negb (de_is_dir ent) && negb (bool_decide (n = [])) && negb (starts_with #"." n)
    && existsb (fun x => (length x + 1 <? length n) && ends_with (#"." ++ x) n) exts && forallb apt_byte n.
Definition key_path (spec : bytes) : option path :=
  strip_prefix [slash] (default spec (strip_prefix #"file://" spec)).
Definition is_deb822 (p : path) : bool :=
  match file_name p with Some n => (8 <? length n) && ends_with #".sources" n | None => false end.

Record Repo := mk_repo {
  re_types : bytes; re_uris : bytes; re_suites : bytes; re_components : bytes; re_signed_by : option bytes;
  re_trusted : bool; re_enabled : bool
}.
(** The options of a line, so far: [Signed-By], and whether it is trusted. *)
Definition take_option (st : option bytes * bool) (o : bytes) : option bytes * bool :=
  let '(k, v) := default (o, []) (split_once #"=" o) in
  let k := to_ascii_lowercase k in
  if bool_decide (k = #"signed-by") then (Some v, snd st)
  else if bool_decide (k = #"trusted") then (fst st, eq_ignore_ascii_case v #"yes")
  else st.
(** What stands in brackets, and what is after it. *)
Definition line_options (rest : bytes) : option ((option bytes * bool) * bytes) :=
  match strip_prefix #"[" rest with
  | None => Some ((None, false), rest)
  | Some opts =>
      '(inner, after_) ← split_once #"]" opts;
      Some (foldl take_option (None, false) (split_whitespace inner), trim_start after_)
  end.
Definition one_line_repo (line : bytes) : option Repo :=
  let line := trim (before "#" line) in
  ty ← head (split_whitespace line);
  if negb (bool_decide (ty ∈ [ #"deb"; #"deb-src"])) then None
  else
    '((signed_by, trusted), rest) ← line_options (trim_start (drop (length ty) line));
    match split_whitespace rest with
    | uri :: suite :: components => Some (mk_repo ty uri suite (join #" " components) signed_by trusted true)
    | _ => None
    end.
Definition one_line (text : bytes) : list Repo := omap one_line_repo (lines text).

Definition field (fields : list (bytes * bytes)) (k : bytes) : option bytes :=
  (fun kv => trim (snd kv)) <$> find (fun kv => eq_ignore_ascii_case (fst kv) k) (reverse fields).
Definition says (fields : list (bytes * bytes)) (k v : bytes) : bool :=
  match field fields k with Some x => eq_ignore_ascii_case x v | None => false end.
Definition stanza (fields : list (bytes * bytes)) : option Repo :=
  let get k := default [] (field fields k) in
  if bool_decide (fields = []) || bool_decide (get #"URIs" = []) then None
  else Some (mk_repo (get #"Types") (get #"URIs") (get #"Suites") (get #"Components") (field fields #"Signed-By")
               (says fields #"Trusted" #"yes") (negb (says fields #"Enabled" #"no"))).
Definition is_blank (b : byte) : bool := is_byte " " b || is_byte x09 b.
Definition deb822_line (st : list Repo * list (bytes * bytes)) (line : bytes) : list Repo * list (bytes * bytes) :=
  let '(out, fields) := st in
  if starts_with #"#" line then st
  else if bool_decide (trim line = []) then (out ++ option_list (stanza fields), [])
  else if match line with c :: _ => is_blank c | [] => false end then
    (out, alter (fun kv => (fst kv, snd kv ++ newline :: trim line)) (length fields - 1) fields)
  else match split_once #":" line with
  | Some (k, v) => (out, fields ++ [(trim k, trim v)])
  | None => st
  end.
Definition deb822_stanzas (text : bytes) : list Repo :=
  let '(out, fields) := foldl deb822_line ([], []) (lines text) in out ++ option_list (stanza fields).

Definition is_separator (b : byte) : bool := is_byte "," b || is_byte " " b.
(** The keys a repository trusts, and what is said of them. *)
Definition apt_trusts (store : list path) (r : Repo) : list path * bytes :=
  match re_signed_by r with
  | Some s =>
      if contains_sub #"BEGIN PGP" s then ([], #"a key given inline")
      else (omap key_path (split_on is_separator s), s)
  | None => (store, #"every key in trusted.gpg and trusted.gpg.d")
  end.
Definition apt_name `{Blake3} (r : Repo) : bytes :=
  #"apt:" ++ default [] (head (split_whitespace (re_uris r))) ++ #":"
    ++ short_hash blake3_hex (re_types r ++ #"|" ++ re_uris r ++ #"|" ++ re_suites r).
Definition apt_facts (rt : root) (store : list path) (r : Repo) (e : Entry.entry) : Entry.entry :=
  let e := Entry.note (Entry.note (sourced e) #"source_type" #"apt repository") #"types" (re_types r) in
  let e := Entry.note (Entry.note e #"uris" (re_uris r)) #"suites" (re_suites r) in
  let e := if bool_decide (re_components r = []) then e else Entry.note e #"components" (re_components r) in
  let e := if re_trusted r then Entry.note e key.SIGNATURE_CHECKING #"off (trusted=yes)" else e in
  let '(trusts, by_) := apt_trusts store r in
  let e := Entry.note e #"signed_by" by_ in
  let e := if bool_decide (trusts = []) || re_trusted r then e else Entry.note e key.TRUSTS (abs_list rt trusts) in
  if re_enabled r then e else set_enabled e Enablement.Disabled.

(** ** dnf *)

Definition dnf_line (sections : list (bytes * list (bytes * bytes))) (line : bytes) : list (bytes * list (bytes * bytes)) :=
  let t := trim line in
  if bool_decide (t = []) || starts_with #"#" t || starts_with #";" t then sections
  else match r ← strip_prefix #"[" t; strip_suffix #"]" r with
  | Some id => sections ++ [(id, [])]
  | None =>
      match split_once #"=" t with
      | Some (k, v) =>
          alter (fun s => (fst s, snd s ++ [(to_ascii_lowercase (trim k), trim v)])) (length sections - 1) sections
      | None => sections
      end
  end.
Definition dnf_sections (text : bytes) : list (bytes * list (bytes * bytes)) :=
  List.filter (fun s => negb (bool_decide (fst s = #"main"))) (foldl dnf_line [] (lines text)).
Definition dnf_get (kv : list (bytes * bytes)) (k : bytes) : option bytes :=
  snd <$> find (fun x => bool_decide (fst x = k)) (reverse kv).
Definition dnf_off (kv : list (bytes * bytes)) (k : bytes) : bool :=
  match dnf_get kv k with Some v => bool_decide (to_ascii_lowercase v ∈ [ #"0"; #"false"; #"no"]) | None => false end.
Definition DNF_NOTES : list bytes := [ #"baseurl"; #"metalink"; #"mirrorlist"; #"gpgkey"].
Definition dnf_facts (kv : list (bytes * bytes)) (e : Entry.entry) : Entry.entry :=
  let e := Entry.note (sourced e) #"source_type" #"dnf repository" in
  let e := foldl (fun e k => match dnf_get kv k with Some v => Entry.note e k v | None => e end) e DNF_NOTES in
  let e := if dnf_off kv #"gpgcheck" then Entry.note e key.SIGNATURE_CHECKING #"off (gpgcheck=0)" else e in
  if dnf_off kv #"enabled" then set_enabled e Enablement.Disabled else e.
Definition dnf_separator (b : byte) : bool := is_separator b || is_byte newline b.
Definition dollar : byte := "$".
(** A key named with dnf's own variables is not one file. *)
Definition dnf_keys (kv : list (bytes * bytes)) : list path :=
  match dnf_get kv #"gpgkey" with
  | Some g => List.filter (fun k => negb (existsb (is_byte dollar) (from_utf8_lossy k))) (omap key_path (split_on dnf_separator g))
  | None => []
  end.

(** ** Keys in the rpm database *)

Definition armor_line (st : bool * bytes) (line : bytes) : bool * bytes :=
  let t := trim line in
  if starts_with #"-----BEGIN" t then (true, snd st)
  else if starts_with #"-----END" t then (false, snd st)
  else if negb (fst st) || bool_decide (t = []) || existsb (is_byte ":") t || starts_with #"=" t then st
  else (fst st, snd st ++ t).
Definition armored_body (text : bytes) : bytes := snd (foldl armor_line (false, []) (lines text)).
(** The first file that holds the key. *)
Definition matching (bodies : list (path * bytes)) (body : bytes) : option path :=
  fst <$> find (fun fb => negb (bool_decide (body = [])) && contains_sub body (snd fb)) bodies.
Definition rpm_key_facts (rt : root) (bodies : list (path * bytes)) (k : imported_key) (e : Entry.entry) : Entry.entry :=
  let e := Entry.note (sourced e) #"source_type" #"imported signing key" in
  let e := Entry.note (Entry.note e #"key_id" (ik_key_id k)) #"created" (ik_created k) in
  let e := Entry.note (Entry.note e #"user_id" (ik_summary k)) key.TARGET_UNVERIFIABLE #"a key in the rpm database, not a file" in
  match matching bodies (armored_body (ik_armored k)) with
  | Some f =>
      let a := display_path (abs rt f) in Entry.note (Entry.note e #"matches_key_file" a) key.TRUSTS a
  | None => e
  end.

(** ** apk *)

Definition tag_end (b : byte) : bool := is_byte " " b || is_byte x09 b || is_byte ":" b.
(** A line's tag and its URL. *)
Definition apk_line (line : bytes) : option (option bytes * bytes) :=
  if bool_decide (line = []) || starts_with #"#" line then None
  else match strip_prefix #"@" line with
  | Some rest =>
      let end_ := default (length rest) (position tag_end rest) in
      Some (Some (from_utf8_lossy (take end_ rest)), from_utf8_lossy (drop_while tag_end (drop end_ rest)))
  | None => Some (None, from_utf8_lossy line)
  end.
Definition apk_name (n : nat) (url : bytes) : bytes := #"apk:" ++ url ++ if n =? 1 then [] else #"#" ++ dec (N.of_nat n).
Definition apk_facts (rt : root) (key_files : list path) (tag : option bytes) (url : bytes) (e : Entry.entry) : Entry.entry :=
  let e := Entry.note (Entry.note (sourced e) #"source_type" #"apk repository") #"uris" url in
  let e := match tag with Some t => Entry.note e #"tag" t | None => e end in
  if bool_decide (key_files = []) then
    Entry.note e key.SIGNATURE_CHECKING #"no key in /etc/apk/keys; apk refuses every index unless run with --allow-untrusted"
  else Entry.note e key.TRUSTS (abs_list rt key_files).
(** The lines of a file, each with how many of its URL there have been. *)
Definition apk_count (st : gmap bytes nat * list (nat * option bytes * bytes)) (tu : option bytes * bytes)
    : gmap bytes nat * list (nat * option bytes * bytes) :=
  let n := S (default 0 (fst st !! snd tu)) in (<[snd tu := n]> (fst st), snd st ++ [(n, fst tu, snd tu)]).
Definition apk_lines (b : bytes) : list (nat * option bytes * bytes) :=
  snd (foldl apk_count (∅, []) (omap apk_line (split_on (is_byte newline) b))).

(** ** The collector *)

Definition off_where_missing (apt dnf apk : bool) (e : Entry.entry) : Entry.entry :=
  let tool := default [] (e_raw e !! #"source_type") in
  let missing := (bool_decide (tool = #"apt repository") && negb apt) || (bool_decide (tool = #"dnf repository") && negb dnf)
                   || (bool_decide (tool = #"apk repository") && negb apk) in
  off_unless (negb missing) #"its package manager is not installed" e.
Definition key_facts (rt : root) (p : path) (e : Entry.entry) : Entry.entry :=
  set_target_path (Entry.note (sourced e) #"source_type" #"signing key") (Some (abs rt p)).

Section sources.
Context `{Strerror} `{Blake3} `{Sqlite}.

(** The entries so far and the key files named. *)
Definition found_keys : Type := list Entry.entry * pset.

Definition apt_dir (d : path) (exts : list bytes) : coll (list path) :=
  ents ← dir d; mret (path_join d <$> sort_by (fun n => n) (de_name <$> List.filter (apt_reads exts) ents)).
Fixpoint existing (ps : list path) : coll (list path) :=
  match ps with [] => mret [] | p :: ps => here ← there p; ps ← existing ps; mret (if here : bool then p :: ps else ps) end.
Definition apt_repo (p : path) (store : list path) (st : found_keys) (r : Repo) : coll found_keys :=
  e ← entry Kind.PkgSource p (apt_name r);
  rt ← the_root;
  mret (fst st ++ [apt_facts rt store r e], extend_keys (snd st) (fst (apt_trusts store r))).
Definition apt_file (store : list path) (st : found_keys) (p : path) : coll found_keys :=
  b ← read_capped p CAP;
  match b with
  | None => mret st
  | Some b =>
      let text := from_utf8_lossy b in
      fold_coll (apt_repo p store) st (if is_deb822 p then deb822_stanzas text else one_line text)
  end.
Definition apt (store : list path) (st : found_keys) : coll found_keys :=
  parts ← apt_dir #"etc/apt/sources.list.d" [ #"list"; #"sources"];
  fold_coll (apt_file store) st ( #"etc/apt/sources.list" :: parts).
Definition apt_store : coll (list path) :=
  parts ← apt_dir #"etc/apt/trusted.gpg.d" [ #"gpg"; #"asc"]; existing ( #"etc/apt/trusted.gpg" :: parts).

Definition dnf_repo (p : path) (st : found_keys) (s : bytes * list (bytes * bytes)) : coll found_keys :=
  e ← entry Kind.PkgSource p (#"dnf:" ++ fst s);
  mret (fst st ++ [dnf_facts (snd s) e], extend_keys (snd st) (dnf_keys (snd s))).
Definition dnf_file (st : found_keys) (p : path) : coll found_keys :=
  b ← read_capped p CAP;
  match b with None => mret st | Some b => fold_coll (dnf_repo p) st (dnf_sections (from_utf8_lossy b)) end.
Definition dnf_dir (st : found_keys) (d : path) : coll found_keys :=
  ents ← dir d;
  fold_coll dnf_file st (path_join d ∘ de_name <$> List.filter (fun ent => negb (de_is_dir ent) && ends_with #".repo" (de_name ent)) ents).
Definition dnf (st : found_keys) : coll found_keys :=
  fold_coll dnf_dir st [ #"etc/yum.repos.d"; #"etc/distro.repos.d"; #"usr/share/dnf5/repos.d"].

Definition files_in (d : path) : coll (list path) :=
  ents ← dir d; mret (sort_by components (path_join d ∘ de_name <$> List.filter (fun ent => negb (de_is_dir ent)) ents)).
Definition body_of (f : path) : coll (list (path * bytes)) :=
  b ← read_capped f CAP; mret match b with Some b => [(f, armored_body (from_utf8_lossy b))] | None => [] end.
Definition rpm_key (db : path) (bodies : list (path * bytes)) (st : found_keys) (k : imported_key) : coll found_keys :=
  e ← entry Kind.PkgSource db (#"key:rpmdb:" ++ ik_key_id k);
  rt ← the_root;
  mret (fst st ++ [rpm_key_facts rt bodies k e], extend_keys (snd st) (option_list (matching bodies (armored_body (ik_armored k))))).
Definition rpmdb_keys (st : found_keys) : coll found_keys :=
  x ← lift imported_keys;
  match x with
  | None => mret st
  | Some (db, ks) =>
      if bool_decide (ks = []) then mret st
      else
        names ← files_in #"etc/pki/rpm-gpg";
        bodies ← map_coll body_of (ps_list (snd st) ++ names);
        fold_coll (rpm_key db (mjoin bodies)) st ks
  end.

Definition apk_entry (p : path) (key_files : list path) (x : nat * option bytes * bytes) : coll Entry.entry :=
  let '(n, tag, url) := x in
  e ← entry Kind.PkgSource p (apk_name n url);
  rt ← the_root;
  mret (apk_facts rt key_files tag url e).
Definition apk_file (key_files : list path) (p : path) : coll (list Entry.entry) :=
  b ← read_capped p CAP;
  match b with None => mret [] | Some b => map_coll (apk_entry p key_files) (apk_lines b) end.
Definition apk (st : found_keys) : coll found_keys :=
  ents ← dir #"etc/apk/repositories.d";
  let lists := sort_by components (path_join #"etc/apk/repositories.d" ∘ de_name <$>
                 List.filter (fun ent => negb (de_is_dir ent) && ends_with #".list" (de_name ent)) ents) in
  key_files ← files_in #"etc/apk/keys";
  es ← map_coll (apk_file key_files) ( #"etc/apk/repositories" :: lists);
  mret (fst st ++ mjoin es, extend_keys (snd st) key_files).

Definition gate (apt dnf : bool) (e : Entry.entry) : coll Entry.entry :=
  apk ← any_there APK_BINARIES; mret (off_where_missing apt dnf apk e).
Definition key_entry (p : path) : coll (list Entry.entry) :=
  m ← lift (fun r => stat_follow r p);
  if match m with Ok m => m_is_file m | Err _ => false end then
    e ← entry Kind.PkgSource p (#"key:" ++ from_utf8_lossy (default [] (file_name p)));
    rt ← the_root;
    mret [key_facts rt p e]
  else mret [].
Definition collect : coll (list Entry.entry) :=
  apt_installed ← any_there APT_BINARIES;
  dnf_installed ← any_there DNF_BINARIES;
  store ← apt_store;
  st ← apt store ([], pm_empty);
  rings ← apt_dir #"etc/apt/keyrings" [ #"gpg"; #"asc"];
  st ← dnf (fst st, extend_keys (extend_keys (snd st) store) rings);
  st ← rpmdb_keys st;
  st ← apk st;
  es ← map_coll (gate apt_installed dnf_installed) (fst st);
  ks ← map_coll key_entry (ps_list (snd st));
  mret (es ++ mjoin ks).
End sources.

(** ** The keys that are trusted *)

(** What an entry trusts is a list of files that are all among the keys. *)
Definition backed (rt : root) (keys : pset) (e : Entry.entry) : Prop :=
  forall t, e_raw e !! key.TRUSTS = Some t -> exists ks, t = abs_list rt ks /\ Forall (fun k => pm_mem keys k = true) ks.
Record keys_known (rt : root) (st : found_keys) : Prop := mk_keys_known {
  kk_backed : Forall (backed rt (snd st)) (fst st);
  kk_ok : pm_ok (snd st)
}.

Lemma extend_keys_mem keys ps k : pm_mem (extend_keys keys ps) k = existsb (fun p => path_eqb p k) ps || pm_mem keys k.
Proof. apply ps_mem_from. Qed.
Lemma extend_keys_ok keys ps : pm_ok keys -> pm_ok (extend_keys keys ps).
Proof. apply ps_of_ok_from. Qed.
Lemma path_eqb_refl p : path_eqb p p = true.
Proof. by apply bool_decide_eq_true. Qed.
Lemma extend_keys_has keys ps : Forall (fun k => pm_mem (extend_keys keys ps) k = true) ps.
Proof.
  apply Forall_forall. intros k Hk. rewrite extend_keys_mem. apply orb_true_iff. left. apply existsb_exists. exists k.
  split; [by apply list_elem_of_In|apply path_eqb_refl].
Qed.
Lemma backed_extend rt keys ps e : backed rt keys e -> backed rt (extend_keys keys ps) e.
Proof.
  intros He t Ht. destruct (He t Ht) as (ks & -> & Hks). exists ks. split; [done|]. eapply Forall_impl; [exact Hks|].
  intros k Hk. by rewrite extend_keys_mem, Hk, orb_true_r.
Qed.
Lemma known_extend rt st es ps : keys_known rt st -> Forall (backed rt (extend_keys (snd st) ps)) es ->
  keys_known rt (fst st ++ es, extend_keys (snd st) ps).
Proof.
  intros [Hb Ho] He. split; cbn [fst snd]; [|by apply extend_keys_ok]. apply Forall_app. split; [|done].
  eapply Forall_impl; [exact Hb|]. intros e. apply backed_extend.
Qed.

(** An entry that trusts nothing. *)
Definition no_trust (e : Entry.entry) : Prop := e_raw e !! key.TRUSTS = None.
Lemma no_trust_backed rt keys e : no_trust e -> backed rt keys e.
Proof. intros He t Ht. unfold no_trust in He. congruence. Qed.
Lemma made_no_trust k n e : made k n e -> no_trust e.
Proof.
  intros Hm. unfold no_trust. destruct (e_raw e !! key.TRUSTS) eqn:E; [|done]. exfalso.
  assert (Hin : key.TRUSTS ∈ MADE_KEYS) by (apply (md_notes _ _ _ Hm); by eexists). revert Hin. by apply (bool_decide_eq_false_1 _).
Qed.
Lemma no_trust_note e k v : mem k [key.TRUSTS] = false -> no_trust e -> no_trust (Entry.note e k v).
Proof.
  intros Hk He. unfold no_trust. rewrite note_other with (ks := [key.TRUSTS]); [done|done|by left].
Qed.
Lemma backed_note rt keys e ks : no_trust e -> Forall (fun k => pm_mem keys k = true) ks ->
  backed rt keys (Entry.note e key.TRUSTS (abs_list rt ks)).
Proof. intros _ Hk t Ht. cbn in Ht. rewrite lookup_insert_eq in Ht. injection Ht as <-. by exists ks. Qed.

Lemma no_trust_sourced e : no_trust e -> no_trust (sourced e).
Proof. done. Qed.
Lemma apt_facts_backed rt store r keys e :
  no_trust e -> backed rt (extend_keys keys (fst (apt_trusts store r))) (apt_facts rt store r e).
Proof.
  intros He. unfold apt_facts. cbv zeta. pose proof (extend_keys_has keys (fst (apt_trusts store r))) as Hk.
  destruct (apt_trusts store r) as [trusts by_]. cbn [fst] in *.
  match goal with |- backed _ _ (if _ then if _ then ?x else _ else _) => assert (Hx : no_trust x) end.
  { apply no_trust_note; [done|]. repeat case_match; repeat (apply no_trust_note; [done|]); done. }
  match goal with |- backed _ _ (if _ then ?y else _) => assert (Hy : backed rt (extend_keys keys trusts) y) end.
  { destruct (_ || _); [by apply no_trust_backed|by apply backed_note]. }
  by destruct (re_enabled r).
Qed.
Lemma dnf_facts_no_trust kv e : no_trust e -> no_trust (dnf_facts kv e).
Proof.
  intros He. unfold dnf_facts. cbv zeta.
  match goal with |- context [foldl _ ?x _] => set (x0 := x) end.
  assert (H0 : no_trust x0) by by apply no_trust_note.
  assert (Hf : no_trust (foldl (fun e k => match dnf_get kv k with Some v => Entry.note e k v | None => e end) x0 DNF_NOTES)).
  { cbn [foldl DNF_NOTES]. repeat case_match; repeat (apply no_trust_note; [done|]); done. }
  set (y := foldl _ _ _) in *. clearbody y. repeat case_match; try done; by apply no_trust_note.
Qed.
Lemma rpm_key_backed rt bodies keys k e :
  no_trust e -> backed rt (extend_keys keys (option_list (matching bodies (armored_body (ik_armored k))))) (rpm_key_facts rt bodies k e).
Proof.
  intros He. unfold rpm_key_facts. cbv zeta. destruct (matching bodies _) as [f|]; cbn [option_list].
  - apply (backed_note rt _ _ [f]); [|apply extend_keys_has]. by repeat (apply no_trust_note; [done|]).
  - apply no_trust_backed. by repeat (apply no_trust_note; [done|]).
Qed.
Lemma apk_facts_backed rt files tag url keys e : no_trust e -> backed rt (extend_keys keys files) (apk_facts rt files tag url e).
Proof.
  intros He. unfold apk_facts. cbv zeta.
  match goal with |- backed _ _ (if _ then Entry.note ?x _ _ else _) => assert (Hx : no_trust x) end.
  { case_match; by repeat (apply no_trust_note; [done|]). }
  case_bool_decide; [by apply no_trust_backed, no_trust_note|]. apply backed_note; [done|apply extend_keys_has].
Qed.

Section sources_laws.
Context `{Strerror} `{Blake3} `{Sqlite} (h : snapshot) (cx : ctx).
Abbreviation rt := (cx_root cx).

(** Each step is made where it was begun. *)
Lemma stays_apt_dir d exts : stays (apt_dir d exts).
Proof. unfold apt_dir. solve_stays. Qed.
Lemma stays_existing ps : stays (existing ps).
Proof. induction ps as [|p ps IH]; cbn [existing]; solve_stays; done. Qed.
Lemma stays_apt_repo p store st r : stays (apt_repo p store st r).
Proof. unfold apt_repo. solve_stays. Qed.
Lemma stays_apt store st : stays (apt store st).
Proof. unfold apt, apt_file. apply stays_bind; [apply stays_apt_dir|]. intros. apply stays_fold. intros. solve_stays; apply stays_apt_repo. Qed.
Lemma stays_dnf st : stays (dnf st).
Proof. unfold dnf, dnf_dir, dnf_file, dnf_repo. solve_stays. Qed.
Lemma stays_rpm_key db bodies st k : stays (rpm_key db bodies st k).
Proof. unfold rpm_key. solve_stays. Qed.
Lemma stays_rpmdb st : stays (rpmdb_keys st).
Proof.
  unfold rpmdb_keys, files_in. apply stays_bind; [apply stays_lift|]. intros [[db ks]|]; [|apply stays_ret]. case_bool_decide; [apply stays_ret|].
  apply stays_bind; [solve_stays|]. intros names. apply stays_bind; [unfold body_of; solve_stays|]. intros. apply stays_fold. intros. apply stays_rpm_key.
Qed.
Lemma stays_apk st : stays (apk st).
Proof. unfold apk, files_in, apk_file, apk_entry. solve_stays. Qed.

Lemma finds_entry k p name : finds h cx no_trust (entry k p name).
Proof. eapply finds_mono; [apply made_no_trust|]. apply finds_yields, entry_made. Qed.
Lemma apt_known store st : keys_known rt st -> finds h cx (keys_known rt) (apt store st).
Proof.
  intros Hst. unfold apt. apply finds_bind_any; [apply stays_apt_dir|]. intros parts. apply finds_fold; [|done|].
  { intros. unfold apt_file. solve_stays; apply stays_apt_repo. }
  intros s p _ Hs. unfold apt_file. apply finds_bind_any; [apply stays_read_capped|]. intros [b|]; [|by apply finds_ret]. cbv zeta.
  apply finds_fold; [intros; apply stays_apt_repo|done|]. intros s' r _ Hs'. unfold apt_repo.
  eapply finds_bind; [apply stays_entry|apply finds_entry|]. intros e He. eapply finds_bind; [apply stays_root|apply finds_root|]. intros ? <-.
  apply finds_ret, known_extend; [done|]. by apply Forall_singleton, apt_facts_backed.
Qed.
Lemma dnf_known st : keys_known rt st -> finds h cx (keys_known rt) (dnf st).
Proof.
  intros Hst. unfold dnf. apply finds_fold; [|done|]. { intros. unfold dnf_dir, dnf_file, dnf_repo. solve_stays. }
  intros s d _ Hs. unfold dnf_dir. apply finds_bind_any; [apply stays_dir|]. intros ents. apply finds_fold; [|done|].
  { intros. unfold dnf_file, dnf_repo. solve_stays. }
  intros s' p _ Hs'. unfold dnf_file. apply finds_bind_any; [apply stays_read_capped|]. intros [b|]; [|by apply finds_ret].
  apply finds_fold; [|done|]. { intros. unfold dnf_repo. solve_stays. }
  intros s2 sec _ Hs2. unfold dnf_repo. eapply finds_bind; [apply stays_entry|apply finds_entry|]. intros e He.
  apply finds_ret, known_extend; [done|]. by apply Forall_singleton, no_trust_backed, dnf_facts_no_trust.
Qed.
Lemma rpmdb_known st : keys_known rt st -> finds h cx (keys_known rt) (rpmdb_keys st).
Proof.
  intros Hst. unfold rpmdb_keys. apply finds_bind_any; [apply stays_lift|]. intros [[db ks]|]; [|by apply finds_ret].
  case_bool_decide; [by apply finds_ret|]. apply finds_bind_any; [unfold files_in; solve_stays|]. intros names.
  apply finds_bind_any; [unfold body_of; solve_stays|]. intros bodies. apply finds_fold; [intros; apply stays_rpm_key|done|].
  intros s k _ Hs. unfold rpm_key. eapply finds_bind; [apply stays_entry|apply finds_entry|]. intros e He.
  eapply finds_bind; [apply stays_root|apply finds_root|]. intros ? <-.
  apply finds_ret, known_extend; [done|]. by apply Forall_singleton, rpm_key_backed.
Qed.
Lemma apk_known st : keys_known rt st -> finds h cx (keys_known rt) (apk st).
Proof.
  intros Hst. unfold apk. apply finds_bind_any; [apply stays_dir|]. intros ents. cbv zeta. apply finds_bind_any; [unfold files_in; solve_stays|].
  intros files. eapply (finds_bind _ _ (Forall2 (fun _ es => Forall (backed rt (extend_keys (snd st) files)) es) _));
    [unfold apk_file, apk_entry; solve_stays|apply finds_map; [intros; unfold apk_file, apk_entry; solve_stays|]|].
  - intros p _. unfold apk_file. apply finds_bind_any; [apply stays_read_capped|]. intros [b|]; [|by apply finds_ret].
    eapply finds_mono; [|apply (finds_map h cx (fun _ e => backed rt (extend_keys (snd st) files) e)); [intros; unfold apk_entry; solve_stays|]].
    + intros es He. apply Forall_forall. intros e (i & Hi)%list_elem_of_lookup. by destruct (Forall2_lookup_r _ _ _ _ _ He Hi) as (x & _ & Hx).
    + intros [[n tag] url] _. unfold apk_entry. eapply finds_bind; [apply stays_entry|apply finds_entry|]. intros e He.
      eapply finds_bind; [apply stays_root|apply finds_root|]. intros ? <-. by apply finds_ret, apk_facts_backed.
  - intros es He. apply finds_ret, known_extend; [done|]. apply Forall_join. apply Forall_forall. intros l (i & Hi)%list_elem_of_lookup.
    by destruct (Forall2_lookup_r _ _ _ _ _ He Hi) as (x & _ & Hx).
Qed.

(** A key's own entry, where its file is regular. *)
Definition regular (p : path) : bool := match run h (stat_follow rt p) with Ok m => m_is_file m | Err _ => false end.
Definition key_shown (p : path) (e : Entry.entry) : Prop :=
  e_target_path e = Some (abs rt p) /\ e_raw e !! #"source_type" = Some #"signing key".
Lemma key_entry_shown p : finds h cx (fun es => Forall no_trust es /\ (regular p = true -> Exists (key_shown p) es)) (key_entry p).
Proof.
  unfold key_entry. eapply (finds_bind _ _ (fun m => m = run h (stat_follow rt p))); [apply stays_lift|by apply finds_lift|].
  intros m ->. unfold regular. destruct (match run h _ with Ok _ => _ | Err _ => _ end); [|apply finds_ret; by split].
  eapply finds_bind; [apply stays_entry|apply finds_entry|]. intros e He. eapply finds_bind; [apply stays_root|apply finds_root|]. intros ? <-.
  apply finds_ret. split; [by apply Forall_singleton, no_trust_note|]. intros _. apply Exists_cons_hd. split; [done|]. apply lookup_insert_eq.
Qed.
Lemma gate_trusts a d e : finds h cx (fun e' => e_raw e' !! key.TRUSTS = e_raw e !! key.TRUSTS) (gate a d e).
Proof.
  unfold gate. apply finds_bind_any; [apply stays_any_there|]. intros k. apply finds_ret. unfold off_where_missing, off_unless. cbv zeta.
  destruct (negb _); [done|]. by rewrite (note_other [key.TRUSTS]) by first [done|by left].
Qed.

(** What is trusted is shown: each path among those an entry names. *)
Definition trusted_shown (out : list Entry.entry) (k : path) : Prop :=
  exists p, path_eqb p k = true /\ (regular p = true -> Exists (key_shown p) out).
Definition all_shown (out : list Entry.entry) : Prop :=
  Forall (fun e => forall t, e_raw e !! key.TRUSTS = Some t -> exists ks, t = abs_list rt ks /\ Forall (trusted_shown out) ks) out.

Lemma key_listed keys k : pm_ok keys -> pm_mem keys k = true -> exists p, p ∈ ps_list keys /\ path_eqb p k = true.
Proof.
  intros Ho [[] Hk]%pm_mem_true. destruct (pm_get_list keys k tt Ho Hk) as (p & Hp & E). exists p. split; [|by apply bool_decide_eq_true].
  apply list_elem_of_fmap. by exists (p, tt).
Qed.
Lemma shown_last st a d : keys_known rt st ->
  finds h cx all_shown (es ← map_coll (gate a d) (fst st); ks ← map_coll key_entry (ps_list (snd st)); mret (es ++ mjoin ks)).
Proof.
  intros [Hb Ho]. eapply finds_bind; [unfold gate; solve_stays|apply finds_map; [intros; unfold gate; solve_stays|intros; apply gate_trusts]|].
  intros es He. eapply finds_bind; [unfold key_entry; solve_stays|apply finds_map; [intros; unfold key_entry; solve_stays|intros; apply key_entry_shown]|].
  intros ks Hk. apply finds_ret. unfold all_shown. apply Forall_app. split.
  - apply Forall_forall. intros e (i & Hi)%list_elem_of_lookup t Ht. destruct (Forall2_lookup_r _ _ _ _ _ He Hi) as (e0 & Hi0 & E).
    rewrite E in Ht. destruct (Forall_lookup_1 _ _ _ _ Hb Hi0 t Ht) as (l & -> & Hl). exists l. split; [done|].
    eapply Forall_impl; [exact Hl|]. intros k Hm. destruct (key_listed _ _ Ho Hm) as (p & Hp & Ek). exists p. split; [done|]. intros Hr.
    apply Exists_app. right. apply list_elem_of_lookup in Hp as [j Hj]. destruct (Forall2_lookup_l _ _ _ _ _ Hk Hj) as (l' & Hj' & _ & Hsh).
    specialize (Hsh Hr). rewrite Exists_exists in Hsh. destruct Hsh as (e' & Hin & Hke). apply Exists_exists. exists e'. split; [|done].
    apply list_elem_of_join. exists l'. split; [done|]. by eapply list_elem_of_lookup_2.
  - apply Forall_join. apply Forall_forall. intros l (i & Hi)%list_elem_of_lookup. destruct (Forall2_lookup_r _ _ _ _ _ Hk Hi) as (p & _ & Hn & _).
    eapply Forall_impl; [exact Hn|]. intros e Hno t Ht. unfold no_trust in Hno. congruence.
Qed.
End sources_laws.

(** C0. A key that a repository trusts is never left out: of every file that an
    entry says its packages may be signed by, the collector shows the key as an entry
    of its own, where it is a file there. *)
Theorem trusted_keys_shown `{Strerror} `{Blake3} `{Sqlite} h cx : all_shown h cx (value h cx collect).
Proof.
  assert (Hf : finds h cx (all_shown h cx) collect); [|by apply Hf].
  unfold collect. apply finds_bind_any; [apply stays_any_there|]. intros a. apply finds_bind_any; [apply stays_any_there|]. intros d.
  apply finds_bind_any; [unfold apt_store; apply stays_bind; [apply stays_apt_dir|intros; apply stays_existing]|]. intros store.
  eapply finds_bind; [apply stays_apt|apply apt_known; by split|]. intros st [Hb Ho]. apply finds_bind_any; [apply stays_apt_dir|]. intros rings.
  eapply finds_bind; [apply stays_dnf|apply dnf_known|].
  { split; cbn [fst snd]; [|by apply extend_keys_ok, extend_keys_ok]. eapply Forall_impl; [exact Hb|]. intros e He. by apply backed_extend, backed_extend. }
  intros st1 H1'. eapply finds_bind; [apply stays_rpmdb|by apply rpmdb_known|]. intros st2 H2'.
  eapply finds_bind; [apply stays_apk|by apply apk_known|]. intros st3 H3'. by apply shown_last.
Qed.

(** A host with apt, whose one repository names its key, and the other none; with
    apk's repositories although apk is not installed. *)
Module SourcesDemo.
#[local] Instance demo_blake3 : Blake3 := fun _ => #"0123456789abcdef".
#[local] Instance demo_strerror : Strerror := fun _ => #"error".
#[local] Instance demo_sqlite : Sqlite := fun _ _ => Err (Stage.Memory, #"none").
Definition text (ls : list bytes) : bytes := join [newline] ls ++ [newline].
Definition tree : Tree.tree :=
  [( #"usr", Tree.Dir 0 0x1ED); ( #"usr/bin", Tree.Dir 0 0x1ED); ( #"usr/bin/apt-get", Tree.File 0 0x1ED #"x");
   ( #"etc", Tree.Dir 0 0x1ED); ( #"etc/apt", Tree.Dir 0 0x1ED); ( #"etc/apt/trusted.gpg.d", Tree.Dir 0 0x1ED);
   ( #"etc/apt/trusted.gpg.d/d.gpg", Tree.File 0 0x1A4 #"x"); ( #"etc/apt/trusted.gpg.d/old.gpg~", Tree.File 0 0x1A4 #"x");
   ( #"etc/apt/k.asc", Tree.File 0 0x1A4 #"x");
   ( #"etc/apt/sources.list", Tree.File 0 0x1A4 (text [ #"# deb x y"; #"deb [Trusted=YES] http://b s # c"; #"deb http://a s main x"]));
   ( #"etc/apt/sources.list.d", Tree.Dir 0 0x1ED);
   ( #"etc/apt/sources.list.d/x.sources", Tree.File 0 0x1A4
       (text [ #"Types: deb"; #"URIs: http://c"; #"Suites: s"; #"Signed-By:"; #" /etc/apt/k.asc"; #"Enabled: no"; #""; #"Types: deb"]));
   ( #"etc/apk", Tree.Dir 0 0x1ED); ( #"etc/apk/repositories", Tree.File 0 0x1A4 (text [ #"@edge: http://e"; #"http://e"]))].
Definition noted (e : Entry.entry) : list bytes := omap (fun k => e_raw e !! k) [key.SIGNATURE_CHECKING; key.TRUSTS].
Definition seen : list (bytes * enablement * list bytes) :=
  (fun e => (e_name e, e_enabled e, noted e)) <$> value (Tree.kernel tree) (mk_ctx Tree.offline [] [] [] []) collect.
End SourcesDemo.

Example sources_host :
  SourcesDemo.seen =
    [( #"apt:http://b:0123456789ab", Enablement.Enabled, [ #"off (trusted=yes)"]);
     ( #"apt:http://a:0123456789ab", Enablement.Enabled, [ #"/mnt/etc/apt/trusted.gpg.d/d.gpg"]);
     ( #"apt:http://c:0123456789ab", Enablement.Disabled, [ #"/mnt/etc/apt/k.asc"]);
     ( #"apk:http://e", Enablement.Disabled, [ #"no key in /etc/apk/keys; apk refuses every index unless run with --allow-untrusted"]);
     ( #"apk:http://e#2", Enablement.Disabled, [ #"no key in /etc/apk/keys; apk refuses every index unless run with --allow-untrusted"]);
     ( #"key:k.asc", Enablement.Enabled, []); ( #"key:d.gpg", Enablement.Enabled, [])].
Proof. by vm_compute. Qed.

(** Keys named on two lines of a stanza are taken for the name of one file. *)
Example continued_keys_joined :
  (fun r => fst (apt_trusts [] r)) <$>
    deb822_stanzas (SourcesDemo.text [ #"URIs: http://c"; #"Signed-By: /etc/apt/a.asc"; #" /etc/apt/b.asc"]) =
  [[ #"etc/apt/a.asc" ++ newline :: #"/etc/apt/b.asc"]].
Proof. by vm_compute. Qed.
