(* ===== verification/Inittab.v ===== *)
(** [src/collect/inittab.rs]: what init runs by itself, read by the rule of the
    init the root has: sysvinit's or BusyBox's. *)

From S2P Require Import Prelude Slices Order Num Utf8 Paths Kinds Entry Sys Root Tree Users Scan Collect.

Definition INIT : path := #"sbin/init".
Definition INITTAB : path := #"etc/inittab".
Definition INITTAB_D : path := #"etc/inittab.d".
Definition INITSCRIPT : path := #"etc/initscript".
Definition TEMPLATE : path := #"usr/share/sysvinit/inittab".
Definition SHELL_CHARS : bytes := #"~`!$^&*()=|\{}[];'<>?" ++ [x22].
Definition INIT_CAP : N := N.shiftl 16 20.

Definition SYSV_ACTIONS : list (bytes * trigger) :=
  [( #"respawn", Trigger.Boot); ( #"wait", Trigger.Boot); ( #"once", Trigger.Boot); ( #"boot", Trigger.Boot);
   ( #"bootwait", Trigger.Boot); ( #"powerfail", Trigger.PowerEvent); ( #"powerfailnow", Trigger.PowerEvent);
   ( #"powerwait", Trigger.PowerEvent); ( #"powerokwait", Trigger.PowerEvent); ( #"ctrlaltdel", Trigger.DeviceEvent);
   ( #"off", Trigger.Boot); ( #"ondemand", Trigger.Always); ( #"initdefault", Trigger.Boot); ( #"sysinit", Trigger.Boot);
   ( #"kbrequest", Trigger.DeviceEvent)].

Definition BUSYBOX_ACTIONS : list (bytes * trigger) :=
  [( #"sysinit", Trigger.Boot); ( #"wait", Trigger.Boot); ( #"once", Trigger.Boot); ( #"respawn", Trigger.Boot);
   ( #"askfirst", Trigger.Boot); ( #"ctrlaltdel", Trigger.DeviceEvent); ( #"shutdown", Trigger.PowerEvent);
   ( #"restart", Trigger.Always)].

Module Init.
Inductive init := SysV (inittab_d : bool) | BusyBox | Systemd | Other | Missing.
End Init.
Abbreviation init := Init.init.

(** The ellipsis is one character of three bytes. *)
Definition RUNS_VIA : bytes := #"/bin/sh -c " ++ [x22] ++ #"exec " ++ [xe2; x80; xa6] ++ [x22].

Section inittab.
Context `{Strerror} `{Blake3}.

Definition which_init : coll (init * bytes) :=
  r ← the_root;
  resolved ← lift (fun r => Root.resolve r INIT);
  match resolved with
  | Err _ => mret (Init.Missing, #"none")
  | Ok resolved =>
      let shown := display_path (abs r resolved) in
      if bool_decide (file_name resolved = Some #"systemd") then mret (Init.Systemd, shown)
      else
        b ← read_capped resolved INIT_CAP;
        mret match b with
             | None => (Init.Other, shown)
             | Some b =>
                 (if negb (contains_sub #"/etc/inittab" b) then Init.Other
                  else if contains_sub #"BusyBox" b then Init.BusyBox
                  else Init.SysV (contains_sub #"inittab.d" b), shown)
             end
  end.

Definition gate (e : Entry.entry) (i : init) (shown : bytes) : Entry.entry :=
  let e := Entry.note e #"init" shown in
  match i with
  | Init.SysV _ | Init.BusyBox => set_enabled e Enablement.Enabled
  | Init.Systemd => set_enabled (Entry.note e #"not_run" #"init is systemd, which ignores inittab") Enablement.Disabled
  | Init.Other => set_enabled (Entry.note e #"not_run" (shown ++ #" does not read inittab")) Enablement.Disabled
  | Init.Missing => set_enabled (Entry.note e #"not_run" #"no /sbin/init on this root") Enablement.Unknown
  end.

(** ** sysvinit *)

(** A line as [fgets] gives it: 255 bytes at a time. *)
Fixpoint line_pieces (fuel : nat) (line : bytes) : list bytes :=
  match fuel with
  | O => [line]
  | S fuel => if 254 <? length line then take 255 line :: line_pieces fuel (drop 255 line) else [line]
  end.
Definition fgets_pieces (b : bytes) : list bytes :=
  split_on (is_byte newline) b ≫= fun line => line_pieces (length line) line.

Record sysv_entry := mk_sysv {
  sv_id : bytes; sv_runlevels : bytes; sv_action : bytes; sv_trigger : trigger; sv_process : bytes
}.

Definition blank_byte (b : byte) : bool := bool_decide (b = " "%byte) || bool_decide (b = x09).
Definition colon : bytes := #":".
Definition power_action (name : bytes) : bool :=
  bool_decide (name ∈ [ #"powerwait"; #"powerfail"; #"powerokwait"; #"powerfailnow"; #"ctrlaltdel"]).

Definition runlevels_of (name rlevel : bytes) : bytes :=
  if bool_decide (name = #"sysinit") then #"#"
  else if bool_decide (name = #"boot") || bool_decide (name = #"bootwait") then #"*"
  else if bool_decide (rlevel = []) then if power_action name then #"S0123456789" else #"0123456789"
  else from_utf8_lossy rlevel.

(** The line if init accepts it, and the ids accepted so far. *)
Definition sysv_line (piece : bytes) (ids : gset bytes) : option (sysv_entry * gset bytes) :=
  let p := drop_while blank_byte piece in
  if bool_decide (p = []) || starts_with #"#" p then None
  else
    '(id, rest) ← split_once colon p;
    '(rlevel, rest) ← split_once colon rest;
    '(action, process) ← split_once colon rest;
    if bool_decide (id = []) || bool_decide (action = []) || (4 <? length id) || (11 <? length rlevel)
       || (127 <? length process) || (32 <? length action) then None
    else
      '(name, trigger) ← find (fun nt => eq_ignore_ascii_case (fst nt) action) SYSV_ACTIONS;
      if bool_decide (id = #"~~") then Some (mk_sysv id (runlevels_of name rlevel) name trigger process, ids)
      else if bool_decide (id ∈ ids) then None
      else Some (mk_sysv id (runlevels_of name rlevel) name trigger process, {[id]} ∪ ids).

Definition to_ascii_uppercase1 (b : byte) : byte := if is_ascii_lower b then byte_of_N (Byte.to_N b - 32) else b.
Definition max_byte (best : option byte) (b : byte) : option byte :=
  match best with Some c => if (Byte.to_N b <? Byte.to_N c)%N then best else Some b | None => Some b end.

Definition default_level (runlevels : bytes) : bytes :=
  match to_ascii_uppercase1 <$> foldl max_byte None runlevels with
  | Some b => if bool_decide (b ∈ #"0123456789S") then [b] else #"asked on the console"
  | None => #"asked on the console"
  end.

(** ** A process field *)

Definition first_word (r : root) (t : bytes) : option path :=
  word ← head (words_by blank_byte t);
  let word := shell_word word in
  if starts_with [slash] word then Some (abs r word) else None.

Definition EMPTY_FIELD : bytes := #"empty process field".

Definition command (r : root) (e : Entry.entry) (text : bytes) (sysv : bool) : Entry.entry :=
  if bool_decide (text = []) then Entry.note e #"not_run" EMPTY_FIELD
  else if existsb (fun b => mem b SHELL_CHARS) text then
    set_target_path (set_command (Entry.note e #"runs_via" RUNS_VIA) text) (first_word r text)
  else
    let text := if sysv then before "#" text else text in
    let words := words_by blank_byte text in
    let cut := sysv && (14 <? length words) in
    let e := if cut then
               Entry.note e #"argv_truncated"
                 ( #"init passes fourteen words; the line has " ++ dec (N.of_nat (length words)))
             else e in
    match (if cut then take 14 words else words) with
    | [] => Entry.note e #"not_run" EMPTY_FIELD
    | (first :: _) as kept =>
        set_target_path
          (set_command (Entry.note e #"argv" #"split on blanks by init, no shell") (join #" " kept)) (first_word r first)
    end.

(** ** The sysvinit collector *)

Record sysv_state := mk_sysv_state {
  sy_ids : gset bytes; sy_used : gmap bytes N; sy_default : option bytes; sy_lines : list Entry.entry
}.

(** The name of a line: its id, numbered where the id was used before. *)
Definition numbered (used : gmap bytes N) (base : bytes) : bytes * N * gmap bytes N :=
  let n := (default 0%N (used !! base) + 1)%N in
  (if bool_decide (n = 1%N) then base else base ++ #"-" ++ dec n, n, <[base := n]> used).

Definition sysv_facts (r : root) (template : gset bytes) (inittab_d from_d : bool) (piece : bytes) (line : sysv_entry)
    (e : Entry.entry) : Entry.entry :=
  let e := name_from_os e (sv_id line) in
  let e := set_principal (set_trigger e (sv_trigger line)) (Some #"root") in
  let e := Entry.note (Entry.note e #"action" (sv_action line)) #"runlevels" (sv_runlevels line) in
  let e := match strip_prefix #"+" (sv_process line) with
           | Some rest => command r (Entry.note e #"utmp" #"not recorded") rest true
           | None => command r e (sv_process line) true
           end in
  let e := if bool_decide (sv_action line = #"off") then
             Entry.note (set_enabled e Enablement.Disabled) #"not_run" #"action off does nothing"
           else e in
  let e := if from_d then
             let e := Entry.note e #"inittab_d" #"one entry per file, the first line that is not a comment" in
             if inittab_d then e
             else Entry.note (set_enabled e Enablement.Disabled) #"not_run" #"this init does not read inittab.d"
           else e in
  if bool_decide (piece ∈ template) then Entry.note e key.MATCHES_TEMPLATE (display_path (abs r TEMPLATE)) else e.

Definition take_piece (template : gset bytes) (inittab_d : bool) (p : path) (from_d : bool) (st : sysv_state) (piece : bytes)
    : coll sysv_state :=
  match sysv_line piece (sy_ids st) with
  | None => mret st
  | Some (line, ids) =>
      if bool_decide (sv_action line = #"initdefault") then
        mret (mk_sysv_state ids (sy_used st) (Some (default_level (sv_runlevels line))) (sy_lines st))
      else
        r ← the_root;
        let '(name, _, used) := numbered (sy_used st) (from_utf8_lossy (sv_id line)) in
        e ← entry Kind.Inittab p name;
        mret (mk_sysv_state ids used (sy_default st) (sy_lines st ++ [sysv_facts r template inittab_d from_d piece line e]))
  end.

Definition note_crlf (crlf : bool) (before_ : nat) (ls : list Entry.entry) : list Entry.entry :=
  if crlf && (before_ <? length ls) then alter (fun e => Entry.note e #"line_ending" #"crlf") (length ls - 1) ls else ls.

Definition take_main (template : gset bytes) (inittab_d crlf : bool) (st : sysv_state) (piece : bytes) : coll sysv_state :=
  st' ← take_piece template inittab_d INITTAB false st piece;
  mret (mk_sysv_state (sy_ids st') (sy_used st') (sy_default st') (note_crlf crlf (length (sy_lines st)) (sy_lines st'))).

Definition is_tab (ent : dir_ent) : bool :=
  negb (de_is_dir ent) && (5 <=? length (de_name ent)) && ends_with #".tab" (de_name ent).
Definition says_something (piece : bytes) : bool :=
  match drop_while blank_byte piece with [] => false | c :: _ => negb (bool_decide (c = "#"%byte)) end.

Definition take_tab (template : gset bytes) (inittab_d : bool) (st : sysv_state) (name : bytes) : coll sysv_state :=
  let p := path_join INITTAB_D name in
  b ← read p;
  match b with
  | None => mret st
  | Some b =>
      match find says_something (fgets_pieces b) with
      | Some piece => take_piece template inittab_d p true st piece
      | None => mret st
      end
  end.

(** The last word on a line: which init, and what holds for them all. *)
Definition finish_line (r : root) (i : init) (shown : bytes) (default_ : option bytes) (initscript : bool) (e : Entry.entry)
    : Entry.entry :=
  let off := bool_decide (e_enabled e = Enablement.Disabled) in
  let e := gate e i shown in
  let e := if off then set_enabled e Enablement.Disabled else e in
  let e := match default_ with Some lvl => Entry.note e #"default_runlevel" lvl | None => e end in
  if initscript then Entry.note e #"initscript" (display_path (abs r INITSCRIPT)) else e.

Definition is_regular (x : result io_error meta) : bool := match x with Ok m => m_is_file m | Err _ => false end.

Definition read_template : coll (gset bytes) :=
  m ← lift (fun r => Root.stat r TEMPLATE);
  if is_regular m then
    b ← read TEMPLATE;
    mret (match b with Some b => list_to_set (split_on (is_byte newline) b) | None => ∅ end)
  else mret ∅.

Definition initscript_entry (i : init) (shown : bytes) : coll Entry.entry :=
  r ← the_root;
  e ← entry Kind.Inittab INITSCRIPT #"initscript";
  let e := set_principal (set_trigger e Trigger.Boot) (Some #"root") in
  let e := set_target_path e (Some (abs r INITSCRIPT)) in
  let e := Entry.note e #"runs_for"
    #"every process init starts outside runlevel S, as /bin/sh /etc/initscript id runlevels action process" in
  mret (gate e i shown).

Definition sysv (i : init) (shown : bytes) : coll (list Entry.entry) :=
  r ← the_root;
  template ← read_template;
  initscript ← lift (fun r => m ← stat_follow r INITSCRIPT; Ret (is_regular m));
  let inittab_d := match i with Init.SysV d => d | _ => false end in
  b ← read INITTAB;
  st ← match b with
       | None => mret (mk_sysv_state ∅ ∅ None [])
       | Some b =>
           fold_coll (take_main template inittab_d (existsb (is_byte x0d) b)) (mk_sysv_state ∅ ∅ None []) (fgets_pieces b)
       end;
  ents ← dir INITTAB_D;
  st ← fold_coll (take_tab template inittab_d) st (sort_by id (de_name <$> List.filter is_tab ents));
  let out := finish_line r i shown (sy_default st) initscript <$> sy_lines st in
  if initscript then e ← initscript_entry i shown; mret (out ++ [e]) else mret out.

(** ** BusyBox *)

(** A backslash at the end of a line joins the next to it. *)
Definition continue_line (st : list bytes * bool) (line : bytes) : list bytes * bool :=
  let '(out, open_) := st in
  let '(body, continues) := match strip_suffix [x5c] line with Some b => (b, true) | None => (line, false) end in
  (if open_ : bool then alter (fun l => l ++ body) (length out - 1) out else out ++ [body], continues).
Definition continued_lines (b : bytes) : list bytes := fst (foldl continue_line ([], false) (split_on (is_byte newline) b)).

Definition hash_byte : byte := "#".
Definition token_end (b : byte) : bool := bool_decide (b = hash_byte) || bool_decide (b = ":"%byte).

(** [n] tokens are still wanted; the last takes all there is before a
    comment. *)
Fixpoint busybox_tokens (n : nat) (rest : bytes) : list bytes :=
  match n with
  | O => []
  | 1 => [before hash_byte rest]
  | S n =>
      let i := default (length rest) (position token_end rest) in
      let rest' := match drop i rest with c :: more => if bool_decide (c = ":"%byte) then more else [] | [] => [] end in
      take i rest :: if bool_decide (rest' = []) || starts_with [hash_byte] rest' then [] else busybox_tokens n rest'
  end.

(** The terminal, the action and the command. *)
Definition busybox_fields (line : bytes) : option (bytes * bytes * bytes) :=
  if bool_decide (line = []) || starts_with [hash_byte] line then None
  else match busybox_tokens 4 line with [tty; _; action; process] => Some (tty, action, process) | _ => None end.

Definition DUPLICATE_LINE : bytes := #"duplicate_line".

Definition busybox_entry (r : root) (crlf : bool) (shown tty process name : bytes) (trigger : trigger) (e : Entry.entry)
    : Entry.entry :=
  let e := set_principal (set_trigger e trigger) (Some #"root") in
  let e := Entry.note e #"action" name in
  let e := Entry.note e #"tty" (if bool_decide (tty = []) then #"console" else #"/dev/" ++ from_utf8_lossy tty) in
  let e := match strip_prefix #"-" process with
           | Some rest => command r (Entry.note e #"login_shell" #"true") rest false
           | None => command r e process false
           end in
  let e := gate e Init.BusyBox shown in
  if crlf then Entry.note e #"line_ending" #"crlf" else e.

Definition again (name : bytes) (trigger : trigger) (e : Entry.entry) : Entry.entry :=
  let e := set_trigger (Entry.note e #"action" name) trigger in
  let n := (default 1 (v ← e_raw e !! DUPLICATE_LINE; parse_unsigned U32_MAX v) + 1)%N in
  Entry.note e DUPLICATE_LINE (dec n).

Notation bb_state := (gmap (bytes * bytes) nat * list Entry.entry)%type.

Definition busybox_line (crlf : bool) (shown : bytes) (st : bb_state) (line : bytes) : coll bb_state :=
  let '(seen, entries) := st in
  match busybox_fields line with
  | None => mret st
  | Some (tty, action, process) =>
      match find (fun nt => bool_decide (fst nt = action)) BUSYBOX_ACTIONS with
      | None => mret st
      | Some (name, trigger) =>
          if bool_decide (process = []) then mret st
          else
            let tty := default tty (strip_prefix #"/dev/" tty) in
            match seen !! (tty, process) with
            | Some i => mret (seen, alter (again name trigger) i entries)
            | None =>
                let console := if bool_decide (tty = []) then #"console" else from_utf8_lossy tty in
                r ← the_root;
                e ← entry Kind.Inittab INITTAB (console ++ #":" ++ from_utf8_lossy process);
                mret (<[(tty, process) := length entries]> seen,
                      entries ++ [busybox_entry r crlf shown tty process name trigger e])
            end
      end
  end.

Definition busybox (shown : bytes) : coll (list Entry.entry) :=
  b ← read INITTAB;
  match b with
  | None => mret []
  | Some b =>
      st ← fold_coll (busybox_line (existsb (is_byte x0d) b) shown) (∅, []) (continued_lines b);
      mret (snd st)
  end.

Definition collect : coll (list Entry.entry) :=
  x ← which_init;
  let '(i, shown) := x : init * bytes in
  match i with Init.BusyBox => busybox shown | _ => sysv i shown end.
End inittab.

(** ** What a line's entry shows *)

Section inittab_laws.
Context `{Strerror} `{Blake3}.

(** What [line_ok] speaks of, and no note of a command touches. *)
Definition SHOWN : list bytes := [ #"init"; #"action"; #"inittab_d"].
Definition shows (e : Entry.entry) : kind * enablement * option bytes * (option bytes * option bytes * option bytes) :=
  (e_kind e, e_enabled e, e_principal e, (e_raw e !! #"init", e_raw e !! #"action", e_raw e !! #"inittab_d")).

Lemma shows_note e k v : mem k SHOWN = false -> shows (Entry.note e k v) = shows e.
Proof.
  intros Hk. unfold shows. rewrite !(note_other SHOWN) by (done || apply (bool_decide_eq_true_1 _); done). done.
Qed.
Lemma shows_note_if (b : bool) e k v : mem k SHOWN = false -> shows (if b then Entry.note e k v else e) = shows e.
Proof. intros Hk. destruct b; [by apply shows_note|done]. Qed.
Lemma shows_flag e f : shows (Entry.flag e f) = shows e.
Proof. unfold Entry.flag. by destruct (mem f (e_flags e)). Qed.
Lemma shows_set_command e b : shows (set_command e b) = shows e.
Proof.
  unfold set_command. cbv zeta. change (shows (with_command ?x _)) with (shows x).
  destruct (existsb _ b); [rewrite shows_note by done|]; (destruct (is_utf8 b); [done|apply shows_flag]).
Qed.
Lemma shows_name_from_os e b : shows (name_from_os e b) = shows e.
Proof. unfold name_from_os. destruct (is_utf8 b); [done|]. by rewrite shows_note, shows_flag. Qed.
Lemma shows_command r e text sysv : shows (command r e text sysv) = shows e.
Proof.
  unfold command. cbv zeta. case_bool_decide; [by rewrite shows_note|].
  destruct (existsb _ text).
  { change (shows (set_target_path ?x _)) with (shows x). by rewrite shows_set_command, shows_note. }
  match goal with |- context [match ?l with [] => _ | _ => _ end] => destruct l end.
  - rewrite shows_note by done. destruct (_ && _); [by rewrite shows_note|done].
  - change (shows (set_target_path ?x _)) with (shows x). rewrite shows_set_command, shows_note by done.
    destruct (_ && _); [by rewrite shows_note|done].
Qed.

Definition reads_tabs (i : init) : bool := match i with Init.SysV d => d | _ => false end.
Definition ran (i : init) : enablement :=
  match i with
  | Init.SysV _ | Init.BusyBox => Enablement.Enabled
  | Init.Systemd | Init.Other => Enablement.Disabled
  | Init.Missing => Enablement.Unknown
  end.
(** A line no init that reads the table would start. *)
Definition off (i : init) (action tab : option bytes) : bool :=
  bool_decide (action = Some #"off") || bool_decide (is_Some tab) && negb (reads_tabs i).

Lemma shows_gate e i shown :
  shows (gate e i shown) = (e_kind e, ran i, e_principal e, (Some shown, e_raw e !! #"action", e_raw e !! #"inittab_d")).
Proof.
  unfold gate. cbv zeta. destruct i; cbn [ran]; unfold shows; cbn [e_raw e_kind e_principal e_enabled set_enabled Entry.note set_raw];
    by simplify_map_eq.
Qed.

(** Before the init is asked, and after. *)
Definition pending (i : init) (e : Entry.entry) : Prop :=
  exists action tab, shows e =
    (Kind.Inittab, if off i action tab then Enablement.Disabled else Enablement.Unknown, Some #"root", (None, action, tab)).
Record line_ok (i : init) (shown : bytes) (e : Entry.entry) : Prop := mk_line_ok {
  lo_kind : e_kind e = Kind.Inittab;
  lo_root : e_principal e = Some #"root";
  lo_init : e_raw e !! #"init" = Some shown;
  lo_enabled : e_enabled e = if off i (e_raw e !! #"action") (e_raw e !! #"inittab_d") then Enablement.Disabled else ran i
}.
Lemma line_ok_shows i shown e action tab :
  shows e = (Kind.Inittab, if off i action tab then Enablement.Disabled else ran i, Some #"root", (Some shown, action, tab)) ->
  line_ok i shown e.
Proof. intros [= Hk He Hp Hi Ha Ht]. split; try done. by rewrite Ha, Ht. Qed.

Lemma finish_line_ok r i shown d s e : pending i e -> line_ok i shown (finish_line r i shown d s e).
Proof.
  intros (action & tab & E). apply (line_ok_shows _ _ _ action tab). unfold finish_line. cbv zeta.
  rewrite shows_note_if by done. destruct d; [rewrite shows_note by done|].
  all: pose proof (shows_gate e i shown) as G; injection E as Hk He Hp Hi Ha Ht; rewrite Hk, Hp, Ha, Ht in G; rewrite He;
    destruct (off i action tab); [rewrite bool_decide_true by done|exact G]; unfold shows in G |- *;
    cbn [set_enabled e_kind e_enabled e_principal e_raw bool_decide]; by injection G as -> _ -> -> -> ->.
Qed.

Lemma made_shows name e : made Kind.Inittab name e -> shows e = (Kind.Inittab, Enablement.Unknown, None, (None, None, None)).
Proof.
  intros [Hk _ He _ _ Hp Hn]. unfold shows. rewrite Hk, He, Hp.
  assert (Hnone : forall k, mem k MADE_KEYS = false -> e_raw e !! k = None).
  { intros k Hm. apply eq_None_not_Some. intros Hs%Hn. unfold mem in Hm. by apply bool_decide_eq_false in Hm. }
  by rewrite !Hnone.
Qed.

Lemma shows_set_enabled e x : shows (set_enabled e x) = (e_kind e, x, e_principal e, (e_raw e !! #"init", e_raw e !! #"action", e_raw e !! #"inittab_d")).
Proof. done. Qed.

Lemma shows_action e v :
  shows (Entry.note e #"action" v) = (e_kind e, e_enabled e, e_principal e, (e_raw e !! #"init", Some v, e_raw e !! #"inittab_d")).
Proof. unfold shows. cbn [Entry.note set_raw e_kind e_enabled e_principal e_raw]. by simplify_map_eq. Qed.
Lemma shows_tab e v :
  shows (Entry.note e #"inittab_d" v) = (e_kind e, e_enabled e, e_principal e, (e_raw e !! #"init", e_raw e !! #"action", Some v)).
Proof. unfold shows. cbn [Entry.note set_raw e_kind e_enabled e_principal e_raw]. by simplify_map_eq. Qed.

Lemma sysv_facts_pending r template i from_d piece line name e :
  made Kind.Inittab name e -> pending i (sysv_facts r template (reads_tabs i) from_d piece line e).
Proof.
  intros Hm%made_shows. exists (Some (sv_action line)), (if from_d then Some #"one entry per file, the first line that is not a comment" else None).
  unfold sysv_facts. cbv zeta.
  set (e1 := Entry.note (Entry.note _ #"action" _) #"runlevels" _).
  assert (E1 : shows e1 = (Kind.Inittab, Enablement.Unknown, Some #"root", (None, Some (sv_action line), None))).
  { unfold e1. rewrite shows_note, shows_action by done. rewrite <- (shows_name_from_os e (sv_id line)) in Hm.
    cbn [set_principal set_trigger e_kind e_enabled e_principal e_raw]. by injection Hm as -> -> _ -> _ ->. }
  clearbody e1. set (e2 := match strip_prefix _ _ with Some _ => _ | None => _ end).
  assert (E2 : shows e2 = shows e1) by (unfold e2; destruct (strip_prefix _ _); by rewrite shows_command, ?shows_note).
  rewrite E1 in E2. clearbody e2. clear E1 e1. set (e3 := if bool_decide (sv_action line = _) then _ else e2).
  set (off_ := bool_decide (sv_action line = #"off")) in *.
  assert (E3 : shows e3 = (Kind.Inittab, if off_ then Enablement.Disabled else Enablement.Unknown, Some #"root",
    (None, Some (sv_action line), None))).
  { unfold e3. destruct off_; [|done]. rewrite shows_note, shows_set_enabled by done. by injection E2 as -> _ -> -> -> ->. }
  clearbody e3. clear E2 e2. set (e4 := if from_d then _ else e3).
  assert (Hoff : bool_decide (Some (sv_action line) = Some #"off") = off_)
    by (unfold off_; apply bool_decide_ext; split; [by intros [= ->]|by intros ->]).
  rewrite shows_note_if by done.
  unfold off, e4. rewrite Hoff. clearbody off_. cbv zeta. injection E3 as Hk He Hp Hi Ha Ht.
  destruct from_d; [destruct (reads_tabs i)|].
  - rewrite shows_tab, Hk, He, Hp, Hi, Ha. by destruct off_.
  - rewrite shows_note, shows_set_enabled by done. cbn [e_kind e_principal e_raw Entry.note set_raw].
    rewrite Hk, Hp, !lookup_insert_ne, lookup_insert_eq, Hi, Ha by done. by destruct off_.
  - unfold shows. rewrite Hk, He, Hp, Hi, Ha, Ht. by destruct off_.
Qed.

Lemma busybox_entry_ok r crlf shown tty process name trigger i0 e :
  name <> #"off" -> made Kind.Inittab i0 e ->
  line_ok Init.BusyBox shown (busybox_entry r crlf shown tty process name trigger e).
Proof.
  intros Hname Hm%made_shows. apply (line_ok_shows _ _ _ (Some name) None). unfold off.
  rewrite (bool_decide_false (Some name = _)) by congruence. cbn [orb is_Some andb].
  unfold busybox_entry. cbv zeta.
  rewrite shows_note_if, shows_gate by done. set (e1 := Entry.note (Entry.note _ #"action" _) #"tty" _).
  assert (E1 : shows e1 = (Kind.Inittab, Enablement.Unknown, Some #"root", (None, Some name, None))).
  { unfold e1. rewrite shows_note, shows_action by done.
    cbn [set_principal set_trigger e_kind e_enabled e_principal e_raw]. by injection Hm as -> -> _ -> _ ->. }
  clearbody e1. set (e2 := match strip_prefix _ _ with Some _ => _ | None => _ end).
  assert (E2 : shows e2 = shows e1) by (unfold e2; destruct (strip_prefix _ _); by rewrite shows_command, ?shows_note).
  rewrite E1 in E2. clearbody e2. injection E2 as Hk He Hp Hi Ha Ht. by rewrite Hk, Hp, Ha, Ht.
Qed.

Lemma again_ok i shown name trigger e :
  name <> #"off" -> e_raw e !! #"action" <> Some #"off" -> line_ok i shown e -> line_ok i shown (again name trigger e).
Proof.
  intros Hname Ha [Hk Hp Hi He]. apply (line_ok_shows _ _ _ (Some name) (e_raw e !! #"inittab_d")).
  unfold again. cbv zeta. rewrite shows_note by done. unfold off in *. rewrite bool_decide_false in He by done.
  rewrite bool_decide_false by congruence. change (shows (set_trigger ?x _)) with (shows x).
  by rewrite shows_action, Hk, Hp, Hi, He.
Qed.

Lemma busybox_actions_on name trigger : (name, trigger) ∈ BUSYBOX_ACTIONS -> name <> #"off".
Proof.
  assert (Hall : Forall (fun nt : bytes * Trigger.trigger => negb (bool_decide (fst nt = #"off")) = true) BUSYBOX_ACTIONS)
    by (repeat (apply Forall_cons; split; [by vm_compute|]); apply Forall_nil_2).
  intros Hin ->. eapply Forall_forall in Hall; [|exact Hin]. by vm_compute in Hall.
Qed.

Lemma take_piece_pending template i p from_d st piece :
  Forall (pending i) (sy_lines st) ->
  yields (fun st => Forall (pending i) (sy_lines st)) (take_piece template (reads_tabs i) p from_d st piece).
Proof.
  intros Hst. unfold take_piece. destruct (sysv_line piece (sy_ids st)) as [[line ids]|]; [|by apply yields_ret].
  case_bool_decide; [by apply yields_ret|]. apply yields_bind_any. intros r.
  destruct (numbered _ _) as [[name n] used]. eapply yields_bind; [apply entry_made|]. intros e He.
  apply yields_ret. cbn [sy_lines]. apply Forall_app. split; [done|]. apply Forall_singleton. by eapply sysv_facts_pending.
Qed.

Lemma note_crlf_pending i crlf n ls : Forall (pending i) ls -> Forall (pending i) (note_crlf crlf n ls).
Proof.
  intros Hl. unfold note_crlf. destruct (crlf && (n <? length ls)); [|done]. apply Forall_alter; [done|].
  intros e _ (a & t & E). exists a, t. by rewrite shows_note.
Qed.

Lemma initscript_entry_ok i shown : yields (line_ok i shown) (initscript_entry i shown).
Proof.
  apply yields_bind_any. intros r. eapply yields_bind; [apply entry_made|]. intros e He%made_shows. apply yields_ret.
  apply (line_ok_shows _ _ _ None None). cbv zeta. rewrite shows_gate. set (e' := Entry.note _ _ _).
  assert (E : shows e' = (Kind.Inittab, Enablement.Unknown, Some #"root", (None, None, None))).
  { unfold e'. rewrite shows_note by done. unfold shows in He |- *. cbn [set_target_path set_principal set_trigger e_kind e_enabled e_principal e_raw].
    by injection He as -> -> _ -> -> ->. }
  clearbody e'. injection E as -> _ -> _ -> ->. done.
Qed.

Lemma sysv_ok i shown : yields (Forall (line_ok i shown)) (sysv i shown).
Proof.
  apply yields_bind_any. intros r. apply yields_bind_any. intros template. apply yields_bind_any. intros initscript.
  apply yields_bind_any. intros b. change (match i with Init.SysV d => d | _ => false end) with (reads_tabs i).
  apply (yields_bind (fun st => Forall (pending i) (sy_lines st))).
  { destruct b; [|by apply yields_ret]. apply yields_fold; [done|]. intros st piece _ Hst.
    eapply yields_bind; [by apply take_piece_pending|]. intros st' Hst'. apply yields_ret. by apply note_crlf_pending. }
  intros st Hst. apply yields_bind_any. intros ents. apply (yields_bind (fun st => Forall (pending i) (sy_lines st))).
  { apply yields_fold; [done|]. intros st1 name _ H1. apply yields_bind_any. intros [b1|]; [|by apply yields_ret].
    destruct (find _ _); [by apply take_piece_pending|by apply yields_ret]. }
  intros st' Hst'.
  assert (Hl : Forall (line_ok i shown) (finish_line r i shown (sy_default st') initscript <$> sy_lines st')).
  { apply Forall_fmap. eapply Forall_impl; [exact Hst'|]. intros e He. by apply finish_line_ok. }
  cbv zeta. destruct initscript; [|by apply yields_ret]. eapply yields_bind; [apply initscript_entry_ok|].
  intros e He. apply yields_ret, Forall_app. split; [done|]. by apply Forall_singleton.
Qed.

Definition bb_ok (shown : bytes) (e : Entry.entry) : Prop :=
  line_ok Init.BusyBox shown e /\ e_raw e !! #"action" <> Some #"off".

Lemma line_ok_enabled shown e :
  line_ok Init.BusyBox shown e -> e_enabled e = Enablement.Enabled -> e_raw e !! #"action" <> Some #"off".
Proof. intros [_ _ _ He] E Ha. by rewrite E, Ha in He. Qed.

Lemma bb_entry_ok r crlf shown tty process name trigger i0 e :
  name <> #"off" -> made Kind.Inittab i0 e -> bb_ok shown (busybox_entry r crlf shown tty process name trigger e).
Proof.
  intros Hname Hm. pose proof (busybox_entry_ok r crlf shown tty process name trigger i0 e Hname Hm) as Hl. split; [done|].
  eapply line_ok_enabled; [done|]. unfold busybox_entry. cbv zeta. by destruct crlf.
Qed.
Lemma bb_again_ok shown name trigger e : name <> #"off" -> bb_ok shown e -> bb_ok shown (again name trigger e).
Proof.
  intros Hname [Hl Ha]. split; [by apply again_ok|]. unfold again. cbv zeta.
  rewrite (note_other SHOWN) by (done || apply (bool_decide_eq_true_1 _); done).
  cbn [set_trigger e_raw Entry.note set_raw]. rewrite lookup_insert_eq. congruence.
Qed.

Lemma busybox_ok shown : yields (Forall (line_ok Init.BusyBox shown)) (busybox shown).
Proof.
  apply yields_bind_any. intros [b|]; [|by apply yields_ret].
  apply (yields_bind (fun st => Forall (bb_ok shown) st.2)); [|intros st Hst; apply yields_ret; eapply Forall_impl; [exact Hst|]; by intros e []].
  apply yields_fold; [done|]. intros [seen ls] line _ Hst. unfold busybox_line.
  destruct (busybox_fields line) as [[[tty action] process]|]; [|by apply yields_ret].
  destruct (find _ BUSYBOX_ACTIONS) as [[name trigger]|] eqn:Ef; [|by apply yields_ret].
  apply find_some in Ef as [Hin%list_elem_of_In _]. apply busybox_actions_on in Hin.
  case_bool_decide; [by apply yields_ret|]. cbv zeta. destruct (seen !! _).
  - apply yields_ret. cbn [snd]. apply Forall_alter; [done|]. intros e _. by apply bb_again_ok.
  - apply yields_bind_any. intros r. eapply yields_bind; [apply entry_made|]. intros e He. apply yields_ret. cbn [snd].
    apply Forall_app. split; [done|]. apply Forall_singleton. by eapply bb_entry_ok.
Qed.

(** ** The fields of a line *)

Lemma sysv_actions_named name trigger action :
  find (fun nt => eq_ignore_ascii_case (fst nt) action) SYSV_ACTIONS = Some (name, trigger) ->
  (name, trigger) ∈ SYSV_ACTIONS /\ eq_ignore_ascii_case name action = true.
Proof. intros [Hin%list_elem_of_In E]%find_some. done. Qed.

Lemma line_pieces_ok fuel line :
  length line <= 255 * fuel ->
  mjoin (line_pieces fuel line) = line /\
  exists full last, line_pieces fuel line = full ++ [last] /\ Forall (fun p => length p = 255) full /\ length last < 255.
Proof.
  revert line. induction fuel as [|fuel IH]; intros line Hf; cbn [line_pieces].
  - destruct line; [|cbn in Hf; lia]. split; [done|]. exists [], []. split; [done|]. split; [constructor|cbn; lia].
  - destruct (Nat.ltb_spec 254 (length line)) as [Hlt|Hle].
    + destruct (IH (drop 255 line)) as (Hj & full & last & E & Hfull & Hlast); [rewrite length_drop; lia|]. split.
      * change (mjoin (?x :: ?l)) with (x ++ mjoin l). rewrite Hj. apply take_drop.
      * exists (take 255 line :: full), last. rewrite E. split; [done|]. split; [|done].
        constructor; [|done]. rewrite length_take. lia.
    + split; [cbn; by rewrite app_nil_r|]. exists [], line. split; [done|]. split; [constructor|lia].
Qed.
End inittab_laws.

(** A line of four fields, as init's buffers hold them. *)
Definition sysv_reading (piece : bytes) (ids : gset bytes) (line : sysv_entry) (ids' : gset bytes) : Prop :=
  exists blanks rlevel action,
    piece = blanks ++ sv_id line ++ colon ++ rlevel ++ colon ++ action ++ colon ++ sv_process line /\
    Forall (fun b => blank_byte b = true) blanks /\
    (forall c, head (sv_id line) = Some c -> blank_byte c = false /\ c <> hash_byte) /\
    (":"%byte ∉ sv_id line /\ ":"%byte ∉ rlevel /\ ":"%byte ∉ action) /\
    (1 <= length (sv_id line) <= 4 /\ length rlevel <= 11 /\ 1 <= length action <= 32 /\ length (sv_process line) <= 127) /\
    find (fun nt => eq_ignore_ascii_case (fst nt) action) SYSV_ACTIONS = Some (sv_action line, sv_trigger line) /\
    sv_runlevels line = runlevels_of (sv_action line) rlevel /\
    if bool_decide (sv_id line = #"~~") then ids' = ids else sv_id line ∉ ids /\ ids' = {[sv_id line]} ∪ ids.

Lemma sysv_line_sound piece ids line ids' : sysv_line piece ids = Some (line, ids') -> sysv_reading piece ids line ids'.
Proof.
  unfold sysv_line. cbv zeta. destruct (drop_while_suffix blank_byte piece) as (blanks & Hp & Hb).
  pose proof (drop_while_head blank_byte piece) as Hh. set (p := drop_while blank_byte piece) in *. clearbody p.
  case_bool_decide as Hne; [done|]. cbn [orb]. destruct (starts_with #"#" p) eqn:Es; [done|].
  destruct (split_once colon p) as [[i r1]|] eqn:E1; [|done]. cbn [mbind option_bind].
  destruct (split_once colon r1) as [[rl r2]|] eqn:E2; [|done]. cbn [mbind option_bind].
  destruct (split_once colon r2) as [[a pr]|] eqn:E3; [|done]. cbn [mbind option_bind].
  apply split_once_one in E1 as [-> N1]. apply split_once_one in E2 as [-> N2]. apply split_once_one in E3 as [-> N3].
  destruct (_ || _ || _ || _ || _ || _) eqn:Eb; [done|].
  destruct (find _ SYSV_ACTIONS) as [[name trigger]|] eqn:Ef; [|done]. cbn [mbind option_bind].
  apply orb_false_iff in Eb as [[[[[B1 B2]%orb_false_iff B3]%orb_false_iff B4]%orb_false_iff B5]%orb_false_iff B6].
  apply bool_decide_eq_false in B1, B2. apply Nat.ltb_ge in B3, B4, B5, B6.
  assert (1 <= length i /\ 1 <= length a) by (destruct i, a; cbn; done || lia).
  intros E. exists blanks, rl, a.
  assert (Hid : sv_id line = i /\ sv_process line = pr /\ sv_action line = name /\ sv_trigger line = trigger /\
    sv_runlevels line = runlevels_of name rl /\ if bool_decide (i = #"~~") then ids' = ids else i ∉ ids /\ ids' = {[i]} ∪ ids).
  { revert E. case_bool_decide; [by intros [= <- <-]|]. case_bool_decide; [done|]. by intros [= <- <-]. }
  destruct Hid as (-> & -> & -> & -> & -> & Hids). split_and!; try done; try lia.
  intros c Hc. destruct i as [|c' i]; [done|]. injection Hc as ->. split; [by apply Hh|]. intros ->. by rewrite (proj2 (starts_with_true #"#" _)) in Es; [|eexists].
Qed.

Lemma sysv_line_complete piece ids line ids' : sysv_reading piece ids line ids' -> sysv_line piece ids = Some (line, ids').
Proof.
  intros (blanks & rl & a & -> & Hb & Hh & (N1 & N2 & N3) & (L1 & L2 & L3 & L4) & Ef & Er & Hids).
  unfold sysv_line. change colon with [":"%byte]. cbn [app]. cbv zeta. rewrite drop_while_app_all by done. destruct line as [i rls name trigger pr].
  cbn [sv_id sv_runlevels sv_action sv_trigger sv_process] in *. subst rls.
  rewrite drop_while_id by (intros x Hx; destruct i; [cbn in L1; lia|by apply Hh]).
  rewrite bool_decide_false by (destruct i; [cbn in L1; lia|done]). cbn [orb].
  destruct (starts_with #"#" _) eqn:Es.
  { apply starts_with_true in Es as [r Es]. destruct i as [|c i]; [cbn in L1; lia|]. injection Es as -> _.
    by destruct (Hh hash_byte eq_refl). }
  rewrite (proj2 (split_once_one _ _ i _) (conj eq_refl N1)). cbn [mbind option_bind].
  rewrite (proj2 (split_once_one _ _ rl _) (conj eq_refl N2)). cbn [mbind option_bind].
  rewrite (proj2 (split_once_one _ _ a _) (conj eq_refl N3)). cbn [mbind option_bind].
  rewrite (bool_decide_false (i = [])) by (intros ->; cbn in L1; lia). rewrite (bool_decide_false (a = [])) by (intros ->; cbn in L3; lia).
  cbn [orb]. rewrite !(proj2 (Nat.ltb_ge _ _)) by lia. cbn [orb]. rewrite Ef. cbn [mbind option_bind].
  destruct (bool_decide (i = #"~~")); [by subst ids'|]. destruct Hids as [Hi ->]. by rewrite bool_decide_false.
Qed.

(** ** Properties *)

(** Every entry of the collector is an inittab line run as root, and says
    which init was found; whether it is enabled is decided by that init, by the
    action [off] and, for a file of inittab.d, by whether this init reads such
    files: nothing written in the table itself can make a line count as
    disabled in any other way. *)
Theorem inittab_enabled `{Strerror} `{Blake3} h cx :
  let found := value h cx which_init in Forall (line_ok (fst found) (snd found)) (value h cx collect).
Proof.
  cbv zeta. unfold collect. rewrite value_bind. destruct (value h cx which_init) as [i shown]. cbn [fst snd].
  apply (yields_run (Forall (line_ok i shown))). destruct i; try apply sysv_ok. apply busybox_ok.
Qed.

(** A line of sysvinit's table is accepted exactly when it is four fields
    after blanks, the first three without a colon, no longer than init's
    buffers, with a known action in any case and an id no line before it used
    ([~~] may come again); the fields are then the line's own. *)
Theorem sysv_line_reads piece ids line ids' :
  sysv_line piece ids = Some (line, ids') <-> sysv_reading piece ids line ids'.
Proof. split; [apply sysv_line_sound|apply sysv_line_complete]. Qed.

(** [fgets] with 256 bytes loses nothing of a line and reads none but the
    last short: each line of the table comes in pieces that put together are
    the line, all of 255 bytes but the last. *)
Theorem fgets_pieces_whole b :
  exists ps, fgets_pieces b = mjoin ps /\
    Forall2 (fun line p => mjoin p = line /\
      exists full last, p = full ++ [last] /\ Forall (fun x => length x = 255) full /\ length last < 255)
      (split_on (is_byte newline) b) ps.
Proof.
  exists ((fun line => line_pieces (length line) line) <$> split_on (is_byte newline) b). split.
  { unfold fgets_pieces. induction (split_on _ b) as [|l ls IH]; [done|]. by rewrite bind_cons, IH. }
  apply Forall2_fmap_r, Forall_Forall2_diag, Forall_true. intros line. apply line_pieces_ok. lia.
Qed.

(** A host with sysvinit, a table and a directory of them. *)
Module InittabDemo.
#[local] Instance demo_blake3 : Blake3 := fun x => x.
#[local] Instance demo_strerror : Strerror := fun _ => #"error".
Definition line (l : bytes) : bytes := l ++ [x0a].
Definition tree (init : bytes) (table : bytes) : Tree.tree :=
  [( #"sbin", Tree.Dir 0 0x1ED); ( #"sbin/init", Tree.File 0 0x1ED init);
   ( #"etc", Tree.Dir 0 0x1ED); ( #"etc/inittab", Tree.File 0 0x1A4 table);
   ( #"etc/inittab.d", Tree.Dir 0 0x1ED);
   ( #"etc/inittab.d/x.tab", Tree.File 0 0x1A4 (line #"# a comment" ++ line #"x:2:once:/sbin/x" ++ line #"y:2:once:/sbin/y"))].
Definition table : bytes :=
  line #"# table" ++ line #"id:2:initdefault:" ++ line #"1:2345:respawn:/sbin/getty 38400 tty1" ++
  line #"1:2345:respawn:/sbin/other" ++ line #"p:2:OFF:+/sbin/p; rm x" ++ line #"toolong:2:wait:/x".
Definition busy : bytes :=
  line #"::sysinit:/etc/rc" ++ line #"tty1::askfirst:-/bin/sh" ++ line #"/dev/tty1:x:respawn:-/bin/sh" ++ line #"::off:/bin/true".
Definition seen (init table : bytes) : list (bytes * enablement * option bytes) :=
  (fun e => (e_name e, e_enabled e, e_command e)) <$>
    value (Tree.kernel (tree init table)) (mk_ctx Tree.offline [] [] [] []) collect.
End InittabDemo.

Example inittab_lines :
  InittabDemo.seen #"/etc/inittab inittab.d" InittabDemo.table =
    [( #"1", Enablement.Enabled, Some #"/sbin/getty 38400 tty1"); ( #"p", Enablement.Disabled, Some #"/sbin/p; rm x");
     ( #"x", Enablement.Enabled, Some #"/sbin/x")] /\
  InittabDemo.seen #"/etc/inittab" InittabDemo.table =
    [( #"1", Enablement.Enabled, Some #"/sbin/getty 38400 tty1"); ( #"p", Enablement.Disabled, Some #"/sbin/p; rm x");
     ( #"x", Enablement.Disabled, Some #"/sbin/x")] /\
  InittabDemo.seen #"BusyBox /etc/inittab" InittabDemo.busy =
    [( #"console:/etc/rc", Enablement.Enabled, Some #"/etc/rc"); ( #"tty1:-/bin/sh", Enablement.Enabled, Some #"/bin/sh")].
Proof. by vm_compute. Qed.
