(* ===== verification/CloudInit.v ===== *)
(** [src/collect/cloudinit.rs]: the commands cloud-init's configuration runs,
    and the scripts it runs from its own directories. *)

From S2P Require Import Prelude Slices Order Utf8 Query Pyyaml Yaml Paths Kinds Entry Sys Root Tree Users Scan Collect.

Definition INSTANCE : path := #"var/lib/cloud/instance".
Definition PER_ALWAYS : bytes := #"always".
Definition PER_INSTANCE : bytes := #"once-per-instance".
Definition PER_ONCE : bytes := #"once".
Definition quote : byte := x27.

(** ** Modules *)

(** [form_module_name], without the [cc_] it then prefixes. *)
Definition canonical (name : bytes) : option bytes :=
  let n := (fun c => if bool_decide (c = hyphen) then underscore else c) <$> name in
  let n := if ends_with #".py" (to_ascii_lowercase n) then take (length n - 3) n else n in
  let n := trim n in
  let n := default n (strip_prefix #"cc_" n) in
  if bool_decide (n = []) then None else Some n.

(** One configuration source. *)
Record Source := mk_source { so_rel : path; so_cfg : Value; so_custom_merge : bool; so_jinja : bool }.

(** The first source that has [key]. *)
Definition merged (sources : list Source) (key : bytes) : option nat :=
  position (fun s => bool_decide (is_Some (get (so_cfg s) key))) sources.

Definition Modules : Type := list (bytes * option bytes).
(** A name, [name, frequency, ...] or {name, frequency}. *)
Definition module_item (item : Value) : option bytes * option bytes :=
  match item with
  | VStr n => (Some n, None)
  | VSeq v => (head v ≫= as_str, v !! 1 ≫= as_str)
  | VMap _ => (get item #"name" ≫= as_str, get item #"frequency" ≫= as_str)
  | _ => (None, None)
  end.
Definition read_module (item : Value) : option (bytes * option bytes) :=
  let '(name, freq) := module_item item in
  name ← name ≫= canonical; Some (name, trim <$> freq).
Definition module_list (sources : list Source) (l : bytes) : Modules :=
  match (i ← merged sources l; s ← sources !! i; get (so_cfg s) l) with
  | Some (VSeq items) => omap read_module items
  | _ => []
  end.
Definition MODULE_LISTS : list bytes := [ #"cloud_init_modules"; #"cloud_config_modules"; #"cloud_final_modules"].
Definition read_modules (sources : list Source) : Modules := MODULE_LISTS ≫= module_list sources.

Definition frequency (ms : Modules) (module default_ : bytes) : option bytes :=
  (fun nf => default default_ (snd nf)) <$> find (fun nf => bool_decide (fst nf = module)) ms.

(** ** Commands *)

(** A word as shellify quotes it. *)
Definition quoted (s : bytes) : bytes := [quote] ++ replace_all [quote] ([quote; x5c; quote; quote]) s ++ [quote].
Definition shellify (v : Value) : option bytes :=
  match v with
  | VStr s => Some s
  | VSeq args => join #" " <$> mapM (fun a => quoted <$> python_str a) args
  | _ => None
  end.
(** An item that fails the module. *)
Definition breaks_module (v : Value) : bool :=
  negb (match v with Null => true | _ => false end) && bool_decide (shellify v = None).
(** The program a command starts with, where it is named by its path. *)
Definition first_path (command : bytes) : option path :=
  match trim_by (is_byte quote) <$> head (split_whitespace command) with
  | Some w => if starts_with [slash] w then Some w else None
  | None => None
  end.

(** *** What decides whether cloud-init runs at all *)

Record Gate := mk_gate { g_off : option bytes; g_known : bool }.
Definition apply (g : Gate) (e : Entry.entry) : Entry.entry :=
  let e := if bool_decide (e_enabled e = Enablement.Enabled) && negb (g_known g) then set_enabled e Enablement.Unknown else e in
  match g_off g with
  | Some why => Entry.note (set_enabled e Enablement.Disabled) #"cloud_init_off" why
  | None => e
  end.

Section cloudinit.
Context `{Strerror} `{Blake3} `{Debug} `{Lowercase}.

Definition note_limited (what : bytes) : coll unit := fun cx => Ret (tt, Scan.note_limited cx what).

Definition BINARIES : list path := [ #"usr/bin/cloud-init"; #"bin/cloud-init"; #"usr/local/bin/cloud-init"].
Definition on_the_command_line : coll bool :=
  b ← read #"proc/cmdline";
  mret match b with
       | Some c => mem #"cloud-init=disabled" (split_on is_ascii_whitespace c)
       | None => false
       end.
(** [f] where the root is live. *)
Definition live_and (f : coll bool) : coll bool := r ← the_root; if is_live r then f else mret false.
Definition off_reason : coll (option bytes) :=
  installed ← any_there BINARIES;
  if negb installed then mret (Some #"cloud-init is not installed")
  else
    off ← there #"etc/cloud/cloud-init.disabled";
    if off : bool then mret (Some #"/etc/cloud/cloud-init.disabled exists")
    else
      off ← live_and on_the_command_line;
      if off : bool then mret (Some #"cloud-init=disabled on the kernel command line")
      else
        off ← live_and (there #"run/cloud-init/disabled");
        mret (if off : bool then Some #"the generator disabled it for this boot (no datasource found)" else None).
Definition gate : coll Gate :=
  off ← off_reason;
  match off with
  | Some why => mret (mk_gate (Some why) true)
  | None => known ← live_and (there #"run/cloud-init/enabled"); mret (mk_gate None known)
  end.

(** ** Sources *)

Definition BOM : bytes := [xef; xbb; xbf].
Definition JINJA : bytes := #"## template: jinja".
Definition problem (p : path) (why : bytes) : coll (option Source) :=
  note_limited (display_path p ++ #": " ++ why ++ #"; cloud-init reads it as empty");; mret None.
(** A parse raises, or ends: [yaml_bounded]. *)
Definition message (e : fault) : bytes := match e with Raised why => why | _ => [] end.
Definition has_key (v : Value) (key : bytes) : bool := bool_decide (is_Some (get v key)).
Definition is_jinja (text : bytes) : bool :=
  match head (lines text) with Some l => eq_ignore_ascii_case (trim l) JINJA | None => false end.
Definition load (p : path) : coll (option Source) :=
  b ← read p;
  match b with
  | None => mret None
  | Some b =>
      if negb (is_utf8 b) then problem p #"not UTF-8"
      else
        let text := default b (strip_prefix BOM b) in
        match Yaml.parse text with
        | Ok (Some ((VMap _) as cfg)) =>
            mret (Some (mk_source p cfg (has_key cfg #"merge_how" || has_key cfg #"merge_type") (is_jinja text)))
        | Ok None => mret None
        | Ok (Some _) => problem p #"not a YAML mapping"
        | Err e => problem p (#"not YAML cloud-init can load (" ++ message e ++ #")")
        end
  end.

(** The directory of drop-ins [base] names. *)
Definition conf_dir (base : option Source) : path :=
  match base ≫= (fun s => get (so_cfg s) #"conf_d") with
  | Some (VStr d) => let d := trim d in default d (strip_prefix [slash] d)
  | Some _ => []
  | None => #"etc/cloud/cloud.cfg.d"
  end.
Definition is_cfg (ent : dir_ent) : bool := negb (de_is_dir ent) && ends_with #".cfg" (de_name ent).
Definition sources : coll (list Source) :=
  let rels := path_join INSTANCE <$> [ #"cloud-config.txt"; #"vendor2-cloud-config.txt"; #"vendor-cloud-config.txt"] in
  base ← load #"etc/cloud/cloud.cfg";
  let confd := conf_dir base in
  names ← (if bool_decide (confd = []) then mret []
           else ents ← dir confd; mret (de_name <$> List.filter is_cfg ents));
  out ← map_coll load (rels ++ [ #"run/cloud-init/cloud.cfg"] ++ (path_join confd <$> reverse names));
  mret (omap id out ++ option_list base).

(** ** Whether a module will run *)

Definition semaphore (module freq : bytes) : option path :=
  if bool_decide (freq = PER_ALWAYS) then None
  else Some (if bool_decide (freq = PER_ONCE) then #"var/lib/cloud/sem/config_" ++ module ++ #".once"
             else INSTANCE ++ #"/sem/config_" ++ module).
Definition runs (ms : Modules) (module default_ : bytes) : coll (result bytes bytes) :=
  match frequency ms module default_ with
  | None => mret (Err (module ++ #" is in no module list"))
  | Some freq =>
      ran ← match semaphore module freq with None => mret false | Some s => there s end;
      mret (if ran : bool then Err (module ++ #" has run (" ++ freq ++ #"); runs again only for a new instance") else Ok freq)
  end.

Definition at_boot (e : Entry.entry) : Entry.entry := set_principal (set_trigger e Trigger.Boot) (Some #"root").
(** What the module says of the entry. *)
Definition note_run (run : result bytes bytes) (e : Entry.entry) : Entry.entry :=
  match run with
  | Ok freq => Entry.note e #"frequency" freq
  | Err why => Entry.note (set_enabled e Enablement.Disabled) #"not_run" why
  end.
Definition not_run (why : bytes) (e : Entry.entry) : Entry.entry := Entry.note (set_enabled e Enablement.Disabled) #"not_run" why.

(** A source that lost [key] to the one at [by_]. *)
Definition supersede (key : bytes) (custom_merge : bool) (by_ : path) (e : Entry.entry) : Entry.entry :=
  let by_ := [slash] ++ display_path by_ in
  if custom_merge then
    let e := if bool_decide (e_enabled e = Enablement.Enabled) then set_enabled e Enablement.Unknown else e in
    Entry.note e #"merge" (#"sets merge_how; may add to " ++ by_)
  else Entry.note (set_enabled e Enablement.Disabled) #"superseded" (by_ ++ #" sets " ++ key ++ #" first").

Definition BROKEN (key : bytes) : bytes := #"an item in this " ++ key ++ #" is neither a string nor a list, which fails the module".
Definition command_facts (g : Gate) (key module command : bytes) (s : Source) (run : result bytes bytes) (broken : bool)
    (by_ : option path) (e : Entry.entry) : Entry.entry :=
  let e := Entry.note (Entry.note (at_boot e) #"key" key) #"module" module in
  let e := match first_path command with Some w => set_target_path e (Some w) | None => e end in
  let e := set_enabled (with_command e (Some command)) Enablement.Enabled in
  let e := if so_jinja s then Entry.note e #"jinja" #"a template cloud-init renders first; read as written" else e in
  let e := note_run run e in
  let e := if broken then not_run (BROKEN key) e else e in
  let e := match by_ with Some by_ => supersede key (so_custom_merge s) by_ e | None => e end in
  apply g e.

(** The source that has [key] first, where it is not the one at [i]. *)
Definition winner_over (sources : list Source) (key : bytes) (i : nat) : option path :=
  w ← merged sources key;
  if bool_decide (w = i) then None else so_rel <$> sources !! w.
Definition list_runs (ms : Modules) (key module : bytes) : coll (result bytes bytes) :=
  if bool_decide (key = #"runcmd") then
    run ← runs ms #"runcmd" PER_INSTANCE;
    match run with Ok _ => runs ms #"scripts_user" PER_INSTANCE | Err why => mret (Err why) end
  else runs ms module PER_ALWAYS.
Definition commands (sources : list Source) (ms : Modules) (g : Gate) (key module : bytes) (i : nat) (s : Source) (l : Value)
    : coll (list Entry.entry) :=
  match l with
  | VSeq items =>
      run ← list_runs ms key module;
      map_coll (fun command =>
        e ← entry Kind.CloudInit (so_rel s) (key ++ #":" ++ take 12 (blake3_hex command));
        mret (command_facts g key module command s run (existsb breaks_module items) (winner_over sources key i) e))
        (omap shellify items)
  | _ =>
      note_limited (display_path (so_rel s) ++ #": " ++ key ++ #" is not a list; cloud-init fails the module");; mret []
  end.

(** ** Scripts *)

Definition SCRIPT_DIRS : list (path * bytes * bytes) :=
  [( #"var/lib/cloud/scripts/per-boot", #"scripts_per_boot", PER_ALWAYS);
   ( #"var/lib/cloud/scripts/per-instance", #"scripts_per_instance", PER_INSTANCE);
   ( #"var/lib/cloud/scripts/per-once", #"scripts_per_once", PER_ONCE);
   ( #"var/lib/cloud/instance/scripts", #"scripts_user", PER_INSTANCE);
   ( #"var/lib/cloud/instance/scripts/vendor", #"scripts_vendor", PER_INSTANCE)].

Definition script_facts (r : root) (g : Gate) (module : bytes) (p : path) (run : result bytes bytes) (mode : N) (e : Entry.entry)
    : Entry.entry :=
  let e := set_target_path (at_boot e) (Some (abs r p)) in
  let e := note_run run (set_enabled (Entry.note e #"module" module) Enablement.Enabled) in
  let e := if bool_decide (N.land mode 0x49 = 0%N) then not_run #"not executable; runparts skips it" e else e in
  apply g e.
(** The regular file a name leads to. *)
Definition regular (p : path) : coll (option meta) :=
  m ← lift (fun r => stat_follow r p);
  mret match m with Ok m => if m_is_file m then Some m else None | Err _ => None end.
Definition script (g : Gate) (d : path) (module : bytes) (run : result bytes bytes) (out : list Entry.entry) (ent : dir_ent)
    : coll (list Entry.entry) :=
  let p := path_join d (de_name ent) in
  m ← regular p;
  match m with
  | None => mret out
  | Some m =>
      r ← the_root;
      e ← entry Kind.CloudInit p (from_utf8_lossy (de_name ent));
      mret (out ++ [script_facts r g module p run (m_mode m) e])
  end.
Definition script_dir (ms : Modules) (g : Gate) (out : list Entry.entry) (x : path * bytes * bytes) : coll (list Entry.entry) :=
  let '(d, module, default_) := x in
  run ← runs ms module default_;
  ents ← dir d;
  fold_coll (script g d module run) out ents.
Definition scripts (ms : Modules) (g : Gate) (out : list Entry.entry) : coll (list Entry.entry) :=
  fold_coll (script_dir ms g) out SCRIPT_DIRS.

(** ** What user data leaves *)

Definition BOOTHOOK : bytes := #"boothook".
Definition HOOK_DIRS : list (path * bytes * bytes) :=
  [( #"var/lib/cloud/handlers", #"handler", #"imported by cloud-init on every boot");
   ( #"var/lib/cloud/instance/handlers", #"part-handler", #"written from user data and imported on every boot");
   ( #"var/lib/cloud/instance/boothooks", BOOTHOOK, #"written from user data and run on every boot")].

(** The name Python imports a file by. *)
Definition python_module (name : bytes) : option bytes :=
  m ← trim <$> strip_suffix #".py" name;
  if bool_decide (m = []) || existsb (is_byte ".") m then None else Some m.
Definition hook_facts (r : root) (g : Gate) (what how name : bytes) (p : path) (e : Entry.entry) : Entry.entry :=
  let e := set_target_path (at_boot e) (Some (abs r p)) in
  let e := Entry.note (Entry.note (Entry.note e #"hook" what) #"frequency" PER_ALWAYS) #"runs" how in
  let e := match python_module name with Some m => Entry.note e #"python_module" m | None => e end in
  apply g (set_enabled e Enablement.Enabled).
Definition hook (g : Gate) (d : path) (what how : bytes) (out : list Entry.entry) (ent : dir_ent) : coll (list Entry.entry) :=
  let name := from_utf8_lossy (de_name ent) in
  let p := path_join d (de_name ent) in
  m ← regular p;
  match m with
  | None => mret out
  | Some _ =>
      if negb (bool_decide (what = BOOTHOOK)) && bool_decide (python_module name = None) then mret out
      else
        r ← the_root;
        e ← entry Kind.CloudInit p (what ++ #":" ++ name);
        mret (out ++ [hook_facts r g what how name p e])
  end.
Definition hook_dir (g : Gate) (out : list Entry.entry) (x : path * bytes * bytes) : coll (list Entry.entry) :=
  let '(d, what, how) := x in
  ents ← dir d;
  fold_coll (hook g d what how) out ents.

Definition SEED : path := #"var/lib/cloud/seed".
Definition format_of (b : bytes) : bytes := trim (from_utf8_lossy (take 80 (default [] (head (split_on (is_byte newline) b))))).
Definition seed_facts (r : root) (g : Gate) (datasource b : bytes) (p : path) (e : Entry.entry) : Entry.entry :=
  let e := set_target_path (at_boot e) (Some (abs r p)) in
  let e := Entry.note (Entry.note (Entry.note e #"hook" #"seed") #"datasource" datasource) #"format" (format_of b) in
  apply g (set_enabled e Enablement.Enabled).
Definition seed_file (g : Gate) (seed : bytes) (out : list Entry.entry) (file : bytes) : coll (list Entry.entry) :=
  let p := path_join (path_join SEED seed) file in
  b ← read_capped p 4096;
  match b with
  | None => mret out
  | Some b =>
      r ← the_root;
      e ← entry Kind.CloudInit p (#"seed:" ++ from_utf8_lossy seed ++ #":" ++ file);
      mret (out ++ [seed_facts r g (from_utf8_lossy seed) b p e])
  end.
Definition seed_dir (g : Gate) (out : list Entry.entry) (ent : dir_ent) : coll (list Entry.entry) :=
  if de_is_dir ent then fold_coll (seed_file g (de_name ent)) out [ #"user-data"; #"vendor-data"] else mret out.
Definition hooks (g : Gate) (out : list Entry.entry) : coll (list Entry.entry) :=
  out ← fold_coll (hook_dir g) out HOOK_DIRS;
  ents ← dir SEED;
  fold_coll (seed_dir g) out ents.

(** ** The collector *)

Definition source_commands (ss : list Source) (ms : Modules) (g : Gate) (key : bytes) (out : list Entry.entry)
    (x : nat * Source) : coll (list Entry.entry) :=
  match get (so_cfg (snd x)) key with
  | None => mret out
  | Some l => es ← commands ss ms g key key (fst x) (snd x) l; mret (out ++ es)
  end.
Definition key_commands (ss : list Source) (ms : Modules) (g : Gate) (out : list Entry.entry) (key : bytes) : coll (list Entry.entry) :=
  fold_coll (source_commands ss ms g key) out (imap pair ss).
Definition collect : coll (list Entry.entry) :=
  here ← any_there [ #"etc/cloud"; #"var/lib/cloud"];
  if negb here then mret []
  else
    g ← gate;
    ss ← sources;
    let ms := read_modules ss in
    out ← fold_coll (key_commands ss ms g) [] [ #"bootcmd"; #"runcmd"];
    out ← scripts ms g out;
    hooks g out.
End cloudinit.
