(* ===== verification/CloudInitLaws.v ===== *)
(** [src/collect/cloudinit.rs]: the laws of the collector. A list of words is
    quoted so that a shell reads the words back; a command runs only where all
    that decides it says so; nothing is enabled on a host where cloud-init is
    off. *)

From S2P Require Import Prelude Slices Order Utf8 Query Pyyaml Yaml Paths Kinds Entry Sys Root Tree Users Scan Collect CloudInit.

(** ** A shell reading words *)

(** What a POSIX shell makes of blanks, quotes and backslashes: [SBetween] two
    words, [SBare] in one, [SEscaped] after a backslash, [SQuoted] within single
    quotes. *)
Inductive shell_state :=
| SBetween (done : list bytes)
| SBare (done : list bytes) (w : bytes)
| SEscaped (done : list bytes) (w : bytes)
| SQuoted (done : list bytes) (w : bytes).
Definition shell_start (done : list bytes) (w c : bytes) : shell_state :=
  if bool_decide (c = [quote]) then SQuoted done w
  else if bool_decide (c = [x5c]) then SEscaped done w
  else SBare done (w ++ c).
Definition shell_step (s : shell_state) (c : byte) : shell_state :=
  match s with
  | SBetween done => if is_byte " " c then SBetween done else shell_start done [] [c]
  | SBare done w => if is_byte " " c then SBetween (done ++ [w]) else shell_start done w [c]
  | SEscaped done w => SBare done (w ++ [c])
  | SQuoted done w => if is_byte quote c then SBare done w else SQuoted done (w ++ [c])
  end.
(** The words of a line, if its quotes close. *)
Definition shell_words (line : bytes) : option (list bytes) :=
  match foldl shell_step (SBetween []) line with
  | SBetween done => Some done
  | SBare done w => Some (done ++ [w])
  | _ => None
  end.

Definition swap (q : byte) (to : bytes) (c : byte) : bytes := if bool_decide (c = q) then to else [c].
Lemma swap_none q to l : q ∉ l -> l ≫= swap q to = l.
Proof.
  induction l as [|c l IH]; [done|]. intros [Hc Hl]%not_elem_of_cons. rewrite bind_cons, IH by done. unfold swap.
  by rewrite bool_decide_false by congruence.
Qed.
Lemma replace_byte q to l : replace_all [q] to l = l ≫= swap q to.
Proof.
  unfold replace_all. enough (G : forall n l, length l <= n -> replace_fuel n [q] to l = l ≫= swap q to) by by apply G.
  clear l. induction n as [|n IH]; intros l Hn; [by destruct l; [|cbn in Hn; lia]|]. cbn [replace_fuel].
  destruct (split_once [q] l) as [[a r]|] eqn:E.
  - apply split_once_one in E as [-> Ha]. rewrite length_app in Hn. cbn [length] in Hn.
    rewrite bind_app, bind_cons, (swap_none q to a Ha), IH by lia. unfold swap at 2. by rewrite bool_decide_true.
  - symmetry. apply swap_none. intros (a & r & ->)%list_elem_of_split. by apply (split_once_None_app [q] _ a r) in E.
Qed.

(** A quoted word read: back in the word it stands in. *)
Lemma read_swapped done w s : foldl shell_step (SQuoted done w) (s ≫= swap quote [quote; x5c; quote; quote]) = SQuoted done (w ++ s).
Proof.
  revert w. induction s as [|c s IH]; intros w; [by rewrite app_nil_r|]. rewrite bind_cons, foldl_app.
  replace (foldl shell_step (SQuoted done w) (swap quote [quote; x5c; quote; quote] c)) with (SQuoted done (w ++ [c])).
  - by rewrite IH, <- app_assoc.
  - unfold swap. case_bool_decide as E; [by subst c|]. cbn [foldl shell_step]. unfold is_byte. by rewrite bool_decide_false.
Qed.
Lemma read_quoted done s : foldl shell_step (SBetween done) (quoted s) = SBare done s.
Proof.
  unfold quoted. rewrite replace_byte, !foldl_app. cbn [foldl shell_step]. change (is_byte " " quote) with false. cbn iota.
  change (shell_start done [] [quote]) with (SQuoted done []). by rewrite read_swapped.
Qed.
Lemma read_line done ws w : foldl shell_step (SBetween done) (join #" " (quoted <$> (w :: ws))) = SBare (done ++ take (length ws) (w :: ws)) (List.last (w :: ws) []).
Proof.
  revert done w. induction ws as [|v ws IH]; intros done w; [cbn [fmap list_fmap join take length]; by rewrite app_nil_r, read_quoted|].
  replace (join #" " (quoted <$> w :: v :: ws)) with (quoted w ++ #" " ++ join #" " (quoted <$> v :: ws)) by done.
  rewrite !foldl_app, read_quoted. change (foldl shell_step (SBare done w) #" ") with (SBetween (done ++ [w])). rewrite IH.
  cbn [length take List.last]. by rewrite <- app_assoc.
Qed.
Lemma shell_words_quoted ws : shell_words (join #" " (quoted <$> ws)) = Some ws.
Proof.
  destruct ws as [|w ws]; [done|]. unfold shell_words. rewrite read_line. f_equal.
  rewrite (app_removelast_last [] (l := w :: ws)) at 3 by done. rewrite app_nil_l. f_equal.
  rewrite removelast_firstn_len. cbn [length Nat.pred]. done.
Qed.
Lemma mapM_quoted args : mapM (fun a => quoted <$> python_str a) args = fmap quoted <$> mapM python_str args.
Proof.
  induction args as [|a args IH]; [done|]. cbn [mapM]. rewrite IH. destruct (python_str a); [|done]. cbn. by destruct (mapM python_str args).
Qed.


(** ** What reading leaves alone *)

Section cloud_laws.
Context `{Strerror} `{Blake3} `{Debug} `{Lowercase}.

Lemma stays_note_limited w : stays (note_limited w).
Proof. by intros cx. Qed.
Hint Resolve stays_note_limited : stays.
Lemma stays_live_and f : stays f -> stays (live_and f).
Proof. intros Hf. unfold live_and. apply stays_bind; [apply stays_root|]. intros r. case_match; [done|apply stays_ret]. Qed.
Lemma stays_command_line : stays on_the_command_line.
Proof. unfold on_the_command_line. solve_stays. Qed.
Hint Resolve stays_live_and stays_command_line : stays.
Lemma stays_runs ms m d : stays (runs ms m d).
Proof. unfold runs. solve_stays. Qed.
Hint Resolve stays_runs : stays.
Lemma stays_list_runs ms key m : stays (list_runs ms key m).
Proof. unfold list_runs. solve_stays. Qed.
Hint Resolve stays_list_runs : stays.
Lemma stays_source_commands ss ms g key out x : stays (source_commands ss ms g key out x).
Proof. unfold source_commands, commands. solve_stays. Qed.

(** ** Whether cloud-init runs *)

(** All that lets it: a live root on which it is installed, no file that
    disables it, no word on the kernel's command line, and the generator's own
    record that it enabled it. *)
Record may_run (h : snapshot) (r : root) : Prop := mk_may_run {
  mr_live : is_live r = true;
  mr_installed : exists p, p ∈ BINARIES /\ holds h r p = true;
  mr_file : holds h r #"etc/cloud/cloud-init.disabled" = false;
  mr_command_line : forall c, file_text h r #"proc/cmdline" = Some c -> #"cloud-init=disabled" ∉ split_on is_ascii_whitespace c;
  mr_not_disabled : holds h r #"run/cloud-init/disabled" = false;
  mr_enabled : holds h r #"run/cloud-init/enabled" = true
}.

Lemma value_live_and h cx f : value h cx (live_and f) = is_live (cx_root cx) && value h cx f.
Proof. unfold live_and. rewrite value_bind. change (value h cx the_root) with (cx_root cx). change (after h cx the_root) with cx. by destruct (is_live _). Qed.
Lemma gate_may_run h cx : let g := value h cx gate in g_off g = None -> g_known g = true -> may_run h (cx_root cx).
Proof.
  cbv zeta. unfold gate. rewrite value_bind. set (cx1 := after h cx off_reason).
  assert (Hs : stays off_reason) by (unfold off_reason; solve_stays).
  assert (Hr1 : cx_root cx1 = cx_root cx) by by apply after_root.
  destruct (value h cx off_reason) as [why|] eqn:Eo; [done|]. rewrite value_bind, value_live_and, value_there, Hr1. intros _ Hk.
  change (is_live (cx_root cx) && holds h (cx_root cx) #"run/cloud-init/enabled" = true) in Hk. apply andb_true_iff in Hk as [Hl Hk].
  revert Eo. unfold off_reason. rewrite value_bind, value_any_there, after_any_there. destruct (existsb _ BINARIES) eqn:Eb; [|done]. cbn [negb].
  rewrite value_bind, value_there, after_there. destruct (holds h (cx_root cx) #"etc/cloud/cloud-init.disabled") eqn:Ef; [done|].
  rewrite value_bind, value_live_and, Hl. cbn [andb]. set (cx2 := after h cx (live_and on_the_command_line)).
  assert (Hr2 : cx_root cx2 = cx_root cx) by (apply after_root; auto with stays).
  unfold on_the_command_line at 1. rewrite value_bind.
  change (value h cx (read #"proc/cmdline")) with (value h cx (read_capped #"proc/cmdline" READ_CAP)). rewrite value_read_capped.
  match goal with |- context [value h ?c (mret ?x)] => change (value h c (mret x)) with x end.
  destruct (match file_text _ _ _ with Some c => _ | None => false end) eqn:Ec; [done|].
  rewrite value_bind, value_live_and, value_there, Hr2, Hl. cbn [andb].
  destruct (holds h (cx_root cx) #"run/cloud-init/disabled") eqn:Ed; [done|]. intros _. split; try done.
  - apply existsb_exists in Eb as (p & Hp%list_elem_of_In & Hh). by exists p.
  - intros c Hc. rewrite Hc in Ec. by apply bool_decide_eq_false in Ec.
Qed.

(** ** What every entry shows *)

Definition shows_boot (e : Entry.entry) : Prop := e_kind e = Kind.CloudInit /\ e_trigger e = Trigger.Boot /\ e_principal e = Some #"root".
Record gated (g : Gate) (e : Entry.entry) : Prop := mk_gated {
  ga_boot : shows_boot e;
  ga_on : e_enabled e = Enablement.Enabled -> g_off g = None /\ g_known g = true;
  ga_off : forall why, g_off g = Some why -> e_enabled e = Enablement.Disabled /\ e_raw e !! #"cloud_init_off" = Some why
}.
Lemma apply_gated g e : shows_boot e -> gated g (apply g e).
Proof.
  intros Hb. split.
  - unfold apply. by destruct (_ && _), (g_off g).
  - unfold apply. destruct (g_off g); [by destruct (_ && _)|]. intros He. split; [done|]. revert He.
    destruct (g_known g); [done|]. cbn [negb]. rewrite andb_true_r. by case_bool_decide.
  - intros why Eo. unfold apply. rewrite Eo. cbn. by simplify_map_eq.
Qed.
Lemma shows_at_boot name e : made Kind.CloudInit name e -> shows_boot (at_boot e).
Proof. by intros []. Qed.
Lemma shows_note_run run e : shows_boot e -> shows_boot (note_run run e).
Proof. by destruct run. Qed.
Lemma command_facts_gated name g key m c s run broken by_ e : made Kind.CloudInit name e ->
  gated g (command_facts g key m c s run broken by_ e).
Proof.
  intros Hb%shows_at_boot. unfold command_facts, supersede, not_run, note_run. apply apply_gated.
  destruct (first_path c), (so_jinja s), run, broken, by_, (so_custom_merge s); try exact Hb; by case_match.
Qed.
Lemma script_facts_gated name r g m p run mode e : made Kind.CloudInit name e -> gated g (script_facts r g m p run mode e).
Proof. intros Hb%shows_at_boot. apply apply_gated. unfold not_run, note_run. by destruct run, (bool_decide _). Qed.
Lemma hook_facts_gated name r g what how n p e : made Kind.CloudInit name e -> gated g (hook_facts r g what how n p e).
Proof. intros Hb%shows_at_boot. apply apply_gated. by destruct (python_module n). Qed.
Lemma seed_facts_gated name r g d b p e : made Kind.CloudInit name e -> gated g (seed_facts r g d b p e).
Proof. intros Hb%shows_at_boot. by apply apply_gated. Qed.

Lemma snoc_gated g out e : Forall (gated g) out -> gated g e -> Forall (gated g) (out ++ [e]).
Proof. intros Ho He. apply Forall_app. split; [done|by constructor]. Qed.
Lemma commands_gated ss ms g key m i s l : yields (Forall (gated g)) (commands ss ms g key m i s l).
Proof.
  destruct l as [| | | | |items|]; try (apply yields_bind_any; intros; by apply yields_ret).
  apply yields_bind_any. intros run. apply yields_map. intros c _. eapply yields_bind; [apply entry_made|].
  intros e He. by eapply yields_ret, command_facts_gated.
Qed.
Lemma scripts_gated ms g out : Forall (gated g) out -> yields (Forall (gated g)) (scripts ms g out).
Proof.
  intros Ho. apply yields_fold; [done|]. intros o [[d m] df] _ Ho1. apply yields_bind_any. intros run. apply yields_bind_any. intros ents.
  apply yields_fold; [done|]. intros o2 ent _ Ho2. apply yields_bind_any. intros [mt|]; [|by apply yields_ret].
  apply yields_bind_any. intros r. eapply yields_bind; [apply entry_made|]. intros e He.
  apply yields_ret, snoc_gated; [done|]. by eapply script_facts_gated.
Qed.
Lemma hooks_gated g out : Forall (gated g) out -> yields (Forall (gated g)) (hooks g out).
Proof.
  intros Ho. apply (yields_bind (Forall (gated g))).
  - apply yields_fold; [done|]. intros o [[d w] how] _ Ho1. apply yields_bind_any. intros ents. apply yields_fold; [done|].
    intros o2 ent _ Ho2. apply yields_bind_any. intros [mt|]; [|by apply yields_ret]. destruct (_ && _); [by apply yields_ret|].
    apply yields_bind_any. intros r. eapply yields_bind; [apply entry_made|]. intros e He.
    apply yields_ret, snoc_gated; [done|]. by eapply hook_facts_gated.
  - intros o Ho1. apply yields_bind_any. intros ents. apply yields_fold; [done|]. intros o2 ent _ Ho2. unfold seed_dir.
    destruct (de_is_dir ent); [|by apply yields_ret]. apply yields_fold; [done|]. intros o3 f _ Ho3. apply yields_bind_any.
    intros [b|]; [|by apply yields_ret]. apply yields_bind_any. intros r. eapply yields_bind; [apply entry_made|]. intros e He.
    apply yields_ret, snoc_gated; [done|]. by eapply seed_facts_gated.
Qed.
Lemma after_gate_gated g : yields (Forall (gated g))
  (ss ← sources; out ← fold_coll (key_commands ss (read_modules ss) g) [] [ #"bootcmd"; #"runcmd"];
   out ← scripts (read_modules ss) g out; hooks g out).
Proof.
  apply yields_bind_any. intros ss. apply (yields_bind (Forall (gated g))).
  - apply yields_fold; [by constructor|]. intros o key _ Ho. apply yields_fold; [done|]. intros o2 x _ Ho2. unfold source_commands.
    destruct (get _ key) as [l|]; [|by apply yields_ret]. eapply yields_bind; [apply commands_gated|]. intros es He.
    apply yields_ret, Forall_app. by split.
  - intros o Ho. eapply yields_bind; [by apply scripts_gated|]. intros o2 Ho2. by apply hooks_gated.
Qed.
End cloud_laws.

(** C36. Whatever cloud-init's directories hold, each entry of the collector is
    something root starts at boot, and is enabled only where all that decides
    it lets cloud-init run: a live root with cloud-init installed, no
    [cloud-init.disabled], no [cloud-init=disabled] on the kernel's command line,
    and the generator's own record that it enabled it and none that it did not.
    Where there is a reason it does not run, every entry is disabled and says
    why. *)
Theorem cloud_enabled_known `{Strerror} `{Blake3} `{Debug} `{Lowercase} h cx :
  Forall (fun e =>
    shows_boot e /\
    (e_enabled e = Enablement.Enabled -> may_run h (cx_root cx)) /\
    (forall why, g_off (value h cx gate) = Some why -> e_enabled e = Enablement.Disabled /\ e_raw e !! #"cloud_init_off" = Some why))
    (value h cx collect).
Proof.
  unfold collect. rewrite value_bind, value_any_there, after_any_there. destruct (existsb _ _); [|by constructor]. cbn [negb].
  rewrite value_bind. pose proof (gate_may_run h cx) as Hg. cbv zeta in Hg. generalize (after h cx gate). intros cx'.
  generalize (value h cx gate) Hg. clear Hg. intros g Hg. pose proof (yields_run _ _ h cx' (after_gate_gated g)) as Hl.
  eapply Forall_impl; [exact Hl|].
  intros e [Hb Hon Hoff]. split; [done|]. split; [|done]. intros [Ho Hk]%Hon. by apply Hg.
Qed.

(** ** Which commands run *)

Section commands.
Context `{Strerror} `{Blake3} `{Debug} `{Lowercase}.

(** The items of a source under [key]. *)
Definition items_of (key : bytes) (s : Source) : list Value :=
  match get (so_cfg s) key with Some (VSeq items) => items | _ => [] end.
(** Every command a list of [key] holds, with the place of its source. *)
Definition listed (key : bytes) (xs : list (nat * Source)) : list (nat * Source * bytes) :=
  xs ≫= fun x => pair x <$> omap shellify (items_of key (snd x)).

(** The state of a command: [lost] where another source has the key first. *)
Definition command_state (g : Gate) (runs_ broken lost custom : bool) : enablement :=
  if bool_decide (is_Some (g_off g)) then Enablement.Disabled
  else if negb runs_ || broken || (lost && negb custom) then Enablement.Disabled
  else if lost || negb (g_known g) then Enablement.Unknown
  else Enablement.Enabled.
Definition is_some {A} (o : option A) : bool := match o with Some _ => true | None => false end.

Lemma command_facts_state g key m c s run broken by_ e :
  let e' := command_facts g key m c s run broken by_ e in
  e_command e' = Some c /\ e_name e' = e_name e /\
  e_enabled e' = command_state g (is_ok run) broken (is_some by_) (so_custom_merge s).
Proof.
  cbv zeta. unfold command_facts. set (e0 := if so_jinja s then _ else _).
  assert (E0 : e_enabled e0 = Enablement.Enabled /\ e_command e0 = Some c /\ e_name e0 = e_name e).
  { unfold e0. by destruct (so_jinja s), (first_path c). }
  clearbody e0. destruct E0 as (He & Hc & Hn). set (e1 := match by_ with Some _ => _ | None => _ end).
  assert (E1 : e_command e1 = Some c /\ e_name e1 = e_name e /\ e_enabled e1 =
    if negb (is_ok run) || broken || (is_some by_ && negb (so_custom_merge s)) then Enablement.Disabled
    else if is_some by_ then Enablement.Unknown else Enablement.Enabled).
  { unfold e1, supersede, not_run, note_run. destruct run, broken, by_, (so_custom_merge s); cbn; rewrite ?He; done. }
  clearbody e1. destruct E1 as (Hc1 & Hn1 & He1). unfold apply, command_state. rewrite He1.
  destruct (g_off g), (negb (is_ok run) || broken || (is_some by_ && negb (so_custom_merge s))), (is_some by_), (g_known g); done.
Qed.

(** Whether the modules that run a list of [key] will, and are listed. *)
Definition module_ready (h : snapshot) (r : root) (ms : Modules) (m default_ : bytes) : bool :=
  match frequency ms m default_ with
  | Some freq => negb match semaphore m freq with Some s => holds h r s | None => false end
  | None => false
  end.
Definition list_ready (h : snapshot) (r : root) (ms : Modules) (key : bytes) : bool :=
  if bool_decide (key = #"runcmd") then module_ready h r ms #"runcmd" PER_INSTANCE && module_ready h r ms #"scripts_user" PER_INSTANCE
  else module_ready h r ms key PER_ALWAYS.
Lemma value_runs h cx ms m d : is_ok (value h cx (runs ms m d)) = module_ready h (cx_root cx) ms m d.
Proof.
  unfold runs, module_ready. destruct (frequency ms m d) as [freq|]; [|done]. rewrite value_bind.
  destruct (semaphore m freq) as [s|]; [rewrite value_there; by destruct (holds _ _ s)|done].
Qed.
Lemma value_list_runs h cx ms key : is_ok (value h cx (list_runs ms key key)) = list_ready h (cx_root cx) ms key.
Proof.
  unfold list_runs, list_ready. case_bool_decide; [|apply value_runs]. rewrite value_bind.
  pose proof (value_runs h cx ms #"runcmd" PER_INSTANCE) as E. destruct (value h cx (runs ms #"runcmd" PER_INSTANCE)) as [f|w]; cbn [is_ok] in E; rewrite <- E.
  - rewrite value_runs. by rewrite (after_root h cx) by apply stays_runs.
  - done.
Qed.

Lemma merged_Some ss key i s : ss !! i = Some s -> is_Some (get (so_cfg s) key) ->
  is_some (winner_over ss key i) = negb (bool_decide (merged ss key = Some i)).
Proof.
  intros Hi Hk. unfold winner_over. destruct (merged ss key) as [w|] eqn:Ew.
  - cbn [mbind option_bind]. apply position_Some in Ew as [Hw _]. apply lookup_lt_is_Some in Hw as [sw Hw].
    destruct (decide (w = i)) as [->|Hne]; [by rewrite !bool_decide_true|]. rewrite !bool_decide_false by congruence. by rewrite Hw.
  - apply position_None in Ew. eapply Forall_lookup_1 in Ew; [|done]. by apply bool_decide_eq_false in Ew.
Qed.

(** What is decided of a command. *)
Record decided (g : Gate) (ready : bool) (ss : list Source) (key : bytes) (x : nat * Source * bytes) (e : Entry.entry) : Prop := mk_decided {
  de_command : e_command e = Some (snd x);
  de_name : e_name e = key ++ #":" ++ take 12 (blake3_hex (snd x));
  de_enabled : e_enabled e = command_state g ready (existsb breaks_module (items_of key (snd (fst x))))
    (negb (bool_decide (merged ss key = Some (fst (fst x))))) (so_custom_merge (snd (fst x)))
}.
Lemma value_commands h cx ss ms g key i s : ss !! i = Some s -> is_Some (get (so_cfg s) key) ->
  Forall2 (decided g (list_ready h (cx_root cx) ms key) ss key) (listed key [(i, s)])
    (value h cx (commands ss ms g key key i s (default Null (get (so_cfg s) key)))).
Proof.
  intros Hi [l Hk]. unfold listed. cbn [mbind list_bind]. rewrite app_nil_r. cbn [snd]. unfold items_of. rewrite Hk. cbn [default from_option id].
  destruct l as [| | | | |items|]; try by constructor. cbn [commands]. rewrite value_bind.
  pose proof (value_list_runs h cx ms key) as Er. destruct (value h cx (list_runs ms key key)) as [] eqn:Ev; cbn [is_ok] in Er.
  all: apply Forall2_fmap_l.
  all: apply (yields_run (Forall2 _ (omap shellify items))), yields_map2; intros c; eapply yields_bind; [apply entry_made|]; intros en He; apply yields_ret.
  all: destruct (command_facts_state g key key c s (value h cx (list_runs ms key key)) (existsb breaks_module items) (winner_over ss key i) en) as (H1' & H2' & H3').
  all: rewrite Ev in *.
  all: split; cbn [fst snd]; [done|by rewrite H2'; destruct He|].
  all: rewrite H3', (merged_Some _ _ _ s) by (done || by eexists); unfold items_of; by rewrite Hk, <- Er.
Qed.

Lemma listed_app key l r : listed key (l ++ r) = listed key l ++ listed key r.
Proof. apply bind_app. Qed.
Definition is_source (ss : list Source) (x : nat * Source) : Prop := ss !! fst x = Some (snd x).
Lemma source_commands_decided h cx ss ms g key out x : is_source ss x ->
  exists es, value h cx (source_commands ss ms g key out x) = out ++ es /\
    Forall2 (decided g (list_ready h (cx_root cx) ms key) ss key) (listed key [x]) es.
Proof.
  destruct x as [i s]. intros Hi. unfold source_commands. cbn [fst snd]. destruct (get (so_cfg s) key) as [l|] eqn:Ek.
  - rewrite value_bind. eexists. split; [done|]. pose proof (value_commands h cx ss ms g key i s Hi) as Hc. rewrite Ek in Hc. by apply Hc.
  - exists []. rewrite app_nil_r. split; [done|]. unfold listed, items_of. cbn. rewrite Ek. constructor.
Qed.
End commands.

(** C37. Of the lists of commands the sources hold under a key, in their order,
    each item that is a command gives one entry, which keeps the command as
    [shellify] writes it. It is enabled only in the list of the first source that has
    the key, when every item of that list is a command or null, when the
    modules that run it are listed and leave no semaphore, and when cloud-init
    is known to run. A list another source comes before is off, unless it sets a
    merge of its own: it is then unknown, and so is what is known of no boot. *)
Theorem commands_decided `{Strerror} `{Blake3} `{Debug} `{Lowercase} h cx ss ms g key :
  Forall2 (decided g (list_ready h (cx_root cx) ms key) ss key) (listed key (imap pair ss))
    (value h cx (key_commands ss ms g [] key)).
Proof.
  set (R := decided g (list_ready h (cx_root cx) ms key) ss key).
  assert (Hall : Forall (is_source ss) (imap pair ss)).
  { apply Forall_lookup_2. intros j x. rewrite list_lookup_imap_Some. by intros (s & Hs & ->). }
  refine (value_scan_inv (fun seen out => Forall (is_source ss) seen -> Forall2 R (listed key seen) out) h cx
    (source_commands ss ms g key) [] (imap pair ss) _ _ _ Hall).
  - intros. apply stays_source_commands.
  - intros _. constructor.
  - intros seen out x cx' [Hr _] Hi [Hs Hx]%Forall_app. rewrite Forall_singleton in Hx.
    destruct (source_commands_decided h cx' ss ms g key out x Hx) as (es & -> & He). rewrite Hr in He.
    rewrite listed_app. apply Forall2_app; [by apply Hi|exact He].
Qed.

(** A live host and an image of one. *)
Module CloudDemo.
#[local] Instance demo_blake3 : Blake3 := fun x => x.
#[local] Instance demo_strerror : Strerror := fun _ => #"error".
#[local] Instance demo_debug : Debug := {| debug_char c := utf8_encode1 c; debug_str s := s |}.
#[local] Instance demo_lowercase : Lowercase := to_ascii_lowercase.
Definition text (ls : list bytes) : bytes := join [newline] ls ++ [newline].
Definition base : bytes :=
  text [ #"cloud_init_modules: [bootcmd]"; #"cloud_config_modules:"; #"  - [runcmd, always]"; #"cloud_final_modules: [scripts-user, scripts_per_boot]";
         #"runcmd: [base]"].
Definition user : bytes := text [ #"runcmd:"; #"  - /bin/one two"; #"  - [/bin/it's, 3, true]"].
Definition tree : Tree.tree :=
  [( #"usr", Tree.Dir 0 0x1ED); ( #"usr/bin", Tree.Dir 0 0x1ED); ( #"usr/bin/cloud-init", Tree.File 0 0x1ED #"x");
   ( #"etc", Tree.Dir 0 0x1ED); ( #"etc/cloud", Tree.Dir 0 0x1ED); ( #"etc/cloud/cloud.cfg", Tree.File 0 0x1A4 base);
   ( #"run", Tree.Dir 0 0x1ED); ( #"run/cloud-init", Tree.Dir 0 0x1ED); ( #"run/cloud-init/enabled", Tree.File 0 0x1A4 []);
   ( #"var", Tree.Dir 0 0x1ED); ( #"var/lib", Tree.Dir 0 0x1ED); ( #"var/lib/cloud", Tree.Dir 0 0x1ED);
   ( #"var/lib/cloud/scripts", Tree.Dir 0 0x1ED); ( #"var/lib/cloud/scripts/per-boot", Tree.Dir 0 0x1ED);
   ( #"var/lib/cloud/scripts/per-boot/a", Tree.File 0 0x1ED #"x"); ( #"var/lib/cloud/scripts/per-boot/b", Tree.File 0 0x1A4 #"x");
   ( #"var/lib/cloud/instance", Tree.Dir 0 0x1ED); ( #"var/lib/cloud/instance/cloud-config.txt", Tree.File 0 0x1A4 user)].
Definition live : root := mk_root Tree.root_fd #"/" true false [].
Definition seen (r : root) : list (bytes * enablement * option bytes) :=
  (fun e => (e_name e, e_enabled e, e_command e)) <$> value (Tree.kernel tree) (mk_ctx r [] [] [] []) collect.
End CloudDemo.

Example cloud_host :
  CloudDemo.seen CloudDemo.live =
    [( #"runcmd:/bin/one two", Enablement.Enabled, Some #"/bin/one two");
     ( #"runcmd:'/bin/it'\''", Enablement.Enabled, Some #"'/bin/it'\''s' '3' 'True'");
     ( #"runcmd:base", Enablement.Disabled, Some #"base");
     ( #"a", Enablement.Enabled, None); ( #"b", Enablement.Disabled, None)] /\
  (fun x => snd (fst x)) <$> CloudDemo.seen Tree.offline =
    [Enablement.Unknown; Enablement.Unknown; Enablement.Disabled; Enablement.Unknown; Enablement.Disabled].
Proof. by vm_compute. Qed.
