(* ===== verification/Cron.v ===== *)
(** [src/collect/cron.rs]: what cron, anacron, BusyBox's crond and at run, and
    why a file of theirs is not run. *)

From S2P Require Import Prelude Slices Order Num Utf8 Paths Text Kinds Entry Sys Root Users Scan Collect Inittab.

(** ** Fields *)

Definition ws : byte -> bool := is_ascii_whitespace.

(** Where [n] fields end, counted from where [t] begins. *)
Fixpoint fields_end (n : nat) (t : bytes) : option nat :=
  match n with
  | O => Some 0
  | S n =>
      let w := drop_while ws t in
      let len := default (length w) (position ws w) in
      if bool_decide (len = 0) then None
      else
        let used := length t - length w + len in
        rest ← fields_end n (drop used t);
        Some (used + rest)
  end.
(** [n] fields off the front: the span they cover and what follows. *)
Definition take_fields (s : bytes) (n : nat) : option (bytes * bytes) :=
  let t := trim_ascii_start s in
  k ← fields_end n t;
  Some (take k t, drop k t).

Definition has_crlf (b : bytes) : bool := contains_sub [x0d; x0a] b.

Definition name_end (b : byte) : bool := ws b || is_byte eq_sign b.
(** A name up to a blank or [=], blanks, an [=], blanks, and the value. *)
Definition assignment (line : bytes) : option (bytes * bytes) :=
  let i := default (length line) (position name_end line) in
  if bool_decide (i = 0) then None
  else
    match drop_while ws (drop i line) with
    | c :: rest => if bool_decide (c = eq_sign) then Some (take i line, drop_while ws rest) else None
    | [] => None
    end.
Definition env_assignment (line : bytes) : option (bytes * bytes) :=
  '(name, value) ← assignment line;
  Some (from_utf8_lossy name, from_utf8_lossy (unquote value)).
Definition at_env (line : bytes) : option (bytes * bytes) :=
  '(name, raw) ← assignment line;
  let name := from_utf8_lossy name in
  let value := default raw (strip_suffix (#"; export " ++ name) raw) in
  Some (name, from_utf8_lossy (unquote value)).

Definition uid_field (line : bytes) : option N :=
  '(_, rest) ← split_once #"uid=" line;
  parse_unsigned U32_MAX (take (default (length rest) (position (fun b => negb (is_ascii_digit b)) rest)) rest).

Definition SHORTCUTS : list bytes :=
  [ #"@yearly"; #"@annually"; #"@monthly"; #"@weekly"; #"@daily"; #"@midnight"; #"@hourly"].
Definition shortcut (s : bytes) : option trigger :=
  let s := to_ascii_lowercase (from_utf8_lossy s) in
  if bool_decide (s = #"@reboot") then Some Trigger.Boot
  else if bool_decide (s ∈ SHORTCUTS) then Some Trigger.Schedule
  else None.

Definition field_byte (b : byte) : bool := is_ascii_alphanumeric b || bool_decide (b ∈ #"*,-/~").
Definition odd_field (schedule : bytes) : option bytes :=
  find (fun f => negb (forallb field_byte f)) (words_by ws schedule).

Definition percent_byte : byte := "%".
Definition backslash : byte := x5c.
(** The first [%] no backslash protects. *)
Fixpoint cut_percent (cmd : bytes) : option (bytes * bytes) :=
  match cmd with
  | [] => None
  | c :: rest =>
      if bool_decide (c = backslash) then
        match rest with
        | [] => None
        | d :: rest => '(a, b) ← cut_percent rest; Some (c :: d :: a, b)
        end
      else if bool_decide (c = percent_byte) then Some ([], rest)
      else '(a, b) ← cut_percent rest; Some (c :: a, b)
  end.
Definition split_stdin (cmd : bytes) : bytes * option bytes :=
  match cut_percent cmd with Some (a, b) => (a, Some b) | None => (cmd, None) end.

Definition env_key (k : bytes) : bytes := #"env." ++ k.

(** Assignments before the program are noted; the rest is the program. *)
Fixpoint command_target_from (fuel : nat) (rest : bytes) (e : Entry.entry) : option path * Entry.entry :=
  match fuel with
  | O => (None, e)
  | S fuel =>
      match take_fields rest 1 with
      | None => (None, e)
      | Some (word, tail) =>
          match env_assignment word with
          | Some (k, v) => command_target_from fuel tail (Entry.note e (env_key k) v)
          | None => let word := shell_word word in (if starts_with [slash] word then Some word else None, e)
          end
      end
  end.
Definition command_target (cmd : bytes) (e : Entry.entry) : option path * Entry.entry :=
  command_target_from (S (length cmd)) cmd e.
(** [set_command], then the target. *)
Definition with_target (e : Entry.entry) (cmd : bytes) : Entry.entry :=
  let '(target, e) := command_target cmd (set_command e cmd) in set_target_path e target.

(** [raw.entry(..).or_insert_with(..)] for each. *)
Definition note_new (e : Entry.entry) (kv : bytes * bytes) : Entry.entry :=
  match e_raw e !! env_key (fst kv) with Some _ => e | None => Entry.note e (env_key (fst kv)) (snd kv) end.
Definition inherit_env (env : gmap bytes bytes) (e : Entry.entry) : Entry.entry := foldl note_new e (btree_to_list env).

Definition normalise_ws (s : bytes) : bytes := join #" " (words_by ws s).

(** A name for the nth use of a base. *)
Definition unique (used : gmap bytes N) (base : bytes) : bytes * N * gmap bytes N :=
  let n := (default 0%N (used !! base) + 1)%N in
  (if bool_decide (n = 1%N) then base else base ++ #"-" ++ dec n, n, <[base := n]> used).
Definition note_dup (e : Entry.entry) (k : bytes) (dup : N) : Entry.entry :=
  if (1 <? dup)%N then Entry.note e k (dec dup) else e.

(** ** A crontab line *)

Module Layout.
Inductive layout := SystemWide | ForUser (user : bytes).
Definition principal (l : layout) : option bytes := match l with SystemWide => None | ForUser u => Some u end.
End Layout.
Abbreviation layout := Layout.layout.

Record cron_job := mk_job { j_schedule : bytes; j_user : option bytes; j_command : bytes }.

(** [line[0]] is there: an empty line is not a job line. *)
Definition split_job (line : bytes) (l : layout) : option cron_job :=
  let count := if starts_with #"@" line then 1 else 5 in
  '(schedule, rest) ← take_fields line count;
  if bool_decide (count = 1) && bool_decide (shortcut schedule = None) then None
  else
    '(user, rest) ← match l with
                    | Layout.SystemWide => '(u, r) ← take_fields rest 1; Some (Some u, r)
                    | Layout.ForUser _ => Some (None, rest)
                    end;
    let command := trim_ascii_start rest in
    if bool_decide (command = []) then None else Some (mk_job schedule user command).

Definition anacron_job (line : bytes) : option (bytes * bytes * bytes * bytes) :=
  '(period, rest) ← take_fields line 1;
  '(delay, rest) ← take_fields rest 1;
  '(id, rest) ← take_fields rest 1;
  let command := trim_ascii rest in
  if bool_decide (command = []) then None else Some (period, delay, id, command).

Definition comment_or_blank (line : bytes) : bool := bool_decide (line = []) || starts_with #"#" line.

Definition BAD_LINE : bytes := #"neither a job line nor an environment assignment".
Definition AN_LINK : bytes := #"source is a symlink; its target was not read".

Definition malformed_facts (line : bytes) (principal : option bytes) (dup : N) (e : Entry.entry) : Entry.entry :=
  let e := set_trigger (note_dup e #"duplicate_line" dup) Trigger.Schedule in
  let e := set_principal (set_enabled e Enablement.Unknown) principal in
  set_command (Entry.note e #"parse_error" BAD_LINE) line.

Definition job_facts (l : layout) (job : cron_job) (dup : N) (e : Entry.entry) : Entry.entry :=
  let e := note_dup e #"duplicate_line" dup in
  let e := set_trigger e (default Trigger.Schedule (shortcut (j_schedule job))) in
  let e := set_enabled e Enablement.Enabled in
  let e := set_principal e (match j_user job with Some u => Some (from_utf8_lossy u) | None => Layout.principal l end) in
  let e := Entry.note e #"schedule" (from_utf8_lossy (j_schedule job)) in
  let e := match shortcut (j_schedule job), odd_field (j_schedule job) with
           | None, Some bad => Entry.note e #"schedule_suspect" (from_utf8_lossy bad)
           | _, _ => e
           end in
  let '(command, stdin) := split_stdin (j_command job) in
  let e := match stdin with Some s => Entry.note e #"stdin" (from_utf8_lossy s) | None => e end in
  with_target e command.

Definition anacron_facts (period delay command : bytes) (dup : N) (e : Entry.entry) : Entry.entry :=
  let e := set_trigger (note_dup e #"duplicate_job_identifier" dup) Trigger.Schedule in
  let e := set_principal (set_enabled e Enablement.Enabled) (Some #"root") in
  let e := Entry.note (Entry.note e #"schedule" (from_utf8_lossy period)) #"delay_minutes" (from_utf8_lossy delay) in
  with_target e command.

Definition note_crlf (crlf : bool) (e : Entry.entry) : Entry.entry :=
  if crlf then Entry.note e #"line_ending" #"crlf" else e.
Definition finish (env : gmap bytes bytes) (crlf : bool) (e : Entry.entry) : Entry.entry := note_crlf crlf (inherit_env env e).

(** What a file has given so far. *)
Record tab_state := mk_tab { t_env : gmap bytes bytes; t_used : gmap bytes N; t_out : list Entry.entry }.
Definition tab0 : tab_state := mk_tab ∅ ∅ [].

(** ** at *)

Record preamble := mk_preamble { at_pos : nat; at_uid : option N; at_environ : gmap bytes bytes; at_guard : bool }.

(** A line of the preamble, or [None] where the body begins. *)
Definition at_line (st : preamble) (line : bytes) : option preamble :=
  let '(mk_preamble pos uid env guard) := st in
  let pos := pos + (length line + 1) in
  let t := trim_ascii line in
  if guard : bool then Some (mk_preamble pos uid env (negb (bool_decide (t = #"}"))))
  else if comment_or_blank t then Some (mk_preamble pos (match uid_field t with Some u => Some u | None => uid end) env false)
  else if starts_with #"umask " t || starts_with #"export " t then Some (mk_preamble pos uid env false)
  else if starts_with #"cd " t then Some (mk_preamble pos uid env (ends_with #"{" t))
  else
    '(k, v) ← at_env t;
    Some (mk_preamble pos uid (<[k := v]> env) false).
Fixpoint at_lines (st : preamble) (lines : list bytes) : preamble :=
  match lines with
  | [] => st
  | line :: lines => match at_line st line with Some st => at_lines st lines | None => st end
  end.
Definition at_preamble (b : bytes) : nat * option N * gmap bytes bytes :=
  let st := at_lines (mk_preamble 0 None ∅ false) (split_on (is_byte newline) b) in
  (Nat.min (at_pos st) (length b), at_uid st, at_environ st).

Definition is_ascii_alphabetic (b : byte) : bool := is_ascii_lower b || is_ascii_upper b.
Definition is_ascii_hexdigit (b : byte) : bool := is_ascii_digit b || byte_in "a" "f" b || byte_in "A" "F" b.
(** The queue, the job's number and its time are in the file's name. *)
Definition at_name (n : bytes) : option (bytes * bytes * bytes) :=
  if (14 <=? length n) && match n with c :: _ => is_ascii_alphabetic c | [] => false end
     && forallb is_ascii_hexdigit (take 13 (drop 1 n))
  then Some (take 1 n, take 5 (drop 1 n), take 8 (drop 6 n)) else None.
Definition at_named (n : bytes) (e : Entry.entry) : Entry.entry :=
  match at_name n with
  | Some (queue, number, when) =>
      let e := Entry.note (Entry.note e #"queue" (from_utf8_lossy queue)) #"job_number" (from_utf8_lossy number) in
      match from_str_radix 16 U64_MAX (from_utf8_lossy when) with
      | Some minutes => Entry.note e #"run_at_unix" (dec (minutes * 60))
      | None => e
      end
  | None => Entry.note e #"filename_unrecognised" #"not the queue-letter, job-number, run-time form"
  end.

Definition NO_BODY : bytes := #"no job body below the generated preamble".
Definition at_facts (users : list user) (fname b : bytes) (e : Entry.entry) : Entry.entry :=
  let '(body_at, uid, env) := at_preamble b in
  let e := set_enabled (set_trigger (name_from_os e fname) Trigger.Schedule) Enablement.Enabled in
  let e := at_named fname e in
  let uid := default (e_owner_uid e) uid in
  let e := Entry.note e #"uid" (dec uid) in
  let e := set_principal e (Some match find (fun u => bool_decide (u_uid u = Some uid)) users with
                                 | Some u => u_name u
                                 | None => dec uid
                                 end) in
  let e := foldl (fun e kv => Entry.note e (env_key (fst kv)) (snd kv)) e (btree_to_list env) in
  let body := drop (Nat.min body_at (length b)) b in
  let e := if forallb ws body then Entry.note e #"parse_error" NO_BODY else e in
  set_command e body.

(** ** BusyBox's crond *)

Definition hash_or_blank (b : byte) : bool := bool_decide (b = hash_byte) || blank_byte b.
(** [n] tokens are still wanted; the last takes all there is before a
    comment. *)
Fixpoint tokens_from (n : nat) (rest : bytes) : list bytes :=
  match n with
  | O => []
  | 1 => [drop_while_end blank_byte (before hash_byte rest)]
  | S n =>
      let i := default (length rest) (position hash_or_blank rest) in
      let rest' := if starts_with [hash_byte] (drop i rest) then [] else drop_while blank_byte (drop i rest) in
      take i rest :: if bool_decide (rest' = []) || starts_with [hash_byte] rest' then [] else tokens_from n rest'
  end.
(** The tokens of a line, and the line without the blanks before it. *)
Definition busybox_tokens (line : bytes) : option (list bytes * bytes) :=
  let line := drop_while blank_byte line in
  if comment_or_blank line then None else Some (tokens_from 6 line, line).

Definition SETTINGS : list bytes := [ #"MAILTO"; #"SHELL"; #"PATH"].
Definition set_from (token : bytes) (env : gmap bytes bytes) (k : bytes) : gmap bytes bytes :=
  match strip_prefix (k ++ [eq_sign]) token with Some v => <[k := from_utf8_lossy v]> env | None => env end.
Definition is_setting (token : bytes) : bool := existsb (fun k => starts_with (k ++ [eq_sign]) token) SETTINGS.

(** What a line of a BusyBox crontab is. *)
Inductive bb_line :=
| BbJob (schedule command : bytes) (trigger : trigger) (suspect : option bytes)
| BbBad (why : bytes).
Definition BAD_SHORTCUT : bytes :=
  #"crond knows @reboot, @yearly, @annually, @monthly, @weekly, @daily, @midnight and @hourly, each with a command".
Definition TOO_FEW : bytes := #"fewer than six fields; crond skips the line".
Definition read_bb_line (tokens : list bytes) (original : bytes) : bb_line :=
  let first := default [] (head tokens) in
  if starts_with #"@" first then
    match shortcut first, 2 <=? length tokens with
    | Some trigger, true =>
        BbJob first (match take_fields original 1 with Some (_, rest) => trim_ascii_start rest | None => [] end) trigger None
    | _, _ => BbBad BAD_SHORTCUT
    end
  else if length tokens <? 6 then BbBad TOO_FEW
  else
    let schedule := join #" " (take 5 tokens) in
    BbJob schedule (default [] (tokens !! 5)) Trigger.Schedule (odd_field schedule).

Definition bb_job_facts (user schedule command : bytes) (trigger : trigger) (suspect : option bytes) (dup : N)
    (e : Entry.entry) : Entry.entry :=
  let e := set_enabled (set_trigger (note_dup e #"duplicate_line" dup) trigger) Enablement.Enabled in
  let e := Entry.note (set_principal e (Some user)) #"schedule" (from_utf8_lossy schedule) in
  let e := with_target e command in
  match suspect with Some bad => Entry.note e #"schedule_suspect" (from_utf8_lossy bad) | None => e end.

(** The last word: settings, the daemon, and why the line is not run. *)
Definition bb_finish (env : gmap bytes bytes) (crlf : bool) (not_run : option bytes) (limit : N) (past_limit : bool)
    (e : Entry.entry) : Entry.entry :=
  let e := note_crlf crlf (Entry.note (inherit_env env e) #"crond" #"busybox") in
  match not_run with
  | Some why => Entry.note (set_enabled e Enablement.Disabled) #"not_run" why
  | None =>
      if past_limit then
        Entry.note (set_enabled e Enablement.Disabled) #"not_run"
          (#"past crond's limit of " ++ dec limit ++ #" lines for this file")
      else e
  end.

Section cron.
Context `{Strerror} `{Blake3}.

Definition job_name (schedule command : bytes) : bytes :=
  take 24 (blake3_hex (Entry.id_input [normalise_ws schedule; command])).

Definition is_symlink (p : path) : coll bool :=
  lift (fun r => m ← stat r p; Ret match m with Ok m => m_is_symlink m | Err _ => false end).

Definition malformed (p : path) (line : bytes) (principal : option bytes) (used : gmap bytes N)
    : coll (Entry.entry * gmap bytes N) :=
  let '(name, dup, used) := unique used (job_name [] line) in
  e ← entry Kind.Cron p name;
  mret (malformed_facts line principal dup e, used).

Definition unparsed_link (k : kind) (p : path) (principal : option bytes) : coll Entry.entry :=
  e ← entry k p (default [] (from_utf8_lossy <$> file_name p));
  let e := set_enabled (set_trigger e Trigger.Schedule) Enablement.Unknown in
  mret (Entry.note (set_principal e principal) #"parse_error" AN_LINK).

(** A line of /etc/crontab, a spool or anacrontab; [make] is what it gives
    when it is neither blank, comment nor setting. *)
Definition table_line (make : bytes -> gmap bytes N -> coll (Entry.entry * gmap bytes N)) (crlf : bool) (st : tab_state)
    (line : bytes) : coll tab_state :=
  let line := trim_ascii line in
  if comment_or_blank line then mret st
  else
    match env_assignment line with
    | Some (k, v) => mret (mk_tab (<[k := v]> (t_env st)) (t_used st) (t_out st))
    | None =>
        x ← make line (t_used st);
        let '(e, used) := x : Entry.entry * gmap bytes N in
        mret (mk_tab (t_env st) used (t_out st ++ [finish (t_env st) crlf e]))
    end.
Definition table_body (make : bytes -> gmap bytes N -> coll (Entry.entry * gmap bytes N)) (b : bytes) : coll (list Entry.entry) :=
  st ← fold_coll (table_line make (has_crlf b)) tab0 (split_on (is_byte newline) b);
  mret (t_out st).

Definition crontab_entry (p : path) (l : layout) (line : bytes) (used : gmap bytes N) : coll (Entry.entry * gmap bytes N) :=
  match split_job line l with
  | Some job =>
      let '(name, dup, used) := unique used (job_name (j_schedule job) (j_command job)) in
      e ← entry Kind.Cron p name;
      mret (job_facts l job dup e, used)
  | None => malformed p line (Layout.principal l) used
  end.

(** A file of lines: a link is not read. *)
Definition read_table (k : kind) (p : path) (principal : option bytes) (f : bytes -> coll (list Entry.entry))
    : coll (list Entry.entry) :=
  link ← is_symlink p;
  if link : bool then e ← unparsed_link k p principal; mret [e]
  else
    b ← read p;
    match b with None => mret [] | Some b => f b end.

Definition crontab (p : path) (l : layout) : coll (list Entry.entry) :=
  read_table Kind.Cron p (Layout.principal l) (table_body (crontab_entry p l)).

Definition ANACRONTAB : path := #"etc/anacrontab".
Definition anacron_entry (line : bytes) (used : gmap bytes N) : coll (Entry.entry * gmap bytes N) :=
  match anacron_job line with
  | Some (period, delay, id, command) =>
      let '(name, dup, used) := unique used (from_utf8_lossy id) in
      e ← entry Kind.Cron ANACRONTAB name;
      mret (anacron_facts period delay command dup e, used)
  | None => malformed ANACRONTAB line (Some #"root") used
  end.
Definition anacrontab : coll (list Entry.entry) :=
  read_table Kind.Cron ANACRONTAB (Some #"root") (table_body anacron_entry).

Definition at_job (p : path) (fname : bytes) : coll (list Entry.entry) :=
  read_table Kind.AtJob p None (fun b =>
    users ← the_users;
    e ← entry Kind.AtJob p (from_utf8_lossy fname);
    mret [at_facts users fname b e]).

Record bb_state := mk_bb { b_env : gmap bytes bytes; b_used : gmap bytes N; b_loaded : N; b_out : list Entry.entry }.

Definition busybox_crontab_line (p : path) (user : bytes) (crlf : bool) (not_run : option bytes) (limit : N)
    (st : bb_state) (line : bytes) : coll bb_state :=
  match busybox_tokens line with
  | None => mret st
  | Some (tokens, original) =>
      let loaded := (b_loaded st + 1)%N in
      let first := default [] (head tokens) in
      let env := foldl (set_from first) (b_env st) SETTINGS in
      if is_setting first then mret (mk_bb env (b_used st) loaded (b_out st))
      else
        x ← match read_bb_line tokens original with
            | BbJob schedule command trigger suspect =>
                let '(name, dup, used) := unique (b_used st) (job_name schedule command) in
                e ← entry Kind.Cron p name;
                mret (bb_job_facts user schedule command trigger suspect dup e, used)
            | BbBad why =>
                x ← malformed p original (Some user) (b_used st);
                let '(e, used) := x : Entry.entry * gmap bytes N in
                mret (Entry.note e #"parse_error" why, used)
            end;
        let '(e, used) := x : Entry.entry * gmap bytes N in
        mret (mk_bb env used loaded (b_out st ++ [bb_finish env crlf not_run limit (limit <? loaded)%N e]))
  end.

(** Why crond reads none of a file. *)
Definition busybox_ignores (p : path) (user : bytes) : coll (option bytes) :=
  users ← the_users;
  if negb (existsb (fun u => bool_decide (u_name u = user) && bool_decide (u_source u = #"passwd")) users) then
    mret (Some (#"crond ignores a crontab named for no account (" ++ user ++ #")"))
  else
    m ← lift (fun r => stat r p);
    mret match m with
         | Ok m =>
             if bool_decide (m_uid m = 0%N) then None
             else Some (#"crond loads only files owned by root; this one is owned by uid " ++ dec (m_uid m))
         | Err _ => None
         end.

Definition busybox_crontab (p : path) (user : bytes) : coll (list Entry.entry) :=
  read_table Kind.Cron p (Some user) (fun b =>
    not_run ← busybox_ignores p user;
    let limit := if bool_decide (user = #"root") then 65534%N else 255%N in
    st ← fold_coll (busybox_crontab_line p user (has_crlf b) not_run limit) (mk_bb ∅ ∅ 0 []) (continued_lines b);
    mret (b_out st)).

(** ** The run-parts directories *)

Definition run_by_cron (named : bytes) (e : Entry.entry) : bool :=
  bool_decide (e_kind e = Kind.Cron) && bool_decide (e_enabled e = Enablement.Enabled)
  && match e_command e with Some c => contains_sub #"run-parts" c && contains_sub named c | None => false end.

Definition NO_LINE : bytes := #"no loaded crontab line runs run-parts on this directory".
Definition script_facts (r : root) (period : bytes) (runner : option bytes) (f : run_parts_file) (e : Entry.entry)
    : Entry.entry :=
  let e := set_principal (set_trigger (name_from_os e (rp_name f)) Trigger.Schedule) (Some #"root") in
  let e := set_target_path e (Some (abs r (rp_rel f))) in
  let e := set_enabled (Entry.note e #"schedule" (#"@" ++ period)) Enablement.Enabled in
  let e := match rp_not_run f with
           | Some why => Entry.note (set_enabled e Enablement.Disabled) #"not_run" why
           | None => e
           end in
  match runner with
  | Some src => Entry.note e #"run_by" (#"a crontab line in " ++ src)
  | None =>
      if bool_decide (e_enabled e = Enablement.Enabled) then
        Entry.note (set_enabled e Enablement.Disabled) #"not_run" NO_LINE
      else e
  end.

(** [out] is what was read before. *)
Definition run_parts_scripts (flavour : run_parts) (d period : bytes) (out : list Entry.entry) : coll (list Entry.entry) :=
  files ← run_parts_dir flavour d;
  r ← the_root;
  let runner := (fun e => display_path (e_source e)) <$> find (run_by_cron ([slash] ++ d)) out in
  map_coll (fun f => e ← entry Kind.Cron (rp_rel f) (from_utf8_lossy (rp_name f)); mret (script_facts r period runner f e)) files.

Definition with_scripts (flavour : run_parts) (base : bytes) (out : list Entry.entry) (period : bytes) : coll (list Entry.entry) :=
  es ← run_parts_scripts flavour (base ++ period) period out;
  mret (out ++ es).
Definition run_parts (flavour : run_parts) (period : bytes) (out : list Entry.entry) : coll (list Entry.entry) :=
  with_scripts flavour #"etc/cron." out period.
Definition periodic (flavour : RunParts.run_parts) (out : list Entry.entry) : coll (list Entry.entry) :=
  fold_coll (with_scripts flavour #"etc/periodic/") out [ #"15min"; #"hourly"; #"daily"; #"weekly"; #"monthly"].
End cron.

(** ** The collector *)

Module Flavour.
Inductive flavour := Debian | Cronie | BusyBox | Unknown.
End Flavour.
Abbreviation flavour := Flavour.flavour.

#[export] Instance flavour_eq_dec : EqDecision Flavour.flavour.
Proof. solve_decision. Defined.

Definition CRONIE_SKIPS : list bytes := [ #"~"; #".rpmsave"; #".rpmorig"; #".rpmnew"].
Definition cron_d_skips (f : flavour) (name : bytes) : option bytes :=
  match f with
  | Flavour.Debian =>
      if nonempty_all name_byte name then None
      else Some #"Debian's cron reads only names of letters, digits, _ and - from /etc/cron.d"
  | Flavour.Cronie =>
      if match name with c :: _ => bool_decide (c ∈ #".#") | [] => false end || existsb (fun s => ends_with s name) CRONIE_SKIPS
      then Some #"cronie skips a name that starts with . or #, or ends in ~, .rpmsave, .rpmorig or .rpmnew"
      else None
  | _ => None
  end.

Fixpoint flavour_of (r : root) (ps : list path) : prog flavour :=
  match ps with
  | [] => Ret Flavour.Unknown
  | p :: ps =>
      b ← sniff r p;
      match b with
      | None => flavour_of r ps
      | Some b =>
          Ret (if contains_sub #"BusyBox" b then Flavour.BusyBox
               else if ends_with #"/cron" p then Flavour.Debian
               else Flavour.Cronie)
      end
  end.
Definition find_flavour : coll flavour :=
  lift (fun r => flavour_of r [ #"usr/sbin/crond"; #"sbin/crond"; #"usr/sbin/cron"; #"usr/bin/crond"]).

(** [-c] and its directory, in one word or in two. *)
Fixpoint option_dirs (words : list bytes) : list bytes :=
  match words with
  | [] => []
  | w :: rest =>
      match strip_prefix #"-c" w with
      | Some [] => option_list (head rest)
      | Some d => [d]
      | None => []
      end ++ option_dirs rest
  end.
Definition conf_dirs (line : bytes) : list bytes :=
  match strip_prefix #"CRON_OPTS=" (trim_ascii line) with
  | Some value => (fun d => drop_while (is_byte slash) (from_utf8_lossy d)) <$> option_dirs (words_by ws (unquote value))
  | None => []
  end.
Definition CRONTABS : path := #"var/spool/cron/crontabs".

Definition switch_off (why : bytes) (e : Entry.entry) : Entry.entry :=
  if bool_decide (e_enabled e = Enablement.Enabled) then
    Entry.note (set_enabled e Enablement.Disabled) #"not_run" why
  else e.

Section collecting.
Context `{Strerror} `{Blake3}.

Definition busybox_crontab_dirs : coll (list bytes) :=
  b ← read #"etc/conf.d/crond";
  mret (match b with Some b => split_on (is_byte newline) b ≫= conf_dirs | None => [] end ++ [CRONTABS]).

Definition cron_d_file (f : flavour) (out : list Entry.entry) (ent : dir_ent) : coll (list Entry.entry) :=
  es ← crontab (path_join #"etc/cron.d" (de_name ent)) Layout.SystemWide;
  mret (out ++ match cron_d_skips f (de_name ent) with Some why => switch_off why <$> es | None => es end).

Definition BUSYBOX_READS : bytes := #"BusyBox crond reads only its crontab directory".
(** /etc/crontab and /etc/cron.d. *)
Definition system_tables (f : flavour) : coll (list Entry.entry) :=
  out ← crontab #"etc/crontab" Layout.SystemWide;
  ents ← dir #"etc/cron.d";
  out ← fold_coll (cron_d_file f) out ents;
  mret (if bool_decide (f = Flavour.BusyBox) then switch_off BUSYBOX_READS <$> out else out).

(** The files of a directory not walked before. *)
Definition each_file (skip : dir_ent -> bool) (f : path -> bytes -> coll (list Entry.entry))
    (st : gset (N * N) * list Entry.entry) (d : path) : coll (gset (N * N) * list Entry.entry) :=
  x ← first_visit d (fst st);
  let '(id, seen) := x : option (N * N) * gset (N * N) in
  match id with
  | None => mret (seen, snd st)
  | Some _ =>
      ents ← dir d;
      out ← fold_coll (fun out ent => es ← f (path_join d (de_name ent)) (de_name ent); mret (out ++ es))
              (snd st) (List.filter (fun ent => negb (skip ent)) ents);
      mret (seen, out)
  end.

Definition user_tables (f : flavour) (st : gset (N * N) * list Entry.entry) : coll (gset (N * N) * list Entry.entry) :=
  match f with
  | Flavour.BusyBox =>
      dirs ← busybox_crontab_dirs;
      fold_coll (each_file de_is_dir (fun p name => busybox_crontab p (from_utf8_lossy name))) st dirs
  | _ =>
      fold_coll (each_file de_is_dir (fun p name => crontab p (Layout.ForUser (from_utf8_lossy name)))) st
        [ #"var/spool/cron"; CRONTABS]
  end.

Definition not_an_at_job (ent : dir_ent) : bool := de_is_dir ent || starts_with #"." (de_name ent).

Definition collect : coll (list Entry.entry) :=
  f ← find_flavour;
  out ← system_tables f;
  st ← user_tables f (∅, out);
  let '(seen, out) := st : gset (N * N) * list Entry.entry in
  es ← anacrontab;
  rf ← run_parts_flavour;
  out ← fold_coll (fun out period => run_parts rf period out) (out ++ es) [ #"hourly"; #"daily"; #"weekly"; #"monthly"];
  out ← periodic rf out;
  st ← fold_coll (each_file not_an_at_job at_job) (seen, out) [ #"var/spool/cron/atjobs"; #"var/spool/at"];
  mret (snd st).
End collecting.
