(* ===== verification/CronLaws.v ===== *)
(** What [Cron] promises: lines read as they are meant, entries that account for
    every line, and what is on only where the daemon would run it. *)

From S2P Require Import Prelude Slices Order Num Utf8 Paths Text Kinds Entry Sys Root Tree Users Scan Collect Inittab Cron.

(** ** Fields, said and read *)

Definition blanks (s : bytes) : Prop := Forall (fun b => ws b = true) s.
Definition word (w : bytes) : Prop := w <> [] /\ Forall (fun b => ws b = false) w.
(** Nothing, or a blank first. *)
Definition breaks (s : bytes) : Prop := forall c, head s = Some c -> ws c = true.

(** [n] words with blanks between them. *)
Inductive is_fields : nat -> bytes -> Prop :=
| one_field w : word w -> is_fields 1 w
| more_fields w gap n a : word w -> blanks gap -> gap <> [] -> is_fields n a -> is_fields (S n) (w ++ gap ++ a).

Lemma word_head w r c : word w -> head (w ++ r) = Some c -> ws c = false.
Proof. intros [Hne Hw] E. destruct w as [|x w]; [done|]. injection E as <-. by apply Forall_cons in Hw as [? _]. Qed.
Lemma fields_head n a r c : is_fields n a -> head (a ++ r) = Some c -> ws c = false.
Proof. intros Ha. destruct Ha as [w Hw|w gap n a Hw _ _ _]; [by apply word_head|]. rewrite <- app_assoc. by apply word_head. Qed.
Lemma fields_ne n a : is_fields n a -> a <> [].
Proof. intros [w [Hn _]|w gap m a' [Hn _] _ _ _]; [done|]. by destruct w. Qed.
Lemma blanks_breaks b r : blanks b -> b <> [] -> breaks (b ++ r).
Proof. intros Hb Hne c. destruct b as [|x b]; [done|]. intros [= <-]. by apply Forall_cons in Hb as [? _]. Qed.

Lemma word_end w r : word w -> breaks r -> default (length (w ++ r)) (position ws (w ++ r)) = length w.
Proof.
  intros [_ Hw] Hr. destruct r as [|c r]; [|by rewrite position_app by auto].
  rewrite app_nil_r. by rewrite (proj2 (position_None _ _)).
Qed.
Lemma word_cut t (i := default (length t) (position ws t)) :
  t <> [] -> (forall c, head t = Some c -> ws c = false) -> word (take i t) /\ breaks (drop i t).
Proof.
  intros Hne Hh. unfold i. destruct (position ws t) as [j|] eqn:E; cbn [default from_option id].
  - apply position_Some in E as (Hj & Hf & x & Hx & Hwx). split; [split; [|done]|].
    + intros E. apply (f_equal length) in E. rewrite length_take in E. assert (j = 0) as -> by (cbn in E; lia).
      destruct t as [|c t]; [done|]. injection Hx as ->. by rewrite (Hh x eq_refl) in Hwx.
    + intros c Hc. rewrite (drop_S t x j Hx) in Hc. by injection Hc as <-.
  - apply position_None in E. rewrite take_ge, drop_ge by lia. by split.
Qed.

Lemma fields_end_S n t :
  let w := drop_while ws t in
  let len := default (length w) (position ws w) in
  fields_end (S n) t =
    if bool_decide (len = 0) then None
    else rest ← fields_end n (drop (length t - length w + len) t); Some (length t - length w + len + rest).
Proof. done. Qed.

Lemma fields_end_complete n a b r :
  is_fields n a -> blanks b -> breaks r -> fields_end n (b ++ a ++ r) = Some (length b + length a).
Proof.
  intros Ha. revert b r. induction Ha as [w Hw|w gap n a Hw Hg Hne Ha IH]; intros b r Hb Hr; cbn [fields_end].
  - rewrite drop_while_app_all, drop_while_id by (done || intros x; by apply word_head).
    rewrite word_end by done. destruct Hw as [Hne _]. rewrite bool_decide_false by (destruct w; done).
    cbn [mbind option_bind]. rewrite !length_app. f_equal. lia.
  - rewrite <- !app_assoc. rewrite drop_while_app_all, drop_while_id by (done || intros x; by apply word_head).
    rewrite word_end by (done || by apply blanks_breaks). pose proof Hw as [Hwne _].
    rewrite bool_decide_false by (destruct w; done).
    replace (length (b ++ w ++ gap ++ a ++ r) - length (w ++ gap ++ a ++ r) + length w) with (length (b ++ w))
      by (rewrite !length_app; lia).
    rewrite (app_assoc b w), drop_app_length. rewrite IH by done. cbn [mbind option_bind]. rewrite !length_app. f_equal. lia.
Qed.

Lemma fields_end_sound n t k :
  fields_end (S n) t = Some k ->
  exists b a r, t = b ++ a ++ r /\ k = length b + length a /\ blanks b /\ is_fields (S n) a /\ breaks r.
Proof.
  revert t k. induction n as [|n IH]; intros t k; rewrite fields_end_S; cbv zeta; destruct (drop_while_suffix ws t) as (b & Et & Hb);
    pose proof (drop_while_head ws t) as Hh; set (w := drop_while ws t) in *; clearbody w; subst t;
    (case_bool_decide as H0; [done|]);
    (assert (Hne : w <> []) by (by intros ->)); destruct (word_cut w Hne Hh) as [Hw Hr];
    pose proof (take_drop (default (length w) (position ws w)) w) as Ed;
    set (i := default (length w) (position ws w)) in *;
    (assert (Hi : i = length (take i w)) by (rewrite length_take; unfold i; destruct (position ws w) eqn:E; [apply position_Some in E as [? _]|]; cbn; lia)).
  - cbn [fields_end mbind option_bind]. intros [= <-]. exists b, (take i w), (drop i w). rewrite Ed. split; [done|].
    split; [rewrite length_app; lia|]. split; [done|]. split; [by constructor|done].
  - destruct (fields_end (S n) _) as [k'|] eqn:Ek; [|done]. cbn [mbind option_bind]. intros [= <-].
    replace (length (b ++ w) - length w + i) with (length (b ++ take i w)) in * by (rewrite !length_app; lia).
    rewrite <- Ed in Ek at 2. rewrite (app_assoc b), drop_app_length in Ek. apply IH in Ek as (g & a & r & Eg & -> & Hg & Ha & Hr').
    assert (Hgne : g <> []).
    { intros ->. cbn [app] in Eg. rewrite Eg in Hr. destruct a as [|c a]; [by destruct (fields_ne _ _ Ha)|].
      assert (Hc : head ((c :: a) ++ r) = Some c) by done.
      pose proof (Hr c Hc) as E1. by rewrite (fields_head _ _ _ _ Ha Hc) in E1. }
    exists b, (take i w ++ g ++ a), r. rewrite <- !app_assoc, <- Eg, Ed. split; [done|].
    split; [rewrite !length_app; lia|]. split; [done|]. split; [|done]. by constructor.
Qed.

(** [n] fields are read off the front exactly when they are there. *)
Lemma take_fields_spec s n a r :
  take_fields s (S n) = Some (a, r) <-> exists b, s = b ++ a ++ r /\ blanks b /\ is_fields (S n) a /\ breaks r.
Proof.
  unfold take_fields. cbv zeta. split.
  - destruct (drop_while_suffix ws s) as (b & Es & Hb). change trim_ascii_start with (drop_while ws).
    pose proof (drop_while_head ws s) as Hh. set (t := drop_while ws s) in *. clearbody t. subst s.
    destruct (fields_end (S n) t) as [k|] eqn:Ek; [|done]. cbn [mbind option_bind]. intros [= <- <-].
    apply fields_end_sound in Ek as (b' & a' & r' & -> & -> & Hb' & Ha & Hr).
    assert (b' = []) as ->.
    { destruct b' as [|c b']; [done|]. apply Forall_cons in Hb' as [Hc _]. by rewrite (Hh c eq_refl) in Hc. }
    cbn [app length Nat.add]. rewrite take_app_length, drop_app_length. by exists b.
  - intros (b & -> & Hb & Ha & Hr). change trim_ascii_start with (drop_while ws).
    rewrite drop_while_app_all, drop_while_id by (done || intros x; by apply (fields_head (S n))).
    pose proof (fields_end_complete (S n) a [] r Ha (Forall_nil_2 _) Hr) as E. cbn [app length Nat.add] in E. rewrite E. cbn [mbind option_bind].
    by rewrite take_app_length, drop_app_length.
Qed.

Lemma fields_one w : is_fields 1 w <-> word w.
Proof.
  split; [|by constructor]. intros Ha. inversion Ha as [? Hw|? ? n ? ? ? ? Hn]; subst; [done|]. by inversion Hn.
Qed.

(** What is left after blanks, if there is anything. *)
Definition text_from (gap text : bytes) : Prop :=
  blanks gap /\ gap <> [] /\ text <> [] /\ forall c, head text = Some c -> ws c = false.

Lemma text_from_spec r text :
  (breaks r /\ trim_ascii_start r = text /\ text <> []) <-> exists gap, r = gap ++ text /\ text_from gap text.
Proof.
  split.
  - intros (Hr & <- & Hne). destruct (drop_while_suffix ws r) as (gap & Er & Hg). exists gap. split; [done|].
    split; [done|]. split; [|split; [done|apply drop_while_head]]. intros ->. cbn [app] in Er.
    change trim_ascii_start with (drop_while ws) in Hne. destruct r as [|c r]; [done|].
    assert (Hc : head (drop_while ws (c :: r)) = Some c) by (by rewrite <- Er).
    apply drop_while_head in Hc. by rewrite (Hr c eq_refl) in Hc.
  - intros (gap & -> & Hg & Hne & Ht & Hh). split; [by apply blanks_breaks|]. split; [|done].
    change trim_ascii_start with (drop_while ws). by rewrite drop_while_app_all, drop_while_id.
Qed.

(** A job line of a layout: the schedule, the user's name where the layout has
    one, and the rest as it stands. *)
Definition job_line (line : bytes) (l : layout) (job : cron_job) : Prop :=
  let count := if starts_with #"@" line then 1 else 5 in
  is_fields count (j_schedule job) /\ (count = 1 -> shortcut (j_schedule job) <> None) /\
  exists before gap, blanks before /\
    match l, j_user job with
    | Layout.SystemWide, Some u =>
        exists between, blanks between /\ between <> [] /\ word u /\
          line = before ++ j_schedule job ++ between ++ u ++ gap ++ j_command job
    | Layout.ForUser _, None => line = before ++ j_schedule job ++ gap ++ j_command job
    | _, _ => False
    end /\ text_from gap (j_command job).

Lemma split_job_sound line l job : split_job line l = Some job -> job_line line l job.
Proof.
  unfold split_job, job_line. cbv zeta. assert (Hn : exists n, (if starts_with #"@" line then 1 else 5) = S n)
    by (destruct (starts_with #"@" line); by eexists). destruct Hn as [n En]. rewrite En. clear En.
  destruct (take_fields line (S n)) as [[schedule rest]|] eqn:E1; [|done]. cbn [mbind option_bind].
  apply take_fields_spec in E1 as (b & -> & Hb & Ha & Hr).
  destruct (bool_decide (S n = 1) && bool_decide (shortcut schedule = None)) eqn:Es; [done|].
  assert (Hs : S n = 1 -> shortcut schedule <> None).
  { intros E1 E2. by rewrite !bool_decide_true in Es. }
  destruct l as [|who].
  - destruct (take_fields rest 1) as [[u r]|] eqn:E2; [|done]. cbn [mbind option_bind].
    apply take_fields_spec in E2 as (g & -> & Hg & Hu%fields_one & Hr2).
    destruct (bool_decide (trim_ascii_start r = [])) eqn:Hc; [done|]. apply bool_decide_eq_false in Hc.
    intros [= <-]. cbn [j_schedule j_user j_command]. destruct (proj1 (text_from_spec r (trim_ascii_start r))) as (gap & Er & Ht); [done|].
    split; [done|]. split; [done|]. exists b, gap. split; [done|]. split; [|done]. exists g.
    split; [done|]. split; [|split; [done|by rewrite <- Er]]. intros ->. cbn [app] in Hr.
    destruct u as [|c u]; [by destruct Hu|]. pose proof (Hr c eq_refl) as Hw. destruct Hu as [_ Hu].
    apply Forall_cons in Hu as [Hu _]. congruence.
  - cbn [mbind option_bind]. destruct (bool_decide (trim_ascii_start rest = [])) eqn:Hc; [done|].
    apply bool_decide_eq_false in Hc. intros [= <-]. cbn [j_schedule j_user j_command]. destruct (proj1 (text_from_spec rest (trim_ascii_start rest))) as (gap & Er & Ht); [done|].
    split; [done|]. split; [done|]. exists b, gap. split; [done|]. by rewrite <- Er.
Qed.

Lemma split_job_complete line l job : job_line line l job -> split_job line l = Some job.
Proof.
  unfold split_job, job_line. cbv zeta. assert (Hn : exists n, (if starts_with #"@" line then 1 else 5) = S n)
    by (destruct (starts_with #"@" line); by eexists). destruct Hn as [n En]. rewrite En. clear En.
  destruct job as [schedule user command]. cbn [j_schedule j_user j_command].
  intros (Ha & Hs & before & gap & Hb & Hl & Ht).
  assert (Hc : bool_decide (S n = 1) && bool_decide (shortcut schedule = None) = false).
  { apply andb_false_iff. destruct (decide (S n = 1)) as [E|E]; [right|left]; apply bool_decide_eq_false; auto. }
  destruct (proj2 (text_from_spec (gap ++ command) command)) as (Hr & Etrim & Hne); [by exists gap|].
  destruct l as [|who], user as [u|]; try done.
  - destruct Hl as (between & Hbt & Hbn & Hu & ->).
    rewrite (proj2 (take_fields_spec _ n schedule (between ++ u ++ gap ++ command))); cbn [mbind option_bind].
    2: { exists before. split; [done|]. split; [done|]. split; [done|]. by apply blanks_breaks. }
    rewrite Hc, (proj2 (take_fields_spec _ 0 u (gap ++ command))); cbn [mbind option_bind].
    2: { exists between. by rewrite fields_one. }
    by rewrite Etrim, bool_decide_false.
  - subst line. rewrite (proj2 (take_fields_spec _ n schedule (gap ++ command))); cbn [mbind option_bind]; [|by exists before].
    by rewrite Hc, Etrim, bool_decide_false.
Qed.

(** ** What a line's entry says *)

Definition TOLD : list bytes := [ #"schedule"; #"parse_error"].
Definition tells (e : Entry.entry) : kind * enablement * trigger * option bytes * option bytes * (option bytes * option bytes) :=
  (e_kind e, e_enabled e, e_trigger e, e_principal e, e_command e, (e_raw e !! #"schedule", e_raw e !! #"parse_error")).

Lemma tells_note e k v : mem k TOLD = false -> tells (Entry.note e k v) = tells e.
Proof. intros Hk. unfold tells. by rewrite !(note_other TOLD) by (done || apply (bool_decide_eq_true_1 _); done). Qed.
Lemma tells_env e k v : tells (Entry.note e (env_key k) v) = tells e.
Proof. apply tells_note. apply bool_decide_eq_false. unfold env_key. by intros [E|[E|[]%elem_of_nil]%elem_of_cons]%elem_of_cons. Qed.
Lemma tells_flag e f : tells (Entry.flag e f) = tells e.
Proof. unfold Entry.flag. by destruct (mem f (e_flags e)). Qed.
Lemma tells_name_from_os e b : tells (name_from_os e b) = tells e.
Proof. unfold name_from_os. destruct (is_utf8 b); [done|]. by rewrite tells_note, tells_flag. Qed.
Lemma tells_note_dup e k n : mem k TOLD = false -> tells (note_dup e k n) = tells e.
Proof. intros Hk. unfold note_dup. destruct (1 <? n)%N; [by apply tells_note|done]. Qed.
Lemma tells_note_crlf b e : tells (note_crlf b e) = tells e.
Proof. unfold note_crlf. destruct b; [by apply tells_note|done]. Qed.
Lemma tells_inherit_env env e : tells (inherit_env env e) = tells e.
Proof.
  unfold inherit_env. revert e. induction (btree_to_list env) as [|kv l IH]; intros e; [done|]. cbn [foldl].
  rewrite IH. unfold note_new. destruct (e_raw e !! _); [done|]. apply tells_env.
Qed.
Lemma tells_finish env crlf e : tells (finish env crlf e) = tells e.
Proof. unfold finish. by rewrite tells_note_crlf, tells_inherit_env. Qed.

Definition with_told (e : Entry.entry) (c : option bytes) := 
  (e_kind e, e_enabled e, e_trigger e, e_principal e, c, (e_raw e !! #"schedule", e_raw e !! #"parse_error")).
Lemma tells_set_command e b : tells (set_command e b) = with_told e (Some b).
Proof.
  unfold set_command, with_told. cbv zeta. set (e1 := if is_utf8 b then e else _).
  assert (E1 : tells e1 = tells e) by (unfold e1; destruct (is_utf8 b); [done|apply tells_flag]).
  set (e2 := if existsb _ b then _ else e1).
  assert (E2 : tells e2 = tells e) by (unfold e2; destruct (existsb _ b); [by rewrite tells_note|done]).
  clearbody e2. unfold tells. cbn [with_command e_kind e_enabled e_trigger e_principal e_command e_raw].
  by injection E2 as -> -> -> -> _ -> ->.
Qed.
Lemma tells_command_target cmd e : tells (snd (command_target cmd e)) = tells e.
Proof.
  unfold command_target. generalize (S (length cmd)). intros fuel. revert cmd e.
  induction fuel as [|fuel IH]; intros cmd e; [done|]. cbn [command_target_from].
  destruct (take_fields cmd 1) as [[w tail]|]; [|done]. destruct (env_assignment w) as [[k v]|]; [|done].
  rewrite IH. apply tells_env.
Qed.
Lemma tells_with_target e b : tells (with_target e b) = with_told e (Some b).
Proof.
  unfold with_target. pose proof (tells_command_target b (set_command e b)) as E.
  destruct (command_target b (set_command e b)) as [target e']. cbn [snd] in E.
  change (tells (set_target_path e' target)) with (tells e'). by rewrite E, tells_set_command.
Qed.

Lemma made_tells k name e : made k name e ->
  (e_kind e, e_enabled e, e_principal e, e_command e, (e_raw e !! #"schedule", e_raw e !! #"parse_error")) =
  (k, Enablement.Unknown, None, None, (None, None)).
Proof.
  intros [-> _ -> -> _ -> Hn].
  assert (Hnone : forall k, mem k MADE_KEYS = false -> e_raw e !! k = None).
  { intros key Hm. apply eq_None_not_Some. intros Hs%Hn. unfold mem in Hm. by apply bool_decide_eq_false in Hm. }
  by rewrite !Hnone.
Qed.

(** What the entry of a line of a table has to say: a line that parses is on,
    for its user, and its command is the line's; one that does not is kept
    whole and marked. *)
Definition job_told (l : layout) (job : cron_job) :=
  (Kind.Cron, Enablement.Enabled, default Trigger.Schedule (shortcut (j_schedule job)),
   match j_user job with Some u => Some (from_utf8_lossy u) | None => Layout.principal l end,
   Some (fst (split_stdin (j_command job))), (Some (from_utf8_lossy (j_schedule job)), @None bytes)).
Definition bad_told (line : bytes) (principal : option bytes) (why : bytes) :=
  (Kind.Cron, Enablement.Unknown, Trigger.Schedule, principal, Some line, (@None bytes, Some why)).
Definition tab_told (l : layout) (line : bytes) :=
  match split_job line l with Some job => job_told l job | None => bad_told line (Layout.principal l) BAD_LINE end.

Lemma tells_schedule e v :
  tells (Entry.note e #"schedule" v) =
  (e_kind e, e_enabled e, e_trigger e, e_principal e, e_command e, (Some v, e_raw e !! #"parse_error")).
Proof. unfold tells. cbn [Entry.note set_raw e_kind e_enabled e_trigger e_principal e_command e_raw]. by simplify_map_eq. Qed.
Lemma tells_parse_error e v :
  tells (Entry.note e #"parse_error" v) =
  (e_kind e, e_enabled e, e_trigger e, e_principal e, e_command e, (e_raw e !! #"schedule", Some v)).
Proof. unfold tells. cbn [Entry.note set_raw e_kind e_enabled e_trigger e_principal e_command e_raw]. by simplify_map_eq. Qed.

Lemma job_facts_told l job dup name e : made Kind.Cron name e -> tells (job_facts l job dup e) = job_told l job.
Proof.
  intros Hm%made_tells. unfold job_facts, job_told. cbv zeta.
  set (e0 := note_dup e _ dup). assert (E0 : tells e0 = tells e) by (by apply tells_note_dup). clearbody e0.
  set (e1 := Entry.note _ #"schedule" _). set (e2 := match shortcut _ with Some _ => _ | None => _ end).
  assert (E2 : tells e2 = tells e1).
  { unfold e2. destruct (shortcut _); [done|]. destruct (odd_field _); [by rewrite tells_note|done]. }
  unfold e1 in E2. rewrite tells_schedule in E2. clearbody e2. destruct (split_stdin (j_command job)) as [command stdin].
  set (e3 := match stdin with Some _ => _ | None => _ end).
  assert (E3 : tells e3 = tells e2) by (unfold e3; destruct stdin; [by rewrite tells_note|done]). clearbody e3.
  rewrite tells_with_target. unfold with_told. rewrite E2 in E3. unfold tells in E3, E0. cbn [fst].
  cbn [set_principal set_enabled set_trigger e_kind e_enabled e_trigger e_principal e_command e_raw] in E3.
  injection E3 as -> -> -> -> _ -> ->. injection E0 as -> _ _ _ _ _ ->. by injection Hm as -> _ _ _ _ ->.
Qed.

Lemma malformed_facts_told line pr dup name e :
  made Kind.Cron name e -> tells (malformed_facts line pr dup e) = bad_told line pr BAD_LINE.
Proof.
  intros Hm%made_tells. unfold malformed_facts, bad_told. cbv zeta. rewrite tells_set_command. unfold with_told.
  set (e0 := note_dup e _ dup). assert (E0 : tells e0 = tells e) by (by apply tells_note_dup). clearbody e0.
  cbn [Entry.note set_raw set_principal set_enabled set_trigger e_kind e_enabled e_trigger e_principal e_command e_raw].
  rewrite lookup_insert_eq, lookup_insert_ne by done. unfold tells in E0. injection E0 as -> _ _ _ _ -> _.
  by injection Hm as -> _ _ _ -> _.
Qed.

(** The lines of a table that are neither blank, comment nor setting. *)
Definition is_job (line : bytes) : bool :=
  negb (comment_or_blank line) && match env_assignment line with Some _ => false | None => true end.
Definition job_lines (b : bytes) : list bytes := List.filter is_job (trim_ascii <$> split_on (is_byte newline) b).

Section accounts.
Context `{Strerror} `{Blake3}.

(** The entries so far are those of the job lines so far. *)
Definition accounted {T} (told : bytes -> T) (tell : Entry.entry -> T) (pre : list bytes) (st : tab_state) : Prop :=
  tell <$> t_out st = told <$> List.filter is_job (trim_ascii <$> pre).

Lemma accounted_skip {T} (told : bytes -> T) tell pre line st env :
  is_job (trim_ascii line) = false ->
  accounted told tell pre st -> accounted told tell (pre ++ [line]) (mk_tab env (t_used st) (t_out st)).
Proof.
  unfold accounted. intros Hj E. rewrite fmap_app, List.filter_app. cbn [t_out]. rewrite E. cbn. by rewrite Hj, app_nil_r.
Qed.
Lemma accounted_job {T} (told : bytes -> T) tell pre line st env used e :
  is_job (trim_ascii line) = true -> tell e = told (trim_ascii line) ->
  accounted told tell pre st -> accounted told tell (pre ++ [line]) (mk_tab env used (t_out st ++ [e])).
Proof.
  unfold accounted. intros Hj Et E. rewrite fmap_app, List.filter_app, !fmap_app. cbn [t_out].
  rewrite fmap_app, E. cbn. rewrite Hj. cbn. by rewrite Et.
Qed.

Lemma malformed_told p line pr used :
  yields (fun x => tells (fst x) = bad_told line pr BAD_LINE) (malformed p line pr used).
Proof.
  unfold malformed. destruct (unique used _) as [[name dup] used']. eapply yields_bind; [apply entry_made|].
  intros e He. apply yields_ret. by eapply malformed_facts_told.
Qed.

Lemma table_line_told {T} (told : bytes -> T) tell make crlf pre st line :
  (forall env e, tell (finish env crlf e) = tell e) ->
  (forall line used, yields (fun x => tell (fst x) = told line) (make line used)) ->
  accounted told tell pre st -> yields (accounted told tell (pre ++ [line])) (table_line make crlf st line).
Proof.
  intros Hf Hmake Hst. unfold table_line. cbv zeta. set (t := trim_ascii line).
  destruct (comment_or_blank t) eqn:Ec.
  { apply yields_ret. destruct st as [env used out]. apply (accounted_skip _ _ _ _ (mk_tab env used out)); [|done].
    unfold is_job. fold t. by rewrite Ec. }
  destruct (env_assignment t) as [[k v]|] eqn:Ee.
  { apply yields_ret. apply accounted_skip; [|done]. unfold is_job. fold t. by rewrite Ec, Ee. }
  eapply yields_bind; [apply Hmake|]. intros [e used] He. apply yields_ret. apply accounted_job; [|by rewrite Hf|done].
  unfold is_job. fold t. by rewrite Ec, Ee.
Qed.
Lemma table_body_told told make b :
  (forall line used, yields (fun x => tells (fst x) = told line) (make line used)) ->
  yields (fun out => tells <$> out = told <$> job_lines b) (table_body make b).
Proof.
  intros Hmake. apply (yields_bind (accounted told tells (split_on (is_byte newline) b))); [|intros st Hst; by apply yields_ret].
  apply yields_scan; [done|]. intros pre a s. apply table_line_told; [|done]. intros env e. apply tells_finish.
Qed.

Lemma crontab_entry_told p l line used : yields (fun x => tells (fst x) = tab_told l line) (crontab_entry p l line used).
Proof.
  unfold crontab_entry, tab_told. destruct (split_job line l) as [job|]; [|apply malformed_told].
  destruct (unique _ _) as [[name dup] used']. eapply yields_bind; [apply entry_made|]. intros e He.
  apply yields_ret. by eapply job_facts_told.
Qed.

(** anacron's lines. *)
Definition anacron_told (line : bytes) :=
  match anacron_job line with
  | Some (period, _, _, command) =>
      (Kind.Cron, Enablement.Enabled, Trigger.Schedule, Some #"root", Some command, (Some (from_utf8_lossy period), @None bytes))
  | None => bad_told line (Some #"root") BAD_LINE
  end.

Lemma anacron_facts_told period delay command dup name e :
  made Kind.Cron name e ->
  tells (anacron_facts period delay command dup e) =
  (Kind.Cron, Enablement.Enabled, Trigger.Schedule, Some #"root", Some command, (Some (from_utf8_lossy period), @None bytes)).
Proof.
  intros Hm%made_tells. unfold anacron_facts. cbv zeta. rewrite tells_with_target.
  set (e0 := note_dup e _ dup). assert (E0 : tells e0 = tells e) by (by apply tells_note_dup). clearbody e0.
  unfold with_told. cbn [Entry.note set_raw set_principal set_enabled set_trigger e_kind e_enabled e_trigger e_principal e_command e_raw].
  rewrite (lookup_insert_ne _ #"delay_minutes" #"schedule"), lookup_insert_eq, !(lookup_insert_ne _ _ #"parse_error") by done.
  unfold tells in E0. injection E0 as -> _ _ _ _ _ ->. by injection Hm as -> _ _ _ _ ->.
Qed.

Lemma anacron_entry_told line used : yields (fun x => tells (fst x) = anacron_told line) (anacron_entry line used).
Proof.
  unfold anacron_entry, anacron_told. destruct (anacron_job line) as [[[[period delay] id] command]|]; [|apply malformed_told].
  destruct (unique _ _) as [[name dup] used']. eapply yields_bind; [apply entry_made|]. intros e He.
  apply yields_ret. by eapply anacron_facts_told.
Qed.
End accounts.

(** ** A file that is a link *)

Section tables.
Context `{Strerror} `{Blake3}.

Definition link_there (h : snapshot) (cx : ctx) (p : path) : bool :=
  match run h (stat (cx_root cx) p) with Ok m => m_is_symlink m | Err _ => false end.
Definition link_told (k : kind) (pr : option bytes) :=
  (k, Enablement.Unknown, Trigger.Schedule, pr, @None bytes, (@None bytes, Some AN_LINK)).

(** A link is reported and left alone: nothing is read, nothing recorded. Any
    other file is an entry for each of its job lines, in their order. *)
Definition accounts {T} (told : bytes -> T) (tell : Entry.entry -> T) (h : snapshot) (cx : ctx) (k : kind) (p : path)
    (pr : option bytes) (m : coll (list Entry.entry)) : Prop :=
  if link_there h cx p then
    after h cx m = cx /\ exists e, value h cx m = [e] /\ tells e = link_told k pr
  else
    match value h cx (read p) with
    | None => value h cx m = []
    | Some b => tell <$> value h cx m = told <$> job_lines b
    end.

Lemma unparsed_link_told k p pr : yields (fun e => tells e = link_told k pr) (unparsed_link k p pr).
Proof.
  unfold unparsed_link. eapply yields_bind; [apply entry_made|]. intros e Hm%made_tells. apply yields_ret.
  rewrite tells_parse_error. unfold link_told. cbn [set_principal set_enabled set_trigger e_kind e_enabled e_trigger e_principal e_command e_raw].
  by injection Hm as -> _ _ -> -> _.
Qed.
Lemma after_unparsed_link h cx k p pr : after h cx (unparsed_link k p pr) = cx.
Proof. unfold unparsed_link. rewrite after_bind. unfold after, value, entry. by rewrite run_bind. Qed.

Lemma run_is_symlink h cx p : run h (is_symlink p cx) = (link_there h cx p, cx).
Proof. unfold is_symlink, lift, link_there. by rewrite !run_bind. Qed.
Lemma value_is_symlink h cx p : value h cx (is_symlink p) = link_there h cx p.
Proof. unfold value. by rewrite run_is_symlink. Qed.
Lemma after_is_symlink h cx p : after h cx (is_symlink p) = cx.
Proof. unfold after. by rewrite run_is_symlink. Qed.

Lemma read_table_link h cx k p pr f :
  link_there h cx p = true ->
  after h cx (read_table k p pr f) = cx /\ exists e, value h cx (read_table k p pr f) = [e] /\ tells e = link_told k pr.
Proof.
  intros Hl. unfold read_table. rewrite after_bind, value_bind. rewrite value_is_symlink, after_is_symlink, Hl.
  rewrite after_bind, value_bind, after_unparsed_link. split; [done|].
  exists (value h cx (unparsed_link k p pr)). split; [done|]. apply (yields_run (fun e => tells e = _)), unparsed_link_told.
Qed.
Lemma read_table_file h cx k p pr f :
  link_there h cx p = false ->
  value h cx (read_table k p pr f) =
  match value h cx (read p) with None => [] | Some b => value h (after h cx (read p)) (f b) end.
Proof.
  intros Hl. unfold read_table. rewrite value_bind. rewrite value_is_symlink, after_is_symlink, Hl.
  rewrite value_bind. by destruct (value h cx (read p)).
Qed.

Lemma table_accounts told h cx k p pr make :
  (forall line used, yields (fun x => tells (fst x) = told line) (make line used)) ->
  accounts told tells h cx k p pr (read_table k p pr (table_body make)).
Proof.
  intros Hmake. unfold accounts. destruct (link_there h cx p) eqn:El; [by apply read_table_link|].
  rewrite read_table_file by done. destruct (value h cx (read p)) as [b|]; [|done].
  apply (yields_run (fun out => tells <$> out = told <$> job_lines b)). by apply table_body_told.
Qed.

(** ** The system's tables *)

Definition not_enabled (e : Entry.entry) : Prop := e_enabled e <> Enablement.Enabled.
Lemma switch_off_not_enabled why e : not_enabled (switch_off why e).
Proof. unfold switch_off, not_enabled. by case_bool_decide. Qed.

(** A file of cron.d whose name the daemon passes over gives nothing that is
    on; a BusyBox host has nothing on from any system table. *)
Lemma cron_d_file_off f out ent :
  cron_d_skips f (de_name ent) <> None ->
  yields (fun out' => exists es, out' = out ++ es /\ Forall not_enabled es) (cron_d_file f out ent).
Proof.
  intros Hs. apply yields_bind_any. intros es. apply yields_ret. eexists. split; [done|].
  destruct (cron_d_skips f _); [|done]. apply Forall_fmap, Forall_true. intros e. apply switch_off_not_enabled.
Qed.
Lemma system_tables_off : yields (Forall not_enabled) (system_tables Flavour.BusyBox).
Proof.
  apply yields_bind_any. intros out. apply yields_bind_any. intros ents. apply yields_bind_any. intros out'. apply yields_ret.
  rewrite bool_decide_true by done. apply Forall_fmap, Forall_true. intros e. apply switch_off_not_enabled.
Qed.

(** ** Scripts *)

(** A run-parts script as its entry has it. *)
Definition script_on (d : path) (out : list Entry.entry) (f : run_parts_file) : bool :=
  match rp_not_run f with None => existsb (run_by_cron ([slash] ++ d)) out | Some _ => false end.

Lemma existsb_find {A} (f : A -> bool) l : existsb f l = match find f l with Some _ => true | None => false end.
Proof. induction l as [|x l IH]; [done|]. cbn. by destruct (f x). Qed.

Lemma script_facts_enabled r period d out f e :
  e_enabled (script_facts r period ((fun e => display_path (e_source e)) <$> find (run_by_cron ([slash] ++ d)) out) f e) =
  if script_on d out f then Enablement.Enabled else Enablement.Disabled.
Proof.
  unfold script_facts, script_on. cbv zeta. rewrite existsb_find. destruct (rp_not_run f), (find _ out); by cbn.
Qed.

Lemma run_parts_scripts_on flavour d period out :
  yields (fun es => exists files, length es = length files /\
      e_enabled <$> es = (fun f => if script_on d out f then Enablement.Enabled else Enablement.Disabled) <$> files /\
      (forall e, e ∈ es -> e_enabled e = Enablement.Enabled -> Exists (fun e' => run_by_cron ([slash] ++ d) e' = true) out))
    (run_parts_scripts flavour d period out).
Proof.
  apply yields_bind_any. intros files. apply yields_bind_any. intros r.
  set (on := fun f => if script_on d out f then Enablement.Enabled else Enablement.Disabled).
  apply (yields_mono (fun es => e_enabled <$> es = on <$> files)).
  - intros es E. exists files. split; [by rewrite <- (length_fmap e_enabled es), E, length_fmap|]. split; [done|].
    intros e He Hon. apply (list_elem_of_fmap_2 e_enabled) in He. rewrite E, Hon in He.
    apply list_elem_of_fmap in He as (f & Hf & _). unfold on, script_on in Hf.
    destruct (rp_not_run f); [done|]. destruct (existsb _ out) eqn:Ex; [|done].
    apply existsb_exists in Ex as (e' & Hin & Hr). apply Exists_exists. exists e'. split; [by apply list_elem_of_In|done].
  - induction files as [|f files IH]; [by apply yields_ret|]. cbn [map_coll].
    apply (yields_bind (fun e => e_enabled e = on f)).
    { apply yields_bind_any. intros e. apply yields_ret. apply script_facts_enabled. }
    intros e He. eapply yields_bind; [exact IH|]. intros es Hes. apply yields_ret. by rewrite !fmap_cons, He, Hes.
Qed.
End tables.

(** ** BusyBox's lines *)

Definition no_hash (t : bytes) : Prop := hash_byte ∉ t.

(** What comes before the first byte of a kind. *)
Definition until (f : byte -> bool) (l : bytes) : bytes := take (default (length l) (position f l)) l.
Lemma until_none f l : Forall (fun x => f x = false) (until f l).
Proof.
  unfold until. destruct (position f l) as [i|] eqn:E; cbn [default from_option id].
  - by apply position_Some in E as (_ & ? & _).
  - apply position_None in E. by rewrite take_ge.
Qed.
Lemma until_cons f c l : f c = false -> until f (c :: l) = c :: until f l.
Proof. intros Hc. unfold until. cbn [position]. rewrite Hc. by destruct (position f l). Qed.
Lemma until_no_hash f l : (forall x, f x = false -> x <> hash_byte) -> no_hash (until f l).
Proof. intros Hf Hin. pose proof (until_none f l) as Hn. eapply Forall_forall in Hn; [|exact Hin]. exact (Hf _ Hn eq_refl). Qed.

Lemma drop_while_end_elem {A} `{EqDecision A} (f : A -> bool) l x : x ∈ drop_while_end f l -> x ∈ l.
Proof.
  unfold drop_while_end. rewrite elem_of_reverse. intros Hin. destruct (drop_while_suffix f (reverse l)) as (p & E & _).
  apply elem_of_reverse. rewrite E. apply elem_of_app. by right.
Qed.
Lemma drop_while_end_cons {A} `{EqDecision A} (f : A -> bool) c l : f c = false -> drop_while_end f (c :: l) <> [].
Proof.
  intros Hc E. unfold drop_while_end in E. apply (f_equal reverse) in E. rewrite reverse_involutive, reverse_nil in E.
  destruct (drop_while_suffix f (reverse (c :: l))) as (p & Ep & Hp). rewrite E, app_nil_r in Ep.
  assert (Hin : c ∈ p) by (rewrite <- Ep; apply elem_of_reverse; by left). eapply Forall_forall in Hp; [|exact Hin]. congruence.
Qed.

(** A line with text in it gives one to [n] tokens, the first not empty and
    none with a hash: crond's reader never looks past what is there. *)
Definition tokens_ok (n : nat) (ts : list bytes) : Prop :=
  exists first more, ts = first :: more /\ length more < n /\ first <> [] /\ Forall no_hash ts.

Lemma last_token_ok c rest :
  blank_byte c = false -> c <> hash_byte -> tokens_ok 1 [drop_while_end blank_byte (before hash_byte (c :: rest))].
Proof.
  intros Hb Hc. change (before hash_byte (c :: rest)) with (until (is_byte hash_byte) (c :: rest)).
  eexists _, []. split; [done|]. split; [cbn; lia|]. split.
  - rewrite until_cons by (by apply bool_decide_eq_false). by apply drop_while_end_cons.
  - apply Forall_singleton. intros Hin%drop_while_end_elem. revert Hin. apply until_no_hash.
    intros x Hx ->. by apply bool_decide_eq_false in Hx.
Qed.

Lemma tokens_from_SS n rest :
  tokens_from (S (S n)) rest =
  let i := default (length rest) (position hash_or_blank rest) in
  let rest' := if starts_with [hash_byte] (drop i rest) then [] else drop_while blank_byte (drop i rest) in
  until hash_or_blank rest :: if bool_decide (rest' = []) || starts_with [hash_byte] rest' then [] else tokens_from (S n) rest'.
Proof. done. Qed.

Lemma tokens_from_ok n c rest : blank_byte c = false -> c <> hash_byte -> tokens_ok (S n) (tokens_from (S n) (c :: rest)).
Proof.
  revert c rest. induction n as [|n IH]; intros c rest Hb Hc; [by apply last_token_ok|].
  assert (Hcc : hash_or_blank c = false) by (unfold hash_or_blank; by rewrite bool_decide_false, Hb).
  assert (Hnh : no_hash (until hash_or_blank (c :: rest))).
  { apply until_no_hash. intros x Hx ->. unfold hash_or_blank in Hx. by rewrite bool_decide_true in Hx. }
  rewrite tokens_from_SS. cbv zeta. set (rest' := if starts_with _ _ then [] else _).
  assert (Hone : forall ts, length ts < S (S n) -> Forall no_hash ts -> tokens_ok (S (S n)) (until hash_or_blank (c :: rest) :: ts)).
  { intros ts Hl Hts. eexists _, ts. split; [done|]. split; [done|]. split; [by rewrite until_cons|by constructor]. }
  destruct (bool_decide (rest' = [])) eqn:E1; [apply Hone; [cbn; lia|constructor]|].
  destruct (starts_with [hash_byte] rest') eqn:E2; [apply Hone; [cbn; lia|constructor]|]. cbn [orb].
  apply bool_decide_eq_false in E1. destruct rest' as [|x r] eqn:Er; [done|]. subst rest'.
  assert (Hx : head (drop_while blank_byte (drop (default (length (c :: rest)) (position hash_or_blank (c :: rest))) (c :: rest))) = Some x)
    by (destruct (starts_with _ (drop _ _)); [done|by rewrite Er]).
  destruct (IH x r) as (f & m & E & Hl & _ & Hall).
  - by eapply drop_while_head.
  - intros ->. by rewrite (proj2 (starts_with_true [hash_byte] _)) in E2; [|eexists].
  - rewrite E in *. apply Hone; [cbn in *; lia|done].
Qed.

Lemma busybox_tokens_shape line tokens original :
  busybox_tokens line = Some (tokens, original) ->
  tokens_ok 6 tokens /\ original <> [] /\ exists b, line = b ++ original /\ Forall (fun x => blank_byte x = true) b.
Proof.
  unfold busybox_tokens. cbv zeta. destruct (drop_while_suffix blank_byte line) as (b & El & Hb).
  pose proof (drop_while_head blank_byte line) as Hh. set (l := drop_while blank_byte line) in *. clearbody l.
  destruct (comment_or_blank l) eqn:Ec; [done|]. unfold comment_or_blank in Ec.
  apply orb_false_iff in Ec as [E1%bool_decide_eq_false E2]. destruct l as [|c l]; [done|].
  assert (Hc : c <> hash_byte) by (intros ->; by rewrite (proj2 (starts_with_true #"#" _)) in E2; [|eexists]).
  pose proof (tokens_from_ok 5 c l (Hh c eq_refl) Hc) as Ht. revert Ht. generalize (tokens_from 6 (c :: l)).
  intros ts Ht [= <- <-]. split; [done|]. split; [done|]. by exists b.
Qed.

(** ** How many lines BusyBox's crond loads *)

Section busybox_laws.
Context `{Strerror} `{Blake3}.

Definition is_on (e : Entry.entry) : bool := bool_decide (e_enabled e = Enablement.Enabled).
(** Entries that are on: none where the file is ignored, else no more than the
    lines loaded so far nor than the limit. *)
Definition bb_bounded (not_run : option bytes) (limit : N) (st : bb_state) : Prop :=
  let on := N.of_nat (length (List.filter is_on (b_out st))) in
  (on <= b_loaded st)%N /\ (on <= match not_run with Some _ => 0 | None => limit end)%N.

Lemma bb_finish_off env crlf not_run limit past e :
  (is_Some not_run \/ past = true) -> is_on (bb_finish env crlf not_run limit past e) = false.
Proof. intros [[why ->]| ->]; unfold bb_finish, is_on; cbv zeta; [done|]. by destruct not_run. Qed.

Lemma busybox_line_bounded p user crlf not_run limit st line :
  bb_bounded not_run limit st -> yields (bb_bounded not_run limit) (busybox_crontab_line p user crlf not_run limit st line).
Proof.
  intros [H1 H2]. unfold busybox_crontab_line. destruct (busybox_tokens line) as [[tokens original]|]; [|by apply yields_ret].
  cbv zeta. destruct (is_setting _); [apply yields_ret; split; cbn [b_out b_loaded]; lia|].
  apply yields_bind_any. intros [e used]. apply yields_ret. unfold bb_bounded. cbn [b_out b_loaded]. cbv zeta.
  rewrite List.filter_app, length_app. set (e' := bb_finish _ _ _ _ _ _).
  assert (Hoff : (not_run <> None \/ (limit <? b_loaded st + 1)%N = true) -> is_on e' = false).
  { intros Ho. apply bb_finish_off. destruct Ho as [Hn|?]; [left; by destruct not_run|by right]. }
  cbn [List.filter]. destruct (is_on e') eqn:E; cbn [length]; [|lia]. destruct not_run as [why|].
  - assert (true = false) by (apply Hoff; left; congruence). done.
  - destruct (N.ltb_spec limit (b_loaded st + 1)); [|lia]. assert (true = false) by (apply Hoff; by right). done.
Qed.

Definition BUSYBOX_LIMIT (user : bytes) : N := if bool_decide (user = #"root") then 65534%N else 255%N.
Lemma busybox_body_bounded p user crlf not_run b :
  yields (bb_bounded not_run (BUSYBOX_LIMIT user))
    (fold_coll (busybox_crontab_line p user crlf not_run (BUSYBOX_LIMIT user)) (mk_bb ∅ ∅ 0 []) (continued_lines b)).
Proof.
  apply yields_fold; [split; cbn; lia|]. intros st line _. apply busybox_line_bounded.
Qed.

(** ** Names of jobs *)

Lemma words_by_ok s : Forall word (words_by ws s).
Proof.
  apply Forall_forall. intros w Hin. apply list_elem_of_In, List.filter_In in Hin as [Hin%list_elem_of_In Hne].
  apply negb_true_iff, bool_decide_eq_false in Hne. split; [done|]. by eapply split_on_no_sep.
Qed.
Definition space : byte := " ".
Lemma word_no_space w : word w -> Forall (fun b => is_byte space b = false) w.
Proof.
  intros [_ Hw]. eapply Forall_impl; [exact Hw|]. intros b Hb. apply bool_decide_eq_false. intros ->. by vm_compute in Hb.
Qed.
Lemma join_words_inj l l' : Forall word l -> Forall word l' -> join #" " l = join #" " l' -> l = l'.
Proof.
  intros Hl Hl' E.
  assert (Hnil : forall k : list bytes, Forall word k -> join #" " k = [] -> k = []).
  { intros [|w [|w' k]] Hk Ek; [done| |]; apply Forall_cons in Hk as [[Hw _] _]; [done|]. by destruct w. }
  destruct (decide (l = [])) as [->|Hne]; [symmetry; by apply Hnil|].
  assert (Hne' : l' <> []) by (intros ->; apply Hne, Hnil; done).
  assert (Hs : forall k, Forall word k -> Forall (Forall (fun b => is_byte space b = false)) k)
    by (intros k Hk; eapply Forall_impl; [exact Hk|]; apply word_no_space).
  apply (f_equal (split_on (is_byte space))) in E. change #" " with [space] in E.
  rewrite !split_on_join in E by (done || by apply Hs). done.
Qed.

Definition name_input (schedule command : bytes) : bytes := Entry.id_input [normalise_ws schedule; command].

Lemma job_name_eq s c s' c' :
  Forall framed [normalise_ws s; normalise_ws s'; c; c'] ->
  (job_name s c = job_name s' c' -> name_input s c = name_input s' c') ->
  job_name s c = job_name s' c' <-> words_by ws s = words_by ws s' /\ c = c'.
Proof.
  intros Hf Hc. split.
  - intros E%Hc. apply id_input_inj in E; [|repeat (apply Forall_cons in Hf as [? Hf]; try (apply Forall_cons; split; [done|]))..].
    + injection E as E ->. split; [|done]. eapply join_words_inj; [apply words_by_ok..|exact E].
    + apply Forall_nil_2.
    + apply Forall_nil_2.
  - intros [E ->]. unfold job_name, normalise_ws. by rewrite E.
Qed.
End busybox_laws.

(** ** The body of an at job *)

(** What a line of the preamble can be, outside the guard. *)
Definition preamble_text (t : bytes) : bool :=
  comment_or_blank t || starts_with #"umask " t || starts_with #"export " t || starts_with #"cd " t
  || match assignment t with Some _ => true | None => false end.
Definition span_of (lines : list bytes) : nat := sum_list_with (fun l => length l + 1) lines.

Lemma at_line_none st line : at_line st line = None -> preamble_text (trim_ascii line) = false.
Proof.
  unfold at_line, preamble_text. destruct st as [pos uid env guard]. cbv zeta. destruct guard; [done|].
  destruct (comment_or_blank _); [done|]. destruct (starts_with #"umask " _); [done|]. destruct (starts_with #"export " _); [done|].
  destruct (starts_with #"cd " _); [done|]. unfold at_env. by destruct (assignment _) as [[name raw]|].
Qed.
Lemma at_line_pos st line st' : at_line st line = Some st' -> at_pos st' = at_pos st + (length line + 1).
Proof.
  unfold at_line. destruct st as [pos uid env guard]. cbv zeta. cbn [at_pos].
  destruct guard; [by intros [= <-]|]. destruct (comment_or_blank _); [by intros [= <-]|].
  destruct (_ || _); [by intros [= <-]|]. destruct (starts_with #"cd " _); [by intros [= <-]|].
  destruct (at_env _) as [[k v]|]; [by intros [= <-]|done].
Qed.
Lemma at_lines_split st lines :
  exists pre body, lines = pre ++ body /\ at_pos (at_lines st lines) = at_pos st + span_of pre /\
    forall line, head body = Some line -> preamble_text (trim_ascii line) = false.
Proof.
  revert st. induction lines as [|line lines IH]; intros st; cbn [at_lines]; [by exists [], []|].
  destruct (at_line st line) as [st'|] eqn:E.
  - destruct (IH st') as (pre & body & -> & Ep & Hb). exists (line :: pre), body. split; [done|]. split; [|done].
    rewrite Ep, (at_line_pos _ _ _ E). cbn. unfold span_of. lia.
  - exists [], (line :: lines). split; [done|]. split; [cbn; lia|]. intros l [= <-]. by eapply at_line_none.
Qed.

Lemma drop_span (pre body : list bytes) :
  drop (Nat.min (span_of pre) (length (join [newline] (pre ++ body)))) (join [newline] (pre ++ body)) = join [newline] body.
Proof.
  assert (Hj : forall (l : bytes) ls, ls <> [] -> join [newline] (l :: ls) = (l ++ [newline]) ++ join [newline] ls).
  { intros l ls Hne. destruct ls; [done|]. cbn [join]. by rewrite <- app_assoc. }
  induction pre as [|l pre IH]; [done|]. cbn [app]. destruct (decide (pre ++ body = [])) as [E|E].
  - apply app_nil in E as [-> ->]. cbn. rewrite drop_ge; [done|lia].
  - rewrite Hj by done. change (span_of (l :: pre)) with (length l + 1 + span_of pre).
    rewrite length_app. assert (El : length (l ++ [newline]) = length l + 1) by (rewrite length_app; cbn; lia).
    rewrite El, Nat.add_min_distr_l, <- El, <- drop_drop, drop_app_length. exact IH.
Qed.

Section at_laws.
Context `{Strerror} `{Blake3}.

Lemma set_command_command e b : e_command (set_command e b) = Some b.
Proof. done. Qed.

Lemma raw_uid_env (env : list (bytes * bytes)) e :
  e_raw (foldl (fun e kv => Entry.note e (env_key (fst kv)) (snd kv)) e env) !! #"uid" = e_raw e !! #"uid".
Proof.
  revert e. induction env as [|kv env IH]; intros e; [done|]. cbn [foldl]. rewrite IH.
  cbn [Entry.note set_raw e_raw]. by rewrite lookup_insert_ne.
Qed.
Lemma at_facts_uid users fname b e u :
  snd (fst (at_preamble b)) = Some u -> e_raw (at_facts users fname b e) !! #"uid" = Some (dec u).
Proof.
  unfold at_facts. destruct (at_preamble b) as [[pos uid] env]. cbn [fst snd]. intros ->. cbv zeta.
  assert (Hs : forall e b, e_raw (set_command e b) !! #"uid" = e_raw e !! #"uid").
  { intros e0 b0. unfold set_command. cbv zeta. cbn [with_command e_raw].
    assert (E : e_raw (if is_utf8 b0 then e0 else Entry.flag e0 Flag.EncodingAnomaly) = e_raw e0)
      by (destruct (is_utf8 b0); [done|]; unfold Entry.flag; by destruct (mem _ _)).
    destruct (existsb _ b0); [cbn [Entry.note set_raw e_raw]; rewrite lookup_insert_ne by done|]; by rewrite E. }
  rewrite Hs. destruct (forallb ws _); [cbn [Entry.note set_raw e_raw]; rewrite lookup_insert_ne by done|];
    rewrite raw_uid_env; cbn [set_principal Entry.note set_raw e_raw default from_option id]; by rewrite lookup_insert_eq.
Qed.

Lemma at_facts_body users fname b e :
  exists pre body, split_on (is_byte newline) b = pre ++ body /\
    e_command (at_facts users fname b e) = Some (join [newline] body) /\
    forall line, head body = Some line -> preamble_text (trim_ascii line) = false.
Proof.
  destruct (at_lines_split (mk_preamble 0 None ∅ false) (split_on (is_byte newline) b)) as (pre & body & E & Ep & Hb).
  exists pre, body. split; [done|]. split; [|done]. unfold at_facts, at_preamble. cbv zeta beta.
  rewrite set_command_command, Ep. f_equal. cbn [at_pos Nat.add].
  assert (Eb : b = join [newline] (pre ++ body)).
  { rewrite <- E. symmetry. apply (join_split_on newline). intros x. apply is_byte_true. }
  rewrite <- (drop_span pre body), <- Eb. f_equal. lia.
Qed.
End at_laws.

(** ** What every entry is *)

(** A cron or at entry, run at boot or on a schedule; where it is on, it says
    what is run. *)
Record typed (e : Entry.entry) : Prop := mk_typed {
  ty_kind : e_kind e = Kind.Cron \/ e_kind e = Kind.AtJob;
  ty_trigger : e_trigger e = Trigger.Boot \/ e_trigger e = Trigger.Schedule;
  ty_runs : e_enabled e = Enablement.Enabled -> is_Some (e_command e) \/ is_Some (e_target_path e)
}.

Lemma shortcut_trigger s t : shortcut s = Some t -> t = Trigger.Boot \/ t = Trigger.Schedule.
Proof. unfold shortcut. cbv zeta. case_bool_decide; [intros [= <-]; by left|]. case_bool_decide; [intros [= <-]; by right|done]. Qed.

Lemma tells_typed e k en tr pr c raws :
  tells e = (k, en, tr, pr, c, raws) -> k = Kind.Cron \/ k = Kind.AtJob -> tr = Trigger.Boot \/ tr = Trigger.Schedule ->
  (en = Enablement.Enabled -> is_Some c) -> typed e.
Proof. intros [= <- <- <- _ <- _] Hk Ht Hc. split; [done|done|]. intros He. left. by apply Hc. Qed.

Lemma typed_note e k v : typed e -> typed (Entry.note e k v).
Proof. by intros []. Qed.
Lemma typed_disabled e : typed e -> typed (set_enabled e Enablement.Disabled).
Proof. intros [Hk Ht _]. by split. Qed.
Lemma typed_switch_off why e : typed e -> typed (switch_off why e).
Proof. intros He. unfold switch_off. case_bool_decide; [by apply typed_note, typed_disabled|done]. Qed.

Lemma typed_told l line e : tells e = tab_told l line -> typed e.
Proof.
  unfold tab_told. destruct (split_job line l) as [job|]; intros E; (eapply tells_typed; [exact E|by left| |]).
  - destruct (shortcut _) eqn:Es; [by eapply shortcut_trigger|by right].
  - by eexists.
  - by right.
  - done.
Qed.
Lemma typed_bad line pr why e : tells e = bad_told line pr why -> typed e.
Proof. intros E. eapply tells_typed; [exact E|by left|by right|done]. Qed.
Lemma typed_anacron line e : tells e = anacron_told line -> typed e.
Proof.
  unfold anacron_told. destruct (anacron_job line) as [[[[period delay] id] command]|]; [|by apply typed_bad].
  intros E. eapply tells_typed; [exact E|by left|by right|by eexists].
Qed.

Section typing.
Context `{Strerror} `{Blake3}.

Lemma read_table_typed k p pr f :
  k = Kind.Cron \/ k = Kind.AtJob -> (forall b, yields (Forall typed) (f b)) -> yields (Forall typed) (read_table k p pr f).
Proof.
  intros Hk Hf. apply yields_bind_any. intros [|].
  - eapply yields_bind; [apply unparsed_link_told|]. intros e He. apply yields_ret, Forall_singleton.
    eapply tells_typed; [exact He|done|by right|done].
  - apply yields_bind_any. intros [b|]; [apply Hf|by apply yields_ret].
Qed.
Lemma told_typed {T} (told : bytes -> T) tell es (ls : list bytes) :
  (forall l (e : Entry.entry), tell e = told l -> typed e) -> tell <$> es = told <$> ls -> Forall typed es.
Proof.
  intros Ht E. apply Forall_forall. intros e He. apply (list_elem_of_fmap_2 tell) in He. rewrite E in He.
  apply list_elem_of_fmap in He as (l & El & _). by eapply Ht.
Qed.

Lemma crontab_typed p l : yields (Forall typed) (crontab p l).
Proof.
  unfold crontab. apply read_table_typed; [by left|]. intros b. eapply yields_mono; [|apply (table_body_told (tab_told l)); intros; apply crontab_entry_told].
  intros out E. eapply told_typed; [|exact E]. intros line e. apply typed_told.
Qed.
Lemma anacrontab_typed : yields (Forall typed) anacrontab.
Proof.
  unfold anacrontab. apply read_table_typed; [by left|]. intros b. eapply yields_mono; [|apply (table_body_told anacron_told); intros; apply anacron_entry_told].
  intros out E. eapply told_typed; [|exact E]. intros line e. apply typed_anacron.
Qed.

Lemma fold_note_tells (env : list (bytes * bytes)) e :
  tells (foldl (fun e kv => Entry.note e (env_key (fst kv)) (snd kv)) e env) = tells e.
Proof. revert e. induction env as [|kv env IH]; intros e; [done|]. cbn [foldl]. rewrite IH. apply tells_env. Qed.
Lemma tells_at_named n e : tells (at_named n e) = tells e.
Proof.
  unfold at_named. destruct (at_name n) as [[[q j] w]|]; [|by apply tells_note]. cbv zeta.
  destruct (from_str_radix _ _ _); by rewrite !tells_note.
Qed.

Lemma at_facts_typed users fname b name e : made Kind.AtJob name e -> typed (at_facts users fname b e).
Proof.
  intros Hm. unfold at_facts. destruct (at_preamble b) as [[pos uid] env]. cbv zeta.
  match goal with |- context [foldl _ ?x (btree_to_list env)] => set (e1 := x) end.
  set (e2 := foldl _ e1 _). assert (E2 : tells e2 = tells e1) by apply fold_note_tells. clearbody e2.
  set (e3 := if forallb ws _ then _ else e2).
  assert (E3 : (e_kind e3, e_trigger e3) = (e_kind e2, e_trigger e2)) by (unfold e3; by destruct (forallb ws _)).
  assert (E1 : (e_kind e1, e_trigger e1) = (Kind.AtJob, Trigger.Schedule)).
  { unfold e1. cbn [set_principal e_kind e_trigger Entry.note set_raw].
    match goal with |- context [at_named fname ?x] => pose proof (tells_at_named fname x) as En; set (e0 := at_named fname x) in * end.
    clearbody e0. injection En as -> _ -> _ _ _ _. cbn [set_enabled set_trigger e_kind e_trigger].
    pose proof (tells_name_from_os e fname) as Ef. injection Ef as -> _ _ _ _ _ _. by rewrite (md_kind _ _ _ Hm). }
  injection E2 as K2 _ T2 _ _ _ _. injection E3 as K3 T3. injection E1 as K1 T1.
  eapply tells_typed; [apply tells_set_command|rewrite K3, K2, K1; by right|rewrite T3, T2, T1; by right|by eexists].
Qed.

Lemma at_job_typed p fname : yields (Forall typed) (at_job p fname).
Proof.
  unfold at_job. apply read_table_typed; [by right|]. intros b. apply yields_bind_any. intros users.
  eapply yields_bind; [apply entry_made|]. intros e He. apply yields_ret, Forall_singleton. by eapply at_facts_typed.
Qed.

Lemma bb_finish_typed env crlf not_run limit past e : typed e -> typed (bb_finish env crlf not_run limit past e).
Proof.
  intros He. unfold bb_finish. cbv zeta. set (e1 := note_crlf _ _).
  assert (H1 : typed e1).
  { assert (E1 : tells e1 = tells e) by (unfold e1; rewrite tells_note_crlf, tells_note, tells_inherit_env; done).
    destruct He as [Hk Ht Hr]. pose proof E1 as E1'. injection E1 as K E T _ C _ _. split; [by rewrite K|by rewrite T|].
    rewrite E, C. intros Hon. destruct (Hr Hon) as [?|Ht']; [by left|]. right. unfold e1, note_crlf.
    assert (Hi : forall env e, e_target_path (inherit_env env e) = e_target_path e).
    { intros env0 e0. unfold inherit_env. revert e0. induction (btree_to_list env0) as [|kv l IH]; intros e0; [done|].
      cbn [foldl]. rewrite IH. unfold note_new. by destruct (e_raw e0 !! _). }
    destruct crlf; cbn [Entry.note set_raw e_target_path]; by rewrite Hi. }
  clearbody e1. destruct not_run; [by apply typed_note, typed_disabled|]. destruct past; [by apply typed_note, typed_disabled|done].
Qed.

Lemma bb_job_facts_typed user schedule command trigger suspect dup name e :
  trigger = Trigger.Boot \/ trigger = Trigger.Schedule -> made Kind.Cron name e ->
  typed (bb_job_facts user schedule command trigger suspect dup e).
Proof.
  intros Ht Hm. unfold bb_job_facts. cbv zeta. set (e1 := with_target _ command).
  assert (H1 : typed e1).
  { eapply tells_typed; [apply tells_with_target| |exact Ht|by eexists]. left.
    cbn [Entry.note set_raw set_principal set_enabled set_trigger e_kind]. unfold note_dup.
    destruct (1 <? dup)%N; cbn [Entry.note set_raw e_kind]; by rewrite (md_kind _ _ _ Hm). }
  clearbody e1. destruct suspect; [by apply typed_note|done].
Qed.

Lemma read_bb_line_trigger tokens original schedule command trigger suspect :
  read_bb_line tokens original = BbJob schedule command trigger suspect -> trigger = Trigger.Boot \/ trigger = Trigger.Schedule.
Proof.
  unfold read_bb_line. cbv zeta. destruct (starts_with #"@" _).
  - destruct (shortcut _) eqn:Es; [|done]. destruct (2 <=? _); [|done]. intros [= _ _ <- _]. by eapply shortcut_trigger.
  - destruct (_ <? 6); [done|]. intros [= _ _ <- _]. by right.
Qed.

Lemma busybox_crontab_typed p user : yields (Forall typed) (busybox_crontab p user).
Proof.
  unfold busybox_crontab. apply read_table_typed; [by left|]. intros b. apply yields_bind_any. intros not_run. cbv zeta.
  apply (yields_bind (fun st => Forall typed (b_out st))); [|intros st Hst; by apply yields_ret].
  apply yields_fold; [done|]. intros st line _ Hst. unfold busybox_crontab_line.
  destruct (busybox_tokens line) as [[tokens original]|]; [|by apply yields_ret]. cbv zeta.
  destruct (is_setting _); [by apply yields_ret|]. apply (yields_bind (fun x => typed (fst x))).
  - destruct (read_bb_line tokens original) as [schedule command trigger suspect|why] eqn:Er.
    + destruct (unique _ _) as [[name dup] used]. eapply yields_bind; [apply entry_made|]. intros e He. apply yields_ret.
      eapply bb_job_facts_typed; [by eapply read_bb_line_trigger|exact He].
    + eapply yields_bind; [apply malformed_told|]. intros [e used] He. apply yields_ret, typed_note. by eapply typed_bad.
  - intros [e used] He. apply yields_ret, Forall_app. split; [done|]. by apply Forall_singleton, bb_finish_typed.
Qed.

Lemma each_file_typed skip f st d :
  (forall p name, yields (Forall typed) (f p name)) -> Forall typed (snd st) ->
  yields (fun st => Forall typed (snd st)) (each_file skip f st d).
Proof.
  intros Hf Hst. apply yields_bind_any. intros [[id|] seen]; [|by apply yields_ret]. apply yields_bind_any. intros ents.
  apply (yields_bind (Forall typed)); [|intros out Ho; by apply yields_ret].
  apply yields_fold; [done|]. intros out ent _ Ho. eapply yields_bind; [apply Hf|]. intros es Hes.
  apply yields_ret, Forall_app. by split.
Qed.
Lemma each_files_typed skip f st ds :
  (forall p name, yields (Forall typed) (f p name)) -> Forall typed (snd st) ->
  yields (fun st => Forall typed (snd st)) (fold_coll (each_file skip f) st ds).
Proof. intros Hf Hst. apply yields_fold; [done|]. intros st' d _ Hst'. by apply each_file_typed. Qed.

Lemma system_tables_typed f : yields (Forall typed) (system_tables f).
Proof.
  assert (Hoff : forall why es, Forall typed es -> Forall typed (switch_off why <$> es)).
  { intros why es Hes. apply Forall_fmap. eapply Forall_impl; [exact Hes|]. intros e. apply typed_switch_off. }
  unfold system_tables. eapply yields_bind; [apply crontab_typed|]. intros out Hout. apply yields_bind_any. intros ents.
  apply (yields_bind (Forall typed)).
  - apply yields_fold; [done|]. intros out' ent _ Ho. eapply yields_bind; [apply crontab_typed|]. intros es Hes.
    apply yields_ret, Forall_app. split; [done|]. destruct (cron_d_skips _ _); [by apply Hoff|done].
  - intros out' Ho. apply yields_ret. case_bool_decide; [by apply Hoff|done].
Qed.
Lemma user_tables_typed f st : Forall typed (snd st) -> yields (fun st => Forall typed (snd st)) (user_tables f st).
Proof.
  intros Hst. unfold user_tables. destruct f; [..|apply each_files_typed; [intros; apply crontab_typed|done]].
  1,2: apply each_files_typed; [intros; apply crontab_typed|done].
  apply yields_bind_any. intros dirs. apply each_files_typed; [intros; apply busybox_crontab_typed|done].
Qed.

Lemma script_facts_typed r period runner f name e :
  made Kind.Cron name e -> typed (script_facts r period runner f e).
Proof.
  intros Hm. unfold script_facts. cbv zeta. set (e1 := Entry.note _ #"schedule" _).
  assert (H1 : typed (set_enabled e1 Enablement.Enabled)).
  { unfold e1. split; [left|right; done|intros _; right; by eexists].
    pose proof (tells_name_from_os e (rp_name f)) as E. injection E as K _ _ _ _ _ _.
    cbn [set_enabled Entry.note set_raw set_target_path set_principal set_trigger e_kind]. by rewrite K, (md_kind _ _ _ Hm). }
  clearbody e1. set (e2 := match rp_not_run f with Some _ => _ | None => _ end).
  assert (H2 : typed e2) by (unfold e2; destruct (rp_not_run f); [by apply typed_note, typed_disabled|done]). clearbody e2.
  destruct runner; [by apply typed_note|]. case_bool_decide; [by apply typed_note, typed_disabled|done].
Qed.
Lemma with_scripts_typed flavour base out period :
  Forall typed out -> yields (Forall typed) (with_scripts flavour base out period).
Proof.
  intros Ho. apply (yields_bind (Forall typed)); [|intros es Hes; apply yields_ret, Forall_app; by split].
  apply yields_bind_any. intros files. apply yields_bind_any. intros r. apply yields_map. intros f _.
  eapply yields_bind; [apply entry_made|]. intros e He. apply yields_ret. by eapply script_facts_typed.
Qed.
Lemma each_script_typed flavour base out periods :
  Forall typed out -> yields (Forall typed) (fold_coll (with_scripts flavour base) out periods).
Proof. intros Ho. apply yields_fold; [done|]. intros out' period _. apply with_scripts_typed. Qed.

Lemma collect_typed : yields (Forall typed) collect.
Proof.
  unfold collect. apply yields_bind_any. intros f. eapply yields_bind; [apply system_tables_typed|]. intros out Hout.
  eapply yields_bind; [by apply (user_tables_typed f (∅, out))|]. intros [seen out2] H2.
  eapply yields_bind; [apply anacrontab_typed|]. intros es Hes. apply yields_bind_any. intros rf.
  apply (yields_bind (Forall typed)).
  { change (fun out period => run_parts rf period out) with (with_scripts rf #"etc/cron."). apply each_script_typed, Forall_app. by split. }
  intros out3 H3. eapply yields_bind; [by apply each_script_typed|]. intros out4 H4.
  eapply yields_bind; [by apply (each_files_typed not_an_at_job at_job (seen, out4)); [intros; apply at_job_typed|]|].
  intros st Hst. by apply yields_ret.
Qed.
End typing.

(** ** Properties *)

Section properties.
Context `{Strerror} `{Blake3}.

(** A crontab line is a job exactly when it is a schedule of five fields,
    or of one known [@] word, then the user where the layout has one, then a
    command; the schedule is kept as it stands and so is the command, from its
    first character to the end of the line. *)
Theorem split_job_reads line l job : split_job line l = Some job <-> job_line line l job.
Proof. split; [apply split_job_sound|apply split_job_complete]. Qed.

(** A crontab or anacrontab that is a link is one entry that says so, with
    no command and nothing recorded of a read; any other is one entry for each
    line that is neither blank, comment nor setting, in order: on, with its
    user, schedule and command, where the line is a job, and otherwise kept
    whole and marked as not understood. *)
Theorem tables_account h cx :
  (forall p l, accounts (tab_told l) tells h cx Kind.Cron p (Layout.principal l) (crontab p l)) /\
  accounts anacron_told tells h cx Kind.Cron ANACRONTAB (Some #"root") anacrontab.
Proof.
  split; [intros p l|]; apply table_accounts; intros line used; [apply crontab_entry_told|apply anacron_entry_told].
Qed.

(** A job is named by what it is: where the 96 bits kept of BLAKE3 tell the
    two inputs apart, two jobs have one name exactly when their commands are
    the same and their schedules have the same fields, however they are
    spaced; where the line stands in its file does not matter. *)
Theorem job_name_identity s c s' c' :
  Forall framed [normalise_ws s; normalise_ws s'; c; c'] ->
  (job_name s c = job_name s' c' -> name_input s c = name_input s' c') ->
  job_name s c = job_name s' c' <-> words_by ws s = words_by ws s' /\ c = c'.
Proof. apply job_name_eq. Qed.

(** Whatever is on disk, a host with BusyBox's crond has nothing on from
    /etc/crontab or /etc/cron.d, and of a user's crontab no more on than crond
    loads: nothing of a file it ignores, else at most 65534 lines for root and
    255 for anyone else. *)
Theorem busybox_host h cx p user :
  Forall not_enabled (value h cx (system_tables Flavour.BusyBox)) /\
  (link_there h cx p = false ->
   let reading := after h cx (read p) in
   (N.of_nat (length (List.filter is_on (value h cx (busybox_crontab p user)))) <=
    match value h reading (busybox_ignores p user) with Some _ => 0 | None => BUSYBOX_LIMIT user end)%N).
Proof.
  split; [apply (yields_run (Forall not_enabled)), system_tables_off|]. intros Hl. cbv zeta. unfold busybox_crontab.
  rewrite read_table_file by done. destruct (value h cx (read p)) as [b|]; [|cbn [List.filter length]; lia].
  rewrite value_bind. change (if bool_decide (user = #"root") then 65534%N else 255%N) with (BUSYBOX_LIMIT user). cbv zeta.
  set (not_run := value h _ (busybox_ignores p user)). set (cx' := after h _ (busybox_ignores p user)).
  rewrite value_bind. change (value h ?c (mret ?x)) with x.
  by apply (yields_run (bb_bounded not_run (BUSYBOX_LIMIT user)) _ h cx'), busybox_body_bounded.
Qed.

(** The scripts of a run-parts directory are one entry each, and one is on
    exactly when run-parts would run it and a cron entry read before, itself
    on, names run-parts and the directory. *)
Theorem scripts_need_a_line flavour d period out :
  yields (fun es => exists files, length es = length files /\
      e_enabled <$> es = (fun f => if script_on d out f then Enablement.Enabled else Enablement.Disabled) <$> files /\
      (forall e, e ∈ es -> e_enabled e = Enablement.Enabled -> Exists (fun e' => run_by_cron ([slash] ++ d) e' = true) out))
    (run_parts_scripts flavour d period out).
Proof. apply run_parts_scripts_on. Qed.

(** What an at job's entry calls its command is the end of the spool file,
    from a line that is none of the forms the preamble takes, to the last
    byte: nothing below the preamble is lost. *)
Theorem at_body_kept users fname b e :
  exists pre body, split_on (is_byte newline) b = pre ++ body /\
    e_command (at_facts users fname b e) = Some (join [newline] body) /\
    forall line, head body = Some line -> preamble_text (trim_ascii line) = false.
Proof. apply at_facts_body. Qed.

(** BusyBox's reader finds one to six fields in a line, the first not empty
    and none with a hash, and nothing in a line that is blank or a comment: the
    code that looks at the first byte of the first field never looks past it. *)
Theorem busybox_tokens_bounded line :
  match busybox_tokens line with
  | Some (tokens, original) =>
      tokens_ok 6 tokens /\ original <> [] /\ exists b, line = b ++ original /\ Forall (fun x => blank_byte x = true) b
  | None => comment_or_blank (drop_while blank_byte line) = true
  end.
Proof.
  destruct (busybox_tokens line) as [[tokens original]|] eqn:E; [by apply busybox_tokens_shape|].
  revert E. unfold busybox_tokens. cbv zeta. by destruct (comment_or_blank _).
Qed.

(** Every entry of the collector is a cron or at job, run at boot or on a
    schedule, and one that is on says what is run: a command or a file. *)
Theorem cron_entries_typed : yields (Forall typed) collect.
Proof. apply collect_typed. Qed.
End properties.

(** What at writes above a job, and what an account may put below it. *)
Module AtDemo.
Definition preamble : bytes :=
  join [newline]
    [ #"#!/bin/sh"; #"# atrun uid=1000 gid=1000"; #"umask 22"; #"PATH=/usr/bin; export PATH"; #"cd /home/u || {";
      #"	 echo 'Execution directory inaccessible' >&2"; #"	 exit 1"; #"}"; []].
Definition hidden : list bytes :=
  [ #"cd /tmp && ./evil"; #"X=1 /tmp/evil"; #"export A=1; /tmp/evil"; #"umask 22; /tmp/evil"].
End AtDemo.

(** The preamble is taken to go on as long as lines look like it, below the
    guard too: a job whose commands begin with [cd], [umask], [export] or an
    assignment is reported as having no body. *)
Theorem at_commands_swallowed users fname e :
  Forall (fun c => e_command (at_facts users fname (AtDemo.preamble ++ c ++ [newline]) e) = Some [] /\
    e_raw (at_facts users fname (AtDemo.preamble ++ c ++ [newline]) e) !! #"parse_error" = Some NO_BODY) AtDemo.hidden.
Proof.
  assert (G : forall b, Nat.min (fst (fst (at_preamble b))) (length b) = length b ->
    e_command (at_facts users fname b e) = Some [] /\ e_raw (at_facts users fname b e) !! #"parse_error" = Some NO_BODY).
  { intros b Hpos. unfold at_facts. destruct (at_preamble b) as [[pos uid] env]. cbn [fst snd] in Hpos. cbv zeta.
    rewrite Hpos, drop_ge by done. cbn [forallb]. split; [done|]. unfold set_command. cbn. by rewrite lookup_insert_eq. }
  repeat (apply Forall_cons; split; [apply G; by vm_compute|]). apply Forall_nil_2.
Qed.

(** A comment below the guard is read for the account too: the file's own
    header says uid 1000, the account adds a line, and the job is shown as
    root's. *)
Theorem at_uid_overridden users fname e :
  e_raw (at_facts users fname (AtDemo.preamble ++ #"# uid=0" ++ [newline] ++ #"/tmp/evil" ++ [newline]) e) !! #"uid" = Some #"0" /\
  e_command (at_facts users fname (AtDemo.preamble ++ #"# uid=0" ++ [newline] ++ #"/tmp/evil" ++ [newline]) e) =
    Some (#"/tmp/evil" ++ [newline]).
Proof.
  split; [apply (at_facts_uid _ _ _ _ 0%N); by vm_compute|]. unfold at_facts.
  match goal with |- context [at_preamble ?b] => assert (E : Nat.min (fst (fst (at_preamble b))) (length b) = length b - 10) by (by vm_compute) end.
  destruct (at_preamble _) as [[pos uid] env]. cbn [fst] in E. cbv zeta. rewrite set_command_command, E. by vm_compute.
Qed.

(** A host with Debian's cron, one with BusyBox's. *)
Module CronDemo.
#[local] Instance demo_blake3 : Blake3 := fun x => x.
#[local] Instance demo_strerror : Strerror := fun _ => #"error".
Definition text (ls : list bytes) : bytes := join [newline] ls ++ [newline].
Definition system : bytes :=
  text [ #"# m h dom mon dow user command"; #"PATH=/usr/bin"; []; #"17 *	* * *  root  cd / && run-parts --report /etc/cron.hourly # keep";
         #"@reboot root LD_PRELOAD=/tmp/e.so /usr/bin/agent"; #"0 0 * * * backup /bin/dump%first line"; #"* * * * *"].
Definition tree (crond : path) (bin : bytes) : Tree.tree :=
  [( #"usr", Tree.Dir 0 0x1ED); ( #"usr/sbin", Tree.Dir 0 0x1ED); (crond, Tree.File 0 0x1ED bin);
   ( #"etc", Tree.Dir 0 0x1ED); ( #"etc/crontab", Tree.File 0 0x1A4 system); ( #"etc/cron.d", Tree.Dir 0 0x1ED);
   ( #"etc/cron.d/job.bak", Tree.File 0 0x1A4 (text [ #"* * * * * root /bin/bak"]));
   ( #"etc/cron.d/link", Tree.Link 0 #"/etc/shadow");
   ( #"etc/cron.hourly", Tree.Dir 0 0x1ED); ( #"etc/cron.hourly/a", Tree.File 0 0x1ED #"x");
   ( #"etc/cron.hourly/b", Tree.File 0 0x1A4 #"x"); ( #"etc/cron.daily", Tree.Dir 0 0x1ED);
   ( #"etc/cron.daily/c", Tree.File 0 0x1ED #"x"); ( #"var", Tree.Dir 0 0x1ED); ( #"var/spool", Tree.Dir 0 0x1ED);
   ( #"var/spool/cron", Tree.Dir 0 0x1ED); ( #"var/spool/cron/crontabs", Tree.Dir 0 0x1ED);
   ( #"var/spool/cron/crontabs/root", Tree.File 0 0x180 (text [ #"  5 4 * * *  /bin/a  b # c"; #"@bogus /x"; #"* * * *"]))].
Definition users : list user := [mk_user #"root" (Some 0%N) #"/root" None #"passwd"].
Definition seen (crond : path) (bin : bytes) : list (option bytes * enablement * option bytes) :=
  (fun e => (e_command e, e_enabled e, e_raw e !! #"schedule")) <$>
    value (Tree.kernel (tree crond bin)) (mk_ctx Tree.offline users [] [] []) collect.
End CronDemo.

Example cron_debian :
  CronDemo.seen #"usr/sbin/cron" #"elf" =
  [(Some #"cd / && run-parts --report /etc/cron.hourly # keep", Enablement.Enabled, Some #"17 *	* * *");
   (Some #"LD_PRELOAD=/tmp/e.so /usr/bin/agent", Enablement.Enabled, Some #"@reboot");
   (Some #"/bin/dump", Enablement.Enabled, Some #"0 0 * * *"); (Some #"* * * * *", Enablement.Unknown, None);
   (Some #"/bin/bak", Enablement.Disabled, Some #"* * * * *"); (None, Enablement.Unknown, None);
   (Some #"/bin/a  b # c", Enablement.Enabled, Some #"5 4 * * *"); (Some #"@bogus /x", Enablement.Unknown, None);
   (Some #"* * * *", Enablement.Unknown, None);
   (None, Enablement.Enabled, Some #"@hourly"); (None, Enablement.Disabled, Some #"@hourly");
   (None, Enablement.Disabled, Some #"@daily")].
Proof. by vm_compute. Qed.

Example cron_busybox :
  CronDemo.seen #"usr/sbin/crond" #"BusyBox" =
  [(Some #"cd / && run-parts --report /etc/cron.hourly # keep", Enablement.Disabled, Some #"17 *	* * *");
   (Some #"LD_PRELOAD=/tmp/e.so /usr/bin/agent", Enablement.Disabled, Some #"@reboot");
   (Some #"/bin/dump", Enablement.Disabled, Some #"0 0 * * *"); (Some #"* * * * *", Enablement.Unknown, None);
   (Some #"/bin/bak", Enablement.Disabled, Some #"* * * * *"); (None, Enablement.Unknown, None);
   (Some #"/bin/a  b", Enablement.Enabled, Some #"5 4 * * *"); (Some #"@bogus /x", Enablement.Unknown, None);
   (Some #"* * * *", Enablement.Unknown, None);
   (None, Enablement.Disabled, Some #"@hourly"); (None, Enablement.Disabled, Some #"@hourly");
   (None, Enablement.Disabled, Some #"@daily")].
Proof. by vm_compute. Qed.

Lemma job_name_identity_witness :
  job_name (H0 := CronDemo.demo_blake3) #"1  2 * * *" #"x" = job_name (H0 := CronDemo.demo_blake3) #"1 2	* * *" #"x" <->
  words_by ws #"1  2 * * *" = words_by ws #"1 2	* * *" /\ #"x" = #"x".
Proof.
  apply (@job_name_identity CronDemo.demo_blake3).
  - repeat (apply Forall_cons; split; [vm_compute; reflexivity|]). apply Forall_nil_2.
  - intros _. vm_compute. reflexivity.
Defined.

(** Root's crontab on the host with BusyBox: one line of three is on. *)
Lemma busybox_host_witness :
  let cx := mk_ctx Tree.offline CronDemo.users [] [] [] in
  (N.of_nat (length (List.filter is_on
     (value (Tree.kernel (CronDemo.tree #"usr/sbin/crond" #"BusyBox")) cx
        (busybox_crontab (H := CronDemo.demo_strerror) (H0 := CronDemo.demo_blake3)
           #"var/spool/cron/crontabs/root" #"root")))) <= 65534)%N.
Proof.
  intros cx.
  destruct (@busybox_host CronDemo.demo_strerror CronDemo.demo_blake3
    (Tree.kernel (CronDemo.tree #"usr/sbin/crond" #"BusyBox")) cx #"var/spool/cron/crontabs/root" #"root") as [_ Hb].
  apply Hb. vm_compute. reflexivity.
Defined.
