(* ===== verification/UnitFile.v ===== *)
(** [src/collect/systemd.rs], what a unit file says: its lines and
    directives, what they amount to, and the entry they fill. *)

From S2P Require Import Prelude Slices Order Num Utf8 Paths Text Kinds Entry Sys Root Users Scan Collect.

Definition UNIT_SUFFIXES : list bytes := [ #".service"; #".timer"; #".socket"; #".path"].
Definition EXEC_KEYS : list bytes :=
  [ #"ExecStart"; #"ExecStartPre"; #"ExecStartPost"; #"ExecCondition"; #"ExecStop"; #"ExecStopPost"; #"ExecReload"].
Definition TIMER_KEYS : list bytes := [ #"OnCalendar"; #"OnBootSec"; #"OnUnitActiveSec"; #"Persistent"].
Definition EXEC_SECTIONS : list bytes := [ #"Service"; #"Socket"; #"Mount"; #"Swap"; #"Scope"].

(** ** Names *)

Definition unit_suffix (name : bytes) : option bytes :=
  find (fun s => (length s <? length name) && ends_with s name) UNIT_SUFFIXES.
Definition is_timer (suffix : option bytes) : bool := bool_decide (suffix = Some #".timer").
Definition kind_for (suffix : option bytes) : kind := if is_timer suffix then Kind.SystemdTimer else Kind.SystemdUnit.
Definition trigger_for (suffix : option bytes) : trigger := if is_timer suffix then Trigger.Schedule else Trigger.Boot.

Definition at_sign : byte := "@".
Definition template_of (unit_ suffix : bytes) : option (bytes * bytes) :=
  stem ← strip_suffix suffix unit_;
  i ← position (is_byte at_sign) stem;
  Some (take i stem ++ [at_sign] ++ suffix, drop (S i) stem).

Definition note_template (e : Entry.entry) (unit_ : bytes) (suffix : option bytes) : Entry.entry :=
  match suffix ≫= template_of unit_ with
  | None => e
  | Some (template, instance) =>
      if bool_decide (instance = []) then Entry.note e #"template" #"true"
      else Entry.note (Entry.note e key.TEMPLATE_UNIT template) #"instance" instance
  end.

Definition note_bytes (e : Entry.entry) (k v : bytes) : Entry.entry :=
  Entry.note (flag_if (negb (is_utf8 v)) e Flag.EncodingAnomaly) k (from_utf8_lossy v).
Definition indexed (base : bytes) (i : nat) : bytes :=
  if bool_decide (i = 0) then base else base ++ #"." ++ dec (N.of_nat i).
Definition non_empty (v : bytes) : option bytes := if bool_decide (v = []) then None else Some v.

(** ** Lines *)

Record Directive := mk_directive { d_section : bytes; d_key : bytes; d_value : bytes }.

Definition semicolon : byte := ";".
Definition hash_mark : byte := "#".
Definition line_backslash : byte := x5c.
Definition is_comment (line : bytes) : bool := starts_with [hash_mark] line || starts_with [semicolon] line.
Definition trim_ascii_end : bytes -> bytes := drop_while_end is_ascii_whitespace.

(** A header has a bracket at both ends, not one for both. *)
Definition header_name (t : bytes) : option bytes :=
  match t with
  | c :: rest => if bool_decide (c = "["%byte) then strip_suffix [("]"%byte)] rest else None
  | [] => None
  end.

Record unit_state := mk_unit_state { us_out : list Directive; us_section : bytes }.
Definition push_directive (st : unit_state) (logical : bytes) : unit_state :=
  let t := trim_ascii logical in
  if bool_decide (t = []) || is_comment t then st
  else
    match header_name t with
    | Some name =>
        let section := from_utf8_lossy name in
        mk_unit_state (us_out st ++ [mk_directive section [] []]) section
    | None =>
        match position (is_byte eq_sign) t with
        | None => st
        | Some i =>
            let k := trim_ascii (take i t) in
            if bool_decide (k = []) then st
            else mk_unit_state
                   (us_out st ++ [mk_directive (us_section st) (from_utf8_lossy k) (trim_ascii (drop (S i) t))])
                   (us_section st)
        end
    end.

(** [pending] is what the lines before continue with. *)
Fixpoint unit_lines (pending : bytes) (st : unit_state) (lines : list bytes) : unit_state :=
  match lines with
  | [] => if bool_decide (pending = []) then st else push_directive st pending
  | raw :: rest =>
      let line := strip_cr raw in
      if is_comment (trim_ascii_start line) then unit_lines pending st rest
      else
        let line := if bool_decide (pending = []) then line else trim_ascii_start line in
        match strip_suffix [line_backslash] (trim_ascii_end line), rest with
        | Some t, _ :: _ => unit_lines (pending ++ trim_ascii_end t ++ #" ") st rest
        | _, _ => unit_lines [] (push_directive st (pending ++ line)) rest
        end
  end.
Definition parse_unit (b : bytes) : list Directive :=
  us_out (unit_lines [] (mk_unit_state [] []) (split_on (is_byte newline) b)).

(** ** Assignments *)

Definition is_quote (c : byte) : bool := bool_decide (c = x22) || bool_decide (c = x27).

(** A word with the quotes in it taken out, and what follows it. *)
Fixpoint env_token (quote : option byte) (tok v : bytes) : bytes * bytes :=
  match v with
  | [] => (tok, [])
  | c :: v' =>
      match quote with
      | Some q => if bool_decide (c = q) then env_token None tok v' else env_token quote (tok ++ [c]) v'
      | None =>
          if is_quote c then env_token (Some c) tok v'
          else if is_ascii_whitespace c then (tok, v)
          else env_token None (tok ++ [c]) v'
      end
  end.
Definition env_pair (tok : bytes) : option (bytes * bytes) :=
  i ← position (is_byte eq_sign) tok;
  if bool_decide (i = 0) then None else Some (from_utf8_lossy (take i tok), from_utf8_lossy (drop (S i) tok)).
Fixpoint split_env_from (fuel : nat) (v : bytes) : list (bytes * bytes) :=
  match fuel with
  | O => []
  | S fuel =>
      let v := trim_ascii_start v in
      if bool_decide (v = []) then []
      else
        let '(tok, rest) := env_token None [] v in
        option_list (env_pair tok) ++ split_env_from fuel rest
  end.
(** Every word takes a byte. *)
Definition split_env (v : bytes) : list (bytes * bytes) := split_env_from (length v) v.

Definition unquoted_value (value : bytes) : bytes :=
  match value with
  | first :: rest =>
      if is_quote first && bool_decide (last rest = Some first) then removelast rest else value
  | [] => value
  end.
Definition env_file_line (line : bytes) : option (bytes * bytes) :=
  let line := trim_ascii line in
  if bool_decide (line = []) || is_comment line then None
  else
    let line := match strip_prefix #"export " line with Some l => trim_ascii_start l | None => line end in
    i ← position (is_byte eq_sign) line;
    let k := trim_ascii (take i line) in
    if bool_decide (k = []) then None
    else Some (from_utf8_lossy k, from_utf8_lossy (unquoted_value (trim_ascii (drop (S i) line)))).
Definition parse_env_file (b : bytes) : list (bytes * bytes) := omap env_file_line (split_on (is_byte newline) b).

(** ** The executable of an Exec line *)

Definition exec_prefix (c : byte) : bool := bool_decide (c ∈ #"-@+!:").
Definition exec_target (v : bytes) : option path :=
  let rest := drop_while is_ascii_whitespace (drop_while exec_prefix v) in
  token ← match rest with
          | q :: rest' =>
              if is_quote q then i ← position (is_byte q) rest'; Some (take i rest')
              else Some (take (default (length rest) (position is_ascii_whitespace rest)) rest)
          | [] => Some []
          end;
  if starts_with [slash] token then Some token else None.

(** ** What the directives amount to *)

Record Facts := mk_facts {
  f_exec : gmap bytes (list bytes);
  f_timer : gmap bytes (list bytes);
  f_env : list (bytes * bytes);
  f_env_files : list bytes;
  f_user : option bytes;
  f_group : option bytes;
  f_unit_type : option bytes;
  f_wanted_by : list bytes;
  f_required_by : list bytes;
  f_has_install : bool;
  f_exec_section : option bytes;
  f_conditions : list (bytes * bytes)
}.
Definition no_facts : Facts := mk_facts ∅ ∅ [] [] None None None [] [] false None [].

Definition set_exec (f : Facts) (x : gmap bytes (list bytes)) : Facts :=
  mk_facts x (f_timer f) (f_env f) (f_env_files f) (f_user f) (f_group f) (f_unit_type f) (f_wanted_by f)
    (f_required_by f) (f_has_install f) (f_exec_section f) (f_conditions f).
Definition set_timer (f : Facts) (x : gmap bytes (list bytes)) : Facts :=
  mk_facts (f_exec f) x (f_env f) (f_env_files f) (f_user f) (f_group f) (f_unit_type f) (f_wanted_by f)
    (f_required_by f) (f_has_install f) (f_exec_section f) (f_conditions f).
Definition set_env (f : Facts) (x : list (bytes * bytes)) : Facts :=
  mk_facts (f_exec f) (f_timer f) x (f_env_files f) (f_user f) (f_group f) (f_unit_type f) (f_wanted_by f)
    (f_required_by f) (f_has_install f) (f_exec_section f) (f_conditions f).
Definition set_env_files (f : Facts) (x : list bytes) : Facts :=
  mk_facts (f_exec f) (f_timer f) (f_env f) x (f_user f) (f_group f) (f_unit_type f) (f_wanted_by f)
    (f_required_by f) (f_has_install f) (f_exec_section f) (f_conditions f).
Definition set_user (f : Facts) (x : option bytes) : Facts :=
  mk_facts (f_exec f) (f_timer f) (f_env f) (f_env_files f) x (f_group f) (f_unit_type f) (f_wanted_by f)
    (f_required_by f) (f_has_install f) (f_exec_section f) (f_conditions f).
Definition set_group (f : Facts) (x : option bytes) : Facts :=
  mk_facts (f_exec f) (f_timer f) (f_env f) (f_env_files f) (f_user f) x (f_unit_type f) (f_wanted_by f)
    (f_required_by f) (f_has_install f) (f_exec_section f) (f_conditions f).
Definition set_unit_type (f : Facts) (x : option bytes) : Facts :=
  mk_facts (f_exec f) (f_timer f) (f_env f) (f_env_files f) (f_user f) (f_group f) x (f_wanted_by f)
    (f_required_by f) (f_has_install f) (f_exec_section f) (f_conditions f).
Definition set_wanted_by (f : Facts) (x : list bytes) : Facts :=
  mk_facts (f_exec f) (f_timer f) (f_env f) (f_env_files f) (f_user f) (f_group f) (f_unit_type f) x
    (f_required_by f) (f_has_install f) (f_exec_section f) (f_conditions f).
Definition set_required_by (f : Facts) (x : list bytes) : Facts :=
  mk_facts (f_exec f) (f_timer f) (f_env f) (f_env_files f) (f_user f) (f_group f) (f_unit_type f) (f_wanted_by f)
    x (f_has_install f) (f_exec_section f) (f_conditions f).
Definition set_has_install (f : Facts) (x : bool) : Facts :=
  mk_facts (f_exec f) (f_timer f) (f_env f) (f_env_files f) (f_user f) (f_group f) (f_unit_type f) (f_wanted_by f)
    (f_required_by f) x (f_exec_section f) (f_conditions f).
Definition set_exec_section (f : Facts) (x : option bytes) : Facts :=
  mk_facts (f_exec f) (f_timer f) (f_env f) (f_env_files f) (f_user f) (f_group f) (f_unit_type f) (f_wanted_by f)
    (f_required_by f) (f_has_install f) x (f_conditions f).
Definition set_conditions (f : Facts) (x : list (bytes * bytes)) : Facts :=
  mk_facts (f_exec f) (f_timer f) (f_env f) (f_env_files f) (f_user f) (f_group f) (f_unit_type f) (f_wanted_by f)
    (f_required_by f) (f_has_install f) (f_exec_section f) x.

Definition condition_list (k : bytes) : bytes := if starts_with #"Assert" k then #"Assert" else #"Condition".

(** An empty value starts a list again. *)
Definition accumulate {A} (slot : list A) (empty : bool) (values : list A) : list A := if empty then [] else slot ++ values.
Definition accumulate1 (value : bytes) (slot : list bytes) : list bytes := accumulate slot (bool_decide (value = [])) [value].
(** [accumulate(map.entry(k).or_default(), value)]. *)
Definition accumulate_at (m : gmap bytes (list bytes)) (k value : bytes) : gmap bytes (list bytes) :=
  <[k := accumulate1 value (default [] (m !! k))]> m.

Definition take_other (f : Facts) (d : Directive) : Facts :=
  let '(mk_directive section k value) := d in
  if bool_decide (k = #"User") then set_user f (non_empty value)
  else if bool_decide (k = #"Group") then set_group f (non_empty value)
  else if bool_decide (k = #"Type") then set_unit_type f (non_empty value)
  else if bool_decide (k = #"Environment") then
    set_env f (accumulate (f_env f) (bool_decide (value = [])) (split_env value))
  else if bool_decide (k = #"EnvironmentFile") then set_env_files f (accumulate1 value (f_env_files f))
  else if starts_with #"Condition" k || starts_with #"Assert" k then
    set_conditions f
      (if bool_decide (value = []) then
         List.filter (fun c => negb (bool_decide (condition_list (fst c) = condition_list k))) (f_conditions f)
       else f_conditions f ++ [(k, value)])
  else if bool_decide (k = #"WantedBy") && bool_decide (section = #"Install") then
    set_wanted_by f (accumulate1 value (f_wanted_by f))
  else if bool_decide (k = #"RequiredBy") && bool_decide (section = #"Install") then
    set_required_by f (accumulate1 value (f_required_by f))
  else f.

Definition take_directive (f : Facts) (d : Directive) : Facts :=
  let '(mk_directive section k value) := d in
  let f := if bool_decide (section = #"Install") then set_has_install f true else f in
  if bool_decide (k = []) then f
  else if mem k EXEC_KEYS then
    let f := set_exec f (accumulate_at (f_exec f) k value) in
    if bool_decide (k = #"ExecStart") && bool_decide (f_exec_section f = None) && negb (mem section EXEC_SECTIONS)
    then set_exec_section f (Some section) else f
  else if mem k TIMER_KEYS then set_timer f (accumulate_at (f_timer f) k value)
  else take_other f d.
Definition facts (ds : list Directive) : Facts := foldl take_directive no_facts ds.

(** ** Conditions *)

Fixpoint trim_start_matches_fuel (fuel : nat) (p s : bytes) : bytes :=
  match fuel, strip_prefix p s with
  | S fuel, Some r => trim_start_matches_fuel fuel p r
  | _, _ => s
  end.
(** Of a prefix that is not empty, a byte goes at each step. *)
Definition trim_start_matches (p s : bytes) : bytes := trim_start_matches_fuel (length s) p s.

(** A condition as written: [|] and [!] before the path. *)
Record condition := mk_condition {
  c_key : bytes; c_raw : bytes; c_triggering : bool; c_negate : bool; c_path : path
}.
Definition read_condition (kv : bytes * bytes) : condition :=
  let '(k, raw) := kv in
  let '(triggering, spec) := match strip_prefix #"|" raw with Some s => (true, s) | None => (false, raw) end in
  let '(negate, spec) := match strip_prefix #"!" spec with Some s => (true, s) | None => (false, spec) end in
  mk_condition k raw triggering negate spec.
Definition test_name (k : bytes) : bytes := trim_start_matches #"Assert" (trim_start_matches #"Condition" k).

Inductive test := PathExists | PathIsDirectory | PathIsSymbolicLink | FileNotEmpty | FileIsExecutable.
Definition test_of (k : bytes) : option test :=
  let t := test_name k in
  if bool_decide (t = #"PathExists") then Some PathExists
  else if bool_decide (t = #"PathIsDirectory") then Some PathIsDirectory
  else if bool_decide (t = #"PathIsSymbolicLink") then Some PathIsSymbolicLink
  else if bool_decide (t = #"FileNotEmpty") then Some FileNotEmpty
  else if bool_decide (t = #"FileIsExecutable") then Some FileIsExecutable
  else None.

Definition ok_and {E A} (r : result E A) (f : A -> bool) : bool := match r with Ok a => f a | Err _ => false end.
Definition is_executable (m : meta) : bool := negb (bool_decide (N.land (m_mode m) 0x49 = 0%N)).
Definition run_test (r : root) (t : test) (p : path) : prog bool :=
  match t with
  | PathExists => m ← stat_follow r p; Ret (is_ok m)
  | PathIsDirectory => m ← stat_follow r p; Ret (ok_and m m_is_dir)
  | PathIsSymbolicLink => m ← Root.stat r p; Ret (ok_and m m_is_symlink)
  | FileNotEmpty => m ← stat_follow r p; Ret (ok_and m (fun m => m_is_file m && (0 <? m_size m)%N))
  | FileIsExecutable => m ← stat_follow r p; Ret (ok_and m (fun m => m_is_file m && is_executable m))
  end.

(** What has been found of one list. *)
Record list_state := mk_list_state {
  l_triggers : list bytes; l_any_holds : bool; l_unknown : bool; l_fails : list bytes; l_guard : option bytes
}.
Definition shown_condition (c : condition) : bytes := c_key c ++ #"=" ++ from_utf8_lossy (c_raw c).
Definition names_target (r : root) (target : option path) (p : path) : bool :=
  match target with Some t => path_eqb (rel r t) (rel r p) | None => false end.

(** [holds] is [None] where the test cannot be made here. *)
Definition judge_condition (r : root) (target : option path) (st : list_state) (c : condition) (holds : option bool) : list_state :=
  let '(mk_list_state triggers any_holds unknown fails guard) := st in
  match holds with
  | None => mk_list_state triggers any_holds (unknown || c_triggering c) fails guard
  | Some holds =>
      let good := negb (bool_decide (holds = c_negate c)) in
      let shown := shown_condition c in
      if c_triggering c then mk_list_state (triggers ++ [shown]) (any_holds || good) unknown fails guard
      else if good then st
      else
        let guard := match guard with
                     | Some _ => guard
                     | None => if names_target r target (c_path c) then Some shown else None
                     end in
        mk_list_state triggers any_holds unknown (fails ++ [shown]) guard
  end.
Definition none_holds (list_ : bytes) (triggers : list bytes) : bytes :=
  #"none of the " ++ list_ ++ #" lines marked `|` holds: " ++ join #", " triggers.
Definition close_list (list_ : bytes) (st : list_state) : list bytes * option bytes :=
  let '(mk_list_state triggers any_holds unknown fails guard) := st in
  (if negb (bool_decide (triggers = [])) && negb any_holds && negb unknown then fails ++ [none_holds list_ triggers]
   else fails, guard).

Definition condition_step (r : root) (target : option path) (st : list_state) (c : condition) : prog list_state :=
  holds ← match test_of (c_key c) with
          | Some t => b ← run_test r t (c_path c); Ret (Some b)
          | None => Ret None
          end;
  Ret (judge_condition r target st c holds).
Definition of_list (list_ : bytes) (conditions : list (bytes * bytes)) : list condition :=
  read_condition <$> List.filter (fun kv => bool_decide (condition_list (fst kv) = list_)) conditions.
Definition judge_list (r : root) (target : option path) (conditions : list (bytes * bytes))
    (st : list bytes * option bytes) (list_ : bytes) : prog (list bytes * option bytes) :=
  s ← fold_prog (condition_step r target) (mk_list_state [] false false (fst st) (snd st)) (of_list list_ conditions);
  Ret (close_list list_ s).
Definition judge_conditions (r : root) (target : option path) (conditions : list (bytes * bytes))
    : prog (list bytes * option bytes) :=
  fold_prog (judge_list r target conditions) ([], None) [ #"Condition"; #"Assert"].

Definition CONDITION_FAILS : bytes := #"condition_fails".
Definition note_conditions (fails : list bytes) (guard : option bytes) (e : Entry.entry) : Entry.entry :=
  match fails with
  | [] => e
  | first :: _ =>
      let e := Entry.note e CONDITION_FAILS (join #"; " fails) in
      let e := match guard with Some how => Entry.note e key.GUARDED_BY_CONDITION how | None => e end in
      Entry.note e #"not_run" (#"a condition of the unit does not hold: " ++ first)
  end.

(** ** The entry a unit file fills *)

Definition note_indexed (base : bytes) (values : list bytes) (e : Entry.entry) : Entry.entry :=
  foldl (fun e iv => note_bytes e (indexed base (fst iv)) (snd iv)) e (imap pair values).
Definition note_lists (prefix : bytes) (m : gmap bytes (list bytes)) (e : Entry.entry) : Entry.entry :=
  foldl (fun e kv => note_indexed (prefix ++ fst kv) (snd kv) e) e (btree_to_list m).
Definition note_env (e : Entry.entry) (kv : bytes * bytes) : Entry.entry := Entry.note e (#"env." ++ fst kv) (snd kv).

(** The first key with a command, and its first command. *)
Fixpoint primary_from (exec : gmap bytes (list bytes)) (keys : list bytes) : option (bytes * bytes) :=
  match keys with
  | [] => None
  | k :: keys => match exec !! k with Some (v :: _) => Some (k, v) | _ => primary_from exec keys end
  end.
Definition primary (f : Facts) : option (bytes * bytes) := primary_from (f_exec f) EXEC_KEYS.

Definition fill_command (f : Facts) (e : Entry.entry) : Entry.entry :=
  match primary f with
  | Some (k, first) =>
      let e := flag_if (negb (is_utf8 first)) e Flag.EncodingAnomaly in
      let e := if bool_decide (k = #"ExecStart") then e else Entry.note e #"exec_command_from" k in
      with_command (set_target_path e (exec_target first)) (Some first)
  | None => e
  end.
Definition note_opt (k : bytes) (v : option bytes) (e : Entry.entry) : Entry.entry :=
  match v with Some v => note_bytes e k v | None => e end.
Definition fill_principal (f : Facts) (s : Scope.scope) (e : Entry.entry) : Entry.entry :=
  match f_user f, s with
  | Some u, _ => set_principal (note_bytes e #"user" u) (Some (from_utf8_lossy u))
  | None, Scope.Home who => set_principal e (Some who)
  | None, _ => e
  end.
(** All that needs no look at the root. *)
Definition fill_facts (f : Facts) (s : Scope.scope) (e : Entry.entry) : Entry.entry :=
  let e := fill_command f (note_lists #"exec." (f_exec f) e) in
  let e := match f_exec_section f with Some x => Entry.note e #"exec_section" x | None => e end in
  let e := note_lists #"timer." (f_timer f) e in
  let e := note_indexed #"required_by" (f_required_by f) (note_indexed #"wanted_by" (f_wanted_by f) e) in
  let e := note_opt #"group" (f_group f) (note_opt #"type" (f_unit_type f) e) in
  foldl note_env (fill_principal f s e) (f_env f).

(** What a unit of an account may have root read for it. *)
Definition inside_home (users : list user) (s : Scope.scope) (p : path) : bool :=
  match s with
  | Scope.Home who =>
      match find (fun u => bool_decide (u_name u = who)) users with
      | Some u => is_absolute p && path_starts_with (normalize p) (normalize (u_home u))
      | None => false
      end
  | _ => true
  end.
Definition env_file_path (spec : bytes) : path := default spec (strip_prefix #"-" spec).
Definition SKIPPED_ENV_FILE : bytes := #"outside the account's home; not read on its behalf".

Section fill.
Context `{Strerror}.

Definition fill_env_file (s : Scope.scope) (e : Entry.entry) (ispec : nat * bytes) : coll Entry.entry :=
  let '(i, spec) := ispec in
  let e := note_bytes e (indexed #"env_file" i) spec in
  let p := env_file_path spec in
  users ← the_users;
  if inside_home users s p then
    b ← read_capped p (256 * 1024);
    mret match b with Some b => foldl note_env e (parse_env_file b) | None => e end
  else mret (Entry.note e (indexed #"env_file_skipped" i) SKIPPED_ENV_FILE).

Definition fill (e : Entry.entry) (f : Facts) (s : Scope.scope) : coll Entry.entry :=
  let e := fill_facts f s e in
  x ← lift (fun r => judge_conditions r (e_target_path e) (f_conditions f));
  let e := note_conditions (fst x) (snd x) e in
  fold_coll (fill_env_file s) e (imap pair (f_env_files f)).

Definition parse_into_facts (p : path) : coll Facts :=
  b ← read_capped p READ_CAP;
  mret match b with Some b => facts (parse_unit b) | None => no_facts end.
End fill.
