(* ===== verification/UnitFileLaws.v ===== *)
(** Laws of [UnitFile]: unit files printed and read back, lists that an empty
    value starts again, conditions against their meaning, and what a unit of
    an account has root read. *)

From S2P Require Import Prelude Slices Order Num Utf8 Paths Text Kinds Entry Sys Root Users Scan Collect UnitFile.

(** ** A unit file, written *)

(** A value over several lines: each after the first with the comments
    before it. *)
Record assignment_text := mk_assignment {
  as_key : bytes; as_first : bytes; as_rest : list (list bytes * bytes)
}.
Abbreviation unit_text := (list (bytes * list assignment_text)).

Fixpoint continued (piece : bytes) (rest : list (list bytes * bytes)) : list bytes :=
  match rest with
  | [] => [piece]
  | (comments, next) :: rest => (piece ++ #" \") :: comments ++ continued next rest
  end.
Definition assignment_lines (a : assignment_text) : list bytes := continued (as_key a ++ eq_sign :: as_first a) (as_rest a).
Definition assignment_value (a : assignment_text) : bytes := join #" " (as_first a :: (snd <$> as_rest a)).
Definition section_header (name : bytes) : bytes := "["%byte :: name ++ [("]"%byte)].
Definition unit_text_lines (f : unit_text) : list bytes :=
  f ≫= (fun s => section_header (fst s) :: (snd s ≫= assignment_lines)).
(** Every line ends. *)
Definition print_unit (f : unit_text) : bytes := join [newline] (unit_text_lines f ++ [[]]).

Definition section_meaning (s : bytes * list assignment_text) : list Directive :=
  let name := from_utf8_lossy (fst s) in
  mk_directive name [] [] :: ((fun a => mk_directive name (from_utf8_lossy (as_key a)) (assignment_value a)) <$> snd s).
Definition unit_meaning (f : unit_text) : list Directive := f ≫= section_meaning.

Definition one_line (s : bytes) : bool := forallb (fun x => negb (is_byte newline x)) s.
Definition nothing_to_trim (s : bytes) : bool := bool_decide (trim_ascii s = s).
(** What a line of a value may be. *)
Definition piece_ok (p : bytes) : bool := nothing_to_trim p && one_line p && negb (ends_with [line_backslash] p).
Definition later_ok (cp : list bytes * bytes) : bool :=
  forallb (fun c => one_line c && is_comment (trim_ascii_start c)) (fst cp)
  && piece_ok (snd cp) && negb (bool_decide (snd cp = [])) && negb (is_comment (snd cp)).
Definition key_ok (k : bytes) : bool :=
  nothing_to_trim k && one_line k && negb (bool_decide (k = [])) && forallb (fun x => negb (is_byte eq_sign x)) k
  && negb (is_comment k) && negb (starts_with ["["%byte] k).
Definition assignment_ok (a : assignment_text) : bool :=
  key_ok (as_key a) && piece_ok (as_first a) && (negb (bool_decide (as_first a = [])) || bool_decide (as_rest a = []))
  && forallb later_ok (as_rest a).
Definition unit_ok (f : unit_text) : bool := forallb (fun s => one_line (fst s) && forallb assignment_ok (snd s)) f.

(** ** Reading it back *)

Lemma nothing_to_trim_true s : nothing_to_trim s = true -> trimmed is_ascii_whitespace s.
Proof.
  unfold nothing_to_trim. intros E%bool_decide_eq_true_1. pose proof (trim_by_trimmed is_ascii_whitespace s) as Ht. unfold trim_ascii in E. by rewrite E in Ht.
Qed.
Lemma trimmed_id s : trimmed is_ascii_whitespace s -> trim_ascii s = s.
Proof. apply trim_by_id. Qed.
Lemma trimmed_start s : trimmed is_ascii_whitespace s -> trim_ascii_start s = s.
Proof. intros [Hh _]. by apply drop_while_id. Qed.
Lemma trim_end_last s : (forall x, last s = Some x -> is_ascii_whitespace x = false) -> trim_ascii_end s = s.
Proof.
  intros Hl. unfold trim_ascii_end, drop_while_end. rewrite drop_while_id; [apply reverse_involutive|].
  intros x. rewrite head_reverse. apply Hl.
Qed.
Lemma trimmed_end s : trimmed is_ascii_whitespace s -> trim_ascii_end s = s.
Proof. intros [_ Hl]. by apply trim_end_last. Qed.
Lemma trim_end_blank s : trimmed is_ascii_whitespace s -> trim_ascii_end (s ++ #" ") = s.
Proof.
  intros [_ Hl]. unfold trim_ascii_end, drop_while_end. change #" " with ([" "%byte]). rewrite reverse_snoc.
  cbn [drop_while is_ascii_whitespace].
  rewrite drop_while_id; [apply reverse_involutive|]. intros x. rewrite head_reverse. apply Hl.
Qed.

Lemma last_suffix {A} (l : list A) x : last l = Some x -> exists l', l = l' ++ [x].
Proof. intros E. apply last_Some in E. done. Qed.
Lemma strip_cr_last s : last s <> Some x0d -> strip_cr s = s.
Proof.
  intros Hl. unfold strip_cr. destruct (strip_suffix [x0d] s) as [r|] eqn:E; [|done].
  apply strip_suffix_Some in E as ->. by rewrite last_snoc in Hl.
Qed.
Lemma strip_cr_trimmed s : trimmed is_ascii_whitespace s -> strip_cr s = s.
Proof. intros [_ Hl]. apply strip_cr_last. intros E. by apply Hl in E. Qed.

Lemma is_comment_head s : is_comment s = match s with c :: _ => bool_decide (c = hash_mark) || bool_decide (c = semicolon) | [] => false end.
Proof.
  destruct s as [|c s]; [done|]. unfold is_comment, starts_with. cbn [strip_prefix].
  repeat case_decide; repeat case_bool_decide; congruence.
Qed.
Lemma drop_while_snoc {A} (f : A -> bool) l x :
  drop_while f (l ++ [x]) = if forallb f l then drop_while f [x] else drop_while f l ++ [x].
Proof. induction l as [|a l IH]; [done|]. cbn [app drop_while forallb]. destruct (f a); [exact IH|done]. Qed.
Lemma drop_while_forallb {A} (f : A -> bool) l : forallb f l = true -> drop_while f l = [].
Proof. intros Hl. apply drop_while_all, Forall_forall. intros x Hx. eapply forallb_forall in Hl; [done|]. by apply list_elem_of_In. Qed.
Lemma comment_cr c : is_comment (trim_ascii_start (strip_cr c)) = is_comment (trim_ascii_start c).
Proof.
  unfold strip_cr. destruct (strip_suffix [x0d] c) as [r|] eqn:E; [|done]. apply strip_suffix_Some in E as ->. cbn [default from_option id].
  unfold trim_ascii_start. rewrite drop_while_snoc. destruct (forallb is_ascii_whitespace r) eqn:Hf.
  - by rewrite drop_while_forallb.
  - destruct (drop_while is_ascii_whitespace r) as [|b l] eqn:Ed; [exfalso|by rewrite !is_comment_head].
    destruct (drop_while_suffix is_ascii_whitespace r) as (p & Ep & Hp). rewrite Ed, app_nil_r in Ep. subst p.
    apply not_true_iff_false in Hf. apply Hf, forallb_forall. intros x Hx. eapply Forall_forall in Hp; [done|].
    by apply list_elem_of_In.
Qed.

(** Comments are passed over wherever they stand. *)
Lemma unit_lines_comments pending st cs more :
  forallb (fun c => one_line c && is_comment (trim_ascii_start c)) cs = true ->
  unit_lines pending st (cs ++ more) = unit_lines pending st more.
Proof.
  induction cs as [|c cs IH]; [done|]. cbn [forallb app]. intros [[_ Hc]%andb_true_iff Hcs]%andb_true_iff. cbn [unit_lines].
  rewrite comment_cr, Hc. by apply IH.
Qed.

Lemma ends_with_snoc {A} `{EqDecision A} (c x : A) l : ends_with [c] (l ++ [x]) = bool_decide (x = c).
Proof.
  case_bool_decide as E; [subst; apply ends_with_true; by exists l|]. apply not_true_iff_false.
  intros [r Hr]%ends_with_true. apply app_inj_2 in Hr as [_ [= ?]]; [|done]. done.
Qed.
Lemma ends_with_last {A} `{EqDecision A} (c : A) l : ends_with [c] l = false <-> last l <> Some c.
Proof.
  destruct l as [|x l _] using rev_ind; [done|]. rewrite ends_with_snoc, last_snoc, bool_decide_eq_false. naive_solver.
Qed.
Lemma strip_suffix_none {A} `{EqDecision A} (c : A) l : last l <> Some c -> strip_suffix [c] l = None.
Proof. intros Hl%ends_with_last. unfold ends_with in Hl. by destruct (strip_suffix [c] l). Qed.

(** What a line that begins or goes on with a value has. *)
Record line_ok (p : bytes) : Prop := mk_line_ok {
  lo_trimmed : trimmed is_ascii_whitespace p;
  lo_nonempty : p <> [];
  lo_last : last p <> Some line_backslash;
  lo_plain : is_comment p = false
}.
Lemma line_ok_cr p : line_ok p -> is_comment (trim_ascii_start (strip_cr p)) = false.
Proof. intros [Ht _ _ Hc]. by rewrite comment_cr, trimmed_start. Qed.
Lemma head_app_ne {A} (p q : list A) : p <> [] -> head (p ++ q) = head p.
Proof. by destruct p. Qed.
Lemma continued_line p : line_ok p -> strip_cr (p ++ #" \") = p ++ #" \" /\
  trim_ascii_start (p ++ #" \") = p ++ #" \" /\ is_comment (p ++ #" \") = false /\
  strip_suffix [line_backslash] (trim_ascii_end (p ++ #" \")) = Some (p ++ #" ").
Proof.
  intros [Ht Hne _ Hc]. assert (E : p ++ #" \" = (p ++ #" ") ++ [line_backslash]) by by rewrite <- app_assoc.
  assert (Hl : last (p ++ #" \") = Some line_backslash) by by rewrite E, last_snoc.
  split; [apply strip_cr_last; rewrite Hl; done|].
  split; [apply drop_while_id; intros x; rewrite head_app_ne by done; apply Ht|].
  split; [rewrite is_comment_head in *; by destruct p|].
  rewrite trim_end_last by (rewrite Hl; by intros x [= <-]). rewrite E. apply strip_suffix_app.
Qed.

Lemma continued_nonempty p rest : continued p rest <> [].
Proof. by destruct rest as [|[cs q] rest]. Qed.

(** A value over any number of lines is one logical line. *)
Lemma continued_read pending st p rest more :
  line_ok p -> forallb later_ok rest = true ->
  unit_lines pending st (continued p rest ++ more) =
  unit_lines [] (push_directive st (pending ++ join #" " (p :: (snd <$> rest)))) more.
Proof.
  revert pending p. induction rest as [|[cs q] rest IH]; intros pending p Hp Hr; cbn [continued].
  - cbn [app unit_lines]. rewrite line_ok_cr, strip_cr_trimmed by (done || apply Hp).
    replace (if bool_decide (pending = []) then p else trim_ascii_start p) with p
      by (case_bool_decide; [done|]; by rewrite trimmed_start by apply Hp).
    rewrite trimmed_end, strip_suffix_none by apply Hp. done.
  - cbn [forallb] in Hr. apply andb_true_iff in Hr as [Hq Hr]. unfold later_ok in Hq. cbn [fst snd] in Hq.
    apply andb_true_iff in Hq as [[[Hcs Hq]%andb_true_iff Hne%negb_true_iff]%andb_true_iff Hc%negb_true_iff].
    unfold piece_ok in Hq. apply andb_true_iff in Hq as [[Ht%nothing_to_trim_true _]%andb_true_iff Hl%negb_true_iff].
    apply bool_decide_eq_false in Hne. apply ends_with_last in Hl.
    destruct (continued_line p Hp) as (E1 & E2 & E3 & E4).
    rewrite <- app_comm_cons, <- app_assoc. cbn [unit_lines]. rewrite E1, E2, E3.
    replace (if bool_decide (pending = []) then p ++ #" \" else p ++ #" \") with (p ++ #" \") by by case_bool_decide.
    rewrite E4. destruct (cs ++ continued q rest ++ more) as [|l ls] eqn:El.
    + apply app_eq_nil in El as [_ [El _]%app_eq_nil]. by apply continued_nonempty in El.
    + rewrite <- El, unit_lines_comments, IH by done. cbn [fmap list_fmap snd].
      rewrite trim_end_blank by apply Hp. do 2 f_equal. cbn [join]. by rewrite <- !app_assoc.
Qed.

(** One logical line. *)
Lemma join_nonempty {A} (sep p : list A) ps : p <> [] -> join sep (p :: ps) <> [].
Proof. intros Hp. destruct ps; [exact Hp|]. by intros [E _]%app_eq_nil. Qed.
Lemma last_cons_ne {A} (x : A) l : l <> [] -> last (x :: l) = last l.
Proof. by destruct l. Qed.
Lemma join_trimmed ps :
  Forall (fun p => trimmed is_ascii_whitespace p /\ p <> []) ps -> trimmed is_ascii_whitespace (join #" " ps).
Proof.
  intros Hps. induction Hps as [|p ps [Hp Hne] Hps IH]; [done|]. destruct ps as [|q ps]; [done|].
  change (join #" " (p :: q :: ps)) with (p ++ " "%byte :: join #" " (q :: ps)). split; intros x.
  - rewrite head_app_ne by done. apply Hp.
  - rewrite last_app_cons, last_cons_ne; [apply IH|]. apply Forall_cons in Hps as [[_ Hq] _]. by apply join_nonempty.
Qed.

Record key_facts (k : bytes) : Prop := mk_key_facts {
  kf_trimmed : trimmed is_ascii_whitespace k;
  kf_nonempty : k <> [];
  kf_plain : Forall (fun x => is_byte eq_sign x = false) k;
  kf_comment : is_comment k = false;
  kf_header : starts_with ["["%byte] k = false
}.
Lemma forallb_negb_Forall {A} (f : A -> bool) l : forallb (fun x => negb (f x)) l = true -> Forall (fun x => f x = false) l.
Proof.
  intros Hl. apply Forall_forall. intros x Hx%list_elem_of_In. eapply forallb_forall in Hl; [|done]. by apply negb_true_iff.
Qed.
Lemma key_ok_facts k : key_ok k = true -> key_facts k.
Proof.
  unfold key_ok. intros [[[[[Ht _]%andb_true_iff Hne%negb_true_iff]%andb_true_iff Hp]%andb_true_iff Hc%negb_true_iff]%andb_true_iff
    Hh%negb_true_iff]%andb_true_iff.
  split; [by apply nothing_to_trim_true|by apply bool_decide_eq_false in Hne|by apply forallb_negb_Forall|done|done].
Qed.

Lemma starts_with_cons {A} `{EqDecision A} (c x : A) l : starts_with [c] (x :: l) = bool_decide (c = x).
Proof. unfold starts_with. cbn [strip_prefix]. case_decide; case_bool_decide; by try congruence. Qed.
Lemma header_name_head t : starts_with ["["%byte] t = false -> header_name t = None.
Proof.
  destruct t as [|c t]; [done|]. rewrite starts_with_cons. intros Hc%bool_decide_eq_false.
  cbn [header_name]. by rewrite bool_decide_false by congruence.
Qed.
Lemma starts_with_app_ne {A} `{EqDecision A} (c : A) p q : p <> [] -> starts_with [c] (p ++ q) = starts_with [c] p.
Proof. destruct p as [|x p]; [done|]. intros _. rewrite <- app_comm_cons. by rewrite !starts_with_cons. Qed.

(** [key=value] pushes just that. *)
Lemma push_assignment st k v :
  key_facts k -> trimmed is_ascii_whitespace v ->
  push_directive st (k ++ eq_sign :: v) =
  mk_unit_state (us_out st ++ [mk_directive (us_section st) (from_utf8_lossy k) v]) (us_section st).
Proof.
  intros [Ht Hne Hp Hc Hh] Hv. unfold push_directive. cbv zeta.
  assert (trim_ascii (k ++ eq_sign :: v) = k ++ eq_sign :: v) as ->.
  { apply trim_by_id. split; intros x; [rewrite head_app_ne by done; apply Ht|]. rewrite last_app_cons.
    destruct (decide (v = [])) as [->|Hv']; [by intros [= <-]|]. rewrite last_cons_ne by done. apply Hv. }
  rewrite bool_decide_false by (by destruct k). assert (is_comment (k ++ eq_sign :: v) = false) as ->.
  { rewrite is_comment_head in *. by destruct k. }
  cbn [orb]. rewrite header_name_head by (by rewrite starts_with_app_ne).
  rewrite position_app by (done || by apply is_byte_true). rewrite take_app_length.
  rewrite (trimmed_id k) by done. rewrite bool_decide_false by done.
  rewrite drop_app_ge by lia. replace (S (length k) - length k) with 1 by lia. cbn [drop]. rewrite drop_0.
  by rewrite trimmed_id.
Qed.

Lemma push_header st name :
  push_directive st (section_header name) =
  mk_unit_state (us_out st ++ [mk_directive (from_utf8_lossy name) [] []]) (from_utf8_lossy name).
Proof.
  unfold push_directive, section_header. cbv zeta.
  assert (trim_ascii ("["%byte :: name ++ [("]"%byte)]) = "["%byte :: name ++ [("]"%byte)]) as ->.
  { apply trim_by_id. split; intros x; [by intros [= <-]|]. rewrite app_comm_cons, last_snoc. by intros [= <-]. }
  rewrite bool_decide_false by done. rewrite is_comment_head. cbn [orb]. rewrite !bool_decide_false by done. cbn [orb].
  unfold header_name. rewrite bool_decide_true by done. by rewrite strip_suffix_app.
Qed.

Lemma later_piece rest : forallb later_ok rest = true ->
  Forall (fun p => trimmed is_ascii_whitespace p /\ p <> []) (snd <$> rest).
Proof.
  intros Hr. apply Forall_fmap, Forall_forall. intros [cs p] Hin%list_elem_of_In. eapply forallb_forall in Hr; [|done].
  unfold later_ok, piece_ok in Hr. cbn [fst snd compose] in *.
  apply andb_true_iff in Hr as [[[_ [[Ht _]%andb_true_iff _]%andb_true_iff]%andb_true_iff Hne%negb_true_iff]%andb_true_iff _].
  apply bool_decide_eq_false in Hne. split; [by apply nothing_to_trim_true|done].
Qed.

(** An assignment, over however many lines, pushes its one directive. *)
Lemma assignment_read st a more :
  assignment_ok a = true ->
  unit_lines [] st (assignment_lines a ++ more) =
  unit_lines [] (mk_unit_state (us_out st ++ [mk_directive (us_section st) (from_utf8_lossy (as_key a)) (assignment_value a)])
                   (us_section st)) more.
Proof.
  destruct a as [k first rest]. unfold assignment_ok, assignment_lines, assignment_value. cbn [as_key as_first as_rest].
  intros [[[Hk%key_ok_facts Hf]%andb_true_iff Hd%orb_true_iff]%andb_true_iff Hr]%andb_true_iff.
  unfold piece_ok in Hf. apply andb_true_iff in Hf as [[Hf%nothing_to_trim_true _]%andb_true_iff Hl%negb_true_iff].
  apply ends_with_last in Hl. assert (Hp : line_ok (k ++ eq_sign :: first)).
  { destruct Hk as [Ht Hne _ Hc _]. split.
    - split; intros x; [rewrite head_app_ne by done; apply Ht|]. rewrite last_app_cons.
      destruct (decide (first = [])) as [->|?]; [by intros [= <-]|]. rewrite last_cons_ne by done. apply Hf.
    - by destruct k.
    - rewrite last_app_cons. destruct (decide (first = [])) as [->|?]; [done|]. by rewrite last_cons_ne.
    - rewrite is_comment_head in *. by destruct k. }
  rewrite continued_read by done. f_equal. cbn [app].
  assert (Hj : join #" " ((k ++ eq_sign :: first) :: (snd <$> rest)) = k ++ eq_sign :: join #" " (first :: (snd <$> rest))).
  { destruct rest as [|cp rest]; [done|]. cbn [fmap list_fmap join]. by rewrite <- app_assoc. }
  rewrite Hj. apply push_assignment; [done|]. destruct rest as [|cp rest]; [done|].
  destruct Hd as [Hd%negb_true_iff|Hd]; [|by apply bool_decide_eq_true in Hd]. apply bool_decide_eq_false in Hd.
  apply join_trimmed. apply Forall_cons. split; [done|]. by apply later_piece.
Qed.
Lemma assignments_read st as_ more :
  forallb assignment_ok as_ = true ->
  unit_lines [] st ((as_ ≫= assignment_lines) ++ more) =
  unit_lines [] (mk_unit_state (us_out st ++ ((fun a => mk_directive (us_section st) (from_utf8_lossy (as_key a)) (assignment_value a)) <$> as_))
                   (us_section st)) more.
Proof.
  revert st. induction as_ as [|a as_ IH]; intros st.
  - intros _. cbn. rewrite app_nil_r. by destruct st.
  - cbn [forallb]. intros [Ha Has]%andb_true_iff. rewrite bind_cons, <- app_assoc, assignment_read, IH by done.
    cbn [us_out us_section fmap list_fmap]. by rewrite <- app_assoc.
Qed.

Lemma section_read st s more :
  forallb assignment_ok (snd s) = true ->
  unit_lines [] st (section_header (fst s) :: (snd s ≫= assignment_lines) ++ more) =
  unit_lines [] (mk_unit_state (us_out st ++ section_meaning s) (from_utf8_lossy (fst s))) more.
Proof.
  destruct s as [name as_]. cbn [fst snd]. intros Has. cbn [unit_lines].
  assert (Hl : last (section_header name) = Some "]"%byte).
  { unfold section_header. by rewrite app_comm_cons, last_snoc. }
  rewrite comment_cr, strip_cr_last by (rewrite Hl; done).
  rewrite (drop_while_id is_ascii_whitespace (section_header name) : _ -> trim_ascii_start (section_header name) = _)
    by (by intros x [= <-]).
  rewrite is_comment_head. unfold section_header at 1. rewrite !bool_decide_false by done. cbn [orb].
  rewrite bool_decide_true by done. rewrite trim_end_last by (rewrite Hl; by intros x [= <-]).
  rewrite strip_suffix_none by (by rewrite Hl). cbn [app]. rewrite push_header, assignments_read by done.
  cbn [us_out us_section]. unfold section_meaning. cbn [fst snd]. by rewrite <- app_assoc.
Qed.
Lemma sections_read st f more :
  unit_ok f = true -> us_out (unit_lines [] st (unit_text_lines f ++ more)) =
  us_out (unit_lines [] (mk_unit_state (us_out st ++ unit_meaning f) (default (us_section st) (from_utf8_lossy <$> last f.*1))) more).
Proof.
  revert st. induction f as [|s f IH]; intros st.
  - intros _. cbn. rewrite app_nil_r. by destruct st.
  - unfold unit_ok. cbn [forallb]. intros [[_ Hs]%andb_true_iff Hf]%andb_true_iff. unfold unit_text_lines, unit_meaning.
    rewrite !bind_cons, <- app_assoc, <- app_comm_cons, section_read by done. fold (unit_text_lines f). rewrite IH by done.
    cbn [us_out us_section]. rewrite <- app_assoc. fold (unit_meaning f). do 3 f_equal.
    rewrite fmap_cons. destruct f as [|s' f]; [done|]. rewrite fmap_cons, last_cons_cons.
    by destruct (last _) eqn:E; [|apply last_None in E].
Qed.

(** No line printed holds a newline. *)
Abbreviation clean := (Forall (fun x => is_byte newline x = false)).
Lemma one_line_clean s : one_line s = true -> clean s.
Proof. apply forallb_negb_Forall. Qed.
Lemma continued_clean p rest : clean p -> forallb later_ok rest = true -> Forall clean (continued p rest).
Proof.
  revert p. induction rest as [|[cs q] rest IH]; intros p Hp Hr; cbn [continued]; [by apply Forall_singleton|].
  cbn [forallb] in Hr. apply andb_true_iff in Hr as [Hq Hr]. unfold later_ok, piece_ok in Hq. cbn [fst snd] in Hq.
  apply andb_true_iff in Hq as [[[Hcs [[_ Hq]%andb_true_iff _]%andb_true_iff]%andb_true_iff _]%andb_true_iff _].
  apply Forall_cons. split; [apply Forall_app; split; [done|by repeat constructor]|]. apply Forall_app. split.
  - apply Forall_forall. intros c Hc%list_elem_of_In. eapply forallb_forall in Hcs; [|done].
    apply andb_true_iff in Hcs as [Hcs _]. by apply one_line_clean.
  - apply IH; [by apply one_line_clean|done].
Qed.
Lemma assignment_clean a : assignment_ok a = true -> Forall clean (assignment_lines a).
Proof.
  unfold assignment_ok. intros [[[Hk Hf]%andb_true_iff _]%andb_true_iff Hr]%andb_true_iff.
  unfold assignment_lines. apply continued_clean; [|done]. unfold key_ok, piece_ok in *.
  apply andb_true_iff in Hf as [[_ Hf]%andb_true_iff _].
  apply andb_true_iff in Hk as [[[[[_ Hk]%andb_true_iff _]%andb_true_iff _]%andb_true_iff _]%andb_true_iff _].
  apply Forall_app. split; [by apply one_line_clean|]. apply Forall_cons. split; [done|]. by apply one_line_clean.
Qed.
Lemma unit_text_clean f : unit_ok f = true -> Forall clean (unit_text_lines f).
Proof.
  intros Hf. unfold unit_text_lines. apply Forall_bind, Forall_forall. intros [name as_] Hin%list_elem_of_In.
  eapply forallb_forall in Hf; [|done]. cbn [fst snd] in *. apply andb_true_iff in Hf as [Hn Has].
  apply Forall_cons. split.
  - apply Forall_cons. split; [done|]. apply Forall_app. split; [by apply one_line_clean|by repeat constructor].
  - apply Forall_bind, Forall_forall. intros a Ha%list_elem_of_In. eapply forallb_forall in Has; [|done]. by apply assignment_clean.
Qed.

(** ** Lists an empty value starts again *)

(** Of the directives selected, those after the last with an empty value. *)
Definition standing (sel : Directive -> bool) (ds : list Directive) : list Directive :=
  reverse (take_while (fun d => negb (bool_decide (d_value d = []))) (reverse (List.filter sel ds))).
Definition standing_step (sel : Directive -> bool) (st : list Directive) (d : Directive) : list Directive :=
  if sel d then accumulate st (bool_decide (d_value d = [])) [d] else st.
Lemma standing_snoc sel ds d : standing sel (ds ++ [d]) = standing_step sel (standing sel ds) d.
Proof.
  unfold standing, standing_step, accumulate. rewrite List.filter_app. cbn [List.filter].
  destruct (sel d); [|by rewrite app_nil_r]. rewrite reverse_snoc. cbn [take_while].
  case_bool_decide; cbn [negb]; [done|]. by rewrite reverse_cons.
Qed.

(** A part of the facts that each directive changes by itself is what its
    directives leave standing. *)
Lemma facts_standing {A} (sel : Directive -> bool) (g : list Directive -> A) (part : Facts -> A) :
  part no_facts = g [] ->
  (forall f d st, part f = g st -> part (take_directive f d) = g (standing_step sel st d)) ->
  forall ds, part (facts ds) = g (standing sel ds).
Proof.
  intros H0 Hstep ds. induction ds as [|d ds IH] using rev_ind; [done|].
  unfold facts in *. rewrite foldl_app, standing_snoc. cbn [foldl]. by apply Hstep.
Qed.

Definition key_is (k : bytes) (d : Directive) : bool := bool_decide (d_key d = k).
Definition in_install (k : bytes) (d : Directive) : bool := key_is k d && bool_decide (d_section d = #"Install").
Definition is_condition (d : Directive) : bool := starts_with #"Condition" (d_key d) || starts_with #"Assert" (d_key d).
Definition in_list (l : bytes) (d : Directive) : bool := is_condition d && bool_decide (condition_list (d_key d) = l).

(** What an ordinary directive is not. *)
Definition ordinary (k : bytes) : bool := negb (bool_decide (k = [])) && negb (mem k EXEC_KEYS) && negb (mem k TIMER_KEYS).
Lemma take_directive_install f d :
  exists f0, (f0 = f \/ f0 = set_has_install f true) /\
    take_directive f d =
    (if bool_decide (d_key d = []) then f0
     else if mem (d_key d) EXEC_KEYS then
       let f1 := set_exec f0 (accumulate_at (f_exec f0) (d_key d) (d_value d)) in
       if bool_decide (d_key d = #"ExecStart") && bool_decide (f_exec_section f1 = None) && negb (mem (d_section d) EXEC_SECTIONS)
       then set_exec_section f1 (Some (d_section d)) else f1
     else if mem (d_key d) TIMER_KEYS then set_timer f0 (accumulate_at (f_timer f0) (d_key d) (d_value d))
     else take_other f0 d).
Proof.
  destruct d as [s k v]. unfold take_directive. cbn [d_key d_value d_section].
  exists (if bool_decide (s = #"Install") then set_has_install f true else f). split; [by case_bool_decide; [right|left]|done].
Qed.
Ltac split_directive f d :=
  destruct (take_directive_install f d) as (f0 & Hf0 & ->).

Lemma take_other_exec f d : f_exec (take_other f d) = f_exec f.
Proof. destruct d as [s k v]. unfold take_other. by repeat case_match. Qed.
Lemma take_other_timer f d : f_timer (take_other f d) = f_timer f.
Proof. destruct d as [s k v]. unfold take_other. by repeat case_match. Qed.
Lemma take_directive_exec f d :
  f_exec (take_directive f d) = if mem (d_key d) EXEC_KEYS then accumulate_at (f_exec f) (d_key d) (d_value d) else f_exec f.
Proof.
  split_directive f d. assert (f_exec f0 = f_exec f) as <- by by destruct Hf0 as [-> | ->].
  case_bool_decide as E; [by rewrite E|]. destruct (mem (d_key d) EXEC_KEYS); [cbv zeta; by case_match|].
  destruct (mem (d_key d) TIMER_KEYS); [done|]. apply take_other_exec.
Qed.
Lemma exec_not_timer k : mem k EXEC_KEYS = true -> mem k TIMER_KEYS = false.
Proof.
  unfold mem, EXEC_KEYS. intros E%bool_decide_eq_true_1. rewrite !elem_of_cons, elem_of_nil in E.
  repeat destruct E as [->|E]; [by vm_compute..|done].
Qed.
Lemma take_directive_timer f d :
  f_timer (take_directive f d) = if mem (d_key d) TIMER_KEYS then accumulate_at (f_timer f) (d_key d) (d_value d) else f_timer f.
Proof.
  split_directive f d. assert (f_timer f0 = f_timer f) as <- by by destruct Hf0 as [-> | ->].
  case_bool_decide as E; [by rewrite E|]. destruct (mem (d_key d) EXEC_KEYS) eqn:Ex.
  - rewrite exec_not_timer by done. cbv zeta. by case_match.
  - destruct (mem (d_key d) TIMER_KEYS); [done|]. apply take_other_timer.
Qed.

(** A map of lists, one key's. *)
Lemma accumulate_at_lookup m k k' v :
  default [] (accumulate_at m k' v !! k) = if bool_decide (k' = k) then accumulate1 v (default [] (m !! k)) else default [] (m !! k).
Proof.
  unfold accumulate_at. case_bool_decide as E; [subst; by rewrite lookup_insert_eq|by rewrite lookup_insert_ne].
Qed.
Lemma standing_values sel st d :
  d_value <$> standing_step sel st d = if sel d then accumulate1 (d_value d) (d_value <$> st) else d_value <$> st.
Proof.
  unfold standing_step, accumulate1, accumulate. destruct (sel d); [|done]. case_bool_decide; [done|]. by rewrite fmap_app.
Qed.
Lemma exec_standing k ds : mem k EXEC_KEYS = true -> default [] (f_exec (facts ds) !! k) = d_value <$> standing (key_is k) ds.
Proof.
  intros Hk. apply (facts_standing _ (fmap d_value) (fun f => default [] (f_exec f !! k))); [done|].
  intros f d st E. rewrite standing_values, <- E, take_directive_exec. unfold key_is. case_bool_decide as Ek.
  - subst k. rewrite Hk, accumulate_at_lookup. by rewrite bool_decide_true.
  - destruct (mem (d_key d) EXEC_KEYS); [|done]. rewrite accumulate_at_lookup. by rewrite bool_decide_false.
Qed.
Lemma timer_standing k ds : mem k TIMER_KEYS = true -> default [] (f_timer (facts ds) !! k) = d_value <$> standing (key_is k) ds.
Proof.
  intros Hk. apply (facts_standing _ (fmap d_value) (fun f => default [] (f_timer f !! k))); [done|].
  intros f d st E. rewrite standing_values, <- E, take_directive_timer. unfold key_is. case_bool_decide as Ek.
  - subst k. rewrite Hk, accumulate_at_lookup. by rewrite bool_decide_true.
  - destruct (mem (d_key d) TIMER_KEYS); [|done]. rewrite accumulate_at_lookup. by rewrite bool_decide_false.
Qed.

(** A part that only [take_other] changes. *)
Lemma part_other {A} (part : Facts -> A) f d :
  (forall f b, part (set_has_install f b) = part f) -> (forall f x, part (set_exec f x) = part f) ->
  (forall f x, part (set_exec_section f x) = part f) -> (forall f x, part (set_timer f x) = part f) ->
  exists f0, part f0 = part f /\
    part (take_directive f d) = if ordinary (d_key d) then part (take_other f0 d) else part f.
Proof.
  intros H1 H2 H3 H4. split_directive f d. exists f0.
  assert (E0 : part f0 = part f) by by destruct Hf0 as [-> | ->].
  split; [done|]. unfold ordinary.
  case_bool_decide; [done|]. destruct (mem (d_key d) EXEC_KEYS).
  - cbv zeta. cbn [negb andb]. case_match; by rewrite ?H3, H2.
  - destruct (mem (d_key d) TIMER_KEYS); [|done]. cbn [negb andb]. by rewrite H4.
Qed.
(** Of the keys compared in turn, the first that is the key's. *)
Lemma take_other_env_files f d :
  f_env_files (take_other f d) = if key_is #"EnvironmentFile" d then accumulate1 (d_value d) (f_env_files f) else f_env_files f.
Proof. destruct d as [s k v]. unfold take_other, key_is. cbn [d_key d_value]. by repeat case_bool_decide; simplify_eq; try case_match. Qed.
Lemma take_other_wanted f d :
  f_wanted_by (take_other f d) = if in_install #"WantedBy" d then accumulate1 (d_value d) (f_wanted_by f) else f_wanted_by f.
Proof.
  destruct d as [s k v]. unfold take_other, in_install, key_is. cbn [d_key d_value d_section].
  repeat (case_bool_decide; simplify_eq; try done). all: by repeat case_match.
Qed.
Lemma take_other_required f d :
  f_required_by (take_other f d) = if in_install #"RequiredBy" d then accumulate1 (d_value d) (f_required_by f) else f_required_by f.
Proof.
  destruct d as [s k v]. unfold take_other, in_install, key_is. cbn [d_key d_value d_section].
  repeat (case_bool_decide; simplify_eq; try done). all: by repeat case_match.
Qed.
Definition condition_step_of (cs : list (bytes * bytes)) (d : Directive) : list (bytes * bytes) :=
  if bool_decide (d_value d = [])
  then List.filter (fun c => negb (bool_decide (condition_list (fst c) = condition_list (d_key d)))) cs
  else cs ++ [(d_key d, d_value d)].
Lemma take_other_conditions f d :
  f_conditions (take_other f d) = if is_condition d then condition_step_of (f_conditions f) d else f_conditions f.
Proof.
  destruct d as [s k v]. unfold take_other, is_condition, condition_step_of. cbn [d_key d_value d_section].
  repeat (case_bool_decide; simplify_eq; try done). all: by repeat case_match.
Qed.

Lemma env_files_standing ds : f_env_files (facts ds) = d_value <$> standing (key_is #"EnvironmentFile") ds.
Proof.
  apply (facts_standing _ (fmap d_value) f_env_files); [done|]. intros f d st E.
  destruct (part_other f_env_files f d) as (f0 & E0 & ->); [done..|]. rewrite standing_values, take_other_env_files, E0, E.
  destruct (key_is _ d) eqn:Ek; [|by destruct (ordinary _)]. unfold key_is in Ek. apply bool_decide_eq_true in Ek. by rewrite Ek.
Qed.
Lemma wanted_standing ds : f_wanted_by (facts ds) = d_value <$> standing (in_install #"WantedBy") ds.
Proof.
  apply (facts_standing _ (fmap d_value) f_wanted_by); [done|]. intros f d st E.
  destruct (part_other f_wanted_by f d) as (f0 & E0 & ->); [done..|]. rewrite standing_values, take_other_wanted, E0, E.
  destruct (in_install _ d) eqn:Ek; [|by destruct (ordinary _)]. apply andb_true_iff in Ek as [Ek _].
  unfold key_is in Ek. apply bool_decide_eq_true in Ek. by rewrite Ek.
Qed.
Lemma required_standing ds : f_required_by (facts ds) = d_value <$> standing (in_install #"RequiredBy") ds.
Proof.
  apply (facts_standing _ (fmap d_value) f_required_by); [done|]. intros f d st E.
  destruct (part_other f_required_by f d) as (f0 & E0 & ->); [done..|]. rewrite standing_values, take_other_required, E0, E.
  destruct (in_install _ d) eqn:Ek; [|by destruct (ordinary _)]. apply andb_true_iff in Ek as [Ek _].
  unfold key_is in Ek. apply bool_decide_eq_true in Ek. by rewrite Ek.
Qed.

Lemma condition_ordinary d : is_condition d = true -> ordinary (d_key d) = true.
Proof.
  unfold ordinary. intros Hc. destruct (bool_decide (d_key d = [])) eqn:E0.
  { apply bool_decide_eq_true in E0. unfold is_condition in Hc. by rewrite E0 in Hc. }
  destruct (mem (d_key d) EXEC_KEYS) eqn:E1.
  { unfold mem, EXEC_KEYS in E1. apply bool_decide_eq_true_1 in E1. rewrite !elem_of_cons, elem_of_nil in E1.
    unfold is_condition in Hc. repeat destruct E1 as [E1|E1]; try done; by rewrite E1 in Hc. }
  destruct (mem (d_key d) TIMER_KEYS) eqn:E2; [|done].
  unfold mem, TIMER_KEYS in E2. apply bool_decide_eq_true_1 in E2. rewrite !elem_of_cons, elem_of_nil in E2.
  unfold is_condition in Hc. repeat destruct E2 as [E2|E2]; try done; by rewrite E2 in Hc.
Qed.

Definition in_condition_list (l : bytes) (c : bytes * bytes) : bool := bool_decide (condition_list (fst c) = l).
Definition as_condition (d : Directive) : bytes * bytes := (d_key d, d_value d).
Lemma filter_filter {A} (f g : A -> bool) l : List.filter f (List.filter g l) = List.filter (fun x => g x && f x) l.
Proof. induction l as [|x l IH]; [done|]. cbn. destruct (g x); cbn; [destruct (f x); by rewrite IH|done]. Qed.
Lemma filter_none {A} (f : A -> bool) l : (forall x, f x = false) -> List.filter f l = [].
Proof. intros Hf. induction l as [|x l IH]; [done|]. cbn. by rewrite Hf. Qed.

Lemma condition_step_list l cs d :
  List.filter (in_condition_list l) (condition_step_of cs d) =
  if bool_decide (condition_list (d_key d) = l)
  then accumulate (List.filter (in_condition_list l) cs) (bool_decide (d_value d = [])) [as_condition d]
  else List.filter (in_condition_list l) cs.
Proof.
  unfold condition_step_of, accumulate. destruct (bool_decide (d_value d = [])).
  - rewrite filter_filter. case_bool_decide as E.
    + apply filter_none. intros c. unfold in_condition_list. subst l. by case_bool_decide.
    + apply List.filter_ext. intros c. unfold in_condition_list. repeat case_bool_decide; congruence || done.
  - rewrite List.filter_app. cbn [List.filter]. unfold in_condition_list at 2. cbn [fst].
    destruct (bool_decide (condition_list (d_key d) = l)); [done|apply app_nil_r].
Qed.

Lemma conditions_standing l ds :
  List.filter (in_condition_list l) (f_conditions (facts ds)) = as_condition <$> standing (in_list l) ds.
Proof.
  apply (facts_standing _ (fmap as_condition) (fun f => List.filter (in_condition_list l) (f_conditions f))); [done|].
  intros f d st E. destruct (part_other f_conditions f d) as (f0 & E0 & Ef); [done..|]. rewrite Ef. clear Ef.
  unfold standing_step, in_list. destruct (is_condition d) eqn:Hc.
  - rewrite condition_ordinary, take_other_conditions, Hc, condition_step_list, E0, E by done. cbn [andb].
    case_bool_decide; [|done]. unfold accumulate. case_bool_decide; [done|]. by rewrite fmap_app.
  - destruct (ordinary (d_key d)); [|done]. by rewrite take_other_conditions, Hc, E0.
Qed.

Lemma has_install_true ds : f_has_install (facts ds) = existsb (fun d => bool_decide (d_section d = #"Install")) ds.
Proof.
  induction ds as [|d ds IH] using rev_ind; [done|]. unfold facts in *. rewrite foldl_app, existsb_app, <- IH. cbn [foldl existsb].
  rewrite orb_false_r. set (f := foldl _ _ _). destruct d as [s k v]. unfold take_directive. cbn [d_section].
  assert (T : forall g dd, f_has_install (take_other g dd) = f_has_install g).
  { intros g [s' k' v']. unfold take_other. by repeat case_match. }
  destruct (bool_decide (s = #"Install")); rewrite ?orb_true_r, ?orb_false_r; case_bool_decide; try done;
    destruct (mem k EXEC_KEYS); [cbv zeta; by case_match| |cbv zeta; by case_match|];
    destruct (mem k TIMER_KEYS); try done; by rewrite T.
Qed.

(** ** What conditions mean *)

Section conditions.
Context (h : snapshot) (r : root) (target : option path).

(** The tests that can be made here, on one moment. *)
Definition decided (c : condition) : option bool := (fun t => run h (run_test r t (c_path c))) <$> test_of (c_key c).
(** A condition, where [u] says of each test that cannot be made how it
    comes out. *)
Definition truth (u : condition -> bool) (c : condition) : bool := negb (bool_decide (default (u c) (decided c) = c_negate c)).
(** Every plain condition of a list, and one of those marked [|] if there
    are any. *)
Definition list_holds (tr : condition -> bool) (cs : list condition) : bool :=
  forallb (fun c => c_triggering c || tr c) cs
  && (negb (existsb c_triggering cs) || existsb (fun c => c_triggering c && tr c) cs).
Definition conditions_hold (u : condition -> bool) (conditions : list (bytes * bytes)) : bool :=
  list_holds (truth u) (of_list #"Condition" conditions) && list_holds (truth u) (of_list #"Assert" conditions).

(** What is best for a unit: every test that cannot be made comes out well. *)
Definition hopeful (c : condition) : bool := negb (c_negate c).
Lemma truth_hopeful u c : truth u c = true -> truth hopeful c = true.
Proof. unfold truth, hopeful. destruct (decided c); [done|]. cbn. intros _. by destruct (c_negate c). Qed.
Lemma list_holds_mono (t t' : condition -> bool) cs : (forall c, t c = true -> t' c = true) -> list_holds t cs = true -> list_holds t' cs = true.
Proof.
  intros Ht. unfold list_holds. rewrite !andb_true_iff, !orb_true_iff, !forallb_forall, !existsb_exists.
  intros [Ha Hb]. split.
  - intros c Hc. specialize (Ha c Hc). rewrite orb_true_iff in *. naive_solver.
  - destruct Hb as [Hb|(c & Hc & [Hg Hd]%andb_true_iff)]; [by left|]. right. exists c. rewrite andb_true_iff. naive_solver.
Qed.

Definition step (st : list_state) (c : condition) : list_state := judge_condition r target st c (decided c).
Lemma run_condition_step st c : run h (condition_step r target st c) = step st c.
Proof.
  unfold condition_step, step, decided. destruct (test_of (c_key c)); cbn [fmap option_fmap option_map]; [|done].
  by rewrite !run_bind.
Qed.

(** What the loop has of a list. *)
Record looked (fails0 : list bytes) (cs : list condition) (st : list_state) : Prop := mk_looked {
  lk_triggers : l_triggers st = [] <-> forallb (fun c => negb (c_triggering c && bool_decide (is_Some (decided c)))) cs = true;
  lk_any : l_any_holds st = existsb (fun c => c_triggering c && bool_decide (is_Some (decided c)) && truth hopeful c) cs;
  lk_unknown : l_unknown st = existsb (fun c => c_triggering c && bool_decide (decided c = None)) cs;
  lk_fails : l_fails st = [] <-> fails0 = [] /\ forallb (fun c => c_triggering c || truth hopeful c) cs = true
}.
Lemma step_looked fails0 cs st c : looked fails0 cs st -> looked fails0 (cs ++ [c]) (step st c).
Proof.
  destruct st as [tr any un fails g]. intros [H1 H2 H3 H4]. cbn [l_triggers l_any_holds l_unknown l_fails] in *.
  unfold step, judge_condition. assert (Ht : truth hopeful c = match decided c with Some b => negb (bool_decide (b = c_negate c)) | None => true end).
  { unfold truth, hopeful. destruct (decided c); [done|]. cbn. by destruct (c_negate c). }
  destruct (decided c) as [b|] eqn:Ed.
  - destruct (c_triggering c) eqn:Et, (negb (bool_decide (b = c_negate c))) eqn:Eg; split;
      cbn [l_triggers l_any_holds l_unknown l_fails]; rewrite ?forallb_app, ?existsb_app; cbn [forallb existsb];
      rewrite ?Ed, ?Et, ?Ht, ?andb_true_iff, <- ?H2, <- ?H3, ?orb_true_r, ?orb_false_r, ?app_nil; cbn; naive_solver.
  - destruct (c_triggering c) eqn:Et; split;
      cbn [l_triggers l_any_holds l_unknown l_fails]; rewrite ?forallb_app, ?existsb_app; cbn [forallb existsb];
      rewrite ?Ed, ?Et, ?Ht, ?andb_true_iff, <- ?H2, <- ?H3, ?orb_true_r, ?orb_false_r, ?app_nil; cbn; naive_solver.
Qed.
Lemma fold_looked fails0 guard0 cs : looked fails0 cs (foldl step (mk_list_state [] false false fails0 guard0) cs).
Proof.
  induction cs as [|c cs IH] using rev_ind; [by split; cbn; naive_solver|]. rewrite foldl_app. by apply step_looked.
Qed.

Lemma close_list_none l st :
  fst (close_list l st) = [] <-> l_fails st = [] /\ (l_triggers st = [] \/ l_any_holds st || l_unknown st = true).
Proof.
  destruct st as [tr any un fails g]. cbn [close_list l_triggers l_any_holds l_unknown l_fails fst].
  destruct (bool_decide (tr = [])) eqn:E; rewrite ?bool_decide_eq_true, ?bool_decide_eq_false in E;
    destruct any, un; cbn; rewrite ?app_nil; naive_solver.
Qed.

Lemma triggers_spec cs :
  (forallb (fun c => negb (c_triggering c && bool_decide (is_Some (decided c)))) cs = true \/
   existsb (fun c => c_triggering c && bool_decide (is_Some (decided c)) && truth hopeful c) cs
   || existsb (fun c => c_triggering c && bool_decide (decided c = None)) cs = true) <->
  negb (existsb c_triggering cs) || existsb (fun c => c_triggering c && truth hopeful c) cs = true.
Proof.
  rewrite !orb_true_iff, forallb_forall, !existsb_exists, negb_true_iff, <- not_true_iff_false, existsb_exists.
  assert (Hn : forall c, decided c = None -> truth hopeful c = true).
  { intros c E. unfold truth, hopeful. rewrite E. cbn. by destruct (c_negate c). }
  split.
  - intros [Hf|[(c & Hc & Hx)|(c & Hc & Hx)]].
    + destruct (existsb (fun c => c_triggering c && truth hopeful c) cs) eqn:E.
      { right. by apply existsb_exists in E. }
      left. intros (c & Hc & Ht). apply not_true_iff_false in E. apply E, existsb_exists. exists c. split; [done|].
      rewrite Ht. cbn. apply Hn. specialize (Hf c Hc). rewrite Ht in Hf. cbn in Hf. apply negb_true_iff, bool_decide_eq_false in Hf.
      by apply eq_None_not_Some.
    + right. exists c. rewrite !andb_true_iff in *. naive_solver.
    + right. exists c. rewrite !andb_true_iff, bool_decide_eq_true in *. naive_solver.
  - intros [Hno|(c & Hc & [Ht Hg]%andb_true_iff)].
    + left. intros c Hc. apply negb_true_iff, andb_false_iff. left. apply not_true_iff_false. intros Ht. apply Hno. by exists c.
    + right. destruct (decided c) as [b|] eqn:E; [left|right]; exists c; rewrite Ht, E; by rewrite ?Hg.
Qed.

Lemma run_judge_list conditions st l :
  fst (run h (judge_list r target conditions st l)) = [] <->
  fst st = [] /\ list_holds (truth hopeful) (of_list l conditions) = true.
Proof.
  unfold judge_list. rewrite run_bind, run_fold_prog. cbn [run].
  rewrite (foldl_ext_in _ step) by (intros; apply run_condition_step).
  rewrite close_list_none. destruct (fold_looked (fst st) (snd st) (of_list l conditions)) as [H1 H2 H3 H4].
  rewrite H1, H2, H3, H4, triggers_spec. unfold list_holds. rewrite andb_true_iff. naive_solver.
Qed.

(** A unit fails its conditions exactly where they cannot all hold, however
    the tests that cannot be made here come out. *)
Lemma run_judge_conditions conditions :
  fst (run h (judge_conditions r target conditions)) = [] <-> exists u, conditions_hold u conditions = true.
Proof.
  unfold judge_conditions. cbn [fold_prog]. rewrite !run_bind. cbn [run]. rewrite !run_judge_list. cbn [fst].
  split.
  - intros [[_ Hc] Ha]. exists hopeful. unfold conditions_hold. by rewrite Hc, Ha.
  - intros [u [Hc Ha]%andb_true_iff].
    split; [split; [done|]|]; (eapply list_holds_mono; [|eassumption]); intros c; apply truth_hopeful.
Qed.
End conditions.

(** ** What filling leaves alone *)

(** All but the command, the target, the principal, the flags, and notes
    whose keys begin with one of [hs]. *)
Record kept (hs : bytes) (e e' : Entry.entry) : Prop := mk_kept {
  kp_id : e_id e' = e_id e;
  kp_kind : e_kind e' = e_kind e;
  kp_source : e_source e' = e_source e;
  kp_name : e_name e' = e_name e;
  kp_trigger : e_trigger e' = e_trigger e;
  kp_enabled : e_enabled e' = e_enabled e;
  kp_flags : forall fl, Entry.has_flag e fl = true -> Entry.has_flag e' fl = true;
  kp_raw : forall k c, head k = Some c -> c ∉ hs -> e_raw e' !! k = e_raw e !! k
}.
#[export] Instance kept_refl hs : Reflexive (kept hs).
Proof. done. Qed.
#[export] Instance kept_trans hs : Transitive (kept hs).
Proof.
  intros a b c Ha Hb. split; try (etrans; [apply Hb|apply Ha]).
  - intros fl Hf. by apply Hb, Ha.
  - intros k x Hk Hx. etrans; [by eapply (kp_raw _ _ _ Hb)|by eapply (kp_raw _ _ _ Ha)].
Qed.
Lemma kept_mono hs hs' e e' : hs ⊆ hs' -> kept hs e e' -> kept hs' e e'.
Proof. intros Hs []. split; try done. intros k c Hk Hc. eauto. Qed.

Lemma kept_note hs e k v c : head k = Some c -> c ∈ hs -> kept hs e (Entry.note e k v).
Proof. intros Hk Hc. split; try done. intros k' c' Hk' Hc'. cbn. apply lookup_insert_ne. congruence. Qed.
Lemma kept_flag hs e fl : kept hs e (Entry.flag e fl).
Proof.
  unfold Entry.flag. destruct (mem fl (e_flags e)) eqn:E; [done|]. split; try done. intros g. unfold Entry.has_flag.
  cbn [set_flags e_flags]. unfold mem. rewrite !bool_decide_eq_true. set_solver.
Qed.
Lemma kept_flag_if hs b e fl : kept hs e (flag_if b e fl).
Proof. destruct b; [apply kept_flag|done]. Qed.
Lemma kept_bytes hs e k v c : head k = Some c -> c ∈ hs -> kept hs e (note_bytes e k v).
Proof. intros Hk Hc. unfold note_bytes. etrans; [apply kept_flag_if|by eapply kept_note]. Qed.
Lemma kept_foldl {A} hs (f : Entry.entry -> A -> Entry.entry) e l : (forall e a, kept hs e (f e a)) -> kept hs e (foldl f e l).
Proof. intros Hf. revert e. induction l as [|a l IH]; intros e; [done|]. cbn [foldl]. etrans; [apply Hf|apply IH]. Qed.
Lemma kept_command hs e c : kept hs e (with_command e c).
Proof. done. Qed.
Lemma kept_target hs e c : kept hs e (set_target_path e c).
Proof. done. Qed.
Lemma kept_principal hs e c : kept hs e (set_principal e c).
Proof. done. Qed.

Lemma head_indexed base i c : head base = Some c -> head (indexed base i) = Some c.
Proof. unfold indexed. case_bool_decide; [done|]. by destruct base. Qed.
Lemma head_app_Some (p q : bytes) c : head p = Some c -> head (p ++ q) = Some c.
Proof. by destruct p. Qed.
Lemma kept_indexed hs base vs e c : head base = Some c -> c ∈ hs -> kept hs e (note_indexed base vs e).
Proof. intros Hb Hc. apply kept_foldl. intros e' [i v]. eapply kept_bytes; [|done]. by apply head_indexed. Qed.
Lemma kept_lists hs prefix m e c : head prefix = Some c -> c ∈ hs -> kept hs e (note_lists prefix m e).
Proof. intros Hb Hc. apply kept_foldl. intros e' [k vs]. eapply kept_indexed; [|done]. by apply head_app_Some. Qed.
Lemma kept_env hs e l : "e"%byte ∈ hs -> kept hs e (foldl note_env e l).
Proof. intros Hh. apply kept_foldl. intros e' [k v]. by eapply kept_note. Qed.
Lemma kept_opt hs k v e c : head k = Some c -> c ∈ hs -> kept hs e (note_opt k v e).
Proof. intros Hk Hc. destruct v; [by eapply kept_bytes|done]. Qed.

#[local] Ltac in_heads := first [done | by apply (bool_decide_eq_true_1 _)].

Lemma kept_fill_command hs f e : "e"%byte ∈ hs -> kept hs e (fill_command f e).
Proof.
  intros He. unfold fill_command. destruct (primary f) as [[k first]|]; [|done]. cbv zeta. etrans; [apply kept_flag_if|].
  etrans; [|apply kept_command]. etrans; [|apply kept_target]. case_bool_decide; [done|]. by eapply kept_note.
Qed.
Lemma kept_section hs (x : option bytes) e : "e"%byte ∈ hs ->
  kept hs e (match x with Some x => Entry.note e #"exec_section" x | None => e end).
Proof. intros He. destruct x; [by eapply kept_note|done]. Qed.
Lemma kept_fill_principal hs f s e : "u"%byte ∈ hs -> kept hs e (fill_principal f s e).
Proof.
  intros He. unfold fill_principal. destruct (f_user f); [|by destruct s]. etrans; [|apply kept_principal]. by eapply kept_bytes.
Qed.

Definition FACT_HEADS : bytes := #"etwrgu".
Lemma kept_fill_facts f s e : kept FACT_HEADS e (fill_facts f s e).
Proof.
  unfold fill_facts. cbv zeta. etrans; [|apply kept_env; in_heads]. etrans; [|apply kept_fill_principal; in_heads].
  etrans; [|eapply (kept_opt _ #"group"); in_heads]. etrans; [|eapply (kept_opt _ #"type"); in_heads].
  etrans; [|eapply (kept_indexed _ #"required_by"); in_heads]. etrans; [|eapply (kept_indexed _ #"wanted_by"); in_heads].
  etrans; [|eapply (kept_lists _ #"timer."); in_heads]. etrans; [|apply kept_section; in_heads].
  etrans; [|apply kept_fill_command; in_heads]. eapply (kept_lists _ #"exec."); in_heads.
Qed.
Lemma kept_conditions fails guard e : kept #"cgn" e (note_conditions fails guard e).
Proof.
  unfold note_conditions. destruct fails as [|x fails]; [done|]. cbv zeta. etrans; [|eapply kept_note; in_heads].
  etrans; [|destruct guard; [eapply (kept_note _ _ key.GUARDED_BY_CONDITION); in_heads|reflexivity]]. eapply kept_note; in_heads.
Qed.
Lemma conditions_noted fails guard e :
  is_Some (e_raw (note_conditions fails guard e) !! CONDITION_FAILS) <-> fails <> [] \/ is_Some (e_raw e !! CONDITION_FAILS).
Proof.
  unfold note_conditions. destruct fails as [|x fails]; [naive_solver|]. cbv zeta. cbn [Entry.note set_raw e_raw].
  rewrite lookup_insert_ne by done. split; [by left|]. intros _.
  destruct guard; cbn [Entry.note set_raw e_raw]; rewrite ?lookup_insert_ne by done; rewrite lookup_insert_eq; eauto.
Qed.

Section filling.
Context `{Strerror}.

Lemma env_file_kept s e ispec : yields (kept #"e" e) (fill_env_file s e ispec).
Proof.
  destruct ispec as [i spec]. unfold fill_env_file. cbv zeta. apply yields_bind_any. intros users.
  assert (Hn : kept #"e" e (note_bytes e (indexed #"env_file" i) spec)).
  { eapply kept_bytes; [by apply head_indexed|in_heads]. }
  destruct (inside_home users s (env_file_path spec)).
  - apply yields_bind_any. intros [b|]; apply yields_ret; [|done]. etrans; [exact Hn|]. apply kept_env. in_heads.
  - apply yields_ret. etrans; [exact Hn|]. eapply kept_note; [by apply head_indexed|in_heads].
Qed.
Lemma env_files_kept s e l : yields (kept #"e" e) (fold_coll (fill_env_file s) e l).
Proof.
  apply yields_fold; [done|]. intros e' x _ He'. eapply yields_mono; [|apply env_file_kept]. intros e2. by etrans.
Qed.

Definition FILL_HEADS : bytes := #"etwrgucn".
Lemma fill_kept e f s : yields (kept FILL_HEADS e) (fill e f s).
Proof.
  unfold fill. cbv zeta. apply yields_bind_any. intros [fails guard]. cbn [fst snd].
  eapply yields_mono; [|apply env_files_kept]. intros e' He'.
  etrans; [eapply (kept_mono FACT_HEADS); [|apply kept_fill_facts]; by apply (bool_decide_eq_true_1 _)|].
  etrans; [eapply (kept_mono #"cgn"); [|apply kept_conditions]; by apply (bool_decide_eq_true_1 _)|].
  eapply (kept_mono #"e"); [by apply (bool_decide_eq_true_1 _)|exact He'].
Qed.

Lemma fill_condition_fails h cx e f s :
  is_Some (e_raw (value h cx (fill e f s)) !! CONDITION_FAILS) <->
  is_Some (e_raw e !! CONDITION_FAILS) \/
  ~ exists u, conditions_hold h (cx_root cx) u (f_conditions f) = true.
Proof.
  unfold fill. cbv zeta. rewrite value_bind, value_lift, after_lift.
  set (x := run h _). pose proof (run_judge_conditions h (cx_root cx) (e_target_path (fill_facts f s e)) (f_conditions f)) as Hx.
  fold x in Hx. rewrite <- Hx.
  match goal with |- context [value h cx (fold_coll ?g ?e1 ?l)] => pose proof (yields_run _ _ h cx (env_files_kept s e1 l)) as Hk end.
  fold (value h cx (fold_coll (fill_env_file s) (note_conditions (fst x) (snd x) (fill_facts f s e)) (imap pair (f_env_files f)))) in Hk.
  rewrite (kp_raw _ _ _ Hk CONDITION_FAILS "c"%byte) by in_heads. rewrite conditions_noted.
  rewrite (kp_raw _ _ _ (kept_fill_facts f s e) CONDITION_FAILS "c"%byte) by in_heads. naive_solver.
Qed.
End filling.

(** ** Environment assignments *)

Lemma env_token_rest quote tok v : length (snd (env_token quote tok v)) <= length v.
Proof.
  revert quote tok. induction v as [|c v IH]; intros quote tok; [by destruct quote|]. cbn [env_token length].
  destruct quote as [q|].
  - case_bool_decide; etrans; [apply IH|lia|apply IH|lia].
  - destruct (is_quote c); [etrans; [apply IH|lia]|]. destruct (is_ascii_whitespace c); [done|]. etrans; [apply IH|lia].
Qed.
(** A word takes a byte, so there is fuel enough. *)
Lemma split_env_fuel n v : length v <= n -> split_env_from n v = split_env v.
Proof.
  unfold split_env. remember (length v) as m eqn:Em. assert (Hm : length v <= m) by lia. clear Em.
  intros Hn. revert n m Hn Hm. induction v as [v IH] using (induction_ltof1 _ (@length byte)). intros n m Hn Hm.
  destruct n as [|n]; [replace m with 0 by lia; done|]. destruct m as [|m].
  - destruct v; [by destruct n|cbn in Hm; lia].
  - cbn [split_env_from]. case_bool_decide as Hv; [done|]. destruct (env_token None [] (trim_ascii_start v)) as [tok rest] eqn:E.
    assert (Hr : length rest < length v).
    { pose proof (drop_while_length is_ascii_whitespace v) as Hl. fold (trim_ascii_start v) in Hl.
      assert (Hh : forall x, head (trim_ascii_start v) = Some x -> is_ascii_whitespace x = false) by (intros x Hx; by eapply drop_while_head).
      destruct (trim_ascii_start v) as [|c t]; [done|]. cbn [env_token] in E. rewrite (Hh c) in E by done.
      assert (length rest <= length t); [|cbn [length] in Hl; lia].
      destruct (is_quote c); apply (f_equal snd) in E; cbn [snd] in E; rewrite <- E; apply env_token_rest. }
    f_equal. apply IH; [exact Hr|lia|lia].
Qed.

(** One assignment in double quotes. *)
Definition double_quote : byte := x22.
Definition quoted_env (kv : bytes * bytes) : bytes := double_quote :: (fst kv ++ eq_sign :: snd kv) ++ [double_quote].
Definition env_ok (kv : bytes * bytes) : bool :=
  negb (bool_decide (fst kv = [])) && forallb (fun c => negb (is_byte eq_sign c)) (fst kv)
  && forallb (fun c => negb (is_byte double_quote c)) (fst kv ++ snd kv).

Lemma env_token_quoted q tok s rest : Forall (fun c => is_byte q c = false) s ->
  env_token (Some q) tok (s ++ q :: rest) = env_token None (tok ++ s) rest.
Proof.
  intros Hs. revert tok. induction Hs as [|c s Hc Hs IH]; intros tok; cbn [app env_token].
  - rewrite bool_decide_true by done. by rewrite app_nil_r.
  - unfold is_byte in Hc. rewrite Hc, IH. by rewrite <- app_assoc.
Qed.
Lemma env_pair_at k v : k <> [] -> Forall (fun c => is_byte eq_sign c = false) k ->
  env_pair (k ++ eq_sign :: v) = Some (from_utf8_lossy k, from_utf8_lossy v).
Proof.
  intros Hne Hk. unfold env_pair. rewrite position_app by (done || by apply is_byte_true). cbn [mbind option_bind].
  rewrite bool_decide_false by (by destruct k). rewrite take_app_length, drop_app_ge by lia.
  by replace (S (length k) - length k) with 1 by lia.
Qed.
Lemma split_env_step n kv rest : env_ok kv = true -> (rest = [] \/ exists r, rest = " "%byte :: r) ->
  split_env_from (S n) (quoted_env kv ++ rest) =
  (from_utf8_lossy (fst kv), from_utf8_lossy (snd kv)) :: split_env_from n rest.
Proof.
  destruct kv as [k v]. unfold env_ok, quoted_env. cbn [fst snd].
  intros [[Hne%negb_true_iff He]%andb_true_iff Hq]%andb_true_iff Hrest. apply bool_decide_eq_false in Hne.
  apply forallb_negb_Forall in He, Hq. rewrite <- app_comm_cons, <- app_assoc. cbn [app].
  cbn [split_env_from]. match goal with |- context [trim_ascii_start ?w] => change (trim_ascii_start w) with w end.
  rewrite bool_decide_false by done. cbn [env_token]. change (is_quote double_quote) with true. cbv iota.
  rewrite env_token_quoted.
  2:{ apply Forall_app in Hq as [Hq1 Hq2]. apply Forall_app. split; [done|]. by apply Forall_cons. }
  assert (env_token None ([] ++ k ++ eq_sign :: v) rest = (k ++ eq_sign :: v, rest)) as ->.
  { destruct Hrest as [->|[r ->]]; done. }
  cbv iota. by rewrite env_pair_at.
Qed.
Lemma split_env_join kvs n : forallb env_ok kvs = true -> length kvs <= n ->
  split_env_from n (join #" " (quoted_env <$> kvs)) = (fun kv => (from_utf8_lossy (fst kv), from_utf8_lossy (snd kv))) <$> kvs.
Proof.
  revert n. induction kvs as [|kv kvs IH]; intros n Hok Hn; [by destruct n|]. cbn [forallb length] in *.
  apply andb_true_iff in Hok as [Hkv Hok]. destruct n as [|n]; [lia|]. rewrite !fmap_cons. destruct kvs as [|kv' kvs].
  - change (join #" " (quoted_env kv :: (quoted_env <$> []))) with (quoted_env kv).
    pose proof (split_env_step n kv [] Hkv ltac:(by left)) as E. rewrite app_nil_r in E. rewrite E. by destruct n.
  - pose proof (split_env_step n kv (" "%byte :: join #" " (quoted_env <$> kv' :: kvs)) Hkv ltac:(right; by eexists)) as E.
    etrans; [exact E|]. f_equal. rewrite <- (IH n) by (done || lia). by destruct n.
Qed.
Lemma length_quoted kvs : length kvs <= length (join #" " (quoted_env <$> kvs)).
Proof.
  induction kvs as [|kv kvs IH]; [done|]. rewrite fmap_cons. destruct kvs as [|kv' kvs].
  - cbn [fmap list_fmap join length quoted_env]. lia.
  - change (join #" " (quoted_env kv :: (quoted_env <$> kv' :: kvs)))
      with (quoted_env kv ++ " "%byte :: join #" " (quoted_env <$> kv' :: kvs)).
    rewrite length_app. cbn [length] in *. lia.
Qed.

(** ** Properties *)

(** C31. A unit file written from sections and assignments, any value spread
    over several lines by backslashes with comments between, is read as those
    sections and assignments, each value its lines joined by single blanks. *)
Theorem unit_round_trip (f : unit_text) : unit_ok f = true -> parse_unit (print_unit f) = unit_meaning f.
Proof.
  intros Hf. unfold parse_unit, print_unit. rewrite split_on_join.
  - rewrite sections_read by done. by cbn [unit_lines us_out app].
  - by apply is_byte_true.
  - by intros [_ [=]]%app_eq_nil.
  - apply Forall_app. split; [by apply unit_text_clean|by repeat constructor].
Qed.

(** What a unit's directives amount to: the commands of each key, its
    timers, environment files and targets are the values since the last empty
    one of that key, and a list of conditions starts again at any empty
    condition of it, whatever its key; [Install] counts if it is there. *)
Theorem lists_since_reset (ds : list Directive) :
  (forall k, mem k EXEC_KEYS = true -> default [] (f_exec (facts ds) !! k) = d_value <$> standing (key_is k) ds) /\
  (forall k, mem k TIMER_KEYS = true -> default [] (f_timer (facts ds) !! k) = d_value <$> standing (key_is k) ds) /\
  f_env_files (facts ds) = d_value <$> standing (key_is #"EnvironmentFile") ds /\
  f_wanted_by (facts ds) = d_value <$> standing (in_install #"WantedBy") ds /\
  f_required_by (facts ds) = d_value <$> standing (in_install #"RequiredBy") ds /\
  (forall l, List.filter (in_condition_list l) (f_conditions (facts ds)) = as_condition <$> standing (in_list l) ds) /\
  f_has_install (facts ds) = existsb (fun d => bool_decide (d_section d = #"Install")) ds.
Proof.
  repeat split; intros; [by apply exec_standing|by apply timer_standing|apply env_files_standing|apply wanted_standing|
    apply required_standing|apply conditions_standing|apply has_install_true].
Qed.

(** C30. A unit is said not to meet its conditions exactly where it cannot:
    on one reading of the root, the note is there just if no way the tests
    that cannot be made here may come out makes both lists hold, each list
    all its plain conditions and one of those marked [|] if there are any. *)
Theorem conditions_decided `{Strerror} (h : snapshot) (cx : ctx) (e : Entry.entry) (f : Facts) (s : Scope.scope) :
  is_Some (e_raw (value h cx (fill e f s)) !! CONDITION_FAILS) <->
  is_Some (e_raw e !! CONDITION_FAILS) \/
  ~ exists u, conditions_hold h (cx_root cx) u (f_conditions f) = true.
Proof. apply fill_condition_fails. Qed.

(** Assignments written in quotes on one [Environment] line are read back
    as they are, blanks in a value included. *)
Theorem environment_round_trip (kvs : list (bytes * bytes)) :
  forallb env_ok kvs = true ->
  split_env (join #" " (quoted_env <$> kvs)) = (fun kv => (from_utf8_lossy (fst kv), from_utf8_lossy (snd kv))) <$> kvs.
Proof. intros Hok. apply split_env_join; [done|apply length_quoted]. Qed.

(** For a unit in an account's home no environment file outside that home
    is looked at: the reading makes no system call, and says so. *)
Theorem home_env_file_confined `{Strerror} who e i spec cx :
  inside_home (cx_users cx) (Scope.Home who) (env_file_path spec) = false ->
  fill_env_file (Scope.Home who) e (i, spec) cx =
  Ret (Entry.note (note_bytes e (indexed #"env_file" i) spec) (indexed #"env_file_skipped" i) SKIPPED_ENV_FILE, cx).
Proof. intros Hi. unfold fill_env_file, mbind, coll_bind, the_users. cbn [mbind prog_mbind prog_bind fst snd]. by rewrite Hi. Qed.

(** ** A unit *)

Module UnitDemo.
Definition unit_sample : unit_text :=
  [(#"Unit", [mk_assignment #"ConditionPathExists" #"|!/etc/x" []]);
   (#"Service", [mk_assignment #"ExecStart" [] [];
                 mk_assignment #"ExecStart" #"/bin/sh" [([ #"# why"; #"	;not"], #"-c"); ([], #"'a=b'")]])].
Definition environment_sample : list (bytes * bytes) := [(#"LD_PRELOAD", #"/tmp/a b.so"); (#"TZ", [])].
End UnitDemo.

Example unit_sample_text : print_unit UnitDemo.unit_sample =
  join [newline] [ #"[Unit]"; #"ConditionPathExists=|!/etc/x"; #"[Service]"; #"ExecStart="; #"ExecStart=/bin/sh \"; #"# why";
                   #"	;not"; #"-c \"; #"'a=b'"; []].
Proof. by vm_compute. Qed.

Lemma unit_round_trip_witness :
  unit_ok UnitDemo.unit_sample = true /\ parse_unit (print_unit UnitDemo.unit_sample) = unit_meaning UnitDemo.unit_sample.
Proof. split; [reflexivity|]. apply (unit_round_trip UnitDemo.unit_sample). reflexivity. Defined.

Lemma environment_round_trip_witness :
  split_env (join #" " (quoted_env <$> UnitDemo.environment_sample)) =
  (fun kv => (from_utf8_lossy (fst kv), from_utf8_lossy (snd kv))) <$> UnitDemo.environment_sample.
Proof. apply (environment_round_trip UnitDemo.environment_sample). reflexivity. Defined.

Example home_env_files :
  let users := [mk_user #"alice" (Some 1000%N) #"/home/alice" None #"passwd"] in
  inside_home users (Scope.Home #"alice") #"/home/alice/env" = true /\
  inside_home users (Scope.Home #"alice") #"/home/alice/../../etc/mysql/debian.cnf" = false /\
  inside_home users (Scope.Home #"alice") #"/etc/mysql/debian.cnf" = false.
Proof. by vm_compute. Qed.
