(* ===== verification/Systemd.v ===== *)
(** [src/collect/systemd.rs], the collector: the search paths and their walk,
    units, drop-ins and links, generators and hooks, the managers' own
    configuration, tmpfiles and presets. What a unit file says is [UnitFile]. *)

From S2P Require Import Prelude Slices Order Num Utf8 Paths PathMap Text Kinds Entry Sys Root Users Scan Collect UnitFile.

(** ** The search paths *)

Record SearchDir := mk_search_dir { sd_path : path; sd_rank : N; sd_admin : bool }.

Definition SYSTEM_PATHS : list SearchDir := [
  mk_search_dir #"etc/systemd/system.control" 0 true;
  mk_search_dir #"run/systemd/system.control" 1 true;
  mk_search_dir #"run/systemd/transient" 2 true;
  mk_search_dir #"run/systemd/generator.early" 3 true;
  mk_search_dir #"etc/systemd/system" 4 true;
  mk_search_dir #"etc/systemd/system.attached" 5 true;
  mk_search_dir #"run/systemd/system" 6 true;
  mk_search_dir #"run/systemd/system.attached" 7 true;
  mk_search_dir #"run/systemd/generator" 8 true;
  mk_search_dir #"usr/local/lib/systemd/system" 9 false;
  mk_search_dir #"usr/lib/systemd/system" 10 false;
  mk_search_dir #"lib/systemd/system" 10 false;
  mk_search_dir #"run/systemd/generator.late" 11 true].
Definition USER_PATHS : list SearchDir := [
  mk_search_dir #"etc/xdg/systemd/user" 5 true;
  mk_search_dir #"etc/systemd/user" 6 true;
  mk_search_dir #"run/systemd/user" 8 true;
  mk_search_dir #"usr/local/share/systemd/user" 11 false;
  mk_search_dir #"usr/share/systemd/user" 12 false;
  mk_search_dir #"usr/local/lib/systemd/user" 13 false;
  mk_search_dir #"usr/lib/systemd/user" 14 false;
  mk_search_dir #"lib/systemd/user" 14 false].
Definition HOME_USER_PATHS : list SearchDir := [
  mk_search_dir #".config/systemd/user.control" 0 true;
  mk_search_dir #".config/systemd/user" 4 true;
  mk_search_dir #".local/share/systemd/user" 10 false].

Definition GENERATOR_PATHS : list path := [
  #"run/systemd/system-generators"; #"etc/systemd/system-generators"; #"usr/local/lib/systemd/system-generators"; #"usr/lib/systemd/system-generators"; #"lib/systemd/system-generators";
  #"run/systemd/user-generators"; #"etc/systemd/user-generators"; #"usr/local/lib/systemd/user-generators"; #"usr/lib/systemd/user-generators"; #"lib/systemd/user-generators";
  #"run/systemd/system-environment-generators"; #"etc/systemd/system-environment-generators"; #"usr/local/lib/systemd/system-environment-generators"; #"usr/lib/systemd/system-environment-generators"; #"lib/systemd/system-environment-generators";
  #"run/systemd/user-environment-generators"; #"etc/systemd/user-environment-generators"; #"usr/local/lib/systemd/user-environment-generators"; #"usr/lib/systemd/user-environment-generators"; #"lib/systemd/user-environment-generators"].

Definition TMPFILES_PATHS : list path :=
  [ #"etc/tmpfiles.d"; #"run/tmpfiles.d"; #"usr/local/lib/tmpfiles.d"; #"usr/lib/tmpfiles.d"; #"lib/tmpfiles.d"].
Definition USER_TMPFILES_PATHS : list path := [ #"usr/local/share/user-tmpfiles.d"; #"usr/share/user-tmpfiles.d"].
Definition HOME_TMPFILES_PATHS : list path := [ #".config/user-tmpfiles.d"; #".local/share/user-tmpfiles.d"].
Definition PRESET_PATHS : list path :=
  [ #"etc/systemd/system-preset"; #"run/systemd/system-preset"; #"usr/local/lib/systemd/system-preset";
    #"usr/lib/systemd/system-preset"; #"lib/systemd/system-preset"].
Definition USER_PRESET_PATHS : list path :=
  [ #"etc/systemd/user-preset"; #"run/systemd/user-preset"; #"usr/local/lib/systemd/user-preset";
    #"usr/lib/systemd/user-preset"; #"lib/systemd/user-preset"].

(** ** The walk *)

Record Found := mk_found_unit {
  fu_scope : Scope.scope; fu_rank : N; fu_rel : path; fu_file_name : bytes; fu_unit : bytes; fu_admin : bool
}.
Record Link := mk_link { li_scope : Scope.scope; li_rank : N; li_name : bytes; li_rel : path }.

#[export] Instance scope_countable : Countable Scope.scope := inj_countable Scope.label Scope.from_label Scope.from_label_label.
(** Derived: by the constructor, then by what it holds. *)
Definition scope_rank (s : Scope.scope) : N * bytes :=
  match s with Scope.System => (0%N, []) | Scope.User => (1%N, []) | Scope.Home who => (2%N, who) end.
#[export] Instance scope_ord : Ord Scope.scope := fun a b => cmp (scope_rank a) (scope_rank b).

Abbreviation links_map := (gmap (Scope.scope * bytes) (list (bool * path))).
Definition links_of (m : links_map) (s : Scope.scope) (name : bytes) : option (list (bool * path)) := m !! (s, name).
Definition add_link (m : links_map) (s : Scope.scope) (name : bytes) (x : bool * path) : links_map :=
  <[(s, name) := default [] (links_of m s name) ++ [x]]> m.

Record Walk := mk_walk { w_units : list Found; w_dropins : list Found; w_links : links_map; w_wants : list Link }.
Definition walk0 : Walk := mk_walk [] [] ∅ [].
Definition set_links (w : Walk) (m : links_map) : Walk := mk_walk (w_units w) (w_dropins w) m (w_wants w).
Definition push_unit (w : Walk) (f : Found) : Walk := mk_walk (w_units w ++ [f]) (w_dropins w) (w_links w) (w_wants w).
Definition push_dropin (w : Walk) (f : Found) : Walk := mk_walk (w_units w) (w_dropins w ++ [f]) (w_links w) (w_wants w).
Definition push_want (w : Walk) (l : Link) : Walk := mk_walk (w_units w) (w_dropins w) (w_links w) (w_wants w ++ [l]).

(** The name of what a link points at. *)
Definition target_base (r : root) (p : path) : prog (option bytes) :=
  t ← Root.read_link r p;
  Ret match t with Ok t => from_utf8_lossy <$> file_name t | Err _ => None end.

Section walking.
Context `{Strerror}.

Definition link_ent (s : Scope.scope) (d : path) (rank : N) (admin : bool) (w : Walk) (ent : dir_ent) : coll Walk :=
  let name := from_utf8_lossy (de_name ent) in
  match unit_suffix name with
  | None => mret w
  | Some _ =>
      let p := path_join d (de_name ent) in
      r ← the_root;
      tb ← lift (fun r => target_base r p);
      let m := add_link (w_links w) s name (admin, abs r p) in
      let m := match tb with
               | Some tb => if bool_decide (tb = name) then m else add_link m s tb (admin, abs r p)
               | None => m
               end in
      mret (push_want (set_links w m) (mk_link s rank name p))
  end.
Definition scan_links (w : Walk) (s : Scope.scope) (d : path) (rank : N) (admin : bool) : coll Walk :=
  ents ← dir d; fold_coll (link_ent s d rank admin) w ents.

Definition dropin_ent (s : Scope.scope) (d : path) (parent_ : bytes) (rank : N) (w : Walk) (ent : dir_ent) : Walk :=
  let name := from_utf8_lossy (de_name ent) in
  if de_is_dir ent || negb (ends_with #".conf" name) then w
  else push_dropin w (mk_found_unit s rank (path_join d (de_name ent)) (de_name ent) parent_ false).
Definition scan_dropins (w : Walk) (s : Scope.scope) (d : path) (parent_ : bytes) (rank : N) : coll Walk :=
  ents ← dir d; mret (foldl (dropin_ent s d parent_ rank) w ents).

(** The alias a unit file of an administrator is, if it is one. *)
Definition alias_link (w : Walk) (s : Scope.scope) (p : path) (name : bytes) : coll Walk :=
  r ← the_root;
  tb ← lift (fun r => target_base r p);
  mret match tb with
       | Some base =>
           if negb (bool_decide (base = name)) && bool_decide (is_Some (unit_suffix base))
           then set_links w (add_link (w_links w) s base (true, abs r p)) else w
       | None => w
       end.

Definition scan_ent (s : Scope.scope) (d : path) (rank : N) (admin : bool) (w : Walk) (ent : dir_ent) : coll Walk :=
  let name := from_utf8_lossy (de_name ent) in
  let p := path_join d (de_name ent) in
  let walkable := de_is_dir ent || de_is_symlink ent in
  if ends_with #".wants" name || ends_with #".requires" name then
    if walkable then scan_links w s p rank admin else mret w
  else
    match strip_suffix #".d" name with
    | Some parent_ => if walkable then scan_dropins w s p parent_ rank else mret w
    | None =>
        if negb (de_is_dir ent) && bool_decide (is_Some (unit_suffix name)) then
          w ← (if de_is_symlink ent && admin then alias_link w s p name else mret w);
          mret (push_unit w (mk_found_unit s rank p (de_name ent) name admin))
        else mret w
    end.

(** The name a search-path directory is walked under. *)
Definition canonical_dir (r : root) (d : path) : prog path :=
  m ← Root.stat r d;
  match m with
  | Ok m => if m_is_symlink m then x ← Root.resolve r d; Ret (default d (ok x)) else Ret d
  | Err _ => Ret d
  end.

Definition note_left (d target : path) : coll unit := fun cx => Ret (tt, note_left_home cx d target).

Definition scan (st : Walk * gset (N * N)) (s : Scope.scope) (d : path) (at_ : SearchDir) : coll (Walk * gset (N * N)) :=
  let '(w, seen) := st in
  escapes ← lift (fun r => escaping_link r d);
  match escapes with
  | Some target => _ ← note_left d target; mret (w, seen)
  | None =>
      d ← lift (fun r => canonical_dir r d);
      x ← first_visit d seen;
      let '(id, seen) := x : option (N * N) * gset (N * N) in
      match id with
      | None => mret (w, seen)
      | Some _ =>
          ents ← dir d;
          w ← fold_coll (scan_ent s d (sd_rank at_) (sd_admin at_)) w ents;
          mret (w, seen)
      end
  end.
End walking.

(** ** A unit's entry *)

Definition note_scope (users : list user) (e : Entry.entry) (s : Scope.scope) : Entry.entry :=
  let e := Entry.note e key.SCOPE (Scope.label s) in
  match s with
  | Scope.Home who =>
      match find (fun u => bool_decide (u_name u = who)) users ≫= u_uid with
      | Some uid => Entry.note e key.SCOPE_UID (dec uid)
      | None => e
      end
  | _ => e
  end.

Definition DEV_NULL : path := #"/dev/null".
Definition RANK_NOTE : bytes := #"search_path_rank".

Definition enabling_links (w : Walk) (f : Found) (suffix : option bytes) : option (list (bool * path)) :=
  match links_of (w_links w) (fu_scope f) (fu_unit f) with
  | Some l => Some l
  | None =>
      '(template, instance) ← suffix ≫= template_of (fu_unit f);
      if bool_decide (instance = []) then None else links_of (w_links w) (fu_scope f) template
  end.
(** The links there are of one kind, as one text. *)
Definition describe (links : option (list (bool * path))) (want : bool) : option bytes :=
  l ← links;
  let paths := (fun x => from_utf8_lossy (snd x)) <$> List.filter (fun x => bool_decide (fst x = want)) l in
  if bool_decide (paths = []) then None else Some (join #", " paths).

(** What the file being there says, before it is read. *)
Definition unit_head (users : list user) (f : Found) (e : Entry.entry) : Entry.entry :=
  let suffix := unit_suffix (fu_unit f) in
  let e := set_trigger (name_from_os e (fu_file_name f)) (trigger_for suffix) in
  let e := Entry.note (note_scope users e (fu_scope f)) RANK_NOTE (dec (fu_rank f)) in
  let e := match suffix with Some s => Entry.note e #"unit_type" (drop_while (is_byte "."%byte) s) | None => e end in
  note_template e (fu_unit f) suffix.
(** What the links say of a unit that is not masked. *)
Definition infer (links : option (list (bool * path))) (has_install : bool) (e : Entry.entry) : Entry.entry :=
  let e := match describe links false with Some vendor => Entry.note e #"pulled_in_by" vendor | None => e end in
  match describe links true with
  | Some admin => set_enabled (Entry.note e #"enabled_by" admin) Enablement.Enabled
  | None => set_enabled e (if has_install then Enablement.Disabled else Enablement.Static)
  end.

(** Whether a unit file is an empty one, and whether it is masked. *)
Definition masking (r : root) (p : path) : prog (bool * bool) :=
  m ← Root.stat r p;
  target ← (if ok_and m m_is_symlink then t ← Root.read_link r p; Ret (ok t) else Ret None);
  m ← stat_follow r p;
  let empty := ok_and m (fun m => m_is_file m && bool_decide (m_size m = 0%N)) in
  Ret (empty, empty || match target with Some t => path_eqb t DEV_NULL | None => false end).

Section entries.
Context `{Strerror} `{Blake3}.

Definition unit_entry (w : Walk) (f : Found) : coll Entry.entry :=
  let suffix := unit_suffix (fu_unit f) in
  e ← entry (kind_for suffix) (fu_rel f) (fu_unit f);
  users ← the_users;
  let e := unit_head users f e in
  x ← lift (fun r => masking r (fu_rel f));
  let '(empty, masked) := x : bool * bool in
  let e := if empty then Entry.note e #"masked_by" #"an empty file" else e in
  fs ← (if masked then mret no_facts else parse_into_facts (fu_rel f));
  e ← fill e fs (fu_scope f);
  let e := if masked then set_enabled e Enablement.Masked
           else infer (enabling_links w f suffix) (f_has_install fs) e in
  mret (Entry.flag e Flag.DegradedEnablement).

Definition dropin_entry (f : Found) : coll Entry.entry :=
  let suffix := unit_suffix (fu_unit f) in
  let conf := from_utf8_lossy (fu_file_name f) in
  e ← entry (kind_for suffix) (fu_rel f) (fu_unit f ++ #".d/" ++ conf);
  users ← the_users;
  let e := set_enabled (set_trigger (name_from_os e (fu_file_name f)) (trigger_for suffix)) Enablement.NotApplicable in
  let e := note_scope users (Entry.note e #"dropin_for" (fu_unit f)) (fu_scope f) in
  let e := note_template (Entry.note e RANK_NOTE (dec (fu_rank f))) (fu_unit f) suffix in
  fs ← parse_into_facts (fu_rel f);
  fill e fs (fu_scope f).

Definition linked_entry (l : Link) : coll Entry.entry :=
  let suffix := unit_suffix (li_name l) in
  e ← entry (kind_for suffix) (li_rel l) (li_name l);
  users ← the_users;
  r ← the_root;
  let e := note_scope users (set_trigger e (trigger_for suffix)) (li_scope l) in
  let e := Entry.note e RANK_NOTE (dec (li_rank l)) in
  let e := Entry.note e #"enabled_by" (from_utf8_lossy (abs r (li_rel l))) in
  let e := note_template (Entry.note e #"from_wants_link" #"true") (li_name l) suffix in
  fs ← parse_into_facts (li_rel l);
  e ← fill e fs (li_scope l);
  mret (Entry.flag (set_enabled e Enablement.Enabled) Flag.DegradedEnablement).
End entries.

(** ** Who shadows whom *)

(** [slice::windows(2)]. *)
Fixpoint pairs {A} (l : list A) : list (A * A) :=
  match l with
  | a :: (b :: _) as rest => (a, b) :: pairs rest
  | _ => []
  end.

Definition group_unit (m : gmap (Scope.scope * bytes) (list nat)) (if_ : nat * Found) : gmap (Scope.scope * bytes) (list nat) :=
  let k := (fu_scope (snd if_), fu_unit (snd if_)) in <[k := default [] (m !! k) ++ [fst if_]]> m.
Definition groups (units : list Found) : gmap (Scope.scope * bytes) (list nat) := foldl group_unit ∅ (imap pair units).
(** What competes: an account's units with the global user ones of the name. *)
Definition compete (m : gmap (Scope.scope * bytes) (list nat)) : gmap (Scope.scope * bytes) (list nat) :=
  map_imap (fun k idx =>
    Some match fst k with
         | Scope.Home _ => idx ++ default [] (m !! (Scope.User, snd k))
         | _ => idx
         end) m.

Definition rank_of (units : list Found) (i : nat) : N := default 0%N (fu_rank <$> units !! i).
Definition source_of (out : list Entry.entry) (i : nat) : bytes := default [] ((fun e => from_utf8_lossy (e_source e)) <$> out !! i).
Definition add_to (m : gmap nat (gset bytes)) (i : nat) (s : bytes) : gmap nat (gset bytes) := <[i := {[s]} ∪ default ∅ (m !! i)]> m.

Definition shadow_pair (units : list Found) (out : list Entry.entry) (st : gmap nat (gset bytes) * gmap nat (gset bytes))
    (p : nat * nat) : gmap nat (gset bytes) * gmap nat (gset bytes) :=
  let '(above, below) := p in
  if bool_decide (rank_of units above = rank_of units below) then st
  else (add_to (fst st) above (source_of out below), add_to (snd st) below (source_of out above)).
Definition rank_pairs (units : list Found) : list (nat * nat) :=
  List.filter (fun idx => 1 <? length idx) (btree_values (compete (groups units))) ≫=
    (fun idx => pairs (sort_by (rank_of units) idx)).
Definition note_paths (k : bytes) (m : gmap nat (gset bytes)) (out : list Entry.entry) : list Entry.entry :=
  foldl (fun out ip => alter (fun e => Entry.note e k (join #", " (bset_to_list (snd ip)))) (fst ip) out) out (btree_to_list m).
Definition note_shadowing (units : list Found) (out : list Entry.entry) : list Entry.entry :=
  let st := foldl (shadow_pair units out) (∅, ∅) (rank_pairs units) in
  note_paths key.SHADOWED_BY (snd st) (note_paths key.SHADOWS (fst st) out).

(** ** Aliases *)

Definition is_link (r : root) (p : path) : prog bool := m ← Root.stat r p; Ret (ok_and m m_is_symlink).
Definition is_template (u : bytes) : bool := contains_sub #"@." u.

(** The units that are files, by path. *)
Definition add_file (r : root) (files : pmap nat) (if_ : nat * Found) : prog (pmap nat) :=
  link ← is_link r (fu_rel (snd if_));
  Ret (if link : bool then files else pm_insert (fu_rel (snd if_)) (fst if_) files).
(** The file of another name an administrator's link leads to. *)
Definition alias_of (r : root) (units : list Found) (files : pmap nat) (f : Found) : prog (option nat) :=
  if negb (fu_admin f) then Ret None
  else
    link ← is_link r (fu_rel f);
    if negb link then Ret None
    else
      resolved ← Root.resolve r (fu_rel f);
      Ret (resolved ← ok resolved;
           j ← pm_get files resolved;
           g ← units !! j;
           if negb (bool_decide (fu_unit g = fu_unit f)) && bool_decide (fu_scope g = fu_scope f)
              && bool_decide (is_template (fu_unit g) = is_template (fu_unit f))
           then Some j else None).
Definition fold_alias (r : root) (units : list Found) (files : pmap nat) (folded : list (nat * nat)) (if_ : nat * Found)
    : prog (list (nat * nat)) :=
  j ← alias_of r units files (snd if_);
  Ret match j with Some j => folded ++ [(fst if_, j)] | None => folded end.
Definition find_aliases (r : root) (units : list Found) : prog (list (nat * nat)) :=
  files ← fold_prog (add_file r) pm_empty (imap pair units);
  fold_prog (fold_alias r units files) [] (imap pair units).

Definition note_alias (out : list Entry.entry) (ij : nat * nat) : list Entry.entry :=
  let '(i, j) := ij in
  let alias := source_of out i in
  alter (fun e => Entry.note e #"aliases" match e_raw e !! #"aliases" with Some prev => prev ++ #", " ++ alias | None => alias end)
    j out.
(** The links go, the last first. *)
Definition fold_aliases (folded : list (nat * nat)) (out : list Entry.entry) : list Entry.entry :=
  foldl (fun out ij => delete (fst ij) out) (foldl note_alias out folded) (reverse folded).

Section all_entries.
Context `{Strerror} `{Blake3}.

Definition present (w : Walk) : gset (Scope.scope * bytes) := list_to_set ((fun f => (fu_scope f, fu_unit f)) <$> w_units w).
Definition entries (w : Walk) : coll (list Entry.entry) :=
  out ← map_coll (unit_entry w) (w_units w);
  let out := note_shadowing (w_units w) out in
  folded ← lift (fun r => find_aliases r (w_units w));
  let out := fold_aliases folded out in
  drops ← map_coll dropin_entry (w_dropins w);
  linked ← map_coll linked_entry
             (List.filter (fun l => negb (bool_decide ((li_scope l, li_name l) ∈ present w))) (w_wants w));
  mret (out ++ drops ++ linked).
End all_entries.

(** ** Generators and hooks *)

Definition BACKUP_SUFFIXES : list bytes :=
  [ #"rpmnew"; #"rpmsave"; #"rpmorig"; #"dpkg-old"; #"dpkg-new"; #"dpkg-tmp"; #"dpkg-dist"; #"dpkg-bak";
    #"dpkg-backup"; #"dpkg-remove"; #"ucf-new"; #"ucf-old"; #"ucf-dist"; #"swp"; #"bak"; #"old"; #"new"].
Definition hidden_or_backup (name : bytes) : bool :=
  starts_with #"." name
  || mem name [ #"lost+found"; #"aquota.user"; #"aquota.group"]
  || ends_with #"~" name
  || match rsplit_once #"." name with Some (_, s) => mem s BACKUP_SUFFIXES | None => false end.

Definition POWER_HOOK_DIRS : list (path * bytes) := [
  (#"usr/lib/systemd/system-sleep", #"sleep");
  (#"lib/systemd/system-sleep", #"sleep");
  (#"usr/lib/systemd/system-shutdown", #"shutdown");
  (#"lib/systemd/system-shutdown", #"shutdown")].

(** A file of a directory, unless it is passed over. *)
Definition skipped_ent (ent : dir_ent) : bool := de_is_dir ent || hidden_or_backup (de_name ent).
(** The command and the target are the file itself. *)
Definition runs_itself (r : root) (p : path) (e : Entry.entry) : Entry.entry :=
  set_target_path (with_command e (Some (abs r p))) (Some (abs r p)).

Definition ENVIRONMENT_GENERATORS : bytes := #"environment-generators".
Definition generator_facts (r : root) (d p : path) (name : bytes) (e : Entry.entry) : Entry.entry :=
  let e := set_enabled (set_trigger (name_from_os e name) Trigger.Boot) Enablement.NotApplicable in
  let e := Entry.note (runs_itself r p e) key.SCOPE (if contains_sub #"/user-" d then #"user" else #"system") in
  if ends_with ENVIRONMENT_GENERATORS d then Entry.note e #"generator_type" #"environment" else e.

(** A link to nothing counts as one that runs. *)
Definition runnable (r : root) (p : path) : prog bool :=
  m ← stat_follow r p; Ret match m with Ok m => is_executable m | Err _ => true end.

(** What a hook's file says of it. *)
Definition hook_enabled (m : option meta) (null : bool) : enablement * option bytes :=
  if null then (Enablement.Masked, None)
  else
    match m with
    | Some m =>
        if bool_decide (m_size m = 0%N) then (Enablement.Masked, None)
        else if is_executable m then (Enablement.Enabled, None)
        else (Enablement.Disabled, Some #"not executable")
    | None => (Enablement.Enabled, None)
    end.
Definition leads_to_null (r : root) (p : path) : prog bool :=
  t ← Root.read_link r p; Ret (ok_and t (fun t => path_eqb t DEV_NULL)).
Definition hook_facts (r : root) (hook : bytes) (p : path) (name : bytes) (m : option meta) (null : bool) (e : Entry.entry)
    : Entry.entry :=
  let e := set_principal (set_trigger (name_from_os e name) Trigger.PowerEvent) (Some #"root") in
  let e := runs_itself r p (Entry.note e #"hook" hook) in
  let '(x, why) := hook_enabled m null in
  set_enabled match why with Some why => Entry.note e #"not_run" why | None => e end x.

Section runnables.
Context `{Strerror} `{Blake3}.

Definition generator_ent (d : path) (out : list Entry.entry) (ent : dir_ent) : coll (list Entry.entry) :=
  if skipped_ent ent then mret out
  else
    let p := path_join d (de_name ent) in
    ok ← lift (fun r => runnable r p);
    if negb ok then mret out
    else
      r ← the_root;
      e ← entry Kind.SystemdGenerator p (from_utf8_lossy (de_name ent));
      mret (out ++ [generator_facts r d p (de_name ent) e]).
Definition generator_dir (st : gset (N * N) * list Entry.entry) (d : path) : coll (gset (N * N) * list Entry.entry) :=
  let '(seen, out) := st in
  x ← first_visit d seen;
  let '(id, seen) := x : option (N * N) * gset (N * N) in
  match id with
  | None => mret (seen, out)
  | Some _ => ents ← dir d; out ← fold_coll (generator_ent d) out ents; mret (seen, out)
  end.
Definition generators (seen : gset (N * N)) : coll (list Entry.entry) :=
  st ← fold_coll generator_dir (seen, []) GENERATOR_PATHS; mret (snd st).

Definition hook_ent (d : path) (hook : bytes) (out : list Entry.entry) (ent : dir_ent) : coll (list Entry.entry) :=
  if skipped_ent ent then mret out
  else
    let p := path_join d (de_name ent) in
    m ← lift (fun r => m ← stat_follow r p; Ret (ok m));
    odd ← (match m with
           | Some m => if m_is_file m then mret false else null ← lift (fun r => leads_to_null r p); mret (negb null)
           | None => mret false
           end);
    if odd : bool then mret out
    else
      r ← the_root;
      e ← entry Kind.SystemdHook p (hook ++ #":" ++ from_utf8_lossy (de_name ent));
      null ← lift (fun r => leads_to_null r p);
      mret (out ++ [hook_facts r hook p (de_name ent) m null e]).
Definition hook_dir (st : gset (N * N) * list Entry.entry) (dh : path * bytes) : coll (gset (N * N) * list Entry.entry) :=
  let '(seen, out) := st in
  let '(d, hook) := dh in
  x ← first_visit d seen;
  let '(id, seen) := x : option (N * N) * gset (N * N) in
  match id with
  | None => mret (seen, out)
  | Some _ => ents ← dir d; out ← fold_coll (hook_ent d hook) out ents; mret (seen, out)
  end.
Definition power_hooks : coll (list Entry.entry) :=
  st ← fold_coll hook_dir (∅, []) POWER_HOOK_DIRS; mret (snd st).
End runnables.

(** ** The managers' own configuration *)

Definition CONF_DIRS : list path := [ #"etc/systemd"; #"run/systemd"; #"usr/local/lib/systemd"; #"usr/lib/systemd"].
Definition VERSION_DIRS : list path := [ #"usr/lib/systemd"; #"usr/lib64/systemd"; #"lib/systemd"].

(** A shared library's name holds the version. *)
Definition version_of (name : bytes) : option N :=
  if is_utf8 name then
    rest ← strip_prefix #"libsystemd-shared-" name;
    parse_unsigned U32_MAX (take_while is_ascii_digit rest)
  else None.
Fixpoint find_map {A B} (f : A -> option B) (l : list A) : option B :=
  match l with [] => None | a :: l => match f a with Some b => Some b | None => find_map f l end end.

(** Why a main file is not read: [main_read] says an earlier one was,
    [later] that it is not the one in /etc. *)
Definition main_not_read (version : option N) (file : bytes) (later main_read : bool) : option bytes :=
  if main_read then Some #"an earlier main file is read instead"
  else if later then
    match version with
    | Some v => if (256 <=? v)%N then None else Some (#"systemd " ++ dec v ++ #" reads only /etc/systemd/" ++ file)
    | None => Some #"read from systemd 256 on; the version here is unknown"
    end
  else None.

(** A file with why it is not read and whose it is. *)
Record conf := mk_conf { cf_rel : path; cf_why_not : option bytes; cf_account : option bytes }.
Definition main_file (version : option N) (file : bytes) (st : bool * list conf) (id_ : nat * path) : coll (bool * list conf) :=
  let '(main_read, files) := st in
  let p := path_join (snd id_) file in
  there ← lift (fun r => exists_ r p);
  if negb there then mret st
  else
    let why_not := main_not_read version file (0 <? fst id_) main_read in
    mret (main_read || bool_decide (why_not = None), files ++ [mk_conf p why_not None]).

Definition MANAGER_KEYS : list bytes := [ #"DefaultEnvironment"; #"ManagerEnvironment"].
Definition manager_facts (scope : bytes) (c : conf) (d : Directive) (e : Entry.entry) : Entry.entry :=
  let e := Entry.note (Entry.note (set_trigger e Trigger.Boot) #"hook" (d_key d)) key.SCOPE scope in
  let e := if bool_decide (scope = #"system") then set_principal e (Some #"root") else e in
  let e := match cf_account c with
           | Some a => Entry.note (set_principal e (Some a)) key.SCOPE (Scope.label (Scope.Home a))
           | None => e
           end in
  let e := set_enabled (foldl note_env e (split_env (d_value d))) Enablement.Enabled in
  match cf_why_not c with
  | Some why => Entry.note (set_enabled e Enablement.Disabled) #"not_read" why
  | None => e
  end.
Definition manager_directive (d : Directive) : bool := bool_decide (d_section d = #"Manager") && mem (d_key d) MANAGER_KEYS.

Section managers.
Context `{Strerror} `{Blake3}.

Fixpoint version_in (dirs : list path) : coll (option N) :=
  match dirs with
  | [] => mret None
  | d :: dirs =>
      ents ← dir d;
      match find_map (fun ent => version_of (de_name ent)) ents with
      | Some v => mret (Some v)
      | None => version_in dirs
      end
  end.
Definition systemd_version : coll (option N) := version_in VERSION_DIRS.

Definition account_confs (files : list conf) (u : user) : coll (list conf) :=
  let d := User.in_home u #".config/systemd/user.conf.d" in
  ents ← dir d;
  let names := de_name <$> List.filter (fun ent => negb (de_is_dir ent) && ends_with #".conf" (from_utf8_lossy (de_name ent))) ents in
  mret (files ++ mk_conf (User.in_home u #".config/systemd/user.conf") None (Some (u_name u))
          :: ((fun n => mk_conf (path_join d n) None (Some (u_name u))) <$> names)).
Definition conf_files (version : option N) (file scope : bytes) : coll (list conf) :=
  st ← fold_coll (main_file version file) (false, []) (imap pair CONF_DIRS);
  drops ← replaceable ((fun d => d ++ #"/" ++ file ++ #".d") <$> CONF_DIRS) #".conf";
  let files := snd st ++
    ((fun x => mk_conf (fst x) ((fun by_ => #"replaced by /" ++ display_path by_) <$> snd x) None) <$> drops) in
  if bool_decide (scope = #"user") then users ← the_users; fold_coll account_confs files users else mret files.

Definition conf_directive (scope : bytes) (c : conf) (out : list Entry.entry) (d : Directive) : coll (list Entry.entry) :=
  if manager_directive d then
    e ← entry Kind.SystemdHook (cf_rel c) (d_key d ++ #":" ++ from_utf8_lossy (d_value d));
    mret (out ++ [manager_facts scope c d e])
  else mret out.
Definition conf_entries (scope : bytes) (out : list Entry.entry) (c : conf) : coll (list Entry.entry) :=
  b ← read_capped (cf_rel c) READ_CAP;
  match b with
  | None => mret out
  | Some b => fold_coll (conf_directive scope c) out (parse_unit b)
  end.
Definition manager_environment : coll (list Entry.entry) :=
  version ← systemd_version;
  fold_coll (fun out fs =>
    files ← conf_files version (fst fs) (snd fs);
    fold_coll (conf_entries (snd fs)) out files) []
    [(#"system.conf", #"system"); (#"user.conf", #"user")].
End managers.

(** ** tmpfiles.d *)

(** At most [n] words, and what follows them. *)
Fixpoint fields (n : nat) (line : bytes) : list bytes * bytes :=
  match n with
  | O => ([], trim_ascii line)
  | S n =>
      let s := trim_ascii_start line in
      if bool_decide (s = []) then ([], [])
      else
        let i := default (length s) (position is_ascii_whitespace s) in
        let '(out, rest) := fields n (drop i s) in
        (take i s :: out, rest)
  end.

(** The nth use of a name has its number. *)
Definition numbered (used : gmap bytes N) (base : bytes) : bytes * gmap bytes N :=
  let n := (default 0%N (used !! base) + 1)%N in
  (if bool_decide (n = 1%N) then base else base ++ #"#" ++ dec n, <[base := n]> used).

(** The type, the path and the argument of a line that puts content
    somewhere. *)
Definition tmpfiles_line (line : bytes) : option (bytes * bytes * bytes) :=
  if bool_decide (line = []) || starts_with [hash_mark] line then None
  else
    match fields 6 line with
    | (ty :: p :: _, argument) =>
        let writes := match ty with
                      | c :: _ => bool_decide (c ∈ #"wCL")
                                  || bool_decide (c ∈ #"fF") && (negb (bool_decide (argument = [])) || mem "^"%byte ty)
                      | [] => false
                      end in
        if writes then Some (ty, p, argument) else None
    | _ => None
    end.
Definition tmpfiles_facts (r : root) (by_ : option path) (principal : option bytes) (line ty p argument : bytes) (e : Entry.entry)
    : Entry.entry :=
  let e := set_principal (set_trigger e Trigger.Boot) principal in
  let e := set_enabled e match by_ with Some _ => Enablement.Disabled | None => Enablement.Enabled end in
  let e := Entry.note (Entry.note e #"type" (from_utf8_lossy ty)) #"path" (from_utf8_lossy p) in
  let e := if bool_decide (argument = []) then e else Entry.note e #"argument" (from_utf8_lossy argument) in
  let e := Entry.note e #"line" (from_utf8_lossy line) in
  let e := match by_ with Some by_ => Entry.note e key.SHADOWED_BY (display_path (abs r by_)) | None => e end in
  flag_if (negb (is_utf8 line)) e Flag.EncodingAnomaly.

Section tmpfiles.
Context `{Strerror} `{Blake3}.

Definition tmpfiles_step (rel_ : path) (by_ : option path) (principal : option bytes)
    (st : gmap bytes N * list Entry.entry) (raw : bytes) : coll (gmap bytes N * list Entry.entry) :=
  let '(used, out) := st in
  let line := trim_ascii raw in
  match tmpfiles_line line with
  | None => mret st
  | Some (ty, p, argument) =>
      let '(name, used) := numbered used (from_utf8_lossy ty ++ #" " ++ from_utf8_lossy p) in
      e ← entry Kind.Tmpfiles rel_ name;
      r ← the_root;
      mret (used, out ++ [tmpfiles_facts r by_ principal line ty p argument e])
  end.
Definition tmpfiles_file (rel_ : path) (by_ : option path) (principal : option bytes) (out : list Entry.entry)
    : coll (list Entry.entry) :=
  b ← read rel_;
  match b with
  | None => mret out
  | Some b =>
      st ← fold_coll (tmpfiles_step rel_ by_ principal) (∅, out) (split_on (is_byte newline) b);
      mret (snd st)
  end.

Definition home_tmpfiles (st : pset * list Entry.entry) (wd : bytes * path) : coll (pset * list Entry.entry) :=
  let '(walked, out) := st in
  let '(who, d) := wd in
  if pm_mem walked d then mret st
  else
    ents ← dir d;
    out ← fold_coll (fun out ent => tmpfiles_file (path_join d (de_name ent)) None (Some who) out) out
            (List.filter (fun ent => negb (de_is_dir ent) && ends_with #".conf" (de_name ent)) ents);
    mret (ps_insert d walked, out).
Definition tmpfiles : coll (list Entry.entry) :=
  fs ← replaceable TMPFILES_PATHS #".conf";
  out ← fold_coll (fun out x => tmpfiles_file (fst x) (snd x) None out) [] fs;
  fs ← replaceable USER_TMPFILES_PATHS #".conf";
  out ← fold_coll (fun out x => tmpfiles_file (fst x) (snd x) None out) out fs;
  users ← the_users;
  st ← fold_coll home_tmpfiles (pm_empty, out)
         (users ≫= (fun u => (fun d => (u_name u, User.in_home u d)) <$> HOME_TMPFILES_PATHS));
  mret (snd st).
End tmpfiles.

(** ** Presets *)

Definition ENABLE : bytes := #"enable".
Definition DIRECTIVES : list bytes := [ENABLE; #"disable"; #"ignore"].
Definition is_pattern (pattern : bytes) : bool := existsb (fun b => bool_decide (b ∈ #"*?[")) pattern.
Record preset_line := mk_preset_line { pl_directive : bytes; pl_pattern : bytes; pl_instances : bytes }.
Definition read_preset_line (line : bytes) : option preset_line :=
  if bool_decide (line = []) || is_comment line then None
  else
    match fields 2 line with
    | ([directive; pattern], instances) =>
        if mem directive DIRECTIVES then Some (mk_preset_line directive pattern instances) else None
    | _ => None
    end.

(** Patterns with the line each is on, the first first. *)
Abbreviation decisions := (list (bytes * bytes)).
Definition decided_by (decided : decisions) (pattern : bytes) : option bytes :=
  if is_pattern pattern then None else snd <$> find (fun pa => glob_match (fst pa) pattern) decided.

Definition preset_facts (r : root) (scope : bytes) (by_ : option path) (decided : option bytes) (line : bytes) (p : preset_line)
    (e : Entry.entry) : Entry.entry :=
  let e := set_trigger e Trigger.PackageOp in
  let e := set_enabled e (if bool_decide (is_Some by_) || bool_decide (is_Some decided) then Enablement.Disabled
                          else Enablement.Enabled) in
  let e := Entry.note (Entry.note e key.SCOPE scope) #"pattern" (from_utf8_lossy (pl_pattern p)) in
  let e := if bool_decide (pl_instances p = []) then e else Entry.note e #"instances" (from_utf8_lossy (pl_instances p)) in
  let e := match by_ with Some by_ => Entry.note e key.SHADOWED_BY (display_path (abs r by_)) | None => e end in
  match decided with Some a => Entry.note e #"decided_by" a | None => e end.

(** The first of the search path that has a unit. *)
Fixpoint first_there (r : root) (ps : list path) : prog (option path) :=
  match ps with
  | [] => Ret None
  | p :: ps => there ← exists_ r p; if there : bool then Ret (Some p) else first_there r ps
  end.
Definition preset_target (r : root) (units : list SearchDir) (pattern : bytes) (e : Entry.entry) : prog Entry.entry :=
  if is_pattern pattern then Ret e
  else
    found ← first_there r ((fun d => path_join (sd_path d) pattern) <$> sort_by sd_rank units);
    Ret match found with Some p => set_target_path e (Some (abs r p)) | None => e end.

Record preset_state := mk_preset_state { ps_decided : decisions; ps_used : gmap bytes N; ps_out : list Entry.entry }.

Section presets.
Context `{Strerror} `{Blake3}.

Definition preset_step (units : list SearchDir) (scope : bytes) (rel_ : path) (by_ : option path) (st : preset_state) (raw : bytes)
    : coll preset_state :=
  let '(mk_preset_state decided used out) := st in
  let line := trim_ascii raw in
  match read_preset_line line with
  | None => mret st
  | Some p =>
      r ← the_root;
      let before_ := decided_by decided (pl_pattern p) in
      let decided := match by_ with
                     | None => decided ++ [(pl_pattern p, display_path (abs r rel_) ++ #": " ++ from_utf8_lossy line)]
                     | Some _ => decided
                     end in
      if negb (bool_decide (pl_directive p = ENABLE)) then mret (mk_preset_state decided used out)
      else
        let '(name, used) := numbered used (#"enable " ++ from_utf8_lossy (pl_pattern p)) in
        e ← entry Kind.SystemdPreset rel_ name;
        e ← lift (fun r => preset_target r units (pl_pattern p) (preset_facts r scope by_ before_ line p e));
        mret (mk_preset_state decided used (out ++ [flag_if (negb (is_utf8 line)) e Flag.EncodingAnomaly]))
  end.
Definition preset_file (units : list SearchDir) (scope : bytes) (st : decisions * list Entry.entry) (x : path * option path)
    : coll (decisions * list Entry.entry) :=
  b ← read (fst x);
  match b with
  | None => mret st
  | Some b =>
      s ← fold_coll (preset_step units scope (fst x) (snd x)) (mk_preset_state (fst st) ∅ (snd st)) (split_on (is_byte newline) b);
      mret (ps_decided s, ps_out s)
  end.
Definition presets (dirs : list path) (units : list SearchDir) (scope : bytes) : coll (list Entry.entry) :=
  fs ← replaceable dirs #".preset";
  st ← fold_coll (preset_file units scope) ([], []) fs;
  mret (snd st).

(** ** The collector *)

Definition home_dirs (users : list user) : list (Scope.scope * path * SearchDir) :=
  users ≫= (fun u => (fun d => (Scope.Home (u_name u), User.in_home u (sd_path d), d)) <$> HOME_USER_PATHS).
Definition search_dirs (users : list user) : list (Scope.scope * path * SearchDir) :=
  ((fun d => (Scope.System, sd_path d, d)) <$> SYSTEM_PATHS) ++
  ((fun d => (Scope.User, sd_path d, d)) <$> USER_PATHS) ++ home_dirs users.

Definition walk : coll (Walk * gset (N * N)) :=
  users ← the_users;
  fold_coll (fun st x => let '(s, d, at_) := x : Scope.scope * path * SearchDir in scan st s d at_) (walk0, ∅) (search_dirs users).
Definition collect : coll (list Entry.entry) :=
  st ← walk;
  out ← entries (fst st);
  gens ← generators (snd st);
  hooks ← power_hooks;
  managers ← manager_environment;
  tmp ← tmpfiles;
  ps ← presets PRESET_PATHS SYSTEM_PATHS #"system";
  us ← presets USER_PRESET_PATHS USER_PATHS #"user";
  mret (out ++ gens ++ hooks ++ managers ++ tmp ++ ps ++ us).
End presets.
