(* ===== verification/SystemdLaws.v ===== *)
(** Laws of [Systemd]: what a unit's enablement rests on, who shadows whom,
    that no unit is lost to its aliases, what kinds of entries there are, and
    which preset decides. *)

From S2P Require Import Prelude Slices Order Num Utf8 Paths PathMap Text Kinds Entry Sys Root Users Scan Collect UnitFile UnitFileLaws Systemd Tree.

(** ** A unit's enablement *)

Definition enabling_link (links : option (list (bool * path))) : Prop := exists l p, links = Some l /\ (true, p) ∈ l.

Lemma describe_Some links want :
  is_Some (describe links want) <-> exists l p, links = Some l /\ (want, p) ∈ l.
Proof.
  unfold describe. destruct links as [l|]; cbn [mbind option_bind]; [|split; [by intros [? [=]]|by intros (l & p & [=] & _)]].
  set (ps := _ <$> _). assert (Hps : ps <> [] <-> exists p, (want, p) ∈ l).
  { unfold ps. split.
    - intros Hne. destruct (List.filter _ l) as [|[b p] k] eqn:E; [done|]. exists p.
      assert (Hin : (b, p) ∈ List.filter (fun x => bool_decide (x.1 = want)) l) by (rewrite E; by left).
      apply list_elem_of_In, List.filter_In in Hin as [Hin Hb%bool_decide_eq_true]. cbn in Hb. subst b. by apply list_elem_of_In.
    - intros [p Hp] E. apply fmap_nil_inv in E.
      assert (Hin : (want, p) ∈ List.filter (fun x => bool_decide (x.1 = want)) l).
      { apply list_elem_of_In, List.filter_In. split; [by apply list_elem_of_In|]. by apply bool_decide_eq_true. }
      rewrite E in Hin. by apply elem_of_nil in Hin. }
  case_bool_decide as Hd.
  - split; [by intros [? [=]]|]. intros (l' & p & [= <-] & Hp). exfalso. by apply Hps; [exists p|].
  - split; [|by eauto]. intros _. apply Hps in Hd as [p Hp]. by exists l, p.
Qed.

(** The enablement inferred, in the order the code decides it. *)
Inductive inferred (masked install : bool) (links : option (list (bool * path))) : enablement -> Prop :=
| inferred_masked : masked = true -> inferred masked install links Enablement.Masked
| inferred_enabled : masked = false -> enabling_link links -> inferred masked install links Enablement.Enabled
| inferred_static : masked = false -> ~ enabling_link links -> install = false -> inferred masked install links Enablement.Static
| inferred_disabled : masked = false -> ~ enabling_link links -> install = true -> inferred masked install links Enablement.Disabled.

Lemma infer_enabled links install e : inferred false install links (e_enabled (infer links install e)).
Proof.
  unfold infer. cbv zeta. destruct (describe links true) eqn:E.
  - cbn [set_enabled e_enabled]. constructor; [done|]. apply describe_Some. by rewrite E.
  - assert (Hn : ~ enabling_link links) by (intros Hl; apply describe_Some in Hl; rewrite E in Hl; by destruct Hl).
    cbn [set_enabled e_enabled]. by destruct install; constructor.
Qed.

Section entries.
Context `{Strerror} `{Blake3}.

Lemma stays_fill e f s : stays (fill e f s).
Proof.
  unfold fill. cbv zeta. apply stays_bind; [apply stays_lift|]. intros x. apply stays_fold. intros e' [i spec].
  unfold fill_env_file. cbv zeta. apply stays_bind; [apply stays_users|]. intros us. destruct (inside_home us s _).
  - apply stays_bind; [apply stays_read_capped|]. intros b. apply stays_ret.
  - apply stays_ret.
Qed.
Lemma stays_facts p : stays (parse_into_facts p).
Proof. unfold parse_into_facts. apply stays_bind; [apply stays_read_capped|]. intros b. apply stays_ret. Qed.

Definition file_facts (h : snapshot) (r : root) (p : path) : Facts :=
  match file_text h r p with Some b => facts (parse_unit b) | None => no_facts end.
Lemma value_facts h cx p : value h cx (parse_into_facts p) = file_facts h (cx_root cx) p.
Proof. unfold parse_into_facts. rewrite value_bind, value_read_capped. unfold file_facts. by destruct (file_text _ _ _). Qed.

(** The Install section of a unit file that is read at all. *)
Definition installs (h : snapshot) (r : root) (p : path) : bool := f_has_install (file_facts h r p).

Lemma unit_entry_enabled h cx w f :
  let e := value h cx (unit_entry w f) in
  inferred (snd (run h (masking (cx_root cx) (fu_rel f)))) (installs h (cx_root cx) (fu_rel f))
    (enabling_links w f (unit_suffix (fu_unit f))) (e_enabled e) /\
  Entry.has_flag e Flag.DegradedEnablement = true.
Proof.
  cbv zeta. unfold unit_entry. cbv zeta. rewrite !value_bind. set (cx1 := after h cx (entry _ _ _)).
  assert (Hr1 : cx_root cx1 = cx_root cx) by apply after_root, stays_entry.
  rewrite value_lift, after_lift. set (cx2 := after h cx1 the_users).
  assert (Hr2 : cx_root cx2 = cx_root cx) by (etrans; [apply after_root, stays_users|done]). rewrite Hr2.
  destruct (run h (masking (cx_root cx) (fu_rel f))) as [empty masked]. cbn [snd]. rewrite !value_bind.
  match goal with |- context [value h ?c (mret ?x)] => change (value h c (mret x)) with x end. split.
  - assert (Hf : forall e fl, e_enabled (Entry.flag e fl) = e_enabled e) by (intros e fl; unfold Entry.flag; by case_match).
    rewrite Hf. destruct masked; [by constructor|]. rewrite value_facts, Hr2. apply infer_enabled.
  - unfold Entry.has_flag, Entry.flag. case_match; [done|]. cbn [set_flags e_flags]. unfold mem.
    apply bool_decide_eq_true. apply elem_of_app. right. by left.
Qed.
End entries.

(** ** Where links and units come from *)

(** A place in the search path, and the name it is walked under. *)
Definition searched (h : snapshot) (r : root) (users : list user) (s : Scope.scope) (at_ : SearchDir) (c : path) : Prop :=
  exists d, (s, d, at_) ∈ search_dirs users /\ c = run h (canonical_dir r d).
(** A link that names a unit, by its own name or by what it points at. *)
Definition names_unit (h : snapshot) (r : root) (p : path) (name n : bytes) : Prop :=
  n = from_utf8_lossy name \/ run h (target_base r p) = Some n.
Inductive link_source (h : snapshot) (r : root) (c : path) (n : bytes) (b : bool) (q : path) : Prop :=
| from_farm farm name : q = abs r (path_join (path_join c farm) name) ->
    ends_with #".wants" (from_utf8_lossy farm) || ends_with #".requires" (from_utf8_lossy farm) = true ->
    names_unit h r (path_join (path_join c farm) name) name n -> link_source h r c n b q
| from_alias name : q = abs r (path_join c name) -> b = true ->
    run h (target_base r (path_join c name)) = Some n -> link_source h r c n b q.

Record walk_ok (h : snapshot) (r : root) (users : list user) (w : Walk) : Prop := mk_walk_ok {
  wk_links : forall s n l b q, links_of (w_links w) s n = Some l -> (b, q) ∈ l ->
    exists at_ c, searched h r users s at_ c /\ sd_admin at_ = b /\ link_source h r c n b q;
  wk_units : forall f, f ∈ w_units w -> exists at_ c, searched h r users (fu_scope f) at_ c /\
    sd_rank at_ = fu_rank f /\ sd_admin at_ = fu_admin f /\ fu_rel f = path_join c (fu_file_name f) /\
    fu_unit f = from_utf8_lossy (fu_file_name f) /\ is_Some (unit_suffix (fu_unit f))
}.

Lemma add_link_of m s n x s' n' l y :
  links_of (add_link m s n x) s' n' = Some l -> y ∈ l ->
  (s' = s /\ n' = n /\ y = x) \/ exists l', links_of m s' n' = Some l' /\ y ∈ l'.
Proof.
  unfold links_of, add_link. destruct (decide ((s, n) = (s', n'))) as [[= <- <-]|Hne].
  - rewrite lookup_insert_eq. intros [= <-]. rewrite elem_of_app, list_elem_of_singleton. intros [Hy| ->]; [right|by left].
    unfold links_of in Hy. destruct (m !! (s, n)) as [l'|]; [by exists l'|by apply elem_of_nil in Hy].
  - rewrite lookup_insert_ne by done. intros El Hy. right. by exists l.
Qed.

Section walking.
Context (h : snapshot) (r : root) (users : list user) `{Strerror}.
Notation ok := (walk_ok h r users).

Lemma ok_link w s n b q at_ c :
  searched h r users s at_ c -> sd_admin at_ = b -> link_source h r c n b q -> ok w -> ok (set_links w (add_link (w_links w) s n (b, q))).
Proof.
  intros Hs Hb Hq [Hl Hu]. split; [|exact Hu]. cbn [set_links w_links]. intros s' n' l b' q' El Hin.
  destruct (add_link_of _ _ _ _ _ _ _ _ El Hin) as [(-> & -> & [= -> ->])|(l' & El' & Hin')]; [by exists at_, c|by eapply Hl].
Qed.
Lemma ok_want w l : ok w -> ok (push_want w l).
Proof. by intros []. Qed.
Lemma ok_dropin w f : ok w -> ok (push_dropin w f).
Proof. by intros []. Qed.

Lemma stays_link_ent s d rank admin w ent : stays (link_ent s d rank admin w ent).
Proof.
  unfold link_ent. cbv zeta. destruct (unit_suffix _); [|apply stays_ret]. apply stays_bind; [apply stays_root|]. intros r'.
  apply stays_bind; [apply stays_lift|]. intros tb. apply stays_ret.
Qed.
Lemma stays_scan_links w s d rank admin : stays (scan_links w s d rank admin).
Proof. apply stays_bind; [apply stays_dir|]. intros ents. apply stays_fold. intros. apply stays_link_ent. Qed.

Lemma set_links_twice w a b : set_links (set_links w a) b = set_links w b.
Proof. done. Qed.
Lemma value_link_ent cx s c farm rank at_ w ent :
  cx_root cx = r -> searched h r users s at_ c ->
  ends_with #".wants" (from_utf8_lossy farm) || ends_with #".requires" (from_utf8_lossy farm) = true ->
  ok w -> ok (value h cx (link_ent s (path_join c farm) rank (sd_admin at_) w ent)).
Proof.
  intros Hr Hs Hf Hw. unfold link_ent. cbv zeta. destruct (unit_suffix _); [|done]. rewrite !value_bind.
  set (p := path_join (path_join c farm) (de_name ent)).
  change (value h cx the_root) with (cx_root cx). change (after h cx the_root) with cx. rewrite value_lift, Hr.
  match goal with |- ok (value h ?k (mret ?x)) => change (ok x) end. apply ok_want.
  assert (H1 : ok (set_links w (add_link (w_links w) s (from_utf8_lossy (de_name ent)) (sd_admin at_, abs r p)))).
  { eapply ok_link; [done|done| |done]. eapply from_farm; [done|done|by left]. }
  destruct (run h (target_base r p)) as [tb|] eqn:Et; [|done]. case_bool_decide; [done|].
  rewrite <- (set_links_twice w (add_link (w_links w) s (from_utf8_lossy (de_name ent)) (sd_admin at_, abs r p))).
  eapply ok_link; [done|done| |exact H1]. eapply from_farm; [done|done|by right].
Qed.

Lemma value_scan_links cx s c farm rank at_ w :
  cx_root cx = r -> searched h r users s at_ c ->
  ends_with #".wants" (from_utf8_lossy farm) || ends_with #".requires" (from_utf8_lossy farm) = true ->
  ok w -> ok (value h cx (scan_links w s (path_join c farm) rank (sd_admin at_))).
Proof.
  intros Hr Hs Hf Hw. unfold scan_links. rewrite value_bind. apply (value_fold_inv ok).
  - intros. apply stays_link_ent.
  - done.
  - intros w' ent cx' _ [Hc _] Hw'. apply value_link_ent; [|done..]. rewrite Hc. by rewrite after_root by apply stays_dir.
Qed.
Lemma ok_dropins s d parent_ rank w ents : ok w -> ok (foldl (dropin_ent s d parent_ rank) w ents).
Proof.
  revert w. induction ents as [|ent ents IH]; intros w Hw; [done|]. cbn [foldl]. apply IH. unfold dropin_ent. cbv zeta.
  case_match; [done|by apply ok_dropin].
Qed.
Lemma value_alias_link cx s c name at_ w :
  cx_root cx = r -> searched h r users s at_ c -> sd_admin at_ = true ->
  ok w -> ok (value h cx (alias_link w s (path_join c name) (from_utf8_lossy name))).
Proof.
  intros Hr Hs Ha Hw. unfold alias_link. rewrite !value_bind.
  change (value h cx the_root) with (cx_root cx). change (after h cx the_root) with cx. rewrite value_lift, Hr.
  match goal with |- ok (value h ?k (mret ?x)) => change (ok x) end.
  destruct (run h (target_base r (path_join c name))) as [tb|] eqn:Et; [|done]. case_match; [|done].
  eapply ok_link; [done|done| |done]. by eapply from_alias.
Qed.

Lemma stays_alias w s p name : stays (alias_link w s p name).
Proof. apply stays_bind; [apply stays_root|]. intros r'. apply stays_bind; [apply stays_lift|]. intros tb. apply stays_ret. Qed.
Lemma stays_scan_ent s d rank admin w ent : stays (scan_ent s d rank admin w ent).
Proof.
  unfold scan_ent. cbv zeta. destruct (_ || _).
  - destruct (de_is_dir ent || de_is_symlink ent); [apply stays_scan_links|apply stays_ret].
  - destruct (strip_suffix _ _).
    + destruct (de_is_dir ent || de_is_symlink ent); [|apply stays_ret]. apply stays_bind; [apply stays_dir|]. intros. apply stays_ret.
    + destruct (_ && _); [|apply stays_ret]. apply stays_bind; [|intros; apply stays_ret].
      destruct (_ && _); [apply stays_alias|apply stays_ret].
Qed.
Lemma ok_unit s c at_ w name :
  searched h r users s at_ c -> is_Some (unit_suffix (from_utf8_lossy name)) -> ok w ->
  ok (push_unit w (mk_found_unit s (sd_rank at_) (path_join c name) name (from_utf8_lossy name) (sd_admin at_))).
Proof.
  intros Hs Hn [Hl Hu]. split; [done|]. cbn [push_unit w_units]. intros f. rewrite elem_of_app, list_elem_of_singleton.
  intros [Hf| ->]; [by apply Hu|]. by exists at_, c.
Qed.
Lemma value_scan_ent cx s c at_ w ent :
  cx_root cx = r -> searched h r users s at_ c -> ok w ->
  ok (value h cx (scan_ent s c (sd_rank at_) (sd_admin at_) w ent)).
Proof.
  intros Hr Hs Hw. unfold scan_ent. cbv zeta. destruct (_ || _) eqn:Ef.
  - destruct (de_is_dir ent || de_is_symlink ent); [by apply value_scan_links|done].
  - destruct (strip_suffix _ _).
    + destruct (de_is_dir ent || de_is_symlink ent); [|done]. unfold scan_dropins. rewrite value_bind.
      match goal with |- ok (value h ?k (mret ?x)) => change (ok x) end. by apply ok_dropins.
    + destruct (negb (de_is_dir ent) && _) eqn:Eu; [|done]. apply andb_true_iff in Eu as [_ Eu%bool_decide_eq_true].
      rewrite value_bind. match goal with |- ok (value h ?k (mret ?x)) => change (ok x) end. apply ok_unit; [done|done|].
      destruct (de_is_symlink ent && sd_admin at_) eqn:Ea; [|done]. apply andb_true_iff in Ea as [_ Ea].
      by apply (value_alias_link _ _ _ _ at_).
Qed.

Lemma value_scan cx st s d at_ :
  cx_root cx = r -> (s, d, at_) ∈ search_dirs users -> ok (fst st) -> ok (fst (value h cx (scan st s d at_))).
Proof.
  intros Hr Hin Hw. destruct st as [w seen]. unfold scan. rewrite value_bind, value_lift, after_lift, Hr. cbn [fst] in Hw.
  destruct (run h (escaping_link r d)) as [t|]; [by rewrite value_bind|].
  rewrite value_bind, value_lift, after_lift, Hr, value_bind. set (c := run h (canonical_dir r d)).
  pose proof (after_root h cx (first_visit c seen) (stays_first_visit c seen)) as Hr1.
  destruct (value h cx (first_visit c seen)) as [[id|] seen']; [|done]. rewrite !value_bind.
  match goal with |- ok (fst (value h ?k (mret ?x))) => change (ok (fst x)) end. cbn [fst]. apply (value_fold_inv ok).
  - intros. apply stays_scan_ent.
  - done.
  - intros w' ent cx' _ [Hc _] Hw'. apply value_scan_ent; [|by exists d|done]. rewrite Hc, after_root, Hr1 by apply stays_dir. done.
Qed.
Lemma stays_scan st s d at_ : stays (scan st s d at_).
Proof.
  destruct st as [w seen]. unfold scan. apply stays_bind; [apply stays_lift|]. intros [t|].
  - apply stays_bind; [|intros; apply stays_ret]. intros cx. apply note_left_home_same.
  - apply stays_bind; [apply stays_lift|]. intros c. apply stays_bind; [apply stays_first_visit|]. intros [[id|] seen']; [|apply stays_ret].
    apply stays_bind; [apply stays_dir|]. intros ents. apply stays_bind; [|intros; apply stays_ret].
    apply stays_fold. intros. apply stays_scan_ent.
Qed.
End walking.

Lemma ok_walk0 h r users : walk_ok h r users walk0.
Proof. split; [intros s n l b q [=]|]. intros f Hf. by apply elem_of_nil in Hf. Qed.
Lemma value_walk `{Strerror} h cx : walk_ok h (cx_root cx) (cx_users cx) (fst (value h cx walk)).
Proof.
  unfold walk. rewrite value_bind. change (value h cx the_users) with (cx_users cx). change (after h cx the_users) with cx.
  apply (value_fold_inv (fun st => walk_ok h (cx_root cx) (cx_users cx) (fst st))).
  - intros st [[s d] at_]. apply stays_scan.
  - apply ok_walk0.
  - intros st [[s d] at_] cx' Hin [Hr _] Hw. by apply value_scan.
Qed.

(** ** Who shadows whom *)

Lemma elem_of_pairs {A} (l : list A) a b : (a, b) ∈ pairs l <-> exists l1 l2, l = l1 ++ a :: b :: l2.
Proof.
  induction l as [|x l IH]; [split; [by intros ?%elem_of_nil|intros (l1 & l2 & E); by destruct l1]|].
  destruct l as [|y l].
  - split; [by intros ?%elem_of_nil|]. intros ([|z l1] & l2 & E); [done|]. by destruct l1.
  - change (pairs (x :: y :: l)) with ((x, y) :: pairs (y :: l)). rewrite elem_of_cons, IH. split.
    + intros [[= <- <-]|(l1 & l2 & E)]; [by exists [], l|]. exists (x :: l1), l2. by rewrite E.
    + intros ([|z l1] & l2 & E); cbn [app] in E; [injection E as -> -> _; by left|]. right. exists l1, l2. by injection E as _ E.
Qed.

(** The places of the units there are of a kind. *)
Definition indices (P : Found -> bool) (units : list Found) : list nat := fst <$> List.filter (fun x => P (snd x)) (imap pair units).
Lemma elem_of_indices P units i : i ∈ indices P units <-> exists f, units !! i = Some f /\ P f = true.
Proof.
  unfold indices. rewrite list_elem_of_fmap. split.
  - intros ([j f] & -> & [Hin Hp]%list_elem_of_In%List.filter_In). cbn [fst snd] in *. apply list_elem_of_In, elem_of_lookup_imap in Hin.
    destruct Hin as (j' & f' & E & Hl). injection E as -> ->. by exists f'.
  - intros (f & Hl & Hp). exists (i, f). split; [done|]. apply list_elem_of_In, List.filter_In. split; [|done].
    apply list_elem_of_In, elem_of_lookup_imap. by exists i, f.
Qed.
Lemma indices_snoc P units f : indices P (units ++ [f]) = indices P units ++ (if P f then [length units] else []).
Proof.
  unfold indices. rewrite imap_app, List.filter_app, fmap_app. cbn [imap List.filter compose snd].
  rewrite Nat.add_0_r. by destruct (P f).
Qed.
Lemma indices_nodup P units : NoDup (indices P units).
Proof.
  induction units as [|f units IH] using rev_ind; [constructor|]. rewrite indices_snoc. destruct (P f); [|by rewrite app_nil_r].
  apply NoDup_app. split; [done|]. split; [|apply NoDup_singleton]. intros i Hi ->%list_elem_of_singleton.
  apply elem_of_indices in Hi as (g & Hg & _). apply lookup_lt_Some in Hg. lia.
Qed.

Definition has_unit_key (k : Scope.scope * bytes) (f : Found) : bool := bool_decide ((fu_scope f, fu_unit f) = k).
Lemma groups_lookup units k :
  groups units !! k = match indices (has_unit_key k) units with [] => None | l => Some l end.
Proof.
  unfold groups. induction units as [|f units IH] using rev_ind; [done|]. rewrite imap_app, foldl_app, indices_snoc.
  cbn [imap foldl compose]. unfold group_unit at 1. cbn [fst snd]. rewrite Nat.add_0_r. unfold has_unit_key at 2.
  case_bool_decide as Ek.
  - rewrite Ek, lookup_insert_eq, IH. by destruct (indices (has_unit_key k) units).
  - rewrite lookup_insert_ne, IH by done. by rewrite app_nil_r.
Qed.

(** The units one manager reads under a name: an account's manager reads the
    global ones too. *)
Definition is_home (s : Scope.scope) : bool := match s with Scope.Home _ => true | _ => false end.
Definition rival (s : Scope.scope) (n : bytes) (f : Found) : bool :=
  bool_decide (fu_unit f = n) && (bool_decide (fu_scope f = s) || is_home s && bool_decide (fu_scope f = Scope.User)).
Definition rivals (units : list Found) (s : Scope.scope) (n : bytes) (i : nat) : Prop := exists f, units !! i = Some f /\ rival s n f = true.
(** A manager that has a unit of the name of its own. *)
Definition manages (units : list Found) (s : Scope.scope) (n : bytes) : Prop := exists f, f ∈ units /\ fu_scope f = s /\ fu_unit f = n.

Lemma default_group units k : default [] (groups units !! k) = indices (has_unit_key k) units.
Proof. rewrite groups_lookup. by destruct (indices _ _). Qed.
Lemma compete_group units s n idx :
  compete (groups units) !! (s, n) = Some idx ->
  manages units s n /\ NoDup idx /\ forall i, i ∈ idx <-> rivals units s n i.
Proof.
  unfold compete. rewrite map_lookup_imap, (groups_lookup units (s, n)).
  destruct (indices (has_unit_key (s, n)) units) as [|i0 l] eqn:El; [by intros [=]|].
  cbn [mbind option_bind fst snd]. rewrite <- El, default_group. intros [= <-].
  assert (Hi : forall i, i ∈ indices (has_unit_key (s, n)) units <-> exists f, units !! i = Some f /\ fu_scope f = s /\ fu_unit f = n).
  { intros i. rewrite elem_of_indices. unfold has_unit_key. split; intros (f & Hf & Hk); exists f; (split; [done|]).
    - apply bool_decide_eq_true in Hk. by injection Hk.
    - apply bool_decide_eq_true. by destruct Hk as [-> ->]. }
  assert (Hm : manages units s n).
  { destruct (proj1 (Hi i0)) as (f & Hf & Hs & Hn); [rewrite El; by left|]. exists f. by eauto using list_elem_of_lookup_2. }
  split; [done|]. unfold rivals, rival. destruct s as [| |who].
  1,2: split; [apply indices_nodup|]; intros i; rewrite Hi; cbn [is_home andb]; setoid_rewrite orb_false_r;
    setoid_rewrite andb_true_iff; setoid_rewrite bool_decide_eq_true; naive_solver.
  split.
  - apply NoDup_app. split; [apply indices_nodup|]. split; [|apply indices_nodup]. intros i.
    rewrite Hi, elem_of_indices. unfold has_unit_key. intros (f & Hf & Hs & _) (g & Hg & [= Hs' _]%bool_decide_eq_true). congruence.
  - intros i. rewrite elem_of_app, Hi, elem_of_indices. unfold has_unit_key. cbn [is_home andb].
    setoid_rewrite andb_true_iff. setoid_rewrite orb_true_iff. setoid_rewrite bool_decide_eq_true. split.
    + intros [(f & Hf & Hs & Hn)|(f & Hf & [= Hs Hn])]; exists f; naive_solver.
    + intros (f & Hf & Hn & [Hs|Hs]); [left|right]; exists f; naive_solver congruence.
Qed.
Lemma compete_there units s n : manages units s n -> is_Some (compete (groups units) !! (s, n)).
Proof.
  intros (f & Hf & <- & <-). apply list_elem_of_lookup in Hf as [i Hf]. unfold compete. rewrite map_lookup_imap, (groups_lookup units (fu_scope f, fu_unit f)).
  assert (Hi : i ∈ indices (has_unit_key (fu_scope f, fu_unit f)) units).
  { apply elem_of_indices. exists f. split; [done|]. by apply bool_decide_eq_true. }
  destruct (indices _ units); [by apply elem_of_nil in Hi|]. cbn. eauto.
Qed.

(** Two units next to each other in the order of some manager's paths. *)
Lemma elem_of_rank_pairs units a b :
  (a, b) ∈ rank_pairs units <->
  exists s n idx, compete (groups units) !! (s, n) = Some idx /\ (a, b) ∈ pairs (sort_by (rank_of units) idx).
Proof.
  unfold rank_pairs. rewrite list_elem_of_bind. split.
  - intros (idx & Hp & Hin). apply list_elem_of_In, List.filter_In in Hin as [Hin _]. apply list_elem_of_In in Hin.
    unfold btree_values in Hin. apply list_elem_of_fmap in Hin as ([[s n] idx'] & -> & Hin).
    unfold btree_to_list in Hin. rewrite sort_by_perm, elem_of_map_to_list in Hin. by exists s, n, idx'.
  - intros (s & n & idx & Hm & Hp). exists idx. split; [done|]. apply list_elem_of_In, List.filter_In. split.
    + apply list_elem_of_In. unfold btree_values. apply list_elem_of_fmap. exists (s, n, idx). split; [done|].
      unfold btree_to_list. by rewrite sort_by_perm, elem_of_map_to_list.
    + apply elem_of_pairs in Hp as (l1 & l2 & E). apply (f_equal length) in E. rewrite sort_by_perm, length_app in E.
      cbn [length] in E. apply Nat.ltb_lt. lia.
Qed.

Lemma sorted_before {A} (key : A -> N) l1 a b l2 :
  StronglySorted (key_le key) (l1 ++ a :: b :: l2) -> (key a <= key b)%N.
Proof.
  induction l1 as [|x l1 IH]; cbn [app]; [|intros [Hs _]%StronglySorted_inv; by apply IH].
  intros [_ [Hab _]%Forall_cons]%StronglySorted_inv. unfold key_le, cmp_leb, cmp, N_ord in Hab. destruct (N.compare_spec (key a) (key b)); lia || done.
Qed.
(** Something of a lower rank comes before, so what comes just before has a
    lower one too, unless it has the same. *)
Lemma sorted_just_before {A} (key : A -> N) l a b :
  StronglySorted (key_le key) l -> NoDup l -> a ∈ l -> b ∈ l -> (key a < key b)%N ->
  (forall x, x ∈ l -> key x = key b -> x = b) -> exists x, (x, b) ∈ pairs l /\ (key x < key b)%N.
Proof.
  intros Hs Hn Ha Hb Hlt Hu. apply list_elem_of_split in Hb as (l1 & l2 & ->).
  assert (Hl1 : a ∈ l1).
  { rewrite elem_of_app, elem_of_cons in Ha. destruct Ha as [Ha|[->|Ha]]; [done|lia|]. exfalso.
    apply list_elem_of_split in Ha as (k1 & k2 & ->). clear Hn Hu. induction l1 as [|x l1 IH]; cbn [app] in Hs.
    - apply StronglySorted_inv in Hs as [_ Hs]. apply Forall_app in Hs as [_ [Hs _]%Forall_cons].
      unfold key_le, cmp_leb, cmp, N_ord in Hs. destruct (N.compare_spec (key b) (key a)); lia || done.
    - apply StronglySorted_inv in Hs as [Hs _]. by apply IH. }
  destruct l1 as [|x l1 _] using rev_ind; [by apply elem_of_nil in Hl1|]. exists x. rewrite <- app_assoc in *. cbn [app] in *. split.
  - apply elem_of_pairs. by exists l1, l2.
  - pose proof (sorted_before key l1 x b l2 Hs) as Hle. destruct (decide (key x = key b)) as [E|]; [|lia].
    assert (x = b) as ->; [apply Hu; [set_solver|done]|]. exfalso. apply NoDup_app in Hn as (_ & _ & [Hn _]%NoDup_cons). apply Hn. by left.
Qed.

Lemma shadow_pairs_below units out ps st i :
  is_Some (snd (foldl (shadow_pair units out) st ps) !! i) <->
  is_Some (snd st !! i) \/ exists a, (a, i) ∈ ps /\ rank_of units a <> rank_of units i.
Proof.
  revert st. induction ps as [|[a b] ps IH]; intros st.
  - cbn [foldl]. split; [by left|]. intros [?|(a & ?%elem_of_nil & _)]; done.
  - cbn [foldl]. rewrite IH. setoid_rewrite elem_of_cons. unfold shadow_pair at 1. case_bool_decide as Er.
    + split; [naive_solver|]. intros [?|(c & [[= -> ->]|?] & ?)]; [by left|done|right; eauto].
    + cbn [snd]. unfold add_to. destruct (decide (b = i)) as [->|Hne].
      * rewrite lookup_insert_eq. split; [|by eauto]. intros _. right. exists a. split; [by left|done].
      * rewrite lookup_insert_ne by done. split; [naive_solver|]. intros [?|(c & [[= -> ->]|?] & ?)]; [by left|done|right; eauto].
Qed.

(** What noting leaves alone: everything but notes of one key. *)
Lemma note_paths_lookup k m out i k' :
  (e_raw <$> note_paths k m out !! i) ≫= (fun raw => raw !! k') =
  if bool_decide (k = k') && bool_decide (is_Some (m !! i)) && bool_decide (i < length out)
  then (fun s => join #", " (bset_to_list s)) <$> m !! i
  else (e_raw <$> out !! i) ≫= (fun raw => raw !! k').
Proof.
  unfold note_paths. assert (Hnd : NoDup (fst <$> btree_to_list m)) by apply btree_keys_nodup.
  assert (Hm : forall s, m !! i = Some s <-> (i, s) ∈ btree_to_list m) by (intros; symmetry; apply elem_of_btree_to_list).
  generalize dependent (btree_to_list m). intros l Hnd Hm. revert out Hnd.
  assert (G : forall l out, NoDup (fst <$> l) ->
    (e_raw <$> foldl (fun out ip => alter (fun e => Entry.note e k (join #", " (bset_to_list (snd ip)))) (fst ip) out) out l !! i) ≫= (fun raw => raw !! k') =
    match find (fun ip => bool_decide (fst ip = i)) l with
    | Some ip => if bool_decide (k = k') && bool_decide (i < length out) then Some (join #", " (bset_to_list (snd ip)))
                 else (e_raw <$> out !! i) ≫= (fun raw => raw !! k')
    | None => (e_raw <$> out !! i) ≫= (fun raw => raw !! k')
    end).
  { clear. induction l as [|[j s] l IH]; intros out Hnd; [done|]. cbn [foldl find fst snd fmap list_fmap] in *.
    apply NoDup_cons in Hnd as [Hj Hnd]. rewrite IH by done. rewrite length_alter. destruct (decide (j = i)) as [->|Ej].
    - rewrite (bool_decide_true (i = i)) by done. assert (find (fun ip => bool_decide (ip.1 = i)) l = None) as ->.
      { destruct (find _ l) as [ip|] eqn:Ef; [|done]. apply find_some in Ef as [Hip%list_elem_of_In <-%bool_decide_eq_true].
        exfalso. apply Hj. by apply list_elem_of_fmap_2. }
      rewrite list_lookup_alter_eq. destruct (out !! i) as [e|] eqn:Eo; cbn [fmap option_fmap option_map mbind option_bind].
      + cbn [Entry.note set_raw e_raw]. rewrite (bool_decide_true (i < length out)) by (by eapply lookup_lt_Some). rewrite andb_true_r.
        case_bool_decide as Ek; [subst; by rewrite lookup_insert_eq|by rewrite lookup_insert_ne].
      + rewrite (bool_decide_false (i < length out)) by (apply lookup_ge_None in Eo; lia). by rewrite andb_false_r.
    - rewrite (bool_decide_false (j = i)) by done. by rewrite list_lookup_alter_ne. }
  intros out Hnd. rewrite G by done. destruct (find _ l) as [[j s]|] eqn:Ef.
  - apply find_some in Ef as [Hin Ej%bool_decide_eq_true]. cbn [fst snd] in *. subst j. apply list_elem_of_In in Hin.
    rewrite (proj2 (Hm s) Hin). rewrite (bool_decide_true (is_Some (Some s))) by eauto. by rewrite andb_true_r.
  - destruct (m !! i) as [s|] eqn:Es.
    + exfalso. pose proof (find_none _ _ Ef (i, s) (proj1 (list_elem_of_In _ _) (proj1 (Hm s) eq_refl))) as Hf.
      cbn in Hf. by apply bool_decide_eq_false in Hf.
    + rewrite (bool_decide_false (is_Some None)) by (by intros [? [=]]). by rewrite andb_false_r.
Qed.

Definition note_at (out : list Entry.entry) (i : nat) (k : bytes) : option bytes := (e_raw <$> out !! i) ≫= (fun raw => raw !! k).
(** Some manager reads [i] under a name and something of a lower rank. *)
Definition outranked (units : list Found) (i : nat) (alone : bool) : Prop :=
  exists s n j, manages units s n /\ rivals units s n i /\ rivals units s n j /\ (rank_of units j < rank_of units i)%N /\
    (alone = true -> forall x, rivals units s n x -> rank_of units x = rank_of units i -> x = i).

Lemma length_note_paths k m out : length (note_paths k m out) = length out.
Proof.
  unfold note_paths. generalize (btree_to_list m). intros l. revert out. induction l as [|[j s] l IH]; intros out; [done|].
  cbn [foldl]. by rewrite IH, length_alter.
Qed.
Lemma shadowed_at units out i :
  is_Some (note_at (note_shadowing units out) i key.SHADOWED_BY) <->
  is_Some (note_at out i key.SHADOWED_BY) \/
  (i < length out /\ exists a, (a, i) ∈ rank_pairs units /\ rank_of units a <> rank_of units i).
Proof.
  unfold note_at, note_shadowing. cbv zeta. rewrite !note_paths_lookup, length_note_paths.
  rewrite (bool_decide_false (key.SHADOWS = key.SHADOWED_BY)), (bool_decide_true (key.SHADOWED_BY = key.SHADOWED_BY)) by done.
  cbn [andb]. pose proof (shadow_pairs_below units out (rank_pairs units) (∅, ∅) i) as Hs. cbn [snd] in Hs.
  assert (Hn : ~ is_Some ((∅ : gmap nat (gset bytes)) !! i)) by (rewrite lookup_empty; by intros [? [=]]).
  destruct (bool_decide (is_Some _)) eqn:Eb; cbn [andb].
  - apply bool_decide_eq_true in Eb. apply Hs in Eb as Hp. case_bool_decide as Hl.
    + rewrite fmap_is_Some. naive_solver.
    + split; [by left|]. intros [?|[? _]]; done.
  - apply bool_decide_eq_false in Eb. split; [by left|]. intros [?|[_ Hp]]; [done|]. exfalso. apply Eb, Hs. by right.
Qed.

(** A unit is noted shadowed only where some manager reads a unit of its
    name of a lower rank; and wherever one does, unless the manager reads
    another of the very same rank, it is. *)
Theorem shadowing_by_rank (units : list Found) (out : list Entry.entry) (i : nat) :
  (is_Some (note_at (note_shadowing units out) i key.SHADOWED_BY) ->
   is_Some (note_at out i key.SHADOWED_BY) \/ outranked units i false) /\
  (i < length out -> outranked units i true -> is_Some (note_at (note_shadowing units out) i key.SHADOWED_BY)).
Proof.
  rewrite shadowed_at. split.
  - intros [?|(_ & a & Hp & Hr)]; [by left|right]. apply elem_of_rank_pairs in Hp as (s & n & idx & Hg & Hp).
    destruct (compete_group _ _ _ _ Hg) as (Hm & _ & Hi). apply elem_of_pairs in Hp as (l1 & l2 & E). exists s, n, a.
    assert (Hin : forall x, x ∈ l1 ++ a :: i :: l2 -> rivals units s n x) by (intros x Hx; apply Hi; by rewrite <- (sort_by_perm (rank_of units)), E).
    pose proof (sort_by_sorted (rank_of units) idx) as Hs. rewrite E in Hs. apply sorted_before in Hs.
    split; [done|]. split; [apply Hin; set_solver|]. split; [apply Hin; set_solver|]. split; [lia|done].
  - intros Hl (s & n & j & Hm & Hri & Hrj & Hlt & Hu). right. split; [done|].
    destruct (compete_there _ _ _ Hm) as [idx Hg]. destruct (compete_group _ _ _ _ Hg) as (_ & Hnd & Hi).
    assert (Hs : forall x, x ∈ sort_by (rank_of units) idx <-> rivals units s n x) by (intros x; by rewrite sort_by_perm, Hi).
    destruct (sorted_just_before (rank_of units) (sort_by (rank_of units) idx) j i) as (x & Hx & Hlx).
    + apply sort_by_sorted.
    + by rewrite sort_by_perm.
    + by apply Hs.
    + by apply Hs.
    + done.
    + intros x Hx. apply Hu; [done|]. by apply Hs.
    + exists x. split; [|lia]. apply elem_of_rank_pairs. by exists s, n, idx.
Qed.

(** Of three units of one name, the last two in the two vendor directories of
    a host that has both /lib and /usr/lib, the last is shadowed and not noted. *)
Theorem shadow_tie_unnoted (a b c : Entry.entry) :
  let unit_in d rank admin := mk_found_unit Scope.System rank (path_join d #"x.service") #"x.service" #"x.service" admin in
  let units := [unit_in #"etc/systemd/system" 4%N true; unit_in #"usr/lib/systemd/system" 10%N false;
                unit_in #"lib/systemd/system" 10%N false] in
  outranked units 2 false /\
  note_at (note_shadowing units [a; b; c]) 2 key.SHADOWED_BY = note_at [a; b; c] 2 key.SHADOWED_BY.
Proof.
  intros unit_in units. split.
  - exists Scope.System, #"x.service", 0. split; [|split; [|split; [|split; [done|done]]]].
    + exists (unit_in #"etc/systemd/system" 4%N true). split; [by left|done].
    + by eexists.
    + by eexists.
  - unfold note_at, note_shadowing. cbv zeta. rewrite !note_paths_lookup, length_note_paths.
    rewrite (bool_decide_false (key.SHADOWS = key.SHADOWED_BY)) by done. cbn [andb].
    assert (Hn : ~ is_Some (snd (foldl (shadow_pair units [a; b; c]) (∅, ∅) (rank_pairs units)) !! 2)).
    { rewrite shadow_pairs_below. assert (rank_pairs units = [(0, 1); (1, 2)]) as -> by by vm_compute.
      intros [[? [=]]|(x & Hx & Hr)]. rewrite !elem_of_cons, elem_of_nil in Hx. destruct Hx as [[=]|[[= ->]|[]]]. by apply Hr. }
    by rewrite (bool_decide_false (is_Some _)), andb_false_r by done.
Qed.

(** ** No unit is lost *)

(** Taken out from the last, the others stay where they are. *)
Lemma delete_all (is_ : list nat) (out : list Entry.entry) e :
  StronglySorted lt is_ ->
  e ∈ foldl (fun out i => delete i out) out (reverse is_) <-> exists k, k ∉ is_ /\ out !! k = Some e.
Proof.
  revert out. induction is_ as [|m is_ IH] using rev_ind; intros out Hs.
  - cbn. rewrite list_elem_of_lookup. split; [intros [k Hk]; exists k; split; [by apply not_elem_of_nil|done]|intros (k & _ & Hk); by exists k].
  - rewrite reverse_snoc. cbn [foldl]. apply StronglySorted_app in Hs as (Hm & Hs & _). rewrite IH by done.
    assert (Hlt : forall x, x ∈ is_ -> x < m).
    { intros x Hx. apply Hm; [done|]. by apply list_elem_of_singleton. }
    split.
    + intros (k & Hk & Hl). destruct (decide (k < m)) as [Hkm|Hkm].
      * rewrite list_lookup_delete_lt in Hl by done. exists k. split; [|done]. rewrite elem_of_app, list_elem_of_singleton. intros [?|?]; [done|lia].
      * rewrite list_lookup_delete_ge in Hl by lia. exists (S k). split; [|done]. rewrite elem_of_app, list_elem_of_singleton.
        intros [Hx%Hlt|?]; lia.
    + intros (k & Hk & Hl). rewrite elem_of_app, list_elem_of_singleton in Hk. destruct (decide (k < m)) as [Hkm|Hkm].
      * exists k. split; [by intros Hx; apply Hk; left|]. by rewrite list_lookup_delete_lt.
      * exists (k - 1). split; [intros Hx%Hlt; apply Hk; lia|]. rewrite list_lookup_delete_ge by (destruct (decide (k = m)); [exfalso; apply Hk; by right|lia]).
        replace (S (k - 1)) with k; [done|]. destruct (decide (k = m)); [exfalso; apply Hk; by right|lia].
Qed.

(** The same entry but for its note of aliases. *)
Definition but_aliases (e e' : Entry.entry) : Prop :=
  set_raw e ∅ = set_raw e' ∅ /\ forall k, k <> #"aliases" -> e_raw e' !! k = e_raw e !! k.
#[export] Instance but_aliases_refl : Reflexive but_aliases.
Proof. done. Qed.
#[export] Instance but_aliases_trans : Transitive but_aliases.
Proof. intros a b c [H1 H2] [H3 H4]. split; [congruence|]. intros k Hk. etrans; [by apply H4|by apply H2]. Qed.
Lemma but_aliases_source e e' : but_aliases e e' -> e_source e' = e_source e.
Proof. intros [E _]. by apply (f_equal e_source) in E. Qed.
(** A name in the note of aliases. *)
Definition lists_alias (e : Entry.entry) (a : bytes) : Prop := exists p q, e_raw e !! #"aliases" = Some (p ++ a ++ q).

Lemma note_alias_step out i j k e :
  out !! k = Some e ->
  exists e', note_alias out (i, j) !! k = Some e' /\ but_aliases e e' /\
    (forall a, lists_alias e a -> lists_alias e' a) /\ (j = k -> lists_alias e' (source_of out i)).
Proof.
  intros He. unfold note_alias. cbv zeta. destruct (decide (j = k)) as [->|Hne].
  - rewrite list_lookup_alter_eq, He. cbn [fmap option_fmap option_map]. eexists. split; [done|].
    split; [split; [done|intros k' Hk'; cbn; by rewrite lookup_insert_ne]|]. unfold lists_alias. cbn [Entry.note set_raw e_raw].
    setoid_rewrite lookup_insert_eq. split.
    + intros a (p & q & E). rewrite E. exists p, (q ++ #", " ++ source_of out i). by rewrite <- !app_assoc.
    + intros _. destruct (e_raw e !! #"aliases") as [prev|].
      * exists (prev ++ #", "), []. by rewrite app_nil_r, <- app_assoc.
      * exists [], []. by rewrite app_nil_r.
  - rewrite list_lookup_alter_ne by done. exists e. by split.
Qed.
Lemma note_alias_sources out ij i : source_of (note_alias out ij) i = source_of out i.
Proof.
  destruct ij as [a j]. unfold source_of. destruct (out !! i) as [e|] eqn:E.
  - destruct (note_alias_step out a j i e E) as (e' & -> & Hb & _). cbn. by rewrite (but_aliases_source _ _ Hb).
  - assert (note_alias out (a, j) !! i = None) as ->; [|done]. apply lookup_ge_None. apply lookup_ge_None in E.
    unfold note_alias. cbv zeta. by rewrite length_alter.
Qed.
Lemma note_aliases_at folded out k e :
  out !! k = Some e ->
  exists e', foldl note_alias out folded !! k = Some e' /\ but_aliases e e' /\
    (forall a, lists_alias e a -> lists_alias e' a) /\ (forall i, (i, k) ∈ folded -> lists_alias e' (source_of out i)).
Proof.
  revert out e. induction folded as [|[i j] folded IH]; intros out e He.
  - exists e. split; [done|]. split; [done|]. split; [done|]. by intros i ?%elem_of_nil.
  - cbn [foldl]. destruct (note_alias_step out i j k e He) as (e1 & E1 & Hb1 & Ha1 & Hj1).
    destruct (IH _ _ E1) as (e2 & E2 & Hb2 & Ha2 & Hj2). exists e2. split; [done|]. split; [by etrans|]. split; [by auto|].
    intros i'. rewrite elem_of_cons. intros [[= -> ->]|Hin]; [by apply Ha2, Hj1|]. rewrite <- (note_alias_sources out (i, j)). by apply Hj2.
Qed.

(** What is folded into what: an administrator's link into the file of
    another name it leads to. *)
Definition alias_pair (h : snapshot) (r : root) (units : list Found) (i j : nat) : Prop :=
  exists f g, units !! i = Some f /\ units !! j = Some g /\ fu_admin f = true /\
    run h (is_link r (fu_rel f)) = true /\ run h (is_link r (fu_rel g)) = false /\
    (exists q, run h (Root.resolve r (fu_rel f)) = Ok q /\ path_eqb q (fu_rel g) = true) /\
    fu_unit g <> fu_unit f /\ fu_scope g = fu_scope f.

Section aliases.
Context (h : snapshot) (r : root) (units : list Found).

Definition files_ok (files : pmap nat) : Prop :=
  forall q j, pm_get files q = Some j -> exists g, units !! j = Some g /\ run h (is_link r (fu_rel g)) = false /\ path_eqb q (fu_rel g) = true.
Lemma files_found (l : list (nat * Found)) files :
  (forall i f, (i, f) ∈ l -> units !! i = Some f) -> files_ok files -> files_ok (run h (fold_prog (add_file r) files l)).
Proof.
  revert files. induction l as [|[i f] l IH]; intros files Hl Hf; [done|]. cbn [fold_prog]. rewrite run_bind. apply IH.
  - intros i' f' Hin. apply Hl. by right.
  - unfold add_file. cbn [fst snd]. rewrite run_bind. destruct (run h (is_link r (fu_rel f))) eqn:El; cbn [run]; [done|].
    intros q j. destruct (decide (components (fu_rel f) = components q)) as [E|E].
    + rewrite pm_get_insert_eq by done. intros [= <-]. exists f. split; [apply Hl; by left|]. split; [done|].
      by apply bool_decide_eq_true.
    + rewrite pm_get_insert_ne by done. apply Hf.
Qed.
Lemma enumerated i f : (i, f) ∈ imap pair units -> units !! i = Some f.
Proof. intros (j & g & E & Hl)%elem_of_lookup_imap. by injection E as -> ->. Qed.

Lemma alias_of_pair files f i j :
  files_ok files -> units !! i = Some f -> run h (alias_of r units files f) = Some j -> alias_pair h r units i j.
Proof.
  intros Hf Hi. unfold alias_of. destruct (fu_admin f) eqn:Ea; cbn [negb]; [|done]. rewrite run_bind.
  destruct (run h (is_link r (fu_rel f))) eqn:El; cbn [negb run]; [|done]. rewrite run_bind. cbn [run].
  destruct (run h (Root.resolve r (fu_rel f))) as [q|] eqn:Er; cbn [ok mbind option_bind]; [|done].
  destruct (pm_get files q) as [j'|] eqn:Eg; cbn [mbind option_bind]; [|done].
  destruct (Hf _ _ Eg) as (g & Hj & Hg & Hq). rewrite Hj. cbn [mbind option_bind]. case_match eqn:Ec; [|done]. intros [= <-].
  apply andb_true_iff in Ec as [[Hn%negb_true_iff%bool_decide_eq_false Hs%bool_decide_eq_true]%andb_true_iff _].
  exists f, g. repeat split; try done. by exists q.
Qed.

Definition folded_ok (n : nat) (folded : list (nat * nat)) : Prop :=
  StronglySorted lt folded.*1 /\ (forall i j, (i, j) ∈ folded -> i < n /\ alias_pair h r units i j).
Lemma fold_aliases_ok files n folded :
  files_ok files -> n <= length units -> folded_ok 0 folded ->
  folded_ok n (run h (fold_prog (fold_alias r units files) folded (take n (imap pair units)))).
Proof.
  intros Hf Hn H0. rewrite run_fold_prog. induction n as [|n IH]; [done|].
  destruct (lookup_lt_is_Some_2 units n) as [f Ef]; [lia|].
  assert (Et : take (S n) (imap pair units) = take n (imap pair units) ++ [(n, f)]).
  { apply take_S_r. by rewrite list_lookup_imap, Ef. }
  rewrite Et, foldl_app. cbn [foldl]. set (l := foldl _ _ _) in *. destruct IH as [Hs Hl]; [lia|]. unfold fold_alias. cbn [fst snd].
  rewrite run_bind. destruct (run h (alias_of r units files f)) as [j|] eqn:Ej; cbn [run].
  - split.
    + rewrite fmap_app. apply StronglySorted_app. split; [|split; [done|by repeat constructor]]. intros x y Hx Hy.
      apply list_elem_of_singleton in Hy as ->. apply list_elem_of_fmap in Hx as ([i' j'] & -> & Hx). cbn. by apply (Hl i' j').
    + intros i' j'. rewrite elem_of_app, list_elem_of_singleton. intros [Hin|[= -> ->]].
      * destruct (Hl _ _ Hin). split; [lia|done].
      * split; [lia|]. by eapply alias_of_pair.
  - split; [done|]. intros i' j' Hin. destruct (Hl _ _ Hin). split; [lia|done].
Qed.
Lemma find_aliases_ok : folded_ok (length units) (run h (find_aliases r units)).
Proof.
  unfold find_aliases. rewrite run_bind. set (files := run h (fold_prog (add_file r) _ _)).
  assert (Hf : files_ok files) by (apply files_found; [apply enumerated|intros q j; by rewrite pm_get_empty]).
  rewrite <- (take_ge (imap pair units) (length units)) by by rewrite length_imap.
  apply fold_aliases_ok; [done|lia|]. split; [constructor|]. by intros i j ?%elem_of_nil.
Qed.
End aliases.

(** C32. Taking an administrator's alias for the unit it names loses nothing:
    on one reading, every entry is still there but for its note of aliases,
    or it was a link to a unit file of another name, and the entry of that
    file, which is there, names it. *)
Theorem no_unit_lost (h : snapshot) (r : root) (units : list Found) (out : list Entry.entry) (i : nat) (e : Entry.entry) :
  length out = length units -> out !! i = Some e ->
  let out' := fold_aliases (run h (find_aliases r units)) out in
  (exists e', e' ∈ out' /\ but_aliases e e') \/
  (exists j g e', alias_pair h r units i j /\ out !! j = Some g /\ e' ∈ out' /\ but_aliases g e' /\
    lists_alias e' (from_utf8_lossy (e_source e))).
Proof.
  intros Hlen He. cbv zeta. destruct (find_aliases_ok h r units) as [Hs Hl]. set (folded := run h _) in *.
  assert (Hin : forall x, x ∈ fold_aliases folded out <-> exists k, k ∉ folded.*1 /\ foldl note_alias out folded !! k = Some x).
  { intros x. unfold fold_aliases. rewrite <- (delete_all folded.*1) by done.
    generalize (foldl note_alias out folded). rewrite <- fmap_reverse. generalize (reverse folded). clear.
    intros l. induction l as [|ij l IH]; intros out; [done|]. cbn [foldl fmap list_fmap]. apply IH. }
  destruct (decide (i ∈ folded.*1)) as [Hi|Hi].
  - right. apply list_elem_of_fmap in Hi as ([i' j] & -> & Hij). cbn [fst] in *. destruct (Hl _ _ Hij) as [_ Hp]. clear Hl.
    assert (Hj : j ∉ folded.*1).
    { intros Hj. apply list_elem_of_fmap in Hj as ([j' k] & -> & Hjk). cbn [fst] in *.
      destruct (find_aliases_ok h r units) as [_ Hl]. destruct (Hl _ _ Hjk) as (_ & f1 & g1 & E1 & _ & _ & L1 & _).
      destruct Hp as (f2 & g2 & _ & E2 & _ & _ & L2 & _). congruence. }
    pose proof Hp as (f & g & _ & Eg & _). destruct (lookup_lt_is_Some_2 out j) as [eg Eeg].
    { rewrite Hlen. by eapply lookup_lt_Some. }
    destruct (note_aliases_at folded out j eg Eeg) as (e' & E' & Hb & _ & Ha). exists j, eg, e'.
    split; [done|]. split; [done|]. split; [apply Hin; by exists j|]. split; [done|].
    specialize (Ha i' Hij). unfold source_of in Ha. by rewrite He in Ha.
  - left. destruct (note_aliases_at folded out i e He) as (e' & E' & Hb & _). exists e'. split; [|done]. apply Hin. by exists i.
Qed.

(** ** What entries there are *)

(** Of each kind of entry, its trigger, its enablement, and whether that was
    inferred. *)
Definition typed (e : Entry.entry) : Prop :=
  match e_kind e with
  | Kind.SystemdUnit | Kind.SystemdTimer =>
      e_trigger e = (if bool_decide (e_kind e = Kind.SystemdTimer) then Trigger.Schedule else Trigger.Boot) /\
      (e_enabled e = Enablement.NotApplicable \/
       e_enabled e ∈ [Enablement.Masked; Enablement.Enabled; Enablement.Static; Enablement.Disabled] /\
       Entry.has_flag e Flag.DegradedEnablement = true)
  | Kind.SystemdGenerator =>
      e_trigger e = Trigger.Boot /\ e_enabled e = Enablement.NotApplicable /\
      is_Some (e_target_path e) /\ e_command e = e_target_path e
  | Kind.SystemdHook =>
      e_trigger e = Trigger.PowerEvent /\ e_principal e = Some #"root" /\ is_Some (e_target_path e) /\
        e_enabled e ∈ [Enablement.Masked; Enablement.Enabled; Enablement.Disabled] \/
      e_trigger e = Trigger.Boot /\ e_enabled e ∈ [Enablement.Enabled; Enablement.Disabled]
  | Kind.Tmpfiles => e_trigger e = Trigger.Boot /\ e_enabled e ∈ [Enablement.Enabled; Enablement.Disabled]
  | Kind.SystemdPreset => e_trigger e = Trigger.PackageOp /\ e_enabled e ∈ [Enablement.Enabled; Enablement.Disabled]
  | _ => False
  end.

Lemma typed_noted e k v : typed e -> typed (Entry.note e k v).
Proof. done. Qed.
Lemma typed_flag e fl : typed e -> typed (Entry.flag e fl).
Proof.
  intros He. pose proof (kept_flag [] e fl) as Hk. assert (Hs : e_kind (Entry.flag e fl) = e_kind e /\ e_trigger (Entry.flag e fl) = e_trigger e /\
    e_enabled (Entry.flag e fl) = e_enabled e /\ e_target_path (Entry.flag e fl) = e_target_path e /\
    e_command (Entry.flag e fl) = e_command e /\ e_principal (Entry.flag e fl) = e_principal e).
  { unfold Entry.flag. by case_match. }
  destruct Hs as (Ek & Et & Ee & Ep & Ec & Er). unfold typed in *. rewrite Ek, Et, Ee, Ep, Ec, Er.
  destruct (e_kind e); try done; destruct He as [? [?|[? Hd%Hk]]]; eauto.
Qed.
Lemma typed_but_aliases e e' : but_aliases e e' -> typed e -> typed e'.
Proof.
  intros [E _] He. assert (Ek : e_kind e' = e_kind e) by by apply (f_equal e_kind) in E.
  assert (Et : e_trigger e' = e_trigger e) by by apply (f_equal e_trigger) in E.
  assert (Ee : e_enabled e' = e_enabled e) by by apply (f_equal e_enabled) in E.
  assert (Ep : e_target_path e' = e_target_path e) by by apply (f_equal e_target_path) in E.
  assert (Ec : e_command e' = e_command e) by by apply (f_equal e_command) in E.
  assert (Er : e_principal e' = e_principal e) by by apply (f_equal e_principal) in E.
  assert (Ef : e_flags e' = e_flags e) by by apply (f_equal e_flags) in E.
  unfold typed, Entry.has_flag in *. by rewrite Ek, Et, Ee, Ep, Ec, Er, Ef.
Qed.

(** The kind and the trigger. *)
Definition shape (e : Entry.entry) : kind * trigger := (e_kind e, e_trigger e).
Lemma shape_note e k v : shape (Entry.note e k v) = shape e.
Proof. done. Qed.
Lemma shape_flag e fl : shape (Entry.flag e fl) = shape e.
Proof. unfold Entry.flag. by case_match. Qed.
Lemma shape_name e n : shape (name_from_os e n) = shape e.
Proof. unfold name_from_os. case_match; [done|]. rewrite shape_note. apply shape_flag. Qed.
Lemma shape_scope users e s : shape (note_scope users e s) = shape e.
Proof. unfold note_scope. cbv zeta. destruct s as [| |who]; try done. by case_match. Qed.
Lemma shape_template e u s : shape (note_template e u s) = shape e.
Proof. unfold note_template. destruct (s ≫= template_of u) as [[t i]|]; [by case_match|done]. Qed.
Lemma shape_kept hs e e' : kept hs e e' -> shape e' = shape e.
Proof. intros [_ Hk _ _ Ht _ _ _]. unfold shape. by rewrite Hk, Ht. Qed.
Lemma shape_trigger e n t : shape (set_trigger (name_from_os e n) t) = (e_kind e, t).
Proof. unfold shape. cbn [set_trigger e_kind e_trigger]. pose proof (shape_name e n) as E. apply (f_equal fst) in E. cbn in E. by rewrite E. Qed.
Lemma shape_unit_head users f e : shape (unit_head users f e) = (e_kind e, trigger_for (unit_suffix (fu_unit f))).
Proof.
  unfold unit_head. cbv zeta. rewrite shape_template. case_match; rewrite !shape_note, shape_scope; apply shape_trigger.
Qed.

Lemma typed_unit s e :
  shape e = (kind_for s, trigger_for s) ->
  (e_enabled e = Enablement.NotApplicable \/
   e_enabled e ∈ [Enablement.Masked; Enablement.Enabled; Enablement.Static; Enablement.Disabled] /\
   Entry.has_flag e Flag.DegradedEnablement = true) -> typed e.
Proof.
  unfold shape, kind_for, trigger_for. intros E He. unfold typed. destruct (is_timer s); injection E as -> ->; by split.
Qed.
Lemma enabled_flag e fl : e_enabled (Entry.flag e fl) = e_enabled e.
Proof. unfold Entry.flag. by case_match. Qed.
Lemma typed_inferred s e :
  shape e = (kind_for s, trigger_for s) ->
  e_enabled e ∈ [Enablement.Masked; Enablement.Enabled; Enablement.Static; Enablement.Disabled] ->
  typed (Entry.flag e Flag.DegradedEnablement).
Proof.
  intros Hs He. apply (typed_unit s); [by rewrite shape_flag|]. right. rewrite enabled_flag. split; [done|apply has_flag_flag].
Qed.
Lemma shape_infer links b e : shape (infer links b e) = shape e.
Proof. unfold infer. cbv zeta. by repeat case_match. Qed.
Lemma infer_among links b e : e_enabled (infer links b e) ∈ [Enablement.Masked; Enablement.Enabled; Enablement.Static; Enablement.Disabled].
Proof. destruct (infer_enabled links b e); set_solver. Qed.

Section typing.
Context `{Strerror} `{Blake3}.

Lemma unit_entry_typed w f : yields typed (unit_entry w f).
Proof.
  unfold unit_entry. cbv zeta. eapply yields_bind; [apply entry_made|]. intros e He. apply yields_bind_any. intros users.
  apply yields_bind_any. intros [empty masked]. apply yields_bind_any. intros fs.
  eapply yields_bind; [apply fill_kept|]. intros e' He'. apply yields_ret. apply shape_kept in He'.
  assert (Hs : shape e' = (kind_for (unit_suffix (fu_unit f)), trigger_for (unit_suffix (fu_unit f)))).
  { rewrite He'. destruct He as [Hk _ _ _ _ _ _]. destruct empty; rewrite ?shape_note; by rewrite shape_unit_head, Hk. }
  apply (typed_inferred (unit_suffix (fu_unit f))).
  - destruct masked; [exact Hs|]. by rewrite shape_infer.
  - destruct masked; [set_solver|]. apply infer_among.
Qed.
Lemma dropin_entry_typed f : yields typed (dropin_entry f).
Proof.
  unfold dropin_entry. cbv zeta. eapply yields_bind; [apply entry_made|]. intros e He. apply yields_bind_any. intros users.
  apply yields_bind_any. intros fs. eapply yields_mono; [|apply fill_kept]. intros e' He'.
  pose proof (shape_kept _ _ _ He') as Hs. destruct He' as [_ _ _ _ _ Hen _ _].
  apply (typed_unit (unit_suffix (fu_unit f))).
  - rewrite Hs, shape_template, shape_note, shape_scope.
    destruct He as [Hk _ _ _ _ _ _]. rewrite <- Hk, <- (shape_trigger e (fu_file_name f)). done.
  - left. rewrite Hen. assert (T : forall u s e, e_enabled (note_template e u s) = e_enabled e).
    { intros u s x. unfold note_template. destruct (s ≫= template_of u) as [[t i]|]; [by case_match|done]. }
    assert (S : forall us e s, e_enabled (note_scope us e s) = e_enabled e).
    { intros us x s. unfold note_scope. cbv zeta. destruct s as [| |who]; try done. by case_match. }
    rewrite T. cbn [Entry.note set_raw e_enabled]. by rewrite S.
Qed.
Lemma linked_entry_typed l : yields typed (linked_entry l).
Proof.
  unfold linked_entry. cbv zeta. eapply yields_bind; [apply entry_made|]. intros e He. apply yields_bind_any. intros users.
  apply yields_bind_any. intros r. apply yields_bind_any. intros fs. eapply yields_bind; [apply fill_kept|]. intros e' He'.
  apply yields_ret. apply shape_kept in He'. apply (typed_inferred (unit_suffix (li_name l))); [|set_solver].
  change (shape (set_enabled ?x ?k)) with (shape x). rewrite He', shape_template, !shape_note, shape_scope. destruct He as [Hk _ _ _ _ _ _].
  unfold shape. cbn [set_trigger e_kind e_trigger]. by rewrite Hk.
Qed.

Lemma typed_notes k m out : Forall typed out -> Forall typed (note_paths k m out).
Proof.
  unfold note_paths. generalize (btree_to_list m). intros l. revert out. induction l as [|[j s] l IH]; intros out Ho; [done|].
  cbn [foldl]. apply IH. apply Forall_alter; [done|]. done.
Qed.
Lemma typed_fold_aliases folded out : Forall typed out -> Forall typed (fold_aliases folded out).
Proof.
  intros Ho. unfold fold_aliases. assert (H1 : Forall typed (foldl note_alias out folded)).
  { revert out Ho. induction folded as [|[i j] folded IH]; intros out Ho; [done|]. cbn [foldl]. apply IH. unfold note_alias. cbv zeta.
    by apply Forall_alter. }
  revert H1. generalize (foldl note_alias out folded), (reverse folded). intros es l. revert es.
  induction l as [|[i j] l IH]; intros es Hes; [done|]. cbn [foldl]. apply IH. by apply Forall_delete.
Qed.
Lemma entries_typed w : yields (Forall typed) (entries w).
Proof.
  unfold entries. eapply yields_bind; [apply yields_map; intros f _; apply unit_entry_typed|]. intros out Ho. cbv zeta.
  apply yields_bind_any. intros folded. eapply yields_bind; [apply yields_map; intros f _; apply dropin_entry_typed|]. intros drops Hd.
  eapply yields_bind; [apply yields_map; intros l _; apply linked_entry_typed|]. intros linked Hli. apply yields_ret.
  apply Forall_app. split; [|apply Forall_app; by split]. apply typed_fold_aliases. unfold note_shadowing. cbv zeta. by do 2 apply typed_notes.
Qed.

Lemma typed_snoc out e : Forall typed out -> typed e -> Forall typed (out ++ [e]).
Proof. intros Ho He. apply Forall_app. split; [done|by apply Forall_singleton]. Qed.

Lemma generator_facts_typed r d p n name e : made Kind.SystemdGenerator name e -> typed (generator_facts r d p n e).
Proof.
  intros [Hk _ _ _ _ _ _]. unfold generator_facts. cbv zeta.
  assert (Hm : typed (runs_itself r p (set_enabled (set_trigger (name_from_os e n) Trigger.Boot) Enablement.NotApplicable))).
  { unfold typed, runs_itself. cbn [set_target_path with_command set_enabled set_trigger e_kind e_trigger e_enabled e_target_path e_command].
    assert (e_kind (name_from_os e n) = Kind.SystemdGenerator) as ->.
    { rewrite <- Hk. apply (f_equal fst (shape_name e n)). }
    split; [done|]. split; [done|]. split; [by eexists|done]. }
  case_match; by repeat apply typed_noted.
Qed.
Lemma generators_typed seen : yields (Forall typed) (generators seen).
Proof.
  unfold generators. eapply (yields_bind (fun st => Forall typed (snd st))); [|intros st Hst; by apply yields_ret].
  apply yields_fold; [by constructor|]. intros [seen' out] d _ Ho. unfold generator_dir. cbn [snd] in Ho.
  apply yields_bind_any. intros [[id|] seen'']; [|by apply yields_ret]. apply yields_bind_any. intros ents.
  eapply (yields_bind (Forall typed)); [|intros out' Ho'; by apply yields_ret]. apply yields_fold; [done|]. intros out' ent _ Ho'.
  unfold generator_ent. destruct (skipped_ent ent); [by apply yields_ret|]. cbv zeta. apply yields_bind_any. intros [|]; cbn [negb]; [|by apply yields_ret].
  apply yields_bind_any. intros r. eapply yields_bind; [apply entry_made|]. intros e He. apply yields_ret, typed_snoc; [done|].
  by eapply generator_facts_typed.
Qed.

Lemma hook_facts_typed r hook p n m null name e : made Kind.SystemdHook name e -> typed (hook_facts r hook p n m null e).
Proof.
  intros [Hk _ _ _ _ _ _]. unfold hook_facts. cbv zeta. destruct (hook_enabled m null) as [x why] eqn:E.
  assert (Hx : x ∈ [Enablement.Masked; Enablement.Enabled; Enablement.Disabled]).
  { unfold hook_enabled in E. repeat case_match; injection E as <- <-; set_solver. }
  assert (Hn : e_kind (name_from_os e n) = Kind.SystemdHook) by (rewrite <- Hk; apply (f_equal fst (shape_name e n))).
  unfold typed, runs_itself. destruct why; cbn [set_target_path with_command set_enabled set_trigger set_principal Entry.note set_raw
    e_kind e_trigger e_enabled e_target_path e_command e_principal]; rewrite Hn; left; repeat split; try done; by eexists.
Qed.
Lemma power_hooks_typed : yields (Forall typed) power_hooks.
Proof.
  unfold power_hooks. eapply (yields_bind (fun st => Forall typed (snd st))); [|intros st Hst; by apply yields_ret].
  apply yields_fold; [by constructor|]. intros [seen' out] [d hook] _ Ho. unfold hook_dir. cbn [snd] in Ho.
  apply yields_bind_any. intros [[id|] seen'']; [|by apply yields_ret]. apply yields_bind_any. intros ents.
  eapply (yields_bind (Forall typed)); [|intros out' Ho'; by apply yields_ret]. apply yields_fold; [done|]. intros out' ent _ Ho'.
  unfold hook_ent. destruct (skipped_ent ent); [by apply yields_ret|]. cbv zeta. apply yields_bind_any. intros m.
  apply yields_bind_any. intros [|]; [by apply yields_ret|]. apply yields_bind_any. intros r.
  eapply yields_bind; [apply entry_made|]. intros e He. apply yields_bind_any. intros null. apply yields_ret, typed_snoc; [done|].
  by eapply hook_facts_typed.
Qed.

Lemma fold_env_fields l e :
  e_kind (foldl note_env e l) = e_kind e /\ e_trigger (foldl note_env e l) = e_trigger e.
Proof. revert e. induction l as [|kv l IH]; intros e; [done|]. cbn [foldl]. by destruct (IH (note_env e kv)) as [-> ->]. Qed.
Lemma manager_facts_typed scope c d name e : made Kind.SystemdHook name e -> typed (manager_facts scope c d e).
Proof.
  intros [Hk _ _ _ _ _ _]. unfold manager_facts. cbv zeta.
  match goal with |- context [foldl note_env ?x ?l] => destruct (fold_env_fields l x) as [E1 E2]; set (y := foldl note_env x l) in *;
    assert (Hx : e_kind x = Kind.SystemdHook /\ e_trigger x = Trigger.Boot) by (split; repeat case_match; done) end.
  destruct Hx as [Hx1 Hx2]. rewrite Hx1 in E1. rewrite Hx2 in E2.
  unfold typed. destruct (cf_why_not c); cbn [set_enabled Entry.note set_raw e_kind e_trigger e_enabled]; rewrite E1, E2; right; (split; [done|set_solver]).
Qed.
Lemma manager_environment_typed : yields (Forall typed) manager_environment.
Proof.
  unfold manager_environment. apply yields_bind_any. intros version. apply yields_fold; [by constructor|]. intros out [file scope] _ Ho.
  apply yields_bind_any. intros files. apply yields_fold; [done|]. intros out' c _ Ho'. unfold conf_entries.
  apply yields_bind_any. intros [b|]; [|by apply yields_ret]. apply yields_fold; [done|]. intros out2 d _ Ho2. unfold conf_directive.
  destruct (manager_directive d); [|by apply yields_ret]. eapply yields_bind; [apply entry_made|]. intros e He.
  apply yields_ret, typed_snoc; [done|]. by eapply manager_facts_typed.
Qed.

Lemma tmpfiles_facts_typed r by_ pr line ty p arg name e : made Kind.Tmpfiles name e -> typed (tmpfiles_facts r by_ pr line ty p arg e).
Proof.
  intros [Hk _ _ _ _ _ _]. unfold tmpfiles_facts. cbv zeta. assert (T : forall b e fl, typed e -> typed (flag_if b e fl)).
  { intros [|] x fl Hx; [by apply typed_flag|done]. }
  apply T. unfold typed. destruct by_, (bool_decide (arg = [])); cbn [Entry.note set_raw set_enabled set_principal set_trigger e_kind e_trigger e_enabled];
    rewrite Hk; (split; [done|set_solver]).
Qed.
Lemma tmpfiles_file_typed p by_ pr out : Forall typed out -> yields (Forall typed) (tmpfiles_file p by_ pr out).
Proof.
  intros Ho. unfold tmpfiles_file. apply yields_bind_any. intros [b|]; [|by apply yields_ret].
  eapply (yields_bind (fun st => Forall typed (snd st))); [|intros st Hst; by apply yields_ret]. apply yields_fold; [done|].
  intros [used out'] line _ Ho'. unfold tmpfiles_step. cbv zeta. destruct (tmpfiles_line (trim_ascii line)) as [[[ty q] arg]|]; [|by apply yields_ret].
  destruct (numbered _ _) as [name used']. eapply yields_bind; [apply entry_made|]. intros e He. apply yields_bind_any. intros r.
  apply yields_ret. cbn [snd]. apply typed_snoc; [done|]. by eapply tmpfiles_facts_typed.
Qed.
Lemma tmpfiles_typed : yields (Forall typed) tmpfiles.
Proof.
  unfold tmpfiles. apply yields_bind_any. intros fs. eapply (yields_bind (Forall typed)).
  { apply yields_fold; [by constructor|]. intros out x _ Ho. by apply tmpfiles_file_typed. }
  intros out Ho. apply yields_bind_any. intros fs'. eapply (yields_bind (Forall typed)).
  { apply yields_fold; [done|]. intros out' x _ Ho'. by apply tmpfiles_file_typed. }
  intros out' Ho'. apply yields_bind_any. intros users.
  eapply (yields_bind (fun st => Forall typed (snd st))); [|intros st Hst; by apply yields_ret]. apply yields_fold; [done|].
  intros [walked o] [who d] _ Hoo. unfold home_tmpfiles. cbn [snd] in Hoo. destruct (pm_mem walked d); [by apply yields_ret|].
  apply yields_bind_any. intros ents. eapply (yields_bind (Forall typed)); [|intros o' Hoo'; by apply yields_ret].
  apply yields_fold; [done|]. intros o' ent _ Hoo'. by apply tmpfiles_file_typed.
Qed.

Lemma preset_typed r scope by_ dec_ line p name e : made Kind.SystemdPreset name e -> typed (preset_facts r scope by_ dec_ line p e).
Proof.
  intros [Hk _ _ _ _ _ _]. unfold preset_facts. cbv zeta. unfold typed.
  set (x := if bool_decide (is_Some by_) || _ then _ else _). assert (Hx : x ∈ [Enablement.Enabled; Enablement.Disabled]) by (unfold x; case_match; set_solver).
  destruct dec_, by_, (bool_decide (pl_instances p = [])); cbn [Entry.note set_raw set_enabled set_trigger e_kind e_trigger e_enabled]; rewrite Hk; by split.
Qed.
Lemma presets_typed dirs units scope : yields (Forall typed) (presets dirs units scope).
Proof.
  unfold presets. apply yields_bind_any. intros fs.
  eapply (yields_bind (fun st => Forall typed (snd st))); [|intros st Hst; by apply yields_ret]. apply yields_fold; [by constructor|].
  intros [dec_ out] x _ Ho. unfold preset_file. cbn [snd] in Ho. apply yields_bind_any. intros [b|]; [|by apply yields_ret].
  eapply (yields_bind (fun st => Forall typed (ps_out st))); [|intros st Hst; by apply yields_ret]. apply yields_fold; [done|].
  intros [d2 used out2] line _ Ho2. unfold preset_step. cbv zeta. cbn [ps_out] in Ho2.
  destruct (read_preset_line (trim_ascii line)) as [p|]; [|by apply yields_ret]. apply yields_bind_any. intros r.
  destruct (negb _); [by apply yields_ret|]. destruct (numbered _ _) as [name used']. eapply yields_bind; [apply entry_made|]. intros e He.
  apply (yields_bind typed).
  - intros cx. unfold lift. eapply (returns_bind _ typed); [|by intros]. unfold preset_target.
    pose proof (preset_typed (cx_root cx) scope (snd x) (decided_by d2 (pl_pattern p)) (trim_ascii line) p name e He) as Ht.
    destruct (is_pattern (pl_pattern p)); [exact Ht|]. eapply returns_bind; [apply returns_true|]. intros [q|] _; [|exact Ht].
    unfold returns. revert Ht. unfold typed. unfold preset_facts. cbv zeta. cbn [set_target_path e_kind e_trigger e_enabled].
    destruct (decided_by d2 (pl_pattern p)), (snd x), (bool_decide (pl_instances p = [])); cbn [Entry.note set_raw set_enabled set_trigger e_kind e_trigger e_enabled];
      by rewrite (md_kind _ _ _ He).
  - intros e' He'. apply yields_ret. cbn [ps_out]. apply typed_snoc; [done|]. destruct (negb _); [by apply typed_flag|done].
Qed.
End typing.


(** ** Which preset decides *)

(** A line with the file it is in and what replaces that file. *)
Record told_line := mk_told_line { tl_replaced : option path; tl_line : preset_line }.
Definition decides (pattern : bytes) (x : told_line) : bool :=
  bool_decide (tl_replaced x = None) && glob_match (pl_pattern (tl_line x)) pattern.
(** What an enable line comes to after the lines before it. *)
Definition comes_to (before : list told_line) (x : told_line) : enablement :=
  let p := pl_pattern (tl_line x) in
  if bool_decide (is_Some (tl_replaced x)) || (negb (is_pattern p) && existsb (decides p) before)
  then Enablement.Disabled else Enablement.Enabled.
Fixpoint preset_tells (before l : list told_line) : list (enablement * bytes) :=
  match l with
  | [] => []
  | x :: l =>
      (if bool_decide (pl_directive (tl_line x) = ENABLE) then [(comes_to before x, from_utf8_lossy (pl_pattern (tl_line x)))] else [])
      ++ preset_tells (before ++ [x]) l
  end.
Definition lines_of (by_ : option path) (b : bytes) : list told_line :=
  omap (fun raw => mk_told_line by_ <$> read_preset_line (trim_ascii raw)) (split_on (is_byte newline) b).
Definition file_lines (h : snapshot) (r : root) (x : path * option path) : list told_line :=
  match file_text h r (fst x) with Some b => lines_of (snd x) b | None => [] end.

Lemma preset_tells_app before l1 l2 : preset_tells before (l1 ++ l2) = preset_tells before l1 ++ preset_tells (before ++ l1) l2.
Proof.
  revert before. induction l1 as [|x l1 IH]; intros before; cbn [app preset_tells]; [by rewrite app_nil_r|].
  rewrite IH, <- !app_assoc. done.
Qed.

Definition preset_told (e : Entry.entry) : enablement * bytes := (e_enabled e, default [] (e_raw e !! #"pattern")).
Definition standing_patterns (l : list told_line) : list bytes := (fun x => pl_pattern (tl_line x)) <$> List.filter (fun x => bool_decide (tl_replaced x = None)) l.
Record preset_ok (before : list told_line) (decided : decisions) (out : list Entry.entry) : Prop := mk_preset_ok {
  po_decided : decided.*1 = standing_patterns before;
  po_out : preset_told <$> out = preset_tells [] before
}.

Lemma decided_by_before decided before p :
  decided.*1 = standing_patterns before ->
  is_Some (decided_by decided p) <-> negb (is_pattern p) && existsb (decides p) before = true.
Proof.
  intros Hd. unfold decided_by. destruct (is_pattern p); cbn [negb andb]; [split; [by intros [? [=]]|done]|].
  rewrite fmap_is_Some. assert (He : existsb (fun q => glob_match q p) decided.*1 = existsb (decides p) before).
  { rewrite Hd. unfold standing_patterns. clear. induction before as [|x l IH]; [done|]. cbn [List.filter existsb]. unfold decides at 1.
    destruct (bool_decide (tl_replaced x = None)); cbn [fmap list_fmap existsb andb orb]; by rewrite IH. }
  rewrite <- He. clear. induction decided as [|pa l IH]; cbn [find fmap list_fmap existsb]; [split; [by intros [? [=]]|done]|].
  destruct (glob_match pa.1 p); cbn [orb]; [naive_solver|exact IH].
Qed.

Section presets.
Context `{Strerror} `{Blake3}.

Lemma stays_preset_step units scope p by_ st raw : stays (preset_step units scope p by_ st raw).
Proof.
  destruct st as [d u o]. unfold preset_step. cbv zeta. destruct (read_preset_line _); [|apply stays_ret].
  apply stays_bind; [apply stays_root|]. intros r. destruct (negb _); [apply stays_ret|]. destruct (numbered _ _).
  apply stays_bind; [apply stays_entry|]. intros e. apply stays_bind; [apply stays_lift|]. intros e'. apply stays_ret.
Qed.
Lemma stays_preset_file units scope st x : stays (preset_file units scope st x).
Proof.
  unfold preset_file. apply stays_bind; [apply stays_read|]. intros [b|]; [|apply stays_ret].
  apply stays_bind; [apply stays_fold; intros; apply stays_preset_step|]. intros. apply stays_ret.
Qed.

Lemma preset_facts_told r scope by_ dec_ line p name e :
  made Kind.SystemdPreset name e ->
  preset_told (preset_facts r scope by_ dec_ line p e) =
  (if bool_decide (is_Some by_) || bool_decide (is_Some dec_) then Enablement.Disabled else Enablement.Enabled, from_utf8_lossy (pl_pattern p)).
Proof.
  intros He. unfold preset_facts. cbv zeta. unfold preset_told. f_equal; [by repeat case_match|].
  assert (T : forall e k v, k <> #"pattern" -> e_raw (Entry.note e k v) !! #"pattern" = e_raw e !! #"pattern").
  { intros x k v Hk. cbn. by apply lookup_insert_ne. }
  destruct dec_, by_, (bool_decide (pl_instances p = []));
    repeat rewrite T by done; cbn [Entry.note set_raw e_raw]; by rewrite lookup_insert_eq.
Qed.
Lemma preset_told_flag b e fl : preset_told (flag_if b e fl) = preset_told e.
Proof. destruct b; [|done]. unfold flag_if, Entry.flag. by case_match. Qed.
Lemma preset_target_told h r units p e : preset_told (run h (preset_target r units p e)) = preset_told e.
Proof. unfold preset_target. destruct (is_pattern p); [done|]. rewrite run_bind. cbn [run]. by case_match. Qed.

Lemma value_preset_step h cx units scope p by_ before st raw :
  preset_ok before (ps_decided st) (ps_out st) ->
  let st' := value h cx (preset_step units scope p by_ st raw) in
  preset_ok (before ++ option_list (mk_told_line by_ <$> read_preset_line (trim_ascii raw))) (ps_decided st') (ps_out st').
Proof.
  destruct st as [d u o]. cbn [ps_decided ps_out]. intros [Hd Ho]. cbv zeta. unfold preset_step. cbv zeta.
  destruct (read_preset_line (trim_ascii raw)) as [pl|]; cbn [fmap option_fmap option_map]; [|by rewrite app_nil_r].
  change (option_list (Some (mk_told_line by_ pl))) with [mk_told_line by_ pl]. rewrite value_bind. change (value h cx the_root) with (cx_root cx). change (after h cx the_root) with cx.
  set (d' := match by_ with None => _ | Some _ => d end).
  assert (Hd' : d'.*1 = standing_patterns (before ++ [mk_told_line by_ pl])).
  { unfold d', standing_patterns. rewrite List.filter_app, fmap_app. fold (standing_patterns before). cbn [List.filter tl_replaced].
    destruct by_; cbn [fmap list_fmap]; [by rewrite app_nil_r|]. by rewrite fmap_app, Hd. }
  case_bool_decide as Ee; cbn [negb].
  - destruct (numbered _ _) as [name used]. rewrite !value_bind.
    match goal with |- preset_ok _ (ps_decided (value h ?k (mret ?x))) _ => change (value h k (mret x)) with x end. cbn [ps_decided ps_out].
    split; [done|]. rewrite fmap_app, Ho, preset_tells_app. f_equal. cbn [preset_tells tl_line fmap list_fmap app].
    rewrite bool_decide_true by done. cbn [app]. f_equal. rewrite preset_told_flag, value_lift, preset_target_told.
    erewrite preset_facts_told by (eapply (yields_run _ _ h cx (entry_made _ _ name))). f_equal. unfold comes_to. cbn [tl_line tl_replaced].
    destruct (decided_by_before d before (pl_pattern pl) Hd) as [H1 H2].
    destruct (bool_decide (is_Some (decided_by _ _))) eqn:Eb.
    + apply bool_decide_eq_true in Eb. by rewrite (H1 Eb).
    + apply bool_decide_eq_false in Eb. destruct (negb _ && _) eqn:Ex; [by destruct Eb; apply H2|done].
  - match goal with |- preset_ok _ (ps_decided (value h ?k (mret ?x))) _ => change (value h k (mret x)) with x end. cbn [ps_decided ps_out].
    split; [done|]. rewrite preset_tells_app. cbn [preset_tells tl_line]. rewrite bool_decide_false by done. by rewrite !app_nil_r.
Qed.
Lemma value_preset_file h cx units scope before st x :
  preset_ok before (fst st) (snd st) ->
  let st' := value h cx (preset_file units scope st x) in
  preset_ok (before ++ file_lines h (cx_root cx) x) (fst st') (snd st').
Proof.
  intros Hst. cbv zeta. unfold preset_file. rewrite value_bind. assert (value h cx (read (fst x)) = file_text h (cx_root cx) (fst x)) as ->
    by apply value_read_capped.
  unfold file_lines. destruct (file_text h (cx_root cx) (fst x)) as [b|]; [|by rewrite app_nil_r]. rewrite value_bind.
  match goal with |- preset_ok _ (fst (value h ?k (mret ?y))) _ => change (value h k (mret y)) with y end. cbn [fst snd].
  unfold lines_of.
  apply (value_scan_inv (fun seen s => preset_ok (before ++ omap (fun raw => mk_told_line (snd x) <$> read_preset_line (trim_ascii raw)) seen)
    (ps_decided s) (ps_out s))).
  - intros. apply stays_preset_step.
  - by rewrite app_nil_r.
  - intros seen s raw cx' _ Hs. rewrite omap_app, app_assoc.
    pose proof (value_preset_step h cx' units scope (fst x) (snd x) _ s raw Hs) as Hn. cbv zeta in Hn.
    replace (omap _ [raw]) with (option_list (mk_told_line (snd x) <$> read_preset_line (trim_ascii raw)));
      [exact Hn|]. cbn [omap list_omap]. by destruct (read_preset_line _).
Qed.
End presets.

(** On one reading, the presets tell of each enable line, in the order of
    the files and their lines, that it is on, unless its file is replaced, or
    it names one unit and an earlier line of a file that is read, whatever it
    says, has a pattern that matches that unit. *)
Theorem presets_first_match `{Strerror} `{Blake3} (h : snapshot) (cx : ctx) dirs units scope :
  preset_told <$> value h cx (presets dirs units scope) =
  preset_tells [] (value h cx (replaceable dirs #".preset") ≫= file_lines h (cx_root cx)).
Proof.
  unfold presets. rewrite !value_bind.
  match goal with |- preset_told <$> value h ?k (mret ?y) = _ => change (value h k (mret y)) with y end.
  set (cx1 := after h cx _). set (fs := value h cx _).
  assert (Hr : cx_root cx1 = cx_root cx).
  { apply after_root. unfold replaceable. apply stays_bind; [|intros; apply stays_ret]. apply stays_fold. intros [seen st] d.
    unfold find_in_dir. cbn [fst snd]. apply stays_bind; [apply stays_first_visit|]. intros [[id|] seen']; [|apply stays_ret].
    apply stays_bind; [apply stays_dir|]. intros. apply stays_ret. }
  eapply (po_out _ (fst _)).
  apply (value_scan_inv (fun seen st => preset_ok (seen ≫= file_lines h (cx_root cx)) (fst st) (snd st))).
  - intros. apply stays_preset_file.
  - done.
  - intros seen st x cx' [Hc _] Hst. rewrite bind_app. cbn [mbind list_bind]. rewrite app_nil_r, <- Hr, <- Hc. apply value_preset_file.
    by rewrite Hc, Hr.
Qed.

(** ** Enabled, and by whom *)

(** A link of an administrator that enables a unit: under its name, or under
    its template's where it is an instance. *)
Definition enabled_by (h : snapshot) (r : root) (users : list user) (f : Found) : Prop :=
  exists n at_ c q, searched h r users (fu_scope f) at_ c /\ sd_admin at_ = true /\ link_source h r c n true q /\
    (n = fu_unit f \/ exists i, unit_suffix (fu_unit f) ≫= template_of (fu_unit f) = Some (n, i) /\ i <> []).

Lemma enabling_enabled_by h r users w f :
  walk_ok h r users w -> enabling_link (enabling_links w f (unit_suffix (fu_unit f))) -> enabled_by h r users f.
Proof.
  intros Hw (l & q & El & Hq). unfold enabling_links in El.
  destruct (links_of (w_links w) (fu_scope f) (fu_unit f)) as [l'|] eqn:E1.
  - injection El as ->. destruct (wk_links _ _ _ _ Hw _ _ _ _ _ E1 Hq) as (at_ & c & Hs & Ha & Hl). exists (fu_unit f), at_, c, q. eauto.
  - destruct (unit_suffix (fu_unit f) ≫= template_of (fu_unit f)) as [[t i]|] eqn:Et; cbn [mbind option_bind] in El; [|done].
    case_bool_decide as Hi; [done|]. destruct (wk_links _ _ _ _ Hw _ _ _ _ _ El Hq) as (at_ & c & Hs & Ha & Hl).
    exists t, at_, c, q. split; [done|]. split; [done|]. split; [done|]. right. by exists i.
Qed.

Section enablement.
Context `{Strerror} `{Blake3}.

Lemma stays_unit_entry w f : stays (unit_entry w f).
Proof.
  unfold unit_entry. cbv zeta. apply stays_bind; [apply stays_entry|]. intros e. apply stays_bind; [apply stays_users|]. intros us.
  apply stays_bind; [apply stays_lift|]. intros [empty masked]. apply stays_bind; [destruct masked; [apply stays_ret|apply stays_facts]|].
  intros fs. apply stays_bind; [apply stays_fill|]. intros e'. apply stays_ret.
Qed.
Lemma value_map {A B} (Q : A -> B -> Prop) h cx (f : A -> coll B) l :
  (forall a, stays (f a)) -> (forall a cx', a ∈ l -> same_place cx cx' -> Q a (value h cx' (f a))) ->
  Forall2 Q l (value h cx (map_coll f l)).
Proof.
  intros Hs Hf. assert (G : forall cx', same_place cx cx' -> Forall2 Q l (value h cx' (map_coll f l))); [|by apply G].
  induction l as [|a l IH]; intros cx' Hc; [constructor|]. cbn [map_coll]. rewrite !value_bind.
  match goal with |- Forall2 _ _ (value h ?k (mret ?y)) => change (value h k (mret y)) with y end. constructor.
  - apply Hf; [by left|done].
  - apply IH; [intros a' cx'' Ha; apply Hf; by right|]. destruct (after_same h cx' (f a) (Hs a)), Hc. split; congruence.
Qed.

End enablement.

(** A pattern with brackets matches nothing it is meant to: a preset that
    disables [[s]shd.service] decides nothing about sshd.service, and a later
    line that enables it is reported on. *)
Theorem preset_brackets_unmatched (a : bytes) (r : root) (e : Entry.entry) :
  is_pattern #"[s]shd.service" = true /\
  decided_by [(#"[s]shd.service", a)] #"sshd.service" = None /\
  e_enabled (preset_facts r #"system" None (decided_by [(#"[s]shd.service", a)] #"sshd.service") #"enable sshd.service"
    (mk_preset_line ENABLE #"sshd.service" []) e) = Enablement.Enabled.
Proof.
  assert (E : decided_by [(#"[s]shd.service", a)] #"sshd.service" = None).
  { unfold decided_by. assert (is_pattern #"sshd.service" = false) as -> by by vm_compute. cbn [find fst].
    assert (glob_match #"[s]shd.service" #"sshd.service" = false) as -> by by vm_compute. done. }
  split; [by vm_compute|]. split; [exact E|]. by rewrite E.
Qed.

(** ** A host *)

Module SystemdDemo.
#[local] Instance demo_blake3 : Blake3 := fun x => x.
#[local] Instance demo_strerror : Strerror := fun _ => #"error".
Definition text (ls : list bytes) : bytes := join [newline] ls ++ [newline].
Definition vendor : bytes :=
  text [ #"[Unit]"; #"Description=v"; #"[Service]"; #"ExecStart=/usr/sbin/sshd -D"; #"[Install]"; #"WantedBy=multi-user.target"].
Definition d (p : path) : path * Tree.node := (p, Tree.Dir 0 0x1ED).
Definition f (p : path) (b : bytes) : path * Tree.node := (p, Tree.File 0 0x1A4 b).
Definition x (p : path) (b : bytes) : path * Tree.node := (p, Tree.File 0 0x1ED b).
Definition l (p t : path) : path * Tree.node := (p, Tree.Link 0 t).
Definition tree : Tree.tree :=
  [d #"etc"; d #"etc/systemd"; d #"etc/systemd/system"; d #"etc/systemd/system/multi-user.target.wants";
   d #"etc/systemd/system-preset"; d #"etc/tmpfiles.d"; d #"usr"; d #"usr/lib"; d #"usr/lib/systemd"; d #"usr/lib/systemd/system";
   d #"usr/lib/systemd/system-sleep"; d #"etc/systemd/system/ssh.service.d"; d #"lib"; d #"lib/systemd"; d #"lib/systemd/system";
   d #"usr/lib/systemd/system-preset"; f #"usr/lib/systemd/libsystemd-shared-255.so" [];
   f #"etc/systemd/system/linked.service" vendor; f #"etc/systemd/system/present.service" vendor;
   f #"etc/systemd/system/plumbing.service"
     (text [ #"[Service]"; #"ExecStart=/bin/true"; #"ExecStart="; #"ExecStart=-/bin/a \"; #"# c"; #"  b"]);
   l #"etc/systemd/system/multi-user.target.wants/linked.service" #"../linked.service";
   l #"etc/systemd/system/multi-user.target.wants/getty@tty1.service" #"/usr/lib/systemd/system/getty@.service";
   f #"usr/lib/systemd/system/getty@.service" vendor; f #"usr/lib/systemd/system/linked.service" vendor;
   f #"lib/systemd/system/linked.service" vendor; f #"usr/lib/systemd/system/ssh.service" vendor;
   l #"etc/systemd/system/sshd.service" #"/usr/lib/systemd/system/ssh.service";
   l #"etc/systemd/system/gone.service" #"/dev/null"; f #"etc/systemd/system/empty.service" [];
   f #"etc/systemd/system/ssh.service.d/10.conf"
     (text [ #"[Service]"; #"ExecStartPre=/opt/pwn/stage2"; #"Environment='LD_PRELOAD=/dev/shm/x.so' TZ=UTC"]);
   f #"usr/lib/systemd/system/quotaon.service"
     (text [ #"[Unit]"; #"ConditionPathExists=/sbin/quotaon"; #"[Service]"; #"ExecStart=/sbin/quotaon -aug"]);
   x #"usr/lib/systemd/system-sleep/50" #"#!/bin/sh"; f #"usr/lib/systemd/system-sleep/inert" #"#!/bin/sh";
   x #"usr/lib/systemd/system-sleep/a.dpkg-old" #"#!/bin/sh";
   f #"etc/systemd/system.conf" (text [ #"[Manager]"; #"DefaultEnvironment='A=1' B=2"]);
   f #"usr/lib/systemd/system.conf" (text [ #"[Manager]"; #"DefaultEnvironment=V=1"]);
   f #"etc/tmpfiles.d/e.conf" (text [ #"w /proc/x - - - - |/tmp/x %p"; #"d /run/x"; #"f^ /root/k 0600 root root - c"; #"f /v 0 r r -"]);
   f #"etc/systemd/system-preset/10.preset" (text [ #"enable linked.service"; #"disable sshd.service"]);
   f #"usr/lib/systemd/system-preset/90.preset"
     (text [ #"# v"; #"enable sshd.service"; #"enable getty@.service tty1 tty2"; #"enable foo-*.service"; #"disable *"])].
Definition cx : ctx := mk_ctx Tree.offline [] [] [] [].
Definition kernel : snapshot := Tree.kernel tree.
Definition seen : list (bytes * enablement * option bytes) :=
  (fun e => (e_name e, e_enabled e, e_command e)) <$> value kernel cx collect.
Definition units : list Found := w_units (fst (value kernel cx walk)).
Definition unit_entries : list Entry.entry := value kernel cx (map_coll (unit_entry (fst (value kernel cx walk))) units).
End SystemdDemo.

Example systemd_host :
  SystemdDemo.seen =
  [(#"empty.service", Enablement.Masked, None); (#"gone.service", Enablement.Masked, None);
   (#"linked.service", Enablement.Enabled, Some #"/usr/sbin/sshd -D"); (#"plumbing.service", Enablement.Static, Some #"-/bin/a b");
   (#"present.service", Enablement.Disabled, Some #"/usr/sbin/sshd -D");
   (#"getty@.service", Enablement.Enabled, Some #"/usr/sbin/sshd -D");
   (#"linked.service", Enablement.Enabled, Some #"/usr/sbin/sshd -D");
   (#"quotaon.service", Enablement.Static, Some #"/sbin/quotaon -aug");
   (#"ssh.service", Enablement.Enabled, Some #"/usr/sbin/sshd -D");
   (#"linked.service", Enablement.Enabled, Some #"/usr/sbin/sshd -D");
   (#"ssh.service.d/10.conf", Enablement.NotApplicable, Some #"/opt/pwn/stage2");
   (#"getty@tty1.service", Enablement.Enabled, Some #"/usr/sbin/sshd -D");
   (#"sleep:50", Enablement.Enabled, Some #"/mnt/usr/lib/systemd/system-sleep/50");
   (#"sleep:inert", Enablement.Disabled, Some #"/mnt/usr/lib/systemd/system-sleep/inert");
   (#"DefaultEnvironment:'A=1' B=2", Enablement.Enabled, None); (#"DefaultEnvironment:V=1", Enablement.Disabled, None);
   (#"w /proc/x", Enablement.Enabled, None); (#"f^ /root/k", Enablement.Enabled, None);
   (#"enable linked.service", Enablement.Enabled, None); (#"enable sshd.service", Enablement.Disabled, None);
   (#"enable getty@.service", Enablement.Enabled, None); (#"enable foo-*.service", Enablement.Enabled, None)].
Proof. by vm_compute. Qed.

(** The link to ssh.service is the sixth of the units. *)
Lemma no_unit_lost_witness :
  let out' := fold_aliases (run SystemdDemo.kernel (find_aliases (cx_root SystemdDemo.cx) SystemdDemo.units)) SystemdDemo.unit_entries in
  exists e, SystemdDemo.unit_entries !! 5 = Some e /\
  ((exists e', e' ∈ out' /\ but_aliases e e') \/
   (exists j g e', alias_pair SystemdDemo.kernel (cx_root SystemdDemo.cx) SystemdDemo.units 5 j /\
     SystemdDemo.unit_entries !! j = Some g /\ e' ∈ out' /\ but_aliases g e' /\ lists_alias e' (from_utf8_lossy (e_source e)))).
Proof.
  destruct (SystemdDemo.unit_entries !! 5) as [e|] eqn:E; [|vm_compute in E; discriminate E].
  exists e. split; [reflexivity|].
  apply (no_unit_lost SystemdDemo.kernel (cx_root SystemdDemo.cx) SystemdDemo.units SystemdDemo.unit_entries 5 e); [vm_compute; reflexivity|exact E].
Defined.
