(* ===== verification/Commands.v ===== *)
(** [src/enrich.rs], shell text: the commands a text holds, the words of each,
    the programs they start through wrappers and nested text, and the
    environment they hand on. tree-sitter's bash grammar is a parameter. *)

From S2P Require Import Prelude Slices Utf8 Paths.

(** ** What the grammar says of a text *)

Inductive node := Node (kind : bytes) (named : bool) (start_ end_ : nat) (children : list node).
Definition n_kind (n : node) : bytes := let 'Node k _ _ _ _ := n in k.
Definition n_named (n : node) : bool := let 'Node _ b _ _ _ := n in b.
Definition n_children (n : node) : list node := let 'Node _ _ _ _ cs := n in cs.

(** The tree of a text and whether it has an error; [None] where the parser
    gives none. *)
Class ShellGrammar := parse_shell : bytes -> option (node * bool).

Definition text_of (src : bytes) (n : node) : bytes :=
  let 'Node _ _ s e _ := n in from_utf8_lossy (take (e - s) (drop s src)).

Definition backslash : byte := x5c.
(** [text] with each backslash before a character [escapes] accepts removed;
    the characters asked about are ASCII, or any. *)
Fixpoint unescaped (escapes : byte -> bool) (text : bytes) : bytes :=
  match text with
  | [] => []
  | c :: rest =>
      match rest with
      | e :: rest' =>
          if bool_decide (c = backslash) && escapes e then e :: unescaped escapes rest' else c :: unescaped escapes rest
      | [] => [c]
      end
  end.
Definition in_string (e : byte) : bool := bool_decide (e ∈ #"$`" ++ [x22; backslash; x0a]).

Definition UNKNOWABLE : bytes := #"$(:)".
Definition unquoted_by (prefix suffix text : bytes) : bytes :=
  default text (t ← strip_prefix prefix text; strip_suffix suffix t).
Definition quote : bytes := [x22].
Definition is_substitution (k : bytes) : bool :=
  bool_decide (k = #"command_substitution") || bool_decide (k = #"process_substitution").

(** A word as the shell hands it on. *)
Fixpoint unquoted (src : bytes) (n : node) : bytes :=
  let text := text_of src n in
  let 'Node k _ _ _ cs := n in
  if is_substitution k then UNKNOWABLE
  else if bool_decide (k = #"string") then
    mjoin (List.map (fun c =>
      if bool_decide (n_kind c = quote) then []
      else if bool_decide (n_kind c = #"string_content") then unescaped in_string (text_of src c)
      else unquoted src c) cs)
  else if bool_decide (k = #"raw_string") then unquoted_by #"'" #"'" text
  else if bool_decide (k = #"ansi_c_string") then unquoted_by #"$'" #"'" text
  else if bool_decide (k = #"concatenation") then mjoin (List.map (unquoted src) cs)
  else if bool_decide (k = #"word") then unescaped (fun _ => true) text
  else text.

Definition named_children (n : node) : list node := List.filter n_named (n_children n).
Definition command_word (src : bytes) (c : node) : bytes :=
  if bool_decide (n_kind c = #"command_name") then
    match named_children c with w :: _ => unquoted src w | [] => text_of src c end
  else unquoted src c.
Definition command_words (src : bytes) (n : node) : list bytes :=
  command_word src <$> List.filter (fun c => negb (ends_with #"_redirect" (n_kind c))) (named_children n).

Definition MAX_NESTING : nat := 16.
Definition unknown : list bytes := [ #"$("].

Fixpoint node_size (n : node) : nat := S (sum_list (List.map node_size (n_children n))).
Definition stack_size (stack : list (node * nat)) : nat := sum_list_with (node_size ∘ fst) stack.

(** The walk is iterative: the nodes still to come, the next one first, each
    with its depth. *)
Fixpoint walk (fuel : nat) (src : bytes) (stack : list (node * nat)) (out : list (list bytes)) : list (list bytes) :=
  match fuel with
  | O => out
  | S fuel =>
      match stack with
      | [] => out
      | (n, depth) :: stack =>
          let out := if bool_decide (n_kind n = #"command") then out ++ [command_words src n] else out in
          if is_substitution (n_kind n) then
            if MAX_NESTING <=? depth then walk fuel src stack (out ++ [unknown])
            else walk fuel src (((fun c => (c, S depth)) <$> n_children n) ++ stack) out
          else walk fuel src (((fun c => (c, depth)) <$> n_children n) ++ stack) out
      end
  end.

Section commands.
Context `{ShellGrammar}.

Definition commands (text : bytes) (depth : nat) : list (list bytes) :=
  match parse_shell text with
  | None => [unknown]
  | Some (t, has_error) =>
      walk (S (node_size t)) text [(t, depth)] (if has_error : bool then [unknown] else [])
  end.

(** ** Wrappers *)

Record wrapper_t := mk_wrapper { wr_name : bytes; wr_valued : list bytes; wr_operands : nat }.
Definition WRAPPERS : list wrapper_t :=
  [mk_wrapper #"env" [ #"-u"; #"-C"; #"--unset"; #"--chdir"] 0; mk_wrapper #"nice" [ #"-n"; #"--adjustment"] 0;
   mk_wrapper #"nohup" [] 0; mk_wrapper #"setsid" [] 0; mk_wrapper #"stdbuf" [ #"-i"; #"-o"; #"-e"] 0;
   mk_wrapper #"ionice" [ #"-c"; #"-n"; #"-p"; #"-P"; #"-u"; #"--class"; #"--classdata"] 0;
   mk_wrapper #"sudo" [ #"-u"; #"-g"; #"-C"; #"-D"; #"-h"; #"-p"; #"-r"; #"-t"; #"-U"; #"-T"; #"--user"; #"--group"] 0;
   mk_wrapper #"command" [] 0; mk_wrapper #"tcpd" [] 0; mk_wrapper #"time" [ #"-f"; #"-o"; #"--format"; #"--output"] 0;
   mk_wrapper #"xargs" [ #"-a"; #"-d"; #"-E"; #"-I"; #"-L"; #"-n"; #"-P"; #"-s"; #"--arg-file"; #"--delimiter";
                         #"--max-args"; #"--max-procs"] 0;
   mk_wrapper #"chrt" [] 1; mk_wrapper #"timeout" [ #"-s"; #"-k"; #"--signal"; #"--kill-after"] 1;
   mk_wrapper #"flock" [ #"-w"; #"-E"; #"--timeout"; #"--conflict-exit-code"] 1;
   mk_wrapper #"sh" [ #"-o"; #"-O"] 0; mk_wrapper #"bash" [ #"-o"; #"-O"] 0; mk_wrapper #"dash" [ #"-o"] 0;
   mk_wrapper #"zsh" [ #"-o"] 0; mk_wrapper #"exec" [ #"-a"] 0; mk_wrapper #"su" [] 0; mk_wrapper #"runuser" [] 0;
   mk_wrapper #"busybox" [] 0].
Definition wrapper (name : bytes) : option wrapper_t := find (fun w => bool_decide (wr_name w = name)) WRAPPERS.

Definition NO_PROGRAM : list bytes :=
  [ #"cd"; #"export"; #"exit"; #"set"; #"unset"; #"local"; #"shift"; #"return"; #"read"; #"wait"; #"ulimit"; #"umask";
    #"true"; #"false"; #":"; #"echo"; #"printf"; #"test"; #"["; #"[["; #"readonly"; #"declare"; #"alias"; #"break";
    #"continue"; #"fi"; #"done"; #"esac"; #"}"; #"then"; #"else"; #"builtin"].
Definition LEADING_KEYWORDS : list bytes :=
  [ #"if"; #"elif"; #"while"; #"until"; #"do"; #"!"; #"{"; #"then"; #"else"].
Definition SHELLS : list bytes := [ #"sh"; #"bash"; #"dash"; #"zsh"].
Definition SWITCH_USER : list bytes := [ #"su"; #"runuser"].

Inductive unwrapped := Argv (words : list bytes) | Text (text : bytes) | Nothing.
Definition rest_as_argv (rest : list bytes) : unwrapped := match rest with [] => Nothing | _ => Argv rest end.
Definition next_as_text (rest : list bytes) : unwrapped := match rest with t :: _ => Text t | [] => Nothing end.
(** An option with its value left behind. *)
Definition is_option (a : bytes) : bool := starts_with #"-" a.
Definition is_cluster_with_c (a : bytes) : bool :=
  is_option a && negb (starts_with #"--" a) && existsb (is_byte "c") a.

Definition SU_VALUED : list bytes :=
  [ #"-s"; #"--shell"; #"-g"; #"--group"; #"-G"; #"--supp-group"; #"-w"; #"--whitelist-environment"; #"-P"].
Fixpoint unwrap_switch_user (name : bytes) (user_seen : bool) (args : list bytes) : unwrapped :=
  match args with
  | [] => Nothing
  | a :: rest =>
      if bool_decide (a = #"--") then if user_seen && bool_decide (name = #"runuser") then rest_as_argv rest else Nothing
      else if bool_decide (a ∈ [ #"-c"; #"--command"]) then next_as_text rest
      else if bool_decide (a ∈ [ #"-u"; #"--user"]) && bool_decide (name = #"runuser") then
        let after := drop 1 rest in
        rest_as_argv (if bool_decide (head after = Some #"--") then drop 1 after else after)
      else if bool_decide (a ∈ SU_VALUED) then
        match rest with _ :: rest => unwrap_switch_user name user_seen rest | [] => Nothing end
      else match strip_prefix #"--command=" a with
           | Some t => Text t
           | None =>
               if is_cluster_with_c a && (1 <? length a) then next_as_text rest
               else if is_option a then unwrap_switch_user name user_seen rest
               else unwrap_switch_user name true rest
           end
  end.

(** [env -S]: the text, and the arguments after it. *)
Definition split_string (a : bytes) (rest : list bytes) : option (bytes * list bytes) :=
  if bool_decide (a ∈ [ #"-S"; #"--split-string"]) then match rest with t :: rest => Some (t, rest) | [] => None end
  else match strip_prefix #"--split-string=" a with
       | Some t => Some (t, rest)
       | None => match strip_prefix #"-S" a with Some (c :: t) => Some (c :: t, rest) | _ => None end
       end.

Fixpoint unwrap_from (name : bytes) (valued : list bytes) (depth operands : nat) (args : list bytes) : unwrapped :=
  match args with
  | [] => Nothing
  | a :: rest =>
      if bool_decide (a = #"--") then rest_as_argv rest
      else if bool_decide (a ∈ valued) then
        match rest with _ :: rest => unwrap_from name valued depth operands rest | [] => Nothing end
      else if (bool_decide (name ∈ SHELLS) || bool_decide (name = #"flock")) && is_cluster_with_c a then next_as_text rest
      else match (if bool_decide (name = #"env") then split_string a rest else None) with
           | Some (text, rest) => Argv (default [] (head (commands text depth)) ++ rest)
           | None =>
               if is_option a && (1 <? length a) then unwrap_from name valued depth operands rest
               else if bool_decide (name ∈ [ #"env"; #"sudo"]) && existsb (is_byte "=") a then
                 unwrap_from name valued depth operands rest
               else match operands with
                    | S operands => unwrap_from name valued depth operands rest
                    | O => Argv args
                    end
           end
  end.
Definition unwrap (w : wrapper_t) (args : list bytes) (depth : nat) : unwrapped :=
  if bool_decide (wr_name w ∈ SWITCH_USER) then unwrap_switch_user (wr_name w) false args
  else unwrap_from (wr_name w) (wr_valued w) depth (wr_operands w) args.

(** ** The programs of a command *)

Record shell_run := mk_run { rn_by : list bytes; rn_program : option bytes; rn_words : list bytes }.

Definition name_char (b : byte) : bool := is_ascii_alphanumeric b || bool_decide (b = "_"%byte).
Definition is_assignment (w : bytes) : bool :=
  match split_once #"=" w with Some (n, _) => negb (bool_decide (n = [])) && forallb name_char n | None => false end.
Definition leads (w : bytes) : bool := bool_decide (w ∈ LEADING_KEYWORDS) || is_assignment w.
Definition base_name (word : bytes) : bytes := default [] (from_utf8_lossy <$> file_name word).
Definition knowable (word : bytes) : option bytes :=
  if existsb (fun b => bool_decide (b ∈ #"$`")) word then None else Some word.
Definition trap_action (args : list bytes) : option bytes :=
  match drop_while (fun a => bool_decide (a ∈ [ #"-p"; #"-l"; #"--"])) args with
  | action :: _ :: _ => if bool_decide (action ∈ [ #"-"; []]) then None else Some action
  | _ => None
  end.

(** [levels] is how many levels may still be entered; the depth is [17 - levels]. *)
Definition depth_of (levels : nat) : nat := S MAX_NESTING - levels.
Fixpoint programs (levels : nat) (by_ words : list bytes) : list shell_run :=
  match levels with
  | O => [mk_run by_ None (take 1 words)]
  | S levels =>
      let words := drop_while leads words in
      match words with
      | [] => []
      | word :: args =>
          if bool_decide (word ∈ NO_PROGRAM) then []
          else if bool_decide (word ∈ [ #"."; #"source"]) then
            match args with script :: _ => [mk_run by_ (Some script) words] | [] => [] end
          else if bool_decide (word = #"eval") then
            commands (join #" " args) (depth_of levels) ≫= programs levels by_
          else if bool_decide (word = #"trap") then
            match trap_action args with
            | Some action => commands action (depth_of levels) ≫= programs levels (by_ ++ [ #"trap"])
            | None => []
            end
          else
            match wrapper (base_name word) with
            | None => [mk_run by_ (knowable word) words]
            | Some w =>
                let next := by_ ++ [wr_name w] in
                match unwrap w args (depth_of levels) with
                | Argv argv => programs levels next argv
                | Text text =>
                    match commands text (depth_of levels) ≫= programs levels next with
                    | [] => [mk_run by_ (Some word) words]
                    | runs => runs
                    end
                | Nothing =>
                    if bool_decide (wr_name w ∈ SHELLS) || bool_decide (wr_name w ∈ SWITCH_USER) then
                      [mk_run by_ (Some word) words]
                    else [mk_run next None words]
                end
            end
      end
  end.
Definition LEVELS : nat := S MAX_NESTING.

(** ** The environment a command hands on *)

Definition assignment_word (w : bytes) : option (bytes * bytes) :=
  '(name, value) ← split_once #"=" w;
  if negb (bool_decide (name = [])) && negb (match name with c :: _ => is_ascii_digit c | [] => false end)
     && forallb name_char name
  then Some (name, value) else None.

(** The assignments in front, and what follows them and the keywords. *)
Fixpoint own_assignments (words : list bytes) : list (bytes * bytes) * list bytes :=
  match words with
  | [] => ([], [])
  | w :: rest =>
      match assignment_word w with
      | Some kv => let '(own, rest) := own_assignments rest in (kv :: own, rest)
      | None => if bool_decide (w ∈ LEADING_KEYWORDS) then own_assignments rest else ([], words)
      end
  end.

(** The operands of [env] and [sudo]. *)
Fixpoint operand_assignments (valued args : list bytes) : list (bytes * bytes) :=
  match args with
  | [] => []
  | a :: rest =>
      if bool_decide (a ∈ valued) then match rest with _ :: rest => operand_assignments valued rest | [] => [] end
      else if is_option a then operand_assignments valued rest
      else match assignment_word a with Some kv => kv :: operand_assignments valued rest | None => [] end
  end.

Fixpoint assignments_of (levels : nat) (words : list bytes) : list (bytes * bytes) :=
  match levels with
  | O => []
  | S levels =>
      let '(own, rest) := own_assignments words in
      match rest with
      | [] => []
      | program :: args =>
          own ++
          match wrapper (base_name program) with
          | None => []
          | Some w =>
              (if bool_decide (wr_name w ∈ [ #"env"; #"sudo"]) then operand_assignments (wr_valued w) args else []) ++
              match unwrap w args (depth_of levels) with
              | Argv next => assignments_of levels next
              | Text text => commands text (depth_of levels) ≫= assignments_of levels
              | Nothing => []
              end
          end
      end
  end.
Definition assignments (lines : list (list bytes)) : list (bytes * bytes) := lines ≫= assignments_of LEVELS.
End commands.

(** ** The walk is a traversal *)

(** The commands of a tree in the order of the text. *)
Fixpoint visit (src : bytes) (depth : nat) (n : node) : list (list bytes) :=
  let 'Node k _ _ _ cs := n in
  (if bool_decide (k = #"command") then [command_words src n] else []) ++
  if is_substitution k then
    if MAX_NESTING <=? depth then [unknown] else mjoin (List.map (visit src (S depth)) cs)
  else mjoin (List.map (visit src depth) cs).

Lemma stack_size_children d cs stack :
  stack_size (((fun c => (c, d)) <$> cs) ++ stack) = sum_list (List.map node_size cs) + stack_size stack.
Proof.
  unfold stack_size. induction cs as [|c cs IH]; [done|]. rewrite fmap_cons. cbn [app sum_list_with].
  change (sum_list (List.map node_size (c :: cs))) with (node_size c + sum_list (List.map node_size cs)).
  rewrite IH. unfold compose. cbn [fst]. unfold id. lia.
Qed.
Lemma visit_children src d cs (stack : list (node * nat)) :
  (((fun c => (c, d)) <$> cs) ++ stack) ≫= (fun nd => visit src (snd nd) (fst nd)) =
  mjoin (List.map (visit src d) cs) ++ (stack ≫= (fun nd => visit src (snd nd) (fst nd))).
Proof.
  induction cs as [|c cs IH]; [done|]. rewrite fmap_cons. cbn [app]. rewrite bind_cons, IH. cbn [fst snd List.map].
  change (mjoin (visit src d c :: ?l)) with (visit src d c ++ mjoin l). by rewrite app_assoc.
Qed.

Lemma walk_visit fuel src stack out :
  stack_size stack < fuel -> walk fuel src stack out = out ++ (stack ≫= fun nd => visit src (snd nd) (fst nd)).
Proof.
  revert stack out. induction fuel as [|fuel IH]; intros stack out Hf; [lia|]. cbn [walk].
  destruct stack as [|[n depth] stack]; [by rewrite app_nil_r|].
  rewrite bind_cons. cbn [fst snd]. destruct n as [k nm s e cs]. cbn [n_kind n_children visit].
  assert (Hs : stack_size ((Node k nm s e cs, depth) :: stack) = S (sum_list (List.map node_size cs)) + stack_size stack) by done.
  set (out' := if bool_decide (k = #"command") then _ else out).
  assert (Eo : out' = out ++ if bool_decide (k = #"command") then [command_words src (Node k nm s e cs)] else [])
    by (unfold out'; case_bool_decide; [done|by rewrite app_nil_r]).
  clearbody out'. subst out'. rewrite Hs in Hf. clear Hs. destruct (is_substitution k); [destruct (MAX_NESTING <=? depth)|].
  - rewrite IH by lia. by rewrite <- !app_assoc.
  - rewrite IH by (rewrite stack_size_children; lia). by rewrite visit_children, <- !app_assoc.
  - rewrite IH by (rewrite stack_size_children; lia). by rewrite visit_children, <- !app_assoc.
Qed.

Section command_laws.
Context `{ShellGrammar}.

(** C13. The commands found in a text are those of a traversal of its tree in the
    order of the text, the insides of substitutions included: the explicit
    stack, which no nesting overflows, visits every node and ends. A
    substitution sixteen levels down is one unknown command, and so, in front
    of the rest, is a text the grammar finds an error in. *)
Theorem commands_visit (text : bytes) (depth : nat) :
  commands text depth =
  match parse_shell text with
  | None => [unknown]
  | Some (t, has_error) => (if has_error : bool then [unknown] else []) ++ visit text depth t
  end.
Proof.
  unfold commands. destruct (parse_shell text) as [[t err]|]; [|done].
  rewrite walk_visit by (unfold stack_size; cbn; lia). cbn. by rewrite app_nil_r.
Qed.

(** ** What a command's programs are *)

Lemma programs_S levels by_ words :
  programs (S levels) by_ words =
  match drop_while leads words with
  | [] => []
  | word :: args =>
      if bool_decide (word ∈ NO_PROGRAM) then []
      else if bool_decide (word ∈ [ #"."; #"source"]) then
        match args with script :: _ => [mk_run by_ (Some script) (word :: args)] | [] => [] end
      else if bool_decide (word = #"eval") then
        commands (join #" " args) (depth_of levels) ≫= programs levels by_
      else if bool_decide (word = #"trap") then
        match trap_action args with
        | Some action => commands action (depth_of levels) ≫= programs levels (by_ ++ [ #"trap"])
        | None => []
        end
      else
        match wrapper (base_name word) with
        | None => [mk_run by_ (knowable word) (word :: args)]
        | Some w =>
            match unwrap w args (depth_of levels) with
            | Argv argv => programs levels (by_ ++ [wr_name w]) argv
            | Text text =>
                match commands text (depth_of levels) ≫= programs levels (by_ ++ [wr_name w]) with
                | [] => [mk_run by_ (Some word) (word :: args)]
                | runs => runs
                end
            | Nothing =>
                if bool_decide (wr_name w ∈ SHELLS) || bool_decide (wr_name w ∈ SWITCH_USER) then
                  [mk_run by_ (Some word) (word :: args)]
                else [mk_run (by_ ++ [wr_name w]) None (word :: args)]
            end
        end
  end.
Proof. cbn [programs]. cbv zeta. by destruct (drop_while leads words). Qed.

(** A command that starts no program: nothing is left of it after keywords and
    assignments, a builtin, or a wrapper around one of those. *)
Inductive silent : nat -> list bytes -> Prop :=
| silent_empty n words : drop_while leads words = [] -> silent (S n) words
| silent_builtin n words word args :
    drop_while leads words = word :: args -> word ∈ NO_PROGRAM -> silent (S n) words
| silent_source n words word :
    drop_while leads words = [word] -> word ∈ [ #"."; #"source"] -> silent (S n) words
| silent_eval n words args :
    drop_while leads words = #"eval" :: args -> Forall (silent n) (commands (join #" " args) (depth_of n)) -> silent (S n) words
| silent_trap n words args :
    drop_while leads words = #"trap" :: args ->
    (forall action, trap_action args = Some action -> Forall (silent n) (commands action (depth_of n))) -> silent (S n) words
| silent_wrapped n words word args w next :
    drop_while leads words = word :: args ->
    word ∉ NO_PROGRAM ++ [ #"."; #"source"; #"eval"; #"trap"] ->
    wrapper (base_name word) = Some w -> unwrap w args (depth_of n) = Argv next -> silent n next -> silent (S n) words.

Lemma bind_nil {A B} (f : A -> list B) l : l ≫= f = [] <-> Forall (fun x => f x = []) l.
Proof.
  induction l as [|x l IH]; [split; [constructor|done]|]. rewrite bind_cons, Forall_cons, <- IH. split; [apply app_eq_nil|by intros [-> ->]].
Qed.

Lemma programs_silent n by_ words : programs n by_ words = [] -> silent n words.
Proof.
  revert by_ words. induction n as [|n IH]; intros by_ words; [done|]. rewrite programs_S.
  assert (Hb : forall by_ ls, ls ≫= programs n by_ = [] -> Forall (silent n) ls).
  { intros b ls Hl%bind_nil. eapply Forall_impl; [exact Hl|]. intros x. apply IH. }
  destruct (drop_while leads words) as [|word args] eqn:E; [intros _; by apply silent_empty|].
  case_bool_decide as H1; [intros _; by eapply silent_builtin|].
  case_bool_decide as H2; [destruct args; [intros _; by eapply silent_source|done]|].
  case_bool_decide as H3; [subst word; intros Hn; eapply silent_eval; [done|by eapply Hb]|].
  case_bool_decide as H4.
  { subst word. intros Hn. eapply silent_trap; [done|]. intros action Ea. rewrite Ea in Hn. by eapply Hb. }
  destruct (wrapper (base_name word)) as [w|] eqn:Ew; [|done]. destruct (unwrap w args (depth_of n)) eqn:Eu.
  - intros Hn. eapply silent_wrapped; [done| |done|done|by eapply IH]. rewrite not_elem_of_app. split; [done|].
    intros [?|[?|[?|[?|[]%elem_of_nil]%elem_of_cons]%elem_of_cons]%elem_of_cons]%elem_of_cons; try done; apply H2; subst word.
    + by left.
    + right. by left.
  - by destruct (_ ≫= _).
  - by destruct (_ || _).
Qed.

Lemma silent_programs n by_ words : silent n words -> programs n by_ words = [].
Proof.
  revert by_ words. induction n as [|n IH]; intros by_ words Hs; [inversion Hs|]. rewrite programs_S.
  assert (Hb : forall b ls, Forall (silent n) ls -> ls ≫= programs n b = []).
  { intros b ls Hl. apply bind_nil. eapply Forall_impl; [exact Hl|]. intros x. apply IH. }
  inversion Hs as [m w E|m w word args E Hw|m w word E Hw|m w args E Hl|m w args E Ht
    |m w word args wr next E Hw Ew Eu Hn]; subst; rewrite E.
  - done.
  - by rewrite bool_decide_true.
  - destruct (bool_decide (word ∈ NO_PROGRAM)); [done|]. by rewrite bool_decide_true.
  - by apply Hb.
  - cbn [bool_decide]. destruct (trap_action args) as [a|] eqn:Ea; [by apply Hb, Ht|done].
  - rewrite !not_elem_of_app, !not_elem_of_cons in Hw. destruct Hw as (Hw & H1 & H2 & H3 & H4 & _).
    rewrite !bool_decide_false by (rewrite ?elem_of_cons, ?elem_of_nil; naive_solver). rewrite Ew, Eu. by apply IH.
Qed.

(** A command is passed over exactly when it starts no program: nothing is
    left of it after keywords and assignments, it is a builtin, [source] with no
    file, or [eval], [trap] or a wrapper around nothing but those. Nesting too
    deep to follow, a word nobody can resolve and text the grammar refuses are
    reported, never passed over. *)
Theorem programs_passed_over (n : nat) (by_ words : list bytes) :
  programs n by_ words = [] <-> silent n words.
Proof. split; [apply programs_silent|apply silent_programs]. Qed.

(** ** Wrappers are followed, and never past the nesting limit *)

Definition TEXT_TAKERS : list bytes := #"flock" :: SHELLS ++ SWITCH_USER.

Lemma wrapper_named name w : wrapper name = Some w -> wr_name w = name /\ w ∈ WRAPPERS.
Proof.
  unfold wrapper. intros Hf. apply find_some in Hf as [Hin Hn]. apply bool_decide_eq_true in Hn.
  split; [done|]. by apply list_elem_of_In.
Qed.
Lemma rest_as_argv_text rest t : rest_as_argv rest <> Text t.
Proof. by destruct rest. Qed.
Lemma unwrap_from_text name valued d ops args t :
  unwrap_from name valued d ops args = Text t -> name ∈ SHELLS \/ name = #"flock".
Proof.
  revert ops. induction args as [args IH] using (induction_ltof1 _ (@length _)); intros ops. unfold ltof in IH.
  destruct args as [|a rest]; [done|]. cbn [unwrap_from].
  case_bool_decide as H1; [by intros ?%rest_as_argv_text|].
  case_bool_decide as H2; [destruct rest; [done|]; apply IH; cbn; lia|].
  destruct ((bool_decide (name ∈ SHELLS) || bool_decide (name = #"flock")) && is_cluster_with_c a) eqn:Hc.
  { apply andb_prop in Hc as [[Hs|Hs]%orb_prop _]; apply bool_decide_eq_true in Hs; auto. }
  destruct (if bool_decide (name = #"env") then split_string a rest else None) as [[? ?]|]; [done|].
  destruct (is_option a && (1 <? length a)); [apply IH; cbn; lia|].
  destruct (bool_decide (name ∈ [ #"env"; #"sudo"]) && existsb (is_byte "=") a); [apply IH; cbn; lia|].
  destruct ops; [done|]. apply IH. cbn. lia.
Qed.
Lemma unwrap_text w args d t : unwrap w args d = Text t -> wr_name w ∈ TEXT_TAKERS.
Proof.
  unfold unwrap, TEXT_TAKERS. rewrite elem_of_cons, elem_of_app. case_bool_decide; [auto|].
  intros [?| ->]%unwrap_from_text; auto.
Qed.

(** A run's program is named by a word that is no wrapper and holds nothing the
    shell would expand; or a shell (or [su], [flock]) runs with nothing of its
    own to run; or a file is sourced. *)
Inductive accounted : shell_run -> Prop :=
| acc_program r word args :
    rn_words r = word :: args -> rn_program r = Some word -> wrapper (base_name word) = None -> knowable word = Some word ->
    word ∉ NO_PROGRAM -> accounted r
| acc_shell r word args :
    rn_words r = word :: args -> rn_program r = Some word -> base_name word ∈ TEXT_TAKERS -> accounted r
| acc_source r how script args :
    rn_words r = how :: script :: args -> how ∈ [ #"."; #"source"] -> rn_program r = Some script -> accounted r
| acc_unknown r : rn_program r = None -> accounted r.

Definition reaches (levels : nat) (by_ : list bytes) (r : shell_run) : Prop :=
  accounted r /\ exists ws, rn_by r = by_ ++ ws /\ length ws <= levels /\
    Forall (fun w => w = #"trap" \/ is_Some (wrapper w)) ws.

Lemma knowable_some word p : knowable word = Some p -> p = word.
Proof. unfold knowable. destruct (existsb _ _); congruence. Qed.
Lemma reaches_here levels by_ p words : accounted (mk_run by_ p words) -> reaches levels by_ (mk_run by_ p words).
Proof. intros Ha. split; [done|]. exists []. rewrite app_nil_r. repeat split; [cbn; lia|constructor]. Qed.
Lemma reaches_next levels by_ w r :
  w = #"trap" \/ is_Some (wrapper w) -> reaches levels (by_ ++ [w]) r -> reaches (S levels) by_ r.
Proof.
  intros Hw (Ha & ws & Hby & Hl & Hf). split; [done|]. exists (w :: ws). rewrite Hby, <- app_assoc.
  repeat split; [cbn; lia|by constructor].
Qed.
Lemma reaches_more levels by_ r : reaches levels by_ r -> reaches (S levels) by_ r.
Proof. intros (Ha & ws & Hby & Hl & Hf). split; [done|]. exists ws. repeat split; [done|lia|done]. Qed.

Lemma programs_reaches levels by_ words : Forall (reaches levels by_) (programs levels by_ words).
Proof.
  revert by_ words. induction levels as [|n IH]; intros by_ words.
  { constructor; [|constructor]. by apply reaches_here, acc_unknown. }
  rewrite programs_S.
  assert (Hnext : forall w ls, w = #"trap" \/ is_Some (wrapper w) -> Forall (reaches (S n) by_) (ls ≫= programs n (by_ ++ [w]))).
  { intros w ls Hw. apply Forall_bind, Forall_true. intros x. eapply Forall_impl; [apply IH|]. intros r. by apply reaches_next. }
  destruct (drop_while leads words) as [|word args]; [constructor|].
  case_bool_decide as Hbuiltin; [constructor|].
  case_bool_decide as Hsource.
  { destruct args as [|script args]; [constructor|]. constructor; [|constructor]. by eapply reaches_here, acc_source. }
  case_bool_decide.
  { apply Forall_bind, Forall_true. intros x. eapply Forall_impl; [apply IH|]. apply reaches_more. }
  case_bool_decide; [destruct (trap_action args); [apply Hnext; auto|constructor]|].
  destruct (wrapper (base_name word)) as [w|] eqn:Ew.
  - destruct (wrapper_named _ _ Ew) as [Hn _]. assert (Hw : is_Some (wrapper (wr_name w))) by (by rewrite Hn, Ew).
    destruct (unwrap w args (depth_of n)) as [argv|text|] eqn:Eu.
    + eapply Forall_impl; [apply IH|]. intros r. apply reaches_next. auto.
    + specialize (Hnext _ (commands text (depth_of n)) (or_intror Hw)). destruct (_ ≫= _); [|done].
      constructor; [|constructor]. eapply reaches_here, acc_shell; [done..|]. rewrite <- Hn. by eapply unwrap_text.
    + destruct (bool_decide (wr_name w ∈ SHELLS) || bool_decide (wr_name w ∈ SWITCH_USER)) eqn:Hs.
      * constructor; [|constructor]. eapply reaches_here, acc_shell; [done..|]. rewrite <- Hn. unfold TEXT_TAKERS.
        rewrite elem_of_cons, elem_of_app. apply orb_prop in Hs as [Hs|Hs]; apply bool_decide_eq_true in Hs; auto.
      * constructor; [|constructor]. eapply reaches_next; [right; exact Hw|]. by apply reaches_here, acc_unknown.
  - constructor; [|constructor]. apply reaches_here. destruct (knowable word) as [p|] eqn:Ek; [|by apply acc_unknown].
    pose proof (knowable_some _ _ Ek) as ->. by eapply acc_program.
Qed.

End command_laws.

(** The grammar that parses nothing, for commands whose words are given. *)
Definition no_grammar : ShellGrammar := fun _ => None.

(** [su user -- -c text] runs the text in the user's shell, to which everything
    behind [--] is handed; the walk reports [su] itself and the text nowhere. *)
Theorem su_tail_unread (g : ShellGrammar) (tail : list bytes) :
  @programs g LEVELS [] ([ #"su"; #"root"; #"--"] ++ tail) =
  [mk_run [] (Some #"su") ([ #"su"; #"root"; #"--"] ++ tail)].
Proof. reflexivity. Qed.

Example runuser_followed :
  @programs no_grammar LEVELS [] [ #"runuser"; #"-u"; #"root"; #"--"; #"/tmp/evil"] =
  [mk_run [ #"runuser"] (Some #"/tmp/evil") [ #"/tmp/evil"]].
Proof. vm_compute. reflexivity. Qed.
