(* ===== verification/Targets.v ===== *)
(** [src/enrich.rs], what an entry runs: bare names looked up, wrappers looked
    through, the tests a program is guarded by, and entries made of entries. *)

From S2P Require Import Prelude Slices Order Num Utf8 Paths PathMap Kinds Entry Sys Root Scan Collect Commands.

(** [char::is_alphanumeric]: Unicode's tables. *)
Class Alphanumeric := is_alphanumeric : N -> bool.

(** ** Paths and names *)

Definition normalise_target (r : root) (e : Entry.entry) : Entry.entry :=
  match e_target_path e with
  | Some target => set_target_path e (Some (abs r (rel r target)))
  | None => e
  end.
Definition normalise_targets (r : root) (es : list Entry.entry) : list Entry.entry := normalise_target r <$> es.

Definition is_kernel_interface (p : path) : bool := path_starts_with p #"proc" || path_starts_with p #"sys".

Definition SYSTEMD_PREFIXES : bytes := #"-@+!:".
Definition trim_prefixes (prefixes word : bytes) : bytes := drop_while (fun b => bool_decide (b ∈ prefixes)) word.

Definition BIN_DIRS : list bytes :=
  [ #"usr/local/sbin"; #"usr/local/bin"; #"usr/sbin"; #"usr/bin"; #"sbin"; #"bin"].
Definition helper_dirs (k : kind) : list bytes :=
  if bool_decide (k = Kind.Udev) then [ #"usr/lib/udev"; #"lib/udev"] else [].

(** [find], asking the root of each in turn. *)
Fixpoint first_there (r : root) (ps : list path) : prog (option path) :=
  match ps with
  | [] => Ret None
  | p :: ps => b ← exists_ r p; if b : bool then Ret (Some p) else first_there r ps
  end.

Section targets.
Context `{ShellGrammar} `{Alphanumeric} `{Blake3}.

Definition resolve_bare_command (r : root) (k : kind) (command : bytes) : prog (option path) :=
  match commands (from_utf8_lossy command) 0 with
  | (first :: _) :: _ =>
      let first := trim_prefixes SYSTEMD_PREFIXES first in
      if bool_decide (first = []) || existsb (is_byte slash) first then Ret None
      else
        found ← first_there r (List.map (fun d => d ++ [slash] ++ first) (helper_dirs k ++ BIN_DIRS));
        Ret (option_map (abs r) found)
  | _ => Ret None
  end.

Definition resolve_bare_target (r : root) (e : Entry.entry) : prog Entry.entry :=
  if bool_decide (is_Some (e_target_path e)) || bool_decide (is_Some (e_raw e !! key.TARGET_UNVERIFIABLE)) then Ret e
  else
    match e_command e with
    | None => Ret e
    | Some command =>
        found ← resolve_bare_command r (e_kind e) command;
        Ret match found with
            | Some p => set_target_path (Entry.note e #"target_resolved_from" #"search path") (Some p)
            | None => e
            end
    end.
Definition resolve_bare_targets (r : root) (es : list Entry.entry) : prog (list Entry.entry) :=
  traverse (resolve_bare_target r) es.

Definition program_path (r : root) (k : kind) (program : bytes) : prog (option path) :=
  if starts_with [slash] program then Ret (Some (abs r (rel r program)))
  else if existsb (is_byte slash) program then Ret None
  else resolve_bare_command r k program.

(** ** Tests a program is guarded by *)

Definition GUARD_WINDOW : nat := 512.
Definition TESTS : list bytes := [ #"-x"; #"-e"; #"-f"; #"-s"; #"-r"].
Definition CALLS : list bytes :=
  [ #"command -v"; #"which"; #"type"; #"os.path.exists"; #"os.path.isfile"; #"os.access"; #"shutil.which"].
Definition ENV_READS : list bytes := [ #"$ENV{"; #"getenv("; #"os.environ"; #"os.getenv("].

Definition trim_end (s : bytes) : bytes := utf8_encode (drop_while_end is_whitespace (chars s)).
Definition ends_word (b : byte) : bool := is_ascii_whitespace b || bool_decide (b ∈ x22 :: #"')];&|").
Definition last_char (s : bytes) : option N := last (chars s).
(** What is in front of [t], where [s] ends with it. *)
Definition in_front (t s : bytes) : option bytes := strip_suffix t s.

Definition env_test (before : bytes) : bool :=
  existsb (fun l => contains_sub #"if" l && existsb (fun e => contains_sub e l) ENV_READS)
    (take 3 (reverse (lines before))).
Definition file_test (before t : bytes) : bool :=
  match in_front t before with
  | Some front => match last_char front with
                  | Some c => is_whitespace c || bool_decide (c ∈ Byte.to_N <$> #"[(")
                  | None => false
                  end
  | None => false
  end.
Definition call_test (before c : bytes) : bool :=
  match in_front c before with
  | Some front => match last_char front with
                  | Some ch => negb (is_alphanumeric ch) && negb (bool_decide (ch ∈ Byte.to_N <$> #"_."))
                  | None => true
                  end
  | None => false
  end.

(** How the text in front of one occurrence tests for it. *)
Definition guard_before (before : bytes) : option bytes :=
  if env_test before then Some #"environment variable test"
  else
    let before := trim_end (drop_while_end (fun b => bool_decide (b ∈ x22 :: #"'")) before) in
    match find (file_test before) TESTS with
    | Some t => Some (t ++ #" test")
    | None => find (call_test (trim_end (drop_while_end (is_byte "(") before))) CALLS
    end.

(** Every occurrence in turn; each search begins one byte on. *)
Fixpoint guarded_from (fuel : nat) (text program : bytes) (from : nat) : option bytes :=
  match fuel with
  | O => None
  | S fuel =>
      match split_once program (drop from text) with
      | None => None
      | Some (skipped, _) =>
          let at_ := from + length skipped in
          if match text !! (at_ + length program) with Some b => negb (ends_word b) | None => false end
          then guarded_from fuel text program (S at_)
          else
            match guard_before (from_utf8_lossy (drop (at_ - GUARD_WINDOW) (take at_ text))) with
            | Some how => Some how
            | None => guarded_from fuel text program (S at_)
            end
      end
  end.
Definition guarded_by_test (text program : bytes) : option bytes :=
  if bool_decide (program = []) then None else guarded_from (S (length text)) text program 0.

Definition note_guard (text : bytes) (program : option bytes) (e : Entry.entry) : Entry.entry :=
  match program ≫= guarded_by_test text with
  | Some how => Entry.note e key.GUARDED_BY_TEST how
  | None => e
  end.

(** ** Entries made of entries *)

Definition made_from (r : root) (carrier : Entry.entry) (k : kind) (name : bytes) (declared : bool) : Entry.entry :=
  let e := set_collector (Entry.new k (e_source carrier) name) (e_collector carrier) in
  let source := rel r (e_source carrier) in
  let e := if declared then Entry.rekey_declared e source (e_id carrier) else Entry.rekey e source in
  let e := set_enabled (set_principal (set_trigger e (e_trigger carrier)) (e_principal carrier)) (e_enabled carrier) in
  let e := set_mtime (set_facts e (e_owner_uid carrier) (e_mode carrier)) (e_mtime carrier) in
  Entry.note e key.DECLARED_BY_ENTRY (e_id carrier).

(** ** Wrappers looked through *)

Definition MAX_COMMANDS_LISTED : nat := 32.

Definition note_absent (e : Entry.entry) (k v : bytes) : Entry.entry :=
  match e_raw e !! k with Some _ => e | None => Entry.note e k v end.
Definition note_environment (e : Entry.entry) (env : list (bytes * bytes)) : Entry.entry :=
  foldl (fun e kv => note_absent e (#"env." ++ fst kv) (snd kv)) e env.

Definition note_wrapped (by_ : list bytes) (e : Entry.entry) : Entry.entry :=
  match by_ with [] => e | _ => Entry.note e #"target_wrapped_by" (join #" " by_) end.

(** The state of the loop over entries: the entries made and the names seen. *)
Record looked := mk_looked { lk_out : list Entry.entry; lk_seen : gset (bytes * bytes) }.

Definition run_name (n : shell_run) : bytes := default (default [] (head (rn_words n))) (rn_program n).

Definition run_entry (r : root) (carrier : Entry.entry) (script : bool) (command : bytes) (n : shell_run) : prog Entry.entry :=
  target ← match rn_program n with Some p => program_path r (e_kind carrier) p | None => Ret None end;
  let e := set_target_path (made_from r carrier (e_kind carrier) (run_name n) true) target in
  let e := with_command e (Some (join #" " (rn_words n))) in
  let e := Entry.note (note_wrapped (rn_by n) e) #"chain" (if script then #"script" else #"command line") in
  Ret (note_guard command (rn_program n) e).

Fixpoint list_runs (r : root) (script : bool) (command : bytes) (total : nat) (e : Entry.entry) (runs : list shell_run)
    (listed : nat) (st : looked) : prog (Entry.entry * looked) :=
  match runs with
  | [] => Ret (e, st)
  | n :: runs =>
      if bool_decide (listed = MAX_COMMANDS_LISTED) then
        Ret (Entry.note e #"commands_listed"
               (#"the first " ++ dec (N.of_nat listed) ++ #" of " ++ dec (N.of_nat total)), st)
      else
        let k := (e_id e, run_name n) in
        if bool_decide (k ∈ lk_seen st) then list_runs r script command total e runs listed st
        else
          made ← run_entry r e script command n;
          list_runs r script command total e runs (S listed) (mk_looked (lk_out st ++ [made]) ({[k]} ∪ lk_seen st))
  end.

(** The runs of every command of the text, the prefixes of each taken off. *)
Definition runs_of (prefixes : bytes) (lines : list (list bytes)) : list shell_run :=
  lines ≫= fun words =>
    programs LEVELS [] (match words with w :: ws => trim_prefixes prefixes w :: ws | [] => [] end).

Definition look_through (r : root) (e : Entry.entry) (st : looked) : prog (Entry.entry * looked) :=
  let script := bool_decide (is_Some (e_raw e !! key.SCRIPT_SHELL)) in
  if bool_decide (is_Some (e_raw e !! key.TARGET_UNVERIFIABLE)) && negb script then Ret (e, st)
  else
    match e_command e with
    | None => Ret (e, st)
    | Some command =>
        let lines := commands (from_utf8_lossy command) 0 in
        let e := note_environment e (assignments lines) in
        match lines with
        | (first :: _) :: _ =>
            let prefixes := if script then [] else SYSTEMD_PREFIXES in
            let head_ := trim_prefixes prefixes first in
            if negb script && match e_target_path e with
                              | Some t => negb (bool_decide ((n ← file_name t; if is_utf8 n then Some n else None) = Some (base_name head_)))
                              | None => false
                              end
            then Ret (e, st)
            else
              let runs := runs_of prefixes lines in
              match runs with
              | [] => Ret (e, st)
              | [n] =>
                  if script then
                    list_runs r script command 1 (Entry.note e #"runs_commands" (dec 1)) runs 0 st
                  else if bool_decide (is_Some (e_target_path e)) && bool_decide (rn_by n = [])
                          && bool_decide (rn_program n = Some head_)
                  then Ret (e, st)
                  else
                    let e := note_wrapped (rn_by n) e in
                    target ← match rn_program n with Some p => program_path r (e_kind e) p | None => Ret None end;
                    Ret (note_guard command (rn_program n) (set_target_path e target), st)
              | _ =>
                  list_runs r script command (length runs)
                    (Entry.note e #"runs_commands" (dec (N.of_nat (length runs)))) runs 0 st
              end
        | _ => Ret (e, st)
        end
    end.

Fixpoint look_through_from (r : root) (es : list Entry.entry) (st : looked) : prog (list Entry.entry * looked) :=
  match es with
  | [] => Ret ([], st)
  | e :: es =>
      x ← look_through r e st;
      y ← look_through_from r es (snd x);
      Ret (fst x :: fst y, snd y)
  end.
(** The entries as they are left, and the entries made. *)
Definition look_through_wrappers (r : root) (es : list Entry.entry) : prog (list Entry.entry * list Entry.entry) :=
  x ← look_through_from r es (mk_looked [] ∅);
  Ret (fst x, lk_out (snd x)).
End targets.

(** ** The search for a guard is whole *)

Section guard_laws.
Context `{Alphanumeric}.

(** The path ends where a word ends. *)
Definition at_word_end (post : bytes) : bool := match post with b :: _ => ends_word b | [] => true end.
(** The text a guard is looked for in, in front of an occurrence. *)
Definition window (pre : bytes) : bytes := from_utf8_lossy (drop (length pre - GUARD_WINDOW) pre).

Lemma guarded_from_spec fuel text p from :
  p <> [] -> length text < from + fuel -> from <= S (length text) ->
  match guarded_from fuel text p from with
  | Some how => exists pre post, text = pre ++ p ++ post /\ at_word_end post = true /\ guard_before (window pre) = Some how
  | None => forall pre post, text = pre ++ p ++ post -> from <= length pre -> at_word_end post = true ->
      guard_before (window pre) = None
  end.
Proof.
  intros Hp. revert from. induction fuel as [|fuel IH]; intros from Hf Hle; cbn [guarded_from].
  { intros pre post -> Hpre. rewrite !length_app in Hf. destruct p; [done|]. cbn in Hf. lia. }
  destruct (split_once p (drop from text)) as [[skipped rest]|] eqn:Es.
  - pose proof (split_once_Some _ _ _ _ Es) as Ed. pose proof (fun a r => split_once_first _ _ _ _ a r Es) as Hfirst.
    assert (Hlen : from <= length text).
    { destruct (decide (from <= length text)); [done|]. rewrite drop_ge in Ed by lia. destruct skipped, p; done. }
    set (pre0 := take from text ++ skipped). assert (Et : text = pre0 ++ p ++ rest).
    { unfold pre0. rewrite <- app_assoc, <- Ed. by rewrite take_drop. }
    assert (Hl0 : length pre0 = from + length skipped) by (unfold pre0; rewrite length_app, length_take; lia).
    rewrite <- Hl0. assert (Hend : match text !! (length pre0 + length p) with Some b => negb (ends_word b) | None => false end = negb (at_word_end rest)).
    { rewrite Et at 1. rewrite app_assoc, <- length_app. rewrite lookup_app_r, Nat.sub_diag by done. by destruct rest. }
    rewrite Hend. assert (Hw : from_utf8_lossy (drop (length pre0 - GUARD_WINDOW) (take (length pre0) text)) = window pre0).
    { unfold window. do 2 f_equal. rewrite Et at 1. by rewrite take_app_length. }
    rewrite Hw. assert (Hlt : length pre0 < length text).
    { rewrite Et, !length_app. destruct p; [done|]. cbn. lia. }
    assert (Hnext : (at_word_end rest = true -> guard_before (window pre0) = None) ->
      match guarded_from fuel text p (S (length pre0)) with
      | Some how => exists pre post, text = pre ++ p ++ post /\ at_word_end post = true /\ guard_before (window pre) = Some how
      | None => forall pre post, text = pre ++ p ++ post -> from <= length pre -> at_word_end post = true ->
          guard_before (window pre) = None
      end).
    { intros Hhere. specialize (IH (S (length pre0)) ltac:(lia) ltac:(lia)). destruct (guarded_from fuel text p _); [exact IH|].
      intros pre post E Hpre Hpost. destruct (decide (S (length pre0) <= length pre)) as [|Hn]; [by eapply IH|].
      assert (Hge : length skipped <= length (drop from pre)).
      { apply (Hfirst _ post). rewrite E, drop_app_le by lia. done. }
      rewrite length_drop in Hge. assert (pre = pre0 /\ post = rest) as [-> ->]; [|by apply Hhere].
      rewrite Et in E. apply app_inj_1 in E as [-> E]; [|lia]. by apply app_inv_head in E as ->. }
    destruct (at_word_end rest) eqn:Hr; cbn [negb]; [|by apply Hnext].
    destruct (guard_before (window pre0)) as [how|] eqn:Eg; [by exists pre0, rest|by apply Hnext].
  - intros pre post E Hpre _. exfalso. apply (split_once_None_app _ _ (drop from pre) post Es). rewrite E, drop_app_le by lia. done.
Qed.

(** The search for the test a program is guarded by is whole: where it finds
    one, the program stands in the text at the end of a word behind that test;
    and where it finds none, at no such place in the text, however many there
    are and however they overlap, is there a test within the 512 bytes before. *)
Theorem guard_search_whole (text program : bytes) :
  match guarded_by_test text program with
  | Some how => exists pre post, text = pre ++ program ++ post /\ at_word_end post = true /\ guard_before (window pre) = Some how
  | None => program = [] \/
      forall pre post, text = pre ++ program ++ post -> at_word_end post = true -> guard_before (window pre) = None
  end.
Proof.
  unfold guarded_by_test. case_bool_decide as Hp; [by left|].
  pose proof (guarded_from_spec (S (length text)) text program 0 Hp ltac:(lia) ltac:(lia)) as Hs.
  destruct (guarded_from _ text program 0); [exact Hs|]. right. intros pre post E. apply (Hs pre post E). lia.
Qed.
End guard_laws.

Example guards_found :
  let a : Alphanumeric := fun c => (c <? 128)%N && is_ascii_alphanumeric (byte_of_N c) in
  (fun t => @guarded_by_test a t #"/bin/x") <$>
    [ #"[ -x /bin/x ] && /bin/x"; #"command -v /bin/x && /bin/x"; #"/bin/x -v"; #"if os.path.exists('/bin/x'):"; #"my-which /bin/x";
      #"mywhich /bin/x"] =
  [Some #"-x test"; Some #"command -v"; None; Some #"os.path.exists"; Some #"which"; None].
Proof. vm_compute. reflexivity. Qed.
