(* ===== verification/Fail2ban.v ===== *)
(** [src/collect/fail2ban.rs]: the shell commands and the Python that
    fail2ban-server's jails run, with their configuration's own language. *)

From S2P Require Import Prelude Slices Order Utf8 Query Paths PathMap Kinds Entry Sys Root Tree Users Scan Collect Commands Targets.

Definition CAP : N := 256 * 1024.
Definition BASE : path := #"etc/fail2ban".
Definition MAX_DEPTH : nat := 10.
Definition SUBSTITUTIONS : N := 4096.

(** Section, then key, then the value and the file that set it. *)
Definition section : Type := gmap bytes (bytes * path).
Definition Ini : Type := gmap bytes section.
Definition DEFAULT : bytes := #"DEFAULT".
Definition INCLUDES : bytes := #"INCLUDES".
Definition DEFINITION : bytes := #"Definition".

Definition ini_get (ini : Ini) (s k : bytes) : option (bytes * path) := m ← ini !! s; (m : section) !! k.
(** A key's value in a section, or failing that in [DEFAULT]. *)
Definition lookup (ini : Ini) (s k : bytes) : option bytes :=
  match ini_get ini s k with Some vf => Some (fst vf) | None => fst <$> ini_get ini DEFAULT k end.

(** ** Interpolation *)

(** [rest] with each [%(name)s] that [found] knows replaced by what [sub] makes of
    its value. *)
Fixpoint interp_loop (found : bytes -> option bytes) (sub : bytes -> N -> bytes * N) (fuel : nat) (rest : bytes) (budget : N)
    : bytes * N :=
  match fuel with
  | O => (rest, budget)
  | S fuel =>
      match split_once #"%(" rest with
      | None => (rest, budget)
      | Some (before_, after_) =>
          if (budget =? 0)%N then (rest, budget)
          else match split_once #")s" after_ with
          | None => (rest, budget)
          | Some (name, rest') =>
              let '(x, budget) := match found name with
                                  | Some v => sub v (budget - 1)%N
                                  | None => (#"%(" ++ name ++ #")s", budget)
                                  end in
              let '(y, budget) := interp_loop found sub fuel rest' budget in
              (before_ ++ x ++ y, budget)
          end
      end
  end.

Section interpolation.
Context `{Lowercase} `{Alphanumeric}.

Definition found_in (ini : Ini) (s name : bytes) : option bytes :=
  let name := to_lowercase name in
  match split_once #"/" name with Some (sec, key) => lookup ini sec key | None => lookup ini s name end.
(** [n] is eleven less the depth. *)
Fixpoint interpolate_from (n : nat) (ini : Ini) (s value : bytes) (budget : N) : bytes * N :=
  match n with
  | O => (value, budget)
  | S n => interp_loop (found_in ini s) (interpolate_from n ini s) (S (length value)) value budget
  end.
Definition interpolate (ini : Ini) (s value : bytes) (budget : N) : bytes * N := interpolate_from (S MAX_DEPTH) ini s value budget.

(** The name of a tag, and what is after it. *)
Definition tag_char (c : char) : bool := is_alphanumeric c || (c =? Byte.to_N "_")%N || (c =? Byte.to_N "-")%N.
Definition tag_name (after_ : bytes) : option (bytes * bytes) :=
  '(name, rest) ← split_once #">" after_;
  if negb (bool_decide (name = [])) && forallb tag_char (chars name) then Some (name, rest) else None.
Definition own_setting (ini : Ini) (name : bytes) : option bytes :=
  match ini_get ini #"Init" name with Some vf => Some (fst vf) | None => fst <$> ini_get ini DEFINITION name end.

Fixpoint tags_loop (found : bytes -> option bytes) (sub : bytes -> N -> bytes * N) (fuel : nat) (rest : bytes) (budget : N)
    : bytes * N :=
  match fuel with
  | O => (rest, budget)
  | S fuel =>
      match split_once #"<" rest with
      | None => (rest, budget)
      | Some (before_, after_) =>
          if (budget =? 0)%N then (rest, budget)
          else
            let '(x, rest', budget) := match tag_name after_ with
              | None => (#"<", after_, budget)
              | Some (name, rest') =>
                  match found (to_lowercase name) with
                  | Some v => let '(x, budget) := sub v (budget - 1)%N in (x, rest', budget)
                  | None => (#"<" ++ name ++ #">", rest', budget)
                  end
              end in
            let '(y, budget) := tags_loop found sub fuel rest' budget in
            (before_ ++ x ++ y, budget)
      end
  end.
Fixpoint tags_from (n : nat) (ini : Ini) (value : bytes) (budget : N) : bytes * N :=
  match n with
  | O => (value, budget)
  | S n =>
      tags_loop (own_setting ini)
        (fun v budget => let '(expanded, budget) := interpolate ini DEFINITION v budget in tags_from n ini expanded budget)
        (S (length value)) value budget
  end.
Definition tags (ini : Ini) (value : bytes) (budget : N) : bytes * N := tags_from (S MAX_DEPTH) ini value budget.
(** A command of an action, filled in. *)
Definition filled (ini : Ini) (value : bytes) : bytes :=
  let '(v, budget) := interpolate ini DEFINITION value SUBSTITUTIONS in fst (tags ini v budget).

(** ** The names in an action list *)

Record splitting := mk_splitting { sp_out : list bytes; sp_current : list char; sp_depth : nat; sp_quote : option char }.
Definition char_is (b : byte) (c : char) : bool := (c =? Byte.to_N b)%N.
Definition push_current (st : splitting) : list bytes :=
  if bool_decide (sp_current st = []) then sp_out st else sp_out st ++ [utf8_encode (sp_current st)].
Definition split_step (st : splitting) (c : char) : splitting :=
  let put depth q := mk_splitting (sp_out st) (sp_current st ++ [c]) depth q in
  match sp_quote st with
  | Some q => put (sp_depth st) (if (c =? q)%N then None else Some q)
  | None =>
      if (char_is x22 c || char_is x27 c) && (0 <? sp_depth st) then put (sp_depth st) (Some c)
      else if char_is "[" c then put (S (sp_depth st)) None
      else if char_is "]" c then put (pred (sp_depth st)) None
      else if is_whitespace c && bool_decide (sp_depth st = 0) then mk_splitting (push_current st) [] (sp_depth st) None
      else put (sp_depth st) None
  end.
Definition action_name (a : bytes) : bytes := trim (before "[" a).
Definition split_actions (value : bytes) : list bytes :=
  List.filter (fun n => negb (bool_decide (n = [])))
    (action_name <$> push_current (foldl split_step (mk_splitting [] [] 0 None) (chars value))).

(** ** A file, as ConfigParser reads it *)

Record reading := mk_reading { rd_ini : Ini; rd_section : option bytes; rd_key : option bytes }.
(** A comment within a line goes. *)
Definition uncommented (raw : bytes) : bytes :=
  match split_once #" ;" raw, split_once [x09; ";"%byte] raw with
  | Some (l, _), _ | None, Some (l, _) => l
  | None, None => raw
  end.
Definition set_value (s k : bytes) (vf : bytes * path) (ini : Ini) : Ini := <[s := <[k := vf]> (default ∅ (ini !! s))]> ini.
Definition open_section (s : bytes) (ini : Ini) : Ini := match ini !! s with Some _ => ini | None => <[s := ∅]> ini end.
Definition section_name (t : bytes) : option bytes := r ← strip_prefix #"[" t; strip_suffix #"]" r.
Definition is_blank (b : byte) : bool := is_byte " " b || is_byte x09 b.
Definition is_sign (b : byte) : bool := is_byte "=" b || is_byte ":" b.
Definition parse_line (file : path) (st : reading) (raw : bytes) : reading :=
  let stripped := trim raw in
  if starts_with #"#" stripped || starts_with #";" stripped then st
  else
    let line := uncommented raw in
    let t := trim line in
    if bool_decide (t = []) then mk_reading (rd_ini st) (rd_section st) None
    else if match line with c :: _ => is_blank c | [] => false end then
      match rd_section st, rd_key st with
      | Some s, Some k =>
          match ini_get (rd_ini st) s k with
          | Some (v, f) => mk_reading (set_value s k (v ++ newline :: t, f) (rd_ini st)) (rd_section st) (rd_key st)
          | None => st
          end
      | _, _ => st
      end
    else match section_name t with
    | Some name => mk_reading (open_section name (rd_ini st)) (Some name) None
    | None =>
        match rd_section st, position is_sign t with
        | Some s, Some i =>
            let k := to_lowercase (trim (take i t)) in
            mk_reading (set_value s k (trim (drop (S i) t), file) (rd_ini st)) (Some s) (Some k)
        | _, _ => st
        end
    end.
Definition parse (text : bytes) (file : path) : Ini := rd_ini (foldl (parse_line file) (mk_reading ∅ None None) (lines text)).

(** ** Files *)

Definition include_paths (d : path) (ini : Ini) (k : bytes) : list path :=
  match ini_get ini INCLUDES k with Some (v, _) => path_join d <$> split_whitespace v | None => [] end.
Definition stem (p : bytes) : bytes :=
  match strip_suffix #".conf" p with Some s => s | None => default p (strip_suffix #".local" p) end.
Definition include_names (ini : Ini) : list bytes :=
  [ #"before"; #"after"] ≫= fun k =>
    match ini_get ini INCLUDES k with Some (v, _) => stem <$> split_whitespace v | None => [] end.
(** [own] over what was read before. *)
Definition extend (ini own : Ini) : Ini :=
  foldl (fun (ini : Ini) (sk : bytes * section) => <[fst sk := snd sk ∪ default ∅ (ini !! fst sk)]> ini) ini (btree_to_list own).

Context `{Strerror} `{Blake3}.

Definition in_dir (d : path) (suffix : bytes) : coll (list path) :=
  ents ← dir d;
  mret (sort_by components (path_join d ∘ de_name <$>
    List.filter (fun ent => negb (de_is_dir ent) && ends_with suffix (from_utf8_lossy (de_name ent))) ents)).
Definition layers (name : bytes) : coll (list path) :=
  let d := path_join BASE (name ++ #".d") in
  confs ← in_dir d #".conf";
  locals ← in_dir d #".local";
  mret ([path_join BASE (name ++ #".conf")] ++ confs ++ [path_join BASE (name ++ #".local")] ++ locals).

Fixpoint read_with_includes (n : nat) (st : pset * Ini) (p : path) : coll (pset * Ini) :=
  match n with
  | O => mret st
  | S n =>
      let '(seen, ini) := st in
      if pm_mem seen p then mret st
      else
        let seen := ps_insert p seen in
        b ← read_capped p CAP;
        match b with
        | None => mret (seen, ini)
        | Some b =>
            let own := parse (from_utf8_lossy b) p in
            let d := default [] (parent p) in
            st ← fold_coll (read_with_includes n) (seen, ini) (include_paths d own #"before");
            fold_coll (read_with_includes n) (fst st, extend (snd st) own) (include_paths d own #"after")
        end
  end.
Definition read_config (name : bytes) : coll Ini :=
  fs ← layers name;
  st ← fold_coll (read_with_includes (S MAX_DEPTH)) (pm_empty, ∅) fs;
  mret (snd st).

Definition names_in (f : path) : coll (list bytes) :=
  b ← read_capped f CAP;
  mret match b with Some b => include_names (parse (from_utf8_lossy b) f) | None => [] end.
Definition includes_of (name : bytes) : coll (list bytes) :=
  fs ← layers name; ls ← map_coll names_in fs; mret (mjoin ls).

(** ** The collector *)

Definition event_entry (p : path) (name : bytes) : coll Entry.entry :=
  e ← Collect.entry Kind.EventHandler p name;
  let e := set_principal (set_trigger e Trigger.Always) (Some #"root") in
  mret (Entry.note (set_enabled e Enablement.Enabled) #"run_by" #"fail2ban").
Definition gate (installed : bool) (e : Entry.entry) : Entry.entry :=
  off_unless installed #"fail2ban is not installed" e.

Definition TRUE_WORDS : list bytes := [ #"true"; #"yes"; #"1"; #"on"].
(** The actions an enabled jail names. *)
Definition jail_actions (jails : Ini) (s : bytes) : list bytes :=
  if bool_decide (s = DEFAULT) || bool_decide (s = INCLUDES) then []
  else
    if match lookup jails s #"enabled" with Some v => mem (to_ascii_lowercase v) TRUE_WORDS | None => false end then
      match lookup jails s #"action" with
      | Some action => split_actions (fst (interpolate jails s action SUBSTITUTIONS))
      | None => []
      end
    else [].
Definition used_actions (jails : Ini) : gset bytes := list_to_set (btree_keys jails ≫= jail_actions jails).
Definition is_python (n : bytes) : bool := ends_with #".py" n.
Definition in_actions (n : bytes) : bytes := #"action.d/" ++ n.

(** What the used actions include is used too. The last name queued is the
    first taken; [None] is out of fuel. *)
Fixpoint reach_loop (fuel : nat) (reach : gset bytes) (queue : list bytes) : coll (option (gset bytes)) :=
  match fuel, queue with
  | _, [] => mret (Some reach)
  | O, _ => mret None
  | S fuel, n :: queue =>
      if bool_decide (n ∈ reach) then reach_loop fuel reach queue
      else if is_python n then reach_loop fuel ({[n]} ∪ reach) queue
      else
        incs ← includes_of (in_actions n);
        reach_loop fuel ({[n]} ∪ reach) (reverse incs ++ queue)
  end.

Definition python_entry (installed : bool) (name : bytes) : coll (list Entry.entry) :=
  let p := path_join (path_join BASE #"action.d") name in
  here ← there p;
  if negb here then mret []
  else
    r ← the_root;
    e ← event_entry p (#"fail2ban:" ++ name);
    let e := Entry.note (set_target_path e (Some (abs r p))) #"loaded_by" #"fail2ban-server" in
    mret [gate installed e].

(** A key of [Definition] that is a command of the action's own. *)
Definition is_command (own : list path) (key value : bytes) (file : path) : bool :=
  starts_with #"action" key && negb (contains_sub #"_on_" key) && negb (bool_decide (trim value = []))
    && existsb (path_eqb file) own.
(** [trim_start_matches]. *)
Fixpoint trim_start_matches (fuel : nat) (p s : bytes) : bytes :=
  match fuel with
  | O => s
  | S fuel => match strip_prefix p s with Some r => trim_start_matches fuel p r | None => s end
  end.
Definition command_entry (installed : bool) (name : bytes) (ini : Ini) (kvf : bytes * (bytes * path)) : coll Entry.entry :=
  let '(key, (value, file)) := kvf in
  e ← event_entry file (#"fail2ban:" ++ name ++ #":" ++ key);
  let e := with_command e (Some (filled ini value)) in
  mret (gate installed (Entry.note e #"run_when" (trim_start_matches (length key) #"action" key))).
Definition action_entries (installed : bool) (name : bytes) : coll (list Entry.entry) :=
  own ← layers (in_actions name);
  ini ← read_config (in_actions name);
  match ini !! DEFINITION with
  | None => mret []
  | Some def =>
      map_coll (command_entry installed name ini)
        (List.filter (fun kvf => is_command own (fst kvf) (fst (snd kvf)) (snd (snd kvf))) (btree_to_list def))
  end.
Definition name_entries (installed : bool) (name : bytes) : coll (list Entry.entry) :=
  if is_python name then python_entry installed name else action_entries installed name.

Definition collect (fuel : nat) : coll (option (list Entry.entry)) :=
  installed ← there #"usr/bin/fail2ban-server";
  jails ← read_config #"jail";
  reach ← reach_loop fuel ∅ (reverse (bset_to_list (used_actions jails)));
  match reach with
  | None => mret None
  | Some reach => es ← map_coll (name_entries installed) (bset_to_list reach); mret (Some (mjoin es))
  end.
End interpolation.
