(* ===== verification/Fail2banLaws.v ===== *)
(** [src/collect/fail2ban.rs]: the laws of the collector. What a value is filled in
    with is bounded however its references multiply; the search for the actions
    in use ends, with exactly those an enabled jail reaches; only they are shown. *)

From S2P Require Import Prelude Slices Order Utf8 Query Paths PathMap Kinds Entry Sys Root Tree Users Scan Collect Commands Targets Fail2ban.

(** ** What filling in makes of a value *)

(** The length of the longest value a file sets. *)
Definition longest (ini : Ini) : nat :=
  max_list ((fun kv : bytes * (bytes * path) => length (fst (snd kv))) <$> (map_to_list ini ≫= fun sk => map_to_list (snd sk : section))).
Lemma ini_get_longest ini s k vf : ini_get ini s k = Some vf -> length (fst vf) <= longest ini.
Proof.
  unfold ini_get. rewrite bind_Some. intros (m & Hm & Hk). apply max_list_elem_of_le.
  apply list_elem_of_fmap. exists (k, vf). split; [done|]. apply list_elem_of_bind. exists (s, m).
  split; by apply elem_of_map_to_list.
Qed.

(** The rest of the budget, and the length: each unit spent adds at most [w]. *)
Definition spends (w : nat) (value : bytes) (budget : N) (x : bytes * N) : Prop :=
  (snd x <= budget)%N /\ length (fst x) + N.to_nat (snd x) * w <= length value + N.to_nat budget * w.
Lemma spends_same w value budget : spends w value budget (value, budget).
Proof. by split. Qed.
Lemma spends_trans w v v' b b' x : length v' + N.to_nat b' * w <= length v + N.to_nat b * w -> (b' <= b)%N ->
  spends w v' b' x -> spends w v b x.
Proof. intros Hl Hb [H1 H2]. split; lia. Qed.
Lemma spends_keep w rest rest' l x b y b2 :
  length l + length x + length rest' <= length rest -> spends w rest' b (y, b2) -> spends w rest b (l ++ x ++ y, b2).
Proof. intros Hl [H1 H2]. split; cbn [fst snd] in *; [done|]. rewrite !length_app. lia. Qed.
Lemma spends_step w rest rest' l v x y b b1 b2 :
  b <> 0%N -> length v <= w -> length l + length rest' <= length rest ->
  spends w v (b - 1) (x, b1) -> spends w rest' b1 (y, b2) -> spends w rest b (l ++ x ++ y, b2).
Proof.
  intros Hb Hv Hl [H1 H2] [H3 H4]. split; cbn [fst snd] in *; [lia|]. rewrite !length_app.
  replace (N.to_nat b) with (S (N.to_nat (b - 1))) by lia. lia.
Qed.

Section filling.
Context `{Lowercase} `{Alphanumeric}.

Lemma interp_loop_spends w found sub fuel rest b :
  (forall name v, found name = Some v -> length v <= w) -> (forall v b, spends w v b (sub v b)) ->
  spends w rest b (interp_loop found sub fuel rest b).
Proof.
  intros Hf Hs. revert rest b. induction fuel as [|fuel IH]; intros rest b; cbn [interp_loop]; [apply spends_same|].
  destruct (split_once #"%(" rest) as [[l r]|] eqn:E; [|apply spends_same]. apply split_once_Some in E as ->.
  destruct (b =? 0)%N eqn:Eb; [apply spends_same|]. apply N.eqb_neq in Eb.
  destruct (split_once #")s" r) as [[name rest']|] eqn:E; [|apply spends_same]. apply split_once_Some in E as ->.
  destruct (found name) as [v|] eqn:Ev.
  - pose proof (Hs v (b - 1)%N) as Hx. destruct (sub v (b - 1)%N) as [x b1]. pose proof (IH rest' b1) as Hy.
    destruct (interp_loop found sub fuel rest' b1) as [y b2]. eapply spends_step; eauto. rewrite !length_app. lia.
  - pose proof (IH rest' b) as Hy. destruct (interp_loop found sub fuel rest' b) as [y b2].
    eapply spends_keep; [|done]. rewrite !length_app. lia.
Qed.
Lemma tag_name_parts r name rest : tag_name r = Some (name, rest) -> r = name ++ #">" ++ rest.
Proof.
  unfold tag_name. destruct (split_once #">" r) as [[n rest']|] eqn:E; [|done]. cbn [mbind option_bind].
  destruct (_ && _); [|done]. intros [= <- <-]. by apply split_once_Some.
Qed.
Lemma tags_loop_spends w found sub fuel rest b :
  (forall name v, found name = Some v -> length v <= w) -> (forall v b, spends w v b (sub v b)) ->
  spends w rest b (tags_loop found sub fuel rest b).
Proof.
  intros Hf Hs. revert rest b. induction fuel as [|fuel IH]; intros rest b; cbn [tags_loop]; [apply spends_same|].
  destruct (split_once #"<" rest) as [[l r]|] eqn:E; [|apply spends_same]. apply split_once_Some in E as ->.
  destruct (b =? 0)%N eqn:Eb; [apply spends_same|]. apply N.eqb_neq in Eb.
  assert (Hk : forall x rest', length x + length rest' <= S (length r) ->
    spends w (l ++ #"<" ++ r) b (let '(y, b2) := tags_loop found sub fuel rest' b in (l ++ x ++ y, b2))).
  { intros x rest' Hl. pose proof (IH rest' b) as Hy. destruct (tags_loop found sub fuel rest' b) as [y b2].
    eapply spends_keep; [|done]. rewrite length_app. change (length ( #"<" ++ r)) with (S (length r)). lia. }
  destruct (tag_name r) as [[name rest']|] eqn:E; [|apply Hk; cbn; lia]. apply tag_name_parts in E as ->.
  destruct (found (to_lowercase name)) as [v|] eqn:Ev; [|apply Hk; rewrite !length_app; change (length #"<") with 1; change (length #">") with 1; lia].
  pose proof (Hs v (b - 1)%N) as Hx. destruct (sub v (b - 1)%N) as [x b1]. pose proof (IH rest' b1) as Hy.
  destruct (tags_loop found sub fuel rest' b1) as [y b2]. eapply spends_step; eauto. rewrite !length_app. lia.
Qed.

Lemma lookup_longest ini s k v : lookup ini s k = Some v -> length v <= longest ini.
Proof.
  unfold lookup. destruct (ini_get ini s k) as [vf|] eqn:E; [intros [= <-]; by eapply ini_get_longest|].
  rewrite fmap_Some. intros (vf & E' & ->). by eapply ini_get_longest.
Qed.
Lemma interpolate_spends n ini s v b : spends (longest ini) v b (interpolate_from n ini s v b).
Proof.
  revert v b. induction n as [|n IH]; intros v b; cbn [interpolate_from]; [apply spends_same|].
  apply interp_loop_spends; [|done]. intros name x. unfold found_in. cbv zeta.
  destruct (split_once _ _) as [[sec key]|]; apply lookup_longest.
Qed.
Lemma tags_spends n ini v b : spends (longest ini) v b (tags_from n ini v b).
Proof.
  revert v b. induction n as [|n IH]; intros v b; cbn [tags_from]; [apply spends_same|]. apply tags_loop_spends.
  - intros name x. unfold own_setting. destruct (ini_get ini #"Init" name) as [vf|] eqn:E; [intros [= <-]; by eapply ini_get_longest|].
    rewrite fmap_Some. intros (vf & E' & ->). by eapply ini_get_longest.
  - intros x c. unfold interpolate. pose proof (interpolate_spends (S MAX_DEPTH) ini DEFINITION x c) as Hi.
    destruct (interpolate_from (S MAX_DEPTH) ini DEFINITION x c) as [y c']. destruct Hi as [H1 H2]. cbn [fst snd] in *. by eapply spends_trans.
Qed.

(** However its references multiply, a command is filled in with at most
    4,096 values: it is no longer than what was written and 4,096 times the
    longest value its files set. *)
Theorem filled_bounded ini value :
  length (filled ini value) <= length value + N.to_nat SUBSTITUTIONS * longest ini.
Proof.
  unfold filled, interpolate, tags. pose proof (interpolate_spends (S MAX_DEPTH) ini DEFINITION value SUBSTITUTIONS) as Hi.
  destruct (interpolate_from _ _ _ _ _) as [v b]. pose proof (tags_spends (S MAX_DEPTH) ini v b) as Ht.
  destruct Hi as [H1 H2], Ht as [H3 H4]. cbn [fst snd] in *. lia.
Qed.
End filling.

(** ** The actions in use *)

(** What the named actions include is used too; a Python action includes
    nothing. *)
Inductive reached (inc : bytes -> list bytes) (used : list bytes) : bytes -> Prop :=
| reached_used n : n ∈ used -> reached inc used n
| reached_included n m : reached inc used n -> is_python n = false -> m ∈ inc n -> reached inc used m.

(** The search, where what an action includes is known. *)
Fixpoint search (inc : bytes -> list bytes) (fuel : nat) (reach : gset bytes) (queue : list bytes) : option (gset bytes) :=
  match fuel, queue with
  | _, [] => Some reach
  | O, _ => None
  | S fuel, n :: queue =>
      if bool_decide (n ∈ reach) then search inc fuel reach queue
      else if is_python n then search inc fuel ({[n]} ∪ reach) queue
      else search inc fuel ({[n]} ∪ reach) (reverse (inc n) ++ queue)
  end.
(** The names queued and still to be queued, where all of them are among [names]. *)
Definition left_to_include (inc : bytes -> list bytes) (names : list bytes) (reach : gset bytes) : nat :=
  sum_list ((fun n => length (inc n)) <$> filter (.∉ reach) names).
Definition work (inc : bytes -> list bytes) (names : list bytes) (reach : gset bytes) (queue : list bytes) : nat :=
  length queue + left_to_include inc names reach.

Lemma left_to_include_less inc names reach n :
  left_to_include inc names ({[n]} ∪ reach) <= left_to_include inc names reach /\
  (n ∈ names -> n ∉ reach -> length (inc n) + left_to_include inc names ({[n]} ∪ reach) <= left_to_include inc names reach).
Proof.
  unfold left_to_include. induction names as [|m names [IH1 IH2]]; [split; [done|by intros ?%elem_of_nil]|].
  rewrite !filter_cons. destruct (decide (m ∉ reach)) as [Hr|Hr]; [destruct (decide (m = n)) as [->|Hne]|].
  - rewrite decide_False by (intros Hx; apply Hx, elem_of_union_l, elem_of_singleton; done). cbn [fmap list_fmap sum_list]. unfold id in *.
    split; [lia|]. intros _ _. lia.
  - rewrite decide_True by (rewrite elem_of_union, elem_of_singleton; naive_solver). cbn [fmap list_fmap sum_list].
    unfold id in *. split; [lia|]. rewrite elem_of_cons. intros [|Hn] Hnr; [done|]. specialize (IH2 Hn Hnr). lia.
  - rewrite decide_False by (intros Hx; apply Hr; intros ?; apply Hx; by apply elem_of_union_r). split; [done|].
    rewrite elem_of_cons. intros [->|Hn] Hnr; [done|auto].
Qed.

(** What the search has seen: nothing that is not reached, and what is included
    by what it has passed. *)
Record searching (inc : bytes -> list bytes) (used names : list bytes) (reach : gset bytes) (queue : list bytes) : Prop := mk_searching {
  se_names : forall n, reached inc used n -> n ∈ names;
  se_reach : forall n, n ∈ reach -> reached inc used n;
  se_queue : forall n, n ∈ queue -> reached inc used n;
  se_used : forall n, n ∈ used -> n ∈ reach \/ n ∈ queue;
  se_closed : forall n m, n ∈ reach -> is_python n = false -> m ∈ inc n -> m ∈ reach \/ m ∈ queue
}.
Lemma searching_step inc used names n reach queue l :
  searching inc used names reach (n :: queue) -> (forall m, m ∈ l <-> is_python n = false /\ m ∈ inc n) ->
  searching inc used names ({[n]} ∪ reach) (l ++ queue).
Proof.
  intros [H1 H2 H3 H4 H5] Hl. assert (Hn : reached inc used n) by (apply H3; by left).
  assert (Hq : forall m, m ∈ reach \/ m ∈ n :: queue -> m ∈ {[n]} ∪ reach \/ m ∈ l ++ queue).
  { intros m. rewrite elem_of_cons, elem_of_union, elem_of_app, elem_of_singleton. naive_solver. }
  split; [done|..].
  - intros m [->%elem_of_singleton|Hm]%elem_of_union; auto.
  - intros m [[Hp Hm]%Hl|Hm]%elem_of_app; [by eapply reached_included|]. apply H3. by right.
  - intros m Hm. auto.
  - intros a b [->%elem_of_singleton|Ha]%elem_of_union Hp Hb; [|by eauto]. right. apply elem_of_app. left. by apply Hl.
Qed.
Lemma searching_seen inc used names n reach queue :
  searching inc used names reach (n :: queue) -> n ∈ reach -> searching inc used names reach queue.
Proof.
  intros [H1 H2 H3 H4 H5] Hn. assert (Hq : forall m, m ∈ reach \/ m ∈ n :: queue -> m ∈ reach \/ m ∈ queue).
  { intros m. rewrite elem_of_cons. naive_solver. }
  split; [done|done|..|by eauto]; intros m Hm; [|by auto]. apply H3. by right.
Qed.
Lemma search_ends inc used names fuel reach queue :
  searching inc used names reach queue -> work inc names reach queue <= fuel ->
  exists r, search inc fuel reach queue = Some r /\ forall n, n ∈ r <-> reached inc used n.
Proof.
  revert reach queue. induction fuel as [|fuel IH]; intros reach [|n queue] Hs Hw; try (cbn in Hw; lia); cbn [search].
  1, 2: exists reach; split; [done|]; intros n; split; [by apply (se_reach _ _ _ _ _ Hs)|]; induction 1 as [n Hn|n m _ IHn Hp Hm];
    [by destruct (se_used _ _ _ _ _ Hs n Hn) as [|?%elem_of_nil]|by destruct (se_closed _ _ _ _ _ Hs n m IHn Hp Hm) as [|?%elem_of_nil]].
  pose proof (se_queue _ _ _ _ _ Hs n (list_elem_of_here _ _)) as Hn. apply (se_names _ _ _ _ _ Hs) in Hn.
  destruct (left_to_include_less inc names reach n) as [Hl1 Hl2]. unfold work in *. cbn [length] in Hw.
  case_bool_decide as Hr; [apply IH; [by eapply searching_seen|unfold work; lia]|]. specialize (Hl2 Hn Hr).
  destruct (is_python n) eqn:Hp; apply IH; unfold work.
  - apply (searching_step _ _ _ n reach queue []); [done|]. intros m. rewrite Hp. split; [by intros ?%elem_of_nil|naive_solver].
  - lia.
  - apply searching_step; [done|]. intros m. rewrite elem_of_reverse, Hp. naive_solver.
  - rewrite length_app, length_reverse. lia.
Qed.
Lemma searching_start inc used names : (forall n, reached inc used n -> n ∈ names) -> searching inc used names ∅ (reverse used).
Proof.
  intros Hn. split; [done|by intros n ?%elem_of_empty|..|by intros n m ?%elem_of_empty]; intros n Hq.
  - apply reached_used. by apply elem_of_reverse.
  - right. by apply elem_of_reverse.
Qed.
Lemma work_start inc used names : work inc names ∅ (reverse used) <= length used + sum_list ((fun n => length (inc n)) <$> names).
Proof.
  unfold work, left_to_include. rewrite length_reverse. apply Nat.add_le_mono_l.
  induction names as [|n names IH]; [done|]. rewrite filter_cons. destruct (decide _); cbn [fmap list_fmap sum_list]; unfold id in *; lia.
Qed.

Section collecting.
Context `{Lowercase} `{Alphanumeric} `{Strerror} `{Blake3}.

Lemma steady_in_dir d suffix : steady (in_dir d suffix).
Proof. unfold in_dir. solve_steady. Qed.
Lemma steady_layers name : steady (layers name).
Proof. unfold layers. cbv zeta. apply steady_bind; [apply steady_in_dir|]. intros a. apply steady_bind; [apply steady_in_dir|]. solve_steady. Qed.
Lemma steady_includes_of name : steady (includes_of name).
Proof.
  unfold includes_of. apply steady_bind; [apply steady_layers|]. intros fs. apply steady_bind; [|solve_steady].
  apply steady_map. intros f. unfold names_in. apply steady_bind; [apply steady_read_capped|]. solve_steady.
Qed.
Lemma steady_read_with_includes n st p : steady (read_with_includes n st p).
Proof.
  revert st p. induction n as [|n IH]; intros [seen ini] p; cbn [read_with_includes]; [apply steady_ret|].
  destruct (pm_mem seen p); [apply steady_ret|]. cbv zeta. apply steady_bind; [apply steady_read_capped|].
  intros [b|]; [|apply steady_ret]. apply steady_bind; [by apply steady_fold|]. intros st. by apply steady_fold.
Qed.
Lemma steady_read_config name : steady (read_config name).
Proof.
  unfold read_config. apply steady_bind; [apply steady_layers|]. intros fs.
  apply steady_bind; [|intros; apply steady_ret]. apply steady_fold. intros. apply steady_read_with_includes.
Qed.

(** What the files of an action include, at one moment. *)
Definition included (h : snapshot) (cx : ctx) (n : bytes) : list bytes := value h cx (includes_of (in_actions n)).
(** The actions the enabled jails name. *)
Definition named_by_jails (h : snapshot) (cx : ctx) : list bytes :=
  bset_to_list (used_actions (value h cx (read_config #"jail"))).

Lemma value_reach_loop h cx fuel reach queue : value h cx (reach_loop fuel reach queue) = search (included h cx) fuel reach queue.
Proof.
  enough (He : forall cx', same_place cx' cx -> value h cx' (reach_loop fuel reach queue) = search (included h cx) fuel reach queue) by by apply He.
  revert reach queue. induction fuel as [|fuel IH]; intros reach queue cx' Hc; destruct queue as [|n queue]; cbn [reach_loop search]; try done.
  destruct (bool_decide _); [by apply IH|]. destruct (is_python n); [by apply IH|].
  destruct (steady_includes_of (in_actions n)) as [Hs Hv]. rewrite value_bind, (Hv h cx' cx Hc). apply IH.
  destruct (after_same h cx' _ Hs) as [E1 E2], Hc as [F1 F2]. split; congruence.
Qed.

(** ** The entries *)

Record event_shown (installed : bool) (name : bytes) (e : Entry.entry) : Prop := mk_event_shown {
  ev_kind : e_kind e = Kind.EventHandler;
  ev_name : starts_with (#"fail2ban:" ++ name) (e_name e) = true;
  ev_trigger : e_trigger e = Trigger.Always;
  ev_principal : e_principal e = Some #"root";
  ev_enabled : e_enabled e = if installed then Enablement.Enabled else Enablement.Disabled
}.
Lemma event_entry_shown p name tail : yields (event_shown true name) (event_entry p (#"fail2ban:" ++ name ++ tail)).
Proof.
  unfold event_entry. eapply yields_bind; [apply entry_made|]. intros e [Hk Hn]. apply yields_ret. split; cbn; try done.
  rewrite Hn, (app_assoc _ name tail). apply starts_with_true. by eexists.
Qed.
Lemma event_shown_gate installed name e : event_shown true name e -> event_shown installed name (gate installed e).
Proof. intros []. unfold gate, off_unless. by destruct installed; split. Qed.
Lemma event_shown_note b name e k v : event_shown b name e -> event_shown b name (Entry.note e k v).
Proof. by intros []; split. Qed.
Lemma event_shown_command b name e c : event_shown b name e -> event_shown b name (with_command e c).
Proof. by intros []; split. Qed.
Lemma event_shown_target b name e p : event_shown b name e -> event_shown b name (set_target_path e p).
Proof. by intros []; split. Qed.

Lemma name_entries_shown installed name : yields (Forall (event_shown installed name)) (name_entries installed name).
Proof.
  unfold name_entries. destruct (is_python name).
  - unfold python_entry. apply yields_bind_any. intros []; [|by apply yields_ret]. apply yields_bind_any. intros r.
    eapply yields_bind; [rewrite <- (app_nil_r name) at 2; apply event_entry_shown|]. intros e He.
    apply yields_ret, Forall_singleton. by apply event_shown_gate, event_shown_note, event_shown_target.
  - unfold action_entries. apply yields_bind_any. intros own. apply yields_bind_any. intros ini.
    destruct (ini !! DEFINITION); [|by apply yields_ret]. apply yields_map. intros [k [v f]] _. unfold command_entry.
    eapply yields_bind; [apply event_entry_shown|]. intros e He.
    apply yields_ret. by apply event_shown_gate, event_shown_note, event_shown_command.
Qed.
Lemma names_entries_shown installed names :
  yields (fun es => Forall (fun e => exists n, n ∈ names /\ event_shown installed n e) (mjoin es)) (map_coll (name_entries installed) names).
Proof.
  eapply yields_mono; [|apply (yields_map2 (fun n es => Forall (event_shown installed n) es)); intros n; apply name_entries_shown].
  induction 1 as [|n es names ess Hn _ IH]; [constructor|]. cbn [mjoin list_join]. apply Forall_app. split.
  - eapply Forall_impl; [exact Hn|]. intros e He. exists n. split; [by left|done].
  - eapply Forall_impl; [exact IH|]. intros e (m & Hm & He). exists m. split; [by right|done].
Qed.

Lemma search_same h cx cx' fuel reach queue : same_place cx cx' ->
  search (included h cx) fuel reach queue = search (included h cx') fuel reach queue.
Proof.
  intros Hc. revert reach queue. induction fuel as [|fuel IH]; intros reach [|n queue]; cbn [search]; try done.
  assert (En : included h cx n = included h cx' n) by (by apply steady_includes_of). rewrite En.
  by rewrite !IH.
Qed.

(** The search for the actions in use ends, on any host where they are
    finitely many, with exactly the actions an enabled jail names and what their
    files include, however those include one another; and what is shown
    is run for one of these, as root, and is on exactly where fail2ban is installed. *)
Theorem jails_reported h cx (names : list bytes) fuel :
  let used := named_by_jails h cx in let inc := included h cx in
  (forall n, reached inc used n -> n ∈ names) ->
  length used + sum_list ((fun n => length (inc n)) <$> names) <= fuel ->
  exists reach es, value h cx (reach_loop fuel ∅ (reverse used)) = Some reach /\ (forall n, n ∈ reach <-> reached inc used n) /\
    value h cx (collect fuel) = Some es /\
    Forall (fun e => exists n, reached inc used n /\ event_shown (holds h (cx_root cx) #"usr/bin/fail2ban-server") n e) es.
Proof.
  cbv zeta. intros Hn Hf. unfold collect. rewrite value_bind, value_there, after_there, value_bind.
  destruct (search_ends (included h cx) (named_by_jails h cx) names fuel ∅ (reverse (named_by_jails h cx))) as (r & Er & Hr);
    [by apply searching_start|etrans; [apply work_start|done]|].
  pose proof (after_same h cx _ (proj1 (steady_read_config #"jail"))) as Hs.
  unfold named_by_jails in *. set (cx1 := after h cx _) in *. set (used := bset_to_list _) in *.
  assert (Em : value h cx1 (reach_loop fuel ∅ (reverse used)) = Some r).
  { rewrite value_reach_loop, <- Er. symmetry. by apply search_same. }
  exists r. rewrite value_bind, Em, value_bind, value_reach_loop. eexists. split_and!; [done|done|done|].
  set (cx2 := after h cx1 _). pose proof (yields_run _ _ h cx2 (names_entries_shown (holds h (cx_root cx) #"usr/bin/fail2ban-server") (bset_to_list r))) as He.
  eapply Forall_impl; [exact He|]. intros e (n & Hin & Hsh). exists n. split; [|done]. by apply Hr, elem_of_bset_to_list.
Qed.
End collecting.

(** ** A host *)

(** Names closed under what their actions include. *)
Definition closed_names (inc : bytes -> list bytes) (used names : list bytes) : bool :=
  forallb (fun n => bool_decide (n ∈ names)) used && forallb (fun n => forallb (fun m => bool_decide (m ∈ names)) (inc n)) names.
Lemma reached_within inc used names : closed_names inc used names = true -> forall n, reached inc used n -> n ∈ names.
Proof.
  intros [H1 H2]%andb_true_iff. rewrite forallb_forall in H1, H2. induction 1 as [n Hn|n m _ IH _ Hm].
  - eapply bool_decide_eq_true_1, H1. by apply list_elem_of_In.
  - specialize (H2 n). rewrite forallb_forall in H2. eapply bool_decide_eq_true_1, H2; by apply list_elem_of_In.
Qed.

(** A jail whose action includes another, and that one it in turn; a second
    jail that is off; a command whose references to itself multiply. *)
Module Fail2banDemo.
#[local] Instance demo_blake3 : Blake3 := fun x => x.
#[local] Instance demo_strerror : Strerror := fun _ => #"error".
#[local] Instance demo_lowercase : Lowercase := to_ascii_lowercase.
#[local] Instance demo_alphanumeric : Alphanumeric := fun c => (c <? 128)%N && is_ascii_alphanumeric (byte_of_N c).
Definition text (ls : list bytes) : bytes := join [newline] ls ++ [newline].
Definition jail : bytes :=
  text [ #"[DEFAULT]"; #"banaction = block"; #"[sshd]"; #"enabled = True ; on"; #"action = %(banaction)s[name=a b]"; #"  notify.py";
         #"[web]"; #"action = other"].
Definition block : bytes :=
  text [ #"[INCLUDES]"; #"before = common.conf"; #"[Definition]"; #"actionban = <tool> -A <chain> <ip>"; #"actionstop ="; #"[Init]"; #"chain = f2b"].
Definition common : bytes :=
  text [ #"[INCLUDES]"; #"after = block.conf"; #"[Definition]"; #"Tool = /sbin/ipt %(wait)s"; #"wait = -w"; #"actionstart = <tool> -N"].
Definition tree : Tree.tree :=
  [( #"usr", Tree.Dir 0 0x1ED); ( #"usr/bin", Tree.Dir 0 0x1ED); ( #"usr/bin/fail2ban-server", Tree.File 0 0x1ED #"x");
   ( #"etc", Tree.Dir 0 0x1ED); ( #"etc/fail2ban", Tree.Dir 0 0x1ED); ( #"etc/fail2ban/jail.conf", Tree.File 0 0x1A4 jail);
   ( #"etc/fail2ban/action.d", Tree.Dir 0 0x1ED); ( #"etc/fail2ban/action.d/block.conf", Tree.File 0 0x1A4 block);
   ( #"etc/fail2ban/action.d/common.conf", Tree.File 0 0x1A4 common); ( #"etc/fail2ban/action.d/notify.py", Tree.File 0 0x1A4 #"x")].
Definition context : ctx := mk_ctx Tree.offline [] [] [] [].
Definition seen : option (list (bytes * path * option bytes)) :=
  option_map (fun es => (fun e => (e_name e, e_source e, e_command e)) <$> es) (value (Tree.kernel tree) context (collect 10)).
Definition names : list bytes := [ #"block"; #"common"; #"notify.py"].
Definition in_use : bytes -> Prop := reached (included (Tree.kernel tree) context) (named_by_jails (Tree.kernel tree) context).
Definition closed : bool := closed_names (included (Tree.kernel tree) context) (named_by_jails (Tree.kernel tree) context) names.
Definition enough : bool :=
  length (named_by_jails (Tree.kernel tree) context)
    + sum_list ((fun n => length (included (Tree.kernel tree) context n)) <$> names) <=? 10.
End Fail2banDemo.

Example fail2ban_host :
  Fail2banDemo.seen =
    Some [( #"fail2ban:block:actionban", #"/mnt/etc/fail2ban/action.d/block.conf", Some #"/sbin/ipt -w -A f2b <ip>");
          ( #"fail2ban:common:actionstart", #"/mnt/etc/fail2ban/action.d/common.conf", Some #"/sbin/ipt -w -N");
          ( #"fail2ban:notify.py", #"/mnt/etc/fail2ban/action.d/notify.py", None)].
Proof. by vm_compute. Qed.

Lemma jails_reported_witness :
  Fail2banDemo.closed = true /\ Fail2banDemo.enough = true /\
  exists reach : gset bytes, forall n, n ∈ reach <-> Fail2banDemo.in_use n.
Proof.
  assert (Hc : Fail2banDemo.closed = true) by by vm_compute. assert (He : Fail2banDemo.enough = true) by by vm_compute.
  split_and!; [done|done|].
  destruct (@jails_reported Fail2banDemo.demo_lowercase Fail2banDemo.demo_alphanumeric Fail2banDemo.demo_strerror Fail2banDemo.demo_blake3
    (Tree.kernel Fail2banDemo.tree) Fail2banDemo.context Fail2banDemo.names 10) as (r & es & _ & Hr & _).
  - exact (reached_within _ _ _ Hc).
  - by apply Nat.leb_le.
  - by exists r.
Defined.
