(* ===== verification/Chain.v ===== *)
(** [src/enrich.rs], the entries that follow from entries: preloaded
    libraries, what interpreters read from the environment, and the programs
    a script hands control to. *)

From S2P Require Import Prelude Slices Order Num Utf8 Paths PathMap Kinds Entry Sys Root Scan Collect Commands Targets.

Section chain.
Context `{ShellGrammar} `{Alphanumeric} `{Blake3}.

(** ** Preloads *)

Definition PRELOAD_KEYS : list bytes := [ #"env.LD_PRELOAD"; #"env.LD_AUDIT"; #"env.LD_LIBRARY_PATH"].
Definition library_end (b : byte) : bool := bool_decide (b ∈ #" :" ++ [x0a]).
Abbreviation seen_library := (list (list component * bytes)).

Definition preload_entry (r : root) (carrier : Entry.entry) (variable library : bytes) : Entry.entry :=
  let e := with_command (made_from r carrier Kind.LdPreload library false) (Some (variable ++ #"=" ++ library)) in
  let e := set_target_path e (Some (abs r (rel r library))) in
  Entry.note (Entry.note e #"variable" variable) #"declared_in" (from_utf8_lossy (e_source carrier)).

Definition add_library (r : root) (carrier : Entry.entry) (variable : bytes) (st : list Entry.entry * seen_library) (library : bytes)
    : list Entry.entry * seen_library :=
  let k := (components (e_source carrier), library) in
  if bool_decide (k ∈ snd st) then st
  else (fst st ++ [preload_entry r carrier variable library], k :: snd st).

Definition carrier_preloads (r : root) (st : list Entry.entry * seen_library) (carrier : Entry.entry)
    : list Entry.entry * seen_library :=
  if bool_decide (e_kind carrier = Kind.LdPreload) then st
  else
    foldl (fun st kv =>
      if bool_decide (fst kv ∈ PRELOAD_KEYS) then
        foldl (add_library r carrier (drop 4 (fst kv))) st (words_by library_end (snd kv))
      else st) st (btree_to_list (e_raw carrier)).
Definition preload_entries (r : root) (es : list Entry.entry) : list Entry.entry :=
  fst (foldl (carrier_preloads r) ([], []) es).

(** ** Variables interpreters read *)

Definition INTERPRETER_VARS : list (bytes * bytes) :=
  [( #"PERL5OPT", #"every perl, as command-line switches (-M loads a module)");
   ( #"PERL5LIB", #"every perl, ahead of its own module directories");
   ( #"RUBYOPT", #"every ruby, as options (-r loads a library)");
   ( #"RUBYLIB", #"every ruby, ahead of its own library directories");
   ( #"NODE_OPTIONS", #"every node, as options (--require and --import load a module)");
   ( #"JAVA_TOOL_OPTIONS", #"every JVM, as options (-javaagent loads a jar)");
   ( #"_JAVA_OPTIONS", #"every HotSpot JVM, as options");
   ( #"PYTHONPATH", #"every python, ahead of its own module directories");
   ( #"PYTHONSTARTUP", #"every interactive python, which runs the file");
   ( #"BASH_ENV", #"every non-interactive bash, a script included, which sources the file");
   ( #"ENV", #"every interactive sh and ksh, which source the file");
   ( #"PROMPT_COMMAND", #"every interactive bash, before each prompt")].

Fixpoint find_map {A B} (f : A -> option B) (l : list A) : option B :=
  match l with [] => None | a :: l => match f a with Some b => Some b | None => find_map f l end end.
Fixpoint after_option (names words : list bytes) : option bytes :=
  match words with
  | w :: rest =>
      match rest with
      | v :: _ => if bool_decide (w ∈ names) then Some v else after_option names rest
      | [] => None
      end
  | [] => None
  end.
Definition named_file (variable value : bytes) : option bytes :=
  if bool_decide (variable ∈ [ #"BASH_ENV"; #"ENV"; #"PYTHONSTARTUP"]) then Some value
  else if bool_decide (variable ∈ [ #"JAVA_TOOL_OPTIONS"; #"_JAVA_OPTIONS"]) then
    a ← find_map (strip_prefix #"-javaagent:") (split_whitespace value);
    Some (take (default (length a) (position (is_byte eq_sign) a)) a)
  else if bool_decide (variable = #"NODE_OPTIONS") then
    after_option [ #"--require"; #"-r"; #"--import"] (split_whitespace value)
  else None.

Definition variable_entry (r : root) (carrier : Entry.entry) (variable reads value : bytes) : Entry.entry :=
  let e := with_command (made_from r carrier Kind.InterpreterEnv variable false) (Some (variable ++ #"=" ++ value)) in
  let e := match named_file variable value with
           | Some f => if starts_with [slash] f then set_target_path e (Some (abs r (rel r f))) else e
           | None => e
           end in
  let e := Entry.note e key.TARGET_UNVERIFIABLE #"a variable an interpreter reads" in
  Entry.note (Entry.note (Entry.note e #"variable" variable) #"read_by" reads)
    #"declared_in" (from_utf8_lossy (e_source carrier)).

Definition carrier_variables (r : root) (carrier : Entry.entry) : list Entry.entry :=
  if bool_decide (e_kind carrier = Kind.InterpreterEnv) then []
  else
    INTERPRETER_VARS ≫= fun vr =>
      match e_raw carrier !! (#"env." ++ fst vr) with
      | Some (c :: value) => [variable_entry r carrier (fst vr) (snd vr) (c :: value)]
      | _ => []
      end.
Definition interpreter_entries (r : root) (es : list Entry.entry) : list Entry.entry := es ≫= carrier_variables r.

(** ** What a script hands control to *)

Definition SCRIPT_HEAD : N := 8 * 1024.

Definition blank_words (line : bytes) : list bytes := words_by is_ascii_whitespace line.

(** The program a shebang line starts. *)
Definition interpreter_of (line : bytes) : option bytes :=
  match blank_words line with
  | [] => None
  | first :: rest =>
      if bool_decide (file_name first = Some #"env") then
        Some (default first (find (fun w => negb (starts_with #"-" w) && negb (existsb (is_byte eq_sign) w)) rest))
      else Some first
  end.

Definition hand_off_word (word : bytes) : bytes :=
  drop_while_end (fun b => bool_decide (b ∈ #",;")) (List.filter (fun b => negb (bool_decide (b ∈ x22 :: #"'"))) word).
Definition hand_off (line : bytes) : list (bytes * bytes) :=
  match blank_words line with
  | verb :: word :: _ =>
      let via := if bool_decide (verb ∈ [ #"."; #"source"]) then Some #"source"
                 else if bool_decide (verb = #"exec") then Some #"exec" else None in
      let word := hand_off_word word in
      match via with
      | Some via => if starts_with [slash] word && negb (existsb (is_byte "$") word) then [(via, word)] else []
      | None => []
      end
  | _ => []
  end.
Definition handed_off (head_ : bytes) : list (bytes * bytes) := drop 1 (split_on (is_byte newline) head_) ≫= hand_off.

(** ** What a Python file launches *)

Definition SHELL_TEXT : list bytes :=
  [ #"os.system("; #"os.popen("; #"subprocess.getoutput("; #"subprocess.getstatusoutput("].
Definition PROGRAM : list bytes :=
  [ #"subprocess.run("; #"subprocess.call("; #"subprocess.Popen("; #"subprocess.check_call("; #"subprocess.check_output(";
    #"os.execv("; #"os.execve("; #"os.execl("; #"os.execle("; #"os.execlp("; #"os.execvp("; #"os.execvpe(";
    #"os.spawnv("; #"os.spawnl("].

Fixpoint string_body (quote_ : N) (cs : list N) : option (list N) :=
  match cs with
  | [] => None
  | c :: rest =>
      if bool_decide (c = 0x5c%N) then
        match rest with e :: rest => cons e <$> string_body quote_ rest | [] => None end
      else if bool_decide (c = quote_) then Some []
      else cons c <$> string_body quote_ rest
  end.
Definition python_string (s : bytes) : option bytes :=
  let s := drop_while (fun b => bool_decide (b ∈ #"rbRB")) s in
  match s with
  | q :: body =>
      if bool_decide (q ∈ x22 :: #"'") then utf8_encode <$> string_body (Byte.to_N q) (chars body) else None
  | [] => None
  end.

(** The runs one call on a line of code starts. *)
Definition launch_runs (code call : bytes) (shell_text : bool) : list shell_run :=
  match split_once call code with
  | None => []
  | Some (_, args) =>
      let args := if starts_with #"os.spawn" call then match split_once #"," args with Some (_, rest) => rest | None => [] end
                  else args in
      let literal := trim_start args in
      match python_string (drop_while (is_byte "[") literal) with
      | None => []
      | Some text =>
          if shell_text || (negb (starts_with #"[" literal) && contains_sub #"shell=True" args)
          then commands text 0 ≫= programs LEVELS [] else [mk_run [] (Some text) [text]]
      end
  end.
Definition line_runs (line : bytes) : list shell_run :=
  let code := trim_start line in
  if starts_with #"#" code then []
  else (SHELL_TEXT ≫= fun c => launch_runs code c true) ++ (PROGRAM ≫= fun c => launch_runs code c false).

Fixpoint launched (r : root) (k : kind) (runs : list shell_run) : prog (list (bytes * bytes)) :=
  match runs with
  | [] => Ret []
  | n :: runs =>
      match rn_program n with
      | None => launched r k runs
      | Some p =>
          found ← (if starts_with [slash] p then Ret true
                   else x ← program_path r k p; Ret (bool_decide (is_Some x)));
          rest ← launched r k runs;
          Ret (if found : bool then ( #"python", p) :: rest else rest)
      end
  end.
Definition python_launches (r : root) (k : kind) (source : bytes) : prog (list (bytes * bytes)) :=
  launched r k (lines (from_utf8_lossy source) ≫= line_runs).

(** ** The chain *)

Definition extension (p : path) : option bytes :=
  n ← file_name p;
  '(front, ext) ← rsplit_once #"." n;
  if bool_decide (front = []) then None else Some ext.

Record chained := mk_chained {
  ch_out : list Entry.entry;
  ch_seen : list (kind * list component * bytes);
  ch_declared : list (bytes * bytes)
}.

(** The links a file's head names; [None] where it is no script. *)
Definition links_of (r : root) (k : kind) (script : path) (head_ : bytes) : prog (list (bytes * bytes)) :=
  let module := bool_decide (extension script = Some #"py") in
  match strip_prefix #"#!" head_ with
  | Some after =>
      let interpreter := interpreter_of (default [] (head (split_on (is_byte newline) after))) in
      let python := match interpreter ≫= file_name with Some n => starts_with #"python" n | None => false end in
      launches ← (if python || module then python_launches r k head_ else Ret []);
      Ret (match interpreter with Some i => [( #"shebang", i)] | None => [] end ++ handed_off head_ ++ launches)
  | None => if module then python_launches r k head_ else Ret []
  end.

(** [None] where the link was seen before. *)
Definition mark (carrier : Entry.entry) (via name : bytes) (st : chained) : option chained :=
  if bool_decide (via = #"python") then
    let k := (e_id carrier, name) in
    if bool_decide (k ∈ ch_declared st) then None else Some (mk_chained (ch_out st) (ch_seen st) (k :: ch_declared st))
  else
    let k := (e_kind carrier, components (e_source carrier), name) in
    if bool_decide (k ∈ ch_seen st) then None else Some (mk_chained (ch_out st) (k :: ch_seen st) (ch_declared st)).

Definition link_target (r : root) (k : kind) (referenced : bytes) (e : Entry.entry) : prog Entry.entry :=
  if is_absolute referenced then Ret (set_target_path e (Some (abs r (rel r referenced))))
  else
    found ← resolve_bare_command r k referenced;
    Ret match found with
        | Some p => set_target_path (Entry.note e #"target_resolved_from" #"search path") (Some p)
        | None => e
        end.

Definition link_entry (r : root) (carrier : Entry.entry) (script : path) (head_ via referenced : bytes) : prog Entry.entry :=
  let name := from_utf8_lossy referenced in
  e ← link_target r (e_kind carrier) referenced
        (made_from r carrier (e_kind carrier) name (bool_decide (via = #"python")));
  let e := if is_utf8 referenced then e
           else Entry.note (Entry.flag e Flag.EncodingAnomaly) #"referenced_raw_hex" (hex referenced) in
  let e := Entry.note (Entry.note (with_command e (Some referenced)) #"chain" via)
             #"chain_from" (from_utf8_lossy (abs r script)) in
  Ret (note_guard head_ (Some referenced) e).

Definition follow_link (r : root) (carrier : Entry.entry) (script : path) (head_ : bytes) (st : chained) (link : bytes * bytes)
    : prog chained :=
  let '(via, referenced) := link in
  match mark carrier via (from_utf8_lossy referenced) st with
  | None => Ret st
  | Some st =>
      there ← (if bool_decide (via = #"source") then exists_ r (rel r referenced) else Ret true);
      if there : bool then
        e ← link_entry r carrier script head_ via referenced;
        Ret (mk_chained (ch_out st ++ [e]) (ch_seen st) (ch_declared st))
      else Ret st
  end.

Definition follow (r : root) (st : chained) (carrier : Entry.entry) : prog chained :=
  if bool_decide (is_Some (e_raw carrier !! #"interpreter_in_image")) then Ret st
  else
    let script := rel r (default (e_source carrier) (e_target_path carrier)) in
    m ← stat_follow r script;
    match m with
    | Ok m =>
        if m_is_file m then
          x ← Root.read_capped r script SCRIPT_HEAD;
          match x with
          | Ok (head_, _) =>
              links ← links_of r (e_kind carrier) script head_;
              fold_prog (follow_link r carrier script head_) st links
          | Err _ => Ret st
          end
        else Ret st
    | Err _ => Ret st
    end.
Definition interpreter_chain (r : root) (es : list Entry.entry) : prog (list Entry.entry) :=
  st ← fold_prog (follow r) (mk_chained [] [] []) es;
  Ret (ch_out st).
End chain.
