(* ===== verification/Judge.v ===== *)
(** [src/enrich.rs], what an entry is judged by: the verdicts of its source and
    its target, where it lies, what its command holds, who can write its
    search path, and what other entries say of it. *)

From S2P Require Import Prelude Slices Order Num Utf8 Paths PathMap Kinds Entry Sys Root Scan Provenance Dpkg Collect Targets.

Definition set_target_sha256 (e : Entry.entry) (s : option bytes) : Entry.entry :=
  mk_entry (e_id e) (e_kind e) (e_collector e) (e_source e) (e_name e) (e_command e) (e_target_path e)
    s (e_enabled e) (e_trigger e) (e_principal e) (e_owner_uid e) (e_mode e)
    (e_mtime e) (e_provenance e) (e_flags e) (e_raw e).
Definition noted (e : Entry.entry) (k : bytes) : bool := bool_decide (is_Some (e_raw e !! k)).

(** ** The paths asked about *)

(** Where a link ends, if it is one that ends elsewhere. *)
Definition link_end (r : root) (p : path) : prog (option path) :=
  m ← stat r p;
  match m with
  | Ok m =>
      if m_is_symlink m then
        x ← Root.resolve r p;
        Ret match x with Ok end_ => if path_eqb end_ p then None else Some end_ | Err _ => None end
      else Ret None
  | Err _ => Ret None
  end.

Definition ask_for (r : root) (out : pset) (e : Entry.entry) : prog pset :=
  let source := rel r (e_source e) in
  let out := if is_kernel_interface source then out else ps_insert source out in
  let out := match e_raw e !! key.MATCHES_TEMPLATE with Some t => ps_insert (rel r t) out | None => out end in
  match e_target_path e with
  | Some t =>
      let target := rel r t in
      end_ ← link_end r target;
      Ret (ps_insert target match end_ with Some p => ps_insert p out | None => out end)
  | None => Ret out
  end.
Definition paths_to_resolve (r : root) (es : list Entry.entry) : prog pset := fold_prog (ask_for r) pm_empty es.

(** ** The verdicts *)

Definition changed (i : integrity) : bool :=
  bool_decide (i ∈ [Integrity.Modified; Integrity.ModeModified; Integrity.ConffileModified]).

(** The verdict of the file a link leads to, and the note that it was taken. *)
Definition through_link (r : root) (p : path) (verdict : provenance) (a : answers) (k : bytes) (e : Entry.entry)
    : prog (provenance * Entry.entry) :=
  let keep := Ret (verdict, e) in
  if match verdict with Provenance.Packaged _ _ i => changed i | _ => false end then keep
  else
    end_ ← link_end r p;
    match end_ with
    | None => keep
    | Some end_ =>
        m ← stat_follow r end_;
        match m with
        | Ok m =>
            if m_is_file m then
              match pm_get a end_ with
              | Some v => Ret (v, Entry.note e k (from_utf8_lossy (abs r end_)))
              | None => keep
              end
            else keep
        | Err _ => keep
        end
    end.

Definition flag_verdict (v : provenance) (e : Entry.entry) : Entry.entry :=
  match v with
  | Provenance.Unpackaged => Entry.flag e Flag.Unpackaged
  | Provenance.Packaged _ _ (Integrity.Modified | Integrity.ModeModified) => Entry.flag e Flag.PackagedModified
  | Provenance.Packaged _ _ Integrity.ConffileModified => Entry.flag e Flag.ConffileModified
  | _ => e
  end.

(** The target's verdict, put on the entry. *)
Definition judge_target (r : root) (target : path) (verdict : option provenance) (e : Entry.entry) : prog Entry.entry :=
  match verdict with
  | Some Provenance.Unpackaged => Ret (Entry.flag (Entry.set_target_verdict e TargetVerdict.Unpackaged) Flag.Unpackaged)
  | Some (Provenance.Packaged package _ i) =>
      m ← stat_follow r target;
      if match m with Ok m => m_is_dir m | Err _ => false end
      then Ret (Entry.set_target_verdict e (TargetVerdict.Directory package))
      else
        let e := Entry.set_target_verdict e (TargetVerdict.Packaged package i) in
        Ret (if bool_decide (i ∈ [Integrity.Modified; Integrity.ModeModified]) then Entry.flag e Flag.PackagedModified else e)
  | Some (Provenance.GeneratedBy by_) => Ret (Entry.set_target_verdict e (TargetVerdict.Generated by_))
  | Some (Provenance.Reproduced by_) => Ret (Entry.set_target_verdict e (TargetVerdict.Reproduced by_))
  | Some Provenance.Unknown => Ret (Entry.set_target_verdict e TargetVerdict.Unknown)
  | None =>
      Ret match Entry.target_verdict e with
          | None => Entry.set_target_verdict e TargetVerdict.Unanswered
          | Some _ => e
          end
  end.

Definition is_guarded (e : Entry.entry) : bool :=
  match Entry.target_verdict e with Some (TargetVerdict.AbsentGuarded _) => true | _ => false end.
(** The entry's verdict is its target's, not its source's. *)
Definition about_target (r : root) (e : Entry.entry) : bool :=
  noted e key.DECLARED_BY_ENTRY || is_kernel_interface (rel r (e_source e)).

(** The verdict of the file the entry is about. *)
Definition judge_source (r : root) (source : path) (about : bool) (a : answers) (e : Entry.entry) : prog Entry.entry :=
  match pm_get a source with
  | None => Ret e
  | Some verdict =>
      x ← (if about then through_link r source verdict a #"resolves_to" e else Ret (verdict, e));
      let '(verdict, e) := x in
      Ret (set_provenance (flag_verdict verdict e) verdict)
  end.

Definition apply_provenance (r : root) (a : answers) (e : Entry.entry) : prog Entry.entry :=
  let about := about_target r e in
  let guarded := is_guarded e in
  let subject := if about && negb guarded then rel r <$> e_target_path e else None in
  let e := match subject with Some s => Entry.note e #"provenance_of" (from_utf8_lossy (abs r s)) | None => e end in
  let source := default (rel r (e_source e)) subject in
  if is_kernel_interface source then
    Ret (Entry.note e #"provenance_caveat" #"read from a kernel interface, not a file a package can own")
  else
    e ← judge_source r source about a e;
    let e := match e_raw e !! #"chain_from" with
             | Some from =>
                 let verified := match pm_get a (rel r from) with Some v => Provenance.is_verified v | None => false end in
                 Entry.note e #"chain_from_provenance" (if verified then #"intact" else #"unverified")
             | None => e
             end in
    match e_target_path e with
    | None => Ret e
    | Some target =>
        let target := rel r target in
        if path_eqb target source || guarded then Ret e
        else
          match pm_get a target with
          | Some v =>
              x ← through_link r target v a #"target_resolves_to" e;
              judge_target r target (Some (fst x)) (snd x)
          | None => judge_target r target None e
          end
    end.

(** ** The target itself *)

(** A specifier or a glob: [None] where the path names one file. *)
Fixpoint has_specifier (text : bytes) : bool :=
  match text with
  | [] => false
  | c :: rest =>
      if bool_decide (c = "%"%byte) then
        match rest with
        | n :: rest' =>
            if bool_decide (n = "%"%byte) then has_specifier rest'
            else if is_ascii_lower n || is_ascii_upper n then true else has_specifier rest
        | [] => false
        end
      else has_specifier rest
  end.
Definition unverifiable (target : path) : option bytes :=
  let text := from_utf8_lossy target in
  if has_specifier text then Some #"unexpanded specifier"
  else if existsb (is_byte "*") text || existsb (is_byte "?") text || (existsb (is_byte "[") text && existsb (is_byte "]") text)
  then Some #"glob pattern" else None.

Definition is_file_where (f : meta -> bool) (r : root) (p : path) : prog bool :=
  m ← stat_follow r p; Ret match m with Ok m => m_is_file m && f m | Err _ => false end.

(** Absent, but for a guard a finding. *)
Definition judge_absent (e : Entry.entry) : Entry.entry :=
  match (match e_raw e !! key.GUARDED_BY_TEST with Some how => Some how | None => e_raw e !! key.GUARDED_BY_CONDITION end) with
  | Some how => Entry.set_target_verdict e (TargetVerdict.AbsentGuarded how)
  | None => Entry.flag e Flag.TargetMissing
  end.

Definition note_digest `{Digests} (r : root) (hashed : path) (e : Entry.entry) : prog Entry.entry :=
  refused ← (if noted e #"not_followed" then m ← stat r hashed; Ret match m with Ok m => m_is_symlink m | Err _ => false end
             else Ret false);
  if bool_decide (is_Some (e_target_sha256 e)) || refused then Ret e
  else
    d ← digests r hashed;
    match d with
    | Some d => Ret (set_target_sha256 e (Some (fd_sha256 d)))
    | None =>
        large ← is_file_where (fun m => (HASH_SIZE_LIMIT <? m_size m)%N) r hashed;
        Ret (if large : bool then
               Entry.note e #"digest_skipped" (#"the file is larger than " ++ dec (N.shiftr HASH_SIZE_LIMIT 20) ++ #" MiB")
             else e)
    end.

(** The last two steps of [apply_target], which its early return skips. *)
Definition apply_hashed `{Digests} (r : root) (hashed : path) (e : Entry.entry) : prog Entry.entry :=
  e ← note_digest r hashed e;
  let about_itself := match e_target_path e with Some t => path_eqb (rel r t) (rel r (e_source e)) | None => true end in
  empty ← (if about_itself then is_file_where (fun m => bool_decide (m_size m = 0%N)) r hashed else Ret false);
  Ret (if empty : bool then Entry.note e key.EMPTY_FILE #"true" else e).

Definition apply_target `{Digests} (r : root) (e : Entry.entry) : prog Entry.entry :=
  match e_target_path e with
  | Some target =>
      match unverifiable target with
      | Some why => Ret (Entry.note e key.TARGET_UNVERIFIABLE why)
      | None =>
          let p := rel r target in
          there ← exists_ r p;
          apply_hashed r p (if there : bool then e else judge_absent e)
      end
  | None =>
      apply_hashed r (rel r (e_source e))
        (if bool_decide (is_Some (e_command e)) && negb (noted e key.TARGET_UNVERIFIABLE)
         then Entry.flag e Flag.TargetUnresolvable else e)
  end.

(** ** Where it lies *)

Definition standard_roots (k : kind) : list bytes :=
  match k with
  | Kind.SystemdUnit | Kind.SystemdTimer | Kind.SystemdGenerator =>
      [ #"/etc/systemd/"; #"/etc/xdg/systemd/user/"; #"/run/systemd/"; #"/usr/lib/systemd/"; #"/lib/systemd/";
        #"/usr/local/lib/systemd/"; #"/usr/share/systemd/user/"; #"/usr/local/share/systemd/user/"]
  | Kind.Udev => [ #"/etc/udev/"; #"/run/udev/"; #"/usr/local/lib/udev/"; #"/usr/lib/udev/"; #"/lib/udev/"]
  | Kind.KernelModule =>
      [ #"/etc/modules"; #"/etc/modules-load.d/"; #"/etc/modprobe.d/"; #"/run/modules-load.d/"; #"/run/modprobe.d/";
        #"/usr/local/lib/modules-load.d/"; #"/usr/local/lib/modprobe.d/"; #"/usr/lib/modprobe.d/"; #"/lib/modprobe.d/";
        #"/usr/lib/modules-load.d/"; #"/lib/modules-load.d/"; #"/proc/modules"]
  | Kind.XdgAutostart =>
      [ #"/etc/xdg/autostart/"; #"/etc/xdg/xdg-"; #"/usr/share/gnome/autostart/"; #"/usr/local/share/gnome/autostart/";
        #"/usr/share/mate/autostart/"; #"/usr/local/share/mate/autostart/"; #"/etc/xdg/Xwayland-session.d/"]
  | Kind.Tmpfiles =>
      [ #"/etc/tmpfiles.d/"; #"/run/tmpfiles.d/"; #"/usr/local/lib/tmpfiles.d/"; #"/usr/lib/tmpfiles.d/"; #"/lib/tmpfiles.d/";
        #"/usr/local/share/user-tmpfiles.d/"; #"/usr/share/user-tmpfiles.d/"]
  | Kind.SystemdPreset =>
      [ #"/etc/systemd/"; #"/run/systemd/"; #"/usr/local/lib/systemd/"; #"/usr/lib/systemd/"; #"/lib/systemd/"]
  | Kind.Cron => [ #"/etc/crontab"; #"/etc/cron"; #"/etc/anacrontab"; #"/etc/periodic"; #"/var/spool/cron"]
  | _ => []
  end.
Definition per_home (k : kind) : list bytes :=
  match k with
  | Kind.XdgAutostart => [ #".config/autostart/"; #".config/autostart-scripts/"; #".config/plasma-workspace/"]
  | Kind.Tmpfiles => [ #".config/user-tmpfiles.d/"; #".local/share/user-tmpfiles.d/"]
  | Kind.SystemdUnit | Kind.SystemdTimer =>
      [ #".config/systemd/user/"; #".config/systemd/user.control/"; #".local/share/systemd/user/"]
  | _ => []
  end.
Definition VENDOR_TREES : list bytes :=
  [ #"/usr/lib/"; #"/usr/lib64/"; #"/usr/libexec/"; #"/usr/bin/"; #"/usr/sbin/"; #"/usr/share/"; #"/lib/"; #"/lib64/";
    #"/bin/"; #"/sbin/"].

Definition in_root (r : root) (p : path) : path := path_join #"/" (rel r p).
Definition acceptable (r : root) (k : kind) : list bytes :=
  standard_roots k ++ (r_homes r ≫= fun home => List.map (fun sub => display_path (in_root r home) ++ [slash] ++ sub) (per_home k)).
Definition under_some (prefixes : list bytes) (p : path) : bool :=
  existsb (fun x => starts_with x (from_utf8_lossy p)) prefixes.

Definition resolve_link (r : root) (source target : path) : path :=
  if is_absolute target then abs r (rel r target)
  else match parent source with
       | Some dir => abs r (rel r (path_join dir target))
       | None => target
       end.

Definition apply_location (r : root) (e : Entry.entry) : Entry.entry :=
  if bool_decide (standard_roots (e_kind e) = []) then e
  else
    let inside := under_some (acceptable r (e_kind e)) in
    match e_raw e !! key.SYMLINK_TARGET with
    | Some target =>
        if bool_decide (target = #"/dev/null") then e
        else
          let resolved := in_root r (resolve_link r (e_source e) target) in
          let e := flag_if (negb (inside resolved) && negb (under_some VENDOR_TREES resolved)) e Flag.NonStandardLocation in
          flag_if (is_hidden_path resolved) e Flag.HiddenPath
    | None => flag_if (negb (inside (in_root r (e_source e)))) e Flag.NonStandardLocation
    end.

(** ** What a command holds *)

Definition BASE64_RUN : nat := 48.
Definition HEX_RUN : nat := 160.
Inductive alphabet := Hex | Base64.
Definition alphabet_str (a : alphabet) : bytes := match a with Hex => #"hex" | Base64 => #"base64" end.

Definition is_core (b : byte) : bool := is_ascii_alphanumeric b || bool_decide (b ∈ #"+_").
Definition is_ascii_hexdigit (b : byte) : bool :=
  is_ascii_digit b || byte_in "a" "f" b || byte_in "A" "F" b.

Definition threshold (a : alphabet) : nat := match a with Hex => HEX_RUN | Base64 => BASE64_RUN end.
(** A run is its characters and up to two of padding. *)
Definition run_length (body pad : bytes) : nat := length body + length pad.
Definition alphabet_of (body pad : bytes) : alphabet :=
  if bool_decide (pad = []) && forallb is_ascii_hexdigit body then Hex else Base64.
Definition better (start : nat) (body pad : bytes) (best : option (nat * nat * alphabet)) : option (nat * nat * alphabet) :=
  let len := run_length body pad in
  let a := alphabet_of body pad in
  if (threshold a <=? len) && (match best with Some (_, seen, _) => seen | None => 0 end <? len)
  then Some (start, len, a) else best.

Fixpoint encoded_from (fuel i : nat) (rest : bytes) (best : option (nat * nat * alphabet)) : option (nat * nat * alphabet) :=
  match fuel with
  | O => best
  | S fuel =>
      match rest with
      | [] => best
      | b :: rest' =>
          if negb (is_core b) then encoded_from fuel (S i) rest' best
          else
            let body := take_while is_core rest in
            let pad := take 2 (take_while (is_byte eq_sign) (drop (length body) rest)) in
            let len := run_length body pad in
            encoded_from fuel (i + len) (drop len rest) (better i body pad best)
      end
  end.
Definition encoded_run (command : bytes) : option (nat * nat * alphabet) :=
  encoded_from (S (length command)) 0 command None.

Definition not_text (e : Entry.entry) : bool :=
  match e_command e with Some c => negb (is_utf8 c) | None => false end
  || match e_target_path e with Some p => negb (is_utf8 p) | None => false end
  || negb (is_utf8 (e_source e)).
Definition apply_encoding (e : Entry.entry) : Entry.entry :=
  let e := flag_if (not_text e) e Flag.EncodingAnomaly in
  match e_command e ≫= encoded_run with
  | Some (offset, len, a) =>
      Entry.note (Entry.flag e Flag.EncodingAnomaly) #"encoded_run"
        (alphabet_str a ++ #", " ++ dec (N.of_nat len) ++ #" chars at offset " ++ dec (N.of_nat offset))
  | None => e
  end.

(** ** Who can write its search path *)

(** A path split at the colons outside [${...}]; [depth] of those are open. *)
Fixpoint components_from (depth : nat) (p : bytes) : list bytes :=
  match p with
  | [] => [[]]
  | c :: rest =>
      let open := bool_decide (c = "$"%byte) && bool_decide (head rest = Some "{"%byte) in
      let depth' := if open then S depth
                    else if bool_decide (c = "}"%byte) then Nat.pred depth else depth in
      if bool_decide (c = ":"%byte) && bool_decide (depth = 0) then [] :: components_from depth rest
      else match components_from depth' rest with
           | w :: ws => (c :: w) :: ws
           | [] => [[c]]
           end
  end.
Definition path_components (p : bytes) : list bytes := components_from 0 p.

Definition GROUP_WRITE : N := 0x10.
(** Who but root and [owner] can write a directory. *)
Definition writable_by (owner : N) (m : meta) : option bytes :=
  if world_writable m then Some #"world-writable"
  else if negb (bool_decide (N.land (m_mode m) GROUP_WRITE = 0%N)) && negb (bool_decide (m_gid m = 0%N))
  then Some (#"writable by group " ++ dec (m_gid m))
  else if negb (bool_decide (m_uid m = 0%N)) && negb (bool_decide (m_uid m = owner))
  then Some (#"owned by uid " ++ dec (m_uid m))
  else None.

Definition untrusted_component (r : root) (owner : N) (d : bytes) : prog (option bytes) :=
  if existsb (is_byte "$") d || starts_with #"~" d then Ret None
  else if negb (starts_with [slash] d) then
    Ret (Some ((match d with [] => #"an empty entry" | _ => d end) ++ #" (relative: the current directory)"))
  else
    m ← stat_follow r (rel r d);
    Ret match m with
        | Ok m => if m_is_dir m then (fun why => d ++ #" (" ++ why ++ #")") <$> writable_by owner m else None
        | Err _ => None
        end.

Definition searched (e : Entry.entry) : option (list bytes) :=
  if bool_decide (e_kind e = Kind.LibraryDir) then Some [e_name e]
  else path_components <$> e_raw e !! #"env.PATH".
Definition writable_search_path (r : root) (e : Entry.entry) : prog Entry.entry :=
  match searched e with
  | None => Ret e
  | Some dirs =>
      found ← traverse (untrusted_component r (e_owner_uid e)) dirs;
      Ret match omap id found with
          | [] => e
          | found => Entry.note (Entry.flag e Flag.WritableSearchPath) #"writable_search_path" (join #"; " found)
          end
  end.

(** ** What other entries say of it *)

Definition split_sub (sep : bytes) : nat -> bytes -> list bytes :=
  fix go fuel s :=
    match fuel with
    | O => [s]
    | S fuel => match split_once sep s with Some (a, rest) => a :: go fuel rest | None => [s] end
    end.

Definition key_verdicts (es : list Entry.entry) : gmap bytes bool :=
  foldl (fun m e =>
    if bool_decide (e_kind e = Kind.PkgSource) && starts_with #"key:" (e_name e)
    then <[from_utf8_lossy (e_source e) := Provenance.is_verified (e_provenance e)]> m else m) ∅ es.
Definition vouch_for_source (verified : gmap bytes bool) (e : Entry.entry) : Entry.entry :=
  if negb (bool_decide (e_kind e = Kind.PkgSource)) || noted e key.SIGNATURE_CHECKING then e
  else
    match e_raw e !! key.TRUSTS with
    | Some trusts =>
        if forallb (fun k => default false (verified !! k)) (split_sub #", " (length trusts) trusts)
        then Entry.note e key.VOUCHED #"every key it trusts is packaged and intact" else e
    | None => e
    end.
Definition vouch_for_sources (es : list Entry.entry) : list Entry.entry := vouch_for_source (key_verdicts es) <$> es.

Definition vouch_for_template (r : root) (a : answers) (e : Entry.entry) : Entry.entry :=
  match e_raw e !! key.MATCHES_TEMPLATE with
  | Some template =>
      match pm_get a (rel r template) with
      | Some v => if Provenance.is_verified v then Entry.note e key.VOUCHED #"a line of the packaged template, unchanged" else e
      | None => e
      end
  | None => e
  end.
Definition vouch_for_templates (r : root) (a : answers) (es : list Entry.entry) : list Entry.entry := vouch_for_template r a <$> es.

Record super_server := mk_super_server { ss_daemon : bytes; ss_units : list bytes; ss_scripts : list bytes }.
Definition SUPER_SERVERS : list super_server :=
  [mk_super_server #"xinetd" [ #"xinetd.service"] [ #"xinetd"];
   mk_super_server #"inetd" [ #"inetd.service"; #"openbsd-inetd.service"; #"inetutils-inetd.service"]
     [ #"inetd"; #"openbsd-inetd"; #"inetutils-inetd"]].

Definition state_of (es : list Entry.entry) (k : kind) (names : list bytes) : option enablement :=
  let found := e_enabled <$> List.filter (fun e => bool_decide (e_kind e = k) && mem (e_name e) names) es in
  match found with
  | [] => None
  | _ =>
      Some (if existsb (fun s => mem s [Enablement.Enabled; Enablement.Static]) found then Enablement.Enabled
            else if mem Enablement.Unknown found then Enablement.Unknown else Enablement.Disabled)
  end.
Definition daemon_state (es : list Entry.entry) (d : super_server) : option (enablement * bytes) :=
  match state_of es Kind.SystemdUnit (ss_units d), state_of es Kind.SysvInit (ss_scripts d) with
  | Some s, _ => Some (s, #"systemd unit")
  | None, Some s => Some (s, #"init script")
  | None, None => None
  end.
Definition gate (d : super_server) (state : option (enablement * bytes)) (e : Entry.entry) : Entry.entry :=
  if negb (bool_decide (e_kind e = Kind.InetdService)) || negb (bool_decide (e_raw e !! key.DAEMON = Some (ss_daemon d))) then e
  else
    match state with
    | None => Entry.note e #"daemon_state" (#"no unit or init script for " ++ ss_daemon d ++ #" found")
    | Some (s, by_) =>
        let e := Entry.note e #"daemon_state" (ss_daemon d ++ #" " ++ by_ ++ #" " ++ Enablement.as_str s) in
        if bool_decide (e_enabled e = Enablement.Enabled) && negb (bool_decide (s = Enablement.Enabled))
        then set_enabled (Entry.note e key.INFERRED_ENABLEMENT (Enablement.as_str (e_enabled e))) s else e
    end.
Definition gate_on_super_server (es : list Entry.entry) : list Entry.entry :=
  foldl (fun es d => gate d (daemon_state es d) <$> es) es SUPER_SERVERS.

Definition apply_shadowing (es : list Entry.entry) : list Entry.entry :=
  (fun e => flag_if (noted e key.SHADOWS) e Flag.ShadowsVendorUnit) <$> es.

Definition suspicious (es : list Entry.entry) : list path :=
  e_source <$> List.filter (fun e => bool_decide (e_kind e = Kind.SuidBinary) && bool_decide (e_provenance e = Provenance.Unpackaged)) es.
Definition cross_reference_suid (es : list Entry.entry) : list Entry.entry :=
  let suid := suspicious es in
  (fun e =>
     if bool_decide (e_kind e = Kind.SuidBinary) then e
     else match e_target_path e with
          | Some t => if existsb (path_eqb t) suid then Entry.note e #"target_is_unpackaged_suid" #"true" else e
          | None => e
          end) <$> es.

(** ** Setuid bits added after a package was installed *)

Definition SETID_BITS : N := 0xC00.
Definition setuid_changed_after_install (r : root) (e : Entry.entry) : prog Entry.entry :=
  if negb (bool_decide (e_kind e = Kind.SuidBinary)) || negb (is_live r) then Ret e
  else
    match e_provenance e with
    | Provenance.Packaged package _ _ =>
        let p := rel r (e_source e) in
        file ← stat r p;
        match file with
        | Err _ => Ret e
        | Ok file =>
            if bool_decide (N.land (m_mode file) SETID_BITS = 0%N) then Ret e
            else
              w ← list_written r package;
              match w, m_ctime file with
              | Some (list_, installed), Some ctime =>
                  sanctioned ← statoverridden r p;
                  if sanctioned : bool then Ret e
                  else
                    match changed_after_install ctime installed with
                    | Some after =>
                        Ret (Entry.note e key.CHANGED_AFTER_INSTALL
                               (#"inode changed " ++ dec (Z.to_N (after / 1000000000)) ++ #"s after " ++ list_ ++ #" was written"))
                    | None =>
                        touched ← list_touched r list_ installed;
                        Ret (if touched : bool then
                               Entry.note e key.CHANGED_AFTER_INSTALL
                                 (list_ ++ #" is newer than every file it names, so it cannot date this one")
                             else e)
                    end
              | _, _ => Ret e
              end
        end
    | _ => Ret e
    end.
