(* ===== verification/JudgeLaws.v ===== *)
(** [src/enrich.rs]: the laws of what an entry is judged by. *)

From S2P Require Import Prelude Slices Order Num Utf8 Paths PathMap Kinds Entry Sys Root Tree Scan Provenance Dpkg Collect Targets Judge.

(** ** The longest encoded run *)

(** A maximal run of encoding characters and where it begins. *)
Record block (c : bytes) (j : nat) (body : bytes) : Prop := mk_block {
  bl_core : Forall (fun b => is_core b = true) body;
  bl_some : body <> [];
  bl_after : exists post, drop j c = body ++ post /\ forall b, head post = Some b -> is_core b = false;
  bl_before : forall k b, j = S k -> c !! k = Some b -> is_core b = false
}.
Definition padding (c : bytes) (j : nat) (body : bytes) : bytes :=
  take 2 (take_while (is_byte eq_sign) (drop (length body) (drop j c))).
Definition size_at (c : bytes) (j : nat) (body : bytes) : nat := run_length body (padding c j body).
Definition alphabet_at (c : bytes) (j : nat) (body : bytes) : alphabet := alphabet_of body (padding c j body).
(** A run long enough for its alphabet. *)
Definition long (c : bytes) (j : nat) (body : bytes) : Prop :=
  block c j body /\ threshold (alphabet_at c j body) <= size_at c j body.

(** The best of the long runs that satisfy [P]: no other is longer, none
    before it as long. *)
Definition best_of (c : bytes) (P : nat -> Prop) (best : option (nat * nat * alphabet)) : Prop :=
  match best with
  | None => forall j body, P j -> ~ long c j body
  | Some (s, len, a) =>
      P s /\ (exists body, long c s body /\ len = size_at c s body /\ a = alphabet_at c s body) /\
      forall j body, P j -> long c j body -> size_at c j body <= len /\ (size_at c j body = len -> s <= j)
  end.

Lemma block_body c j body : block c j body -> take_while is_core (drop j c) = body.
Proof. intros [Hc _ (post & -> & Hp) _]. by apply take_while_app. Qed.

Lemma block_head c j body : block c j body -> exists b, c !! j = Some b /\ is_core b = true.
Proof.
  intros [Hc Hs (post & E & _) _]. destruct body as [|b body]; [done|]. exists b. inversion_clear Hc. split; [|done].
  rewrite <- (Nat.add_0_r j), <- lookup_drop, E. done.
Qed.

(** Nothing begins inside a run, nor in what follows it up to [len]. *)
Lemma no_block_inside c i body len j body' :
  block c i body -> len = size_at c i body -> block c j body' -> i < j -> i + len <= j.
Proof.
  intros Hb -> Hb' Hj. destruct (decide (i + size_at c i body <= j)) as [|Hlt]; [done|]. exfalso.
  destruct (block_head _ _ _ Hb') as (b & Hbj & Hcore). destruct Hb as [Hc _ (post & E & Hp) _].
  assert (Hat : forall k, c !! (i + k) = (body ++ post) !! k) by (intros k; by rewrite <- E, lookup_drop).
  destruct (decide (j < i + length body)) as [Hin|Hout].
  - destruct j as [|k]; [lia|]. assert (Hk : exists b', c !! k = Some b' /\ is_core b' = true).
    { destruct (lookup_lt_is_Some_2 body (k - i)) as [b' Hb'']; [lia|]. exists b'. split.
      - replace k with (i + (k - i)) by lia. rewrite Hat. by apply lookup_app_l_Some.
      - rewrite Forall_lookup in Hc. by eapply Hc. }
    destruct Hk as (b' & Hk & Hcb'). rewrite (bl_before _ _ _ Hb' k b' eq_refl Hk) in Hcb'. done.
  - unfold size_at, run_length, padding in Hlt. rewrite E, drop_app_length in Hlt.
    assert (Hpost : post !! (j - i - length body) = Some b).
    { rewrite <- Hbj. replace j with (i + (j - i)) at 2 by lia. rewrite Hat. rewrite lookup_app_r by lia. done. }
    destruct (take_while_split (is_byte eq_sign) post) as (r & Er & Ht & _). rewrite length_take in Hlt.
    assert (Hb2 : is_byte eq_sign b = true).
    { rewrite Er, lookup_app_l in Hpost by lia. rewrite Forall_lookup in Ht. by eapply Ht. }
    unfold is_byte in Hb2. apply bool_decide_eq_true in Hb2 as ->. done.
Qed.

Lemma best_of_weaken c (P Q : nat -> Prop) best :
  best_of c P best -> (forall j, P j -> Q j) -> (forall j body, Q j -> block c j body -> P j) -> best_of c Q best.
Proof.
  intros Hb HP HQ. destruct best as [[[s len] a]|]; cbn in *.
  - destruct Hb as (H0 & H1 & H2). repeat split; [by apply HP|done|..]; intros; eapply H2; try done; by eapply HQ; [|apply H3].
  - intros j body Hj Hl. eapply Hb; [by eapply HQ; [|apply Hl]|done].
Qed.

Lemma best_of_better c i body best :
  block c i body -> best_of c (fun j => j < i) best ->
  best_of c (fun j => j <= i) (better i body (padding c i body) best).
Proof.
  intros Hb Hbest. unfold better. fold (size_at c i body). fold (alphabet_at c i body).
  assert (Huniq : forall body', long c i body' -> body' = body).
  { intros body' [Hb' _]. rewrite <- (block_body _ _ _ Hb). symmetry. by apply block_body. }
  destruct ((threshold (alphabet_at c i body) <=? size_at c i body) && _) eqn:Hc.
  - apply andb_prop in Hc as [Ht Hlt]. apply Nat.leb_le in Ht. apply Nat.ltb_lt in Hlt. split; [done|]. split; [by exists body|].
    intros j body' Hj Hl. destruct (decide (j = i)) as [->|Hne]; [by rewrite (Huniq body' Hl)|].
    destruct best as [[[s len] a]|]; cbn in Hbest.
    + destruct Hbest as (_ & _ & H2). destruct (H2 j body'); [lia|done|]. lia.
    + exfalso. apply (Hbest j body'); [lia|done].
  - destruct best as [[[s len] a]|]; cbn in Hbest |- *.
    + destruct Hbest as (H0 & H1 & H2). split; [lia|]. split; [done|]. intros j body' Hj Hl.
      destruct (decide (j = i)) as [->|Hne]; [|by apply H2; [lia|]].
      pose proof (Huniq body' Hl) as ->. destruct Hl as [_ Ht%Nat.leb_le]. rewrite Ht, andb_true_l in Hc. apply Nat.ltb_ge in Hc. lia.
    + intros j body' Hj Hl. destruct (decide (j = i)) as [->|Hne]; [|by eapply Hbest; [|exact Hl]; lia].
      pose proof (Huniq body' Hl) as ->. destruct Hl as [Hbl Ht]. apply Nat.leb_le in Ht. rewrite Ht, andb_true_l in Hc.
      apply Nat.ltb_ge in Hc. unfold size_at, run_length in Hc. apply (bl_some _ _ _ Hb). apply length_zero_iff_nil. lia.
Qed.

(** The scan stands where no run is under way. *)
Definition between (c : bytes) (i : nat) : Prop :=
  forall k b b', i = S k -> c !! k = Some b -> c !! i = Some b' -> is_core b = true -> is_core b' = false.

Lemma block_here c i b rest :
  drop i c = b :: rest -> is_core b = true -> between c i -> block c i (take_while is_core (b :: rest)).
Proof.
  intros E Hb Hi. destruct (take_while_split is_core (b :: rest)) as (r & Er & Ht & Hr). constructor; [done| |by exists r; rewrite E|].
  - cbn. by rewrite Hb.
  - intros k b' -> Hk. destruct (is_core b') eqn:Hb'; [|done].
    assert (Hat : c !! S k = Some b) by (rewrite <- (Nat.add_0_r (S k)), <- lookup_drop, E; done).
    by rewrite (Hi k b' b eq_refl Hk Hat Hb') in Hb.
Qed.

Lemma between_after c i body : block c i body -> between c (i + size_at c i body).
Proof.
  intros [Hc Hs (post & E & Hp) _] k b b' Hk Hbk Hbk' Hcore. unfold size_at, run_length, padding in *. rewrite E, drop_app_length in *.
  assert (Hat : forall k, c !! (i + k) = (body ++ post) !! k) by (intros n; by rewrite <- E, lookup_drop).
  destruct (take_while_split (is_byte eq_sign) post) as (r & Er & Ht & _). rewrite length_take in *.
  set (n := Nat.min 2 (length (take_while (is_byte eq_sign) post))) in *. destruct (decide (n = 0)) as [Hn|Hn].
  - apply Hp. rewrite Hat, lookup_app_r in Hbk' by lia. rewrite <- Hbk', head_lookup. f_equal. lia.
  - exfalso. assert (Hkk : k = i + (length body + (n - 1))) by lia. rewrite Hkk, Hat, lookup_app_r in Hbk by lia.
    rewrite Er, lookup_app_l in Hbk by lia. rewrite Forall_lookup in Ht. specialize (Ht _ _ Hbk).
    unfold is_byte in Ht. apply bool_decide_eq_true in Ht as ->. done.
Qed.

Lemma encoded_from_best c fuel i rest best :
  drop i c = rest -> length rest < fuel -> between c i -> best_of c (fun j => j < i) best ->
  best_of c (fun _ => True) (encoded_from fuel i rest best).
Proof.
  revert i rest best. induction fuel as [|fuel IH]; intros i rest best E Hf Hi Hbest; [lia|]. cbn [encoded_from].
  destruct rest as [|b rest].
  { eapply best_of_weaken; [exact Hbest|done|]. intros j body _ (b & Hj & _)%block_head.
    apply lookup_lt_Some in Hj. apply (f_equal length) in E. rewrite length_drop in E. cbn in E. lia. }
  assert (Hat : c !! i = Some b) by (rewrite <- (Nat.add_0_r i), <- lookup_drop, E; done).
  destruct (is_core b) eqn:Hb; cbn [negb].
  - set (body := take_while is_core (b :: rest)). assert (Hbl : block c i body) by (by apply block_here).
    replace (drop (length body) (b :: rest)) with (drop (length body) (drop i c)) by (by rewrite E). fold (padding c i body).
    fold (size_at c i body). apply IH.
    + by rewrite <- E, drop_drop.
    + rewrite length_drop. cbn [length] in *. assert (0 < size_at c i body); [|lia]. pose proof (bl_some _ _ _ Hbl).
      unfold size_at, run_length. destruct body; [done|]. cbn [length]. lia.
    + by apply between_after.
    + eapply best_of_weaken; [by apply best_of_better| |].
      * intros j Hj. cbn in Hj. pose proof (bl_some _ _ _ Hbl). unfold size_at, run_length. destruct body; [done|]. cbn [length]. lia.
      * intros j body' Hj Hbl'. destruct (decide (j <= i)); [done|]. pose proof (no_block_inside _ _ _ _ _ _ Hbl eq_refl Hbl'). lia.
  - apply IH.
    + rewrite <- Nat.add_1_r, <- drop_drop, E. done.
    + cbn in Hf. lia.
    + intros k b1 b2 [= <-] H1 _ H3. rewrite Hat in H1. congruence.
    + eapply best_of_weaken; [exact Hbest|cbn; lia|]. intros j body Hj (b' & Hj' & Hb')%block_head. cbn in *.
      destruct (decide (j = i)) as [->|]; [congruence|lia].
Qed.

(** The encoding anomaly reported is the longest run of encoding characters
    that reaches its alphabet's threshold, 160 for one wholly hexadecimal and 48
    for any other, counted with up to two of padding, and the first of those as
    long; and where none is reported, none reaches it. *)
Theorem encoded_run_longest (command : bytes) : best_of command (fun _ => True) (encoded_run command).
Proof.
  apply encoded_from_best; [done|lia|by intros k ? ? [=]|]. intros j body Hj. lia.
Qed.

(** ** Search paths *)

Definition colon : bytes := #":".

Lemma components_from_cons depth p : exists w ws, components_from depth p = w :: ws.
Proof.
  destruct p as [|c p]; [by exists [], []|]. cbn [components_from]. destruct (_ && bool_decide (depth = 0)); [by eexists _, _|].
  destruct (components_from _ p); by eexists _, _.
Qed.

Lemma join_head c w ws : join colon ((c :: w) :: ws) = c :: join colon (w :: ws).
Proof. by destruct ws. Qed.
Lemma join_components depth p : join colon (components_from depth p) = p.
Proof.
  revert depth. induction p as [|c p IH]; intros depth; [done|]. cbn [components_from].
  set (depth' := if _ && _ then S depth else _). clearbody depth'.
  destruct (bool_decide (c = ":"%byte) && bool_decide (depth = 0)) eqn:Hc.
  - apply andb_prop in Hc as [->%bool_decide_eq_true _]. pose proof (IH depth) as E.
    destruct (components_from_cons depth p) as (w & ws & Ew). rewrite Ew in *.
    change (join colon ([] :: w :: ws)) with (":"%byte :: join colon (w :: ws)). by rewrite E.
  - pose proof (IH depth') as E. destruct (components_from_cons depth' p) as (w & ws & Ew). rewrite Ew in *.
    by rewrite join_head, E.
Qed.

Lemma components_plain p : "$"%byte ∉ p -> components_from 0 p = split_on (is_byte ":"%byte) p.
Proof.
  induction p as [|c p IH]; [done|]. rewrite not_elem_of_cons. intros [Hc Hp]. cbn [components_from split_on].
  rewrite (bool_decide_false (c = "$"%byte)) by congruence. unfold is_byte at 1. cbn [andb].
  replace (if bool_decide (c = "}"%byte) then Nat.pred 0 else 0) with 0 by (by case_bool_decide). rewrite IH by done.
  rewrite andb_true_r. destruct (bool_decide (c = ":"%byte)); [done|]. by destruct (split_on _ p).
Qed.

(** A search path is split at colons and nothing is lost: joined again, its
    components are the path; without a dollar sign they are the pieces between
    its colons. *)
Theorem path_components_join (p : bytes) :
  join colon (path_components p) = p /\
  ("$"%byte ∉ p -> path_components p = split_on (is_byte ":"%byte) p).
Proof. split; [apply join_components|apply components_plain]. Qed.

(** A component that searches the current directory, or a directory an
    account besides root and [owner] can put a file in. *)
Definition open_component (h : snapshot) (r : root) (owner : N) (d : bytes) : Prop :=
  "$"%byte ∉ d /\ starts_with #"~" d = false /\
  (starts_with [slash] d = false \/
   starts_with [slash] d = true /\ exists m, run h (stat_follow r (rel r d)) = Ok m /\ m_is_dir m = true /\
     (world_writable m = true \/ N.land (m_mode m) GROUP_WRITE <> 0%N /\ m_gid m <> 0%N \/ m_uid m <> 0%N /\ m_uid m <> owner)).

Lemma writable_by_some owner m :
  is_Some (writable_by owner m) <->
  world_writable m = true \/ N.land (m_mode m) GROUP_WRITE <> 0%N /\ m_gid m <> 0%N \/ m_uid m <> 0%N /\ m_uid m <> owner.
Proof.
  unfold writable_by. destruct (world_writable m); [split; [by left|done]|].
  repeat case_bool_decide; cbn [negb andb]; split; intros Hx; try (by eexists); try (by destruct Hx); naive_solver.
Qed.

Lemma untrusted_open h r owner d : is_Some (run h (untrusted_component r owner d)) <-> open_component h r owner d.
Proof.
  unfold untrusted_component, open_component.
  assert (Hd : existsb (is_byte "$") d = true <-> "$"%byte ∈ d).
  { rewrite existsb_exists. setoid_rewrite <- list_elem_of_In. split; [|by exists "$"%byte].
    intros (x & Hx & E). unfold is_byte in E. by apply bool_decide_eq_true in E as ->. }
  destruct (existsb (is_byte "$") d); cbn [orb]; [split; [by intros []|tauto]|].
  assert (Hn : "$"%byte ∉ d) by (intros ?%Hd; done). clear Hd.
  destruct (starts_with #"~" d); [split; [by intros []|]; intros (_ & [=] & _)|].
  destruct (starts_with [slash] d) eqn:Hs; cbn [negb].
  - rewrite run_bind. split.
    + cbn [run]. destruct (run h (stat_follow r (rel r d))) as [m|?]; [|by intros []].
      destruct (m_is_dir m) eqn:Em; [|by intros []]. rewrite fmap_is_Some. intros Hw%writable_by_some.
      split; [done|]. split; [done|]. right. split; [done|]. by exists m.
    + intros (_ & _ & [?|(_ & m & -> & Em & Hw)]); [done|]. cbn [run]. rewrite Em, fmap_is_Some. by apply writable_by_some.
  - cbn [run]. split; [|by eexists]. intros _. split; [done|]. split; [done|]. by left.
Qed.

Lemma omap_some {A B} (f : A -> option B) (P : A -> Prop) (l : list A) :
  (forall a, is_Some (f a) <-> P a) -> omap id (f <$> l) <> [] <-> Exists P l.
Proof.
  intros Hf. induction l as [|a l IH]; [split; [done|by intros ?%Exists_nil]|].
  rewrite fmap_cons, Exists_cons, <- IH, <- Hf. cbn [omap list_omap]. unfold id at 1.
  destruct (f a); [split; [by left|done]|]. split; [by right|]. by intros [[]|].
Qed.

(** The writable-search-path flag is raised on an entry exactly when its
    search path, or the library directory it is, holds a component that looks in
    the current directory or in a directory some account besides root and the
    owner of the file that sets it can write; one the shell would expand, one
    that is no directory, and one that cannot be looked at raise nothing. *)
Theorem search_path_flagged (h : snapshot) (r : root) (e : Entry.entry) (dirs : list bytes) :
  searched e = Some dirs -> Entry.has_flag e Flag.WritableSearchPath = false ->
  Entry.has_flag (run h (writable_search_path r e)) Flag.WritableSearchPath = true <->
  Exists (open_component h r (e_owner_uid e)) dirs.
Proof.
  intros Hs Hf. unfold writable_search_path. rewrite Hs, run_bind, run_traverse. cbn [run].
  rewrite <- (omap_some _ _ dirs (untrusted_open h r (e_owner_uid e))).
  destruct (omap id _) as [|w ws]; [by rewrite Hf|]. split; [done|]. intros _.
  apply (has_flag_flag e).
Qed.

(** ** Services a super-server starts *)

Lemma state_of_gate d state es k names :
  k <> Kind.InetdService -> state_of (gate d state <$> es) k names = state_of es k names.
Proof.
  intros Hk. unfold state_of.
  assert (E : e_enabled <$> List.filter (fun e => bool_decide (e_kind e = k) && mem (e_name e) names) (gate d state <$> es) =
              e_enabled <$> List.filter (fun e => bool_decide (e_kind e = k) && mem (e_name e) names) es); [|by rewrite E].
  induction es as [|e es IH]; [done|]. rewrite fmap_cons. cbn [List.filter].
  assert (Hg : e_kind (gate d state e) = e_kind e /\ e_name (gate d state e) = e_name e /\
               (e_kind e = k -> e_enabled (gate d state e) = e_enabled e)).
  { unfold gate. destruct (bool_decide (e_kind e = Kind.InetdService)) eqn:Ek; cbn [negb orb]; [|done].
    apply bool_decide_eq_true in Ek. destruct (negb _); [done|]. destruct state as [[s by_]|]; [|repeat split; congruence].
    cbv zeta. destruct (_ && _); repeat split; congruence. }
  destruct Hg as (-> & -> & He). destruct (bool_decide (e_kind e = k)) eqn:Ek; cbn [andb]; [|exact IH].
  destruct (mem (e_name e) names); [|exact IH]. rewrite !fmap_cons, IH. f_equal. apply He. by apply bool_decide_eq_true in Ek.
Qed.

Lemma daemon_state_gate d state es d' : daemon_state (gate d state <$> es) d' = daemon_state es d'.
Proof. unfold daemon_state. by rewrite !state_of_gate. Qed.

Lemma gate_other d state e : e_raw e !! key.DAEMON <> Some (ss_daemon d) -> gate d state e = e.
Proof. intros Hd. unfold gate. rewrite (bool_decide_false (e_raw e !! key.DAEMON = _)) by done. by rewrite orb_true_r. Qed.
Lemma gate_daemon d state e : e_raw (gate d state e) !! key.DAEMON = e_raw e !! key.DAEMON /\ e_kind (gate d state e) = e_kind e.
Proof.
  unfold gate. destruct (_ || _); [done|]. destruct state as [[s by_]|]; [|split; [by apply lookup_insert_ne|done]].
  cbv zeta. destruct (_ && _); cbn; (split; [|done]); by rewrite !lookup_insert_ne by done.
Qed.
Lemma gate_own d state e :
  e_kind e = Kind.InetdService -> e_raw e !! key.DAEMON = Some (ss_daemon d) -> e_enabled (gate d state e) = Enablement.Enabled ->
  state = None \/ exists by_, state = Some (Enablement.Enabled, by_).
Proof.
  intros Hk Hd. unfold gate. rewrite !bool_decide_true by done. cbn [negb orb]. destruct state as [[s by_]|]; [|by left].
  cbv zeta. change (e_enabled (Entry.note e ?k ?v)) with (e_enabled e).
  destruct (bool_decide (s = Enablement.Enabled)) eqn:Es; cbn [negb].
  - apply bool_decide_eq_true in Es as ->. right. by exists by_.
  - apply bool_decide_eq_false in Es. rewrite andb_true_r.
    destruct (bool_decide (e_enabled e = Enablement.Enabled)) eqn:He; cbn; [congruence|].
    by apply bool_decide_eq_false in He.
Qed.


Module GateDemo.
Definition blake3 : Blake3 := fun x => x.
Definition unit_ (s : enablement) : Entry.entry :=
  set_enabled (@Entry.new blake3 Kind.SystemdUnit #"/usr/lib/systemd/system/xinetd.service" #"xinetd.service") s.
Definition service : Entry.entry :=
  set_enabled (Entry.note (@Entry.new blake3 Kind.InetdService #"/etc/xinetd.d/telnet" #"telnet") key.DAEMON #"xinetd")
    Enablement.Enabled.
End GateDemo.
Example service_gated_demo :
  e_enabled <$> gate_on_super_server [GateDemo.unit_ Enablement.Disabled; GateDemo.service] = [Enablement.Disabled; Enablement.Disabled] /\
  e_enabled <$> gate_on_super_server [GateDemo.unit_ Enablement.Static; GateDemo.service] = [Enablement.Static; Enablement.Enabled].
Proof. split; vm_compute; reflexivity. Qed.

(** ** Where links lead *)

Module LinkDemo.
Definition tree : Tree.tree :=
  [( #"etc", Tree.Dir 0 0x1ED); ( #"etc/systemd", Tree.Dir 0 0x1ED); ( #"etc/systemd/system", Tree.Dir 0 0x1ED);
   ( #"etc/systemd/system/a.service", Tree.Link 0 #"/tmp/evil.service");
   ( #"etc/systemd/system/b.service", Tree.Link 0 #"../../../tmp/evil.service");
   ( #"tmp", Tree.Dir 0 0x3FF); ( #"tmp/evil.service", Tree.File 0 0x1A4 #"[Service]")].
Definition unit_ (name target : bytes) : Entry.entry :=
  Entry.note (@Entry.new GateDemo.blake3 Kind.SystemdUnit (#"/mnt/etc/systemd/system/" ++ name) name) key.SYMLINK_TARGET target.
End LinkDemo.

(** The location rule takes a relative link's target by its spelling: two links
    that lead to one file in /tmp, and only the absolute one is flagged. *)
Theorem relative_link_unflagged :
  let at_ p := run (Tree.kernel LinkDemo.tree) (Root.resolve Tree.offline p) in
  at_ #"etc/systemd/system/a.service" = Ok #"tmp/evil.service" /\
  at_ #"etc/systemd/system/b.service" = Ok #"tmp/evil.service" /\
  e_flags (apply_location Tree.offline (LinkDemo.unit_ #"a.service" #"/tmp/evil.service")) =
    [Flag.NonStandardLocation; Flag.HiddenPath] /\
  e_flags (apply_location Tree.offline (LinkDemo.unit_ #"b.service" #"../../../tmp/evil.service")) = [].
Proof. repeat split; vm_compute; reflexivity. Qed.

Module SearchDemo.
Definition tree : Tree.tree := [( #"tmp", Tree.Dir 0 0x3FF); ( #"bin", Tree.Dir 0 0x1ED)].
Definition profile (p : bytes) : Entry.entry :=
  Entry.note (@Entry.new GateDemo.blake3 Kind.ShellProfile #"/mnt/etc/profile" #"PATH") #"env.PATH" p.
Definition flagged (p : bytes) : bool :=
  Entry.has_flag (run (Tree.kernel tree) (writable_search_path Tree.offline (profile p))) Flag.WritableSearchPath.
End SearchDemo.
Example search_paths :
  SearchDemo.flagged <$> [ #"/bin:/tmp"; #"/bin:$HOME/bin:/none"; #"/bin:"; #"${PATH:+$PATH:}/bin"; #"bin"] =
  [true; false; true; false; true].
Proof. vm_compute. reflexivity. Qed.
Lemma search_path_flagged_witness :
  SearchDemo.flagged #"/bin:/tmp" = true <->
  Exists (open_component (Tree.kernel SearchDemo.tree) Tree.offline 0) [ #"/bin"; #"/tmp"].
Proof.
  apply (search_path_flagged (Tree.kernel SearchDemo.tree) Tree.offline (SearchDemo.profile #"/bin:/tmp") [ #"/bin"; #"/tmp"]).
  - vm_compute. reflexivity.
  - reflexivity.
Defined.
