(* ===== verification/Dbus.v ===== *)
(** [src/dbus.rs]: what the systemd managers answered, kept by path and
    manager, and whose answer decides a unit's enablement. What a bus says is
    data here; the connections and their deadlines are not modelled. *)

From S2P Require Import Prelude Slices Order Num Utf8 Paths PathMap Kinds Entry Sys Root Tree Scan Collect.

Definition SYSTEM : bytes := #"system".

(** [BTreeMap<String, String>]: a manager and the state it gave. *)
Abbreviation unit_file := (gmap bytes bytes).
Record manager := mk_manager {
  by_path : pmap unit_file;
  active : gmap (bytes * bytes) (bytes * bytes)
}.

(** [extend]: what comes later replaces. *)
Definition extend {K} `{Countable K} {V} (m m' : gmap K V) : gmap K V := m' ∪ m.
Definition fold_in (p : path) (f : unit_file) (m : pmap unit_file) : pmap unit_file :=
  pm_update ∅ (fun g => extend g f) p m.

(** What one manager answered: its unit files, and the units it has loaded. *)
Definition from_bus (id : bytes) (files : list (path * bytes)) (units : list (bytes * (bytes * bytes))) : option manager :=
  match files with
  | [] => None
  | _ =>
      Some (mk_manager (foldl (fun m ps => pm_update ∅ (<[id := snd ps]>) (fst ps) m) pm_empty files)
              (foldl (fun m u => <[(id, fst u) := snd u]> m) ∅ units))
  end.

Definition merge (self other : manager) : manager :=
  mk_manager (foldl (fun m pf => fold_in (fst pf) (snd pf) m) (by_path self) (pm_list (by_path other)))
    (extend (active self) (active other)).

Definition canonical_path (r : root) (p : path) : prog path :=
  let q := rel r p in
  match parent q, file_name q with
  | Some dir, Some name =>
      d ← Root.resolve r dir;
      Ret match d with Ok d => abs r (path_join d name) | Err _ => p end
  | _, _ => Ret p
  end.
Definition canonical (r : root) (self : manager) : prog manager :=
  m ← fold_prog (fun m pf => p ← canonical_path r (fst pf); Ret (fold_in p (snd pf) m)) pm_empty (pm_list (by_path self));
  Ret (mk_manager m (active self)).

(** The user managers there are: the uid of each and its bus. *)
Fixpoint buses_of (r : root) (ents : list dir_ent) : prog (list (N * bytes)) :=
  match ents with
  | [] => Ret []
  | ent :: ents =>
      match (if is_utf8 (de_name ent) then parse_unsigned U32_MAX (de_name ent) else None) with
      | None => buses_of r ents
      | Some uid =>
          let p := #"run/user/" ++ dec uid ++ #"/bus" in
          there ← exists_ r p;
          rest ← buses_of r ents;
          Ret (if there : bool then (uid, #"unix:path=" ++ display_path (abs r p)) :: rest else rest)
      end
  end.
Definition user_buses (r : root) : prog (list (N * bytes)) :=
  ents ← read_dir_optional r #"run/user";
  buses_of r (match ents with Ok ents => ents | Err _ => [] end).

(** ** Whose answer counts *)

Definition heard (may_answer : bytes -> bool) (f : unit_file) : list (bytes * bytes) :=
  List.filter (fun ms => may_answer (fst ms)) (btree_to_list f).
(** The state to apply, and the managers behind it. *)
Definition agreed (may_answer : bytes -> bool) (f : unit_file) : option (bytes * list bytes) :=
  let said := heard may_answer f in
  match find (fun ms => bool_decide (fst ms = SYSTEM)) said with
  | Some (_, state) => Some (state, [SYSTEM])
  | None =>
      match said with
      | [] => None
      | (_, first) :: _ =>
          if existsb (fun ms => negb (bool_decide (snd ms = first))) said then None else Some (first, fst <$> said)
      end
  end.
Definition breakdown (f : unit_file) : bytes := join #", " ((fun ms => fst ms ++ #"=" ++ snd ms) <$> btree_to_list f).

Definition enablement_of (state : bytes) : enablement :=
  if bool_decide (state ∈ [ #"enabled"; #"enabled-runtime"]) then Enablement.Enabled
  else if bool_decide (state = #"disabled") then Enablement.Disabled
  else if bool_decide (state ∈ [ #"masked"; #"masked-runtime"]) then Enablement.Masked
  else if bool_decide (state ∈ [ #"static"; #"indirect"; #"generated"; #"transient"; #"alias"; #"linked"; #"linked-runtime"])
  then Enablement.Static
  else Enablement.Unknown.

Definition unflag (e : Entry.entry) (f : flag) : Entry.entry :=
  set_flags e (List.filter (fun g => negb (bool_decide (g = f))) (e_flags e)).

(** The managers heard about an entry. *)
Definition may_answer (e : Entry.entry) (m : bytes) : bool :=
  match default Scope.System (e_raw e !! key.SCOPE ≫= Scope.from_label) with
  | Scope.User => starts_with #"user:" m
  | Scope.Home _ => bool_decide ((fun uid => #"user:" ++ uid) <$> e_raw e !! key.SCOPE_UID = Some m)
  | Scope.System => bool_decide (m = SYSTEM)
  end.

(** The template a link leads to, where no manager lists the link itself. *)
Definition template_file (self : manager) (e : Entry.entry) : option path :=
  t ← e_raw e !! key.SYMLINK_TARGET;
  template ← e_raw e !! key.TEMPLATE_UNIT;
  if bool_decide (file_name t = Some template) && negb (pm_mem (by_path self) (e_source e)) then Some t else None.

Definition keep_inferred (e : Entry.entry) : Entry.entry :=
  if bool_decide (e_enabled e = Enablement.Unknown) then e
  else Entry.note e key.INFERRED_ENABLEMENT (Enablement.as_str (e_enabled e)).

Definition answer_by_template (k : path) (state : bytes) (from : list bytes) (e : Entry.entry) : Entry.entry :=
  let template := match file_name k with Some n => from_utf8_lossy n | None => [] end in
  let e := Entry.note e #"unit_file_state" (state ++ #" (template " ++ template ++ #")") in
  let e := Entry.note e #"enablement_from" (join #", " from ++ #" (template)") in
  if mem (enablement_of state) [Enablement.Enabled; Enablement.Static] then unflag e Flag.DegradedEnablement else e.

Definition answer_by_file (self : manager) (state : bytes) (from : list bytes) (e : Entry.entry) : Entry.entry :=
  let e := set_enabled e (enablement_of state) in
  let e := Entry.note (Entry.note e #"unit_file_state" state) #"enablement_from" (join #", " from) in
  let e := unflag e Flag.DegradedEnablement in
  let e := match from with
           | [only] => match active self !! (only, e_name e) with
                       | Some (active_, sub) => Entry.note (Entry.note e #"active_state" active_) #"sub_state" sub
                       | None => e
                       end
           | _ => e
           end in
  if bool_decide (state = #"generated") then Entry.note e #"generated" #"true" else e.

(** The entry, and whether it was answered for. *)
Definition apply_one (self : manager) (e : Entry.entry) : Entry.entry * bool :=
  if negb (mem (e_kind e) [Kind.SystemdUnit; Kind.SystemdTimer]) then (e, false)
  else
    let template := template_file self e in
    let k := default (e_source e) template in
    match pm_get (by_path self) k with
    | None => (e, false)
    | Some f =>
        let e := if 1 <? size f then Entry.note e #"enablement_managers" (breakdown f) else e in
        match agreed (may_answer e) f with
        | None => (e, false)
        | Some (state, from) =>
            let e := keep_inferred e in
            (if bool_decide (is_Some template) then answer_by_template k state from e else answer_by_file self state from e, true)
        end
    end.
Definition apply (self : manager) (es : list Entry.entry) : list Entry.entry * nat :=
  let out := apply_one self <$> es in (fst <$> out, length (List.filter snd out)).

(** ** Asking *)

(** What a bus says before its deadline: the unit files and their states, and
    the units loaded. [None] where it cannot be reached or does not answer. *)
Abbreviation bus_says := (option (list (path * bytes) * list (bytes * (bytes * bytes)))).
Class Buses := { system_says : bus_says; user_says : N * bytes -> bus_says }.

Section query.
Context `{Buses}.

Definition user_id (uid : N) : bytes := #"user:" ++ dec uid.
Definition ask_user (held : option manager) (bus : N * bytes) : option manager :=
  match ('(files, units) ← user_says bus; from_bus (user_id (fst bus)) files units) with
  | None => held
  | Some answers => Some match held with Some acc => merge acc answers | None => answers end
  end.
Definition query_users (buses : list (N * bytes)) : option manager := foldl ask_user None buses.

Definition query (r : root) : prog (option manager) :=
  if negb (is_live r) then Ret None
  else
    let system := '(files, units) ← system_says; from_bus SYSTEM files units in
    buses ← user_buses r;
    let merged := match query_users buses with
                  | Some users => Some match system with Some system => merge system users | None => users end
                  | None => system
                  end in
    match merged with
    | None => Ret None
    | Some m => m ← canonical r m; Ret (Some m)
    end.
End query.

(** ** Laws *)

Lemma find_heard may f x :
  find (fun ms => bool_decide (fst ms = SYSTEM)) (heard may f) = Some x ->
  fst x = SYSTEM /\ may SYSTEM = true /\ f !! SYSTEM = Some (snd x).
Proof.
  intros Hf. apply find_some in Hf as [Hin Hs]. apply bool_decide_eq_true in Hs. apply list_elem_of_In in Hin.
  unfold heard in Hin. apply list_elem_of_In, filter_In in Hin as [Hin Hm]. apply list_elem_of_In in Hin.
  destruct x as [m s]. cbn in *. subst m. apply elem_of_btree_to_list in Hin. auto.
Qed.

(** What is agreed, every manager behind it was admitted and said. *)
Lemma agreed_heard may f state from :
  agreed may f = Some (state, from) -> from <> [] /\ forall m, m ∈ from -> may m = true /\ f !! m = Some state.
Proof.
  unfold agreed. destruct (find _ (heard may f)) as [[m s]|] eqn:Ef.
  - apply find_heard in Ef as (Em & Hm & Hs). cbn [fst snd] in *. subst m. intros [= <- <-]. split; [done|]. by intros m ->%list_elem_of_singleton.
  - destruct (heard may f) as [|[m0 s0] said] eqn:Eh; [done|]. destruct (existsb _ _) eqn:Ex; [done|]. intros [= <- <-].
    split; [done|]. intros m Hm. apply (list_elem_of_fmap fst ((m0, s0) :: said)) in Hm as ([m' s] & -> & Hin). cbn [fst].
    assert (Hs : s = s0).
    { destruct (decide (s = s0)) as [|Hne]; [done|]. exfalso. apply not_true_iff_false in Ex. apply Ex, existsb_exists.
      exists (m', s). split; [by apply list_elem_of_In|]. cbn. by rewrite bool_decide_false. }
    subst s. assert (Hin2 : (m', s0) ∈ heard may f) by (by rewrite Eh). unfold heard in Hin2.
    apply list_elem_of_In, filter_In in Hin2 as [Hin2 Hmay]. apply list_elem_of_In, elem_of_btree_to_list in Hin2. by split.
Qed.

Lemma may_answer_note e k v m :
  k <> key.SCOPE -> k <> key.SCOPE_UID -> may_answer (Entry.note e k v) m = may_answer e m.
Proof. intros H1 H2. unfold may_answer. cbn. by rewrite !lookup_insert_ne. Qed.

Lemma enabled_note e k v : e_enabled (Entry.note e k v) = e_enabled e.
Proof. done. Qed.
Lemma enabled_by_template k state from e : e_enabled (answer_by_template k state from e) = e_enabled e.
Proof. unfold answer_by_template. by destruct (mem _ _). Qed.
Lemma enabled_by_file m state from e : e_enabled (answer_by_file m state from e) = enablement_of state.
Proof.
  unfold answer_by_file. case_bool_decide; (destruct from as [|only []]; try done); by destruct (active m !! _) as [[]|].
Qed.
Lemma enabled_keep_inferred e : e_enabled (keep_inferred e) = e_enabled e.
Proof. unfold keep_inferred. by case_bool_decide. Qed.

Lemma apply_one_heard (self : manager) (e : Entry.entry) (e' := fst (apply_one self e)) :
  e_enabled e' = e_enabled e \/
  e_kind e ∈ [Kind.SystemdUnit; Kind.SystemdTimer] /\
  exists f m state, pm_get (by_path self) (e_source e) = Some f /\ may_answer e m = true /\ f !! m = Some state /\
    e_enabled e' = enablement_of state.
Proof.
  subst e'. unfold apply_one. destruct (mem (e_kind e) _) eqn:Ek; cbn [negb]; [|by left].
  unfold mem in Ek. apply bool_decide_eq_true in Ek.
  destruct (pm_get (by_path self) (default (e_source e) (template_file self e))) as [f|] eqn:Ef; [|by left].
  set (e1 := if 1 <? size f then _ else e). assert (Hm : forall m, may_answer e1 m = may_answer e m /\ e_enabled e1 = e_enabled e).
  { intros m. unfold e1. destruct (1 <? size f); [|done]. split; [by apply may_answer_note|done]. }
  clearbody e1. destruct (agreed (may_answer e1) f) as [[state from]|] eqn:Ea; [|left; apply (Hm [])]. cbn [fst].
  destruct (template_file self e) as [t|] eqn:Et; cbn [default] in Ef.
  - left. rewrite bool_decide_true by (by eexists). rewrite enabled_by_template, enabled_keep_inferred. apply (Hm []).
  - right. split; [done|]. rewrite bool_decide_false by (by intros []). apply agreed_heard in Ea as [Hne Hall].
    destruct from as [|m from]; [done|]. destruct (Hall m ltac:(by left)) as [Hmay Hs]. rewrite (proj1 (Hm m)) in Hmay.
    exists f, m, state. split; [done|]. split; [done|]. split; [done|]. apply enabled_by_file.
Qed.

(** A manager is heard only about units that are its business: an entry's
    enablement changes only to what some manager said of that entry's own file,
    that manager being the system's for a system unit, the account's own for a
    unit in a home, and a user's for one on the shared user path; and only a
    unit's or a timer's changes at all. *)
Theorem managers_confined (self : manager) (e : Entry.entry) (e' := fst (apply_one self e)) :
  e_enabled e' = e_enabled e \/
  e_kind e ∈ [Kind.SystemdUnit; Kind.SystemdTimer] /\
  exists f m state, pm_get (by_path self) (e_source e) = Some f /\ may_answer e m = true /\ f !! m = Some state /\
    e_enabled e' = enablement_of state.
Proof. apply apply_one_heard. Qed.

(** ** Who said it *)

Section speakers.
Context `{Buses}.

(** The answers a manager's name stands for: those its own bus gave. *)
Inductive speaks : bytes -> bytes -> Prop :=
| sp_system files units p state : system_says = Some (files, units) -> (p, state) ∈ files -> speaks SYSTEM state
| sp_user bus files units p state :
    user_says bus = Some (files, units) -> (p, state) ∈ files -> speaks (user_id (fst bus)) state.
Definition voiced (m : pmap unit_file) : Prop := map_Forall (fun _ qf => map_Forall speaks (snd qf)) m.

Lemma voiced_insert p f m : voiced m -> map_Forall speaks f -> voiced (pm_insert p f m).
Proof. intros Hm Hf. unfold voiced, pm_insert. by apply map_Forall_insert_2. Qed.
Lemma voiced_get p m f : voiced m -> pm_get m p = Some f -> map_Forall speaks f.
Proof.
  unfold pm_get. intros Hm Hf. destruct (m !! components p) as [[q g]|] eqn:E; [|done]. injection Hf as <-.
  apply (Hm _ _ E).
Qed.
Lemma voiced_default p m : voiced m -> map_Forall speaks (default ∅ (pm_get m p)).
Proof. intros Hm. destruct (pm_get m p) as [f|] eqn:E; [by eapply voiced_get|apply map_Forall_empty]. Qed.
Lemma voiced_fold_in p f m : voiced m -> map_Forall speaks f -> voiced (fold_in p f m).
Proof.
  intros Hm Hf. apply voiced_insert; [done|]. unfold extend. apply map_Forall_union_2; [done|by apply voiced_default].
Qed.
Lemma voiced_list m : voiced m -> Forall (fun pf => map_Forall speaks (snd pf)) (pm_list m).
Proof.
  intros Hm. apply Forall_forall. intros [p f] [k Hk]%elem_of_pm_list. apply (Hm _ _ Hk).
Qed.
Lemma voiced_foldl l m : voiced m -> Forall (fun pf => map_Forall speaks (snd pf)) l ->
  voiced (foldl (fun m pf => fold_in (fst pf) (snd pf) m) m l).
Proof.
  intros Hm Hl. revert m Hm. induction Hl as [|pf l Hpf _ IH]; intros m Hm; [done|]. apply IH. by apply voiced_fold_in.
Qed.

Lemma from_bus_voiced id files units m :
  from_bus id files units = Some m -> (forall p state, (p, state) ∈ files -> speaks id state) -> voiced (by_path m).
Proof.
  unfold from_bus. intros Hm Hf. destruct files as [|x files]; [done|]. injection Hm as <-. cbn [by_path].
  assert (Hgen : forall l m, (forall p state, (p, state) ∈ l -> speaks id state) -> voiced m ->
    voiced (foldl (fun m ps => pm_update ∅ (<[id := snd ps]>) (fst ps) m) m l)); [|apply (Hgen (x :: files)); [exact Hf|apply map_Forall_empty]].
  clear. induction l as [|[p state] l IH]; intros m Hl Hm; [done|]. cbn [foldl]. apply IH; [intros; eapply Hl; by right|].
  apply voiced_insert; [done|]. apply map_Forall_insert_2; [eapply Hl; by left|by apply voiced_default].
Qed.
Lemma merge_voiced m n : voiced (by_path m) -> voiced (by_path n) -> voiced (by_path (merge m n)).
Proof. intros Hm Hn. cbn [merge by_path]. apply voiced_foldl; [done|by apply voiced_list]. Qed.
Lemma canonical_voiced h r m : voiced (by_path m) -> voiced (by_path (run h (canonical r m))).
Proof.
  intros Hm. unfold canonical. rewrite run_bind, run_fold_prog. cbn [run by_path]. apply voiced_list in Hm.
  assert (Hgen : forall l m, Forall (fun pf => map_Forall speaks (snd pf)) l -> voiced m -> voiced (foldl (fun s a =>
    run h (p ← canonical_path r (fst a); Ret (fold_in p (snd a) s))) m l)); [|apply Hgen; [assumption|apply map_Forall_empty]].
  clear Hm. intros l m' Hl. revert m'. induction Hl as [|pf l Hpf _ IH]; intros m' Hm'; [done|]. cbn [foldl]. apply IH.
  rewrite run_bind. cbn [run]. by apply voiced_fold_in.
Qed.

Lemma query_users_voiced buses m : query_users buses = Some m -> voiced (by_path m).
Proof.
  unfold query_users. assert (Hgen : forall l held, (forall m, held = Some m -> voiced (by_path m)) ->
    forall m, foldl ask_user held l = Some m -> voiced (by_path m)); [|by apply Hgen].
  induction l as [|b l IH]; intros held Hh; [done|]. cbn [foldl]. apply IH. intros m0. unfold ask_user.
  destruct (user_says b) as [[files units]|] eqn:Es; cbn [mbind option_bind]; [|apply Hh].
  destruct (from_bus _ files units) as [a|] eqn:Eb; [|apply Hh]. intros [= <-].
  assert (Ha : voiced (by_path a)) by (eapply from_bus_voiced; [exact Eb|]; intros; by eapply sp_user).
  destruct held as [acc|]; [|done]. apply merge_voiced; [by apply Hh|done].
Qed.

Lemma query_voiced h r m : run h (query r) = Some m -> voiced (by_path m).
Proof.
  unfold query. destruct (is_live r); cbn [negb]; [|done]. cbv zeta. rewrite run_bind.
  set (system := '(files, units) ← system_says; from_bus SYSTEM files units).
  assert (Hsys : forall m, system = Some m -> voiced (by_path m)).
  { intros m0. unfold system. destruct system_says as [[files units]|] eqn:Es; [|done]. cbn [mbind option_bind]. intros Eb.
    eapply from_bus_voiced; [exact Eb|]. intros. by eapply sp_system. }
  clearbody system. destruct (query_users _) as [users|] eqn:Eu; [apply query_users_voiced in Eu|]; destruct system as [sy|];
    try done; rewrite run_bind; cbn [run]; intros [= <-]; apply canonical_voiced; auto using merge_voiced.
Qed.

End speakers.

Module DbusDemo.
#[local] Instance buses : Buses := {|
  system_says := Some ([( #"/usr/lib/systemd/system/a.service", #"disabled")], []);
  user_says := fun _ => Some ([( #"/usr/lib/systemd/system/a.service", #"enabled")], []) |}.
Definition live : root := mk_root Tree.root_fd #"/" true false [].
Definition tree : Tree.tree :=
  [( #"run", Tree.Dir 0 0x1ED); ( #"run/user", Tree.Dir 0 0x1ED); ( #"run/user/1000", Tree.Dir 1000 0x1C0);
   ( #"run/user/1000/bus", Tree.File 1000 0x1C0 []);
   ( #"usr", Tree.Dir 0 0x1ED); ( #"usr/lib", Tree.Dir 0 0x1ED); ( #"usr/lib/systemd", Tree.Dir 0 0x1ED);
   ( #"usr/lib/systemd/system", Tree.Dir 0 0x1ED)].
Definition answered : option manager := run (Tree.kernel tree) (query live).
Definition asked : manager := default (mk_manager pm_empty ∅) answered.
Definition unit_ : Entry.entry :=
  set_enabled (@Entry.new (fun x => x) Kind.SystemdUnit #"/usr/lib/systemd/system/a.service" #"a.service") Enablement.Static.
End DbusDemo.
Lemma dbus_demo_asked : run (Tree.kernel DbusDemo.tree) (@query DbusDemo.buses DbusDemo.live) = Some DbusDemo.asked.
Proof. vm_compute. reflexivity. Qed.
Example dbus_demo_answer :
  let '(e, answered) := apply_one DbusDemo.asked DbusDemo.unit_ in
  (e_enabled e, answered, e_raw e !! #"enablement_managers", e_raw e !! #"enablement_from") =
  (Enablement.Disabled, true, Some #"system=disabled, user:1000=enabled", Some #"system").
Proof. vm_compute. reflexivity. Qed.
