(* ===== verification/Enrich.v ===== *)
(** [src/enrich.rs], put together: the stages in their order, each of whose
    panics costs only its own facts. *)

From S2P Require Import Prelude Slices Order Num Utf8 Paths PathMap Kinds Entry Sys Root Tree Scan Provenance Backend.
From S2P Require Import Apk Pacman Rpm Dpkg Databases Collect Commands Targets Chain Judge Dbus ScanData.

(** ** Stages *)

Section staging.
(** One entry's pass: the entry as it leaves it, and its panic. *)
Abbreviation entry_pass := (Entry.entry -> prog (Entry.entry * option payload)).

Fixpoint per_entry (f : entry_pass) (name : bytes) (failed : list bytes) (es : list Entry.entry) : prog (list Entry.entry * list bytes) :=
  match es with
  | [] => Ret ([], failed)
  | e :: es =>
      x ← f e;
      let '(e, failed) :=
        match x with
        | (e, None) => (e, failed)
        | (e, Some p) =>
            (Entry.note e #"enrichment_failed" (name ++ #": " ++ panic_message p),
             failed ++ [name ++ #", entry " ++ Entry.short_id e ++ #": " ++ panic_message p])
        end in
      rest ← per_entry f name failed es;
      Ret (e :: fst rest, snd rest)
  end.
End staging.

(** The passes of the model do not panic, so the stages around them are taken
    as run whole. *)
Definition calm (f : Entry.entry -> prog Entry.entry) (e : Entry.entry) : prog (Entry.entry * option payload) :=
  e ← f e; Ret (e, None).

Definition set_enriched (h : header) (enablement_ : bytes) (failures : list bytes) (databases : option (list bytes)) : header :=
  mk_header (h_unbidden_version h) (h_schema_version h) (h_scan_time h) (h_hostname h) (h_kernel h) (h_distro_id h)
    (h_distro_version h) (h_distro_like h) (h_root h) (h_live h) (h_deep h) (h_privileged h) enablement_
    (h_collectors h) failures databases.

Section enrich.
Context `{ShellGrammar} `{Alphanumeric} `{Blake3} `{Digests} `{Strerror} `{Inflate} `{Sqlite} `{Buses}.

(** The entries with their targets settled, and those made of them. *)
Definition gather (r : root) (es : list Entry.entry) : prog (list Entry.entry) :=
  es ← resolve_bare_targets r (normalise_targets r es);
  x ← look_through_wrappers r es;
  let es := fst x ++ snd x in
  chained ← interpreter_chain r es;
  let es := es ++ chained in
  let es := es ++ preload_entries r es in
  Ret (es ++ interpreter_entries r es).

(** The pass over each entry once the answers are in. *)
Definition judge (r : root) (a : answers) (e : Entry.entry) : prog Entry.entry :=
  e ← apply_target r e;
  e ← apply_provenance r a e;
  Ret (apply_location r e).

(** What only the whole set decides. *)
Definition compare (r : root) (a : answers) (es : list Entry.entry) : list Entry.entry :=
  vouch_for_templates r a (vouch_for_sources (gate_on_super_server (cross_reference_suid (apply_shadowing es)))).

Definition enrich (r : root) (s : scan) : prog (option scan) :=
  es ← gather r (s_entries s);
  wanted ← paths_to_resolve r es;
  res ← Databases.resolve r wanted;
  let failed := (fun f => #"provenance: " ++ f) <$> rs_failures res in
  x ← per_entry (calm (judge r (rs_answers res))) #"provenance and targets" failed es;
  bus ← query r;
  let '(es, answered) := match bus with Some m => apply m (fst x) | None => (fst x, 0) end in
  let es := compare r (rs_answers res) es in
  y ← per_entry (calm (writable_search_path r)) #"search paths" (snd x) es;
  y ← per_entry (calm (setuid_changed_after_install r)) #"setuid bits" (snd y) (fst y);
  y ← per_entry (calm (fun e => Ret (apply_encoding e))) #"encoding" (snd y) (fst y);
  Ret (es ← dedup_ids (sort_by entry_key (fst y));
       let h := s_header s in
       let enablement_ := if 0 <? answered then #"systemd-dbus" else h_enablement h in
       Some (mk_scan (set_enriched h enablement_ (h_enrichment_failures h ++ snd y) (Some (rs_databases res))) es)).
End enrich.
