(* ===== verification/EnrichLaws.v ===== *)
(** [src/enrich.rs], the laws of the whole: what every pass keeps of an entry,
    what a verdict rests on, and that no entry is lost. *)

From S2P Require Import Prelude Slices Order Num Utf8 Paths PathMap Kinds Entry Sys Root Tree Scan Provenance Backend.
From S2P Require Import Apk Pacman Rpm Dpkg Databases Collect Commands Targets Chain Judge JudgeLaws Dbus ScanData Enrich.

(** ** What a pass keeps *)

(** All of an entry but its enablement, its verdicts, its flags and its notes. *)
Definition facts (e : Entry.entry) :=
  (e_id e, e_kind e, e_collector e, e_source e, e_name e, e_command e, e_target_path e, e_trigger e, e_principal e,
   e_owner_uid e, e_mode e, e_mtime e).
Definition verdict_note (e : Entry.entry) : option bytes := e_raw e !! TARGET_PROVENANCE.

Record steady (e e' : Entry.entry) : Prop := mk_steady {
  st_facts : facts e' = facts e;
  st_verdict : verdict_note e' = verdict_note e;
  st_provenance : e_provenance e' = e_provenance e
}.
#[export] Instance steady_preorder : PreOrder steady.
Proof. split; [done|]. intros a b c [] []. constructor; congruence. Qed.

Lemma steady_note e0 e k v : steady e0 e -> k <> TARGET_PROVENANCE -> steady e0 (Entry.note e k v).
Proof.
  intros [Hf Hv Hp] Hk. constructor; [exact Hf| |exact Hp]. rewrite <- Hv. unfold verdict_note. cbn. by apply lookup_insert_ne.
Qed.
Lemma steady_flag e0 e f : steady e0 e -> steady e0 (Entry.flag e f).
Proof. intros [Hf Hv Hp]. unfold Entry.flag. by destruct (mem f (e_flags e)). Qed.
Lemma steady_flag_if e0 e f b : steady e0 e -> steady e0 (flag_if b e f).
Proof. destruct b; [apply steady_flag|done]. Qed.
Lemma steady_enabled e0 e x : steady e0 e -> steady e0 (set_enabled e x).
Proof. by intros [Hf Hv Hp]. Qed.
Lemma steady_sha e0 e x : steady e0 e -> steady e0 (set_target_sha256 e x).
Proof. by intros [Hf Hv Hp]. Qed.
Lemma steady_unflag e0 e f : steady e0 e -> steady e0 (unflag e f).
Proof. by intros [Hf Hv Hp]. Qed.
Lemma steady_if (b : bool) e0 e e' : steady e0 e -> steady e0 e' -> steady e0 (if b then e else e').
Proof. by destruct b. Qed.

Create HintDb steady.
#[export] Hint Resolve steady_note steady_flag steady_flag_if steady_enabled steady_sha steady_unflag steady_if : steady.
#[export] Hint Extern 1 (steady ?e ?e) => reflexivity : steady.
#[export] Hint Extern 2 (_ <> TARGET_PROVENANCE) => (by vm_compute) : steady.
(** Case analysis down to the notes and flags a pass sets. *)
Ltac steady_cases :=
  repeat first
    [ progress cbn [run fst snd]
    | rewrite run_bind
    | match goal with
      | |- steady _ (match ?x with _ => _ end) => destruct x
      | |- steady _ (run _ (match ?x with _ => _ end)) => destruct x
      end ];
  eauto 10 with steady.

Section passes.
Context (h : snapshot) (r : root).

Lemma steady_location e : steady e (apply_location r e).
Proof. unfold apply_location. steady_cases. Qed.
Lemma steady_encoding e : steady e (apply_encoding e).
Proof. unfold apply_encoding. destruct (e_command e ≫= encoded_run) as [[[? ?] ?]|]; steady_cases. Qed.
Lemma steady_search e : steady e (run h (writable_search_path r e)).
Proof. unfold writable_search_path. steady_cases. Qed.
Lemma steady_setuid e : steady e (run h (setuid_changed_after_install r e)).
Proof. unfold setuid_changed_after_install. steady_cases. Qed.
Lemma steady_keep_inferred e0 e : steady e0 e -> steady e0 (keep_inferred e).
Proof. intros He. unfold keep_inferred. eauto with steady. Qed.
Lemma steady_by_template e0 k state from e : steady e0 e -> steady e0 (answer_by_template k state from e).
Proof. intros He. unfold answer_by_template. eauto 8 with steady. Qed.
Lemma steady_by_file e0 m state from e : steady e0 e -> steady e0 (answer_by_file m state from e).
Proof.
  intros He. unfold answer_by_file. apply steady_if; [apply steady_note; [|by vm_compute]|];
  destruct from as [|only []]; try destruct (active m !! _) as [[]|]; eauto 8 with steady.
Qed.
Lemma steady_apply_one m e : steady e (fst (apply_one m e)).
Proof.
  unfold apply_one. destruct (negb _); [done|]. destruct (pm_get _ _) as [f|]; [|done].
  set (e1 := if 1 <? size f then _ else e). assert (H1 : steady e e1) by (unfold e1; eauto with steady). clearbody e1.
  destruct (agreed _ f) as [[state from]|]; [|done]. cbn [fst].
  apply steady_if; [apply steady_by_template|apply steady_by_file]; by apply steady_keep_inferred.
Qed.
End passes.

(** ** What a verdict rests on *)

Section verdicts.
Context `{Digests}.
Context (h : snapshot) (r : root) (a : answers).

(** The databases' answer for a path, or for the file the link at it ends at. *)
Definition answered (p : path) (v : provenance) : Prop :=
  pm_get a p = Some v \/ exists q, run h (link_end r p) = Some q /\ pm_get a q = Some v.

(** The verdicts a target can be given, and what each rests on. *)
Inductive target_judged (p : path) : target_verdict -> Prop :=
| tj_unpackaged : answered p Provenance.Unpackaged -> target_judged p TargetVerdict.Unpackaged
| tj_directory package version i m :
    answered p (Provenance.Packaged package version i) -> run h (stat_follow r p) = Ok m -> m_is_dir m = true ->
    target_judged p (TargetVerdict.Directory package)
| tj_packaged package version i :
    answered p (Provenance.Packaged package version i) -> target_judged p (TargetVerdict.Packaged package i)
| tj_generated by_ : answered p (Provenance.GeneratedBy by_) -> target_judged p (TargetVerdict.Generated by_)
| tj_reproduced by_ : answered p (Provenance.Reproduced by_) -> target_judged p (TargetVerdict.Reproduced by_)
| tj_unknown : answered p Provenance.Unknown -> target_judged p TargetVerdict.Unknown
| tj_unanswered : pm_get a p = None -> target_judged p TargetVerdict.Unanswered.

Lemma run_through_link p v k e :
  pm_get a p = Some v ->
  exists v' e', run h (through_link r p v a k e) = (v', e') /\ answered p v' /\ (k <> TARGET_PROVENANCE -> steady e e').
Proof.
  intros Hv. assert (Hkeep : exists v' e', (v, e) = (v', e') /\ answered p v' /\ (k <> TARGET_PROVENANCE -> steady e e')).
  { exists v, e. split; [done|]. split; [by left|done]. }
  unfold through_link. destruct (match v with Provenance.Packaged _ _ i => changed i | _ => false end); [exact Hkeep|].
  rewrite run_bind. destruct (run h (link_end r p)) as [q|] eqn:Eq; [|exact Hkeep].
  rewrite run_bind. destruct (run h (stat_follow r q)) as [m|]; [|exact Hkeep].
  destruct (m_is_file m); [|exact Hkeep]. destruct (pm_get a q) as [w|] eqn:Ew; [|exact Hkeep].
  eexists _, _. split; [reflexivity|]. split; [right; by exists q|]. intros Hk. by apply steady_note.
Qed.

(** The verdict a pass leaves on an entry whose target is at [p]. *)
Definition rests (e e' : Entry.entry) (p : path) : Prop :=
  facts e' = facts e /\ e_provenance e' = e_provenance e /\
  (verdict_note e' = verdict_note e \/
   exists v, verdict_note e' = Some (TargetVerdict.words v) /\ target_judged p v).

Lemma rests_verdict e p v f (b : bool) :
  target_judged p v -> rests e (if b then Entry.flag (Entry.set_target_verdict e v) f else Entry.set_target_verdict e v) p.
Proof.
  intros Hv. assert (Hs : verdict_note (Entry.set_target_verdict e v) = Some (TargetVerdict.words v))
    by (apply lookup_insert_eq).
  destruct b; [|split; [done|]; split; [done|]; right; by exists v].
  destruct (steady_flag _ (Entry.set_target_verdict e v) f (reflexivity _)) as [Hf Hvn Hp].
  split; [by rewrite Hf|]. split; [by rewrite Hp|]. right. exists v. by rewrite Hvn.
Qed.

Lemma judge_target_rests p v e :
  match v with Some v => answered p v | None => pm_get a p = None end -> rests e (run h (judge_target r p v e)) p.
Proof.
  intros Hv. destruct v as [v|]; cbn [judge_target].
  - destruct v as [package version i|by_|by_| |]; cbn [run].
    + rewrite run_bind. destruct (match run h (stat_follow r p) with Ok m => m_is_dir m | Err _ => false end) eqn:Ed; cbn [run].
      * destruct (run h (stat_follow r p)) as [m|] eqn:Em; [|done]. apply (rests_verdict e p _ Flag.Unpackaged false).
        by eapply tj_directory.
      * apply rests_verdict. by eapply tj_packaged.
    + apply (rests_verdict e p _ Flag.Unpackaged false). by apply tj_generated.
    + apply (rests_verdict e p _ Flag.Unpackaged false). by apply tj_reproduced.
    + apply (rests_verdict e p _ Flag.Unpackaged true). by apply tj_unpackaged.
    + apply (rests_verdict e p _ Flag.Unpackaged false). by apply tj_unknown.
  - cbn [run]. destruct (Entry.target_verdict e); [split; [done|]; split; [done|]; by left|].
    apply (rests_verdict e p _ Flag.Unpackaged false). by apply tj_unanswered.
Qed.

Lemma steady_flag_verdict e0 v e : steady e0 e -> steady e0 (flag_verdict v e).
Proof. intros He. destruct v as [? ? []| | | |]; cbn [flag_verdict]; eauto with steady. Qed.

(** The verdict of the file an entry is about: an answer for it, or for the end
    of the link it is where the entry is about its target. *)
Lemma judge_source_rests p about e e' :
  run h (judge_source r p about a e) = e' ->
  facts e' = facts e /\ verdict_note e' = verdict_note e /\ (e_provenance e' = e_provenance e \/ answered p (e_provenance e')).
Proof.
  unfold judge_source. destruct (pm_get a p) as [v|] eqn:Ev; [|cbn; intros <-; auto].
  rewrite run_bind. intros <-. assert (Hx : exists v' e1, run h (if about then through_link r p v a #"resolves_to" e else Ret (v, e)) = (v', e1) /\
    answered p v' /\ steady e e1).
  { destruct about; [|exists v, e; split; [done|]; split; [by left|done]].
    destruct (run_through_link p v #"resolves_to" e Ev) as (v' & e1 & E & Ha & Hs). exists v', e1. split; [done|]. split; [done|].
    by apply Hs. }
  destruct Hx as (v' & e1 & -> & Ha & Hs). cbn [run]. destruct (steady_flag_verdict _ v' _ Hs) as [Hf Hv Hp].
  split; [exact Hf|]. split; [exact Hv|]. by right.
Qed.
End verdicts.

(** The file an entry is about: its target, if it is made of another entry or
    read from a kernel interface and nothing guards its target, or its source. *)
Definition subject (r : root) (e : Entry.entry) : path :=
  default (rel r (e_source e)) (if about_target r e && negb (is_guarded e) then rel r <$> e_target_path e else None).

(** Absent, and tested for before it would run. *)
Definition guarded_absent (h : snapshot) (r : root) (e : Entry.entry) (t : path) (v : target_verdict) : Prop :=
  exists how, v = TargetVerdict.AbsentGuarded how /\ run h (exists_ r (rel r t)) = false /\
    (e_raw e !! key.GUARDED_BY_TEST = Some how \/ e_raw e !! key.GUARDED_BY_CONDITION = Some how).

(** What a pass over one entry leaves of its verdicts, its target's resting
    on [R]. *)
Record judged_as `{Digests} (h : snapshot) (r : root) (a : answers) (R : path -> target_verdict -> Prop) (e e' : Entry.entry)
    : Prop := mk_judged_as {
  ja_facts : facts e' = facts e;
  ja_provenance : e_provenance e' = e_provenance e \/ exists p, p ∈ rel r (e_source e) :: option_list (rel r <$> e_target_path e) /\
    answered h r a p (e_provenance e');
  ja_verdict : verdict_note e' = verdict_note e \/
    exists v t, verdict_note e' = Some (TargetVerdict.words v) /\ e_target_path e = Some t /\ R t v
}.

Section judging.
Context `{Digests}.
Context (h : snapshot) (r : root) (a : answers).

Lemma facts_parts e e' : facts e' = facts e -> e_source e' = e_source e /\ e_target_path e' = e_target_path e.
Proof. unfold facts. intros [=]. by split. Qed.

Lemma steady_judged R e e1 e' : steady e1 e' -> judged_as h r a R e e1 -> judged_as h r a R e e'.
Proof. intros [Hf Hv Hp] [Jf Jp Jv]. constructor; rewrite ?Hf, ?Hv, ?Hp; done. Qed.
Lemma steady_is_judged R e e' : steady e e' -> judged_as h r a R e e'.
Proof. intros [Hf Hv Hp]. constructor; [done|by left..]. Qed.

Definition by_answer (t : path) (v : target_verdict) : Prop := target_judged h r a (rel r t) v.
Lemma apply_provenance_judged e : judged_as h r a by_answer e (run h (apply_provenance r a e)).
Proof.
  unfold apply_provenance. cbv zeta.
  set (subj := if about_target r e && negb (is_guarded e) then _ else None).
  set (e1 := match subj with Some s => _ | None => e end).
  assert (H1 : steady e e1) by (unfold e1; destruct subj; eauto with steady). clearbody e1.
  assert (Hs : default (rel r (e_source e)) subj ∈ rel r (e_source e) :: option_list (rel r <$> e_target_path e)).
  { unfold subj. destruct (_ && _); [|by left]. destruct (e_target_path e); [right|]; by left. }
  destruct (facts_parts e e1) as [Es _]; [apply H1|]. rewrite Es. set (source := default _ subj) in *. clearbody source subj.
  destruct (is_kernel_interface source); [apply steady_is_judged; cbn [run]; eauto with steady|].
  rewrite run_bind. set (e2 := run h (judge_source r source (about_target r e) a e1)).
  destruct (judge_source_rests h r a source _ e1 e2 eq_refl) as (F2 & V2 & P2). clearbody e2. destruct H1 as [F1 V1 P1].
  set (e3 := match e_raw e2 !! #"chain_from" with Some from => _ | None => e2 end).
  assert (H3 : steady e2 e3) by (unfold e3; destruct (e_raw e2 !! #"chain_from"); eauto with steady). clearbody e3.
  destruct H3 as [F3 V3 P3]. assert (Hbase : judged_as h r a by_answer e e3).
  { constructor; [congruence| |left; congruence]. rewrite P3. destruct P2 as [P2|P2]; [left; congruence|right; eauto]. }
  destruct (facts_parts e e3) as [_ Et]; [congruence|]. rewrite Et. destruct (e_target_path e) as [t|] eqn:Ht; [|exact Hbase].
  destruct (path_eqb (rel r t) source || is_guarded e); [exact Hbase|].
  assert (Hrest : forall e4, rests h r a e3 e4 (rel r t) -> judged_as h r a by_answer e e4).
  { intros e4 (F4 & P4 & V4). destruct Hbase as [Fb Pb Vb]. constructor; [congruence|by rewrite P4|].
    destruct V4 as [V4|(v & V4 & Hv)]; [by rewrite V4|]. right. exists v, t. rewrite Ht. eauto. }
  destruct (pm_get a (rel r t)) as [v|] eqn:Ea; [|by apply Hrest, judge_target_rests].
  rewrite run_bind. destruct (run_through_link h r a (rel r t) v #"target_resolves_to" e3 Ea) as (v' & e4 & -> & Hv' & H4).
  cbn [fst snd]. destruct (H4 ltac:(by vm_compute)) as [F4 V4 P4].
  destruct (judge_target_rests h r a (rel r t) (Some v') e4 Hv') as (F5 & P5 & V5).
  apply Hrest. split; [congruence|]. split; [congruence|]. by rewrite <- V4.
Qed.

Lemma steady_digest p e : steady e (run h (note_digest r p e)).
Proof. unfold note_digest. steady_cases. Qed.
Lemma steady_hashed p e : steady e (run h (apply_hashed r p e)).
Proof.
  unfold apply_hashed. rewrite run_bind. etransitivity; [apply (steady_digest p)|]. set (e1 := run h _). clearbody e1. steady_cases.
Qed.

Lemma apply_target_judged e : judged_as h r a (guarded_absent h r e) e (run h (apply_target r e)).
Proof.
  unfold apply_target. destruct (e_target_path e) as [t|] eqn:Ht.
  - destruct (unverifiable t); [apply steady_is_judged; cbn [run]; eauto with steady|].
    rewrite run_bind. eapply steady_judged; [apply steady_hashed|].
    destruct (run h (exists_ r (rel r t))) eqn:Ex; [by apply steady_is_judged|].
    unfold judge_absent. set (how := match e_raw e !! key.GUARDED_BY_TEST with Some _ => _ | None => _ end).
    destruct how as [w|] eqn:Eh; [|apply steady_is_judged; eauto with steady]. constructor; [done|by left|]. right.
    exists (TargetVerdict.AbsentGuarded w), t. split; [apply lookup_insert_eq|]. split; [done|]. exists w.
    split; [done|]. split; [done|]. subst how. destruct (e_raw e !! key.GUARDED_BY_TEST); [left; congruence|by right].
  - eapply steady_judged; [apply steady_hashed|]. apply steady_is_judged. eauto with steady.
Qed.

Lemma apply_target_provenance e : e_provenance (run h (apply_target r e)) = e_provenance e.
Proof.
  assert (Hh : forall p e, e_provenance (run h (apply_hashed r p e)) = e_provenance e) by (intros; apply steady_hashed).
  unfold apply_target. destruct (e_target_path e) as [t|]; [destruct (unverifiable t); [done|]; rewrite run_bind, Hh|rewrite Hh].
  - destruct (run h (exists_ r (rel r t))); [done|]. unfold judge_absent.
    destruct (match e_raw e !! _ with Some _ => _ | None => _ end); [done|]. by apply (steady_flag e e).
  - destruct (_ && _); [|done]. by apply (steady_flag e e).
Qed.

Lemma judge_judged e :
  judged_as h r a (fun t v => by_answer t v \/ guarded_absent h r e t v) e (run h (judge r a e)).
Proof.
  unfold judge. rewrite !run_bind. cbn [run]. eapply steady_judged; [apply steady_location|].
  pose proof (apply_target_provenance e) as Hp1. pose proof (apply_target_judged e) as [F1 _ V1].
  set (e1 := run h (apply_target r e)) in *. destruct (apply_provenance_judged e1) as [F2 P2 V2].
  destruct (facts_parts e e1 F1) as [Es Et]. rewrite Es, Et, Hp1 in P2. rewrite Et in V2.
  constructor; [congruence|exact P2|].
  destruct V2 as [V2|(v & t & V2 & Ht & Hv)]; [|right; exists v, t; auto]. rewrite V2.
  destruct V1 as [V1|(v & t & V1 & Ht & Hv)]; [by left|right; exists v, t; auto].
Qed.
End judging.

(** ** The entries gathered *)

(** What gathering never changes of an entry: all but its target and notes. *)
Definition identity (e : Entry.entry) :=
  (e_id e, e_kind e, e_collector e, e_source e, e_name e, e_command e, (e_enabled e, e_trigger e, e_principal e),
   (e_owner_uid e, e_mode e, e_mtime e), e_provenance e, verdict_note e).
Definition carried (e e' : Entry.entry) : Prop := identity e' = identity e.
#[export] Instance carried_preorder : PreOrder carried.
Proof. split; [done|]. intros a b c. unfold carried. congruence. Qed.

(** What an entry made of [c] has from it, and that it names it. *)
Definition origin (e : Entry.entry) :=
  (e_collector e, e_source e, (e_enabled e, e_trigger e, e_principal e), (e_owner_uid e, e_mode e, e_mtime e)).
Record made_of (c m : Entry.entry) : Prop := mk_made_of {
  mo_origin : origin m = origin c;
  mo_declared : e_raw m !! key.DECLARED_BY_ENTRY = Some (e_id c);
  mo_provenance : e_provenance m = Provenance.Unknown;
  mo_verdict : verdict_note m = None
}.

Lemma carried_note e0 e k v : carried e0 e -> k <> TARGET_PROVENANCE -> carried e0 (Entry.note e k v).
Proof.
  unfold carried. intros He Hk. rewrite <- He. unfold identity, verdict_note. cbn. by rewrite lookup_insert_ne.
Qed.
Lemma carried_target e0 e t : carried e0 e -> carried e0 (set_target_path e t).
Proof. done. Qed.
Lemma made_of_note c e k v :
  made_of c e -> k <> TARGET_PROVENANCE /\ k <> key.DECLARED_BY_ENTRY -> made_of c (Entry.note e k v).
Proof.
  intros [Ho Hd Hp Hv] [Hk Hk']. constructor; [exact Ho| |exact Hp|]; unfold verdict_note; cbn; by rewrite lookup_insert_ne.
Qed.
Lemma made_flag c e f : made_of c e -> made_of c (Entry.flag e f).
Proof. intros [Ho Hd Hp Hv]. unfold Entry.flag. by destruct (mem f (e_flags e)). Qed.
Lemma made_command c e x : made_of c e -> made_of c (with_command e x).
Proof. by intros []. Qed.
Lemma made_target c e x : made_of c e -> made_of c (set_target_path e x).
Proof. by intros []. Qed.
Lemma made_if (b : bool) c e e' : made_of c e -> made_of c e' -> made_of c (if b then e else e').
Proof. by destruct b. Qed.
Lemma made_carried c c' m : carried c c' -> made_of c' m -> made_of c m.
Proof.
  unfold carried, identity. intros [= E1 E2 E3 E4 E5 E6 E7 E8 E9 E10 E11 E12 E13 E14] [Ho Hd Hp Hv].
  constructor; [|by rewrite <- E1|done..]. rewrite Ho. unfold origin. congruence.
Qed.

Create HintDb made.
#[export] Hint Resolve carried_note carried_target made_of_note made_flag made_command made_target made_if : made.
#[export] Hint Extern 1 (carried ?e ?e) => reflexivity : made.
#[export] Hint Extern 2 (_ <> TARGET_PROVENANCE) => (by vm_compute) : made.
#[export] Hint Extern 2 (_ <> TARGET_PROVENANCE /\ _) => (split; by vm_compute) : made.

Section made.
Context `{ShellGrammar} `{Alphanumeric} `{Blake3}.
Context (h : snapshot) (r : root).

Lemma made_from_made c k name declared : made_of c (made_from r c k name declared).
Proof.
  unfold made_from. by destruct declared; constructor.
Qed.
Hint Resolve made_from_made : made.

Lemma carried_wrapped e0 by_ e : carried e0 e -> carried e0 (note_wrapped by_ e).
Proof. intros He. destruct by_; cbn [note_wrapped]; eauto with made. Qed.
Lemma carried_guard e0 text p e : carried e0 e -> carried e0 (note_guard text p e).
Proof. intros He. unfold note_guard. destruct (p ≫= _); eauto with made. Qed.
Lemma made_wrapped c by_ e : made_of c e -> made_of c (note_wrapped by_ e).
Proof. intros He. destruct by_; cbn [note_wrapped]; eauto with made. Qed.
Lemma made_guard c text p e : made_of c e -> made_of c (note_guard text p e).
Proof. intros He. unfold note_guard. destruct (p ≫= _); eauto with made. Qed.
Lemma carried_environment e0 e env : carried e0 e -> carried e0 (note_environment e env).
Proof.
  unfold note_environment. revert e. induction env as [|[k v] env IH]; intros e He; [done|]. cbn [foldl]. apply IH.
  unfold note_absent. destruct (e_raw e !! _); [done|]. apply carried_note; [done|]. cbn [fst]. discriminate.
Qed.
Hint Resolve carried_wrapped carried_guard made_wrapped made_guard carried_environment : made.

Lemma preload_made c variable library : made_of c (preload_entry r c variable library).
Proof. unfold preload_entry. eauto 10 with made. Qed.
Lemma variable_made c variable reads value : made_of c (variable_entry r c variable reads value).
Proof.
  unfold variable_entry. set (e := match named_file variable value with Some _ => _ | None => _ end).
  assert (He : made_of c e). { unfold e. destruct (named_file _ _); [apply made_if|]; eauto 10 with made. }
  eauto 10 with made.
Qed.
Lemma run_entry_made c script command n : made_of c (run h (run_entry r c script command n)).
Proof. unfold run_entry. rewrite run_bind. cbn [run]. eauto 10 with made. Qed.
Lemma link_entry_made c script head_ via referenced : made_of c (run h (link_entry r c script head_ via referenced)).
Proof.
  unfold link_entry. rewrite run_bind. cbn [run]. set (e := run h (link_target r _ _ _)).
  assert (He : made_of c e).
  { unfold e, link_target. destruct (is_absolute referenced); cbn [run]; [eauto with made|]. rewrite run_bind. cbn [run].
    destruct (run h (resolve_bare_command r _ _)); eauto with made. }
  clearbody e. eauto 10 with made.
Qed.

Lemma normalise_carried e : carried e (normalise_target r e).
Proof. unfold normalise_target. destruct (e_target_path e); eauto with made. Qed.
Lemma resolve_bare_carried e : carried e (run h (resolve_bare_target r e)).
Proof.
  unfold resolve_bare_target. destruct (_ || _); [done|]. destruct (e_command e); [|done]. rewrite run_bind. cbn [run].
  destruct (run h (resolve_bare_command r _ _)); eauto with made.
Qed.

(** What one pass makes of the entries before it. *)
Definition all_made (es made : list Entry.entry) : Prop := Forall (fun m => exists c, c ∈ es /\ made_of c m) made.
Lemma all_made_mono es es' made : (forall c, c ∈ es -> c ∈ es') -> all_made es made -> all_made es' made.
Proof. intros Hs Hm. eapply Forall_impl; [exact Hm|]. intros m (c & Hc & Hcm). exists c. auto. Qed.
Lemma all_made_one e made : Forall (made_of e) made -> all_made [e] made.
Proof. intros Hm. eapply Forall_impl; [exact Hm|]. intros m. exists e. split; [by left|done]. Qed.

Lemma list_runs_made script command total runs e listed st :
  let x := run h (list_runs r script command total e runs listed st) in
  carried e (fst x) /\ exists new, lk_out (snd x) = lk_out st ++ new /\ Forall (made_of e) new /\
    (listed <= MAX_COMMANDS_LISTED -> listed + length new <= MAX_COMMANDS_LISTED).
Proof.
  cbv zeta. revert listed st. induction runs as [|n runs IH]; intros listed st; cbn [list_runs].
  { split; [done|]. exists []. rewrite app_nil_r. split; [done|]. split; [constructor|]. cbn. lia. }
  case_bool_decide as Hl.
  { cbn [run fst snd]. split; [eauto with made|]. exists []. rewrite app_nil_r. split; [done|]. split; [constructor|]. cbn. lia. }
  case_bool_decide; [apply IH|]. rewrite run_bind. set (m := run h (run_entry r e script command n)).
  destruct (IH (S listed) (mk_looked (lk_out st ++ [m]) ({[(e_id e, run_name n)]} ∪ lk_seen st))) as (Hc & new & Eo & Hm & Hb).
  split; [exact Hc|]. exists (m :: new). rewrite Eo. cbn [lk_out]. rewrite <- app_assoc. split; [done|].
  split; [constructor; [apply run_entry_made|done]|]. cbn [length]. lia.
Qed.

Lemma look_through_made e st :
  let x := run h (look_through r e st) in
  carried e (fst x) /\ exists new, lk_out (snd x) = lk_out st ++ new /\ all_made [e] new /\ length new <= MAX_COMMANDS_LISTED.
Proof.
  cbv zeta. assert (Hsame : forall e', carried e e' -> carried e (fst (e', st)) /\
    exists new, lk_out (snd (e', st)) = lk_out st ++ new /\ all_made [e] new /\ length new <= MAX_COMMANDS_LISTED).
  { intros e' He. split; [done|]. exists []. rewrite app_nil_r. repeat split; [constructor|cbn; lia]. }
  assert (Hlist : forall script command total runs e', carried e e' ->
    let x := run h (list_runs r script command total e' runs 0 st) in carried e (fst x) /\
    exists new, lk_out (snd x) = lk_out st ++ new /\ all_made [e] new /\ length new <= MAX_COMMANDS_LISTED).
  { intros script command total runs e' He. destruct (list_runs_made script command total runs e' 0 st) as (Hc & new & Eo & Hm & Hb).
    split; [by etransitivity|]. exists new. split; [done|]. split; [|apply Hb; lia]. apply all_made_one.
    eapply Forall_impl; [exact Hm|]. intros m. by apply made_carried. }
  unfold look_through. destruct (_ && _); [by apply Hsame|]. destruct (e_command e) as [command|]; [|by apply Hsame].
  set (lines := commands _ 0). set (e1 := note_environment e (assignments lines)).
  assert (He1 : carried e e1) by (unfold e1; eauto with made). clearbody e1.
  destruct lines as [|[|first words] lines]; [by apply Hsame..|]. destruct (_ && _); [by apply Hsame|].
  destruct (runs_of _ _) as [|n [|n' runs]]; [by apply Hsame| |apply Hlist; eauto with made].
  destruct (bool_decide (is_Some (e_raw e !! key.SCRIPT_SHELL))); [apply Hlist; eauto with made|].
  destruct (_ && _ && _); [by apply Hsame|]. rewrite run_bind. apply Hsame. eauto 10 with made.
Qed.

Lemma look_through_from_made es st :
  let x := run h (look_through_from r es st) in
  Forall2 carried es (fst x) /\
  exists new, lk_out (snd x) = lk_out st ++ new /\ all_made es new /\ length new <= MAX_COMMANDS_LISTED * length es.
Proof.
  cbv zeta. revert st. induction es as [|e es IH]; intros st; cbn [look_through_from].
  { split; [constructor|]. exists []. rewrite app_nil_r. repeat split; [constructor|cbn; lia]. }
  rewrite !run_bind. destruct (look_through_made e st) as (Hc & new & Eo & Hm & Hl).
  set (x := run h (look_through r e st)) in *. destruct (IH (snd x)) as (Hc' & new' & Eo' & Hm' & Hl').
  cbn [run fst snd]. split; [by constructor|]. exists (new ++ new'). rewrite Eo', Eo, <- app_assoc. split; [done|]. split.
  - apply Forall_app. split; (eapply all_made_mono; [|eassumption]); intros c.
    + intros ->%list_elem_of_singleton. by left.
    + by right.
  - rewrite length_app. cbn [length]. lia.
Qed.

Lemma preloads_made es : all_made es (preload_entries r es).
Proof.
  unfold preload_entries. assert (Hgen : forall done_ st, all_made es (fst st) -> (forall c, c ∈ done_ -> c ∈ es) ->
    all_made es (fst (foldl (carrier_preloads r) st done_))); [|apply Hgen; [constructor|done]].
  induction done_ as [|c done_ IH]; intros st Hst Hin; [done|]. cbn [foldl]. apply IH; [|intros; apply Hin; by right].
  assert (Hc : c ∈ es) by (apply Hin; by left). clear IH Hin. unfold carrier_preloads. case_bool_decide; [done|].
  generalize (btree_to_list (e_raw c)). intros notes. revert st Hst. induction notes as [|kv notes IH]; intros st Hst; [done|].
  cbn [foldl]. apply IH. case_bool_decide; [|done]. generalize (words_by library_end (snd kv)). intros ls. clear IH.
  revert st Hst. induction ls as [|l ls IH]; intros st Hst; [done|]. cbn [foldl]. apply IH. unfold add_library.
  case_bool_decide; [done|]. apply Forall_app. split; [done|]. constructor; [|constructor].
  exists c. split; [done|apply preload_made].
Qed.

Lemma variables_made es : all_made es (interpreter_entries r es).
Proof.
  unfold interpreter_entries. apply Forall_bind. apply Forall_forall. intros c Hc.
  unfold compose, carrier_variables. case_bool_decide; [constructor|]. apply Forall_bind, Forall_true. intros vr. unfold compose. destruct (e_raw c !! (#"env." ++ fst vr)) as [[|]|]; [constructor| |constructor].
  constructor; [|constructor]. exists c. split; [done|apply variable_made].
Qed.

Lemma follow_link_made c script head_ st link es :
  c ∈ es -> all_made es (ch_out st) -> all_made es (ch_out (run h (follow_link r c script head_ st link))).
Proof.
  intros Hc Hst. unfold follow_link. destruct link as [via referenced]. unfold mark.
  set (there := if bool_decide (via = #"source") then _ else _). clearbody there.
  assert (Hgo : forall st, all_made es (ch_out st) -> all_made es (ch_out (run h (there ← there;
    if there : bool then e ← link_entry r c script head_ via referenced; Ret (mk_chained (ch_out st ++ [e]) (ch_seen st) (ch_declared st))
    else Ret st)))).
  { intros st' Hst'. rewrite run_bind. destruct (run h there); [|done]. rewrite run_bind. cbn [run ch_out].
    apply Forall_app. split; [done|]. constructor; [|constructor]. exists c. split; [done|apply link_entry_made]. }
  destruct (bool_decide (via = #"python")); (destruct (bool_decide (_ ∈ _)); [done|by apply Hgo]).
Qed.

Lemma chain_made es : all_made es (run h (interpreter_chain r es)).
Proof.
  unfold interpreter_chain. rewrite run_bind, run_fold_prog. cbn [run].
  assert (Hgen : forall done_ st, all_made es (ch_out st) -> (forall c, c ∈ done_ -> c ∈ es) ->
    all_made es (ch_out (foldl (fun st c => run h (follow r st c)) st done_))); [|apply Hgen; [constructor|done]].
  induction done_ as [|c done_ IH]; intros st Hst Hin; [done|]. cbn [foldl]. apply IH; [|intros; apply Hin; by right].
  assert (Hc : c ∈ es) by (apply Hin; by left). clear IH Hin. unfold follow. case_bool_decide; [done|]. rewrite run_bind.
  destruct (run h (stat_follow r _)) as [m|]; [|done]. destruct (m_is_file m); [|done]. rewrite run_bind.
  destruct (run h (Root.read_capped r _ _)) as [[head_ tr]|]; [|done]. rewrite run_bind, run_fold_prog.
  generalize (run h (links_of r (e_kind c) (rel r (default (e_source c) (e_target_path c))) head_)). intros links.
  revert st Hst. induction links as [|l links IH]; intros st Hst; [done|]. cbn [foldl]. apply IH. by apply follow_link_made.
Qed.
End made.

Lemma Forall2_fmap_r_self {A} (R : A -> A -> Prop) (f : A -> A) l : (forall x, R x (f x)) -> Forall2 R l (f <$> l).
Proof. intros Hf. induction l; constructor; auto. Qed.
Lemma Forall2_trans_rel {A} (R S T : A -> A -> Prop) l m n :
  (forall x y z, R x y -> S y z -> T x z) -> Forall2 R l m -> Forall2 S m n -> Forall2 T l n.
Proof.
  intros Ht H1. revert n. induction H1 as [|x y l m Hxy _ IH]; intros n H2; inversion H2; subst; constructor; eauto.
Qed.

(** ** The passes over the whole set *)

Abbreviation steadily := (Forall2 steady).
Lemma steadily_trans l m n : steadily l m -> steadily m n -> steadily l n.
Proof. apply Forall2_trans_rel. intros x y z. apply transitivity. Qed.

Lemma steadily_refl l : steadily l l.
Proof. induction l; constructor; [reflexivity|done]. Qed.

Lemma steady_gate d state e : steady e (gate d state e).
Proof. unfold gate. destruct (_ || _); [done|]. destruct state as [[x by_]|]; eauto 10 with steady. Qed.
Lemma gated es : steadily es (gate_on_super_server es).
Proof.
  unfold gate_on_super_server. generalize SUPER_SERVERS. intros ds. revert es.
  induction ds as [|d ds IH]; intros es; [apply steadily_refl|]. cbn [foldl].
  eapply steadily_trans; [apply Forall2_fmap_r_self, (steady_gate d (daemon_state es d))|apply IH].
Qed.
Lemma compared r a es : steadily es (compare r a es).
Proof.
  unfold compare. eapply steadily_trans; [|apply Forall2_fmap_r_self; intros e; unfold vouch_for_template; steady_cases].
  eapply steadily_trans; [|apply Forall2_fmap_r_self; intros e; unfold vouch_for_source; steady_cases].
  eapply steadily_trans; [|apply gated].
  eapply steadily_trans; [|apply Forall2_fmap_r_self; intros e; steady_cases].
  apply Forall2_fmap_r_self. intros e. eauto with steady.
Qed.

Section whole.
Context `{ShellGrammar} `{Alphanumeric} `{Blake3} `{Digests} `{Strerror} `{Inflate} `{Sqlite} `{Buses}.
Context (h : snapshot) (r : root).

Lemma run_gather es :
  run h (gather r es) =
  (let x := run h (look_through_wrappers r (run h (resolve_bare_targets r (normalise_targets r es)))) in
   let es := fst x ++ snd x in
   let es := es ++ run h (interpreter_chain r es) in
   let es := es ++ preload_entries r es in
   es ++ interpreter_entries r es).
Proof. unfold gather. rewrite run_bind, run_bind, run_bind. reflexivity. Qed.

Lemma gather_made es :
  exists kept made, run h (gather r es) = kept ++ made /\ Forall2 carried es kept /\ all_made (kept ++ made) made.
Proof.
  rewrite run_gather. unfold resolve_bare_targets. rewrite run_traverse.
  set (es1 := (fun e => run h (resolve_bare_target r e)) <$> normalise_targets r es).
  assert (Hc1 : Forall2 carried es es1).
  { unfold es1, normalise_targets. rewrite <- list_fmap_compose. apply Forall2_fmap_r_self. intros e. unfold compose.
    etransitivity; [apply normalise_carried|apply resolve_bare_carried]. }
  clearbody es1. unfold look_through_wrappers. rewrite run_bind. cbv zeta. cbn [run fst snd].
  destruct (look_through_from_made h r es1 (mk_looked [] ∅)) as (Hc2 & new & Eo & Hm & _).
  set (x := run h (look_through_from r es1 (mk_looked [] ∅))) in *. cbn [lk_out app] in Eo. rewrite Eo. set (es2 := fst x ++ new).
  pose proof (chain_made h r es2) as Hch. set (ch := run h (interpreter_chain r es2)) in *.
  pose proof (preloads_made r (es2 ++ ch)) as Hpre. set (pre := preload_entries r (es2 ++ ch)) in *.
  pose proof (variables_made r ((es2 ++ ch) ++ pre)) as Hvars. set (vars := interpreter_entries r ((es2 ++ ch) ++ pre)) in *.
  exists (fst x), (new ++ ch ++ pre ++ vars). unfold es2 in *. rewrite <- !app_assoc in *. split; [done|].
  split; [eapply Forall2_trans_rel; [|exact Hc1|exact Hc2]; intros; by etransitivity|].
  assert (Hsub : forall l l1 l2 : list Entry.entry, all_made l1 l2 -> (forall c, c ∈ l1 -> c ∈ l) -> all_made l l2)
    by (intros; by eapply all_made_mono).
  assert (Hnew : all_made (fst x) new).
  { apply Forall_forall. intros m Hmi. unfold all_made in Hm. rewrite Forall_forall in Hm. destruct (Hm m Hmi) as (c & Hci & Hcm).
    apply list_elem_of_lookup in Hci as [i Hi]. destruct (Forall2_lookup_l _ _ _ _ _ Hc2 Hi) as (c' & Hi' & Hcc).
    exists c'. split; [by eapply list_elem_of_lookup_2|]. eapply made_carried; [|exact Hcm]. by symmetry. }
  repeat apply Forall_app_2; (eapply Hsub; [eassumption|]); intros c; rewrite ?elem_of_app; tauto.
Qed.

Lemma run_per_entry_calm f name failed es :
  run h (per_entry (calm f) name failed es) = ((fun e => run h (f e)) <$> es, failed).
Proof.
  induction es as [|e es IH]; [done|]. cbn [per_entry]. rewrite !run_bind. unfold calm at 1. rewrite run_bind. cbn [run].
  rewrite run_bind, IH. done.
Qed.

(** The passes behind the databases' answers, over all entries. *)
Definition asked_for (es : list Entry.entry) : pset := run h (paths_to_resolve r es).
Definition answers_for_all (es : list Entry.entry) : answers := rs_answers (run h (Databases.resolve r (asked_for es))).
Definition bus_applied (es : list Entry.entry) : list Entry.entry :=
  match run h (query r) with Some m => fst (apply m es) | None => es end.
Definition last_passes (e : Entry.entry) : Entry.entry :=
  apply_encoding (run h (setuid_changed_after_install r (run h (writable_search_path r e)))).
Definition enriched (s : scan) : list Entry.entry :=
  let g := run h (gather r (s_entries s)) in
  last_passes <$> compare r (answers_for_all g) (bus_applied ((fun e => run h (judge r (answers_for_all g) e)) <$> g)).

Lemma run_enrich s :
  (fun s => s_entries s) <$> run h (enrich r s) = dedup_ids (sort_by entry_key (enriched s)).
Proof.
  unfold enrich. rewrite run_bind. set (g := run h (gather r (s_entries s))). rewrite run_bind. fold (asked_for g).
  rewrite run_bind. cbv zeta. set (res := run h (Databases.resolve r (asked_for g))). rewrite run_bind, run_per_entry_calm.
  rewrite run_bind. unfold enriched. cbv zeta. fold g. unfold answers_for_all, bus_applied. fold res. cbn [fst snd].
  set (es := (fun e => run h (judge r (rs_answers res) e)) <$> g). clearbody es.
  assert (Hend : forall es answered, (fun s => s_entries s) <$> run h
    (y ← per_entry (calm (writable_search_path r)) #"search paths" ((fun f => #"provenance: " ++ f) <$> rs_failures res) es;
     y ← per_entry (calm (setuid_changed_after_install r)) #"setuid bits" (snd y) (fst y);
     y ← per_entry (calm (fun e => Ret (apply_encoding e))) #"encoding" (snd y) (fst y);
     Ret (es ← dedup_ids (sort_by entry_key (fst y));
       let hd := s_header s in
       let enablement_ := if 0 <? answered then #"systemd-dbus" else h_enablement hd in
       Some (mk_scan (set_enriched hd enablement_ (h_enrichment_failures hd ++ snd y) (Some (rs_databases res))) es))) =
    dedup_ids (sort_by entry_key (last_passes <$> es))).
  { intros es' answered. rewrite run_bind, run_per_entry_calm. cbn [fst snd]. rewrite run_bind, run_per_entry_calm. cbn [fst snd].
    rewrite run_bind, run_per_entry_calm. cbn [fst snd run]. rewrite <- !list_fmap_compose.
    change (fmap _ es') with (last_passes <$> es'). by destruct (dedup_ids _). }
  destruct (run h (query r)) as [m|]; [destruct (apply m es) as [es' answered] eqn:Ea; cbn [fst]|]; apply Hend.
Qed.

Lemma enriched_judged s :
  let g := run h (gather r (s_entries s)) in
  Forall2 (fun e e' => judged_as h r (answers_for_all g)
    (fun t v => by_answer h r (answers_for_all g) t v \/ guarded_absent h r e t v) e e') g (enriched s).
Proof.
  cbv zeta. unfold enriched. cbv zeta. set (g := run h (gather r (s_entries s))). set (a := answers_for_all g). clearbody a g.
  set (es := (fun e => run h (judge r a e)) <$> g).
  assert (Hst : steadily es (last_passes <$> compare r a (bus_applied es))).
  { eapply steadily_trans; [|apply Forall2_fmap_r_self; intros e; unfold last_passes;
      do 2 (etransitivity; [|apply steady_encoding || apply steady_setuid]); apply steady_search].
    eapply steadily_trans; [|apply compared]. unfold bus_applied. destruct (run h (query r)) as [m|].
    - unfold apply. cbn [fst]. rewrite <- list_fmap_compose. apply Forall2_fmap_r_self. intros e. apply steady_apply_one.
    - apply steadily_refl. }
  assert (Hj : forall l, Forall2 (fun e e' => e' = run h (judge r a e)) l ((fun e => run h (judge r a e)) <$> l))
    by (induction l; constructor; auto).
  eapply Forall2_trans_rel; [|exact (Hj g)|exact Hst].
  intros e e1 e' -> Hs. eapply steady_judged; [exact Hs|]. apply judge_judged.
Qed.
End whole.

(** ** Properties *)

Section deduping.
Context `{Blake3}.
Lemma dedup_loop_named fuel seen e c k name id :
  dedup_loop fuel seen e c = Some (k, name, id) ->
  exists n, name = suffixed (e_name e) n /\ id = Entry.entry_id (e_kind e) (e_source e) name.
Proof.
  revert c. induction fuel as [|fuel IH]; intros c; [done|]. cbn [dedup_loop]. cbv zeta.
  case_bool_decide; [apply IH|]. intros [= <- <- <-]. by eexists.
Qed.
Lemma dedup_from_deduped st es out : dedup_from st es = Some out -> Forall2 deduped es out.
Proof.
  revert st out. induction es as [|e es IH]; intros st out; cbn [dedup_from]; [intros [= <-]; constructor|].
  destruct (dedup_step st e) as [[st' e']|] eqn:Es; [|done]. cbn [mbind option_bind].
  destruct (dedup_from st' es) as [out'|] eqn:Eo; [|done]. cbn [mbind option_bind]. intros [= <-].
  constructor; [|by eapply IH]. unfold dedup_step in Es. destruct (bool_decide _); [|injection Es as _ <-; by left].
  destruct (dedup_loop _ _ _ _) as [[[k name] id]|] eqn:El; [|done]. injection Es as _ <-.
  apply dedup_loop_named in El as (n & -> & ->). right. by exists n.
Qed.
End deduping.

Section properties.
Context `{ShellGrammar} `{Alphanumeric} `{Blake3} `{Digests} `{Strerror} `{Inflate} `{Sqlite} `{Buses}.
Context (h : snapshot) (r : root).


(** C4. Enrichment loses no entry and ends: where BLAKE3 does not collide on
    what telling ids apart hashes, there is a scan, no two of whose entries share
    an id; up to those ids its entries are those gathered, in the order of kind,
    source and name, with the identity, source, command, target, principal and
    owner they were gathered with. *)
Theorem enrich_complete (s : scan) (pre := sort_by entry_key (enriched h r s)) :
  collision_free (suffixed_of pre (length pre)) -> (N.of_nat (length pre) + 3 < 2 ^ 32)%N ->
  exists s' es, run h (enrich r s) = Some s' /\ NoDup (e_id <$> s_entries s') /\
    Forall2 (fun e e' => facts e' = facts e) (run h (gather r (s_entries s))) es /\
    pre ≡ₚ es /\ StronglySorted (key_le entry_key) pre /\ Forall2 deduped pre (s_entries s').
Proof.
  intros Hfree Hroom. destruct (dedup_ids_ok pre Hfree Hroom) as (out & Eo & Hn & Hd & _).
  pose proof (run_enrich h r s) as E. fold pre in E. rewrite Eo in E. destruct (run h (enrich r s)) as [s'|]; [|done].
  injection E as <-. exists s', (enriched h r s). split; [done|]. split; [done|]. split.
  - eapply Forall2_impl; [apply enriched_judged|]. by intros e e' [].
  - split; [apply sort_by_perm|]. split; [apply sort_by_sorted|done].
Qed.

(** The file a target's verdict was decided by is verified: packaged and
    intact, or reproduced from files that are; or the target is a directory of
    a package, or is not there and was to be tested for. *)
Inductive backed (asked : pset) (t : path) : target_verdict -> Prop :=
| bk_file q ans v :
    (q = t \/ run h (link_end r t) = Some q) -> justified h r asked q ans -> Provenance.is_verified ans = true -> backed asked t v
| bk_directory q package version i m :
    (q = t \/ run h (link_end r t) = Some q) -> justified h r asked q (Provenance.Packaged package version i) ->
    run h (stat_follow r t) = Ok m -> m_is_dir m = true -> backed asked t (TargetVerdict.Directory package)
| bk_absent how : run h (exists_ r t) = false -> backed asked t (TargetVerdict.AbsentGuarded how).

Lemma answered_justified es p v :
  answered h r (answers_for_all h r es) p v ->
  exists q, (q = p \/ run h (link_end r p) = Some q) /\ justified h r (run h (asked_of r (asked_for h r es))) q v.
Proof.
  unfold answered, answers_for_all. intros [Hp|(q & Hq & Hp)]; rewrite resolve_get in Hp; apply answer_justified in Hp.
  - exists p. auto.
  - exists q. auto.
Qed.

Lemma judged_backed es t v :
  by_answer h r (answers_for_all h r es) t v -> TargetVerdict.is_verified v = true ->
  backed (run h (asked_of r (asked_for h r es))) (rel r t) v.
Proof.
  intros [Ha|package version i m Ha Hm Hd|package version i Ha|by_ Ha|by_ Ha|Ha|Ha] Hv; try done.
  - apply answered_justified in Ha as (q & Hq & Hj). by eapply bk_directory.
  - apply answered_justified in Ha as (q & Hq & Hj). eapply bk_file; [done|done|]. by destruct i.
  - apply answered_justified in Ha as (q & Hq & Hj). by eapply bk_file.
Qed.

Lemma gather_fresh es :
  Forall (fun e => e_provenance e = Provenance.Unknown /\ verdict_note e = None) es ->
  Forall (fun e => e_provenance e = Provenance.Unknown /\ verdict_note e = None) (run h (gather r es)).
Proof.
  intros Hes. destruct (gather_made h r es) as (kept & made & -> & Hk & Hm). apply Forall_app. split.
  - clear Hm. induction Hk as [|e e' es kept He _ IH]; [constructor|]. apply Forall_cons in Hes as [[Hp Hv] Hes].
    constructor; [|by apply IH]. unfold carried, identity in He. injection He as _ _ _ _ _ _ _ _ _ _ _ _ Ep Ev. split; congruence.
  - eapply Forall_impl; [exact Hm|]. by intros m (c & _ & []).
Qed.

End properties.

(** ** A scan enriched *)

Module EnrichDemo.
(** Words apart by blanks, and no syntax but those. *)
Fixpoint word_nodes (i : nat) (words : list bytes) : list node :=
  match words with
  | [] => []
  | w :: words => Node #"word" true i (i + length w) [] :: word_nodes (i + length w + 1) words
  end.
Definition command_node (text : bytes) : node :=
  match word_nodes 0 (split_on (is_byte " ") text) with
  | [] => Node #"program" true 0 0 []
  | Node k b i j cs :: nodes => Node #"command" true 0 (length text) (Node #"command_name" true i j [Node k b i j cs] :: nodes)
  end.
#[local] Instance grammar : ShellGrammar := fun text => Some (command_node text, false).
#[local] Instance alphanumeric : Alphanumeric := fun c => (c <? 128)%N && is_ascii_alphanumeric (byte_of_N c).
#[local] Instance blake3 : Blake3 := fun x => x.
#[local] Instance digests : Digests := PacmanDemo.digests.
#[local] Instance strerror : Strerror := PacmanDemo.strerror.
#[local] Instance inflate : Inflate := ApkDemo.stored.
#[local] Instance sqlite : Sqlite := DatabasesDemo.none_stored.
#[local] Instance buses : Buses := {| system_says := None; user_says := fun _ => None |}.

Definition host : Tree.tree :=
  ApkSmall.host ++ [( #"x", Tree.File 0 0x1ED #"binary"); ( #"tmp", Tree.Dir 0 0x3FF); ( #"tmp/evil", Tree.File 1000 0x1ED #"binary")].
Definition kernel : snapshot := Tree.kernel host.
Definition job (name command : bytes) : Entry.entry :=
  with_command (Entry.new Kind.Cron #"/mnt/etc/crontab" name) (Some command).
Definition header : header :=
  mk_header #"0.3.4" 1 0 #"host" [] [] [] [] #"/mnt" false false true inferred [] [] None.
Definition before : scan := mk_scan header [job #"a" #"nohup /x"; job #"b" #"nice -n 5 /tmp/evil"].
Definition after : option scan := run kernel (enrich Tree.offline before).
Definition shown (e : Entry.entry) := (e_name e, e_target_path e, verdict_note e, e_flags e).
Definition scanned : scan := default before after.
Definition job_a : Entry.entry := default (job [] []) (head (s_entries scanned)).
End EnrichDemo.

Example enrich_demo :
  (fun s => EnrichDemo.shown <$> s_entries s) <$> EnrichDemo.after =
  Some [( #"a", Some #"/mnt/x", Some #"a (unknown)", [Flag.Unpackaged]);
        ( #"b", Some #"/mnt/tmp/evil", Some #"unpackaged", [Flag.Unpackaged])].
Proof. vm_compute. reflexivity. Qed.

Lemma enrich_demo_scanned : run EnrichDemo.kernel (@enrich EnrichDemo.grammar EnrichDemo.alphanumeric EnrichDemo.blake3
    EnrichDemo.digests EnrichDemo.strerror EnrichDemo.inflate EnrichDemo.sqlite EnrichDemo.buses Tree.offline EnrichDemo.before) =
  Some EnrichDemo.scanned.
Proof. vm_compute. reflexivity. Qed.
Lemma enrich_demo_job : EnrichDemo.job_a ∈ s_entries EnrichDemo.scanned /\ verdict_note EnrichDemo.job_a = Some #"a (unknown)".
Proof. split; [vm_compute; left|vm_compute; reflexivity]. Qed.

Lemma enrich_complete_witness :
  exists s' es, EnrichDemo.after = Some s' /\ NoDup (e_id <$> s_entries s') /\
    Forall2 (fun e e' => facts e' = facts e) (run EnrichDemo.kernel (@gather EnrichDemo.grammar EnrichDemo.alphanumeric
      EnrichDemo.blake3 Tree.offline (s_entries EnrichDemo.before))) es.
Proof.
  destruct (@enrich_complete EnrichDemo.grammar EnrichDemo.alphanumeric EnrichDemo.blake3 EnrichDemo.digests EnrichDemo.strerror
    EnrichDemo.inflate EnrichDemo.sqlite EnrichDemo.buses EnrichDemo.kernel Tree.offline EnrichDemo.before) as (s' & es & E & Hn & Hf & _).
  - intros x y _ _ E. exact E.
  - vm_compute. reflexivity.
  - exists s', es. exact (conj E (conj Hn Hf)).
Defined.


(** ** Panics and bounds *)

(** What a panicking pass leaves on the entry, and in the header. *)
Definition marked (name : bytes) (x : Entry.entry * option payload) : Entry.entry :=
  match x with
  | (e, Some p) => Entry.note e #"enrichment_failed" (name ++ #": " ++ panic_message p)
  | (e, None) => e
  end.
Definition complaint (name : bytes) (x : Entry.entry * option payload) : option bytes :=
  match x with
  | (e, Some p) => Some (name ++ #", entry " ++ Entry.short_id e ++ #": " ++ panic_message p)
  | (_, None) => None
  end.

(** A pass that panics on an entry costs that entry its facts and no other
    any: whatever the pass does elsewhere, each entry comes out as the pass leaves
    it alone, marked where it panicked; none is dropped, and the header has one
    complaint for each panic, in their order, behind what it had. *)
Theorem per_entry_isolated (h : snapshot) (f : Entry.entry -> prog (Entry.entry * option payload)) (name : bytes)
    (failed : list bytes) (es : list Entry.entry) :
  run h (per_entry f name failed es) =
  ((fun e => marked name (run h (f e))) <$> es, failed ++ omap (fun e => complaint name (run h (f e))) es).
Proof.
  revert failed. induction es as [|e es IH]; intros failed; cbn [per_entry]; [by rewrite app_nil_r|].
  rewrite run_bind, fmap_cons. cbn [omap list_omap]. destruct (run h (f e)) as [e' [p|]]; cbn [marked complaint];
    rewrite run_bind, IH; cbn [run fst snd]; [by rewrite <- app_assoc|done].
Qed.

(** Text an author chooses cannot flood a scan: looking through the commands
    of entries adds at most 32 entries for each and leaves each entry its id,
    its source and its verdicts. *)
Theorem commands_bounded `{ShellGrammar} `{Alphanumeric} `{Blake3} (h : snapshot) (r : root) (es : list Entry.entry)
    (x := run h (look_through_wrappers r es)) :
  length (snd x) <= MAX_COMMANDS_LISTED * length es /\ Forall2 carried es (fst x).
Proof.
  subst x. unfold look_through_wrappers. rewrite run_bind. cbn [run fst snd].
  destruct (look_through_from_made h r es (mk_looked [] ∅)) as (Hc & new & Eo & _ & Hl). cbn [lk_out app] in Eo. by rewrite Eo.
Qed.

(** An option of [env] that takes a value has its value taken for the program:
    the file a script is run by is reported as [ls]. *)
Theorem env_value_taken :
  interpreter_of #" /usr/bin/env -S -u ls /tmp/evil" = Some #"ls" /\
  wr_valued <$> wrapper #"env" = Some [ #"-u"; #"-C"; #"--unset"; #"--chdir"].
Proof. split; vm_compute; reflexivity. Qed.
